(* ===== verification/_CoqProject ===== *)
-Q . S2P
Prelude.v
Text.v
F64.v
FixedHeader.v
Rmqtt.v
Errors.v
Decoder.v
Packet.v
Handshake.v
Api.v
Channel.v
Runtime.v
Session.v
SessionSafety.v
SessionSpec.v
Termination.v
Sessions.v
Scripted.v
Stream.v
ScriptedSpec.v
Worker.v
Broker.v
Twin.v
Wire.v
SimpleBroker.v
Recorder.v
RunRecord.v
Generator.v
Pacer.v
Analysis.v
Rates.v
Percentile.v
Validity.v
CpuSet.v
Sorting.v
Verdict.v
Matrix.v
Counter.v
Runner.v
Probe.v
ProbeSpec.v
Doc.v
DocSpec.v
DocText.v
MatrixSafety.v
RunnerSpec.v
Endpoint.v
EndpointSpec.v
GenConn.v
GenSpec.v
Latency.v
LatencySpec.v
GenRun.v
LatencyRun.v
Cli.v
CliSpec.v
Build.v
MatrixRounds.v
MatrixSession.v
