(* ===== verification/Prelude.v ===== *)
(** * uring-mqtt: a verification development

    uring-mqtt is an MQTT 3.1.1/5.0 ingest server: it accepts PUBLISH packets
    at any QoS and hands each to a callback; it has no subscriptions.  Every
    worker thread runs its own io_uring event loop, accepts connections on a
    shared port and passes publishes to an event processor through a bounded
    channel.  The repository's [src/] is the server and [examples/] a program
    on top of it; [bench/] compares it with a tokio twin of the same session
    code: a load generator, measuring endpoints, a runner of single runs, a
    matrix of runs with its records, the analysis of a record and a document
    rendered from the records.

    ** The server and the files that model it

    - [FixedHeader]: src/codec/mqtt.rs, the inbound size bound and the scanner
      that reads a fixed header without consuming it.
    - [Rmqtt]: the types of the rmqtt-codec dependency and the class
      [RmqttCodec] of its codec functions.  The dependency is a parameter.
    - [Errors]: src/error.rs, with the part of [io::Error] the code looks at.
    - [Decoder]: the codecs around the dependency, of src/codec/mqtt.rs,
      src/codec/version.rs and [CodecPair] of src/broker/runtime.rs.
      [RmqttFraming] states what the code relies on of the dependency.
    - [Packet]: src/broker/packet.rs, the pure decision [dispatch] on a packet,
      the replies and violations, the size gates and the bitset of QoS 2 ids
      awaiting release.  [ReleaseSet] is the interface [dispatch] uses; the
      bitset and [gset Z] are its two instances.
    - [Handshake]: src/broker/handshake.rs and src/connection.rs.
    - [Api]: configuration and [Publish] of src/broker/mod.rs.
    - [Channel]: the event channel of src/broker/worker.rs over the local_sync
      dependency (classes [LocalSync], [LocalSyncSpec]; [FifoSync] is a
      concrete instance).  [chan_step] interleaves offers, holds, wake-ups,
      timeouts, cancellations and receives.
    - [Runtime]: the traits of src/broker/runtime.rs as the class [Runtime],
      an error-and-trace monad [M] for [async] code, and a weakest-precondition
      calculus over it.  A future under [T::timeout] is a function of its
      deadline.
    - [Session]: src/broker/handler.rs, every function of it.
      [SessionSafety], [SessionSpec] and [Termination] prove its invariants,
      [Sessions] states them and runs a scripted peer.
    - [Scripted]: the monoio adapters of src/broker/runtime.rs and the
      in-memory client of src/broker/fuzz.rs, an instance of [Runtime] that
      starts from bytes.  monoio-codec's [Framed] is the class [MonoioFramed].
      [Stream] shows that frames do not depend on how a stream is cut into
      reads, [ScriptedSpec] that a session is a function of its bytes.
    - [Worker]: [WorkerState], [process_events] and [run_worker] of
      src/broker/worker.rs.  The run after the go barrier is the relation
      [worker_step]; what a session does to the channel is [chan_step].
    - [Broker]: start, shutdown, supervision and join of src/broker/mod.rs.
    - [SimpleBroker]: examples/simple_broker.rs.

    ** The benchmark and the files that model it

    - [Text], [F64]: what the harness uses of Rust's [str] and [f64].
    - [Twin]: bench/src/twin.rs, the tokio server, as the relation [twin_step].
    - [Wire], [Recorder]: bench/src/payload.rs, wire.rs and record.rs.
      hdrhistogram is a parameter of [Recorder].
    - [Endpoint], [EndpointSpec]: bench/src/server.rs and sub.rs, from their
      standard input to their reports, with the ARM line and the loads per
      worker of record.rs.
    - bench/src/gen.rs, the load generator.  [Generator]: packet ids, slots,
      configuration.  [GenConn], [GenSpec]: sessions and the closed-loop
      connections; a QoS 1 connection is the step function [q1_step] of its
      writer and its reader.  [Pacer]: the open-loop pacer as a function of a
      world ([PacerWorld], [PacerLaws]), with its termination.  [Latency],
      [LatencySpec]: the pacer and its reader interleaved ([l_step]).
      [GenRun], [LatencyRun]: counters, join, report and run.
    - [RunRecord]: bench/src/run_record.rs.
    - bench/src/analysis.rs.  [Analysis]: [derive], [reconcile], [recompute]
      and percentiles; [CpuSet]: [cpu_count]; [Verdict]: medians, spreads and
      outcomes.  [Percentile], [Rates] and [Validity] relate them to exact
      arithmetic, [Sorting] holds what they need of stable sorts and groups.
    - bench/src/matrix.rs.  [Matrix] over a world of files with faults;
      [MatrixSafety], [MatrixRounds] and [MatrixSession] prove what a session
      keeps, answers and resumes.
    - bench/src/runner.rs.  [Runner]: a run from its scratch directory to its
      record; [Counter]: the perf and strace counters; [Probe]: the children
      of the preflight; [RunnerSpec], [ProbeSpec]: their theorems.
    - [Doc], [DocSpec], [DocText]: bench/src/doc.rs.
    - [Cli], [CliSpec]: bench/src/main.rs.  [Build]: bench/build.rs.

    ** How the code is rendered

    A [w]-bit integer is a [Z] with its wrap-around or saturation written out;
    durations and instants are nanoseconds; bytes are [Z]s in a list; [Result]
    is [result].  A panic ([expect], a checked index) is [Panic] in a session
    and [None] in the pure code of the benchmark.  An [f64] is the binary64 of
    the Standard Library's [SpecFloat].  A log line is an event of the trace:
    its fixed text is kept, the values formatted into it are not; the texts of
    reasons, refusals and documents, which other code reads, are kept whole.

    What the host answers is an argument.  A loop that polls until a deadline
    takes the list of its polls, and the end of the list is the deadline; an
    endpoint takes the list of its events; two tasks on two threads take the
    list of their actions, so that a theorem on all lists is one on all
    interleavings.  Files are a map from names to contents, with the faults of
    each operation as answers.  Test-only code ([cfg(test)]) is left out.

    ** What the theorems show

    - Sessions (C1 to C5, C10): for every answer of peer, clock and channel a
      session refines [dispatch], writes a CONNACK, replies and at most one
      DISCONNECT, each fitting the client, flushes before it waits, keeps every
      deadline of its configuration and its handshake, and ends; over a byte
      stream, with a clock that never times out, its deliveries, replies and
      result are those of a run over the packets of the stream.
    - Policy (C6, C7, C16, C17): exactly-once ingest at QoS 2 on a bitset that
      refines a set, what each packet is answered with and what reaches the
      callback, the CONNECT policy with its refusals and deadlines.
    - Channel, workers and broker (C8, C9, C11, C12, C19): bounded FIFO delivery
      under every interleaving, connection slots, a shutdown that completes
      with every admitted publish delivered, an all-or-nothing start.  The twin
      answers for its first failure (C15).
    - Framing (C13, C14, C23): the dependency is given only frames within the
      bound with well-formed fixed headers, the scanner accepts exactly the MQTT
      grammar, and a stream cut inside a packet is reported as such.
    - Evidence on disk (C18, C20, C22, C26, C28, C32, C37): a session starts
      only after its checks and, when recorded, from a clean build, never touches
      a record that was there, answers for every configuration from records,
      resumes what the records say, and is not resumed over a process that still
      runs.  [session_terminates]: it ends.  The document command keeps the
      records as long as no parent of its output is named like one.
    - What a record means (C21, C24, C36, C38 to C40): valid is the published
      contract in exact arithmetic, the stored summary is the one the
      observations give, percentiles and CPU counts are exact, nothing panics.
      Where [f64] is involved this is for counts below the bounds the theorems
      state (2^44 slots or samples, 2^40 deliveries).
    - What a run counts (C25, C27, C29, C30, C33, C35): endpoints are armed with
      the runner's schedule, reports are the accounts of deliveries, and every
      publish or slot of the generator is counted once, under every
      interleaving; for the acknowledgements of a latency run as long as no
      PUBACK is taken before its publish is submitted.
    - The document (C31, C34): it is rendered exactly for publishable records,
      and their text cannot change its structure.

    The laws of the dependencies are hypotheses ([RmqttFraming],
    [RmqttIncremental], [LocalSyncSpec], [LocalSyncFair], [RuntimeSpec],
    [MonoioFramedSpec], [PacerLaws]); every theorem that has one has a witness
    on a concrete instance.

    ** Fuel

    The varint loops run at most five or six rounds and [write_varint] ten,
    enough for their integer widths ([remaining_length_limit_spec],
    [write_varint_spec]).  [run_packet_loop] has fuel because a peer may talk
    for ever; [session_total] shows that more fuel than packets is enough, and
    [session_fuel] of a script, one more than its bytes, is more than its
    packets ([run_session_refines]).  [drain_fuel] is one more than the channel
    holds.  [process_events] needs one round more than there are queued
    publishes.  [latency_pacer] needs a round per slot and [pacer_wait] one per
    nanosecond to the end of the grid ([pacer_accounts_every_slot]).  The
    merge of [cpu_count] needs a step per CPU of its strides ([cpu_count_exact]);
    the search for a free attempt number one per entry of the directory, the
    rounds of a stage the attempts left in its budget ([session_terminates]).
    A chain of symbolic links is bounded by its nesting.

    ** Not modelled

    src/lib.rs and bench/src/lib.rs declare modules.  Command line parsing is
    clap's, the log filter tracing-subscriber's, serialisation serde's; the
    I/O adapters of the twin only call tokio.  The vectored operations of the
    in-memory client, which [Framed] does not call, the watchdog thread of the
    generator, which prints and aborts the process, the wording of progress
    lines on stderr and the rerun-if-changed directives of the build have no
    state the theorems could speak of. *)

From stdpp Require Export base tactics decidable numbers list gmap strings.
From Stdlib Require Export ZArith Lia.

#[global] Open Scope Z_scope.

(** ** Results

    Rust's [Result]: the error paths of the code are values of this type. *)

Inductive result (A E : Type) : Type :=
| Ok (a : A)
| Err (e : E).
Arguments Ok {A E} a.
Arguments Err {A E} e.

Declare Scope uring_scope.
Delimit Scope uring_scope with uring.
Notation "'let?' x ':=' c 'in' k" :=
  (match c with Ok x => k | Err e => Err e end)
  (at level 10, x pattern, c at level 100, k at level 200) : uring_scope.

Definition result_is_ok {A E} (r : result A E) : bool :=
  match r with Ok _ => true | Err _ => false end.

(** ** Machine integers

    A [w]-bit unsigned integer is a [Z]; where the code can reach the end of
    the range the wrap-around is written out with [wrap]. *)

Definition u_range (w x : Z) : Prop := 0 <= x < 2 ^ w.
Definition wrap (w x : Z) : Z := x mod 2 ^ w.
Abbreviation u8 := (u_range 8).
Abbreviation u16 := (u_range 16).
Abbreviation u32 := (u_range 32).
Abbreviation u64 := (u_range 64).
Abbreviation wrap32 := (wrap 32).
Abbreviation wrap64 := (wrap 64).

(** [saturating_sub] and [saturating_add] at width [w]. *)
Definition sat_sub (x y : Z) : Z := Z.max 0 (x - y).
Definition sat_add (w x y : Z) : Z := Z.min (2 ^ w - 1) (x + y).

(** Rust's [div_ceil] on non-negative operands. *)
Definition div_ceil (a b : Z) : Z := (a + b - 1) / b.

Lemma wrap_small w x : 0 <= x < 2 ^ w -> wrap w x = x.
Proof. intros. by apply Z.mod_small. Qed.

Lemma sat_sub_nonneg x y : 0 <= sat_sub x y.
Proof. unfold sat_sub; lia. Qed.

Lemma sat_sub_le x y : 0 <= y -> 0 <= x -> sat_sub x y <= x.
Proof. unfold sat_sub; lia. Qed.

Lemma sat_sub_pos x y : 0 < sat_sub x y <-> y < x.
Proof. unfold sat_sub; lia. Qed.

Lemma div_ceil_spec a b k : 0 < b -> div_ceil a b <= k <-> a <= k * b.
Proof.
  intros Hb. unfold div_ceil. split; intros H.
  - pose proof (Z.mul_succ_div_gt (a + b - 1) b Hb). nia.
  - apply Z.lt_succ_r, Z.div_lt_upper_bound; lia.
Qed.

Lemma div_ceil_lt a b k : 0 < b -> k < div_ceil a b <-> k * b < a.
Proof. intros Hb. pose proof (div_ceil_spec a b k Hb). lia. Qed.

(** ** Bits and bytes *)

Lemma land_shiftl_0 a b n : 0 <= n -> 0 <= a < 2 ^ n -> Z.land a (Z.shiftl b n) = 0.
Proof.
  intros Hn Ha. apply Z.bits_inj'. intros i Hi.
  rewrite Z.land_spec, Z.bits_0, Z.shiftl_spec by done.
  destruct (Z.lt_ge_cases i n); [by rewrite (Z.testbit_neg_r b) by lia; rewrite andb_false_r|].
  rewrite <- (Z.mod_small a (2 ^ n)) by done. by rewrite Z.mod_pow2_bits_high by lia.
Qed.

Lemma lor_shiftl_add a b n :
  0 <= n -> 0 <= a < 2 ^ n -> Z.lor a (Z.shiftl b n) = a + b * 2 ^ n.
Proof.
  intros Hn Ha. pose proof (land_shiftl_0 a b n Hn Ha) as E.
  rewrite <- Z.lxor_lor, <- Z.add_nocarry_lxor by done. by rewrite Z.shiftl_mul_pow2.
Qed.

(** Single bits of a word: the bitsets of the code set, test and clear
    [1 << n]. *)
Lemma testbit_shiftl1 n m : 0 <= n -> Z.testbit (Z.shiftl 1 n) m = (m =? n).
Proof. intros. rewrite Z.shiftl_1_l, Z.pow2_bits_eqb by done. apply Z.eqb_sym. Qed.

Lemma bit_clear_test w n : 0 <= n -> (Z.land w (Z.shiftl 1 n) =? 0) = negb (Z.testbit w n).
Proof.
  intros Hn. destruct (Z.testbit w n) eqn:E; simpl.
  - apply Z.eqb_neq. intros H0. apply (f_equal (fun x => Z.testbit x n)) in H0.
    rewrite Z.land_spec, testbit_shiftl1, E, Z.eqb_refl, Z.bits_0 in H0 by done. done.
  - apply Z.eqb_eq, Z.bits_inj'. intros i Hi. rewrite Z.land_spec, testbit_shiftl1, Z.bits_0 by done.
    destruct (Z.eqb_spec i n) as [->|]; [by rewrite E|apply andb_false_r].
Qed.

Lemma bit_set_test w n m : 0 <= n ->
  Z.testbit (Z.lor w (Z.shiftl 1 n)) m = Z.testbit w m || (m =? n).
Proof. intros. by rewrite Z.lor_spec, testbit_shiftl1. Qed.

Lemma u_range_bits w x : 0 <= w ->
  u_range w x <-> 0 <= x /\ forall i, w <= i -> Z.testbit x i = false.
Proof.
  intros Hw. unfold u_range. split.
  - intros Hx. split; [lia|]. intros i Hi. rewrite <- (Z.mod_small x (2 ^ w)) by done.
    by apply Z.mod_pow2_bits_high.
  - intros [Hx Hb]. split; [done|]. destruct (Z.lt_ge_cases x (2 ^ w)) as [|Hge]; [done|].
    assert (0 < x) by (pose proof (Z.pow_pos_nonneg 2 w); lia).
    specialize (Hb (Z.log2 x)). rewrite Z.bit_log2 in Hb by done.
    by specialize (Hb ltac:(apply Z.log2_le_pow2; lia)).
Qed.

Lemma lnot_bit_test n m : 0 <= n < 64 -> 0 <= m < 64 ->
  Z.testbit (wrap64 (Z.lnot (Z.shiftl 1 n))) m = negb (m =? n).
Proof.
  intros. unfold wrap. rewrite Z.mod_pow2_bits_low, Z.lnot_spec, testbit_shiftl1 by lia. done.
Qed.

Lemma u64_set_bit w n : 0 <= n < 64 -> u64 w -> u64 (Z.lor w (Z.shiftl 1 n)).
Proof.
  rewrite !u_range_bits by lia. intros Hn [Hw Hb]. split.
  - apply Z.lor_nonneg. split; [done|]. apply Z.shiftl_nonneg. lia.
  - intros i Hi. rewrite bit_set_test, Hb by lia. apply Z.eqb_neq. lia.
Qed.

Lemma u64_land w x : u64 w -> u64 (Z.land w x).
Proof.
  rewrite !u_range_bits by lia. intros [Hw Hb]. split.
  - apply Z.land_nonneg. by left.
  - intros i Hi. by rewrite Z.land_spec, Hb.
Qed.

(** A decidable fact about bytes is checked on the 256 of them. *)
Lemma byte_forall (P : Z -> bool) :
  forallb P (seqZ 0 256) = true -> forall b, u8 b -> P b = true.
Proof.
  intros H b Hb. rewrite forallb_forall in H. apply H.
  apply list_elem_of_In, elem_of_seqZ. unfold u_range in Hb. lia.
Qed.

(** ** Loops

    [loop fuel step s] iterates [step] until it answers [inr]; [None] means
    that the fuel ran out.  Every loop of the code that is not a structural
    recursion goes through it, with a theorem that the fuel it is given is
    enough. *)

Section Loop.
Context {S R : Type} (step : S -> S + R).

Fixpoint loop (fuel : nat) (s : S) : option R :=
  match fuel with
  | O => None
  | Datatypes.S n => match step s with inl s' => loop n s' | inr r => Some r end
  end.

Lemma loop_S n s :
  loop (Datatypes.S n) s = match step s with inl s' => loop n s' | inr r => Some r end.
Proof. done. Qed.

Lemma loop_mono n m s r : (n <= m)%nat -> loop n s = Some r -> loop m s = Some r.
Proof.
  revert m s. induction n as [|n IH]; intros [|m] s Hle; simpl; try done; [lia|].
  destruct (step s); [|done]. apply IH. lia.
Qed.

(** Invariant rule: what holds on entry and is kept by every iteration
    holds when the loop answers. *)
Lemma loop_inv (I : S -> Prop) (Q : R -> Prop) :
  (forall s s', I s -> step s = inl s' -> I s') ->
  (forall s r, I s -> step s = inr r -> Q r) ->
  forall n s r, I s -> loop n s = Some r -> Q r.
Proof.
  intros Hstep Hend n. induction n as [|n IH]; intros s r Hi; simpl; [done|].
  destruct (step s) as [s'|r'] eqn:E; intros; simplify_eq; eauto.
Qed.

(** Termination rule: a measure every iteration decreases bounds the fuel. *)
Lemma loop_terminates (I : S -> Prop) (m : S -> nat) :
  (forall s s', I s -> step s = inl s' -> I s' /\ (m s' < m s)%nat) ->
  forall n s, I s -> (m s < n)%nat -> exists r, loop n s = Some r.
Proof.
  intros Hstep n. induction n as [|n IH]; intros s Hi Hm; [lia|]. simpl.
  destruct (step s) as [s'|r'] eqn:E; [|by eexists].
  destruct (Hstep _ _ Hi E) as [Hi' Hlt]. apply IH; [done|lia].
Qed.
End Loop.

(** ** Automation *)

Create HintDb uring.
#[export] Hint Resolve sat_sub_nonneg sat_sub_le : uring.

(** Case analysis on the scrutinee of the first [match] or [if] of the goal or
    of the hypotheses, keeping the equation. *)
Ltac split_match :=
  match goal with
  | |- context [match ?x with _ => _ end] => let E := fresh "E" in destruct x eqn:E
  | H : context [match ?x with _ => _ end] |- _ => let E := fresh "E" in destruct x eqn:E
  end.
Ltac split_matches := repeat (split_match; simplify_eq/=); try done.

(** Turn the boolean comparisons of the hypotheses into arithmetic. *)
Ltac zbool :=
  repeat match goal with
  | H : (_ <? _) = true |- _ => apply Z.ltb_lt in H
  | H : (_ <? _) = false |- _ => apply Z.ltb_ge in H
  | H : (_ <=? _) = true |- _ => apply Z.leb_le in H
  | H : (_ <=? _) = false |- _ => apply Z.leb_gt in H
  | H : (_ =? _) = true |- _ => apply Z.eqb_eq in H
  | H : (_ =? _) = false |- _ => apply Z.eqb_neq in H
  | H : _ && _ = true |- _ => apply andb_true_iff in H; destruct H
  | H : _ || _ = false |- _ => apply orb_false_iff in H; destruct H
  | H : negb _ = true |- _ => apply negb_true_iff in H
  | H : negb _ = false |- _ => apply negb_false_iff in H
  end.
