(* ===== verification/Text.v ===== *)
(** * Text

    What the benchmark harness uses of Rust's [str]: a string is its list of
    Unicode scalar values.  Splitting and trimming follow [char::is_whitespace],
    [parse] follows [from_str_radix] for unsigned integers, [dec] is the
    [Display] of an unsigned integer. *)

From S2P Require Import Prelude.
From Stdlib Require Import Ascii.

Abbreviation str := (list Z).

Definition chr (c : ascii) : Z := Z.of_N (N_of_ascii c).
Definition lit (s : string) : str := chr <$> String.list_ascii_of_string s.

Definition is_whitespace (c : Z) : bool :=
  ((9 <=? c) && (c <=? 13)) || (c =? 32) || (c =? 133) || (c =? 160) || (c =? 5760)
  || ((8192 <=? c) && (c <=? 8202)) || (c =? 8232) || (c =? 8233) || (c =? 8239) || (c =? 8287) || (c =? 12288).

(** ** Splitting *)

(** [split(p)]: always at least one piece. *)
Fixpoint split_by (p : Z -> bool) (s : str) : list str :=
  match s with
  | [] => [[]]
  | c :: s =>
      if p c then [] :: split_by p s
      else match split_by p s with [] => [[c]] | w :: ws => (c :: w) :: ws end
  end.

Definition is_empty_str (s : str) : bool := match s with [] => true | _ => false end.

Definition split_whitespace (s : str) : list str :=
  List.filter (fun w => negb (is_empty_str w)) (split_by is_whitespace s).

Definition split_char (c : Z) (s : str) : list str := split_by (Z.eqb c) s.

Fixpoint strip_prefix (p s : str) : option str :=
  match p, s with
  | [], _ => Some s
  | a :: p, b :: s => if a =? b then strip_prefix p s else None
  | _ :: _, [] => None
  end.

Definition starts_with (p s : str) : bool := match strip_prefix p s with Some _ => true | None => false end.

(** [split_once] at the first occurrence of a pattern. *)
Fixpoint split_once (p s : str) : option (str * str) :=
  match strip_prefix p s with
  | Some rest => Some ([], rest)
  | None =>
      match s with
      | [] => None
      | c :: s => match split_once p s with Some (a, b) => Some (c :: a, b) | None => None end
      end
  end.

Definition contains (p s : str) : bool := match split_once p s with Some _ => true | None => false end.

Fixpoint trim_start (s : str) : str :=
  match s with c :: s' => if is_whitespace c then trim_start s' else s | [] => [] end.
Definition trim_end (s : str) : str := rev (trim_start (rev s)).
Definition trim (s : str) : str := trim_end (trim_start s).

(** [lines]: the pieces [split_inclusive] makes, without their [\n] or [\r\n]. *)
Definition strip_cr (s : str) : str :=
  match rev s with c :: r => if c =? 13 then rev r else s | [] => [] end.

Fixpoint strip_lines (pieces : list str) : list str :=
  match pieces with
  | [] => []
  | [last] => if is_empty_str last then [] else [last]
  | l :: rest => strip_cr l :: strip_lines rest
  end.

Definition lines (s : str) : list str := strip_lines (split_char 10 s).

Fixpoint join (sep : str) (l : list str) : str :=
  match l with
  | [] => []
  | [s] => s
  | s :: l => s ++ sep ++ join sep l
  end.

(** [replace(p, "")], [fuel] the length of the string. *)
Fixpoint remove_all (fuel : nat) (p s : str) : str :=
  match fuel with
  | O => s
  | S fuel => match split_once p s with Some (a, b) => a ++ remove_all fuel p b | None => s end
  end.
Definition str_remove (p s : str) : str := remove_all (length s) p s.

(** ** Numbers *)

Definition is_digit (c : Z) : bool := (48 <=? c) && (c <=? 57).
Definition to_digit (c : Z) : option Z := if is_digit c then Some (c - 48) else None.

Inductive IntErrorKind := IntEmpty | InvalidDigit | PosOverflow.

Fixpoint parse_digits (w acc : Z) (s : str) : result Z IntErrorKind :=
  match s with
  | [] => Ok acc
  | c :: s =>
      match to_digit c with
      | None => Err InvalidDigit
      | Some d => if acc * 10 + d <? 2 ^ w then parse_digits w (acc * 10 + d) s else Err PosOverflow
      end
  end.

Definition parse_uint (w : Z) (s : str) : result Z IntErrorKind :=
  match s with
  | [] => Err IntEmpty
  | c :: rest =>
      if c =? chr "+" then match rest with [] => Err InvalidDigit | _ => parse_digits w 0 rest end
      else parse_digits w 0 s
  end.

Definition ok {A E} (r : result A E) : option A := match r with Ok a => Some a | Err _ => None end.

(** The decimal digits of [n], most significant first. *)
Fixpoint dec_from (fuel : nat) (n : Z) : str :=
  match fuel with
  | O => []
  | S fuel => if n <? 10 then [48 + n] else dec_from fuel (n / 10) ++ [48 + n mod 10]
  end.
Definition dec (n : Z) : str := dec_from (S (Z.to_nat (Z.log2 n))) n.

(** [Debug] of [Option<T>] from the one of [T]. *)
Definition debug_option {A} (f : A -> str) (o : option A) : str :=
  match o with None => lit "None" | Some a => lit "Some(" ++ f a ++ lit ")" end.

Definition display_bool (b : bool) : str := if b then lit "true" else lit "false".

(** [Debug] of a [Vec] from the one of its elements. *)
Definition debug_list {A} (f : A -> str) (l : list A) : str := lit "[" ++ join (lit ", ") (f <$> l) ++ lit "]".

(** ** Facts *)

Lemma strip_prefix_Some p s r : strip_prefix p s = Some r <-> s = p ++ r.
Proof.
  revert s. induction p as [|a p IH]; intros s; simpl; [naive_solver|].
  destruct s as [|b s]; [naive_solver|].
  destruct (Z.eqb_spec a b) as [->|]; [rewrite IH; naive_solver|naive_solver].
Qed.

Lemma starts_with_spec p s : starts_with p s = true <-> exists r, s = p ++ r.
Proof.
  unfold starts_with. destruct (strip_prefix p s) as [r|] eqn:E.
  - apply strip_prefix_Some in E. naive_solver.
  - split; [done|]. intros [r Hr]. by apply strip_prefix_Some in Hr; rewrite Hr in E.
Qed.

Lemma split_once_Some p s a b : split_once p s = Some (a, b) -> s = a ++ p ++ b.
Proof.
  revert a. induction s as [|c s IH]; intros a; simpl; destruct (strip_prefix p _) eqn:E.
  1, 3: apply strip_prefix_Some in E; intros; by simplify_eq/=.
  - done.
  - destruct (split_once p s) as [[a' b']|]; [|done]. intros. simplify_eq/=. f_equal. by apply IH.
Qed.

Definition digits (s : str) : Prop := Forall (fun c => is_digit c = true) s.

(** A text that does not continue a number. *)
Definition stops (s : str) : Prop := match s with [] => True | c :: _ => is_digit c = false end.

Lemma digits_cancel a b x y : digits a -> digits b -> stops x -> stops y -> a ++ x = b ++ y -> a = b /\ x = y.
Proof.
  intros Ha. revert b. induction Ha as [|c a Hc Ha IH]; intros b Hb Hx Hy E.
  - destruct b as [|d b]; [done|]. simpl in E. subst x. apply Forall_inv in Hb. unfold stops in Hx. congruence.
  - destruct b as [|d b]; simpl in E.
    + subst y. unfold stops in Hy. congruence.
    + injection E as -> E. apply Forall_inv_tail in Hb. destruct (IH b) as [-> ->]; done.
Qed.

Lemma is_digit_spec c : is_digit c = true <-> 48 <= c <= 57.
Proof. unfold is_digit. rewrite andb_true_iff, !Z.leb_le. lia. Qed.

Lemma dec_from_digits f n : 0 <= n -> digits (dec_from f n).
Proof.
  revert n. induction f as [|f IH]; intros n Hn; simpl; [constructor|].
  destruct (Z.ltb_spec n 10).
  - repeat constructor. apply is_digit_spec. lia.
  - apply Forall_app. split; [apply IH, Z.div_pos; lia|].
    pose proof (Z.mod_pos_bound n 10). repeat constructor. apply is_digit_spec. lia.
Qed.

Lemma dec_digits n : 0 <= n -> digits (dec n).
Proof. apply dec_from_digits. Qed.

Lemma parse_digits_app w acc s t :
  parse_digits w acc (s ++ t) =
  match parse_digits w acc s with Ok a => parse_digits w a t | Err e => Err e end.
Proof. revert acc. induction s as [|c s IH]; intros acc; simpl; [done|].
  destruct (to_digit c); [|done]. destruct (_ <? _); [|done]. apply IH.
Qed.

Lemma log2_div10 n : 10 <= n -> (Z.to_nat (Z.log2 (n / 10)) < Z.to_nat (Z.log2 n))%nat.
Proof.
  intros Hn. assert (0 < n / 10) by (apply Z.div_str_pos; lia).
  assert (n / 10 <= n / 2) by (apply Z.div_le_compat_l; lia).
  pose proof (Z.log2_le_mono _ _ ltac:(eassumption)). rewrite <- Z.div2_div, Z.div2_spec in * by lia.
  rewrite Z.log2_shiftr in * by lia. pose proof (Z.log2_nonneg (n / 10)).
  assert (2 <= Z.log2 n) by (apply Z.log2_le_pow2; lia). lia.
Qed.

Lemma parse_dec_from w f n : (Z.to_nat (Z.log2 n) < f)%nat -> 0 <= n < 2 ^ w -> parse_digits w 0 (dec_from f n) = Ok n.
Proof.
  revert n. induction f as [|f IH]; intros n Hf Hn; [lia|]. simpl.
  destruct (Z.ltb_spec n 10).
  - simpl. unfold to_digit. rewrite (proj2 (is_digit_spec _)) by lia.
    replace (0 * 10 + _) with n by lia. by rewrite (proj2 (Z.ltb_lt _ _)) by lia.
  - rewrite parse_digits_app, IH.
    + pose proof (Z.mod_pos_bound n 10). simpl. unfold to_digit. rewrite (proj2 (is_digit_spec _)) by lia.
      replace (_ * 10 + _) with n by (pose proof (Z.div_mod n 10); lia).
      by rewrite (proj2 (Z.ltb_lt _ _)) by lia.
    + pose proof (log2_div10 n). lia.
    + split; [apply Z.div_pos; lia|]. apply Z.div_lt_upper_bound; lia.
Qed.

Lemma dec_cons n : 0 <= n -> exists c r, dec n = c :: r /\ 48 <= c <= 57.
Proof.
  intros Hn. pose proof (dec_digits n Hn) as Hd. destruct (dec n) as [|c r] eqn:E.
  - exfalso. unfold dec in E. simpl in E. destruct (n <? 10); [done|]. by destruct (dec_from _ _).
  - exists c, r. split; [done|]. by apply Forall_inv, is_digit_spec in Hd.
Qed.

(** What [Display] prints of a [w]-bit integer, [parse] reads back. *)
Lemma parse_dec w n : 0 <= n < 2 ^ w -> parse_uint w (dec n) = Ok n.
Proof.
  intros Hn. destruct (dec_cons n) as (c & r & E & Hc); [lia|].
  unfold parse_uint. rewrite E. rewrite (proj2 (Z.eqb_neq _ _)) by (cbv; intros; lia).
  rewrite <- E. apply parse_dec_from; lia.
Qed.

Lemma dec_inj a b : 0 <= a -> 0 <= b -> dec a = dec b -> a = b.
Proof.
  intros Ha Hb E. set (w := Z.max a b + 1).
  assert (Hw : Z.max a b < 2 ^ w) by (etrans; [apply (Z.pow_gt_lin_r 2); lia|apply Z.pow_lt_mono_r; lia]).
  pose proof (parse_dec w a) as Pa. pose proof (parse_dec w b) as Pb. rewrite E in Pa.
  rewrite Pa in Pb by lia. injection (Pb ltac:(lia)). lia.
Qed.

(** A number and what follows it are both determined by the text. *)
Lemma dec_cancel a b x y : 0 <= a -> 0 <= b -> stops x -> stops y -> dec a ++ x = dec b ++ y -> a = b /\ x = y.
Proof.
  intros Ha Hb Hx Hy E. destruct (digits_cancel _ _ _ _ (dec_digits a Ha) (dec_digits b Hb) Hx Hy E) as [Hd ->].
  split; [|done]. by apply dec_inj.
Qed.

(** A piece without separators is not split. *)
Lemma split_by_piece p s t : Forall (fun c => p c = false) s ->
  split_by p (s ++ t) = match split_by p t with [] => [s] | w :: ws => (s ++ w) :: ws end.
Proof.
  induction 1 as [|c s Hc Hs IH]; simpl.
  - destruct t as [|c t]; simpl; [done|]. repeat case_match; done.
  - rewrite Hc, IH. by destruct (split_by p t).
Qed.

Lemma split_by_cons p c s : p c = true -> split_by p (c :: s) = [] :: split_by p s.
Proof. intros E. simpl. by rewrite E. Qed.

Lemma split_by_nonempty p s : split_by p s <> [].
Proof. destruct s; simpl; [done|]. case_match; [done|]. by case_match. Qed.

Lemma digit_not_whitespace c : is_digit c = true -> is_whitespace c = false.
Proof.
  rewrite is_digit_spec. intros Hc. unfold is_whitespace.
  repeat (apply orb_false_iff; split); try (apply Z.eqb_neq; lia);
    apply andb_false_iff; rewrite !Z.leb_gt; lia.
Qed.

(** What [parse] accepts fits its width. *)
Lemma parse_digits_range w s : forall acc n, 0 <= acc < 2 ^ w -> parse_digits w acc s = Ok n -> 0 <= n < 2 ^ w.
Proof.
  induction s as [|c s IH]; intros acc n Hacc; cbn [parse_digits]; [naive_solver|].
  unfold to_digit. destruct (is_digit c) eqn:Hc; [|done]. apply is_digit_spec in Hc.
  destruct (Z.ltb_spec (acc * 10 + (c - 48)) (2 ^ w)); [|done]. apply IH. lia.
Qed.

Lemma parse_uint_range w s n : 0 <= w -> parse_uint w s = Ok n -> 0 <= n < 2 ^ w.
Proof.
  intros Hw. assert (Hp := Z.pow_pos_nonneg 2 w ltac:(lia) Hw). unfold parse_uint. destruct s as [|c s]; [done|].
  destruct (c =? _); [destruct s as [|d s]; [done|]|]; intros H; (eapply parse_digits_range; [|exact H]); lia.
Qed.
