(* ===== verification/F64.v ===== *)
(** * f64

    Rust's [f64] is IEEE 754 binary64: the executable specification of the
    Standard Library at precision 53 and exponent bound 1024, with the
    conversions, roundings and formats the harness uses.  The second half
    shows that the products the harness compares with integers round to the
    side the exact rational lies on. *)

From S2P Require Import Prelude Text.
From Stdlib Require Import Floats.SpecFloat Ascii.

Abbreviation f64 := spec_float.

Definition f64_of_Z (n : Z) : f64 := binary_normalize 53 1024 n 0 false.
Definition f64_add : f64 -> f64 -> f64 := SFadd 53 1024.
Definition f64_sub : f64 -> f64 -> f64 := SFsub 53 1024.
Definition f64_mul : f64 -> f64 -> f64 := SFmul 53 1024.
Definition f64_div : f64 -> f64 -> f64 := SFdiv 53 1024.
Definition f64_abs : f64 -> f64 := SFabs.
Definition f64_lt : f64 -> f64 -> bool := SFltb.
Definition f64_le : f64 -> f64 -> bool := SFleb.
Definition f64_eq : f64 -> f64 -> bool := SFeqb.
Definition f64_infinity : f64 := S754_infinity false.
Definition f64_neg_infinity : f64 := S754_infinity true.

(** The literal [n / d] as the compiler reads it: the nearest [f64]. *)
Definition f64_ratio (n d : Z) : f64 := f64_div (f64_of_Z n) (f64_of_Z d).

Definition signed (s : bool) (n : Z) : f64 :=
  match n with Z0 => S754_zero s | _ => binary_normalize 53 1024 (if s then - n else n) 0 false end.

(** [ceil] and [round], the latter with ties away from zero. *)
Definition f64_ceil (x : f64) : f64 :=
  match x with
  | S754_finite s m e =>
      if 0 <=? e then x
      else if s then signed s (Zpos m / 2 ^ (- e)) else signed s (div_ceil (Zpos m) (2 ^ (- e)))
  | _ => x
  end.

Definition f64_round (x : f64) : f64 :=
  match x with
  | S754_finite s m e => if 0 <=? e then x else signed s ((2 * Zpos m + 2 ^ (- e)) / (2 * 2 ^ (- e)))
  | _ => x
  end.

(** [x as u64]: truncation, saturating, NaN to 0. *)
Definition f64_to_u64 (x : f64) : Z :=
  match x with
  | S754_finite false m e => Z.min (2 ^ 64 - 1) (if 0 <=? e then Zpos m * 2 ^ e else Zpos m / 2 ^ (- e))
  | S754_infinity false => 2 ^ 64 - 1
  | _ => 0
  end.

(** [f64::midpoint]. *)
Definition F64_MAX : f64 := S754_finite false 9007199254740991 971.
Definition F64_MIN_POSITIVE : f64 := S754_finite false 4503599627370496 (-1074).

Definition f64_midpoint (a b : f64) : f64 :=
  let two := f64_of_Z 2 in
  let lo := f64_mul F64_MIN_POSITIVE two in
  let hi := f64_div F64_MAX two in
  if f64_le (f64_abs a) hi && f64_le (f64_abs b) hi then f64_div (f64_add a b) two
  else if f64_lt (f64_abs a) lo then f64_add a (f64_div b two)
  else if f64_lt (f64_abs b) lo then f64_add (f64_div a two) b
  else f64_add (f64_div a two) (f64_div b two).

(** ** Formatting *)

(** The number [m * 2^e] as a fraction. *)
Definition frac_num (m : positive) (e : Z) : Z := if 0 <=? e then Zpos m * 2 ^ e else Zpos m.
Definition frac_den (e : Z) : Z := if 0 <=? e then 1 else 2 ^ (- e).

(** [num/den * 10^k] rounded to the nearest integer, ties to even. *)
Definition scaled_num (num k : Z) : Z := if 0 <=? k then num * 10 ^ k else num.
Definition scaled_den (den k : Z) : Z := if 0 <=? k then den else den * 10 ^ (- k).
Definition nearest_even (n d : Z) : Z :=
  let q := n / d in let r := n mod d in
  match 2 * r ?= d with Lt => q | Gt => q + 1 | Eq => if Z.even q then q else q + 1 end.

Definition pad (n : nat) (s : str) : str := replicate (n - length s) 48 ++ s.

(** Digits [ds] of an integer with the last [k] of them after the point. *)
Definition with_point (k : nat) (ds : str) : str :=
  let ds := pad (S k) ds in
  let n := (length ds - k)%nat in
  match k with O => ds | _ => take n ds ++ lit "." ++ drop n ds end.

Definition sign_str (s : bool) : str := if s then lit "-" else [].

(** [{:.k}]. *)
Definition f64_fixed (k : nat) (x : f64) : str :=
  match x with
  | S754_nan => lit "NaN"
  | S754_infinity s => sign_str s ++ lit "inf"
  | S754_zero s => sign_str s ++ with_point k (dec 0)
  | S754_finite s m e =>
      sign_str s ++ with_point k (dec (nearest_even (scaled_num (frac_num m e) (Z.of_nat k)) (frac_den e)))
  end.

(** The decimal [d * 10^(-k)] read as an [f64]. *)
Definition f64_of_decimal (d k : Z) : f64 :=
  if 0 <=? k then
    match d with
    | Zpos p => let '(q, e, l) := SFdiv_core_binary 53 1024 (Zpos p) 0 (10 ^ k) 0 in binary_round_aux 53 1024 false q e l
    | _ => S754_zero false
    end
  else f64_of_Z (d * 10 ^ (- k)).

(** The shortest digits that read back as [x], and their scale [k]: with
    [n] significant digits, the nearest decimal, or else a neighbour. *)
Definition dec_exponent (num den : Z) : Z :=
  if den <=? num then Z.of_nat (length (dec (num / den))) else 1 - Z.of_nat (length (dec (den / num))).

Fixpoint shortest (fuel : nat) (n : Z) (num den exp10 : Z) (x : f64) : Z * Z :=
  let k := n - exp10 in
  let d := nearest_even (scaled_num num k) (scaled_den den k) in
  match fuel with
  | O => (d, k)
  | S fuel =>
      if f64_eq (f64_of_decimal d k) x then (d, k)
      else if f64_eq (f64_of_decimal (d + 1) k) x then (d + 1, k)
      else if f64_eq (f64_of_decimal (d - 1) k) x then (d - 1, k)
      else shortest fuel (n + 1) num den exp10 x
  end.

Fixpoint strip_zeros (fuel : nat) (d k : Z) : Z * Z :=
  match fuel with
  | O => (d, k)
  | S fuel => if (d mod 10 =? 0) && negb (d =? 0) then strip_zeros fuel (d / 10) (k - 1) else (d, k)
  end.

Definition exp_str (d k : Z) : str :=
  let ds := dec d in
  let p := Z.of_nat (length ds) - 1 in
  let frac := drop 1 ds in
  take 1 ds ++ (if is_empty_str frac then [] else lit "." ++ frac) ++ lit "e"
  ++ sign_str (p - k <? 0) ++ dec (Z.abs (p - k)).

(** [{:?}]: positional from [1e-4] up to [1e16], exponent form outside. *)
Definition f64_debug (x : f64) : str :=
  match x with
  | S754_nan => lit "NaN"
  | S754_infinity s => sign_str s ++ lit "inf"
  | S754_zero s => sign_str s ++ lit "0.0"
  | S754_finite s m e =>
      let num := frac_num m e in let den := frac_den e in
      let '(d, k) := shortest 17 1 num den (dec_exponent num den) (S754_finite false m e) in
      let '(d, k) := strip_zeros 400 d k in
      sign_str s ++
      (if f64_lt (S754_finite false m e) (f64_ratio 1 10000) || f64_le (f64_of_Z (10 ^ 16)) (S754_finite false m e)
       then exp_str d k
       else if k <=? 0 then dec (d * 10 ^ (- k)) ++ lit ".0"
       else with_point (Z.to_nat k) (dec d))
  end.

(** ** Rounding *)

Lemma digits2_log2 p : Zpos (digits2_pos p) = Z.log2 (Zpos p) + 1.
Proof.
  induction p as [p IH|p IH|]; cbn [digits2_pos]; [| |done].
  - rewrite Pos2Z.inj_succ, IH, Pos2Z.inj_xI, Z.log2_succ_double by done. lia.
  - rewrite Pos2Z.inj_succ, IH, Pos2Z.inj_xO, Z.log2_double by done. lia.
Qed.

Lemma iter_pos_nat {A} (f : A -> A) n x : SpecFloat.iter_pos f n x = Nat.iter (Pos.to_nat n) f x.
Proof.
  revert x. induction n as [n IH|n IH|]; intros x; cbn [SpecFloat.iter_pos].
  - rewrite !IH, Pos2Nat.inj_xI, Nat.iter_succ_r, <- Nat.iter_add. f_equal. lia.
  - rewrite !IH, Pos2Nat.inj_xO, <- Nat.iter_add. f_equal. lia.
  - done.
Qed.

Lemma shr_1_nonneg m r s : 0 <= m ->
  shr_1 (Build_shr_record m r s) = Build_shr_record (m / 2) (Z.odd m) (r || s).
Proof.
  intros Hm. destruct m as [|[p|p|]|]; try done; cbn [shr_1 Z.odd].
  - f_equal. apply (Z.div_unique_pos _ _ _ 1); lia.
  - f_equal. apply (Z.div_unique_pos _ _ _ 0); lia.
Qed.

(** What has been shifted out after [n] steps: the last bit and whether any
    bit below it was set. *)
Lemma shr_iter m n : 0 <= m ->
  Nat.iter (S n) shr_1 (Build_shr_record m false false) =
  Build_shr_record (m / 2 ^ Z.of_nat (S n)) (Z.odd (m / 2 ^ Z.of_nat n)) (negb (m mod 2 ^ Z.of_nat n =? 0)).
Proof.
  intros Hm. induction n as [|n IH].
  - change (Nat.iter 1 shr_1 ?x) with (shr_1 x). rewrite shr_1_nonneg by done.
    change (2 ^ Z.of_nat 1) with 2. change (2 ^ Z.of_nat 0) with 1. by rewrite Z.div_1_r, Z.mod_1_r.
  - rewrite Nat.iter_succ, IH. rewrite shr_1_nonneg by (apply Z.div_pos; lia).
    assert (H2 : 2 ^ Z.of_nat (S (S n)) = 2 ^ Z.of_nat (S n) * 2) by (rewrite (Nat2Z.inj_succ (S n)), Z.pow_succ_r; lia).
    assert (H1 : 2 ^ Z.of_nat (S n) = 2 ^ Z.of_nat n * 2) by (rewrite (Nat2Z.inj_succ n), Z.pow_succ_r; lia).
    rewrite H2, <- Z.div_div by lia. f_equal.
    rewrite H1, Z.rem_mul_r by lia.
    pose proof (Zmod_odd (m / 2 ^ Z.of_nat n)) as Ho. pose proof (Z.mod_pos_bound m (2 ^ Z.of_nat n)).
    destruct (Z.odd _); rewrite Ho; simpl.
    + symmetry. apply negb_true_iff, Z.eqb_neq. lia.
    + f_equal. f_equal. lia.
Qed.

Definition normal (m : positive) : Prop := 2 ^ 52 <= Zpos m < 2 ^ 53.

(** Rounding a mantissa of [53 + k] bits moves it by at most half a unit. *)
Lemma round_nearest_bound m n : 0 <= m ->
  let k := Z.of_nat (S n) in
  let r := Nat.iter (S n) shr_1 (Build_shr_record m false false) in
  let q := round_nearest_even (shr_m r) (loc_of_shr_record r) in
  2 * Z.abs (q * 2 ^ k - m) <= 2 ^ k /\ m / 2 ^ k <= q <= m / 2 ^ k + 1.
Proof.
  intros Hm k r q. subst r q. rewrite shr_iter by done. cbn [shr_m].
  set (P := 2 ^ Z.of_nat n). assert (Hk : 2 ^ k = P * 2) by (subst k P; rewrite Nat2Z.inj_succ, Z.pow_succ_r; lia).
  assert (HP : 0 < P) by (apply Z.pow_pos_nonneg; lia).
  fold k. rewrite Hk, <- Z.div_div by lia.
  pose proof (Z.div_mod m P ltac:(lia)) as Em. pose proof (Z.mod_pos_bound m P HP) as Hlo.
  pose proof (Z.div_mod (m / P) 2 ltac:(lia)) as Ea. pose proof (Zmod_odd (m / P)) as Eo.
  set (a := m / P) in *. set (lo := m mod P) in *. set (q0 := a / 2) in *. clearbody a lo q0 P.
  destruct (Z.odd a), (Z.eqb_spec lo 0); cbn [negb loc_of_shr_record round_nearest_even];
    try destruct (Z.even q0); (split; [nia|lia]).
Qed.

Lemma fexp_normal d : -1021 <= d -> fexp 53 1024 d = d - 53.
Proof. intros. unfold fexp, emin. lia. Qed.

Lemma log2_bounds m d : 0 < m -> Z.log2 m + 1 = d -> 2 ^ (d - 1) <= m < 2 ^ d.
Proof. intros Hm <-. pose proof (Z.log2_spec m Hm) as H. replace (Z.succ _) with (Z.log2 m + 1) in H by lia.
  replace (_ + 1 - 1) with (Z.log2 m) by lia. done. Qed.

Lemma shr_fexp_wide m e d n :
  0 < m -> Z.log2 m + 1 = d -> d = 53 + Z.of_nat (S n) -> -1021 <= d + e ->
  shr_fexp 53 1024 m e loc_Exact =
  (Nat.iter (S n) shr_1 (Build_shr_record m false false), e + Z.of_nat (S n)).
Proof.
  intros Hm Hd Hn He. unfold shr_fexp. destruct m as [|m|]; try lia. cbn [Zdigits2].
  rewrite digits2_log2, Hd, fexp_normal by lia. replace (d + e - 53 - e) with (Zpos (Pos.of_nat (S n))) by lia.
  cbn [shr shr_record_of_loc]. rewrite iter_pos_nat, Nat2Pos.id by lia. f_equal. lia.
Qed.

Lemma shr_fexp_fits m e : normal m -> -1021 <= 53 + e ->
  shr_fexp 53 1024 (Zpos m) e loc_Exact = (Build_shr_record (Zpos m) false false, e).
Proof.
  intros [Hlo Hhi] He. unfold shr_fexp. cbn [Zdigits2].
  assert (Z.log2 (Zpos m) = 52) as Hd by (apply Z.log2_unique; lia).
  rewrite digits2_log2, Hd, fexp_normal by lia. by replace (52 + 1 + e - 53 - e) with 0 by lia.
Qed.

(** Rounding a long mantissa: the result is normal, a multiple of the unit
    [2^k] and within half of it. *)
Lemma binary_round_wide m e n :
  0 < m -> Z.log2 m + 1 = 53 + Z.of_nat (S n) -> -1000 <= 53 + e -> e + Z.of_nat (S n) <= 900 ->
  exists mv ev k', binary_round_aux 53 1024 false m e loc_Exact = S754_finite false mv ev /\ normal mv
    /\ ev = e + Z.of_nat (S n) + k' /\ 0 <= k' <= 1
    /\ 2 * Z.abs (Zpos mv * 2 ^ k' * 2 ^ Z.of_nat (S n) - m) <= 2 ^ Z.of_nat (S n).
Proof.
  intros Hm Hd He Hmax. unfold binary_round_aux. rewrite (shr_fexp_wide m e _ n) by (done || lia).
  pose proof (round_nearest_bound m n ltac:(lia)) as Hq. cbv zeta in Hq.
  set (r := Nat.iter _ _ _) in *. set (q := round_nearest_even _ _) in *. set (k := Z.of_nat (S n)) in *.
  assert (Hm' : 2 ^ 52 <= m / 2 ^ k < 2 ^ 53).
  { pose proof (log2_bounds m _ Hm Hd) as Hb. split.
    - apply Z.div_le_lower_bound; [apply Z.pow_pos_nonneg; lia|]. rewrite <- Z.pow_add_r by lia.
      replace (k + 52) with (53 + k - 1) by lia. lia.
    - apply Z.div_lt_upper_bound; [apply Z.pow_pos_nonneg; lia|]. rewrite <- Z.pow_add_r by lia.
      replace (k + 53) with (53 + k) by lia. lia. }
  destruct (Z.eq_dec q (2 ^ 53)) as [->|Hne].
  - exists (Pos.pow 2 52), (e + k + 1), 1. rewrite (shr_fexp_wide _ _ 54 0) by (done || lia).
    cbn [Nat.iter shr_m]. split; [|unfold normal; split; [lia|]; split; [lia|]; split; [lia|]].
    + vm_compute (2 ^ 53). cbn [shr_1 shr_m]. by rewrite (proj2 (Z.leb_le _ _)) by lia.
    + replace (Zpos (2 ^ 52) * 2 ^ 1) with (2 ^ 53) by done. lia.
  - destruct q as [|p|] eqn:E; try lia. assert (Hp : normal p) by (unfold normal; lia).
    exists p, (e + k), 0. rewrite shr_fexp_fits by (done || lia). cbn [shr_m].
    rewrite (proj2 (Z.leb_le _ _)) by lia. rewrite Z.pow_0_r. split; [done|]. split; [done|]. lia.
Qed.

Lemma round_normal m e : normal m -> -1021 <= 53 + e -> e <= 971 ->
  binary_round_aux 53 1024 false (Zpos m) e loc_Exact = S754_finite false m e.
Proof.
  intros Hm He Hmax. unfold binary_round_aux. rewrite shr_fexp_fits by done.
  cbn [shr_m loc_of_shr_record round_nearest_even]. rewrite shr_fexp_fits by done. cbn [shr_m].
  by rewrite (proj2 (Z.leb_le _ _)) by lia.
Qed.

Lemma pos_iter_xO p d : Zpos (Pos.iter xO p d) = Zpos p * 2 ^ Zpos d.
Proof.
  induction d as [|d IH] using Pos.peano_ind; [simpl; lia|].
  rewrite Pos.iter_succ, Pos2Z.inj_xO, IH, Pos2Z.inj_succ, Z.pow_succ_r by lia. lia.
Qed.

(** An integer below [2^53] is represented exactly. *)
Lemma f64_of_Z_exact n : 0 < n < 2 ^ 53 ->
  exists m, f64_of_Z n = S754_finite false m (Z.log2 n - 52) /\ normal m /\ Zpos m = n * 2 ^ (52 - Z.log2 n).
Proof.
  intros [Hn Hlt]. destruct n as [|p|]; try lia. unfold f64_of_Z. cbn [binary_normalize].
  assert (Hl : 0 <= Z.log2 (Zpos p) <= 52).
  { split; [apply Z.log2_nonneg|]. apply Z.lt_succ_r, Z.log2_lt_pow2; lia. }
  pose proof (Z.log2_spec _ Hn) as Hs. set (l := Z.log2 (Zpos p)) in *.
  assert (He : fexp 53 1024 (Zpos (digits2_pos p) + 0) = l - 52) by (rewrite digits2_log2, fexp_normal; fold l; lia).
  unfold binary_round, shl_align. rewrite He.
  assert (Hnorm : forall m, Zpos m = Zpos p * 2 ^ (52 - l) -> normal m).
  { intros m Em. unfold normal. rewrite Em. replace (2 ^ 52) with (2 ^ l * 2 ^ (52 - l)) by (rewrite <- Z.pow_add_r; f_equal; lia).
    replace (2 ^ 53) with (2 ^ Z.succ l * 2 ^ (52 - l)) by (rewrite <- Z.pow_add_r; f_equal; lia).
    pose proof (Z.pow_pos_nonneg 2 (52 - l)). nia. }
  destruct (l - 52 - 0) as [|d|d] eqn:E; [|lia|].
  - exists p. replace (52 - l) with 0 in * by lia. rewrite Z.pow_0_r in *.
    rewrite round_normal by first [apply Hnorm; lia | lia]. split; [f_equal; lia|]. split; [apply Hnorm; lia|lia].
  - exists (Pos.iter xO p d). assert (Hm : Zpos (Pos.iter xO p d) = Zpos p * 2 ^ (52 - l)).
    { rewrite pos_iter_xO. f_equal. f_equal. lia. }
    rewrite round_normal by first [by apply Hnorm | lia]. split; [done|]. split; [by apply Hnorm|done].
Qed.

(** The float [mq * 2^(-sq)] stands for the rational [a / b]: its error, in
    units of [2^(-sq) / b], is small enough not to cross an integer when it
    is multiplied by an integer below [2^44]. *)
Record stands_for (mq : positive) (sq a b : Z) : Prop := {
  sf_normal : normal mq;
  sf_scale : 44 <= sq <= 60;
  sf_pos : 0 < a <= b;
  sf_half53 : forall mT, 2 ^ 52 <= mT < 2 ^ 53 -> 2 * (mT * Z.abs (Zpos mq * b - a * 2 ^ sq)) < b * 2 ^ 53;
  sf_half52 : forall mT, 2 ^ 52 <= mT -> Zpos mq * mT < 2 ^ 105 ->
              2 * (mT * Z.abs (Zpos mq * b - a * 2 ^ sq)) < b * 2 ^ 52;
  sf_gap : b * 2 ^ 52 + 2 ^ 53 * Z.abs (Zpos mq * b - a * 2 ^ sq) < 2 ^ (sq + 9)
}.

Lemma product_log2 a b : 2 ^ 52 <= a < 2 ^ 53 -> 2 ^ 52 <= b < 2 ^ 53 ->
  Z.log2 (a * b) + 1 = 105 /\ a * b < 2 ^ 105 \/ Z.log2 (a * b) + 1 = 106.
Proof.
  intros Ha Hb. assert (2 ^ 104 <= a * b < 2 ^ 106) by nia.
  destruct (Z.lt_ge_cases (a * b) (2 ^ 105)); [left|right].
  - split; [|done]. rewrite (Z.log2_unique _ 104); lia.
  - rewrite (Z.log2_unique _ 105); lia.
Qed.

(** Arithmetic core: [R], a multiple of [2^k] within half a unit of [M], is on
    the side of every integer multiple [n * 2^s] on which [a*T/b] lies. *)
Lemma rounded_side R M T mT D a b k s n :
  0 < b -> 0 <= k <= s -> 0 <= n -> 0 < T -> 0 < a ->
  (exists c, R = c * 2 ^ k) -> 2 * Z.abs (R - M) <= 2 ^ k ->
  b * M = a * T * 2 ^ s + mT * D -> 0 <= mT -> 2 * (mT * Z.abs D) < b * 2 ^ k ->
  b * 2 ^ k + 2 * (mT * Z.abs D) < 2 * 2 ^ s ->
  (R <= n * 2 ^ s <-> a * T <= n * b) /\ (n * 2 ^ s <= R <-> n * b <= a * T).
Proof.
  intros Hb Hk Hn HT Ha [c ->] Hround HM HmT Hhalf Hgap.
  assert (HP : 0 < 2 ^ k) by (apply Z.pow_pos_nonneg; lia).
  replace s with ((s - k) + k) in * by lia. rewrite Z.pow_add_r in * by lia.
  set (P := 2 ^ k) in *. set (G := 2 ^ (s - k)) in *. assert (HG : 0 < G) by (apply Z.pow_pos_nonneg; lia).
  pose proof (Z.div_mod (a * T) b ltac:(lia)) as E. pose proof (Z.mod_pos_bound (a * T) b Hb) as Hrb.
  set (N := a * T / b) in *. set (r := (a * T) mod b) in *.
  assert (HN : 0 <= N) by (apply Z.div_pos; nia).
  assert (Habs : Z.abs (mT * D) = mT * Z.abs D) by (rewrite Z.abs_mul; lia).
  rewrite E in HM. assert (Hdiff : b * (c * P - N * G * P) = r * G * P + mT * D + b * (c * P - M)).
  { replace (b * (c * P - M)) with (b * c * P - b * M) by ring. rewrite HM. ring. }
  assert (Hbd : 2 * Z.abs (b * (c * P - M)) <= b * P) by (rewrite Z.abs_mul; nia).
  rewrite E. clearbody P G N r.
  destruct (Z.eq_dec r 0) as [->|Hr].
  - assert (c = N * G) as -> by nia. rewrite !Z.add_0_r, (Z.mul_comm b N), !Z.mul_assoc.
    rewrite <- !Z.mul_le_mono_pos_r by done. done.
  - assert (Hlo : N * G < c) by nia.
    assert (Hr' : r * (G * P) <= (b - 1) * (G * P)) by (apply Z.mul_le_mono_nonneg_r; nia).
    assert (Hup : b * (c * P) < b * ((N + 1) * G * P)) by lia.
    apply Z.mul_lt_mono_pos_l in Hup; [|done]. apply Z.mul_lt_mono_pos_r in Hup; [|done].
    rewrite !Z.mul_assoc, <- !Z.mul_le_mono_pos_r by done. clear -Hup Hlo Hr Hrb Hb HG. split; split; intros Hle.
    + assert (N < n) by nia. nia.
    + assert (N < n) by nia. nia.
    + assert (n <= N) by nia. nia.
    + assert (n <= N) by nia. nia.
Qed.

(** Values are compared at the common scale [2^200]. *)
Definition scaled (m : positive) (e : Z) : Z := Zpos m * 2 ^ (e + 200).

Lemma f64_mul_side mq sq a b T : stands_for mq sq a b -> 0 < T < 2 ^ 44 ->
  exists mv ev, f64_mul (S754_finite false mq (- sq)) (f64_of_Z T) = S754_finite false mv ev
    /\ normal mv /\ -200 <= ev < 0
    /\ forall n, 0 <= n -> (scaled mv ev <= n * 2 ^ 200 <-> a * T <= n * b)
                        /\ (n * 2 ^ 200 <= scaled mv ev <-> n * b <= a * T).
Proof.
  intros [Hq Hsq Hab H53 H52 Hgap] HT.
  destruct (f64_of_Z_exact T) as (mT & -> & HmT & EmT); [lia|].
  assert (Hl : 0 <= Z.log2 T <= 43).
  { split; [apply Z.log2_nonneg|]. apply Z.lt_succ_r, Z.log2_lt_pow2; lia. }
  unfold f64_mul, SFmul, xorb. rewrite Pos2Z.inj_mul. set (l := Z.log2 T) in *. set (e := - sq + (l - 52)).
  set (D := Zpos mq * b - a * 2 ^ sq) in *.
  assert (Hn : exists n, Z.log2 (Zpos mq * Zpos mT) + 1 = 53 + Z.of_nat (S n)
    /\ (n = 51 \/ n = 52)%nat /\ 2 * (Zpos mT * Z.abs D) < b * 2 ^ Z.of_nat (S n)).
  { destruct (product_log2 (Zpos mq) (Zpos mT) Hq HmT) as [[Hd Hlt]|Hd]; [exists 51%nat|exists 52%nat].
    - split; [done|]. split; [by left|]. apply (H52 (Zpos mT)); [apply HmT|done].
    - split; [done|]. split; [by right|]. apply (H53 (Zpos mT)), HmT. }
  destruct Hn as (n & Hd & Hn & Hhalf).
  destruct (binary_round_wide (Zpos mq * Zpos mT) e n) as (mv & ev & k' & -> & Hv & -> & Hk' & Hround); [lia..|].
  set (k := Z.of_nat (S n)) in *. set (s := sq + 52 - l).
  assert (Hs : s = - e) by lia. assert (Hks : 0 <= k <= s) by lia.
  assert (Hside : forall j, 0 <= j ->
    (scaled mv (e + k + k') <= j * 2 ^ 200 <-> a * T <= j * b)
    /\ (j * 2 ^ 200 <= scaled mv (e + k + k') <-> j * b <= a * T)).
  { intros j Hj. unfold scaled.
    assert (E : Zpos mv * 2 ^ (e + k + k' + 200) = Zpos mv * 2 ^ k' * 2 ^ k * 2 ^ (200 - s)).
    { rewrite <- !Z.mul_assoc, <- !Z.pow_add_r by lia. f_equal. f_equal. lia. }
    replace (j * 2 ^ 200) with (j * 2 ^ s * 2 ^ (200 - s)) by (rewrite <- Z.mul_assoc, <- Z.pow_add_r by lia; f_equal; f_equal; lia).
    rewrite E, <- !Z.mul_le_mono_pos_r by (apply Z.pow_pos_nonneg; lia).
    apply (rounded_side _ (Zpos mq * Zpos mT) T (Zpos mT) D a b k s j); try (done || lia).
    - by eexists.
    - unfold D. rewrite EmT. replace (2 ^ s) with (2 ^ (52 - l) * 2 ^ sq) by (rewrite <- Z.pow_add_r by lia; f_equal; lia). ring.
    - assert (2 ^ (sq + 9) <= 2 ^ s) by (apply Z.pow_le_mono_r; lia).
      assert (2 ^ k <= 2 ^ 53) by (apply Z.pow_le_mono_r; lia). destruct HmT. nia. }
  exists mv, (e + k + k'). split; [done|]. split; [done|]. split; [|done]. split; [lia|].
  destruct (Hside T ltac:(lia)) as [[_ Hle] _]. specialize (Hle ltac:(nia)). unfold scaled in Hle.
  destruct (Z.lt_ge_cases (e + k + k') 0) as [|Hge]; [done|exfalso].
  assert (2 ^ 200 <= 2 ^ (e + k + k' + 200)) by (apply Z.pow_le_mono_r; lia). destruct Hv. nia.
Qed.

Lemma f64_to_u64_of_Z n : 0 < n < 2 ^ 53 -> f64_to_u64 (f64_of_Z n) = n.
Proof.
  intros Hn. destruct (f64_of_Z_exact n Hn) as (m & -> & _ & Em). cbn [f64_to_u64].
  assert (0 <= Z.log2 n <= 52).
  { split; [apply Z.log2_nonneg|]. apply Z.lt_succ_r, Z.log2_lt_pow2; lia. }
  destruct (Z.leb_spec 0 (Z.log2 n - 52)).
  - replace (Z.log2 n) with 52 in * by lia. simpl in *. lia.
  - rewrite Em. replace (- (Z.log2 n - 52)) with (52 - Z.log2 n) by lia.
    rewrite Z.div_mul by (apply Z.pow_nonzero; lia). lia.
Qed.

(** [(q * T as f64).ceil() as u64] is the exact ceiling. *)
Lemma ceil_product_exact mq sq a b T : stands_for mq sq a b -> 0 < T < 2 ^ 44 ->
  f64_to_u64 (f64_ceil (f64_mul (S754_finite false mq (- sq)) (f64_of_Z T))) = div_ceil (a * T) b.
Proof.
  intros Hq HT. destruct (f64_mul_side _ _ _ _ _ Hq HT) as (mv & ev & -> & Hv & Hev & Hside).
  destruct Hq as [_ _ Hab _ _ _]. cbn [f64_ceil]. rewrite (proj2 (Z.leb_gt _ _)) by lia.
  set (P := 2 ^ (- ev)). assert (HP : 0 < P) by (apply Z.pow_pos_nonneg; lia).
  set (q := div_ceil (Zpos mv) P).
  assert (Hspec : forall n, 0 <= n -> q <= n <-> a * T <= n * b).
  { intros n Hn. unfold q. rewrite div_ceil_spec by done. rewrite <- (proj1 (Hside n Hn)). unfold scaled, P.
    replace (2 ^ 200) with (2 ^ (- ev) * 2 ^ (ev + 200)) by (rewrite <- Z.pow_add_r by lia; f_equal; lia).
    rewrite Z.mul_assoc, <- Z.mul_le_mono_pos_r by (apply Z.pow_pos_nonneg; lia). done. }
  assert (Hd : forall n, 0 <= n -> div_ceil (a * T) b <= n <-> a * T <= n * b) by (intros; apply div_ceil_spec; lia).
  assert (Hq0 : 0 < q) by (apply Z.nle_gt; rewrite (Hspec 0) by lia; nia).
  assert (Hd0 : 0 < div_ceil (a * T) b) by (apply Z.nle_gt; rewrite (Hd 0) by lia; nia).
  assert (q = div_ceil (a * T) b) as <-.
  { apply Z.le_antisymm; [apply Hspec, Hd|apply Hd, Hspec]; lia. }
  assert (q <= T) by (apply Hspec; nia). unfold signed. destruct q as [|p|] eqn:E; try lia.
  apply (f64_to_u64_of_Z (Zpos p)). lia.
Qed.

Lemma compare_normal m1 e1 m2 e2 : normal m1 -> normal m2 -> -200 <= e1 -> -200 <= e2 ->
  SFcompare (S754_finite false m1 e1) (S754_finite false m2 e2) = Some (scaled m1 e1 ?= scaled m2 e2).
Proof.
  intros H1 H2 He1 He2. cbn [SFcompare]. f_equal. unfold scaled.
  assert (Hlt : forall p q e f, normal p -> normal q -> -200 <= e -> e < f -> Zpos p * 2 ^ (e + 200) < Zpos q * 2 ^ (f + 200)).
  { intros p q e f [_ Hp] [Hq _] He Hf. set (x := e + 200). replace (f + 200) with (1 + (f - e - 1) + x) by lia.
    rewrite !Z.pow_add_r by lia. pose proof (Z.pow_pos_nonneg 2 (f - e - 1)). pose proof (Z.pow_pos_nonneg 2 x).
    rewrite Z.mul_assoc. apply Z.mul_lt_mono_pos_r; [lia|]. nia. }
  destruct (Z.compare_spec e1 e2) as [->|Hl|Hg].
  -
    change (Pos.compare_cont Eq m1 m2) with (Zpos m1 ?= Zpos m2).
    pose proof (Z.pow_pos_nonneg 2 (e2 + 200)). destruct (Z.compare_spec (Zpos m1) (Zpos m2)) as [->|?|?]; symmetry.
    + apply Z.compare_refl.
    + apply Z.compare_lt_iff. nia.
    + apply Z.compare_gt_iff. nia.
  - symmetry. apply Z.compare_lt_iff. by apply Hlt.
  - symmetry. apply Z.compare_gt_iff. by apply Hlt.
Qed.

(** [p as f64 > q * T as f64] decides exactly [p > a/b * T]. *)
Lemma product_lt_exact mq sq a b T p : stands_for mq sq a b -> 0 < T < 2 ^ 44 -> 0 <= p < 2 ^ 53 ->
  f64_lt (f64_mul (S754_finite false mq (- sq)) (f64_of_Z T)) (f64_of_Z p) = (a * T <? p * b).
Proof.
  intros Hq HT Hp. destruct (f64_mul_side _ _ _ _ _ Hq HT) as (mv & ev & -> & Hv & Hev & Hside).
  destruct Hq as [_ _ Hab _ _ _]. unfold f64_lt, SFltb.
  destruct (Z.eq_dec p 0) as [->|Hp0].
  - simpl. symmetry. apply Z.ltb_ge. nia.
  - destruct (f64_of_Z_exact p) as (m & -> & Hm & Em); [lia|].
    assert (0 <= Z.log2 p <= 52).
    { split; [apply Z.log2_nonneg|]. apply Z.lt_succ_r, Z.log2_lt_pow2; lia. }
    rewrite compare_normal by (done || lia).
    assert (Es : scaled m (Z.log2 p - 52) = p * 2 ^ 200).
    { unfold scaled. rewrite Em, <- Z.mul_assoc, <- Z.pow_add_r by lia. f_equal. f_equal. lia. }
    rewrite Es. destruct (Hside p ltac:(lia)) as [_ Hge].
    destruct (Z.ltb_spec (a * T) (p * b)); destruct (Z.compare_spec (scaled mv ev) (p * 2 ^ 200)); try done; exfalso; lia.
Qed.

(** The quantiles and the lateness fraction of the harness. *)
Lemma stands_for_10th : stands_for 7205759403792794 56 1 10.
Proof. split; unfold normal; try lia; intros; simpl; lia. Qed.
Lemma stands_for_99 : stands_for 8917127262193582 53 99 100.
Proof. split; unfold normal; try lia; intros; simpl; lia. Qed.
Lemma stands_for_half : stands_for 4503599627370496 53 1 2.
Proof. split; unfold normal; try lia; intros; simpl; lia. Qed.
Lemma stands_for_one : stands_for 4503599627370496 52 1 1.
Proof. split; unfold normal; try lia; intros; simpl; lia. Qed.

(** ** Quotients are numbers *)

Definition is_finite (x : f64) : Prop := exists s m e, x = S754_finite s m e.

Lemma f64_of_Z_finite n : 0 < n < 2 ^ 128 -> is_finite (f64_of_Z n).
Proof.
  intros [Hn Hlt]. destruct (Z.lt_ge_cases n (2 ^ 53)) as [Hs|Hw].
  { destruct (f64_of_Z_exact n) as (m & E & _); [lia|]. rewrite E. by repeat eexists. }
  destruct n as [|p|]; try lia. unfold f64_of_Z, is_finite. cbn [binary_normalize].
  assert (Hl : 53 <= Z.log2 (Zpos p) < 128).
  { split; [apply Z.log2_le_pow2; lia|apply Z.log2_lt_pow2; lia]. }
  unfold binary_round, shl_align. rewrite digits2_log2, fexp_normal by lia.
  destruct (Z.log2 (Zpos p) + 1 + 0 - 53 - 0) as [|d|d] eqn:E; [lia| |lia].
  destruct (binary_round_wide (Zpos p) 0 (Z.to_nat (Z.log2 (Zpos p) - 53))) as (mv & ev & k & Er & _); try lia.
  rewrite Er. by repeat eexists.
Qed.

Lemma shr_1_m mrs : 0 <= shr_m mrs -> 0 <= shr_m (shr_1 mrs).
Proof. destruct mrs as [m r s]. cbn [shr_m]. intros Hm. rewrite shr_1_nonneg by done. cbn [shr_m]. by apply Z.div_pos. Qed.

Lemma shr_fexp_m m e l : 0 <= m -> 0 <= shr_m (shr_fexp 53 1024 m e l).1.
Proof.
  intros Hm. unfold shr_fexp. assert (H : 0 <= shr_m (shr_record_of_loc m l)) by (by destruct l as [|[]]).
  set (mrs := shr_record_of_loc m l) in *. clearbody mrs. destruct (_ - e) as [|p|p]; cbn [shr fst]; try done.
  rewrite iter_pos_nat. induction (Pos.to_nat p) as [|k IH]; [done|]. rewrite Nat.iter_succ. by apply shr_1_m.
Qed.

Lemma round_nearest_even_m m l : 0 <= m -> 0 <= round_nearest_even m l.
Proof. intros. destruct l as [|[]]; cbn; try destruct (Z.even m); lia. Qed.

Lemma round_aux_number s m e l : 0 <= m -> binary_round_aux 53 1024 s m e l <> S754_nan.
Proof.
  intros Hm. unfold binary_round_aux. pose proof (shr_fexp_m m e l Hm) as H1. destruct (shr_fexp 53 1024 m e l) as [r e'].
  cbn [fst] in H1. pose proof (round_nearest_even_m _ (loc_of_shr_record r) H1) as H2.
  pose proof (shr_fexp_m _ e' loc_Exact H2) as H3. destruct (shr_fexp _ _ _ e' _) as [r2 e2]. cbn [fst] in H3.
  destruct (shr_m r2); [done|by destruct (_ <=? _)|lia].
Qed.

Lemma f64_div_number x y : is_finite y -> x = S754_zero false \/ is_finite x -> f64_div x y <> S754_nan.
Proof.
  intros (s & m & e & ->) [->|(s' & m' & e' & ->)]; [done|]. unfold f64_div. cbn [SFdiv]. unfold SFdiv_core_binary.
  set (mm := match _ with Z0 => _ | _ => _ end).
  assert (Hm : 0 <= mm).
  { subst mm. destruct (_ - _ - _); [lia|apply Z.shiftl_nonneg; lia|lia]. }
  pose proof (Z_div_mod mm (Zpos m) ltac:(lia)) as Hd. destruct (Z.div_eucl mm (Zpos m)) as [q r] eqn:E. destruct Hd as [E1 Hr].
  apply round_aux_number. nia.
Qed.

Lemma f64_of_Z_number n : f64_of_Z n <> S754_nan.
Proof.
  unfold f64_of_Z, binary_normalize. destruct n as [|p|p]; [done|..]; unfold binary_round; destruct (shl_align _ _ _);
    apply round_aux_number; lia.
Qed.

(** A number equals itself. *)
Lemma f64_eq_refl x : x <> S754_nan -> f64_eq x x = true.
Proof.
  unfold f64_eq, SFeqb, SFcompare. destruct x as [[]|[]| |[] m e]; try done; intros _; by rewrite Z.compare_refl, Pos.compare_cont_refl.
Qed.
