(* ===== verification/FixedHeader.v ===== *)
(** * The MQTT fixed header and the inbound packet-size bound

    The first half of src/codec/mqtt.rs: [MaxInboundPacketSize], the
    Remaining Length varint, and the predicates on the first bytes of a read
    buffer that decide, before any body is read, whether a packet is complete,
    too large, or malformed.  A buffer is a list of bytes, each a [Z] in
    [0, 256). *)

From S2P Require Import Prelude.

(** ** Constants *)

Definition MIN_INBOUND_PACKET_SIZE : Z := 3.
Definition MAX_REMAINING_LENGTH : Z := 268435455.
Definition MAX_INBOUND_PACKET_SIZE : Z := 268435460.
Definition VARINT_PAYLOAD_BITS : Z := 7.
Definition VARINT_PAYLOAD_MASK : Z := 127.
Definition VARINT_CONTINUATION_BIT : Z := 128.
Definition MAX_VARINT_BYTES : nat := 4.
Definition PINGREQ_FIRST_BYTE : Z := 192.

(** ** [varint_len]

    [let mut len = 1; let mut rest = r >> 7; while rest > 0 { len += 1; rest
    >>= 7 }]: the loop state is [(len, rest)].  A u32 has 32 bits, so five
    turns bring [rest] to zero; [varint_len_returns] proves it. *)

Definition varint_len_step (s : Z * Z) : (Z * Z) + Z :=
  let '(len, rest) := s in
  if 0 <? rest then inl (wrap32 (len + 1), Z.shiftr rest VARINT_PAYLOAD_BITS) else inr len.

Definition varint_len_fuel : nat := 6.

Definition varint_len (r : Z) : Z :=
  default 0 (loop varint_len_step varint_len_fuel (1, Z.shiftr r VARINT_PAYLOAD_BITS)).

(** ** [MaxInboundPacketSize] *)

Record MaxInboundPacketSize := { mips_bytes : Z }.

Definition MaxInboundPacketSize_DEFAULT : MaxInboundPacketSize := {| mips_bytes := 131072 |}.

Definition MaxInboundPacketSize_new (bytes : Z) : option MaxInboundPacketSize :=
  if (bytes <? MIN_INBOUND_PACKET_SIZE) || (MAX_INBOUND_PACKET_SIZE <? bytes)
  then None else Some {| mips_bytes := bytes |}.

Definition MaxInboundPacketSize_get (m : MaxInboundPacketSize) : Z := mips_bytes m.

(** [while 1 + varint_len(r) + r > self.0 { r -= 1 }], on u32. *)
Definition remaining_length_limit_step (bound r : Z) : Z + Z :=
  if bound <? wrap32 (1 + varint_len r + r) then inl (wrap32 (r - 1)) else inr r.

Definition remaining_length_limit_fuel : nat := 5.

Definition remaining_length_limit (m : MaxInboundPacketSize) : Z :=
  default 0 (loop (remaining_length_limit_step (mips_bytes m)) remaining_length_limit_fuel
    (Z.min (wrap32 (mips_bytes m - 2)) MAX_REMAINING_LENGTH)).

(** ** The fixed header of a buffer *)

(** The body of the [for] loop over [src.iter().skip(1).take(4).enumerate()]. *)
Fixpoint fixed_header_scan (i : nat) (remaining_length : Z) (bytes : list Z) : option (Z * Z) :=
  match bytes with
  | [] => None
  | byte :: bytes =>
      let remaining_length :=
        Z.lor remaining_length
          (wrap32 (Z.shiftl (Z.land byte VARINT_PAYLOAD_MASK) (VARINT_PAYLOAD_BITS * Z.of_nat i))) in
      if Z.land byte VARINT_CONTINUATION_BIT =? 0 then Some (2 + Z.of_nat i, remaining_length)
      else fixed_header_scan (S i) remaining_length bytes
  end.

Definition fixed_header (src : list Z) : option (Z * Z) :=
  fixed_header_scan 0 0 (take MAX_VARINT_BYTES (drop 1 src)).

Definition packet_len (src : list Z) : option Z :=
  match fixed_header src with
  | Some (header_len, remaining_length) => Some (header_len + remaining_length)
  | None => None
  end.

Definition rejects_fixed_header (m : MaxInboundPacketSize) (src : list Z) : bool :=
  match packet_len src with
  | Some len => mips_bytes m <? len
  | None => false
  end.

Definition holds_complete_packet (src : list Z) : bool :=
  match packet_len src with
  | Some len => len <=? Z.of_nat (length src)
  | None => false
  end.

(** [src[0]] is read only behind a complete fixed header, so the buffer is
    never empty there ([fixed_header_nonempty]). *)
Definition rejects_malformed_fixed_header (src : list Z) : bool :=
  match fixed_header src with
  | None => false
  | Some (header_len, remaining_length) =>
      let pingreq_with_body :=
        (default 0 (src !! 0%nat) =? PINGREQ_FIRST_BYTE) && negb (remaining_length =? 0) in
      let non_minimal := varint_len remaining_length <? header_len - 1 in
      pingreq_with_body || non_minimal
  end.

(** ** The invariant of the bound *)

Definition mips_ok (m : MaxInboundPacketSize) : Prop :=
  MIN_INBOUND_PACKET_SIZE <= mips_bytes m <= MAX_INBOUND_PACKET_SIZE.

(** ** Lemmas on the varint *)

Lemma shiftr7 x : Z.shiftr x VARINT_PAYLOAD_BITS = x / 128.
Proof. by rewrite Z.shiftr_div_pow2. Qed.

(** The closed form of [varint_len] on the whole u32 range. *)
Definition varint_width (r : Z) : Z :=
  if r <? 128 then 1 else if r <? 16384 then 2 else if r <? 2097152 then 3
  else if r <? 268435456 then 4 else 5.

Lemma varint_loop_width n r len :
  0 <= r < 128 ^ Z.of_nat n -> 0 <= len -> len + Z.of_nat n < 2 ^ 32 ->
  exists k, loop varint_len_step (S n) (len, r) = Some (len + Z.of_nat k) /\
    (128 ^ Z.of_nat k <= 128 * r \/ k = 0%nat /\ r = 0) /\ r < 128 ^ Z.of_nat k /\ (k <= n)%nat.
Proof.
  revert r len. induction n as [|n IH]; intros r len Hr Hl Hw.
  - assert (r = 0) as -> by lia. exists 0%nat. simpl. rewrite Z.add_0_r. repeat split; lia.
  - rewrite loop_S. unfold varint_len_step at 1. destruct (Z.ltb_spec 0 r) as [Hpos|Hz].
    + rewrite shiftr7, wrap_small by lia.
      destruct (IH (r / 128) (len + 1)) as (k & Hk & Hlow & Hup & Hkn).
      * rewrite Nat2Z.inj_succ, Z.pow_succ_r in Hr by lia. split; [apply Z.div_pos; lia|].
        apply Z.div_lt_upper_bound; lia.
      * lia.
      * lia.
      * exists (S k). rewrite Hk. rewrite Nat2Z.inj_succ, Z.pow_succ_r by lia.
        pose proof (Z.mul_div_le r 128). pose proof (Z.mul_succ_div_gt r 128).
        split; [apply f_equal; lia|].
        destruct Hlow as [?|[-> ?]]; simpl in *; lia.
    + assert (r = 0) as -> by lia. exists 0%nat. rewrite Z.add_0_r. simpl. repeat split; lia.
Qed.

Lemma varint_loop_u32 r : 0 <= r < 2 ^ 32 ->
  loop varint_len_step varint_len_fuel (1, Z.shiftr r VARINT_PAYLOAD_BITS) = Some (varint_width r).
Proof.
  intros Hr. rewrite shiftr7.
  destruct (varint_loop_width 5 (r / 128) 1) as (k & Hk & Hlow & Hup & Hkn); [|lia|lia|].
  { split; [apply Z.div_pos; lia|]. apply Z.div_lt_upper_bound; simpl; lia. }
  unfold varint_len_fuel. rewrite Hk. f_equal.
  pose proof (Z.mul_div_le r 128). pose proof (Z.mul_succ_div_gt r 128).
  unfold varint_width.
  do 6 (destruct k as [|k]; [simpl in *; repeat (case_match; zbool); lia|]). lia.
Qed.

Lemma varint_len_width r : 0 <= r < 2 ^ 32 -> varint_len r = varint_width r.
Proof. intros Hr. unfold varint_len. by rewrite varint_loop_u32. Qed.

Ltac widths := unfold varint_width in *; repeat (case_match; zbool); try lia.

Lemma varint_width_mono a b : a <= b -> varint_width a <= varint_width b.
Proof. intros. widths. Qed.

Lemma varint_width_bounds r : 1 <= varint_width r <= 5.
Proof. widths. Qed.

(** ** The Remaining Length limit *)

Definition wire_len (r : Z) : Z := 1 + varint_len r + r.

Lemma wire_len_width r : 0 <= r <= MAX_REMAINING_LENGTH -> wire_len r = 1 + varint_width r + r.
Proof. intros. unfold wire_len. rewrite varint_len_width; unfold MAX_REMAINING_LENGTH in *; lia. Qed.

Lemma wire_len_mono a b :
  0 <= a -> a < b -> b <= MAX_REMAINING_LENGTH -> wire_len a < wire_len b.
Proof.
  intros. rewrite !wire_len_width by lia. pose proof (varint_width_mono a b). lia.
Qed.

Lemma varint_width_max r : 0 <= r <= MAX_REMAINING_LENGTH -> varint_width r <= 4.
Proof. unfold MAX_REMAINING_LENGTH. intros. widths. Qed.

(** One turn of the search loop, on the part of the range it visits. *)
Lemma limit_step_eq bound r :
  1 <= r <= MAX_REMAINING_LENGTH ->
  remaining_length_limit_step bound r = if bound <? wire_len r then inl (r - 1) else inr r.
Proof.
  intros Hr. pose proof (wire_len_width r ltac:(lia)) as E.
  pose proof (varint_width_bounds r). unfold remaining_length_limit_step, wire_len in *.
  unfold MAX_REMAINING_LENGTH in *. by rewrite !wrap_small by lia.
Qed.

(** What the search keeps: nothing above [r] fits the bound. *)
Definition limit_inv (bound r : Z) : Prop :=
  1 <= r <= MAX_REMAINING_LENGTH /\ r <= bound - 2 /\
  forall r', 0 <= r' <= MAX_REMAINING_LENGTH -> wire_len r' <= bound -> r' <= r.

Lemma limit_inv_init m :
  mips_ok m -> limit_inv (mips_bytes m) (Z.min (wrap32 (mips_bytes m - 2)) MAX_REMAINING_LENGTH).
Proof.
  unfold mips_ok, MIN_INBOUND_PACKET_SIZE, MAX_INBOUND_PACKET_SIZE. intros Hm.
  rewrite wrap_small by lia. unfold limit_inv, MAX_REMAINING_LENGTH. split; [lia|]. split; [lia|].
  intros r' Hr'. rewrite wire_len_width by (unfold MAX_REMAINING_LENGTH; lia).
  pose proof (varint_width_bounds r'). lia.
Qed.

Lemma limit_inv_step bound r r' :
  MIN_INBOUND_PACKET_SIZE <= bound ->
  limit_inv bound r -> remaining_length_limit_step bound r = inl r' -> limit_inv bound r' /\
    wire_len r' < wire_len r.
Proof.
  unfold MIN_INBOUND_PACKET_SIZE. intros Hb (Hr & Hle & Hmax) Hs.
  rewrite limit_step_eq in Hs by done. destruct (Z.ltb_spec bound (wire_len r)); simplify_eq.
  assert (r <> 1). { intros ->. change (wire_len 1) with 3 in *. lia. }
  split; [|apply wire_len_mono; lia]. split; [lia|]. split; [lia|]. intros x Hx Hfit.
  destruct (Z.eq_dec x r) as [->|]; [lia|]. specialize (Hmax x Hx Hfit). lia.
Qed.

Lemma remaining_length_limit_returns m : mips_ok m ->
  loop (remaining_length_limit_step (mips_bytes m)) remaining_length_limit_fuel
    (Z.min (wrap32 (mips_bytes m - 2)) MAX_REMAINING_LENGTH) = Some (remaining_length_limit m).
Proof.
  intros Hm. pose proof (limit_inv_init m Hm) as Hi. unfold remaining_length_limit.
  destruct (loop_terminates (remaining_length_limit_step (mips_bytes m)) (limit_inv (mips_bytes m))
    (fun r => Z.to_nat (wire_len r - mips_bytes m))) with (n := remaining_length_limit_fuel)
    (s := Z.min (wrap32 (mips_bytes m - 2)) MAX_REMAINING_LENGTH) as [r Hr]; [|done| |by rewrite Hr].
  - intros s s' Hs Hstep. destruct (limit_inv_step _ _ _ (proj1 Hm) Hs Hstep) as [Hi' Hlt].
    split; [done|]. destruct Hs as (Hr & _ & _). rewrite limit_step_eq in Hstep by done.
    destruct (Z.ltb_spec (mips_bytes m) (wire_len s)); simplify_eq. lia.
  - destruct Hi as (Hr & Hle & _). revert Hr Hle.
    generalize (Z.min (wrap32 (mips_bytes m - 2)) MAX_REMAINING_LENGTH). intros r Hr Hle.
    rewrite wire_len_width by lia. pose proof (varint_width_max r). unfold remaining_length_limit_fuel.
    lia.
Qed.

(** [remaining_length_limit] terminates and is what its comment says: the
    largest Remaining Length [r] with [1 + varint_len(r) + r <= bound], and it
    is never 0 (which rmqtt-codec would read as "unlimited"). *)
Theorem remaining_length_limit_spec m :
  mips_ok m ->
  let r := remaining_length_limit m in
  loop (remaining_length_limit_step (mips_bytes m)) remaining_length_limit_fuel
    (Z.min (wrap32 (mips_bytes m - 2)) MAX_REMAINING_LENGTH) = Some r /\
  0 < r <= MAX_REMAINING_LENGTH /\
  1 + varint_len r + r <= MaxInboundPacketSize_get m /\
  forall r', r < r' <= MAX_REMAINING_LENGTH -> MaxInboundPacketSize_get m < 1 + varint_len r' + r'.
Proof.
  intros Hm r. pose proof (remaining_length_limit_returns m Hm) as Hret. split; [done|].
  unfold MaxInboundPacketSize_get. fold (wire_len r).
  cut (limit_inv (mips_bytes m) r /\ wire_len r <= mips_bytes m).
  { intros [(Hr & _ & Hmax) Hfit]. split; [lia|]. split; [done|]. intros r' Hr'.
    fold (wire_len r'). destruct (Z.le_gt_cases (wire_len r') (mips_bytes m)); [|done].
    specialize (Hmax r' ltac:(lia) ltac:(done)). lia. }
  revert Hret. apply (loop_inv _ (limit_inv (mips_bytes m))
    (fun r => limit_inv (mips_bytes m) r /\ wire_len r <= mips_bytes m)).
  - intros s s' Hs Hstep. by eapply limit_inv_step, Hstep; [apply Hm|].
  - intros s r0 Hs. pose proof Hs as (Hr & _ & _). rewrite limit_step_eq by done.
    destruct (Z.ltb_spec (mips_bytes m) (wire_len s)); intros; by simplify_eq.
  - by apply limit_inv_init.
Qed.

Lemma remaining_length_limit_spec_witness :
  mips_ok MaxInboundPacketSize_DEFAULT /\
  0 < remaining_length_limit MaxInboundPacketSize_DEFAULT <= MAX_REMAINING_LENGTH /\
  remaining_length_limit MaxInboundPacketSize_DEFAULT = 131068.
Proof.
  assert (mips_ok MaxInboundPacketSize_DEFAULT) as H.
  { split; vm_compute; discriminate. }
  split; [exact H|]. split; [|vm_compute; reflexivity].
  destruct (remaining_length_limit_spec MaxInboundPacketSize_DEFAULT H) as (_ & Hr & _). exact Hr.
Defined.

(** [MaxInboundPacketSize::new] accepts exactly the bounds of the invariant. *)
Lemma MaxInboundPacketSize_new_ok bytes m :
  MaxInboundPacketSize_new bytes = Some m -> mips_ok m /\ mips_bytes m = bytes.
Proof.
  unfold MaxInboundPacketSize_new, mips_ok. intros H. split_matches. zbool. simpl. lia.
Qed.

(** ** The fixed header against the MQTT grammar

    The reference: a Remaining Length is up to three bytes with the
    continuation bit followed by one without it, least significant group
    first. *)

Fixpoint varint_value (bytes : list Z) : Z :=
  match bytes with
  | [] => 0
  | b :: bytes => b mod 128 + 128 * varint_value bytes
  end.

Definition continues (b : Z) : Prop := 128 <= b.

Definition header_grammar (src : list Z) (header_len remaining_length : Z) : Prop :=
  exists ty pre b post, src = ty :: pre ++ b :: post /\
    Forall continues pre /\ ~ continues b /\ (length pre < MAX_VARINT_BYTES)%nat /\
    header_len = 2 + Z.of_nat (length pre) /\ remaining_length = varint_value (pre ++ [b]).

Lemma byte_payload b : u8 b -> Z.land b VARINT_PAYLOAD_MASK = b mod 128.
Proof.
  intros Hb. apply Z.eqb_eq.
  apply (byte_forall (fun b => Z.land b VARINT_PAYLOAD_MASK =? b mod 128)); [by vm_compute|done].
Qed.

Lemma byte_continuation b : u8 b -> (Z.land b VARINT_CONTINUATION_BIT =? 0) = (b <? 128).
Proof.
  intros Hb. apply eqb_prop.
  apply (byte_forall (fun b => Bool.eqb (Z.land b VARINT_CONTINUATION_BIT =? 0) (b <? 128)));
    [by vm_compute|done].
Qed.

Lemma pow128 n : 2 ^ (VARINT_PAYLOAD_BITS * Z.of_nat n) = 128 ^ Z.of_nat n.
Proof. unfold VARINT_PAYLOAD_BITS. by rewrite Z.pow_mul_r by lia. Qed.

(** One byte of the scan adds its group of seven bits at place [i]. *)
Lemma scan_acc i acc b :
  u8 b -> 0 <= acc < 128 ^ Z.of_nat i -> (i < MAX_VARINT_BYTES)%nat ->
  Z.lor acc (wrap32 (Z.shiftl (Z.land b VARINT_PAYLOAD_MASK) (VARINT_PAYLOAD_BITS * Z.of_nat i)))
  = acc + 128 ^ Z.of_nat i * (b mod 128).
Proof.
  intros Hb Hacc Hi. rewrite byte_payload by done.
  pose proof (Z.mod_pos_bound b 128 ltac:(lia)).
  assert (128 ^ Z.of_nat i <= 128 ^ 3) as Hp.
  { apply Z.pow_le_mono_r; unfold MAX_VARINT_BYTES in Hi; lia. }
  rewrite wrap_small.
  - rewrite lor_shiftl_add; rewrite ?pow128; unfold VARINT_PAYLOAD_BITS; lia.
  - rewrite Z.shiftl_mul_pow2, pow128 by (unfold VARINT_PAYLOAD_BITS; lia). nia.
Qed.

Lemma scan_acc_range i acc b :
  0 <= acc < 128 ^ Z.of_nat i ->
  0 <= acc + 128 ^ Z.of_nat i * (b mod 128) < 128 ^ Z.of_nat (S i).
Proof.
  intros. pose proof (Z.mod_pos_bound b 128 ltac:(lia)).
  rewrite Nat2Z.inj_succ, Z.pow_succ_r by lia. nia.
Qed.

Lemma scan_complete pre b post i acc :
  Forall u8 (pre ++ [b]) -> Forall continues pre -> ~ continues b ->
  0 <= acc < 128 ^ Z.of_nat i -> (i + length pre < MAX_VARINT_BYTES)%nat ->
  fixed_header_scan i acc (pre ++ b :: post) =
    Some (2 + Z.of_nat (i + length pre), acc + 128 ^ Z.of_nat i * varint_value (pre ++ [b])).
Proof.
  unfold continues.
  revert i acc. induction pre as [|c pre IH]; intros i acc Hu Hc Hb Hacc Hi; cbn [app length] in *.
  - apply Forall_cons in Hu as [Hu _]. cbn [fixed_header_scan varint_value].
    rewrite byte_continuation, scan_acc by (done || lia).
    rewrite (proj2 (Z.ltb_lt b 128)) by lia. do 2 f_equal; lia.
  - apply Forall_cons in Hu as [Hu Hus]. apply Forall_cons in Hc as [Hc Hcs].
    cbn [fixed_header_scan varint_value].
    rewrite byte_continuation, scan_acc by (done || lia).
    rewrite (proj2 (Z.ltb_ge c 128)) by lia.
    rewrite IH; auto using scan_acc_range; [|lia].
    rewrite Nat2Z.inj_succ, Z.pow_succ_r by lia. do 2 f_equal; lia.
Qed.

Lemma scan_none bytes i acc :
  Forall u8 bytes -> Forall continues bytes -> fixed_header_scan i acc bytes = None.
Proof.
  unfold continues. intros Hu Hc. revert i acc.
  induction bytes as [|b bytes IH]; intros i acc; cbn; [done|].
  apply Forall_cons in Hu as [? ?]. apply Forall_cons in Hc as [? ?].
  rewrite byte_continuation by done. rewrite (proj2 (Z.ltb_ge b 128)) by lia. auto.
Qed.

Lemma continues_split bytes :
  Forall continues bytes \/
  exists pre b post, bytes = pre ++ b :: post /\ Forall continues pre /\ ~ continues b.
Proof.
  unfold continues.
  induction bytes as [|c bytes IH]; [by left|].
  destruct (Z_le_gt_dec 128 c) as [Hc|Hc].
  - destruct IH as [?|(pre & b & post & -> & ? & ?)]; [left; by constructor|].
    right. exists (c :: pre), b, post. repeat split; [by constructor|done].
  - right. exists [], c, bytes. repeat split; [by constructor|lia].
Qed.

Lemma fixed_header_cons ty src :
  fixed_header (ty :: src) = fixed_header_scan 0 0 (take MAX_VARINT_BYTES src).
Proof. done. Qed.

Lemma header_grammar_scan src h r :
  Forall u8 src -> header_grammar src h r -> fixed_header src = Some (h, r).
Proof.
  intros Hu (ty & pre & b & post & -> & Hc & Hb & Hl & -> & ->).
  rewrite fixed_header_cons, take_app. replace (MAX_VARINT_BYTES - length pre)%nat
    with (S (MAX_VARINT_BYTES - length pre - 1)) by lia.
  rewrite take_ge by lia. cbn [take].
  apply Forall_cons in Hu as [_ Hu].
  assert (Forall u8 (pre ++ [b])).
  { rewrite cons_middle, app_assoc in Hu. by apply Forall_app in Hu as [? _]. }
  rewrite scan_complete; [|done..|simpl; lia|lia]. do 2 f_equal. lia.
Qed.

Lemma fixed_header_inv src h r :
  Forall u8 src -> fixed_header src = Some (h, r) -> header_grammar src h r.
Proof.
  intros Hu H. destruct src as [|ty src]; [done|]. rewrite fixed_header_cons in H.
  destruct (continues_split (take MAX_VARINT_BYTES src)) as [Hc|(pre & b & post & E & Hc & Hb)].
  { rewrite scan_none in H; [done| |done]. apply Forall_cons in Hu as [_ Hu]. by apply Forall_take. }
  assert (header_grammar (ty :: src) (2 + Z.of_nat (length pre)) (varint_value (pre ++ [b]))) as Hg.
  { exists ty, pre, b, (post ++ drop MAX_VARINT_BYTES src). repeat split; [|done..|].
    - rewrite <- (take_drop MAX_VARINT_BYTES src) at 1. by rewrite E, <- app_assoc.
    - apply (f_equal length) in E. rewrite length_take, length_app in E. cbn [length] in E. lia. }
  apply header_grammar_scan in Hg as Hg'; [|done].
  rewrite fixed_header_cons, H in Hg'. by simplify_eq.
Qed.

(** What a header of any bytes can hold. *)
Lemma fixed_header_range src h r : fixed_header src = Some (h, r) -> 2 <= h <= 5 /\ 0 <= r < 2 ^ 32.
Proof.
  assert (forall bytes i acc, 0 <= acc < 2 ^ 32 -> fixed_header_scan i acc bytes = Some (h, r) ->
    2 + Z.of_nat i <= h < 2 + Z.of_nat i + Z.of_nat (length bytes) /\ 0 <= r < 2 ^ 32) as Hscan.
  { induction bytes as [|b bytes IH]; intros i acc Ha; cbn [fixed_header_scan length]; [done|].
    set (x := wrap32 _). assert (0 <= x < 2 ^ 32) as Hx by (apply Z.mod_pos_bound; lia).
    assert (0 <= Z.lor acc x < 2 ^ 32) as Hl.
    { split; [by apply Z.lor_nonneg; lia|]. destruct (Z.eq_dec (Z.lor acc x) 0) as [->|]; [lia|].
      assert (0 <= Z.lor acc x) by (apply Z.lor_nonneg; lia). apply Z.log2_lt_pow2; [lia|]. rewrite Z.log2_lor by lia.
      assert (forall y, 0 <= y < 2 ^ 32 -> Z.log2 y < 32) as Hlog.
      { intros y Hy. destruct (Z.eq_dec y 0) as [->|]; [done|]. apply Z.log2_lt_pow2; lia. }
      apply Z.max_lub_lt; by apply Hlog. }
    destruct (_ =? 0); [intros; simplify_eq; lia|]. intros Hs. apply IH in Hs; [lia|done]. }
  unfold fixed_header. intros Hs. apply Hscan in Hs as [Hh Hr]; [|lia]. split; [|done].
  rewrite length_take in Hh. unfold MAX_VARINT_BYTES in Hh. lia.
Qed.

(** (C14) The fixed-header scanner accepts exactly the buffers that start with
    a type byte and a Remaining Length of one to four bytes, and answers the
    header's real width and the value the varint denotes; it answers [None]
    for an incomplete header and for a varint longer than four bytes. *)
Theorem fixed_header_grammar src :
  Forall u8 src ->
  (forall h r, fixed_header src = Some (h, r) <-> header_grammar src h r) /\
  (fixed_header src = None <-> ~ exists h r, header_grammar src h r).
Proof.
  intros Hu. split; [|split].
  - intros h r. split; [by apply fixed_header_inv|by apply header_grammar_scan].
  - intros Hn (h & r & Hg). apply header_grammar_scan in Hg; [|done]. congruence.
  - intros Hn. destruct (fixed_header src) as [[h r]|] eqn:E; [|done].
    destruct Hn. eauto using fixed_header_inv.
Qed.

Lemma fixed_header_grammar_witness :
  fixed_header [48; 253; 1; 0] = Some (3, 253) /\ header_grammar [48; 253; 1; 0] 3 253.
Proof.
  split; [vm_compute; reflexivity|].
  apply (proj1 (fixed_header_grammar [48; 253; 1; 0] ltac:(unfold u_range; repeat constructor; lia))).
  vm_compute. reflexivity.
Defined.

(** ** Bounds, stability and minimality *)

Lemma varint_value_range bytes : 0 <= varint_value bytes < 128 ^ Z.of_nat (length bytes).
Proof.
  induction bytes as [|b bytes IH]; [done|]. cbn [varint_value length].
  rewrite Nat2Z.inj_succ, Z.pow_succ_r by lia. pose proof (Z.mod_pos_bound b 128). lia.
Qed.

Lemma varint_value_snoc pre b :
  0 <= b < 128 -> varint_value (pre ++ [b]) = varint_value pre + 128 ^ Z.of_nat (length pre) * b.
Proof.
  intros Hb. induction pre as [|c pre IH]; cbn [varint_value length app].
  - rewrite Z.mod_small by done. simpl. lia.
  - rewrite IH, Nat2Z.inj_succ, Z.pow_succ_r by lia. lia.
Qed.

Lemma varint_width_pow n r :
  (1 <= n <= 4)%nat -> 0 <= r ->
  (r < 128 ^ Z.of_nat n -> varint_width r <= Z.of_nat n) /\
  (128 ^ Z.of_nat n <= r -> Z.of_nat n < varint_width r).
Proof.
  intros Hn Hr. do 5 (destruct n as [|n]; [try lia; simpl; split; intros; widths|]). lia.
Qed.

Lemma fixed_header_bounds src h r :
  Forall u8 src -> fixed_header src = Some (h, r) ->
  2 <= h <= 5 /\ 0 <= r <= MAX_REMAINING_LENGTH /\ h <= Z.of_nat (length src).
Proof.
  intros Hu (ty & pre & b & post & -> & Hc & Hb & Hl & -> & ->)%fixed_header_inv; [|done].
  pose proof (varint_value_range (pre ++ [b])) as Hv. rewrite length_app in Hv.
  unfold MAX_VARINT_BYTES in Hl.
  assert (128 ^ Z.of_nat (length pre + length [b]) <= 128 ^ 4).
  { apply Z.pow_le_mono_r; simpl; lia. }
  rewrite length_cons, length_app. unfold MAX_REMAINING_LENGTH. cbn [length]. lia.
Qed.

Lemma fixed_header_nonempty src x : fixed_header src = Some x -> src <> [].
Proof. by destruct src. Qed.

Lemma scan_app bytes more i acc x :
  fixed_header_scan i acc bytes = Some x -> fixed_header_scan i acc (bytes ++ more) = Some x.
Proof.
  revert i acc. induction bytes as [|b bytes IH]; intros i acc; cbn; [done|].
  destruct (_ =? _); auto.
Qed.

Lemma fixed_header_app src more x :
  fixed_header src = Some x -> fixed_header (src ++ more) = Some x.
Proof.
  destruct src as [|ty src]; [done|]. cbn [app]. rewrite !fixed_header_cons, take_app.
  apply scan_app.
Qed.

(** The verdicts on a header are final: once the fixed header of a buffer
    is complete, bytes that arrive behind it change neither the size verdict
    nor the malformed verdict, and a buffer that holds a whole packet still
    holds one; the buffer is then never empty, so [src[0]] does not panic. *)
Theorem header_verdicts_stable m src more x :
  fixed_header src = Some x ->
  src <> [] /\
  rejects_fixed_header m (src ++ more) = rejects_fixed_header m src /\
  rejects_malformed_fixed_header (src ++ more) = rejects_malformed_fixed_header src /\
  (holds_complete_packet src = true -> holds_complete_packet (src ++ more) = true).
Proof.
  intros H. pose proof (fixed_header_nonempty _ _ H) as Hne.
  pose proof (fixed_header_app _ more _ H) as H'. split; [done|].
  unfold rejects_fixed_header, rejects_malformed_fixed_header, holds_complete_packet, packet_len.
  rewrite H, H'. destruct x as [h r]. split; [done|]. split.
  - destruct src; [done|]. done.
  - rewrite length_app, !Z.leb_le. lia.
Qed.

Lemma header_verdicts_stable_witness :
  rejects_fixed_header MaxInboundPacketSize_DEFAULT ([48; 255; 255; 127] ++ [0; 1]) = true.
Proof.
  destruct (header_verdicts_stable MaxInboundPacketSize_DEFAULT [48; 255; 255; 127] [0; 1]
    (4, 2097151)) as (_ & H & _); [vm_compute; reflexivity|].
  rewrite H. vm_compute. reflexivity.
Defined.

(** The width of a decoded varint is minimal unless its last byte is a zero
    that another byte precedes. *)
Lemma varint_minimal pre b :
  0 <= b < 128 -> (length pre < MAX_VARINT_BYTES)%nat ->
  (varint_width (varint_value (pre ++ [b])) <? 1 + Z.of_nat (length pre)) = true <->
  (pre <> [] /\ b = 0).
Proof.
  intros Hb Hl. unfold MAX_VARINT_BYTES in Hl. rewrite varint_value_snoc by done.
  pose proof (varint_value_range pre) as Hv. rewrite Z.ltb_lt.
  destruct (decide (pre = [])) as [->|Hne].
  { split; [|by intros []]. intros Hlt. cbn [length] in Hlt.
    pose proof (varint_width_bounds (varint_value [] + 128 ^ Z.of_nat 0 * b)). lia. }
  assert (1 <= length pre)%nat as H1 by (destruct pre; simpl in *; [done|lia]).
  destruct (varint_width_pow (length pre) (varint_value pre + 128 ^ Z.of_nat (length pre) * b))
    as [Hlo Hhi]; [lia|nia|].
  destruct (Z.eq_dec b 0) as [->|Hnz].
  - split; [done|]. intros _. rewrite Z.mul_0_r, Z.add_0_r in Hlo |- *. lia.
  - split; [|by intros []]. intros Hlt. assert (Z.of_nat (length pre) < varint_width
      (varint_value pre + 128 ^ Z.of_nat (length pre) * b)) by (apply Hhi; nia). lia.
Qed.

(** [rejects_malformed_fixed_header] holds exactly for a complete fixed
    header that is a PINGREQ declaring a body or a Remaining Length that is
    not in its minimal encoding, that is, one whose last byte is a zero
    behind a continuation byte. *)
Theorem rejects_malformed_spec src :
  Forall u8 src ->
  rejects_malformed_fixed_header src = true <->
  exists ty pre b post, src = ty :: pre ++ b :: post /\
    Forall continues pre /\ ~ continues b /\ (length pre < MAX_VARINT_BYTES)%nat /\
    (ty = PINGREQ_FIRST_BYTE /\ varint_value (pre ++ [b]) <> 0 \/ pre <> [] /\ b = 0).
Proof.
  intros Hu.
  assert (forall ty pre b post, src = ty :: pre ++ b :: post -> Forall continues pre ->
    ~ continues b -> (length pre < MAX_VARINT_BYTES)%nat ->
    rejects_malformed_fixed_header src = true <->
    (ty = PINGREQ_FIRST_BYTE /\ varint_value (pre ++ [b]) <> 0 \/ pre <> [] /\ b = 0)) as Hkey.
  { intros ty pre b post -> Hc Hb Hl.
    assert (fixed_header (ty :: pre ++ b :: post) =
      Some (2 + Z.of_nat (length pre), varint_value (pre ++ [b]))) as E.
    { apply header_grammar_scan; [done|]. by exists ty, pre, b, post. }
    pose proof (fixed_header_bounds _ _ _ Hu E) as (_ & Hr & _).
    assert (u8 b). { rewrite Forall_cons, Forall_app, Forall_cons in Hu. tauto. }
    unfold rejects_malformed_fixed_header. rewrite E. cbn [lookup list_lookup default].
    rewrite varint_len_width by (unfold MAX_REMAINING_LENGTH in *; lia).
    replace (2 + Z.of_nat (length pre) - 1) with (1 + Z.of_nat (length pre)) by lia.
    rewrite orb_true_iff, andb_true_iff, varint_minimal, Z.eqb_eq, negb_true_iff, Z.eqb_neq;
      [done| |done]. unfold u_range, continues in *. lia. }
  split.
  - intros Hrej. pose proof Hrej as Hrej'. unfold rejects_malformed_fixed_header in Hrej'.
    destruct (fixed_header src) as [[h r]|] eqn:E; [|done].
    apply fixed_header_inv in E as (ty & pre & b & post & Es & Hc & Hb & Hl & _ & _); [|done].
    exists ty, pre, b, post. do 4 (split; [done|]). by apply (Hkey ty pre b post).
  - intros (ty & pre & b & post & Es & Hc & Hb & Hl & Hor). by apply (Hkey ty pre b post).
Qed.

Lemma rejects_malformed_spec_witness :
  exists ty pre b post, [192; 128; 0] = ty :: pre ++ b :: post /\
    Forall continues pre /\ ~ continues b /\ (length pre < MAX_VARINT_BYTES)%nat /\
    (ty = PINGREQ_FIRST_BYTE /\ varint_value (pre ++ [b]) <> 0 \/ pre <> [] /\ b = 0).
Proof.
  apply (rejects_malformed_spec [192; 128; 0]); [unfold u_range; repeat constructor; lia|].
  vm_compute. reflexivity.
Defined.

#[export] Hint Resolve fixed_header_app fixed_header_bounds : uring.
