(* ===== verification/Rmqtt.v ===== *)
(** * The rmqtt-codec vocabulary the broker is written in

    rmqtt-codec is a dependency, so its packet types appear here only as far
    as the repository reads or builds them: the constructors are the ones the
    exhaustive [match]es of src/broker/packet.rs and bench/src/wire.rs name,
    the fields are the ones the sources read or set, and where a reason-code
    enum has members the sources never name they are one constructor
    [Other...].  Its decoders and encoder are not modelled at all: they are
    the operations of the class [RmqttCodec], and what the broker relies on is
    stated as laws where it is used. *)

From S2P Require Import Prelude.

Inductive QoS := AtMostOnce | AtLeastOnce | ExactlyOnce.

#[export] Instance QoS_eq_dec : EqDecision QoS.
Proof. solve_decision. Defined.

(** The derived order of the enum, [>] in the sources. *)
Definition QoS_level (q : QoS) : Z :=
  match q with AtMostOnce => 0 | AtLeastOnce => 1 | ExactlyOnce => 2 end.
Definition QoS_gtb (a b : QoS) : bool := QoS_level b <? QoS_level a.

Inductive ProtocolVersion := MQTT3 | MQTT5.

#[export] Instance ProtocolVersion_eq_dec : EqDecision ProtocolVersion.
Proof. solve_decision. Defined.

(** A packet id is a [NonZeroU16]. *)
Definition packet_id_ok (id : Z) : Prop := 0 < id < 2 ^ 16.

Record PublishProperties := { topic_alias : option Z }.

Record CodecPublish := {
  p_dup : bool;
  p_retain : bool;
  p_qos : QoS;
  p_topic : string;
  p_packet_id : option Z;
  p_payload : list Z;
  p_properties : option PublishProperties
}.

(** ** MQTT 3.1.1 packets *)

Inductive V3ConnectAckReason :=
| ConnectionAccepted | UnacceptableProtocolVersion | IdentifierRejected
| OtherV3ConnectAckReason (code : Z).

Record V3ConnectAck := { v3_return_code : V3ConnectAckReason; v3_session_present : bool }.

Record V3Connect := { v3_client_id : string; v3_clean_session : bool; v3_keep_alive : Z }.

Inductive SubscribeReturnCode := SrcSuccess (q : QoS) | SrcFailure.

Inductive PacketV3 :=
| V3_Connect (c : V3Connect)
| V3_ConnectAck (a : V3ConnectAck)
| V3_Publish (p : CodecPublish)
| V3_PublishAck (packet_id : Z)
| V3_PublishReceived (packet_id : Z)
| V3_PublishRelease (packet_id : Z)
| V3_PublishComplete (packet_id : Z)
| V3_Subscribe (packet_id : Z) (topic_filters : list (string * QoS))
| V3_SubscribeAck (packet_id : Z) (status : list SubscribeReturnCode)
| V3_Unsubscribe (packet_id : Z) (topic_filters : list string)
| V3_UnsubscribeAck (packet_id : Z)
| V3_PingRequest
| V3_PingResponse
| V3_Disconnect.

(** ** MQTT 5.0 packets *)

Inductive V5ConnectAckReason :=
| V5_Success | V5_BadAuthenticationMethod | V5_ImplementationSpecificError
| V5_ClientIdentifierNotValid | OtherV5ConnectAckReason (code : Z).

Record V5ConnectAck := {
  ca_reason_code : V5ConnectAckReason;
  ca_max_qos : QoS;
  ca_retain_available : bool;
  ca_wildcard_subscription_available : bool;
  ca_subscription_identifiers_available : bool;
  ca_shared_subscription_available : bool;
  ca_session_expiry_interval_secs : option Z;
  ca_max_packet_size : option Z;
  ca_assigned_client_id : option string;
  ca_server_keepalive_sec : option Z
}.

Record V5Connect := {
  v5_client_id : string;
  v5_keep_alive : Z;
  v5_auth_method : option string;
  v5_max_packet_size : option Z
}.

Inductive PublishAckReason := PaSuccess | OtherPublishAckReason (code : Z).
Inductive PublishAck2Reason := Pa2Success | Pa2PacketIdNotFound | OtherPublishAck2Reason (code : Z).
Inductive SubscribeAckReason := SaImplementationSpecificError | OtherSubscribeAckReason (code : Z).
Inductive UnsubscribeAckReason := UaNoSubscriptionExisted | OtherUnsubscribeAckReason (code : Z).
Inductive DisconnectReasonCode :=
| DrProtocolError | DrMalformedPacket | DrPacketTooLarge | DrQosNotSupported | DrTopicAliasInvalid
| OtherDisconnectReasonCode (code : Z).

(** The acknowledgements share one shape: packet id, reason, user properties
    and reason string. *)
Record V5Ack (R : Type) := {
  a_packet_id : Z;
  a_reason_code : R;
  a_properties : list (string * string);
  a_reason_string : option string
}.
Arguments Build_V5Ack {R}.
Arguments a_packet_id {R}.
Arguments a_reason_code {R}.

Record V5Subscribe := { s5_packet_id : Z; s5_topic_filters : list (string * Z) }.
Record V5Unsubscribe := { u5_packet_id : Z; u5_topic_filters : list string }.

Inductive PacketV5 :=
| V5_Connect (c : V5Connect)
| V5_ConnectAck (a : V5ConnectAck)
| V5_Publish (p : CodecPublish)
| V5_PublishAck (a : V5Ack PublishAckReason)
| V5_PublishReceived (a : V5Ack PublishAckReason)
| V5_PublishRelease (a : V5Ack PublishAck2Reason)
| V5_PublishComplete (a : V5Ack PublishAck2Reason)
| V5_Subscribe (s : V5Subscribe)
| V5_SubscribeAck (a : V5Ack (list SubscribeAckReason))
| V5_Unsubscribe (s : V5Unsubscribe)
| V5_UnsubscribeAck (a : V5Ack (list UnsubscribeAckReason))
| V5_PingRequest
| V5_PingResponse
| V5_Disconnect (reason_code : DisconnectReasonCode)
| V5_Auth.

Inductive MqttPacket :=
| V3 (p : PacketV3)
| V5 (p : PacketV5)
| Version (v : ProtocolVersion).

Inductive DecodeError :=
| MaxSizeExceeded | UnsupportedProtocolLevel | InvalidProtocol | InvalidClientId
| MalformedPacketError | InvalidLength | UnsupportedPacketType | OtherDecodeError (code : Z).

#[export] Instance DecodeError_eq_dec : EqDecision DecodeError.
Proof. solve_decision. Defined.

(** ** The codec interface

    [codec] is the state of an [MqttCodec]; [decode] takes [&mut self] and
    [&mut BytesMut] and so returns both, [encode] appends to its buffer. *)

Class RmqttCodec := {
  codec : Type;
  V3Codec_new : Z -> codec;
  V5Codec_new : Z -> Z -> codec;
  V3Codec_default : codec;
  V5Codec_default : codec;
  codec_decode : codec -> list Z -> result (option (MqttPacket * Z)) DecodeError * codec * list Z;
  codec_encode : codec -> MqttPacket -> list Z -> result unit string * codec * list Z;
  VersionCodec_decode : list Z -> result (option ProtocolVersion) DecodeError * list Z
}.
