(* ===== verification/Errors.v ===== *)
(** * Errors: src/error.rs and the [std::io::Error] values it classifies

    An [io::Error] is its kind and the typed source that [get_ref] and
    [downcast_ref] reach: a [DecodeError], the [TruncatedPacket] marker of
    src/codec/mqtt.rs, or anything else. *)

From S2P Require Import Prelude Rmqtt.

Inductive IoErrorKind :=
| InvalidData | UnexpectedEof | ConnectionReset | BrokenPipe | OtherIoErrorKind (code : Z).

Inductive TruncatedPacket := TruncatedPacket_.

Inductive IoErrorSource :=
| SourceDecode (e : DecodeError)
| SourceTruncated (t : TruncatedPacket)
| SourceOther (message : string).

Record IoError := { io_kind : IoErrorKind; io_source : option IoErrorSource }.

(** [io::Error::new]. *)
Definition IoError_new (k : IoErrorKind) (s : IoErrorSource) : IoError :=
  {| io_kind := k; io_source := Some s |}.

(** [e.get_ref().and_then(|s| s.downcast_ref::<DecodeError>())]. *)
Definition downcast_decode (e : IoError) : option DecodeError :=
  match io_source e with Some (SourceDecode d) => Some d | _ => None end.

(** [e.get_ref().and_then(|s| s.downcast_ref::<TruncatedPacket>())]. *)
Definition downcast_truncated (e : IoError) : option TruncatedPacket :=
  match io_source e with Some (SourceTruncated t) => Some t | _ => None end.

Inductive Error :=
| Io (e : IoError)
| Decode (e : DecodeError)
| Encode (message : string)
| Timeout
| ClientClosed
| Protocol (message : string)
| Worker (message : string).

Definition is_routine_disconnect (e : Error) : bool :=
  match e with
  | Timeout | ClientClosed => true
  | Io e => match io_kind e with ConnectionReset | BrokenPipe => true | _ => false end
  | Decode _ | Encode _ | Protocol _ | Worker _ => false
  end.

Definition is_truncated_packet (e : Error) : bool :=
  match e with
  | Io e => match downcast_truncated e with Some _ => true | None => false end
  | _ => false
  end.

(** What a typed source says is exclusive: an error is never both a decoder
    rejection and a truncated stream. *)
Lemma decode_not_truncated e d :
  downcast_decode e = Some d -> is_truncated_packet (Io e) = false.
Proof.
  unfold downcast_decode, is_truncated_packet, downcast_truncated. intros H. by split_matches.
Qed.
