(* ===== verification/Decoder.v ===== *)
(** * The decoders and the encoder of a connection

    src/codec/mqtt.rs from [MqttDecoder] on, src/codec/version.rs and the
    [CodecPair] of src/broker/runtime.rs, over the [RmqttCodec] interface.
    [decode] returns the answer, the decoder and the buffer it leaves. *)

From S2P Require Import Prelude FixedHeader Rmqtt Errors.

(** monoio-codec's [Decoded]: its other members are never built here. *)
Inductive Decoded (A : Type) := DSome (item : A) | Insufficient.
Arguments DSome {A} item.
Arguments Insufficient {A}.

Section Codecs.
Context `{RmqttCodec}.

(** ** [MqttDecoder] *)

Record MqttDecoder := {
  d_inner : codec;
  d_max_inbound_packet_size : MaxInboundPacketSize;
  d_at_frame_start : bool
}.

Definition MqttDecoder_new (version : ProtocolVersion) (m : MaxInboundPacketSize) : MqttDecoder :=
  let limit := remaining_length_limit m in
  let inner := match version with
               | MQTT3 => V3Codec_new limit
               | MQTT5 => V5Codec_new limit 0
               end in
  {| d_inner := inner; d_max_inbound_packet_size := m; d_at_frame_start := true |}.

Definition MqttDecoder_decode (self : MqttDecoder) (src : list Z) :
    result (Decoded (MqttPacket * Z)) IoError * MqttDecoder * list Z :=
  if d_at_frame_start self && rejects_fixed_header (d_max_inbound_packet_size self) src then
    (Err (IoError_new InvalidData (SourceDecode MaxSizeExceeded)), self, src)
  else if d_at_frame_start self && rejects_malformed_fixed_header src then
    (Err (IoError_new InvalidData (SourceDecode MalformedPacketError)), self, src)
  else
    let before := length src in
    let '(answer, inner, src) := codec_decode (d_inner self) src in
    let with_start b := {| d_inner := inner;
                           d_max_inbound_packet_size := d_max_inbound_packet_size self;
                           d_at_frame_start := b |} in
    match answer with
    | Ok (Some packet) => (Ok (DSome packet), with_start true, src)
    | Ok None =>
        (Ok Insufficient,
         with_start (if (length src <? before)%nat then false else d_at_frame_start self), src)
    | Err e => (Err (IoError_new InvalidData (SourceDecode e)), with_start (d_at_frame_start self), src)
    end.

Definition MqttDecoder_decode_eof (self : MqttDecoder) (src : list Z) :
    result (Decoded (MqttPacket * Z)) IoError * MqttDecoder * list Z :=
  let '(answer, self, src) := MqttDecoder_decode self src in
  match answer with
  | Err e => (Err e, self, src)
  | Ok (DSome item) => (Ok (DSome item), self, src)
  | Ok Insufficient =>
      if (length src =? 0)%nat && d_at_frame_start self then (Ok Insufficient, self, src)
      else (Err (IoError_new UnexpectedEof (SourceTruncated TruncatedPacket_)), self, src)
  end.

(** ** [MqttEncoder] *)

Record MqttEncoder := { e_inner : codec }.

Definition MqttEncoder_new (version : ProtocolVersion) : MqttEncoder :=
  {| e_inner := match version with MQTT3 => V3Codec_default | MQTT5 => V5Codec_default end |}.

Definition MqttEncoder_encode (self : MqttEncoder) (item : MqttPacket) (dst : list Z) :
    result unit IoError * MqttEncoder * list Z :=
  let '(answer, inner, dst) := codec_encode (e_inner self) item dst in
  (match answer with
   | Ok u => Ok u
   | Err message => Err (IoError_new InvalidData (SourceOther message))
   end, {| e_inner := inner |}, dst).

(** ** [VersionDecoder] *)

Definition PROTOCOL_NAME_MQTT : list Z := [77; 81; 84; 84].
Definition PROTOCOL_NAME_MQISDP : list Z := [77; 81; 73; 115; 100; 112].
Definition PROTOCOL_NAME_LEN_BYTES : Z := 2.

(** [src.get(a..b)]: [None] past the end or for an inverted range. *)
Definition slice_get (src : list Z) (a b : Z) : option (list Z) :=
  if (a <=? b) && (b <=? Z.of_nat (length src))
  then Some (take (Z.to_nat (b - a)) (drop (Z.to_nat a) src)) else None.

Definition names_a_known_protocol (src : list Z) : bool :=
  match fixed_header src with
  | None => false
  | Some (header_len, remaining_length) =>
      if rejects_malformed_fixed_header src then false
      else
        let name_start := header_len + PROTOCOL_NAME_LEN_BYTES in
        match slice_get src header_len name_start with
        | Some [hi; lo] =>
            let name_end := name_start + (256 * hi + lo) in
            let frame_end := header_len + remaining_length in
            (name_end <? frame_end) &&
            match slice_get src name_start name_end with
            | Some name => bool_decide (name = PROTOCOL_NAME_MQTT \/ name = PROTOCOL_NAME_MQISDP)
            | None => false
            end
        | _ => false
        end
  end.

Record VersionDecoder := { vd_max_inbound_packet_size : MaxInboundPacketSize }.

Definition VersionDecoder_new (m : MaxInboundPacketSize) : VersionDecoder :=
  {| vd_max_inbound_packet_size := m |}.

Definition VersionDecoder_decode (self : VersionDecoder) (src : list Z) :
    result (Decoded ProtocolVersion) IoError * list Z :=
  if rejects_fixed_header (vd_max_inbound_packet_size self) src then
    (Err (IoError_new InvalidData (SourceDecode MaxSizeExceeded)), src)
  else
    let '(answer, src) := VersionCodec_decode src in
    (match answer with
     | Ok (Some version) => Ok (DSome version)
     | Ok None => Ok Insufficient
     | Err InvalidProtocol =>
         if names_a_known_protocol src
         then Err (IoError_new InvalidData (SourceDecode UnsupportedProtocolLevel))
         else Err (IoError_new InvalidData (SourceDecode InvalidProtocol))
     | Err e => Err (IoError_new InvalidData (SourceDecode e))
     end, src).

(** ** [CodecPair] *)

Record CodecPair := {
  cp_version : ProtocolVersion; cp_decoder : MqttDecoder; cp_encoder : MqttEncoder
}.

Definition CodecPair_new (version : ProtocolVersion) (m : MaxInboundPacketSize) : CodecPair :=
  {| cp_version := version; cp_decoder := MqttDecoder_new version m;
     cp_encoder := MqttEncoder_new version |}.

Definition CodecPair_decode (self : CodecPair) (src : list Z) :
    result (Decoded (MqttPacket * Z)) IoError * CodecPair * list Z :=
  let '(answer, d, src) := MqttDecoder_decode (cp_decoder self) src in
  (answer, {| cp_version := cp_version self; cp_decoder := d; cp_encoder := cp_encoder self |}, src).

Definition CodecPair_decode_eof (self : CodecPair) (src : list Z) :
    result (Decoded (MqttPacket * Z)) IoError * CodecPair * list Z :=
  let '(answer, d, src) := MqttDecoder_decode_eof (cp_decoder self) src in
  (answer, {| cp_version := cp_version self; cp_decoder := d; cp_encoder := cp_encoder self |}, src).

Definition CodecPair_encode (self : CodecPair) (item : MqttPacket) (dst : list Z) :
    result unit IoError * CodecPair * list Z :=
  let '(answer, e, dst) := MqttEncoder_encode (cp_encoder self) item dst in
  (answer, {| cp_version := cp_version self; cp_decoder := cp_decoder self; cp_encoder := e |}, dst).
End Codecs.

(** ** What the broker relies on from the codec

    [mid_frame c] says that [c] has consumed a fixed header whose body it is
    still waiting for.  The laws are the behaviour the comment on
    [at_frame_start] describes: a codec starts at a frame boundary, returns to
    one with every packet, and on [Ok(None)] either consumed a complete fixed
    header, which puts it inside a frame, or consumed nothing and did not
    move. *)

Class RmqttFraming `{RmqttCodec} := {
  mid_frame : codec -> bool;
  framing_v3 l : mid_frame (V3Codec_new l) = false;
  framing_v5 l o : mid_frame (V5Codec_new l o) = false;
  framing_some c src p c' src' :
    codec_decode c src = (Ok (Some p), c', src') ->
    mid_frame c' = false /\ (mid_frame c = false -> is_Some (fixed_header src));
  framing_none c src c' src' :
    codec_decode c src = (Ok None, c', src') ->
    (if (length src' <? length src)%nat
     then mid_frame c' = true /\ (mid_frame c = false -> is_Some (fixed_header src))
     else mid_frame c' = mid_frame c /\ src' = src)
}.

Section Framing.
Context `{RmqttFraming}.

(** A frame is entered when the codec leaves a frame boundary: by consuming
    a header, or by decoding a whole packet at once. *)
Definition enters_frame (d : MqttDecoder) (a : Decoded (MqttPacket * Z)) (d' : MqttDecoder) : bool :=
  negb (mid_frame (d_inner d)) &&
  (mid_frame (d_inner d') || match a with DSome _ => true | Insufficient => false end).

(** The life of a decoder: bytes arrive, [decode] is called; [frames] lists
    the buffer at the start of every entered frame. *)
Inductive decoder_run (m : MaxInboundPacketSize) :
    MqttDecoder -> list Z -> list (list Z) -> Prop :=
| run_new version : decoder_run m (MqttDecoder_new version m) [] []
| run_feed d buf frames more :
    decoder_run m d buf frames -> decoder_run m d (buf ++ more) frames
| run_decode d buf frames a d' buf' :
    decoder_run m d buf frames ->
    MqttDecoder_decode d buf = (Ok a, d', buf') ->
    decoder_run m d' buf' (frames ++ if enters_frame d a d' then [buf] else []).

Definition frame_sync (d : MqttDecoder) : Prop :=
  d_at_frame_start d = negb (mid_frame (d_inner d)).

(** A frame the server takes: its header is complete and declares at most the
    bound, its length field has no more bytes than the value needs, and a
    PINGREQ (0xC0) has no body. *)
Definition frame_within (m : MaxInboundPacketSize) (buf : list Z) : Prop :=
  exists header_len remaining_length, fixed_header buf = Some (header_len, remaining_length) /\
    header_len + remaining_length <= MaxInboundPacketSize_get m /\
    (header_len = 2 \/ 128 ^ (header_len - 2) <= remaining_length) /\
    (head buf = Some 192 -> remaining_length = 0).

Lemma header_checks m buf h r : fixed_header buf = Some (h, r) ->
  rejects_fixed_header m buf || rejects_malformed_fixed_header buf = false <-> frame_within m buf.
Proof.
  intros Hh. destruct (fixed_header_range _ _ _ Hh) as [Hw Hr].
  unfold frame_within, rejects_fixed_header, rejects_malformed_fixed_header, packet_len, MaxInboundPacketSize_get.
  rewrite Hh, (varint_len_width _ Hr).
  assert (default 0 (buf !! 0%nat) = PINGREQ_FIRST_BYTE <-> head buf = Some 192) as Hp
    by (destruct buf; simpl; unfold PINGREQ_FIRST_BYTE; split; congruence).
  assert ((varint_width r <? h - 1) = false <-> h = 2 \/ 128 ^ (h - 2) <= r) as Hm.
  { rewrite Z.ltb_ge. unfold varint_width. assert (h = 2 \/ h = 3 \/ h = 4 \/ h = 5) as [->|[->|[->| ->]]] by lia;
      repeat case_match; zbool; simpl; lia. }
  rewrite !orb_false_iff, Hm, Z.ltb_ge, andb_false_iff, Z.eqb_neq, negb_false_iff, Z.eqb_eq, Hp.
  split.
  - intros (? & ? & ?). exists h, r. split; [done|]. split; [done|]. split; [done|]. tauto.
  - intros (h' & r' & [= <- <-] & ? & ? & Hz). split; [done|]. split; [|done].
    destruct (Z.eq_dec r 0); [by right|left; auto].
Qed.

(** The three answers of [decode] past the two header checks. *)
Lemma decode_ok_inv d src a d' src' :
  MqttDecoder_decode d src = (Ok a, d', src') ->
  (d_at_frame_start d = true ->
    rejects_fixed_header (d_max_inbound_packet_size d) src = false /\
    rejects_malformed_fixed_header src = false) /\
  d_max_inbound_packet_size d' = d_max_inbound_packet_size d /\
  exists answer, codec_decode (d_inner d) src = (Ok answer, d_inner d', src') /\
    match answer with
    | Some p => a = DSome p /\ d_at_frame_start d' = true
    | None => a = Insufficient /\ d_at_frame_start d' =
        if (length src' <? length src)%nat then false else d_at_frame_start d
    end.
Proof.
  unfold MqttDecoder_decode. destruct (codec_decode (d_inner d) src) as [[answer c'] s'] eqn:E.
  intros Hd. destruct (d_at_frame_start d) eqn:Hs; simpl in Hd.
  - destruct (rejects_fixed_header _ _) eqn:E1; [done|].
    destruct (rejects_malformed_fixed_header _) eqn:E2; [done|].
    destruct answer as [[p|]|e]; simplify_eq/=; (split; [done|]); (split; [done|]);
      (eexists; split; [done|]); done.
  - destruct answer as [[p|]|e]; simplify_eq/=; (split; [done|]); (split; [done|]);
      (eexists; split; [done|]); done.
Qed.

Lemma decode_sync d src a d' src' :
  frame_sync d -> MqttDecoder_decode d src = (Ok a, d', src') -> frame_sync d'.
Proof.
  unfold frame_sync. intros Hs (_ & _ & answer & E & Ha)%decode_ok_inv. destruct answer as [p|].
  - destruct Ha as [_ ->]. apply framing_some in E as [-> _]. done.
  - destruct Ha as [_ ->]. apply framing_none in E. destruct (_ <? _)%nat; destruct E as [-> _]; done.
Qed.

Lemma entered_frame_bounded m d src a d' src' :
  frame_sync d -> d_max_inbound_packet_size d = m ->
  MqttDecoder_decode d src = (Ok a, d', src') -> enters_frame d a d' = true ->
  frame_within m src.
Proof.
  unfold frame_sync, enters_frame. intros Hs <- (Hchk & _ & answer & E & Ha)%decode_ok_inv Hent.
  apply andb_true_iff in Hent as [Hb Hin]. rewrite Hb in Hs. apply negb_true_iff in Hb.
  destruct (Hchk Hs) as [Hrej Hmal].
  assert (is_Some (fixed_header src)) as [[h r] Hh].
  { destruct answer as [p|].
    - apply framing_some in E as [_ Hh]. auto.
    - destruct Ha as [-> _]. rewrite orb_false_r in Hin. apply framing_none in E.
      destruct (_ <? _)%nat; destruct E as [? ?]; [auto|congruence]. }
  apply (header_checks _ _ _ _ Hh). by rewrite Hrej, Hmal.
Qed.

(** A header the server does not take is refused at the boundary, before the
    codec sees it. *)
Lemma refused_at_boundary d buf h r :
  frame_sync d -> mid_frame (d_inner d) = false -> fixed_header buf = Some (h, r) ->
  ~ frame_within (d_max_inbound_packet_size d) buf ->
  exists e, MqttDecoder_decode d buf = (Err (IoError_new InvalidData (SourceDecode e)), d, buf) /\
    (e = MaxSizeExceeded \/ e = MalformedPacketError).
Proof.
  unfold frame_sync. intros Hs Hm Hh Hn. rewrite Hm in Hs. simpl in Hs.
  rewrite <- (header_checks _ _ _ _ Hh), not_false_iff_true, orb_true_iff in Hn.
  unfold MqttDecoder_decode. rewrite Hs. simpl. destruct (rejects_fixed_header _ buf); [eauto|].
  destruct Hn as [?| ->]; [done|eauto].
Qed.

Lemma decoder_run_bound m d buf frames :
  decoder_run m d buf frames -> d_max_inbound_packet_size d = m.
Proof.
  induction 1 as [| |d buf frames a d' buf' _ IH Hd]; [done|done|].
  by apply decode_ok_inv in Hd as (_ & -> & _).
Qed.

Lemma decoder_run_frames m d buf frames :
  decoder_run m d buf frames -> frame_sync d /\ Forall (frame_within m) frames.
Proof.
  induction 1 as [version|d buf frames more Hr [Hs Hf]|d buf frames a d' buf' Hr [Hs Hf] Hd].
  - split; [|done]. unfold frame_sync. destruct version; simpl; by rewrite ?framing_v3, ?framing_v5.
  - done.
  - split; [by eapply decode_sync|]. apply Forall_app. split; [done|].
    destruct (enters_frame d a d') eqn:He; [|done]. constructor; [|done].
    eapply entered_frame_bounded; eauto using decoder_run_bound.
Qed.

(** (C13) However the bytes of a connection are split over reads, the decoder
    and the codec agree on where frames start, so the header checks are made
    at every frame boundary and only there; every frame the codec enters,
    at once or before its body arrived, declared at most the configured
    bound, in a length field without superfluous bytes, and is not a PINGREQ
    with a body.  At a boundary every complete header that breaks one of
    these rules is answered with a typed error, and the codec does not see
    it. *)
Theorem decoder_frames_bounded m d buf frames :
  decoder_run m d buf frames ->
  frame_sync d /\ Forall (frame_within m) frames /\
  (mid_frame (d_inner d) = false -> is_Some (fixed_header buf) -> ~ frame_within m buf ->
     exists e, MqttDecoder_decode d buf = (Err (IoError_new InvalidData (SourceDecode e)), d, buf) /\
       (e = MaxSizeExceeded \/ e = MalformedPacketError)).
Proof.
  intros Hrun. destruct (decoder_run_frames _ _ _ _ Hrun) as [Hs Hf]. split; [done|]. split; [done|].
  intros Hm [[h r] Hh] Hn. eapply refused_at_boundary; [done..|]. by rewrite (decoder_run_bound _ _ _ _ Hrun).
Qed.


(** (C23) The end of the stream: called on a synchronised decoder that cannot
    produce another packet, [decode_eof] reports a clean end exactly when no
    byte is buffered and no consumed header waits for its body, and the
    typed [TruncatedPacket] error, kind [UnexpectedEof], otherwise. *)
Theorem decode_eof_truncation d src d' src' :
  frame_sync d -> MqttDecoder_decode d src = (Ok Insufficient, d', src') ->
  MqttDecoder_decode_eof d src =
    (if bool_decide (src' = [] /\ mid_frame (d_inner d') = false) then Ok Insufficient
     else Err (IoError_new UnexpectedEof (SourceTruncated TruncatedPacket_)), d', src').
Proof.
  intros Hs Hd. pose proof (decode_sync _ _ _ _ _ Hs Hd) as Hs'. unfold frame_sync in Hs'.
  unfold MqttDecoder_decode_eof. rewrite Hd, Hs'.
  case_bool_decide as Hb; [destruct Hb as [-> ->]; done|].
  destruct src' as [|b src']; [|done].
  destruct (mid_frame (d_inner d')) eqn:E; [done|]. by destruct Hb.
Qed.
End Framing.

(** ** The protocol-level refusal *)

Section VersionDecoder.
Context `{RmqttCodec}.

Lemma slice_get_inv src a b l :
  0 <= a -> slice_get src a b = Some l ->
  drop (Z.to_nat a) src = l ++ drop (Z.to_nat b) src /\ Z.of_nat (length l) = b - a.
Proof.
  unfold slice_get. intros Ha Hs. destruct (_ && _) eqn:E; simplify_eq. zbool.
  rewrite length_take, length_drop. split; [|lia].
  rewrite <- (take_drop (Z.to_nat (b - a)) (drop (Z.to_nat a) src)) at 1. f_equal.
  rewrite drop_drop. f_equal. lia.
Qed.

Lemma slice_get_intro src a l rest :
  0 <= a -> drop (Z.to_nat a) src = l ++ rest -> l <> [] ->
  slice_get src a (a + Z.of_nat (length l)) = Some l.
Proof.
  intros Ha Hd Hne. unfold slice_get.
  assert (length (drop (Z.to_nat a) src) = length (l ++ rest)) as Hl by congruence.
  rewrite length_drop, length_app in Hl. assert (length l <> 0%nat) by (by destruct l).
  rewrite (proj2 (Z.leb_le _ _)), (proj2 (Z.leb_le _ _)) by lia. simpl.
  replace (Z.to_nat (a + Z.of_nat (length l) - a)) with (length l) by lia.
  by rewrite Hd, take_app_length.
Qed.

(** The shape of a CONNECT whose protocol level was refused: a well-formed
    fixed header, a length-prefixed protocol name that is one the codec
    knows, and room for the level byte inside the declared frame. *)
Definition known_protocol_connect (src : list Z) : Prop :=
  exists h r hi lo name rest, fixed_header src = Some (h, r) /\
    rejects_malformed_fixed_header src = false /\
    drop (Z.to_nat h) src = hi :: lo :: name ++ rest /\
    256 * hi + lo = Z.of_nat (length name) /\
    (name = PROTOCOL_NAME_MQTT \/ name = PROTOCOL_NAME_MQISDP) /\
    PROTOCOL_NAME_LEN_BYTES + Z.of_nat (length name) < r.

Lemma names_a_known_protocol_spec src :
  Forall u8 src -> names_a_known_protocol src = true <-> known_protocol_connect src.
Proof.
  intros Hu. unfold names_a_known_protocol, known_protocol_connect, PROTOCOL_NAME_LEN_BYTES. split.
  - destruct (fixed_header src) as [[h r]|] eqn:E; [|done].
    pose proof (fixed_header_bounds _ _ _ Hu E) as (Hh & Hr & _).
    destruct (rejects_malformed_fixed_header src) eqn:Em; [done|].
    destruct (slice_get src h (h + 2)) as [[|hi [|lo [|]]]|] eqn:E1; try done.
    apply slice_get_inv in E1 as [Hd _]; [|lia]. intros [Hlt Hn]%andb_true_iff.
    destruct (slice_get src (h + 2) _) as [name|] eqn:E2; [|done].
    apply bool_decide_eq_true in Hn. apply Z.ltb_lt in Hlt.
    apply slice_get_inv in E2 as [Hd2 Hlen]; [|lia].
    exists h, r, hi, lo, name, (drop (Z.to_nat (h + 2 + (256 * hi + lo))) src).
    split; [done|]. split; [done|]. split; [by rewrite Hd, Hd2|]. split; [lia|]. split; [done|lia].
  - intros (h & r & hi & lo & name & rest & E & Em & Hd & Hlen & Hname & Hlt).
    pose proof (fixed_header_bounds _ _ _ Hu E) as (Hh & Hr & _). rewrite E, Em.
    assert (name <> []) as Hne by (by destruct Hname as [-> | ->]).
    pose proof (slice_get_intro src h [hi; lo] (name ++ rest) ltac:(lia) Hd ltac:(done)) as E1.
    cbn [length] in E1. change (Z.of_nat 2) with 2 in E1. rewrite E1, Hlen.
    rewrite (slice_get_intro src (h + 2) name rest ltac:(lia)); [|
      by replace (Z.to_nat (h + 2)) with (Z.to_nat h + 2)%nat by lia; rewrite <- drop_drop, Hd|done].
    apply andb_true_iff. split; [apply Z.ltb_lt; lia|by apply bool_decide_eq_true].
Qed.

(** The first packet of a connection, when the dependency answers
    [InvalidProtocol]: within the size bound the broker reports
    [UnsupportedProtocolLevel], the refusal that is answered with a CONNACK,
    exactly for a well-formed CONNECT header naming a protocol the codec
    knows with its level byte inside the frame, and keeps
    [InvalidProtocol], a silent close, for everything else; an over-bound
    header is [MaxSizeExceeded] and the dependency never sees it. *)
Theorem version_decoder_level_refusal self src src' :
  Forall u8 src' -> VersionCodec_decode src = (Err InvalidProtocol, src') ->
  (rejects_fixed_header (vd_max_inbound_packet_size self) src = true ->
    VersionDecoder_decode self src =
      (Err (IoError_new InvalidData (SourceDecode MaxSizeExceeded)), src)) /\
  (rejects_fixed_header (vd_max_inbound_packet_size self) src = false ->
    exists e, VersionDecoder_decode self src =
      (Err (IoError_new InvalidData (SourceDecode e)), src') /\
      (known_protocol_connect src' -> e = UnsupportedProtocolLevel) /\
      (~ known_protocol_connect src' -> e = InvalidProtocol)).
Proof.
  intros Hu E. unfold VersionDecoder_decode. rewrite E.
  split; intros ->; [done|].
  pose proof (names_a_known_protocol_spec src' Hu) as Hn.
  destruct (names_a_known_protocol src'); eexists; (split; [done|]); intuition congruence.
Qed.
End VersionDecoder.

(** ** A concrete codec

    Frames as MQTT prescribes, reads every frame as a PINGREQ, and encodes a
    packet as that many zero bytes: enough to run the definitions. *)

Module FrameCodec.
Definition decode (c : option Z) (src : list Z) :
    result (option (MqttPacket * Z)) DecodeError * option Z * list Z :=
  let body r src :=
    if r <=? Z.of_nat (length src)
    then (Ok (Some (V3 V3_PingRequest, r)), None, drop (Z.to_nat r) src)
    else (Ok None, Some r, src) in
  match c with
  | Some r => body r src
  | None =>
      match fixed_header src with
      | Some (h, r) => body r (drop (Z.to_nat h) src)
      | None => (Ok None, None, src)
      end
  end.

Definition wire_size (p : MqttPacket) : nat :=
  match p with
  | V5 (V5_ConnectAck _) => 15
  | V3 (V3_SubscribeAck _ status) => 4 + length status
  | V5 (V5_SubscribeAck a) => 5 + length (a_reason_code a)
  | V5 (V5_UnsubscribeAck a) => 5 + length (a_reason_code a)
  | V3 V3_PingResponse | V5 V5_PingResponse => 2
  | _ => 4
  end.

#[export] Instance codec_ops : RmqttCodec := {|
  codec := option Z;
  V3Codec_new _ := None;
  V5Codec_new _ _ := None;
  V3Codec_default := None;
  V5Codec_default := None;
  codec_decode := decode;
  codec_encode c p dst := (Ok tt, c, dst ++ repeat 0 (wire_size p));
  VersionCodec_decode src :=
    (if (length src <? 9)%nat then Ok None
     else match src !! 8%nat with
          | Some 4 => Ok (Some MQTT3) | Some 5 => Ok (Some MQTT5) | _ => Err InvalidProtocol
          end, src)
|}.

Lemma header_consumes src h r :
  fixed_header src = Some (h, r) -> (length (drop (Z.to_nat h) src) < length src)%nat.
Proof.
  destruct src as [|ty src]; [done|]. rewrite fixed_header_cons, length_drop.
  assert (forall bs i acc h r, fixed_header_scan i acc bs = Some (h, r) -> 2 <= h) as Hge.
  { induction bs as [|b bs IH]; intros i acc h' r'; cbn; [done|].
    destruct (_ =? _); [intros; simplify_eq; lia|apply IH]. }
  intros Hs%Hge. simpl. lia.
Qed.

#[export, program] Instance codec_framing : RmqttFraming := {|
  mid_frame c := match c with Some _ => true | None => false end
|}.
Next Obligation. done. Qed.
Next Obligation. done. Qed.
Next Obligation.
  intros c src p c' src'. simpl. unfold decode. intros Hd.
  destruct c as [r|]; split_matches; split; try done; by eexists.
Qed.
Next Obligation.
  intros c src c' src'. simpl. unfold decode. intros Hd. destruct c as [r|].
  - destruct (_ <=? _); simplify_eq. by rewrite Nat.ltb_irrefl.
  - destruct (fixed_header src) as [[h r]|] eqn:E; [|simplify_eq; by rewrite Nat.ltb_irrefl].
    pose proof (header_consumes _ _ _ E) as Hlt. apply Nat.ltb_lt in Hlt.
    destruct (_ <=? _); simplify_eq. rewrite Hlt. split; [done|]. by eexists.
Qed.
End FrameCodec.

(** ** Witnesses *)

Section Witnesses.
Import FrameCodec.

(** A PINGREQ header arrives, is consumed, and no body follows. *)
Definition sample_decoder : MqttDecoder := MqttDecoder_new MQTT3 MaxInboundPacketSize_DEFAULT.

Definition waiting_decoder : MqttDecoder :=
  @Build_MqttDecoder codec_ops (Some 3) MaxInboundPacketSize_DEFAULT false.

Lemma decoder_frames_bounded_witness :
  Forall (frame_within MaxInboundPacketSize_DEFAULT) [[48; 3; 0]].
Proof.
  pose proof (run_decode MaxInboundPacketSize_DEFAULT sample_decoder [48; 3; 0] [] Insufficient
    waiting_decoder [0] (run_feed _ _ [] [] [48; 3; 0] (run_new _ MQTT3)) eq_refl) as Hrun.
  destruct (decoder_frames_bounded _ _ _ _ Hrun) as (_ & Hf & _).
  assert ((if enters_frame sample_decoder Insufficient waiting_decoder
           then [[48; 3; 0]] else []) = [[48; 3; 0]]) as E by (vm_compute; reflexivity).
  rewrite E in Hf. exact Hf.
Defined.

Lemma decode_eof_truncation_witness :
  MqttDecoder_decode_eof sample_decoder [48; 3] =
    (Err (IoError_new UnexpectedEof (SourceTruncated TruncatedPacket_)),
     waiting_decoder, []).
Proof.
  refine (eq_trans (decode_eof_truncation sample_decoder [48; 3] waiting_decoder [] _ _) _);
    reflexivity.
Defined.

(** MQTT 3.1.1 CONNECT bytes with protocol level 6. *)
Definition connect_level_6 : list Z :=
  [16; 16; 0; 4; 77; 81; 84; 84; 6; 2; 0; 60; 0; 4; 116; 101; 115; 116].

Lemma version_decoder_level_refusal_witness :
  exists e, VersionDecoder_decode (VersionDecoder_new MaxInboundPacketSize_DEFAULT) connect_level_6 =
    (Err (IoError_new InvalidData (SourceDecode e)), connect_level_6) /\
    (known_protocol_connect connect_level_6 -> e = UnsupportedProtocolLevel) /\
    (~ known_protocol_connect connect_level_6 -> e = InvalidProtocol).
Proof.
  apply (version_decoder_level_refusal (VersionDecoder_new MaxInboundPacketSize_DEFAULT)
    connect_level_6 connect_level_6);
    [unfold u_range; repeat constructor; lia|vm_compute; reflexivity|vm_compute; reflexivity].
Defined.
End Witnesses.
