(* ===== verification/Packet.v ===== *)
(** * The packet-decision seam: src/broker/packet.rs

    What the server owes for every decoded packet ([dispatch]), the replies
    and their rendering, the violation policy, the gate that keeps replies
    under the client's Maximum Packet Size, and the QoS 2 bitset
    [AwaitingRelease].  Everything is pure; the QoS 2 state is passed through.

    [dispatch] reaches the QoS 2 state only through [record] and [release], so
    it is written over the class [ReleaseSet]: the bitset is the instance the
    program runs, a finite set of ids is the abstract one. *)

From Stdlib Require Import Ascii.
From S2P Require Import Prelude FixedHeader Rmqtt Errors Decoder.

(** ** Timeout contexts (src/broker/handler.rs) *)

Definition TIMEOUT_CTX_PINGRESP_FLUSH : string := "idle timeout during PINGRESP flush".
Definition TIMEOUT_CTX_PUBACK_FLUSH : string := "idle timeout during PUBACK flush".
Definition TIMEOUT_CTX_SUBACK_FLUSH : string := "idle timeout during SUBACK flush".
Definition TIMEOUT_CTX_UNSUBACK_FLUSH : string := "idle timeout during UNSUBACK flush".
Definition TIMEOUT_CTX_PUBREC_FLUSH : string := "idle timeout during PUBREC flush".
Definition TIMEOUT_CTX_PUBCOMP_FLUSH : string := "idle timeout during PUBCOMP flush".

(** ** Replies *)

Inductive ReleaseOutcome := Released | UnknownPacketId.

#[export] Instance ReleaseOutcome_eq_dec : EqDecision ReleaseOutcome.
Proof. solve_decision. Defined.

(** Filter counts are [NonZeroUsize]: a positive [nat]. *)
Inductive Reply :=
| PingResponse
| PublishAck (packet_id : Z)
| SubscribeRefusal (packet_id : Z) (filters : nat)
| UnsubscribeAck (packet_id : Z) (filters : nat)
| PublishReceived (packet_id : Z)
| PublishComplete (packet_id : Z) (outcome : ReleaseOutcome).

#[export] Instance Reply_eq_dec : EqDecision Reply.
Proof. solve_decision. Defined.

Definition timeout_context (self : Reply) : string :=
  match self with
  | PingResponse => TIMEOUT_CTX_PINGRESP_FLUSH
  | PublishAck _ => TIMEOUT_CTX_PUBACK_FLUSH
  | SubscribeRefusal _ _ => TIMEOUT_CTX_SUBACK_FLUSH
  | UnsubscribeAck _ _ => TIMEOUT_CTX_UNSUBACK_FLUSH
  | PublishReceived _ => TIMEOUT_CTX_PUBREC_FLUSH
  | PublishComplete _ _ => TIMEOUT_CTX_PUBCOMP_FLUSH
  end.

(** An acknowledgement with no properties and no reason string. *)
Definition plain_ack {R} (packet_id : Z) (reason : R) : V5Ack R :=
  {| a_packet_id := packet_id; a_reason_code := reason; a_properties := []; a_reason_string := None |}.

Definition render (self : Reply) (version : ProtocolVersion) : MqttPacket :=
  match self, version with
  | PingResponse, MQTT3 => V3 V3_PingResponse
  | PingResponse, MQTT5 => V5 V5_PingResponse
  | PublishAck packet_id, MQTT3 => V3 (V3_PublishAck packet_id)
  | PublishAck packet_id, MQTT5 => V5 (V5_PublishAck (plain_ack packet_id PaSuccess))
  | SubscribeRefusal packet_id filters, MQTT3 =>
      V3 (V3_SubscribeAck packet_id (replicate filters SrcFailure))
  | SubscribeRefusal packet_id filters, MQTT5 =>
      V5 (V5_SubscribeAck (plain_ack packet_id (replicate filters SaImplementationSpecificError)))
  | UnsubscribeAck packet_id _, MQTT3 => V3 (V3_UnsubscribeAck packet_id)
  | UnsubscribeAck packet_id filters, MQTT5 =>
      V5 (V5_UnsubscribeAck (plain_ack packet_id (replicate filters UaNoSubscriptionExisted)))
  | PublishReceived packet_id, MQTT3 => V3 (V3_PublishReceived packet_id)
  | PublishReceived packet_id, MQTT5 => V5 (V5_PublishReceived (plain_ack packet_id PaSuccess))
  | PublishComplete packet_id _, MQTT3 => V3 (V3_PublishComplete packet_id)
  | PublishComplete packet_id outcome, MQTT5 =>
      V5 (V5_PublishComplete (plain_ack packet_id
        match outcome with Released => Pa2Success | UnknownPacketId => Pa2PacketIdNotFound end))
  end.

(** ** Violations *)

Inductive Violation :=
| DuplicateConnect | PublishMissingPacketId | EmptyTopicFilterList | EmptyTopicFilter
| ReplyOverMaxPacketSize | InboundOverMaxPacketSize | ServerOnlyPacket | PublishAckFromClient
| AuthNotNegotiated | PublishQosAboveMaximum | InvalidTopicName | TopicAliasInvalid
| MalformedPacket | VersionProbe.

#[export] Instance Violation_eq_dec : EqDecision Violation.
Proof. solve_decision. Defined.

Definition reason (self : Violation) : string :=
  match self with
  | DuplicateConnect => "protocol violation: duplicate CONNECT"
  | PublishMissingPacketId => "protocol violation: PUBLISH at QoS 1 or above without a packet id"
  | EmptyTopicFilterList => "protocol violation: empty topic filter list"
  | EmptyTopicFilter => "protocol violation: zero-length topic filter"
  | ReplyOverMaxPacketSize => "protocol violation: reply exceeds the client's maximum packet size"
  | InboundOverMaxPacketSize => "protocol violation: packet exceeds the inbound packet-size bound"
  | ServerOnlyPacket => "protocol violation: server-to-client packet from a client"
  | PublishAckFromClient =>
      "protocol violation: PUBACK, PUBREC or PUBCOMP from a client this server never publishes to"
  | AuthNotNegotiated => "protocol violation: AUTH without a negotiated authentication method"
  | PublishQosAboveMaximum => "protocol violation: PUBLISH above the advertised maximum QoS"
  | MalformedPacket => "protocol violation: malformed packet"
  | VersionProbe => "protocol violation: codec yielded a bare protocol-version item"
  | InvalidTopicName => "protocol violation: PUBLISH topic name empty or containing a wildcard"
  | TopicAliasInvalid => "protocol violation: PUBLISH topic alias without an advertised alias maximum"
  end.

Definition disconnect_reason_code (self : Violation) (version : ProtocolVersion) :
    option DisconnectReasonCode :=
  match version, self with
  | MQTT3, _ => None
  | MQTT5, (DuplicateConnect | PublishMissingPacketId | EmptyTopicFilterList | EmptyTopicFilter
           | ServerOnlyPacket | PublishAckFromClient | AuthNotNegotiated | VersionProbe
           | InvalidTopicName) => Some DrProtocolError
  | MQTT5, MalformedPacket => Some DrMalformedPacket
  | MQTT5, (ReplyOverMaxPacketSize | InboundOverMaxPacketSize) => Some DrPacketTooLarge
  | MQTT5, PublishQosAboveMaximum => Some DrQosNotSupported
  | MQTT5, TopicAliasInvalid => Some DrTopicAliasInvalid
  end.

(** [classify_read_error]: a typed decoder rejection is a violation, any other
    read error a transport failure. *)
Definition classify_read_error (err : IoError) : option Violation :=
  match downcast_decode err with
  | Some MaxSizeExceeded => Some InboundOverMaxPacketSize
  | Some _ => Some MalformedPacket
  | None => None
  end.

(** ** The size gate *)

(** [len] is a closure, called only when the client declared a limit. *)
Definition fits_within (len : unit -> option Z) (max_packet_size : option Z) : bool :=
  match max_packet_size with
  | None => true
  | Some limit => match len tt with Some len => len <=? limit | None => false end
  end.

Section Gate.
Context `{RmqttCodec}.

Definition encoded_len (packet : MqttPacket) (version : ProtocolVersion) : option Z :=
  let '(answer, _, buf) := MqttEncoder_encode (MqttEncoder_new version) packet [] in
  match answer with Ok _ => Some (Z.of_nat (length buf)) | Err _ => None end.

Definition Reply_encoded_len (self : Reply) (version : ProtocolVersion) : option Z :=
  encoded_len (render self version) version.

Definition fits_max_packet_size (packet : MqttPacket) (version : ProtocolVersion)
    (max_packet_size : option Z) : bool :=
  fits_within (fun _ => encoded_len packet version) max_packet_size.

Definition reply_over_max_packet_size (reply : Reply) (version : ProtocolVersion)
    (max_packet_size : option Z) : option Violation :=
  if fits_within (fun _ => Reply_encoded_len reply version) max_packet_size then None
  else Some ReplyOverMaxPacketSize.

Definition disconnect (self : Violation) (version : ProtocolVersion)
    (max_packet_size : option Z) : option MqttPacket :=
  match disconnect_reason_code self version with
  | None => None
  | Some reason_code =>
      let render := V5 (V5_Disconnect reason_code) in
      if fits_within (fun _ => encoded_len render version) max_packet_size then Some render else None
  end.
End Gate.

(** ** The QoS 2 bitset *)

Definition ID_BITS_PER_WORD : Z := 64.
Definition PACKET_ID_WORDS : nat := 1024.

(** [Box::new([0; PACKET_ID_WORDS])]. *)
Definition zero_words : list Z := replicate PACKET_ID_WORDS 0.
Arguments zero_words : simpl never.

Record AwaitingRelease := { words : option (list Z) }.

Definition AwaitingRelease_default : AwaitingRelease := {| words := None |}.

Definition position (packet_id : Z) : nat * Z :=
  (Z.to_nat (packet_id / ID_BITS_PER_WORD), Z.shiftl 1 (packet_id mod ID_BITS_PER_WORD)).

(** An index below 1024 never panics; [position_in_range]. *)
Definition AwaitingRelease_record (self : AwaitingRelease) (packet_id : Z) : bool * AwaitingRelease :=
  let '(word, bit) := position packet_id in
  let ws := default zero_words (words self) in
  let fresh := Z.land (default 0 (ws !! word)) bit =? 0 in
  (fresh, {| words := Some (<[word := Z.lor (default 0 (ws !! word)) bit]> ws) |}).

Definition AwaitingRelease_release (self : AwaitingRelease) (packet_id : Z) :
    ReleaseOutcome * AwaitingRelease :=
  let '(word, bit) := position packet_id in
  match words self with
  | None => (UnknownPacketId, self)
  | Some ws =>
      if Z.land (default 0 (ws !! word)) bit =? 0 then (UnknownPacketId, self)
      else (Released, {| words :=
        Some (<[word := Z.land (default 0 (ws !! word)) (wrap64 (Z.lnot bit))]> ws) |})
  end.

Class ReleaseSet (A : Type) := {
  record : A -> Z -> bool * A;
  release : A -> Z -> ReleaseOutcome * A
}.

#[export] Instance AwaitingRelease_set : ReleaseSet AwaitingRelease := {|
  record := AwaitingRelease_record;
  release := AwaitingRelease_release
|}.

(** The abstract state: the set of ids that wait for their PUBREL. *)
#[export] Instance gset_release_set : ReleaseSet (gset Z) := {|
  record s id := (bool_decide (id ∉ s), {[id]} ∪ s);
  release s id := (if bool_decide (id ∈ s) then Released else UnknownPacketId, s ∖ {[id]})
|}.

(** ** [dispatch] *)

(** The highest QoS the server acknowledges (src/broker/handshake.rs). *)
Definition MAX_QOS : QoS := ExactlyOnce.

Inductive Disposition :=
| Deliver (publish : CodecPublish)
| DeliverThenReply (publish : CodecPublish) (reply : Reply)
| ReplyWith (reply : Reply)
| Close
| ViolationClose (violation : Violation).

(** [topic.contains(c)] for an ASCII character. *)
Fixpoint contains (c : Ascii.ascii) (s : string) : bool :=
  match s with
  | EmptyString => false
  | String a s => Ascii.eqb a c || contains c s
  end.

Definition is_empty (s : string) : bool := match s with EmptyString => true | _ => false end.

Definition topic_name_violation (topic : string) : option Violation :=
  if contains "000"%char topic then Some MalformedPacket
  else if is_empty topic || contains "+"%char topic || contains "#"%char topic
  then Some InvalidTopicName
  else None.

(** [properties.as_ref().is_some_and(|p| p.topic_alias.is_some())]. *)
Definition has_topic_alias (publish : CodecPublish) : bool :=
  match p_properties publish with
  | Some p => match topic_alias p with Some _ => true | None => false end
  | None => false
  end.

Section Dispatch.
Context {A : Type} `{ReleaseSet A}.

Definition dispatch_publish (publish : CodecPublish) (awaiting : A) : Disposition * A :=
  if QoS_gtb (p_qos publish) MAX_QOS then (ViolationClose PublishQosAboveMaximum, awaiting)
  else if has_topic_alias publish
  then (ViolationClose TopicAliasInvalid, awaiting)
  else match topic_name_violation (p_topic publish) with
       | Some violation => (ViolationClose violation, awaiting)
       | None =>
           match p_qos publish, p_packet_id publish with
           | AtMostOnce, _ => (Deliver publish, awaiting)
           | AtLeastOnce, Some id => (DeliverThenReply publish (PublishAck id), awaiting)
           | (AtLeastOnce | ExactlyOnce), None => (ViolationClose PublishMissingPacketId, awaiting)
           | ExactlyOnce, Some id =>
               let '(fresh, awaiting) := record awaiting id in
               (if fresh then DeliverThenReply publish (PublishReceived id)
                else ReplyWith (PublishReceived id), awaiting)
           end
       end.

(** SUBSCRIBE and UNSUBSCRIBE, of either version: [filters] are the topic
    filters, [reply] the acknowledgement for a positive count of them. *)
Definition dispatch_filters (filters : list string) (reply : nat -> Reply) : Disposition :=
  match length filters with
  | O => ViolationClose EmptyTopicFilterList
  | S _ as n => if existsb is_empty filters then ViolationClose EmptyTopicFilter
                else ReplyWith (reply n)
  end.

Definition dispatch_release (packet_id : Z) (awaiting : A) : Disposition * A :=
  let '(outcome, awaiting) := release awaiting packet_id in
  (ReplyWith (PublishComplete packet_id outcome), awaiting).

Definition dispatch (packet : MqttPacket) (awaiting : A) : Disposition * A :=
  match packet with
  | V3 (V3_Connect _) | V5 (V5_Connect _) => (ViolationClose DuplicateConnect, awaiting)
  | V3 (V3_Publish publish) | V5 (V5_Publish publish) => dispatch_publish publish awaiting
  | V3 V3_PingRequest | V5 V5_PingRequest => (ReplyWith PingResponse, awaiting)
  | V3 V3_Disconnect | V5 (V5_Disconnect _) => (Close, awaiting)
  | V3 (V3_Subscribe packet_id topic_filters) =>
      (dispatch_filters (topic_filters.*1) (SubscribeRefusal packet_id), awaiting)
  | V5 (V5_Subscribe s) =>
      (dispatch_filters ((s5_topic_filters s).*1) (SubscribeRefusal (s5_packet_id s)), awaiting)
  | V3 (V3_Unsubscribe packet_id topic_filters) =>
      (dispatch_filters topic_filters (UnsubscribeAck packet_id), awaiting)
  | V5 (V5_Unsubscribe s) =>
      (dispatch_filters (u5_topic_filters s) (UnsubscribeAck (u5_packet_id s)), awaiting)
  | V3 (V3_ConnectAck _ | V3_SubscribeAck _ _ | V3_UnsubscribeAck _ | V3_PingResponse)
  | V5 (V5_ConnectAck _ | V5_SubscribeAck _ | V5_UnsubscribeAck _ | V5_PingResponse) =>
      (ViolationClose ServerOnlyPacket, awaiting)
  | V3 (V3_PublishRelease packet_id) => dispatch_release packet_id awaiting
  | V5 (V5_PublishRelease release) => dispatch_release (a_packet_id release) awaiting
  | V3 (V3_PublishAck _ | V3_PublishReceived _ | V3_PublishComplete _)
  | V5 (V5_PublishAck _ | V5_PublishReceived _ | V5_PublishComplete _) =>
      (ViolationClose PublishAckFromClient, awaiting)
  | V5 V5_Auth => (ViolationClose AuthNotNegotiated, awaiting)
  | Version _ => (ViolationClose VersionProbe, awaiting)
  end.

(** The decisions for a sequence of packets, with the state they leave. *)
Fixpoint dispatch_all (packets : list MqttPacket) (awaiting : A) : list Disposition * A :=
  match packets with
  | [] => ([], awaiting)
  | p :: packets =>
      let '(d, awaiting) := dispatch p awaiting in
      let '(ds, awaiting) := dispatch_all packets awaiting in
      (d :: ds, awaiting)
  end.
End Dispatch.

(** ** The bitset implements the set *)

Definition packet_id_bit (ws : list Z) (id : Z) : bool :=
  Z.testbit (default 0 (ws !! Z.to_nat (id / ID_BITS_PER_WORD))) (id mod ID_BITS_PER_WORD).

Definition words_ok (ws : list Z) : Prop := length ws = PACKET_ID_WORDS /\ Forall u64 ws.

(** The simulation relation between the bitset and the set of ids. *)
Definition awaiting_rel (a : AwaitingRelease) (s : gset Z) : Prop :=
  match words a with
  | None => s = ∅
  | Some ws => words_ok ws /\ forall id, packet_id_ok id -> id ∈ s <-> packet_id_bit ws id = true
  end.

Lemma position_in_range id :
  packet_id_ok id -> (Z.to_nat (id / ID_BITS_PER_WORD) < PACKET_ID_WORDS)%nat /\
  0 <= id mod ID_BITS_PER_WORD < 64.
Proof.
  unfold packet_id_ok, ID_BITS_PER_WORD, PACKET_ID_WORDS. intros Hid.
  pose proof (Z.mod_pos_bound id 64 ltac:(lia)). split; [|lia].
  assert (id / 64 < 1024) by (apply Z.div_lt_upper_bound; lia).
  pose proof (Z.div_pos id 64). lia.
Qed.

Lemma same_position id id' :
  packet_id_ok id -> packet_id_ok id' ->
  Z.to_nat (id / ID_BITS_PER_WORD) = Z.to_nat (id' / ID_BITS_PER_WORD) ->
  id mod ID_BITS_PER_WORD = id' mod ID_BITS_PER_WORD -> id = id'.
Proof.
  unfold packet_id_ok, ID_BITS_PER_WORD. intros H1 H2 Hd Hm.
  apply Z2Nat.inj in Hd; [|apply Z.div_pos; lia..].
  rewrite (Z.div_mod id 64), (Z.div_mod id' 64) by lia. lia.
Qed.

Lemma word_u64 ws i : Forall u64 ws -> u64 (default 0 (ws !! i)).
Proof.
  intros Hf. destruct (ws !! i) as [w|] eqn:E; simpl; [|unfold u_range; lia].
  by eapply Forall_lookup_1.
Qed.

(** Reading any id after one word changed at [id]'s position. *)
Lemma packet_id_bit_insert ws id id' w :
  words_ok ws -> packet_id_ok id -> packet_id_ok id' ->
  let i := Z.to_nat (id / ID_BITS_PER_WORD) in
  (forall m, 0 <= m < 64 -> m <> id mod ID_BITS_PER_WORD ->
    Z.testbit w m = Z.testbit (default 0 (ws !! i)) m) ->
  packet_id_bit (<[i := w]> ws) id' =
    if bool_decide (id' = id) then Z.testbit w (id mod ID_BITS_PER_WORD) else packet_id_bit ws id'.
Proof.
  intros [Hl Hu] Hid Hid' i Hother. unfold packet_id_bit.
  pose proof (position_in_range id Hid) as [Hi _]. pose proof (position_in_range id' Hid') as [_ Hm'].
  case_bool_decide as Heq.
  - subst id'. by rewrite list_lookup_insert_eq by (rewrite Hl; done).
  - destruct (decide (Z.to_nat (id' / ID_BITS_PER_WORD) = i)) as [E|E].
    + rewrite E, list_lookup_insert_eq by (rewrite Hl; done). simpl. apply Hother; [done|].
      intros Em. by destruct Heq; apply same_position.
    + by rewrite list_lookup_insert_ne by done.
Qed.

Lemma zero_words_ok :
  words_ok zero_words /\ forall id, packet_id_ok id -> packet_id_bit zero_words id = false.
Proof.
  unfold words_ok, packet_id_bit, zero_words.
  assert (forall n, length (replicate n 0) = n /\ Forall u64 (replicate n 0)) as Hz.
  { intros n. split; [apply length_replicate|]. apply Forall_replicate. unfold u_range. lia. }
  split; [apply Hz|]. intros id Hid. destruct (position_in_range id Hid) as [Hi _].
  rewrite lookup_replicate_2 by done. apply Z.bits_0.
Qed.

Lemma record_refines a s id :
  awaiting_rel a s -> packet_id_ok id ->
  (record a id).1 = (record s id).1 /\ awaiting_rel (record a id).2 (record s id).2.
Proof.
  intros Hr Hid. simpl. unfold AwaitingRelease_record, position. simpl.
  pose proof (position_in_range id Hid) as [Hi Hm].
  set (ws := default zero_words (words a)).
  assert (words_ok ws /\ forall id, packet_id_ok id -> id ∈ s <-> packet_id_bit ws id = true) as [Hok Hs].
  { unfold awaiting_rel in Hr. subst ws. destruct (words a) as [ws|]; simpl; [done|]. subst s.
    destruct zero_words_ok as [Hz Hzb]. split; [done|]. intros id' Hid'. rewrite Hzb by done.
    set_solver. }
  rewrite bit_clear_test by lia. split.
  - fold (packet_id_bit ws id). specialize (Hs id Hid). destruct (packet_id_bit ws id); simpl.
    + by rewrite bool_decide_eq_false_2 by tauto.
    + rewrite bool_decide_eq_true_2; [done|]. intros Hin. by apply Hs in Hin.
  - split.
    + destruct Hok as [Hl Hu]. split; [by rewrite length_insert|].
      apply Forall_insert; [done|]. apply u64_set_bit; [done|by apply word_u64].
    + intros id' Hid'. rewrite packet_id_bit_insert; [|done..|].
      * rewrite elem_of_union, elem_of_singleton, Hs by done. case_bool_decide as Heq; [|tauto].
        rewrite bit_set_test, Z.eqb_refl, orb_true_r by lia. tauto.
      * intros m Hm0 Hne. rewrite bit_set_test by lia. rewrite (proj2 (Z.eqb_neq m _)) by done.
        apply orb_false_r.
Qed.

Lemma release_refines a s id :
  awaiting_rel a s -> packet_id_ok id ->
  (release a id).1 = (release s id).1 /\ awaiting_rel (release a id).2 (release s id).2.
Proof.
  intros Hr Hid. simpl. unfold AwaitingRelease_release, position. unfold awaiting_rel in Hr.
  pose proof (position_in_range id Hid) as [Hi Hm]. destruct (words a) as [ws|] eqn:Ew.
  2:{ subst s. simpl. rewrite bool_decide_eq_false_2 by set_solver. split; [done|].
      unfold awaiting_rel. rewrite Ew. set_solver. }
  destruct Hr as [Hok Hs]. simpl. rewrite bit_clear_test by lia. fold (packet_id_bit ws id).
  pose proof (Hs id Hid) as Hin. destruct (packet_id_bit ws id) eqn:Eb; simpl.
  - rewrite bool_decide_eq_true_2 by tauto. split; [done|]. split.
    + destruct Hok as [Hl Hu]. split; [by rewrite length_insert|].
      apply Forall_insert; [done|]. by apply u64_land, word_u64.
    + intros id' Hid'. rewrite packet_id_bit_insert; [|done..|].
      * rewrite elem_of_difference, elem_of_singleton, Hs by done.
        case_bool_decide as Heq; [|tauto].
        rewrite Z.land_spec, lnot_bit_test, Z.eqb_refl, andb_false_r by lia. naive_solver.
      * intros m Hm0 Hne. rewrite Z.land_spec, lnot_bit_test by lia.
        rewrite (proj2 (Z.eqb_neq m _)) by done. apply andb_true_r.
  - rewrite bool_decide_eq_false_2 by (rewrite Hin; done). split; [done|].
    unfold awaiting_rel. rewrite Ew. split; [done|]. intros id' Hid'.
    rewrite elem_of_difference, elem_of_singleton, Hs by done. split; [tauto|].
    intros Hb. split; [done|]. intros ->. congruence.
Qed.

(** ** [dispatch] over the bitset and over the set *)

Definition publish_of (p : MqttPacket) : option CodecPublish :=
  match p with V3 (V3_Publish q) | V5 (V5_Publish q) => Some q | _ => None end.

Definition release_id (p : MqttPacket) : option Z :=
  match p with
  | V3 (V3_PublishRelease id) => Some id
  | V5 (V5_PublishRelease a) => Some (a_packet_id a)
  | _ => None
  end.

(** The ids a decoded packet carries are [NonZeroU16]. *)
Definition packet_ids_ok (p : MqttPacket) : Prop :=
  (forall q id, publish_of p = Some q -> p_packet_id q = Some id -> packet_id_ok id) /\
  (forall id, release_id p = Some id -> packet_id_ok id).

Lemma dispatch_refines a s p :
  awaiting_rel a s -> packet_ids_ok p ->
  (dispatch p a).1 = (dispatch p s).1 /\ awaiting_rel (dispatch p a).2 (dispatch p s).2.
Proof.
  intros Hr [Hpub Hrel].
  assert (forall q, publish_of p = Some q ->
    (dispatch_publish q a).1 = (dispatch_publish q s).1 /\
    awaiting_rel (dispatch_publish q a).2 (dispatch_publish q s).2) as Hp.
  { intros q Hq. unfold dispatch_publish. destruct (QoS_gtb _ _); [done|].
    destruct (has_topic_alias q); [done|].
    destruct (topic_name_violation _); [done|].
    destruct (p_qos q), (p_packet_id q) as [id|] eqn:Eid; try done.
    destruct (record_refines a s id Hr) as [E1 E2]; [by eapply Hpub|].
    destruct (record a id), (record s id). simpl in *. by subst. }
  assert (forall id, release_id p = Some id ->
    (dispatch_release id a).1 = (dispatch_release id s).1 /\
    awaiting_rel (dispatch_release id a).2 (dispatch_release id s).2) as Hl.
  { intros id Hid. unfold dispatch_release.
    destruct (release_refines a s id Hr) as [E1 E2]; [by eapply Hrel|].
    destruct (release a id), (release s id). simpl in *. by subst. }
  destruct p as [[]|[]|]; simpl in *; auto.
Qed.

Lemma dispatch_all_refines ps a s :
  awaiting_rel a s -> Forall packet_ids_ok ps ->
  (dispatch_all ps a).1 = (dispatch_all ps s).1 /\
  awaiting_rel (dispatch_all ps a).2 (dispatch_all ps s).2.
Proof.
  intros Hr Hf. revert a s Hr. induction Hf as [|p ps Hp Hf IH]; intros a s Hr; simpl; [done|].
  destruct (dispatch_refines a s p Hr Hp) as [E1 E2].
  destruct (dispatch p a) as [d a'], (dispatch p s) as [d' s']. simpl in *.
  destruct (IH a' s' E2) as [E3 E4].
  destruct (dispatch_all ps a'), (dispatch_all ps s'). simpl in *. by subst.
Qed.

Lemma awaiting_rel_default : awaiting_rel AwaitingRelease_default ∅.
Proof. done. Qed.

(** (C16) The bitset implements the set of ids awaiting release: over any
    sequence of packets, [dispatch] on the connection's fresh
    [AwaitingRelease] decides exactly what it decides on the abstract set,
    and the bitset keeps representing that set (1024 words of 64 bits, so it
    never indexes out of range). *)
Theorem awaiting_release_refines ps :
  Forall packet_ids_ok ps ->
  (dispatch_all ps AwaitingRelease_default).1 = (dispatch_all ps (∅ : gset Z)).1 /\
  awaiting_rel (dispatch_all ps AwaitingRelease_default).2 (dispatch_all ps (∅ : gset Z)).2.
Proof. apply dispatch_all_refines, awaiting_rel_default. Qed.

(** ** Exactly-once delivery *)

(** The id of a QoS 2 PUBLISH that passes the checks of [dispatch]. *)
Definition accepted_qos2 (p : MqttPacket) : option Z :=
  match publish_of p with
  | Some q =>
      match p_qos q, topic_name_violation (p_topic q), p_properties q with
      | ExactlyOnce, None, (None | Some {| topic_alias := None |}) => p_packet_id q
      | _, _, _ => None
      end
  | None => None
  end.

Lemma dispatch_publish_state q (s : gset Z) :
  (dispatch_publish q s).2 =
    match accepted_qos2 (V3 (V3_Publish q)) with Some id => {[id]} ∪ s | None => s end.
Proof.
  unfold dispatch_publish, accepted_qos2, has_topic_alias. simpl.
  destruct (p_qos q), (topic_name_violation _), (p_properties q) as [[[?|]]|], (p_packet_id q); done.
Qed.

Lemma dispatch_state p (s : gset Z) :
  (dispatch p s).2 =
    match accepted_qos2 p, release_id p with
    | Some id, _ => {[id]} ∪ s
    | None, Some id => s ∖ {[id]}
    | None, None => s
    end.
Proof.
  destruct p as [[]|[]|]; simpl; rewrite ?dispatch_publish_state; try done;
    unfold accepted_qos2; simpl; by split_matches.
Qed.

Lemma dispatch_qos2 p q id (s : gset Z) :
  publish_of p = Some q -> accepted_qos2 p = Some id ->
  (dispatch p s).1 = if bool_decide (id ∈ s) then ReplyWith (PublishReceived id)
                     else DeliverThenReply q (PublishReceived id).
Proof.
  intros Hq Ha. assert (dispatch p s = dispatch_publish q s) as ->.
  { destruct p as [[]|[]|]; simpl in *; by simplify_eq. }
  unfold accepted_qos2 in Ha. rewrite Hq in Ha. unfold dispatch_publish, has_topic_alias.
  destruct (p_qos q), (topic_name_violation _), (p_properties q) as [[[?|]]|]; simplify_eq;
    rewrite Ha; simpl; repeat case_bool_decide; tauto.
Qed.

Lemma dispatch_all_snoc `{ReleaseSet A} ps p (s : A) :
  dispatch_all (ps ++ [p]) s =
    ((dispatch_all ps s).1 ++ [(dispatch p (dispatch_all ps s).2).1],
     (dispatch p (dispatch_all ps s).2).2).
Proof.
  revert s. induction ps as [|p0 ps IH]; intros s; simpl.
  - by destruct (dispatch p s).
  - destruct (dispatch p0 s) as [d s']. rewrite IH. by destruct (dispatch_all ps s').
Qed.

(** An id is open after [ps] when a QoS 2 PUBLISH that passed the checks
    carried it and no PUBREL named it since. *)
Definition opened (ps : list MqttPacket) (id : Z) : Prop :=
  exists i p, ps !! i = Some p /\ accepted_qos2 p = Some id /\
    forall k p', (i < k)%nat -> ps !! k = Some p' -> release_id p' <> Some id.

Lemma accepted_not_release p id : accepted_qos2 p = Some id -> release_id p = None.
Proof. by destruct p as [[]|[]|]. Qed.

Lemma opened_snoc ps p id :
  opened (ps ++ [p]) id <-> accepted_qos2 p = Some id \/ opened ps id /\ release_id p <> Some id.
Proof.
  split.
  - intros (i & p' & Hi & Ha & Hk). apply lookup_app_Some in Hi as [Hi|[Hge Hi]].
    + right. split.
      * exists i, p'. split; [done|]. split; [done|]. intros k p'' Hlt Hp.
        apply (Hk k p''); [done|]. by apply lookup_app_l_Some.
      * apply (Hk (length ps) p); [by apply lookup_lt_Some in Hi|]. by rewrite list_lookup_middle.
    + left. destruct (i - length ps)%nat; simplify_eq/=. done.
  - intros [Ha|[(i & p' & Hi & Ha & Hk) Hrel]].
    + exists (length ps), p. rewrite list_lookup_middle by done. split; [done|]. split; [done|].
      intros k p' Hlt Hp. apply lookup_lt_Some in Hp. rewrite length_app in Hp. simpl in Hp. lia.
    + exists i, p'. split; [by apply lookup_app_l_Some|]. split; [done|]. intros k p'' Hlt Hp.
      apply lookup_app_Some in Hp as [Hp|[Hge Hp]]; [by eapply Hk|].
      destruct (k - length ps)%nat; simplify_eq/=. done.
Qed.

Lemma awaiting_opened ps id : id ∈ (dispatch_all ps (∅ : gset Z)).2 <-> opened ps id.
Proof.
  induction ps as [|p ps IH] using rev_ind.
  - split; [set_solver|]. by intros (i & p & Hi & _).
  - rewrite dispatch_all_snoc, opened_snoc. simpl. rewrite dispatch_state, <- IH.
    destruct (accepted_qos2 p) as [id'|] eqn:Ea.
    + rewrite (accepted_not_release _ _ Ea). set_solver.
    + destruct (release_id p) as [id'|]; set_solver.
Qed.

(** (C6) Exactly-once ingest: on any connection, a QoS 2 PUBLISH that passes
    the checks is handed to the event seam if no earlier one with its packet
    id is still open (accepted and not yet released by a PUBREL); while one
    is, the repeat is answered with the same PUBREC and delivered no second
    time. *)
Theorem qos2_exactly_once ps p q id :
  Forall packet_ids_ok (ps ++ [p]) -> publish_of p = Some q -> accepted_qos2 p = Some id ->
  (opened ps id ->
    last (dispatch_all (ps ++ [p]) AwaitingRelease_default).1 = Some (ReplyWith (PublishReceived id))) /\
  (~ opened ps id ->
    last (dispatch_all (ps ++ [p]) AwaitingRelease_default).1 =
      Some (DeliverThenReply q (PublishReceived id))).
Proof.
  intros Hf Hq Ha.
  destruct (dispatch_all_refines _ _ _ awaiting_rel_default Hf) as [-> _].
  rewrite dispatch_all_snoc. cbn [fst]. rewrite last_snoc, (dispatch_qos2 _ _ _ _ Hq Ha).
  pose proof (awaiting_opened ps id). case_bool_decide; split; try tauto; done.
Qed.

(** ** What reaches the event seam *)

Lemma contains_spec c s : contains c s = false <-> c ∉ String.list_ascii_of_string s.
Proof.
  induction s as [|a s IH]; simpl; [set_solver|].
  rewrite orb_false_iff, IH, elem_of_cons. destruct (Ascii.eqb_spec a c); naive_solver.
Qed.

(** A topic an embedder's callback may see: not empty, no wildcard, no NUL. *)
Definition topic_ok (topic : string) : Prop :=
  topic <> ""%string /\
  Forall (fun c => c <> "000"%char /\ c <> "+"%char /\ c <> "#"%char) (String.list_ascii_of_string topic).

Lemma topic_name_violation_spec topic : topic_name_violation topic = None <-> topic_ok topic.
Proof.
  unfold topic_name_violation, topic_ok. rewrite Forall_forall. split.
  - destruct (contains "000"%char topic) eqn:E0; [done|].
    destruct (is_empty topic || _ || _) eqn:E; [done|]. intros _.
    apply orb_false_iff in E as [[E1 E2]%orb_false_iff E3].
    apply contains_spec in E0, E2, E3. split; [by intros ->|]. intros c Hc.
    repeat split; intros ->; done.
  - intros [Hne Hf].
    assert (forall c, c = "000"%char \/ c = "+"%char \/ c = "#"%char -> contains c topic = false) as Hn.
    { intros c Hc. apply contains_spec. intros Hin. destruct (Hf c Hin) as (? & ? & ?). tauto. }
    rewrite !Hn by tauto. by destruct topic.
Qed.

(** The acknowledgement a delivered PUBLISH owes. *)
Definition owed_ack (q : CodecPublish) (reply : option Reply) : Prop :=
  match p_qos q, p_packet_id q with
  | AtMostOnce, _ => reply = None
  | AtLeastOnce, Some id => reply = Some (PublishAck id)
  | ExactlyOnce, Some id => reply = Some (PublishReceived id)
  | _, None => False
  end.

Definition delivered (d : Disposition) : option (CodecPublish * option Reply) :=
  match d with
  | Deliver q => Some (q, None)
  | DeliverThenReply q r => Some (q, Some r)
  | _ => None
  end.

Lemma delivered_publish `{ReleaseSet A} q0 (a : A) q reply :
  delivered (dispatch_publish q0 a).1 = Some (q, reply) ->
  q0 = q /\ topic_ok (p_topic q) /\ has_topic_alias q = false /\ owed_ack q reply.
Proof.
  unfold dispatch_publish, owed_ack. rewrite <- topic_name_violation_spec.
  destruct (QoS_gtb _ _); [done|]. destruct (has_topic_alias q0) eqn:E1; [done|].
  destruct (topic_name_violation (p_topic q0)) eqn:E2; [done|].
  destruct (p_qos q0) eqn:E3, (p_packet_id q0) as [id|] eqn:E4; try done;
    try destruct (record a id) as [[] a']; intros; simplify_eq/=; rewrite ?E2, ?E3, ?E4; auto.
Qed.

Lemma not_delivered_filters filters reply : delivered (dispatch_filters filters reply) = None.
Proof. unfold dispatch_filters. destruct (length filters); [done|]. by destruct (existsb _ _). Qed.

Lemma not_delivered_release `{ReleaseSet A} id (a : A) : delivered (dispatch_release id a).1 = None.
Proof. unfold dispatch_release. by destruct (release a id). Qed.

(** ** What the other packets are answered with *)

Definition aliased (q : CodecPublish) : Prop :=
  exists props alias, p_properties q = Some props /\ topic_alias props = Some alias.

Lemma has_topic_alias_spec q : has_topic_alias q = true <-> aliased q.
Proof.
  unfold has_topic_alias, aliased. destruct (p_properties q) as [[[alias|]]|]; split; try done; [eauto 10|naive_solver..].
Qed.

Definition has_char (c : Ascii.ascii) (topic : string) : Prop := c ∈ String.list_ascii_of_string topic.

(** A PUBLISH the checks let pass. *)
Definition passes (q : CodecPublish) : Prop := ~ aliased q /\ topic_ok (p_topic q).

Inductive subscribes : MqttPacket -> Z -> list string -> Prop :=
| subscribes_v3 id filters : subscribes (V3 (V3_Subscribe id filters)) id filters.*1
| subscribes_v5 s : subscribes (V5 (V5_Subscribe s)) (s5_packet_id s) (s5_topic_filters s).*1.

Inductive unsubscribes : MqttPacket -> Z -> list string -> Prop :=
| unsubscribes_v3 id filters : unsubscribes (V3 (V3_Unsubscribe id filters)) id filters
| unsubscribes_v5 s : unsubscribes (V5 (V5_Unsubscribe s)) (u5_packet_id s) (u5_topic_filters s).

(** Packets only a server sends, and the acknowledgements of publishes the
    server never makes. *)
Definition from_server (p : MqttPacket) : Prop :=
  match p with
  | V3 (V3_ConnectAck _ | V3_SubscribeAck _ _ | V3_UnsubscribeAck _ | V3_PingResponse)
  | V5 (V5_ConnectAck _ | V5_SubscribeAck _ | V5_UnsubscribeAck _ | V5_PingResponse) => True
  | _ => False
  end.
Definition acknowledges (p : MqttPacket) : Prop :=
  match p with
  | V3 (V3_PublishAck _ | V3_PublishReceived _ | V3_PublishComplete _)
  | V5 (V5_PublishAck _ | V5_PublishReceived _ | V5_PublishComplete _) => True
  | _ => False
  end.

(** The rules for a packet that is not handed on: what it is answered with, or
    which violation it is.  [fresh] says which QoS 2 ids are not awaiting their
    release, [outcome] what a release finds. *)
Inductive answered (fresh : Z -> bool) (outcome : Z -> ReleaseOutcome) : MqttPacket -> Disposition -> Prop :=
| an_ping p : p = V3 V3_PingRequest \/ p = V5 V5_PingRequest -> answered fresh outcome p (ReplyWith PingResponse)
| an_disconnect p : p = V3 V3_Disconnect \/ (exists c, p = V5 (V5_Disconnect c)) -> answered fresh outcome p Close
| an_subscribe p id fs : subscribes p id fs -> fs <> [] -> ""%string ∉ fs ->
    answered fresh outcome p (ReplyWith (SubscribeRefusal id (length fs)))
| an_unsubscribe p id fs : unsubscribes p id fs -> fs <> [] -> ""%string ∉ fs ->
    answered fresh outcome p (ReplyWith (UnsubscribeAck id (length fs)))
| an_no_filters p id : subscribes p id [] \/ unsubscribes p id [] ->
    answered fresh outcome p (ViolationClose EmptyTopicFilterList)
| an_empty_filter p id fs : subscribes p id fs \/ unsubscribes p id fs -> ""%string ∈ fs ->
    answered fresh outcome p (ViolationClose EmptyTopicFilter)
| an_release p id : release_id p = Some id -> answered fresh outcome p (ReplyWith (PublishComplete id (outcome id)))
| an_connect p : (exists c, p = V3 (V3_Connect c)) \/ (exists c, p = V5 (V5_Connect c)) ->
    answered fresh outcome p (ViolationClose DuplicateConnect)
| an_from_server p : from_server p -> answered fresh outcome p (ViolationClose ServerOnlyPacket)
| an_ack p : acknowledges p -> answered fresh outcome p (ViolationClose PublishAckFromClient)
| an_auth : answered fresh outcome (V5 V5_Auth) (ViolationClose AuthNotNegotiated)
| an_version v : answered fresh outcome (Version v) (ViolationClose VersionProbe)
| an_alias p q : publish_of p = Some q -> aliased q -> answered fresh outcome p (ViolationClose TopicAliasInvalid)
| an_nul p q : publish_of p = Some q -> ~ aliased q -> has_char "000"%char (p_topic q) ->
    answered fresh outcome p (ViolationClose MalformedPacket)
| an_topic p q : publish_of p = Some q -> ~ aliased q -> ~ has_char "000"%char (p_topic q) -> ~ topic_ok (p_topic q) ->
    answered fresh outcome p (ViolationClose InvalidTopicName)
| an_no_id p q : publish_of p = Some q -> passes q -> p_qos q <> AtMostOnce -> p_packet_id q = None ->
    answered fresh outcome p (ViolationClose PublishMissingPacketId)
| an_repeat p q id : publish_of p = Some q -> passes q -> p_qos q = ExactlyOnce -> p_packet_id q = Some id ->
    fresh id = false -> answered fresh outcome p (ReplyWith (PublishReceived id)).

Lemma topic_violation_rule topic v : topic_name_violation topic = Some v ->
  v = MalformedPacket /\ has_char "000"%char topic \/
  v = InvalidTopicName /\ ~ has_char "000"%char topic /\ ~ topic_ok topic.
Proof.
  intros Hv. assert (~ topic_ok topic) as Hn by (rewrite <- topic_name_violation_spec; congruence).
  unfold topic_name_violation in Hv. destruct (contains "000"%char topic) eqn:E.
  - left. injection Hv as <-. split; [done|]. unfold has_char. destruct (decide ("000"%char ∈ String.list_ascii_of_string topic)); [done|].
    exfalso. rewrite (proj2 (contains_spec _ _)) in E; done.
  - right. apply contains_spec in E. by destruct (_ || _ || _); simplify_eq.
Qed.

Lemma answered_publish `{ReleaseSet A} p q (a : A) outcome :
  publish_of p = Some q -> delivered (dispatch_publish q a).1 = None ->
  answered (fun id => (record a id).1) outcome p (dispatch_publish q a).1.
Proof.
  intros Hq. unfold dispatch_publish.
  replace (QoS_gtb (p_qos q) MAX_QOS) with false by (by destruct (p_qos q)).
  destruct (has_topic_alias q) eqn:Ea; [intros _; eapply an_alias; [done|by apply has_topic_alias_spec]|].
  assert (~ aliased q) as Hna by (rewrite <- has_topic_alias_spec; congruence).
  destruct (topic_name_violation (p_topic q)) as [v|] eqn:Et.
  { intros _. destruct (topic_violation_rule _ _ Et) as [[-> ?]|(-> & ? & ?)]; [by eapply an_nul|by eapply an_topic]. }
  assert (passes q) as Hp by (split; [done|by apply topic_name_violation_spec]).
  destruct (p_qos q) eqn:Eq, (p_packet_id q) as [id|] eqn:Ei; try done; intros Hd.
  - eapply an_no_id; [done..|by rewrite Eq|done].
  - destruct (record a id) as [fr a'] eqn:Er. simpl in *. destruct fr; [done|].
    eapply (an_repeat _ _ _ _ id); [done..|]. by rewrite Er.
  - eapply an_no_id; [done..|by rewrite Eq|done].
Qed.

Lemma answered_filters fresh outcome p (id : Z) fs reply :
  (subscribes p id fs /\ reply = SubscribeRefusal id \/ unsubscribes p id fs /\ reply = UnsubscribeAck id) ->
  answered fresh outcome p (dispatch_filters fs reply).
Proof.
  intros Hs. unfold dispatch_filters. destruct fs as [|f fs]; [eapply an_no_filters; destruct Hs as [[? _]|[? _]]; eauto|].
  cbn [length]. destruct (existsb is_empty (f :: fs)) eqn:E.
  - apply existsb_exists in E as (x & Hx & Ex). apply list_elem_of_In in Hx. destruct x; [|done].
    eapply an_empty_filter; [|done]. destruct Hs as [[? _]|[? _]]; eauto.
  - assert (""%string ∉ f :: fs) as Hn.
    { intros Hin%list_elem_of_In. assert (existsb is_empty (f :: fs) = true) by (apply existsb_exists; by exists ""%string). congruence. }
    destruct Hs as [[? ->]|[? ->]]; [by eapply (an_subscribe _ _ _ _ (f :: fs))|by eapply (an_unsubscribe _ _ _ _ (f :: fs))].
Qed.

Lemma answered_release `{ReleaseSet A} fresh p id (a : A) : release_id p = Some id ->
  answered fresh (fun id => (release a id).1) p (dispatch_release id a).1.
Proof.
  intros Hid. apply (an_release fresh (fun id => (release a id).1)) in Hid. cbn beta in Hid.
  unfold dispatch_release. by destruct (release a id).
Qed.

(** (C7) Whatever the QoS 2 state, a packet that [dispatch] hands to the
    event seam is a PUBLISH with a topic the callback contract allows, no
    Topic Alias, and at QoS 1 or 2 a packet id; the reply it owes is none,
    PUBACK or PUBREC for that id according to its QoS.  Every other packet is
    answered, or is the violation, that the rules of [answered] name for it:
    which violation a refused PUBLISH is depends on its alias, then on a NUL,
    then on its topic, then on its packet id; only DISCONNECT closes without a
    violation. *)
Theorem dispatch_delivers_valid `{ReleaseSet A} p (a : A) :
  match delivered (dispatch p a).1 with
  | Some (q, reply) => publish_of p = Some q /\ topic_ok (p_topic q) /\ ~ aliased q /\ owed_ack q reply
  | None => answered (fun id => (record a id).1) (fun id => (release a id).1) p (dispatch p a).1
  end.
Proof.
  destruct (delivered (dispatch p a).1) as [[q reply]|] eqn:Ed.
  - destruct p as [[]|[]|]; simpl in Ed; rewrite ?not_delivered_filters, ?not_delivered_release in Ed; try done;
      apply delivered_publish in Ed as (-> & ? & Hal & ?); (split; [done|]); split; try done;
      (split; [by rewrite <- has_topic_alias_spec, Hal|done]).
  - destruct p as [[]|[]|]; simpl in *; try (by constructor; eauto); try (by eapply answered_publish);
      try (by apply answered_release); eapply answered_filters; eauto using subscribes, unsubscribes.
Qed.

(** ** Witnesses *)

Definition sample_publish (q : QoS) (id : option Z) : CodecPublish :=
  {| p_dup := false; p_retain := false; p_qos := q; p_topic := "t"; p_packet_id := id;
     p_payload := [1]; p_properties := None |}.

Definition qos2_packet (id : Z) : MqttPacket := V3 (V3_Publish (sample_publish ExactlyOnce (Some id))).

Lemma sample_ids_ok : Forall packet_ids_ok [qos2_packet 7; qos2_packet 7].
Proof.
  repeat constructor; simpl; intros; simplify_eq/=; unfold packet_id_ok; lia.
Qed.

Lemma awaiting_release_refines_witness :
  (dispatch_all [qos2_packet 7; qos2_packet 7] AwaitingRelease_default).1 =
  (dispatch_all [qos2_packet 7; qos2_packet 7] (∅ : gset Z)).1.
Proof. apply (awaiting_release_refines [qos2_packet 7; qos2_packet 7] sample_ids_ok). Defined.

Lemma qos2_exactly_once_witness :
  opened [qos2_packet 7] 7 /\
  last (dispatch_all ([qos2_packet 7] ++ [qos2_packet 7]) AwaitingRelease_default).1 =
    Some (ReplyWith (PublishReceived 7)).
Proof.
  assert (opened [qos2_packet 7] 7) as Ho.
  { exists 0%nat, (qos2_packet 7). split; [done|]. split; [done|].
    intros [|k] p' Hk Hp; [lia|]. done. }
  split; [exact Ho|].
  apply (qos2_exactly_once [qos2_packet 7] (qos2_packet 7) (sample_publish ExactlyOnce (Some 7)) 7);
    [exact sample_ids_ok|reflexivity|reflexivity|exact Ho].
Defined.
