(* ===== verification/Handshake.v ===== *)
(** * CONNECT evaluation: src/broker/handshake.rs, and src/connection.rs

    Durations and instants are nanoseconds.  [evaluate_connect] decides the
    first packet of a connection; the arithmetic is written at its width
    ([wrap64], [wrap 16]) and the theorems show that nothing wraps for the
    values a decoder can produce. *)

From S2P Require Import Prelude FixedHeader Rmqtt Errors Decoder Packet.

(** ** Time *)

Definition NANOS_PER_SEC : Z := 1000000000.
Definition NANOS_PER_MILLI : Z := 1000000.
Definition from_secs (s : Z) : Z := s * NANOS_PER_SEC.
Definition from_millis (ms : Z) : Z := ms * NANOS_PER_MILLI.

(** [last.elapsed()] when the clock reads [now]: saturating, as [Instant] is
    monotonic. *)
Definition elapsed (now last : Z) : Z := sat_sub now last.

(** ** Connection state (src/connection.rs); the clock reading of each call is
    its [now] argument *)

Record ConnectionState := {
  cs_client_id : option string;
  cs_keep_alive : Z;
  cs_last_packet_time : Z
}.

Definition ConnectionState_new (now : Z) : ConnectionState :=
  {| cs_client_id := None; cs_keep_alive := 60; cs_last_packet_time := now |}.

Definition update_activity (self : ConnectionState) (now : Z) : ConnectionState :=
  {| cs_client_id := cs_client_id self; cs_keep_alive := cs_keep_alive self;
     cs_last_packet_time := now |}.

Definition is_idle (self : ConnectionState) (timeout_secs now : Z) : bool :=
  timeout_secs <? elapsed now (cs_last_packet_time self) / NANOS_PER_SEC.

(** ** [evaluate_connect] *)

Definition KEEP_ALIVE_GRACE_MILLIS_PER_SEC : Z := 1500.
Definition MAX_TIMEOUT_SECS : Z := 31536000.

Inductive ConnectDecision :=
| Accept (connack : MqttPacket) (client_id : option string) (keep_alive_secs : Z)
    (idle_timeout : Z) (max_packet_size : option Z)
| Refuse (connack : MqttPacket) (sendable : bool)
| RefusePersistentSession
| NotConnect.

Definition honest_v5_connack (reason : V5ConnectAckReason) (m : MaxInboundPacketSize) : V5ConnectAck :=
  {| ca_reason_code := reason;
     ca_max_qos := MAX_QOS;
     ca_retain_available := true;
     ca_wildcard_subscription_available := true;
     ca_subscription_identifiers_available := true;
     ca_shared_subscription_available := true;
     ca_session_expiry_interval_secs := Some 0;
     ca_max_packet_size := Some (MaxInboundPacketSize_get m);
     ca_assigned_client_id := None;
     ca_server_keepalive_sec := None |}.

(** [connack.assigned_client_id = ...; connack.server_keepalive_sec = ...]. *)
Definition with_session (a : V5ConnectAck) (assigned : option string) (announce : option Z) :
    V5ConnectAck :=
  {| ca_reason_code := ca_reason_code a;
     ca_max_qos := ca_max_qos a;
     ca_retain_available := ca_retain_available a;
     ca_wildcard_subscription_available := ca_wildcard_subscription_available a;
     ca_subscription_identifiers_available := ca_subscription_identifiers_available a;
     ca_shared_subscription_available := ca_shared_subscription_available a;
     ca_session_expiry_interval_secs := ca_session_expiry_interval_secs a;
     ca_max_packet_size := ca_max_packet_size a;
     ca_assigned_client_id := assigned;
     ca_server_keepalive_sec := announce |}.

Definition clamp (x lo hi : Z) : Z := Z.max lo (Z.min x hi).

(** The keep-alive grace of a u16 keep-alive, in nanoseconds. *)
Definition keep_alive_grace (keep_alive : Z) : Z :=
  from_millis (wrap64 (keep_alive * KEEP_ALIVE_GRACE_MILLIS_PER_SEC)).

(** [(negotiated_ka, idle, announce)] of the v5 branch. *)
Definition negotiate_v5_keep_alive (keep_alive cfg : Z) : Z * Z * option Z :=
  let cfg_duration := from_secs cfg in
  if keep_alive =? 0 then (0, cfg_duration, None)
  else
    let ka_ms := keep_alive_grace keep_alive in
    if ka_ms <=? cfg_duration then (keep_alive, ka_ms, None)
    else
      let a := wrap 16 (clamp (wrap64 (cfg * 2) / 3) 1 (2 ^ 16 - 1)) in
      (a, keep_alive_grace a, Some a).

Section Evaluate.
Context `{RmqttCodec}.

Definition refuse_v5 (reason : V5ConnectAckReason) (max_packet_size : option Z)
    (m : MaxInboundPacketSize) : ConnectDecision :=
  let ack := honest_v5_connack reason m in
  let sendable := fits_max_packet_size (V5 (V5_ConnectAck ack)) MQTT5 max_packet_size in
  Refuse (V5 (V5_ConnectAck ack)) sendable.

Definition evaluate_v3_connect (c : V3Connect) (cfg : Z) : ConnectDecision :=
  let cfg_duration := from_secs cfg in
  if is_empty (v3_client_id c) && negb (v3_clean_session c) then
    Refuse (V3 (V3_ConnectAck
      {| v3_return_code := IdentifierRejected; v3_session_present := false |})) true
  else if negb (v3_clean_session c) then RefusePersistentSession
  else
    let client_id := if is_empty (v3_client_id c) then None else Some (v3_client_id c) in
    let idle_timeout :=
      if v3_keep_alive c =? 0 then cfg_duration
      else Z.min (keep_alive_grace (v3_keep_alive c)) cfg_duration in
    Accept (V3 (V3_ConnectAck
      {| v3_return_code := ConnectionAccepted; v3_session_present := false |}))
      client_id (v3_keep_alive c) idle_timeout None.

Definition evaluate_v5_connect (c : V5Connect) (cfg : Z) (peer_addr : string)
    (m : MaxInboundPacketSize) : ConnectDecision :=
  match v5_auth_method c with
  | Some _ => refuse_v5 V5_BadAuthenticationMethod (v5_max_packet_size c) m
  | None =>
      let assigned :=
        if is_empty (v5_client_id c) then Some ("auto-" +:+ peer_addr) else None in
      let '(negotiated_ka, idle, announce) := negotiate_v5_keep_alive (v5_keep_alive c) cfg in
      let client_id := Some (default (v5_client_id c) assigned) in
      let connack := with_session (honest_v5_connack V5_Success m) assigned announce in
      if negb (fits_max_packet_size (V5 (V5_ConnectAck connack)) MQTT5 (v5_max_packet_size c))
      then refuse_v5 V5_ImplementationSpecificError (v5_max_packet_size c) m
      else Accept (V5 (V5_ConnectAck connack)) client_id negotiated_ka idle (v5_max_packet_size c)
  end.

Definition evaluate_connect (packet : MqttPacket) (config_idle_timeout_secs : Z)
    (peer_addr : string) (m : MaxInboundPacketSize) : ConnectDecision :=
  let cfg := Z.min config_idle_timeout_secs MAX_TIMEOUT_SECS in
  match packet with
  | V3 (V3_Connect c) => evaluate_v3_connect c cfg
  | V5 (V5_Connect c) => evaluate_v5_connect c cfg peer_addr m
  | _ => NotConnect
  end.

(** ** The CONNACK fits the client *)

(** What a CONNECT declares it can receive. *)
Definition declared_max_packet_size (packet : MqttPacket) : option Z :=
  match packet with V5 (V5_Connect c) => v5_max_packet_size c | _ => None end.

Definition packet_version (packet : MqttPacket) : ProtocolVersion :=
  match packet with V5 _ => MQTT5 | _ => MQTT3 end.

Definition packet_fits (version : ProtocolVersion) (max_packet_size : option Z) (p : MqttPacket) : Prop :=
  fits_max_packet_size p version max_packet_size = true.

(** The packets a decision writes. *)
Definition decision_connack (d : ConnectDecision) : option MqttPacket :=
  match d with
  | Accept connack _ _ _ _ => Some connack
  | Refuse connack true => Some connack
  | _ => None
  end.

Lemma packet_fits_no_limit v p : packet_fits v None p.
Proof. done. Qed.

Lemma decision_connack_fits packet cfg peer m connack :
  decision_connack (evaluate_connect packet cfg peer m) = Some connack ->
  packet_fits MQTT5 (declared_max_packet_size packet) connack.
Proof.
  destruct packet as [[c| | | | | | | | | | | | |]|[c| | | | | | | | | | | | | |]|]; simpl; try done.
  unfold evaluate_v5_connect, refuse_v5, packet_fits. intros Hd.
  destruct (v5_auth_method c); simpl in Hd.
  - destruct (fits_max_packet_size (V5 (V5_ConnectAck (honest_v5_connack _ _))) _ _) eqn:E; by simplify_eq.
  - destruct (negotiate_v5_keep_alive _ _) as [[ka idle] announce].
    destruct (fits_max_packet_size (V5 (V5_ConnectAck (with_session _ _ _))) _ _) eqn:E;
      simpl in Hd; [by simplify_eq|].
    destruct (fits_max_packet_size (V5 (V5_ConnectAck (honest_v5_connack _ _))) _ _) eqn:E'; by simplify_eq.
Qed.

Lemma accept_max_packet_size packet cfg peer m connack id ka idle mps :
  evaluate_connect packet cfg peer m = Accept connack id ka idle mps ->
  mps = declared_max_packet_size packet.
Proof.
  destruct packet as [[]|[]|]; simpl; try done.
  - unfold evaluate_v3_connect. intros. by split_matches.
  - unfold evaluate_v5_connect, refuse_v5. intros. by split_matches.
Qed.

Lemma keep_alive_grace_nonneg ka : 0 <= keep_alive_grace ka.
Proof.
  unfold keep_alive_grace, from_millis, NANOS_PER_MILLI, wrap.
  pose proof (Z.mod_pos_bound (ka * KEEP_ALIVE_GRACE_MILLIS_PER_SEC) (2 ^ 64)). lia.
Qed.

Lemma accept_idle_nonneg packet cfg peer m connack id ka idle mps :
  0 <= cfg -> evaluate_connect packet cfg peer m = Accept connack id ka idle mps -> 0 <= idle.
Proof.
  intros Hcfg. assert (0 <= from_secs (Z.min cfg MAX_TIMEOUT_SECS)) as Hc.
  { unfold from_secs, NANOS_PER_SEC, MAX_TIMEOUT_SECS. lia. }
  unfold evaluate_connect, evaluate_v3_connect, evaluate_v5_connect, refuse_v5, negotiate_v5_keep_alive.
  destruct packet as [[c| | | | | | | | | | | | |]|[c| | | | | | | | | | | | | |]|]; try done; intros He.
  - pose proof (keep_alive_grace_nonneg (v3_keep_alive c)). split_matches; lia.
  - destruct (v5_auth_method c); [done|]. destruct (_ =? 0); [|destruct (_ <=? _)];
      destruct (negb _); simplify_eq; [done|apply keep_alive_grace_nonneg..].
Qed.
Lemma connack_of_decision packet cfg peer m p s :
  (exists id ka idle mps, evaluate_connect packet cfg peer m = Accept p id ka idle mps) \/
  evaluate_connect packet cfg peer m = Refuse p s ->
  (exists a, p = V3 (V3_ConnectAck a)) \/ (exists a, p = V5 (V5_ConnectAck a)).
Proof.
  unfold evaluate_connect, evaluate_v3_connect, evaluate_v5_connect, refuse_v5.
  destruct packet as [[c| | | | | | | | | | | | |]|[c| | | | | | | | | | | | | |]|];
    intros [(? & ? & ? & ? & He)|He]; try done; split_matches; eauto.
Qed.
End Evaluate.

(** ** The idle deadline *)

(** The keep-alive a CONNECT asks for; a u16 on the wire. *)
Definition requested_keep_alive (packet : MqttPacket) : option Z :=
  match packet with
  | V3 (V3_Connect c) => Some (v3_keep_alive c)
  | V5 (V5_Connect c) => Some (v5_keep_alive c)
  | _ => None
  end.

(** The keep-alive the client ends up knowing: its own, unless the CONNACK
    announces another. *)
Definition announced_keep_alive (requested : Z) (connack : MqttPacket) : Z :=
  match connack with
  | V5 (V5_ConnectAck a) => default requested (ca_server_keepalive_sec a)
  | _ => requested
  end.

Lemma keep_alive_grace_u16 ka : u16 ka -> keep_alive_grace ka = from_millis (1500 * ka).
Proof.
  unfold u_range, keep_alive_grace, KEEP_ALIVE_GRACE_MILLIS_PER_SEC. intros.
  rewrite wrap_small by lia. f_equal. lia.
Qed.

Lemma announced_u16 cfg : 0 <= cfg <= MAX_TIMEOUT_SECS ->
  wrap 16 (clamp (wrap64 (cfg * 2) / 3) 1 (2 ^ 16 - 1)) = Z.max 1 (Z.min (cfg * 2 / 3) 65535).
Proof.
  unfold MAX_TIMEOUT_SECS. intros. rewrite (wrap_small 64) by lia. unfold clamp.
  rewrite wrap_small; [done|]. pose proof (Z.div_pos (cfg * 2) 3). lia.
Qed.

(** The v5 negotiation, on every branch. *)
Lemma negotiate_v5_spec requested cfg ka idle announce :
  u16 requested -> 0 <= cfg <= MAX_TIMEOUT_SECS ->
  negotiate_v5_keep_alive requested cfg = (ka, idle, announce) ->
  default requested announce = ka /\
  (requested = 0 /\ ka = 0 /\ idle = from_secs cfg \/
   1 <= ka <= requested /\ idle = from_millis (1500 * ka) /\
     (idle <= from_secs cfg \/ cfg < 2 /\ ka = 1)).
Proof.
  intros Hr Hcfg. unfold negotiate_v5_keep_alive. rewrite announced_u16 by done.
  rewrite (keep_alive_grace_u16 requested) by done.
  destruct (Z.eqb_spec requested 0) as [->|Hnz]; [intros; simplify_eq/=; auto|].
  unfold u_range in Hr. destruct (Z.leb_spec (from_millis (1500 * requested)) (from_secs cfg)) as [Hle|Hgt].
  - intros; simplify_eq/=. split; [done|]. right. lia.
  - intros; simplify_eq/=. split; [done|]. right.
    pose proof (Z.mul_div_le (cfg * 2) 3). pose proof (Z.mul_succ_div_gt (cfg * 2) 3).
    rewrite keep_alive_grace_u16 by (unfold u_range; lia).
    unfold from_millis, from_secs, NANOS_PER_MILLI, NANOS_PER_SEC in *. lia.
Qed.

(** Every accepted session has an idle deadline the client can know and
    the configuration allows.  With keep-alive 0 it is the configured idle
    timeout (clamped to one year); otherwise the enforced keep-alive [ka] is
    at least 1, at most the client's, is the one the client knows from its
    own CONNECT or from the CONNACK, and the deadline is at most 1.5 [ka]
    (exactly 1.5 [ka] for v5).  The deadline exceeds the configured timeout
    only for v5 with a configured timeout below 2 s, by at most 1.5 s.  No
    arithmetic wraps for a u16 keep-alive. *)
Theorem accepted_idle_deadline `{RmqttCodec} packet cfg_secs peer m connack id ka idle mps requested :
  requested_keep_alive packet = Some requested -> u16 requested -> 0 <= cfg_secs ->
  evaluate_connect packet cfg_secs peer m = Accept connack id ka idle mps ->
  let cfg := Z.min cfg_secs MAX_TIMEOUT_SECS in
  announced_keep_alive requested connack = ka /\
  (requested = 0 -> ka = 0 /\ idle = from_secs cfg) /\
  (requested <> 0 -> 1 <= ka <= requested /\ idle <= from_millis (1500 * ka) /\
    (packet_version packet = MQTT5 -> idle = from_millis (1500 * ka))) /\
  (idle <= from_secs cfg \/
   packet_version packet = MQTT5 /\ cfg < 2 /\ idle <= from_secs cfg + from_millis 1500).
Proof.
  intros Hreq Hu Hcfg He cfg.
  assert (0 <= cfg <= MAX_TIMEOUT_SECS) as Hc by (unfold cfg, MAX_TIMEOUT_SECS in *; lia).
  unfold evaluate_connect in He. fold cfg in He. clearbody cfg.
  destruct packet as [[c| | | | | | | | | | | | |]|[c| | | | | | | | | | | | | |]|]; simplify_eq/=.
  - unfold evaluate_v3_connect in He.
    destruct (_ && _); [done|]. destruct (negb _); [done|]. simplify_eq/=.
    split; [done|]. rewrite keep_alive_grace_u16 by done. unfold u_range in Hu.
    destruct (Z.eqb_spec (v3_keep_alive c) 0);
      (split; [intros; split; lia|]); (split; [intros; split_and!; [lia|lia|lia|done]|]); left; lia.
  - unfold evaluate_v5_connect, refuse_v5 in He. destruct (v5_auth_method c); [done|].
    destruct (negotiate_v5_keep_alive (v5_keep_alive c) cfg) as [[ka' idle'] announce] eqn:En.
    destruct (negb _); [done|]. simplify_eq/=.
    apply negotiate_v5_spec in En as [Ha Hcases]; [|done..]. split; [done|].
    unfold from_millis, from_secs, NANOS_PER_MILLI, NANOS_PER_SEC in *.
    destruct Hcases as [(?&?&?)|(?&?&Hcap)].
    + split; [done|]. split; [done|]. left; lia.
    + split; [lia|]. split; [intros _; split; [lia|]; split; [lia|]; by intros _|]. destruct Hcap as [|[? ?]]; [by left|].
      right. split; [done|]. lia.
Qed.

(** ** What the CONNACK promises *)

(** The capability fields of a v5 CONNACK are honest: it advertises the bound
    the decoder enforces, keeps no session, leaves the optional capabilities at
    their defaults, and its Maximum QoS is the one [dispatch] enforces. *)
Definition honest (m : MaxInboundPacketSize) (connack : MqttPacket) : Prop :=
  match connack with
  | V3 (V3_ConnectAck a) => v3_session_present a = false
  | V5 (V5_ConnectAck a) =>
      ca_max_packet_size a = Some (MaxInboundPacketSize_get m) /\
      ca_session_expiry_interval_secs a = Some 0 /\
      ca_retain_available a = true /\ ca_wildcard_subscription_available a = true /\
      ca_subscription_identifiers_available a = true /\ ca_shared_subscription_available a = true /\
      forall (A : Type) (RS : ReleaseSet A) (w : A) (q : CodecPublish),
        (dispatch_publish q w).1 = ViolationClose PublishQosAboveMaximum <->
        QoS_gtb (p_qos q) (ca_max_qos a) = true
  | _ => False
  end.

Lemma honest_v5 reason m assigned announce :
  honest m (V5 (V5_ConnectAck (with_session (honest_v5_connack reason m) assigned announce))).
Proof.
  simpl. do 6 (split; [done|]). intros A RS w q. unfold dispatch_publish.
  destruct (QoS_gtb (p_qos q) MAX_QOS) eqn:E; [done|]. split; [|done].
  destruct (has_topic_alias q); [done|]. destruct (topic_name_violation _) as [v|] eqn:Ev.
  - unfold topic_name_violation in Ev. intros. split_matches.
  - destruct (p_qos q), (p_packet_id q); try done. by destruct (record w _) as [[] ?].
Qed.

Lemma connack_honest `{RmqttCodec} packet cfg peer m connack :
  (exists id ka idle mps, evaluate_connect packet cfg peer m = Accept connack id ka idle mps) \/
  (exists s, evaluate_connect packet cfg peer m = Refuse connack s) -> honest m connack.
Proof.
  unfold evaluate_connect. intros Hd.
  destruct packet as [[c| | | | | | | | | | | | |]|[c| | | | | | | | | | | | | |]|];
    try (destruct Hd as [(? & ? & ? & ? & ?)|(? & ?)]; done).
  - unfold evaluate_v3_connect in Hd. destruct Hd as [(? & ? & ? & ? & ?)|(? & ?)]; split_matches.
  - unfold evaluate_v5_connect, refuse_v5 in Hd.
    destruct Hd as [(? & ? & ? & ? & Hd)|(? & Hd)];
      destruct (v5_auth_method c); try (simplify_eq; apply (honest_v5 _ _ None None));
      destruct (negotiate_v5_keep_alive _ _) as [[ka' idle'] announce];
      destruct (negb _); simplify_eq; first [apply honest_v5|apply (honest_v5 _ _ None None)].
Qed.

(** What a v3 CONNECT is answered with. *)
Definition v3_policy (c : V3Connect) (d : ConnectDecision) : Prop :=
  if v3_clean_session c then
    exists a idle, d = Accept (V3 (V3_ConnectAck a))
        (if decide (v3_client_id c = ""%string) then None else Some (v3_client_id c)) (v3_keep_alive c) idle None /\
      v3_return_code a = ConnectionAccepted
  else if decide (v3_client_id c = ""%string) then
    exists a, d = Refuse (V3 (V3_ConnectAck a)) true /\ v3_return_code a = IdentifierRejected
  else d = RefusePersistentSession.

Section Policy.
Context `{RmqttCodec}.

(** A refusal of a v5 CONNECT: it is written exactly when it fits. *)
Definition v5_refused (c : V5Connect) (reason : V5ConnectAckReason) (d : ConnectDecision) : Prop :=
  exists a sendable, d = Refuse (V5 (V5_ConnectAck a)) sendable /\ ca_reason_code a = reason /\
    ca_assigned_client_id a = None /\ ca_server_keepalive_sec a = None /\
    (sendable = true <-> packet_fits MQTT5 (v5_max_packet_size c) (V5 (V5_ConnectAck a))).

(** What a v5 CONNECT is answered with: extended authentication is refused;
    otherwise the CONNACK that names the session decides, by its size. *)
Definition v5_policy (c : V5Connect) (peer : string) (d : ConnectDecision) : Prop :=
  if decide (v5_auth_method c = None) then
    exists a ka idle,
      ca_reason_code a = V5_Success /\
      ca_assigned_client_id a = (if decide (v5_client_id c = ""%string) then Some ("auto-" +:+ peer) else None) /\
      default (v5_keep_alive c) (ca_server_keepalive_sec a) = ka /\
      (packet_fits MQTT5 (v5_max_packet_size c) (V5 (V5_ConnectAck a)) ->
         d = Accept (V5 (V5_ConnectAck a)) (Some (default (v5_client_id c) (ca_assigned_client_id a))) ka idle
               (v5_max_packet_size c)) /\
      (~ packet_fits MQTT5 (v5_max_packet_size c) (V5 (V5_ConnectAck a)) ->
         v5_refused c V5_ImplementationSpecificError d)
  else v5_refused c V5_BadAuthenticationMethod d.

Lemma is_empty_decide {B} (s : string) (x y : B) : (if is_empty s then x else y) = if decide (s = ""%string) then x else y.
Proof. by destruct s. Qed.

Lemma v3_connect_policy c cfg : v3_policy c (evaluate_v3_connect c cfg).
Proof.
  unfold v3_policy, evaluate_v3_connect. rewrite (is_empty_decide _ None).
  destruct (v3_clean_session c); simpl; [rewrite andb_false_r; eauto|]. rewrite andb_true_r, is_empty_decide.
  destruct (decide _); eauto.
Qed.

Lemma refuse_v5_policy c reason m : v5_refused c reason (refuse_v5 reason (v5_max_packet_size c) m).
Proof. unfold v5_refused, refuse_v5. eexists _, _. split; [done|]. by split_and!. Qed.

Lemma v5_connect_policy c cfg peer m : v5_policy c peer (evaluate_v5_connect c cfg peer m).
Proof.
  unfold v5_policy, evaluate_v5_connect. destruct (v5_auth_method c); simpl; [apply refuse_v5_policy|].
  destruct (negotiate_v5_keep_alive (v5_keep_alive c) cfg) as [[ka idle] announce] eqn:En.
  rewrite is_empty_decide. eexists (with_session (honest_v5_connack V5_Success m) _ announce), ka, idle.
  split; [done|]. split; [done|]. split.
  { unfold negotiate_v5_keep_alive in En. simpl. destruct (Z.eqb_spec (v5_keep_alive c) 0); [|destruct (_ <=? _)]; by simplify_eq. }
  unfold packet_fits. split; intros Hf; [by rewrite Hf|]. apply not_true_is_false in Hf. rewrite Hf. apply refuse_v5_policy.
Qed.

End Policy.

(** ** Witness *)

Definition sample_v5_connect : V5Connect :=
  {| v5_client_id := "c"; v5_keep_alive := 600; v5_auth_method := None; v5_max_packet_size := Some 15 |}.

Lemma accepted_idle_deadline_witness :
  announced_keep_alive 600 (V5 (V5_ConnectAck (with_session
    (honest_v5_connack V5_Success MaxInboundPacketSize_DEFAULT) None (Some 200)))) = 200 /\
  from_secs 300 <= from_secs 300.
Proof.
  destruct (@accepted_idle_deadline FrameCodec.codec_ops (V5 (V5_Connect sample_v5_connect)) 300 "peer"
    MaxInboundPacketSize_DEFAULT
    (V5 (V5_ConnectAck (with_session (honest_v5_connack V5_Success MaxInboundPacketSize_DEFAULT)
      None (Some 200)))) (Some "c"%string) 200 (from_secs 300) (Some 15) 600) as (H & _);
    [reflexivity|unfold u_range; lia|lia|vm_compute; reflexivity|].
  split; [exact H|lia].
Defined.
