(* ===== verification/Api.v ===== *)
(** * The embedder's surface: configuration and the delivered publish

    [BrokerConfig] with its builder, and [Publish], the value a callback sees
    (src/broker/mod.rs).  The test-only fields and constructors of the source
    ([#[cfg(test)]]) are not part of the shipped program. *)

From S2P Require Import Prelude FixedHeader Rmqtt.

(** ** Configuration *)

Definition DEFAULT_DRAIN_TIMEOUT_SECS : Z := 5.
Definition DEFAULT_INGEST_DEADLINE_SECS : Z := 5.
Definition DEFAULT_MAX_CONNECTIONS_PER_WORKER : Z := 1000.
Definition DEFAULT_CONNECTION_TIMEOUT_SECS : Z := 10.
Definition DEFAULT_IDLE_TIMEOUT_SECS : Z := 300.
Definition DEFAULT_BACKLOG : Z := 1024.
Definition FALLBACK_NUM_WORKERS : Z := 4.

Record BrokerConfig := {
  bind_addr : string;
  max_connections_per_worker : Z;
  connection_timeout_secs : Z;
  idle_timeout_secs : Z;
  drain_timeout_secs : Z;
  ingest_deadline_secs : Z;
  num_workers : option Z;
  backlog : Z;
  max_inbound_packet_size : MaxInboundPacketSize
}.

Definition BrokerConfig_new (bind : string) : BrokerConfig :=
  {| bind_addr := bind;
     max_connections_per_worker := DEFAULT_MAX_CONNECTIONS_PER_WORKER;
     connection_timeout_secs := DEFAULT_CONNECTION_TIMEOUT_SECS;
     idle_timeout_secs := DEFAULT_IDLE_TIMEOUT_SECS;
     drain_timeout_secs := DEFAULT_DRAIN_TIMEOUT_SECS;
     ingest_deadline_secs := DEFAULT_INGEST_DEADLINE_SECS;
     num_workers := None;
     backlog := DEFAULT_BACKLOG;
     max_inbound_packet_size := MaxInboundPacketSize_DEFAULT |}.

Definition BrokerConfig_default : BrokerConfig := BrokerConfig_new "0.0.0.0:1883".

(** One builder call: the field it sets, and its value. *)
Inductive Setting :=
| SetMaxConnectionsPerWorker (max : Z)
| SetConnectionTimeoutSecs (secs : Z)
| SetIdleTimeoutSecs (secs : Z)
| SetDrainTimeoutSecs (secs : Z)
| SetIngestDeadlineSecs (secs : Z)
| SetNumWorkers (workers : Z)
| SetBacklog (backlog : Z)
| SetMaxInboundPacketSize (bound : MaxInboundPacketSize).

Definition configure (self : BrokerConfig) (s : Setting) : BrokerConfig :=
  {| bind_addr := bind_addr self;
     max_connections_per_worker :=
       match s with SetMaxConnectionsPerWorker n => n | _ => max_connections_per_worker self end;
     connection_timeout_secs := match s with SetConnectionTimeoutSecs n => n | _ => connection_timeout_secs self end;
     idle_timeout_secs := match s with SetIdleTimeoutSecs n => n | _ => idle_timeout_secs self end;
     drain_timeout_secs := match s with SetDrainTimeoutSecs n => n | _ => drain_timeout_secs self end;
     ingest_deadline_secs := match s with SetIngestDeadlineSecs n => n | _ => ingest_deadline_secs self end;
     num_workers := match s with SetNumWorkers n => Some n | _ => num_workers self end;
     backlog := match s with SetBacklog n => n | _ => backlog self end;
     max_inbound_packet_size :=
       match s with SetMaxInboundPacketSize m => m | _ => max_inbound_packet_size self end |}.

(** ** The delivered publish *)

(** The callback's own QoS enum, [broker::QoS]. *)
Inductive BrokerQoS := BAtMostOnce | BAtLeastOnce | BExactlyOnce.

#[export] Instance BrokerQoS_eq_dec : EqDecision BrokerQoS.
Proof. solve_decision. Defined.

Record Publish := { inner : CodecPublish }.

Definition from_codec (publish : CodecPublish) : Publish :=
  {| inner := {| p_dup := p_dup publish;
                 p_retain := p_retain publish;
                 p_qos := p_qos publish;
                 p_topic := p_topic publish;
                 p_packet_id := p_packet_id publish;
                 p_payload := p_payload publish;
                 p_properties := None |} |}.

Definition topic (self : Publish) : string := p_topic (inner self).
Definition payload (self : Publish) : list Z := p_payload (inner self).
Definition retain (self : Publish) : bool := p_retain (inner self).

Definition qos (self : Publish) : BrokerQoS :=
  match p_qos (inner self) with
  | AtMostOnce => BAtMostOnce
  | AtLeastOnce => BAtLeastOnce
  | ExactlyOnce => BExactlyOnce
  end.

Definition Publish_new (topic : string) (payload : list Z) (qos : BrokerQoS) (retain : bool) : Publish :=
  let codec_qos :=
    match qos with
    | BAtMostOnce => AtMostOnce
    | BAtLeastOnce => AtLeastOnce
    | BExactlyOnce => ExactlyOnce
    end in
  {| inner := {| p_dup := false; p_retain := retain; p_qos := codec_qos; p_topic := topic;
                 p_packet_id := None; p_payload := payload; p_properties := None |} |}.

(** What a callback can observe of a publish. *)
Definition observe (p : Publish) : string * list Z * BrokerQoS * bool :=
  (topic p, payload p, qos p, retain p).

Lemma observe_new t b q r : observe (Publish_new t b q r) = (t, b, q, r).
Proof. by destruct q. Qed.
