(* ===== verification/Channel.v ===== *)
(** * The worker's bounded event channel

    [EventSender], [EventReceiver], [SlotWait] and [Admission] of
    src/broker/worker.rs: the bounded facade a worker builds over an unbounded
    queue and a semaphore that holds one permit per free slot.  local-sync is
    a dependency, so its semaphore and queue are the class [LocalSync], with
    the documented behaviour the facade relies on as the class
    [LocalSyncSpec].  An async operation is the sequence of its pieces between
    two awaits ([admit_begin], [admit_resume], [SlotWait_drop]); the relation
    [chan_step] interleaves the pieces of any number of connections with the
    receiver's. *)

From S2P Require Import Prelude Rmqtt Api.

(** ** local-sync *)

Inductive Poll (A : Type) := Ready (a : A) | Pending.
Arguments Ready {A} a.
Arguments Pending {A}.

Inductive AcquireError := AcquireError_.

(** The operations of the queue and of the semaphore.  A permit is either
    forgotten, which is nothing, or dropped, which is [add_permits 1].
    [acquire_drop] answers [None] where local-sync 0.1.1 panics. *)
Class LocalSync := {
  Semaphore : Type;
  Waiter : Type;
  Semaphore_new : Z -> Semaphore;
  available_permits : Semaphore -> Z;
  sem_try_acquire : Semaphore -> option Semaphore;
  acquire : Semaphore -> Waiter * Semaphore;
  poll_acquire : Semaphore -> Waiter -> Poll (result unit AcquireError) * Semaphore;
  acquire_drop : Semaphore -> Waiter -> option Semaphore;
  add_permits : Semaphore -> Z -> Semaphore;
  sem_close : Semaphore -> Semaphore;
  Queue : Type -> Type;
  queue_new : forall {A}, Queue A;
  tx_send : forall {A}, Queue A -> A -> option (Queue A);
  tx_is_closed : forall {A}, Queue A -> bool;
  rx_recv : forall {A}, Queue A -> option A * Queue A;
  rx_close : forall {A}, Queue A -> Queue A
}.

Inductive WaiterState := Idle | Queued | Granted.

(** What the facade relies on.  [unclaimed] counts the permits nobody has
    observed: the available ones and those granted to a waiter that has not
    been polled since. *)
Class LocalSyncSpec `{LocalSync} := {
  unclaimed : Semaphore -> Z;
  sem_closed : Semaphore -> bool;
  waiter_state : Semaphore -> Waiter -> WaiterState;
  contents : forall {A}, Queue A -> list A;
  new_spec n : 0 <= n -> unclaimed (Semaphore_new n) = n /\ sem_closed (Semaphore_new n) = false;
  available_le s : 0 <= available_permits s <= unclaimed s;
  try_acquire_none s : sem_try_acquire s = None <-> available_permits s = 0 \/ sem_closed s = true;
  try_acquire_some s s' : sem_try_acquire s = Some s' ->
    unclaimed s' = unclaimed s - 1 /\ sem_closed s' = sem_closed s /\
    (forall w, waiter_state s' w = waiter_state s w);
  acquire_spec s : unclaimed (acquire s).2 = unclaimed s /\
    sem_closed (acquire s).2 = sem_closed s /\
    (forall w, waiter_state (acquire s).2 w = waiter_state s w);
  poll_spec s w r s' : poll_acquire s w = (r, s') ->
    sem_closed s' = sem_closed s /\
    match r with
    | Ready (Ok _) => unclaimed s' = unclaimed s - 1 /\ waiter_state s' w = Idle
    | Ready (Err _) => unclaimed s' = unclaimed s /\ waiter_state s' w = Idle /\ sem_closed s = true
    | Pending => unclaimed s' = unclaimed s /\ waiter_state s' w = Queued /\ sem_closed s = false
    end;
  acquire_drop_spec s w : waiter_state s w <> Granted ->
    exists s', acquire_drop s w = Some s' /\ unclaimed s' = unclaimed s /\ sem_closed s' = sem_closed s;
  add_permits_spec s n : 0 <= n ->
    unclaimed (add_permits s n) = unclaimed s + n /\ sem_closed (add_permits s n) = sem_closed s /\
    (forall w, waiter_state s w = Idle -> waiter_state (add_permits s n) w = Idle);
  close_spec s : unclaimed (sem_close s) = unclaimed s /\ sem_closed (sem_close s) = true;
  queue_new_spec A : contents (@queue_new _ A) = [] /\ tx_is_closed (@queue_new _ A) = false;
  tx_send_spec A (q : Queue A) a : match tx_send q a with
    | Some q' => tx_is_closed q = false /\ contents q' = contents q ++ [a] /\ tx_is_closed q' = false
    | None => tx_is_closed q = true
    end;
  rx_recv_spec A (q : Queue A) : match rx_recv q with
    | (Some a, q') => contents q = a :: contents q' /\ tx_is_closed q' = tx_is_closed q
    | (None, q') => contents q = [] /\ contents q' = [] /\ tx_is_closed q' = tx_is_closed q
    end;
  rx_close_spec A (q : Queue A) : tx_is_closed (rx_close q) = true /\ contents (rx_close q) = contents q
}.

(** ** The channel *)

Definition EVENT_CHANNEL_CAPACITY : Z := 1024.
Definition COUNT_LOG_EVERY : Z := 100.

Definition should_log_count (total : Z) : bool :=
  (total =? 1) || ((0 <? total) && (total mod COUNT_LOG_EVERY =? 0)).

Inductive Admission := Enqueued | EnqueuedAfterHold | Dropped | ReceiverClosed | NoReplyTime.

#[export] Instance Admission_eq_dec : EqDecision Admission.
Proof. solve_decision. Defined.

(** The two log lines of the sender. *)
Inductive ChannelLog := WarnDropped (total : Z) | DebugClosed.

Section Channel.
Context `{LocalSync}.

(** [EventChannelState] together with the queue its two ends share; [logged]
    is what tracing has received. *)
Record EventChannel := {
  queue : Queue Publish;
  depth : Z;
  dropped : Z;
  room : Semaphore;
  logged : list ChannelLog
}.

Definition event_channel (total : Z) : EventChannel :=
  {| queue := queue_new; depth := 0; dropped := total;
     room := Semaphore_new EVENT_CHANNEL_CAPACITY; logged := [] |}.

Definition with_room (ch : EventChannel) (s : Semaphore) : EventChannel :=
  {| queue := queue ch; depth := depth ch; dropped := dropped ch; room := s; logged := logged ch |}.

Definition would_hold (ch : EventChannel) : bool :=
  negb (tx_is_closed (queue ch)) && (available_permits (room ch) =? 0).

Definition note_dropped (ch : EventChannel) : EventChannel :=
  let total := wrap64 (dropped ch + 1) in
  {| queue := queue ch; depth := depth ch; dropped := total; room := room ch;
     logged := if should_log_count total then logged ch ++ [WarnDropped total] else logged ch |}.

Definition note_closed (ch : EventChannel) : EventChannel :=
  {| queue := queue ch; depth := depth ch; dropped := dropped ch; room := room ch;
     logged := logged ch ++ [DebugClosed] |}.

Definition enqueue (ch : EventChannel) (publish : Publish) (admitted : Admission) :
    Admission * EventChannel :=
  match tx_send (queue ch) publish with
  | Some q =>
      (admitted, {| queue := q; depth := wrap64 (depth ch + 1); dropped := dropped ch;
                    room := room ch; logged := logged ch |})
  | None => (ReceiverClosed, note_closed (with_room ch (add_permits (room ch) 1)))
  end.

Definition offer_now (ch : EventChannel) (publish : Publish) :
    result Admission Publish * EventChannel :=
  if tx_is_closed (queue ch) then (Ok ReceiverClosed, note_closed ch)
  else match sem_try_acquire (room ch) with
       | Some s => let '(a, ch') := enqueue (with_room ch s) publish Enqueued in (Ok a, ch')
       | None => (Err publish, ch)
       end.

Record SlotWait := { waiter : Waiter; completed : bool; settled : bool }.

(** [Drop for SlotWait], then the drop of its [acquire] field; [None] is the
    panic of local-sync's [Acquire::drop]. *)
Definition SlotWait_drop (ch : EventChannel) (slot : SlotWait) : option EventChannel :=
  let ch1 :=
    if completed slot then ch
    else match poll_acquire (room ch) (waiter slot) with
         | (Ready (Ok _), s) => with_room ch (add_permits s 1)
         | (_, s) => with_room ch s
         end in
  let ch2 := if settled slot then ch1 else note_dropped ch1 in
  match acquire_drop (room ch2) (waiter slot) with
  | Some s => Some (with_room ch2 s)
  | None => None
  end.

(** [admit_with] up to its await: an outcome, or a wait for a slot. *)
Definition admit_begin (ch : EventChannel) (publish : Publish) (wait reply_by now : Z) :
    (Admission + SlotWait) * EventChannel :=
  if (reply_by <=? now) && negb (tx_is_closed (queue ch)) then (inl NoReplyTime, note_dropped ch)
  else match offer_now ch publish with
       | (Ok admission, ch1) => (inl admission, ch1)
       | (Err _, ch1) =>
           if wait =? 0 then (inl Dropped, note_dropped ch1)
           else let '(w, s) := acquire (room ch1) in
                (inr {| waiter := w; completed := false; settled := false |}, with_room ch1 s)
       end.

(** [admit_with] after its await; [granted] is [None] when the wait timed
    out.  The slot wait is dropped last on every path. *)
Definition admit_resume (ch : EventChannel) (publish : Publish) (reply_by now : Z)
    (slot : SlotWait) (granted : option (result unit AcquireError)) :
    Admission * option EventChannel :=
  match granted with
  | Some (Ok _) =>
      if reply_by <=? now then
        (NoReplyTime, SlotWait_drop (with_room ch (add_permits (room ch) 1))
                        {| waiter := waiter slot; completed := true; settled := settled slot |})
      else
        let '(a, ch') := enqueue ch publish EnqueuedAfterHold in
        (a, SlotWait_drop ch' {| waiter := waiter slot; completed := true; settled := true |})
  | Some (Err _) =>
      (ReceiverClosed, SlotWait_drop (note_closed ch)
                         {| waiter := waiter slot; completed := true; settled := true |})
  | None => (Dropped, SlotWait_drop ch slot)
  end.

(** [EventReceiver::recv], once an item or the end is there. *)
Definition recv (ch : EventChannel) : option Publish * EventChannel :=
  match rx_recv (queue ch) with
  | (Some item, q) =>
      (Some item, {| queue := q; depth := wrap64 (depth ch - 1); dropped := dropped ch;
                     room := add_permits (room ch) 1; logged := logged ch |})
  | (None, q) =>
      (None, {| queue := q; depth := depth ch; dropped := dropped ch; room := room ch;
                logged := logged ch |})
  end.

(** [Drop for EventReceiver]. *)
Definition EventReceiver_drop (ch : EventChannel) : EventChannel :=
  {| queue := rx_close (queue ch); depth := depth ch; dropped := dropped ch;
     room := sem_close (room ch); logged := logged ch |}.
End Channel.

(** ** Bookkeeping

    What an outcome does to the books of a channel: the publishes enqueued so
    far in order, the drop total and the totals warned about.  [None] is a
    wait whose future was dropped (a force-closed connection). *)

Definition Outcome : Type := option Admission.

Definition was_enqueued (o : Outcome) : bool :=
  match o with Some Enqueued | Some EnqueuedAfterHold => true | _ => false end.

Definition was_lost (o : Outcome) : bool :=
  match o with Some Dropped | Some NoReplyTime | None => true | _ => false end.

Definition warn_total (l : ChannelLog) : option Z :=
  match l with WarnDropped n => Some n | DebugClosed => None end.

Record Book := { entered : list Publish; lost : Z; warned : list Z }.

Definition book_after (b : Book) (o : Publish * Outcome) : Book :=
  if was_enqueued o.2 then {| entered := entered b ++ [o.1]; lost := lost b; warned := warned b |}
  else if was_lost o.2 then
    let total := wrap64 (lost b + 1) in
    {| entered := entered b; lost := total;
       warned := if should_log_count total then warned b ++ [total] else warned b |}
  else b.

Section Operations.
Context `{LocalSyncSpec}.

Definition book (delivered : list Publish) (ch : EventChannel) : Book :=
  {| entered := delivered ++ contents (queue ch); lost := dropped ch;
     warned := omap warn_total (logged ch) |}.

(** The channel's own consistency, [k] slots being held by whoever is about
    to use them and [alive] telling whether the receiver exists. *)
Record chan_ok (k : Z) (alive : bool) (ch : EventChannel) : Prop := {
  ok_depth : depth ch = Z.of_nat (length (contents (queue ch)));
  ok_slots : depth ch + unclaimed (room ch) + k = EVENT_CHANNEL_CAPACITY;
  ok_tx : tx_is_closed (queue ch) = negb alive;
  ok_sem : sem_closed (room ch) = negb alive
}.

Lemma chan_ok_depth k alive ch : 0 <= k -> chan_ok k alive ch ->
  0 <= depth ch <= EVENT_CHANNEL_CAPACITY - k.
Proof. intros Hk []. pose proof (available_le (room ch)). lia. Qed.

Lemma chan_ok_room k k' alive ch s :
  chan_ok k alive ch -> sem_closed s = sem_closed (room ch) ->
  unclaimed s + k' = unclaimed (room ch) + k -> chan_ok k' alive (with_room ch s).
Proof. intros [] Hc Hu. split; simpl; [done|lia|done|congruence]. Qed.

Lemma book_room d ch s : book d (with_room ch s) = book d ch.
Proof. done. Qed.

Lemma note_closed_ok k alive d ch :
  chan_ok k alive ch -> chan_ok k alive (note_closed ch) /\ book d (note_closed ch) = book d ch.
Proof.
  intros []. split; [by split|]. unfold book; simpl. by rewrite omap_app, app_nil_r.
Qed.

Lemma note_dropped_ok k alive d p o ch :
  was_lost o = true -> chan_ok k alive ch ->
  chan_ok k alive (note_dropped ch) /\ book d (note_dropped ch) = book_after (book d ch) (p, o).
Proof.
  intros Ho []. split; [by split|]. unfold book, book_after; simpl. rewrite Ho.
  replace (was_enqueued o) with false by (by destruct o as [[]|]).
  destruct (should_log_count _); simpl; [by rewrite omap_app|done].
Qed.

Lemma book_after_none b p o : was_enqueued o = false -> was_lost o = false -> book_after b (p, o) = b.
Proof. intros He Hl. unfold book_after; simpl. by rewrite He, Hl. Qed.

(** [enqueue] uses up the one slot held, or gives it back. *)
Lemma enqueue_ok alive d ch p a r ch' :
  was_enqueued (Some a) = true -> chan_ok 1 alive ch -> enqueue ch p a = (r, ch') ->
  chan_ok 0 alive ch' /\ book d ch' = book_after (book d ch) (p, Some r) /\
  r = (if alive then a else ReceiverClosed) /\
  (forall w, waiter_state (room ch) w = Idle -> waiter_state (room ch') w = Idle).
Proof.
  intros Ha Hok. pose proof (chan_ok_depth 1 alive ch ltac:(lia) Hok). destruct Hok. unfold enqueue.
  pose proof (tx_send_spec _ (queue ch) p) as Hs. pose proof (add_permits_spec (room ch) 1).
  destruct (tx_send (queue ch) p) as [q|]; intros; simplify_eq.
  - destruct Hs as (Hc & Hq & Hc'). rewrite ok_tx0 in Hc. destruct alive; [|done].
    unfold EVENT_CHANNEL_CAPACITY in *. split; [|split; [|done]].
    + split; cbn -[wrap]; rewrite ?wrap_small by lia;
        [|unfold EVENT_CHANNEL_CAPACITY; lia|done|done].
      rewrite Hq, length_app. simpl. lia.
    + unfold book, book_after; cbn [fst snd]. rewrite Ha. simpl. by rewrite Hq, app_assoc.
  - rewrite ok_tx0 in Hs. destruct alive; [done|].
    destruct (note_closed_ok 0 false d (with_room ch (add_permits (room ch) 1))) as [Hok' Hb].
    { eapply chan_ok_room; [by split|naive_solver lia..]. }
    split; [done|]. split; [by rewrite Hb, book_after_none|]. naive_solver lia.
Qed.

Lemma offer_now_ok alive d ch p r ch' :
  chan_ok 0 alive ch -> offer_now ch p = (r, ch') ->
  match r with
  | Ok a => chan_ok 0 alive ch' /\ book d ch' = book_after (book d ch) (p, Some a) /\
            a = (if alive then Enqueued else ReceiverClosed)
  | Err p' => p' = p /\ ch' = ch /\ alive = true
  end /\ (result_is_ok r = negb (would_hold ch)).
Proof.
  intros Hok. unfold offer_now, would_hold. rewrite (ok_tx _ _ _ Hok).
  destruct alive; simpl.
  - destruct (sem_try_acquire (room ch)) as [s|] eqn:Et.
    + destruct (try_acquire_some _ _ Et) as (Hu & Hc & _).
      destruct (enqueue (with_room ch s) p Enqueued) as [a ch1] eqn:Ee. intros; simplify_eq/=.
      eapply (enqueue_ok true d) in Ee as (? & ? & ? & _);
        [|done|by eapply chan_ok_room; [done|done|lia]].
      split; [done|]. symmetry. apply negb_true_iff, Z.eqb_neq. intros Hz.
      assert (sem_try_acquire (room ch) = None) by (apply try_acquire_none; by left). congruence.
    + intros; simplify_eq/=. split; [done|].
      apply try_acquire_none in Et as [->| Ec]; [done|]. by rewrite (ok_sem _ _ _ Hok) in Ec.
  - intros; simplify_eq. destruct (note_closed_ok 0 false d ch Hok) as [? Hb].
    split; [|done]. split; [done|]. by rewrite Hb, book_after_none.
Qed.

(** Dropping a slot wait never panics when it has just been polled to
    completion or is polled by the drop itself; unsettled, it counts. *)
Lemma SlotWait_drop_ok alive d ch p slot :
  chan_ok 0 alive ch -> (completed slot = true -> waiter_state (room ch) (waiter slot) = Idle) ->
  exists ch', SlotWait_drop ch slot = Some ch' /\ chan_ok 0 alive ch' /\
    book d ch' = (if settled slot then book d ch else book_after (book d ch) (p, None)).
Proof.
  intros Hok Hidle. unfold SlotWait_drop.
  set (ch1 := if completed slot then ch else _).
  assert (chan_ok 0 alive ch1 /\ book d ch1 = book d ch /\
          waiter_state (room ch1) (waiter slot) <> Granted) as (Hok1 & Hb1 & Hw).
  { subst ch1. destruct (completed slot); [by rewrite Hidle|].
    destruct (poll_acquire (room ch) (waiter slot)) as [r s] eqn:Ep.
    apply poll_spec in Ep as [Hc Hp].
    pose proof (add_permits_spec s 1 ltac:(lia)) as (Hau & Hac & Haw).
    destruct r as [[[]|[]]|]; simpl; rewrite book_room;
      (split; [eapply chan_ok_room; [done|congruence|lia]|]); (split; [done|]).
    - rewrite Haw by apply Hp. done.
    - by destruct Hp as (_ & -> & _).
    - by destruct Hp as (_ & -> & _). }
  clearbody ch1.
  assert (exists ch2, (if settled slot then ch1 else note_dropped ch1) = ch2 /\ chan_ok 0 alive ch2 /\
    room ch2 = room ch1 /\
    book d ch2 = (if settled slot then book d ch else book_after (book d ch) (p, None)))
    as (ch2 & -> & Hok2 & Hr & Hb2).
  { destruct (settled slot); [by eexists|]. rewrite <- Hb1. eexists. split; [done|].
    destruct (note_dropped_ok 0 alive d p None ch1) as [? ?]; done. }
  rewrite <- Hr in Hw. destruct (acquire_drop_spec _ _ Hw) as (s & -> & Hu & Hc).
  eexists. split; [done|]. split; [eapply chan_ok_room; [done|done|lia]|done].
Qed.

Lemma admit_begin_ok alive d ch p wait reply_by now r ch' :
  chan_ok 0 alive ch -> admit_begin ch p wait reply_by now = (r, ch') ->
  chan_ok 0 alive ch' /\
  match r with
  | inl a => book d ch' = book_after (book d ch) (p, Some a) /\ (alive = true -> a <> ReceiverClosed)
  | inr slot => book d ch' = book d ch /\ completed slot = false /\ settled slot = false
  end.
Proof.
  intros Hok. unfold admit_begin. destruct (_ && _).
  { intros; simplify_eq. destruct (note_dropped_ok 0 alive d p (Some NoReplyTime) ch); auto. }
  destruct (offer_now ch p) as [[a|p'] ch1] eqn:Eo; apply (offer_now_ok alive d) in Eo as [Ho _]; try done.
  { intros; simplify_eq. destruct Ho as (? & ? & ->). split_and!; [done..|]. by intros ->. }
  destruct Ho as (-> & -> & ->). destruct (wait =? 0).
  { intros; simplify_eq. destruct (note_dropped_ok 0 true d p (Some Dropped) ch); auto. }
  pose proof (acquire_spec (room ch)) as (Hu & Hc & _).
  destruct (acquire (room ch)) as [w s]. intros; simplify_eq/=.
  split; [eapply chan_ok_room; [done|done|lia]|done].
Qed.

(** The semaphore state in which [admit_resume] runs: a granted permit has
    been taken, and a wait that returned is no longer queued. *)
Definition resumable (ch : EventChannel) (slot : SlotWait)
    (granted : option (result unit AcquireError)) : Prop :=
  match granted with
  | Some r => waiter_state (room ch) (waiter slot) = Idle /\
              (result_is_ok r = false -> sem_closed (room ch) = true)
  | None => True
  end.

Definition held_by (granted : option (result unit AcquireError)) : Z :=
  match granted with Some (Ok _) => 1 | _ => 0 end.

Lemma admit_resume_ok alive d ch p reply_by now slot granted a o :
  completed slot = false -> settled slot = false ->
  chan_ok (held_by granted) alive ch -> resumable ch slot granted ->
  admit_resume ch p reply_by now slot granted = (a, o) ->
  (exists ch', o = Some ch' /\ chan_ok 0 alive ch' /\ book d ch' = book_after (book d ch) (p, Some a)) /\
  (alive = true -> a <> ReceiverClosed).
Proof.
  intros Hnc Hns Hok Hr. unfold admit_resume.
  destruct granted as [[[]|[]]|]; simpl in *; [destruct Hr as [Hr _]|destruct Hr as [Hr Hcl]|].
  - pose proof (add_permits_spec (room ch) 1 ltac:(lia)) as (Hau & Hac & Haw).
    destruct (reply_by <=? now).
    + intros; simplify_eq. edestruct (SlotWait_drop_ok alive d) as (ch' & -> & Hok' & Hb).
      { eapply chan_ok_room; [done..|lia]. }
      { intros _. simpl. by apply Haw. }
      split; [|done]. exists ch'. split; [done|]. split; [done|]. simpl in Hb. by rewrite Hb, Hns.
    + destruct (enqueue ch p EnqueuedAfterHold) as [a' ch1] eqn:Ee. intros; simplify_eq.
      eapply (enqueue_ok alive d) in Ee as (Hok1 & Hb1 & Ha & Hw); [|done..].
      edestruct (SlotWait_drop_ok alive d) as (ch' & -> & Hok' & Hb); [done|by intros _; apply Hw|].
      split; [|by intros ->; rewrite Ha]. exists ch'. simpl in Hb. by rewrite Hb.
  - intros; simplify_eq. destruct (note_closed_ok 0 alive d ch) as [Hok1 Hb1]; [done|].
    edestruct (SlotWait_drop_ok alive d) as (ch' & -> & Hok' & Hb); [done|done|].
    split; [exists ch'; simpl in Hb; by rewrite Hb, Hb1, book_after_none|].
    intros ->. rewrite (ok_sem _ _ _ Hok) in Hcl. by specialize (Hcl eq_refl).
  - intros; simplify_eq. edestruct (SlotWait_drop_ok alive d ch) as (ch' & -> & Hok' & Hb); [done|congruence|].
    split; [|done]. exists ch'. rewrite Hns in Hb. by rewrite Hb.
  Unshelve. all: exact p.
Qed.

Lemma recv_ok alive d ch r ch' :
  chan_ok 0 alive ch -> recv ch = (r, ch') ->
  chan_ok 0 alive ch' /\ book (d ++ option_list r) ch' = book d ch /\ (r = None -> contents (queue ch) = []).
Proof.
  intros Hok. pose proof (chan_ok_depth 0 alive ch ltac:(lia) Hok) as Hd. destruct Hok. unfold recv.
  pose proof (rx_recv_spec _ (queue ch)) as Hr. destruct (rx_recv (queue ch)) as [[item|] q];
    intros; simplify_eq/=; unfold book; simpl.
  - destruct Hr as [Hc Ht]. pose proof (add_permits_spec (room ch) 1 ltac:(lia)) as (Hau & Hac & _).
    rewrite Hc in ok_depth0 |- *. simpl in ok_depth0. unfold EVENT_CHANNEL_CAPACITY in Hd.
    split; [|by rewrite <- app_assoc].
    split; cbn -[wrap]; rewrite ?wrap_small by lia; [lia|lia|congruence|congruence].
  - destruct Hr as (Hc & Hq & Ht). rewrite Hc, Hq in *. rewrite !app_nil_r.
    split; [|done]. split; simpl; rewrite ?Hq; congruence.
Qed.

Lemma EventReceiver_drop_ok d ch :
  chan_ok 0 true ch -> chan_ok 0 false (EventReceiver_drop ch) /\ book d (EventReceiver_drop ch) = book d ch.
Proof.
  intros []. pose proof (close_spec (room ch)) as [? ?].
  pose proof (rx_close_spec _ (queue ch)) as [? Hc]. unfold book; simpl. rewrite Hc.
  split; [|done]. split; simpl; [by rewrite Hc|lia|done|done].
Qed.

Lemma event_channel_ok total : chan_ok 0 true (event_channel total) /\
  book [] (event_channel total) = {| entered := []; lost := total; warned := [] |}.
Proof.
  pose proof (new_spec EVENT_CHANNEL_CAPACITY ltac:(done)) as [? ?].
  pose proof (queue_new_spec Publish) as [Hq ?]. unfold book; simpl. rewrite Hq.
  split; [|done]. split; simpl; [by rewrite Hq|lia|done|done].
Qed.
End Operations.

(** ** Interleaving

    The connections of a worker and its event processor run on one thread:
    between two awaits nothing else happens.  A state holds the channel, the
    waits in progress, the outcome of every publish offered so far and the
    publishes the receiver took out. *)

Section Interleaving.
Context `{LocalSync}.

Record Hold := { h_publish : Publish; h_reply_by : Z; h_slot : SlotWait }.

Record Running := {
  ch : EventChannel;
  holds : list Hold;
  outcomes : list (Publish * Outcome);
  received : list Publish;
  rx_alive : bool
}.

Inductive Sys := Run (s : Running) | Panicked.

(** A wait ends with an outcome and a channel, or with a panic. *)
Definition finish (s : Running) (rest : list Hold) (p : Publish) (o : Outcome)
    (ch' : option EventChannel) : Sys :=
  match ch' with
  | Some c => Run {| ch := c; holds := rest; outcomes := outcomes s ++ [(p, o)];
                     received := received s; rx_alive := rx_alive s |}
  | None => Panicked
  end.

Inductive chan_step : Sys -> Sys -> Prop :=
| step_offer s p wait reply_by now a c :
    admit_begin (ch s) p wait reply_by now = (inl a, c) ->
    chan_step (Run s) (finish s (holds s) p (Some a) (Some c))
| step_hold s p wait reply_by now slot c :
    admit_begin (ch s) p wait reply_by now = (inr slot, c) ->
    chan_step (Run s) (Run {| ch := c;
      holds := holds s ++ [{| h_publish := p; h_reply_by := reply_by; h_slot := slot |}];
      outcomes := outcomes s; received := received s; rx_alive := rx_alive s |})
| step_poll_pending s l1 h l2 sem :
    holds s = l1 ++ h :: l2 ->
    poll_acquire (room (ch s)) (waiter (h_slot h)) = (Pending, sem) ->
    chan_step (Run s) (Run {| ch := with_room (ch s) sem; holds := holds s;
      outcomes := outcomes s; received := received s; rx_alive := rx_alive s |})
| step_poll_ready s l1 h l2 r sem now a o :
    holds s = l1 ++ h :: l2 ->
    poll_acquire (room (ch s)) (waiter (h_slot h)) = (Ready r, sem) ->
    admit_resume (with_room (ch s) sem) (h_publish h) (h_reply_by h) now (h_slot h) (Some r) = (a, o) ->
    chan_step (Run s) (finish s (l1 ++ l2) (h_publish h) (Some a) o)
| step_timeout s l1 h l2 now a o :
    holds s = l1 ++ h :: l2 ->
    admit_resume (ch s) (h_publish h) (h_reply_by h) now (h_slot h) None = (a, o) ->
    chan_step (Run s) (finish s (l1 ++ l2) (h_publish h) (Some a) o)
| step_abandon s l1 h l2 :
    holds s = l1 ++ h :: l2 ->
    chan_step (Run s) (finish s (l1 ++ l2) (h_publish h) None (SlotWait_drop (ch s) (h_slot h)))
| step_recv s p c :
    rx_alive s = true -> recv (ch s) = (Some p, c) ->
    chan_step (Run s) (Run {| ch := c; holds := holds s; outcomes := outcomes s;
      received := received s ++ [p]; rx_alive := true |})
| step_receiver_drop s :
    rx_alive s = true ->
    chan_step (Run s) (Run {| ch := EventReceiver_drop (ch s); holds := holds s; outcomes := outcomes s;
      received := received s; rx_alive := false |}).

Definition chan_init (total : Z) : Sys :=
  Run {| ch := event_channel total; holds := []; outcomes := []; received := []; rx_alive := true |}.

Definition chan_reachable (total : Z) (s : Sys) : Prop := rtc chan_step (chan_init total) s.
End Interleaving.

Section Invariant.
Context `{LocalSyncSpec}.

Definition books (total : Z) (os : list (Publish * Outcome)) : Book :=
  foldl book_after {| entered := []; lost := total; warned := [] |} os.

Definition hold_ok (h : Hold) : Prop := completed (h_slot h) = false /\ settled (h_slot h) = false.

Definition not_closed (o : Publish * Outcome) : Prop := o.2 <> Some ReceiverClosed.

(** The invariant: the channel is consistent and its books are the ones the
    outcomes add up to. *)
Definition sys_ok (total : Z) (s : Sys) : Prop :=
  match s with
  | Panicked => False
  | Run s => chan_ok 0 (rx_alive s) (ch s) /\ Forall hold_ok (holds s) /\
             book (received s) (ch s) = books total (outcomes s) /\
             (rx_alive s = true -> Forall not_closed (outcomes s))
  end.

Lemma books_snoc total os o : books total (os ++ [o]) = book_after (books total os) o.
Proof. unfold books. by rewrite foldl_app. Qed.

Lemma finish_ok total s rest p o ch' :
  sys_ok total (Run s) -> Forall hold_ok rest ->
  (exists c, ch' = Some c /\ chan_ok 0 (rx_alive s) c /\
     book (received s) c = book_after (book (received s) (ch s)) (p, o)) /\
  (rx_alive s = true -> o <> Some ReceiverClosed) ->
  sys_ok total (finish s rest p o ch').
Proof.
  intros (Hok & _ & Hb & Hn) Hr ((c & -> & Hc & Hbc) & Ho). simpl. rewrite books_snoc, <- Hb.
  split_and!; [done..|]. intros Ha. apply Forall_app. split; [auto|]. repeat constructor. by apply Ho.
Qed.

Lemma holds_split s l1 h l2 :
  Forall hold_ok (holds s) -> holds s = l1 ++ h :: l2 -> hold_ok h /\ Forall hold_ok (l1 ++ l2).
Proof. intros Hf He. rewrite He in Hf. decompose_Forall. split; [done|]. by apply Forall_app. Qed.

Lemma chan_step_ok total s s' : sys_ok total s -> chan_step s s' -> sys_ok total s'.
Proof.
  intros Hs Hstep. destruct Hstep; pose proof Hs as (Hok & Hh & Hb & Hn).
  - eapply finish_ok; [done..|]. eapply (admit_begin_ok _ (received s)) in H1 as (? & ? & Ha); [|done].
    split; [by eexists|]. naive_solver.
  - eapply (admit_begin_ok _ (received s)) in H1 as (? & Hb' & ? & ?); [|done]. simpl.
    rewrite Hb'. split_and!; [done| |done|done]. apply Forall_app. split; [done|]. by repeat constructor.
  - apply poll_spec in H2 as (Hc & Hu & _). simpl. rewrite book_room.
    split; [eapply chan_ok_room; [done|done|lia]|done].
  - destruct (holds_split _ _ _ _ Hh H1) as [[? ?] ?]. apply poll_spec in H2 as (Hc & Hp).
    eapply finish_ok; [done..|]. eapply admit_resume_ok in H3 as [Hx Ha]; [|done|done|..].
    + split; [exact Hx|]. naive_solver.
    + eapply chan_ok_room; [done|done|]. destruct r as [[]|[]]; simpl; lia.
    + simpl. rewrite Hc. destruct r as [[]|[]]; naive_solver.
  - destruct (holds_split _ _ _ _ Hh H1) as [[? ?] ?]. eapply finish_ok; [done..|].
    eapply admit_resume_ok in H2 as [Hx Ha]; [split; [exact Hx|naive_solver]|done..].
  - destruct (holds_split _ _ _ _ Hh H1) as [[Hnc Hns] ?]. eapply finish_ok; [done..|].
    destruct (SlotWait_drop_ok (rx_alive s) (received s) (ch s) (h_publish h) (h_slot h))
      as (c & -> & ? & Hbc); [done|congruence|]. rewrite Hns in Hbc. split; [by exists c|done].
  - rewrite H1 in Hok. eapply (recv_ok true (received s)) in H2 as (? & Hb' & _); [|done].
    simpl in *. rewrite Hb'. auto.
  - rewrite H1 in Hok. destruct (EventReceiver_drop_ok (received s) (ch s) Hok) as [? Hb'].
    simpl in *. by rewrite Hb'.
Qed.

Lemma chan_reachable_ok total s : chan_reachable total s -> sys_ok total s.
Proof.
  unfold chan_reachable. intros Hr. remember (chan_init total) as s0.
  assert (sys_ok total s0) as H0'; [|clear Heqs0].
  { subst s0. simpl. destruct (event_channel_ok total) as [? ->]. done. }
  induction Hr; [done|]. eauto using chan_step_ok.
Qed.

Definition enqueued_of (os : list (Publish * Outcome)) : list Publish :=
  (filter (fun o => was_enqueued o.2) os).*1.
Definition lost_of (os : list (Publish * Outcome)) : list (Publish * Outcome) :=
  filter (fun o => was_lost o.2) os.

Lemma books_entered total os : entered (books total os) = enqueued_of os.
Proof.
  induction os as [|[p o] os IH] using rev_ind; [done|]. rewrite books_snoc.
  unfold book_after, enqueued_of; cbn [fst snd]. rewrite filter_app, fmap_app.
  destruct o as [[]|]; simpl; rewrite ?app_nil_r; [by rewrite IH|by rewrite IH|done..].
Qed.

Lemma filter_singleton_log n :
  filter (fun n => should_log_count n) [n] = if should_log_count n then [n] else [].
Proof. unfold filter; simpl. by destruct (should_log_count n). Qed.

Lemma books_lost total os : u64 total ->
  lost (books total os) = wrap64 (total + Z.of_nat (length (lost_of os))) /\
  warned (books total os) =
    filter (fun n => should_log_count n) ((fun i => wrap64 (total + Z.of_nat i)) <$> seq 1 (length (lost_of os))).
Proof.
  intros Ht. induction os as [|[p o] os [IHl IHw]] using rev_ind.
  { simpl. split; [|done]. unfold u_range in Ht. rewrite wrap_small by lia. lia. }
  rewrite books_snoc. unfold lost_of in *. rewrite filter_app, length_app.
  assert (wrap64 (lost (books total os) + 1) =
    wrap64 (total + Z.of_nat (length (filter (fun o : Publish * Outcome => was_lost o.2) os) + 1))) as Hw.
  { rewrite IHl. unfold wrap. rewrite Zplus_mod_idemp_l. f_equal. lia. }
  unfold book_after; cbn [fst snd]. destruct o as [[]|]; simpl;
    rewrite ?Nat.add_0_r; [done|done| |done| |];
    (split; [done|]); rewrite Hw, seq_app, fmap_app, filter_app, IHw;
    cbn [seq fmap list_fmap]; rewrite filter_singleton_log, Nat.add_comm;
    by destruct (should_log_count _); rewrite ?app_nil_r.
Qed.
End Invariant.

Section Claims.
Context `{LocalSyncSpec}.

(** (C9) Whatever the interleaving of offers, holds, wake-ups, timeouts,
    abandoned connections and receives, the channel never panics, its depth
    counter is the queue's length and never exceeds the capacity, every slot
    is either used or on offer, and the publishes received followed by those
    queued are exactly the enqueued ones, in the order they were enqueued:
    nothing is lost, duplicated or reordered after an [Enqueued] answer. *)
Theorem channel_bounded_fifo total s :
  chan_reachable total s ->
  exists r, s = Run r /\
    depth (ch r) = Z.of_nat (length (contents (queue (ch r)))) /\
    0 <= depth (ch r) <= EVENT_CHANNEL_CAPACITY /\
    depth (ch r) + unclaimed (room (ch r)) = EVENT_CHANNEL_CAPACITY /\
    received r ++ contents (queue (ch r)) = enqueued_of (outcomes r).
Proof.
  intros Hr. apply chan_reachable_ok in Hr. destruct s as [r|]; [|done]. exists r.
  destruct Hr as (Hok & _ & Hb & _). pose proof (chan_ok_depth 0 _ _ ltac:(lia) Hok).
  destruct Hok. split_and!; [done|done|lia|lia|lia|].
  apply (f_equal entered) in Hb. by rewrite books_entered in Hb.
Qed.

(** The drop counter is exact: it is the initial total plus one for
    every publish dropped, refused for want of reply time or abandoned in
    mid-wait, and for no other, modulo the width of the counter; the totals
    warned about are exactly those on the log cadence; and while the
    receiver lives every publish offered was enqueued or counted. *)
Theorem channel_accounting total r :
  u64 total -> chan_reachable total (Run r) ->
  let n := length (lost_of (outcomes r)) in
  dropped (ch r) = wrap64 (total + Z.of_nat n) /\
  omap warn_total (logged (ch r)) =
    filter (fun k => should_log_count k) ((fun i => wrap64 (total + Z.of_nat i)) <$> seq 1 n) /\
  (rx_alive r = true ->
    (length (enqueued_of (outcomes r)) + n)%nat = length (outcomes r)).
Proof.
  intros Ht Hr n. apply chan_reachable_ok in Hr as (_ & _ & Hb & Hn).
  destruct (books_lost total (outcomes r) Ht) as [Hl Hw]. rewrite <- Hb in Hl, Hw.
  split_and!; [done..|]. intros Ha. specialize (Hn Ha). subst n. unfold enqueued_of, lost_of.
  clear -Hn. induction Hn as [|[p o] os Ho Hos IH]; [done|].
  rewrite length_fmap in *. rewrite !filter_cons. simpl.
  unfold not_closed in Ho; simpl in Ho. destruct o as [[]|]; simpl; naive_solver lia.
Qed.

(** [would_hold] is exact in every reachable state: an offer made now,
    with reply time left, waits or is dropped when it answers [true], and is
    settled at once (enqueued, or reported as closed) when it answers
    [false].  The packet loop's decision to flush before an offer rests on
    it. *)
Theorem would_hold_exact total r p wait reply_by now :
  chan_reachable total (Run r) -> now < reply_by ->
  (admit_begin (ch r) p wait reply_by now).1 =
    (if would_hold (ch r) then
       if wait =? 0 then inl Dropped
       else inr {| waiter := (acquire (room (ch r))).1; completed := false; settled := false |}
     else inl (if rx_alive r then Enqueued else ReceiverClosed)).
Proof.
  intros Hr Hlt. apply chan_reachable_ok in Hr as (Hok & _). unfold admit_begin.
  replace (reply_by <=? now) with false by (symmetry; apply Z.leb_gt; lia). simpl.
  destruct (offer_now (ch r) p) as [o c] eqn:Eo.
  apply (offer_now_ok (rx_alive r) (received r)) in Eo as [Ho Hh]; [|done].
  destruct o as [a|p']; simpl in Hh.
  - symmetry in Hh. apply negb_true_iff in Hh as ->. by destruct Ho as (_ & _ & ->).
  - symmetry in Hh. apply negb_false_iff in Hh as ->. destruct Ho as (-> & -> & _).
    destruct (wait =? 0); [done|]. by destruct (acquire (room (ch r))).
Qed.
End Claims.

(** ** A fair semaphore and a queue

    A concrete [LocalSync]: waiters are served in the order they queued, and a
    permit added while somebody waits is granted to the first of them. *)

Module FifoSync.
Record Sem := { avail : nat; granted : gset nat; waiting : list nat; next : nat; closed : bool }.

Definition remove (w : nat) (l : list nat) : list nat := filter (fun x => x <> w) l.

Definition poll (s : Sem) (w : nat) : Poll (result unit AcquireError) * Sem :=
  if bool_decide (w ∈ granted s) then
    (Ready (Ok tt), {| avail := avail s; granted := granted s ∖ {[w]}; waiting := remove w (waiting s);
                       next := next s; closed := closed s |})
  else if closed s then
    (Ready (Err AcquireError_), {| avail := avail s; granted := granted s; waiting := remove w (waiting s);
                                   next := next s; closed := closed s |})
  else match avail s with
  | S n =>
      (Ready (Ok tt), {| avail := n; granted := granted s; waiting := remove w (waiting s);
                         next := next s; closed := closed s |})
  | O =>
      (Pending, {| avail := O; granted := granted s; waiting := remove w (waiting s) ++ [w];
                   next := next s; closed := closed s |})
  end.

Definition add_one (s : Sem) : Sem :=
  match waiting s with
  | w :: ws =>
      if bool_decide (w ∈ granted s) then
        {| avail := S (avail s); granted := granted s; waiting := ws; next := next s; closed := closed s |}
      else
        {| avail := avail s; granted := granted s ∪ {[w]}; waiting := ws; next := next s; closed := closed s |}
  | [] => {| avail := S (avail s); granted := granted s; waiting := []; next := next s; closed := closed s |}
  end.

#[export] Instance ops : LocalSync := {|
  Semaphore := Sem;
  Waiter := nat;
  Semaphore_new n := {| avail := Z.to_nat n; granted := ∅; waiting := []; next := 0; closed := false |};
  available_permits s := Z.of_nat (avail s);
  sem_try_acquire s :=
    match avail s with
    | S n => if closed s then None
             else Some {| avail := n; granted := granted s; waiting := waiting s; next := next s;
                          closed := closed s |}
    | O => None
    end;
  acquire s := (next s, {| avail := avail s; granted := granted s; waiting := waiting s;
                           next := S (next s); closed := closed s |});
  poll_acquire := poll;
  acquire_drop s w :=
    if bool_decide (w ∈ granted s) then None
    else Some {| avail := avail s; granted := granted s; waiting := remove w (waiting s); next := next s;
                 closed := closed s |};
  add_permits s n := Nat.iter (Z.to_nat n) add_one s;
  sem_close s := {| avail := avail s; granted := granted s; waiting := waiting s; next := next s;
                    closed := true |};
  Queue A := (list A * bool)%type;
  queue_new A := ([], false);
  tx_send A q a := if q.2 then None else Some (q.1 ++ [a], false);
  tx_is_closed A q := q.2;
  rx_recv A q := match q.1 with [] => (None, q) | a :: l => (Some a, (l, q.2)) end;
  rx_close A q := (q.1, true)
|}.

Definition unclaimed (s : Sem) : Z := Z.of_nat (avail s + size (granted s)).

Definition state (s : Sem) (w : nat) : WaiterState :=
  if bool_decide (w ∈ granted s) then Granted
  else if bool_decide (w ∈ waiting s) then Queued else Idle.

Lemma not_in_remove w l : w ∉ remove w l.
Proof. unfold remove. rewrite list_elem_of_filter. tauto. Qed.

Lemma add_one_spec s :
  unclaimed (add_one s) = unclaimed s + 1 /\ closed (add_one s) = closed s /\
  (forall w, state s w = Idle -> state (add_one s) w = Idle).
Proof.
  unfold add_one, unclaimed, state. destruct (waiting s) as [|w ws] eqn:Ew; simpl.
  { split; [lia|]. done. }
  case_bool_decide as Hg; simpl.
  - split; [lia|]. split; [done|]. intros w'. repeat case_bool_decide; set_solver.
  - split; [rewrite size_union, size_singleton by set_solver; lia|]. split; [done|].
    intros w'. repeat case_bool_decide; set_solver.
Qed.

Lemma add_permits_ok s n : 0 <= n ->
  unclaimed (add_permits s n) = unclaimed s + n /\ closed (add_permits s n) = closed s /\
  (forall w, state s w = Idle -> state (add_permits s n) w = Idle).
Proof.
  intros Hn. simpl. rewrite <- (Z2Nat.id n) at 2 by done. induction (Z.to_nat n) as [|k IH].
  { simpl. split; [lia|done]. }
  destruct IH as (Hu & Hc & Hw). cbn [Nat.iter nat_rect].
  destruct (add_one_spec (Nat.iter k add_one s)) as (Hu' & Hc' & Hw').
  split; [rewrite Nat2Z.inj_succ; unfold Nat.iter in *; lia|]. split; [by rewrite <- Hc|]. auto.
Qed.

Lemma poll_ok s w r s' : poll s w = (r, s') ->
  closed s' = closed s /\
  match r with
  | Ready (Ok _) => unclaimed s' = unclaimed s - 1 /\ state s' w = Idle
  | Ready (Err _) => unclaimed s' = unclaimed s /\ state s' w = Idle /\ closed s = true
  | Pending => unclaimed s' = unclaimed s /\ state s' w = Queued /\ closed s = false
  end.
Proof.
  unfold poll, unclaimed, state. pose proof (not_in_remove w (waiting s)) as Hr.
  case_bool_decide as Hg; [|destruct (closed s) eqn:Ec; [|destruct (avail s) as [|n] eqn:Ea]];
    intros; simplify_eq/=.
  - assert (size (granted s) <> 0%nat) by (intros Hz; apply size_empty_inv in Hz; set_solver).
    split; [done|]. rewrite size_difference, size_singleton by set_solver.
    split; [lia|]. by rewrite !bool_decide_false by set_solver.
  - split; [done|]. by rewrite !bool_decide_false by set_solver.
  - split; [done|]. by rewrite bool_decide_false, bool_decide_true by set_solver.
  - split; [done|]. rewrite !bool_decide_false by set_solver. split; [lia|done].
Qed.

#[export] Instance spec : LocalSyncSpec.
Proof.
  refine {| Channel.unclaimed := unclaimed : @Semaphore ops -> Z;
            sem_closed := closed : @Semaphore ops -> bool;
            waiter_state := state : @Semaphore ops -> @Waiter ops -> WaiterState;
            contents A := fst : @Queue ops A -> list A;
            poll_spec := poll_ok; add_permits_spec := add_permits_ok |}; simpl.
  - intros n Hn. unfold unclaimed. cbn [avail granted]. rewrite size_empty. split; [lia|done].
  - intros s. unfold unclaimed. lia.
  - intros s. destruct (avail s), (closed s); simpl; naive_solver lia.
  - intros s s'. destruct (avail s) eqn:Ea, (closed s) eqn:Ec; intros; simplify_eq/=.
    unfold unclaimed; simpl. rewrite Ea. split; [lia|done].
  - done.
  - intros s w. unfold state. case_bool_decide as Hg; [done|]. intros _. eexists. done.
  - done.
  - done.
  - intros A [l c] a. by destruct c.
  - intros A [[|a l] c]; done.
  - done.
Defined.
End FifoSync.

(** ** Witnesses *)

Section Witnesses.
#[local] Existing Instances FifoSync.ops FifoSync.spec.

Definition telemetry (b : Z) : Publish := Publish_new "t" [b] BAtMostOnce false.

(** One publish offered, held publishes aside: enqueued, received. *)
Definition sample_run : Running :=
  {| ch := (recv (admit_begin (event_channel 0) (telemetry 1) 5 10 0).2).2;
     holds := []; outcomes := [(telemetry 1, Some Enqueued)]; received := [telemetry 1];
     rx_alive := true |}.

Lemma channel_bounded_fifo_witness :
  chan_reachable 0 (Run sample_run) /\
  exists r, Run sample_run = Run r /\ depth (ch r) = 0 /\
    received r ++ contents (queue (ch r)) = enqueued_of (outcomes r).
Proof.
  assert (chan_reachable 0 (Run sample_run)) as Hr.
  { eapply rtc_l; [eapply (step_offer _ (telemetry 1) 5 10 0); reflexivity|].
    eapply rtc_l; [eapply (step_recv _ (telemetry 1)); reflexivity|]. apply rtc_refl. }
  split; [exact Hr|]. destruct (channel_bounded_fifo 0 _ Hr) as (r & Hs & _ & _ & _ & Hf).
  exists r. injection Hs as <-. split_and!; [reflexivity|reflexivity|exact Hf].
Defined.

(** A publish that arrives with its reply time already over. *)
Definition late_run : Running :=
  {| ch := note_dropped (event_channel 0); holds := []; outcomes := [(telemetry 1, Some NoReplyTime)];
     received := []; rx_alive := true |}.

Lemma late_reachable : chan_reachable 0 (Run late_run).
Proof.
  eapply rtc_l; [eapply (step_offer _ (telemetry 1) 5 10 10); reflexivity|]. apply rtc_refl.
Qed.

Lemma channel_accounting_witness :
  dropped (ch late_run) = 1 /\ omap warn_total (logged (ch late_run)) = [1].
Proof.
  destruct (channel_accounting 0 late_run) as (Hd & Hw & _);
    [unfold u_range; lia|exact late_reachable|]. split; [exact Hd|exact Hw].
Defined.

Lemma would_hold_exact_witness :
  (admit_begin (ch late_run) (telemetry 2) 5 10 0).1 = inl Enqueued.
Proof. apply (would_hold_exact 0 late_run (telemetry 2) 5 10 0 late_reachable). lia. Defined.
End Witnesses.
