(* ===== verification/Runtime.v ===== *)
(** * The runtime seam and the session monad

    src/broker/runtime.rs abstracts the async runtime behind the traits
    [Timer], [HandshakeIo] and [PacketIo]; here they are the class [Runtime]
    over an abstract world that holds the transport, the clock, the buffers
    and the worker's event channel.  The other tasks of the worker run inside
    the awaited operations, which may therefore change the channel; what they
    may do to it is the class [RuntimeSpec].

    A session is a state monad over the world and the trace of what it did;
    panics and the end of the fuel are values of [Exec].  [triple] is its
    program logic. *)

From S2P Require Import Prelude FixedHeader Rmqtt Errors Api Channel.

(** ** Events *)

Abbreviation io_result A := (result A IoError).

(** What a session does, in order.  [t] is the clock when the operation starts
    and [d] the duration given to [Timer::timeout]; [None] as a result is
    [TimedOut].  A read also records whether a whole packet was buffered when
    it started and the clock when it returned. *)
Inductive Event :=
| EvVersion (t d : Z) (r : option (option (io_result ProtocolVersion)))
| EvRead (t d : Z) (buffered : bool) (r : option (option (io_result (MqttPacket * Z)))) (t' : Z)
| EvSend (t d : Z) (p : MqttPacket) (r : option (io_result unit))
| EvFlush (t d : Z) (r : option (io_result unit))
| EvWait (t d : Z)
| EvAdmit (p : Publish) (a : Admission)
| EvDebug (line : string)
| EvWarn (line : string).

(** ** The world *)

Class Runtime `{LocalSync} := {
  World : Type;
  now : World -> Z;
  (** The clock may move between two readings. *)
  tick : World -> World;
  next_version : Z -> World -> option (option (io_result ProtocolVersion)) * World;
  into_packets : ProtocolVersion -> MaxInboundPacketSize -> World -> World;
  next_packet : Z -> World -> option (option (io_result (MqttPacket * Z))) * World;
  send_packet : Z -> MqttPacket -> World -> option (io_result unit) * World;
  flush_io : Z -> World -> option (io_result unit) * World;
  read_buffer : World -> list Z;
  write_buffer : World -> list Z;
  version : World -> ProtocolVersion;
  channel : World -> EventChannel;
  set_channel : EventChannel -> World -> World;
  (** The await on [room.acquire()] under [Timer::timeout]. *)
  wait_slot : Z -> Waiter -> World -> option (result unit AcquireError) * World
}.

(** ** The monad *)

Inductive Exec (A : Type) := Done (a : A) | Panic | OutOfFuel.
Arguments Done {A} a.
Arguments Panic {A}.
Arguments OutOfFuel {A}.

Section Monad.
Context `{Runtime}.

Record Sess := { world : World; trace : list Event }.

Definition M (A : Type) : Type := Sess -> Exec A * Sess.

Definition ret {A} (a : A) : M A := fun s => (Done a, s).

Definition bind {A B} (m : M A) (k : A -> M B) : M B := fun s =>
  match m s with
  | (Done a, s') => k a s'
  | (Panic, s') => (Panic, s')
  | (OutOfFuel, s') => (OutOfFuel, s')
  end.

(** Rust's [?] on a [Result]-returning call. *)
Definition try_ {A B E} (m : M (result A E)) (k : A -> M (result B E)) : M (result B E) :=
  bind m (fun r => match r with Ok a => k a | Err e => ret (Err e) end).

Definition emit (e : Event) : M unit := fun s =>
  (Done tt, {| world := world s; trace := trace s ++ [e] |}).
Definition debug (line : string) : M unit := emit (EvDebug line).
Definition warn (line : string) : M unit := emit (EvWarn line).

(** Look at the world, or replace it without waiting. *)
Definition peek {A} (f : World -> A) : M A := fun s => (Done (f (world s)), s).
Definition put_channel (c : EventChannel) : M unit := fun s =>
  (Done tt, {| world := set_channel c (world s); trace := trace s |}).

Definition Instant_now : M Z := fun s =>
  let w := tick (world s) in (Done (now w), {| world := w; trace := trace s |}).

(** An awaited operation of the world, with the event it leaves. *)
Definition perform {A} (op : World -> A * World) (ev : World -> A -> World -> Event) : M A := fun s =>
  let '(r, w') := op (world s) in
  (Done r, {| world := w'; trace := trace s ++ [ev (world s) r w'] |}).

(** A future is run under the time it has left; [None] is [TimedOut]. *)
Definition Fut (A : Type) : Type := Z -> M (option A).
Definition timeout {A} (d : Z) (f : Fut A) : M (option A) := f d.

(** Two futures under one timer: the second gets what the first left. *)
Definition fut_bind {A B} (f : Fut A) (k : A -> Fut B) : Fut B := fun d =>
  bind (peek now) (fun t0 => bind (f d) (fun r =>
    match r with
    | None => ret None
    | Some a => bind (peek now) (fun t1 => k a (sat_sub d (t1 - t0)))
    end)).
Definition fut_ret {A} (a : A) : Fut A := fun _ => ret (Some a).

Definition fut_next_version : Fut (option (io_result ProtocolVersion)) := fun d =>
  perform (next_version d) (fun w r _ => EvVersion (now w) d r).
Definition fut_next_packet : Fut (option (io_result (MqttPacket * Z))) := fun d =>
  perform (next_packet d)
    (fun w r w' => EvRead (now w) d (holds_complete_packet (read_buffer w)) r (now w')).
Definition fut_send (p : MqttPacket) : Fut (io_result unit) := fun d =>
  perform (send_packet d p) (fun w r _ => EvSend (now w) d p r).
Definition fut_flush : Fut (io_result unit) := fun d =>
  perform (flush_io d) (fun w r _ => EvFlush (now w) d r).
Definition fut_wait_slot (slot : Waiter) : Fut (result unit AcquireError) := fun d =>
  perform (wait_slot d slot) (fun w _ _ => EvWait (now w) d).

Definition enter_packets (v : ProtocolVersion) (m : MaxInboundPacketSize) : M unit := fun s =>
  (Done tt, {| world := into_packets v m (world s); trace := trace s |}).
End Monad.

Notation "'let!' x ':=' m 'in' k" := (bind m (fun x => k))
  (at level 10, x pattern, m at level 100, k at level 200) : uring_scope.
Notation "'do!' m 'in' k" := (bind m (fun _ => k))
  (at level 10, m at level 100, k at level 200) : uring_scope.
Notation "'let!?' x ':=' m 'in' k" := (try_ m (fun x => k))
  (at level 10, x pattern, m at level 100, k at level 200) : uring_scope.

(** ** What the world promises

    Time does not run backwards, the protocol version is fixed once the codec
    is chosen, and the other tasks of the worker use the event channel only
    through its own operations ([chan_ok], which every step of [Channel]
    keeps).  A read that starts with a whole packet buffered answers without
    yielding, so nobody else touches the channel. *)

Section Laws.
Context `{Runtime} `{!LocalSyncSpec}.

Definition chan_good (w : World) : Prop := exists alive, chan_ok 0 alive (channel w).

(** An awaited packet operation. *)
Record advances (w w' : World) : Prop := {
  adv_now : now w <= now w';
  adv_version : version w' = version w;
  adv_chan : chan_good w -> chan_good w'
}.

Definition matches_version (v : ProtocolVersion) (p : MqttPacket) : Prop :=
  match p with V3 _ => v = MQTT3 | V5 _ => v = MQTT5 | Version _ => True end.
End Laws.

Class RuntimeSpec `{Runtime} `{!LocalSyncSpec} := {
  tick_now w : now w <= now (tick w);
  tick_frame w : version (tick w) = version w /\ channel (tick w) = channel w /\
    read_buffer (tick w) = read_buffer w;
  set_channel_frame c w : now (set_channel c w) = now w /\ version (set_channel c w) = version w /\
    channel (set_channel c w) = c;
  into_packets_spec v m w : version (into_packets v m w) = v /\ now (into_packets v m w) = now w /\
    channel (into_packets v m w) = channel w;
  next_version_spec d w r w' : next_version d w = (r, w') -> now w <= now w' /\ (chan_good w -> chan_good w');
  next_packet_spec d w r w' : next_packet d w = (r, w') -> advances w w';
  next_packet_buffered d w r w' : next_packet d w = (r, w') ->
    holds_complete_packet (read_buffer w) = true -> channel w' = channel w;
  next_packet_version d w p n w' : next_packet d w = (Some (Some (Ok (p, n))), w') ->
    matches_version (version w) p;
  send_spec d p w r w' : send_packet d p w = (r, w') -> advances w w';
  flush_spec d w r w' : flush_io d w = (r, w') -> advances w w';
  wait_slot_spec d slot w r w' : wait_slot d (waiter slot) w = (r, w') -> chan_good w ->
    now w <= now w' /\ version w' = version w /\
    exists alive, chan_ok (held_by r) alive (channel w') /\ resumable (channel w') slot r
}.

(** ** Program logic *)

Section Logic.
Context `{Runtime}.

(** [wp m Q s]: run from [s], [m] does not panic, and if it ends within its
    fuel then in [Q]. *)
Definition wp {A} (m : M A) (Q : A -> Sess -> Prop) (s : Sess) : Prop :=
  match m s with
  | (Done a, s') => Q a s'
  | (Panic, _) => False
  | (OutOfFuel, _) => True
  end.

Definition add (s : Sess) (w : World) (e : Event) : Sess := {| world := w; trace := trace s ++ [e] |}.
Definition at_world (s : Sess) (w : World) : Sess := {| world := w; trace := trace s |}.

Lemma wp_bind {A B} (m : M A) (k : A -> M B) Q s :
  wp m (fun a s' => wp (k a) Q s') s -> wp (bind m k) Q s.
Proof. unfold wp, bind. by destruct (m s) as [[] ?]. Qed.

Lemma wp_ret {A} (a : A) Q s : Q a s -> wp (ret a) Q s.
Proof. done. Qed.

Lemma wp_mono {A} (m : M A) (Q Q' : A -> Sess -> Prop) s :
  wp m Q s -> (forall a s', Q a s' -> Q' a s') -> wp m Q' s.
Proof. unfold wp. destruct (m s) as [[] ?]; eauto. Qed.

Lemma wp_emit e Q s : Q tt (add s (world s) e) -> wp (emit e) Q s.
Proof. done. Qed.

Lemma wp_peek {A} (f : World -> A) Q s : Q (f (world s)) s -> wp (peek f) Q s.
Proof. done. Qed.

Lemma wp_now Q s : Q (now (tick (world s))) (at_world s (tick (world s))) -> wp Instant_now Q s.
Proof. done. Qed.

Lemma wp_put_channel c Q s : Q tt (at_world s (set_channel c (world s))) -> wp (put_channel c) Q s.
Proof. done. Qed.

Lemma wp_enter v m Q s : Q tt (at_world s (into_packets v m (world s))) -> wp (enter_packets v m) Q s.
Proof. done. Qed.

Lemma wp_perform {A} (op : World -> A * World) ev Q s :
  (forall r w', op (world s) = (r, w') -> Q r (add s w' (ev (world s) r w'))) -> wp (perform op ev) Q s.
Proof. intros HQ. unfold wp, perform. destruct (op (world s)) as [r w'] eqn:E. by apply HQ. Qed.

Lemma wp_if {A} (b : bool) (m1 m2 : M A) Q s :
  (b = true -> wp m1 Q s) -> (b = false -> wp m2 Q s) -> wp (if b then m1 else m2) Q s.
Proof. destruct b; auto. Qed.
End Logic.

(** Symbolic execution of the steps that do not wait. *)
Ltac wp_step :=
  first [ apply wp_bind | apply wp_emit | apply wp_peek | apply wp_now | apply wp_put_channel
        | apply wp_ret ].
Ltac wp_steps := repeat (wp_step; cbn beta).

(** ** Traces

    [trk] summarises a trace: when the oldest reply still in the write buffer
    was encoded, whether a write has failed, when the last packet was read,
    what the client and the callback could observe, the warnings, whether a
    flush has succeeded (the first is that of the CONNACK, and opens the packet
    loop), and whether the session has waited for a slot. *)

Inductive Obs :=
| ORead (p : MqttPacket)
| OOffer (p : Publish) (a : Admission)
| OSend (p : MqttPacket).

Record Track := {
  pend : option Z; fail : bool; last_read : Z; obs : list Obs; warns : list string; greeted : bool; waited : bool
}.

Definition track (k : Track) (e : Event) : Track :=
  match e with
  | EvRead _ _ _ (Some (Some (Ok (p, _)))) t' =>
      {| pend := pend k; fail := fail k; last_read := t'; obs := obs k ++ [ORead p]; warns := warns k;
         greeted := greeted k; waited := waited k |}
  | EvSend t _ p (Some (Ok _)) =>
      {| pend := Some (default t (pend k)); fail := fail k; last_read := last_read k;
         obs := obs k ++ [OSend p]; warns := warns k; greeted := greeted k; waited := waited k |}
  | EvFlush _ _ (Some (Ok _)) =>
      {| pend := None; fail := fail k; last_read := last_read k; obs := obs k; warns := warns k;
         greeted := true; waited := waited k |}
  | EvSend _ _ _ _ | EvFlush _ _ _ =>
      {| pend := pend k; fail := true; last_read := last_read k; obs := obs k; warns := warns k;
         greeted := greeted k; waited := waited k |}
  | EvWait _ _ =>
      {| pend := pend k; fail := fail k; last_read := last_read k; obs := obs k; warns := warns k;
         greeted := greeted k; waited := true |}
  | EvAdmit p a =>
      {| pend := pend k; fail := fail k; last_read := last_read k; obs := obs k ++ [OOffer p a];
         warns := warns k; greeted := greeted k; waited := waited k |}
  | EvWarn l =>
      {| pend := pend k; fail := fail k; last_read := last_read k; obs := obs k; warns := warns k ++ [l];
         greeted := greeted k; waited := waited k |}
  | _ => k
  end.

Definition track0 : Track :=
  {| pend := None; fail := false; last_read := 0; obs := []; warns := []; greeted := false; waited := false |}.
Definition trk (t : list Event) : Track := foldl track track0 t.

(** What was shown stays, and so do the two flags. *)
Lemma track_grows k e :
  (exists o, obs (track k e) = obs k ++ o) /\ (greeted k = true -> greeted (track k e) = true) /\
  (waited (track k e) = false -> waited k = false).
Proof.
  destruct e as [|? ? ? [[[[p n]|]|]|] ?|? ? ? [[|]|]|? ? [[|]|]| | | |]; simpl;
    (split; [first [by eexists|by exists []; rewrite app_nil_r]|done]).
Qed.

Lemma trk_snoc t e : trk (t ++ [e]) = track (trk t) e.
Proof. unfold trk. by rewrite foldl_app. Qed.

(** Every event after [base] is allowed by what came before it. *)
Inductive good (ok : Track -> Event -> Prop) (base : list Event) : list Event -> Prop :=
| good_base : good ok base base
| good_snoc t e : good ok base t -> ok (trk t) e -> good ok base (t ++ [e]).

Lemma good_prefix ok base t : good ok base t -> exists ext, t = base ++ ext.
Proof.
  induction 1 as [|t e _ [ext ->] _]; [exists []; by rewrite app_nil_r|].
  exists (ext ++ [e]). by rewrite app_assoc.
Qed.

Lemma good_at ok base t t1 e t2 :
  good ok base t -> t = base ++ t1 ++ e :: t2 -> ok (trk (base ++ t1)) e.
Proof.
  intros Hg. revert t2. induction Hg as [|t e' Hg IH Hok]; intros t2 He.
  { apply (f_equal length) in He. rewrite !length_app in He. simpl in He. lia. }
  destruct t2 as [|e2 t2 _] using rev_ind.
  - rewrite app_assoc in He. apply app_inj_tail in He as [-> ->]. done.
  - apply (IH t2). rewrite !app_assoc, app_comm_cons, app_assoc in He.
    apply app_inj_tail in He as [-> _]. by rewrite !app_assoc.
Qed.

Lemma good_trans ok base t t' : good ok base t -> good ok t t' -> good ok base t'.
Proof. intros Hb. induction 1; [done|]. by constructor. Qed.

Lemma good_mono (ok ok' : Track -> Event -> Prop) base t :
  (forall k e, ok k e -> ok' k e) -> good ok base t -> good ok' base t.
Proof. intros Hm. induction 1; [constructor|]. constructor; auto. Qed.

Lemma good_grows ok base t : good ok base t ->
  (exists o, obs (trk t) = obs (trk base) ++ o) /\ (greeted (trk base) = true -> greeted (trk t) = true).
Proof.
  induction 1 as [|t e _ [[o Ho] Hg] _]; [split; [exists []; by rewrite app_nil_r|done]|]. rewrite trk_snoc.
  destruct (track_grows (trk t) e) as [[o' Ho'] [Hg' _]]. split; [|auto]. exists (o ++ o'). by rewrite Ho', Ho, app_assoc.
Qed.
