(* ===== verification/Session.v ===== *)
(** * The session: handshake, packet loop and replies

    src/broker/handler.rs in the monad of [Runtime], with
    [EventSender::admit_with] of src/broker/worker.rs, which is async and so
    lives here.  A function that takes [unflushed] by reference takes it as an
    argument and returns it; a log line is its fixed text, without the peer
    address and the error it interpolates. *)

From S2P Require Import Prelude FixedHeader Rmqtt Errors Decoder Packet Handshake Api Channel Runtime.
Open Scope uring_scope.

Inductive SessionOutcome := Served | Refused | ViolationOutcome.

#[export] Instance SessionOutcome_eq_dec : EqDecision SessionOutcome.
Proof. solve_decision. Defined.

Definition WRITE_BACKPRESSURE_BOUNDARY : Z := 8 * 1024.
Definition TIMEOUT_CTX_CONNACK_FLUSH : string := "handshake timeout during CONNACK flush".
Definition TIMEOUT_CTX_DISCONNECT_FLUSH : string := "idle timeout during DISCONNECT flush".
Definition INGEST_REPLY_RESERVE : Z := from_secs 1.
Definition IDLE_TIMEOUT_LINE : string := "client idle timeout".

Inductive IngestStep := Continue (held : bool) | IdleTimeout.

Record UnflushedReplies := { flush_by : Z; queued_context : string }.

Section Session.
Context `{RmqttCodec} `{Runtime}.

(** [instant.elapsed()]. *)
Definition elapsed_since (instant : Z) : M Z :=
  let! t := Instant_now in ret (elapsed t instant).

(** ** Admission *)

(** After the wait for a slot: the clock is read again only with a slot in
    hand. *)
Definition admit_waited (publish : Publish) (reply_by : Z) (slot : SlotWait)
    (granted : option (result unit AcquireError)) : M Admission :=
  let! t := (match granted with Some (Ok _) => Instant_now | _ => peek now end) in
  let! c := peek channel in
  let '(admission, dropped_slot) := admit_resume c publish reply_by t slot granted in
  match dropped_slot with
  | Some c => do! put_channel c in do! emit (EvAdmit publish admission) in ret admission
  | None => fun s => (Panic, s)
  end.

Definition admit_with (publish : Publish) (wait reply_by : Z) : M Admission :=
  let! t := Instant_now in
  let! c := peek channel in
  let '(begun, c) := admit_begin c publish wait reply_by t in
  do! put_channel c in
  match begun with
  | inl admission => do! emit (EvAdmit publish admission) in ret admission
  | inr slot =>
      let! granted := timeout wait (fut_wait_slot (waiter slot)) in
      admit_waited publish reply_by slot granted
  end.

Definition deliver_publish (publish : CodecPublish) (idle_left ingest_deadline : Z) : M IngestStep :=
  do! debug "PUBLISH" in
  let! t := Instant_now in
  let reply_by := t + idle_left in
  let idle_wait := sat_sub idle_left INGEST_REPLY_RESERVE in
  let wait := Z.min ingest_deadline idle_wait in
  let! admission := admit_with (from_codec publish) wait reply_by in
  ret (match admission with
       | NoReplyTime => IdleTimeout
       | Dropped => if idle_wait <? ingest_deadline then IdleTimeout else Continue (negb (wait =? 0))
       | EnqueuedAfterHold => Continue true
       | Enqueued | ReceiverClosed => Continue false
       end).

(** ** Writing *)

Definition flush_replies (unflushed : option UnflushedReplies) :
    M (result unit Error * option UnflushedReplies) :=
  match unflushed with
  | None => ret (Ok tt, None)
  | Some queued =>
      let! t := Instant_now in
      let left := sat_sub (flush_by queued) t in
      if left =? 0 then do! debug (queued_context queued) in ret (Err Timeout, None)
      else
        let! flushed := timeout left fut_flush in
        match flushed with
        | Some (Ok _) => ret (Ok tt, None)
        | Some (Err e) => ret (Err (Io e), None)
        | None => do! debug (queued_context queued) in ret (Err Timeout, None)
        end
  end.

Definition queue_reply (unflushed : option UnflushedReplies) (pkt : MqttPacket) (deadline : Z)
    (timeout_context : string) : M (result unit Error * option UnflushedReplies) :=
  let! t := Instant_now in
  let by_ := t + deadline in
  let! wb := peek write_buffer in
  let! (room_made, unflushed) :=
    if WRITE_BACKPRESSURE_BOUNDARY <=? Z.of_nat (length wb) then flush_replies unflushed
    else ret (Ok tt, unflushed) in
  match room_made with
  | Err e => ret (Err e, unflushed)
  | Ok _ =>
      let! t := Instant_now in
      let left := sat_sub by_ t in
      let! sent := timeout left (fut_send pkt) in
      match sent with
      | Some (Ok _) =>
          ret (Ok tt, Some (default {| flush_by := by_; queued_context := timeout_context |} unflushed))
      | Some (Err e) => ret (Err (Io e), None)
      | None => do! debug timeout_context in ret (Err Timeout, None)
      end
  end.

Definition bounded_send (pkt : MqttPacket) (deadline : Z) (timeout_context : string) :
    M (result unit Error) :=
  let send_fut := fut_bind (fut_send pkt) (fun sent =>
    match sent with Ok _ => fut_flush | Err e => fut_ret (Err e) end) in
  let! written := timeout deadline send_fut in
  match written with
  | Some (Ok _) => ret (Ok tt)
  | Some (Err e) => ret (Err (Io e))
  | None => do! debug timeout_context in ret (Err Timeout)
  end.

Definition log_violation_close_write_error (err : Error) : M unit :=
  match err with
  | Timeout => ret tt
  | _ => if is_routine_disconnect err then debug "violation close write failed"
         else warn "violation close write failed"
  end.

Definition close_with_violation (unflushed : option UnflushedReplies) (violation : Violation)
    (deadline : Z) (max_packet_size : option Z) : M SessionOutcome :=
  do! warn (reason violation) in
  let! v := peek version in
  let! (queued, unflushed) :=
    match disconnect violation v max_packet_size with
    | Some pkt => queue_reply unflushed pkt deadline TIMEOUT_CTX_DISCONNECT_FLUSH
    | None => ret (Ok tt, unflushed)
    end in
  let! (flushed, _) := flush_replies unflushed in
  do! (match (match queued with Ok _ => flushed | Err e => Err e end) with
       | Err err => log_violation_close_write_error err
       | Ok _ => ret tt
       end) in
  ret ViolationOutcome.

(** ** The packet loop *)

Record LoopState := {
  conn : ConnectionState;
  awaiting : AwaitingRelease;
  hold_debt : bool;
  unflushed : option UnflushedReplies
}.

(** Go round again, or leave the loop with a result. *)
Definition LoopNext : Type := LoopState + result SessionOutcome Error.

Definition leave (outcome : SessionOutcome) : M LoopNext := ret (inr (Ok outcome)).
Definition leave_idle : M LoopNext := do! debug IDLE_TIMEOUT_LINE in leave Served.

Section Loop.
Context (idle_timeout : Z) (max_packet_size : option Z) (ingest_deadline : Z).

Definition idle_left (st : LoopState) : M Z :=
  let! e := elapsed_since (cs_last_packet_time (conn st)) in ret (sat_sub idle_timeout e).

Definition violation_close (st : LoopState) (violation : Violation) (reply_deadline : Z) : M LoopNext :=
  let! outcome := close_with_violation (unflushed st) violation reply_deadline max_packet_size in
  leave outcome.

(** The [Violation] arms: idle expiry wins. *)
Definition on_violation (st : LoopState) (violation : Violation) : M LoopNext :=
  let! reply_deadline := idle_left st in
  if reply_deadline =? 0 then leave_idle else violation_close st violation reply_deadline.

(** After the per-arm effect: the reply the packet owes, if any. *)
Definition settle_reply (st : LoopState) (owed_reply : option Reply) : M LoopNext :=
  let! reply_deadline := idle_left st in
  if reply_deadline =? 0 then leave_idle
  else match owed_reply with
  | None => ret (inl st)
  | Some reply =>
      let! v := peek version in
      match reply_over_max_packet_size reply v max_packet_size with
      | Some violation => violation_close st violation reply_deadline
      | None =>
          let! (queued, u) :=
            queue_reply (unflushed st) (render reply v) reply_deadline (timeout_context reply) in
          match queued with
          | Err e => ret (inr (Err e))
          | Ok _ => ret (inl {| conn := conn st; awaiting := awaiting st;
                                hold_debt := hold_debt st; unflushed := u |})
          end
      end
  end.

Definition deliver_then (st : LoopState) (publish : CodecPublish) (owed_reply : option Reply) :
    M LoopNext :=
  let! budget := idle_left st in
  let! step := deliver_publish publish budget ingest_deadline in
  match step with
  | Continue held =>
      settle_reply {| conn := conn st; awaiting := awaiting st; hold_debt := hold_debt st || held;
                      unflushed := unflushed st |} owed_reply
  | IdleTimeout => leave_idle
  end.

Definition on_packet (st : LoopState) (read_starts_fresh : bool) (packet : MqttPacket) : M LoopNext :=
  let! st :=
    if negb (hold_debt st) || read_starts_fresh then
      let! t := Instant_now in
      ret {| conn := update_activity (conn st) t; awaiting := awaiting st; hold_debt := false;
             unflushed := unflushed st |}
    else ret st in
  let '(disposition, a) := dispatch packet (awaiting st) in
  let st := {| conn := conn st; awaiting := a; hold_debt := hold_debt st; unflushed := unflushed st |} in
  match disposition with
  | Deliver publish => deliver_then st publish None
  | DeliverThenReply publish reply => deliver_then st publish (Some reply)
  | ReplyWith reply => settle_reply st (Some reply)
  | Close =>
      do! debug "Client requested disconnect" in
      let! (flushed, _) := flush_replies (unflushed st) in
      match flushed with Err e => ret (inr (Err e)) | Ok _ => leave Served end
  | ViolationClose violation => on_violation st violation
  end.

Definition on_read_error (st : LoopState) (e : IoError) : M LoopNext :=
  match classify_read_error e with
  | Some violation => on_violation st violation
  | None =>
      let err := Io e in
      if is_truncated_packet err then
        do! warn "client closed the connection mid-packet" in ret (inr (Err err))
      else do! debug "Packet error" in leave Served
  end.

Definition packet_loop_step (st : LoopState) : M LoopNext :=
  let! must_flush := peek (fun w =>
    negb (holds_complete_packet (read_buffer w)) || would_hold (channel w)) in
  let! (flushed, u) :=
    if must_flush then flush_replies (unflushed st) else ret (Ok tt, unflushed st) in
  match flushed with
  | Err e => ret (inr (Err e))
  | Ok _ =>
      let st := {| conn := conn st; awaiting := awaiting st; hold_debt := hold_debt st;
                   unflushed := u |} in
      let! read_starts_fresh := peek (fun w => bool_decide (read_buffer w = [])) in
      let! remaining_idle := idle_left st in
      let! packet_result := timeout remaining_idle fut_next_packet in
      match packet_result with
      | Some (Some (Ok (packet, _))) => on_packet st read_starts_fresh packet
      | Some (Some (Err e)) => on_read_error st e
      | Some None => do! debug "Client closed connection" in leave Served
      | None => leave_idle
      end
  end.

Definition run_packet_loop (fuel : nat) (state : ConnectionState) : M (result SessionOutcome Error) :=
  fun s =>
    match loop (fun x : LoopState * Sess =>
             match packet_loop_step x.1 x.2 with
             | (Done (inl st), s') => inl (st, s')
             | (Done (inr r), s') => inr (Done r, s')
             | (Panic, s') => inr (Panic, s')
             | (OutOfFuel, s') => inr (OutOfFuel, s')
             end) fuel
           ({| conn := state; awaiting := AwaitingRelease_default; hold_debt := false;
               unflushed := None |}, s) with
    | Some r => r
    | None => (OutOfFuel, s)
    end.
End Loop.

(** ** The handshake *)

Definition log_handshake_transport_error (err : Error) : M unit :=
  if is_routine_disconnect err then debug "client disconnected during handshake"
  else warn "handshake transport error".

Section Handshake.
Context (handshake_start budget : Z) (max_inbound_packet_size : MaxInboundPacketSize).

Definition remaining : M Z :=
  let! e := elapsed_since handshake_start in ret (sat_sub budget e).

(** A CONNACK under the handshake budget, then the end of the session. *)
Definition send_connack (connack : MqttPacket) : M (result unit Error) :=
  let! d := remaining in bounded_send connack d TIMEOUT_CTX_CONNACK_FLUSH.

Definition refuse_with (connack : MqttPacket) : M (result SessionOutcome Error) :=
  let!? _ := send_connack connack in ret (Ok Refused).

(** Phase 1: [inr] ends the session. *)
Definition detect_version : M (ProtocolVersion + result SessionOutcome Error) :=
  let! d := remaining in
  let! detected := timeout d fut_next_version in
  match detected with
  | Some (Some (Ok v)) => ret (inl v)
  | Some (Some (Err e)) =>
      match downcast_decode e with
      | Some MaxSizeExceeded =>
          do! warn "handshake violation: first packet exceeds the inbound packet-size bound" in
          ret (inr (Err (Io e)))
      | Some UnsupportedProtocolLevel =>
          do! warn "CONNECT refused: unsupported protocol level" in
          do! enter_packets MQTT3 max_inbound_packet_size in
          let! r := refuse_with (V3 (V3_ConnectAck
            {| v3_return_code := UnacceptableProtocolVersion; v3_session_present := false |})) in
          ret (inr r)
      | Some _ =>
          do! warn "handshake violation: first packet was not CONNECT" in
          ret (inr (Err (Io e)))
      | None => do! log_handshake_transport_error (Io e) in ret (inr (Err (Io e)))
      end
  | Some None => ret (inr (Err ClientClosed))
  | None => do! debug "handshake timeout during version detect" in ret (inr (Err Timeout))
  end.

Definition invalid_client_id_refusal (v : ProtocolVersion) : MqttPacket :=
  match v with
  | MQTT3 => V3 (V3_ConnectAck
      {| v3_return_code := IdentifierRejected; v3_session_present := false |})
  | MQTT5 => V5 (V5_ConnectAck
      (honest_v5_connack V5_ClientIdentifierNotValid max_inbound_packet_size))
  end.

(** Phase 3. *)
Definition read_connect (v : ProtocolVersion) : M (MqttPacket + result SessionOutcome Error) :=
  let! d := remaining in
  let! packet := timeout d fut_next_packet in
  match packet with
  | Some (Some (Ok (p, _))) => ret (inl p)
  | Some (Some (Err e)) =>
      match downcast_decode e with
      | Some InvalidClientId =>
          do! warn "CONNECT refused: invalid client id" in
          let! r := refuse_with (invalid_client_id_refusal v) in ret (inr r)
      | Some _ => do! warn "handshake violation: malformed CONNECT" in ret (inr (Err (Io e)))
      | None => do! log_handshake_transport_error (Io e) in ret (inr (Err (Io e)))
      end
  | Some None => ret (inr (Err ClientClosed))
  | None => do! debug "handshake timeout during CONNECT read" in ret (inr (Err Timeout))
  end.

(** Phase 4, the decision: [connect_received_at] anchors the idle window. *)
Definition act_on_decision (fuel : nat) (decision : ConnectDecision) (state : ConnectionState)
    (connect_received_at ingest_deadline : Z) : M (result SessionOutcome Error) :=
  match decision with
  | NotConnect =>
      do! warn "handshake violation: first packet was not CONNECT" in
      ret (Err (Protocol "first packet was not CONNECT"))
  | Refuse connack sendable =>
      do! warn "CONNECT refused" in
      if sendable then refuse_with connack
      else do! debug "refusal CONNACK withheld: over the client's maximum packet size" in
           ret (Ok Refused)
  | RefusePersistentSession =>
      do! warn "CONNECT refused: persistent session requested (v3 CleanSession=0)" in
      ret (Ok Refused)
  | Accept connack client_id keep_alive_secs idle_timeout max_packet_size =>
      let!? _ := send_connack connack in
      run_packet_loop idle_timeout max_packet_size ingest_deadline fuel
        {| cs_client_id := client_id; cs_keep_alive := keep_alive_secs;
           cs_last_packet_time := connect_received_at |}
  end.
End Handshake.

Definition serve_session (fuel : nat) (peer_addr : string) (connection_timeout_secs idle_timeout_secs : Z)
    (max_inbound_packet_size : MaxInboundPacketSize) (ingest_deadline : Z) :
    M (result SessionOutcome Error) :=
  let! t := Instant_now in
  let state := ConnectionState_new t in
  let! handshake_start := Instant_now in
  let budget := from_secs (Z.min connection_timeout_secs MAX_TIMEOUT_SECS) in
  let! detected := detect_version handshake_start budget max_inbound_packet_size in
  match detected with
  | inr r => ret r
  | inl v =>
      do! debug "Detected protocol version" in
      do! enter_packets v max_inbound_packet_size in
      let! read := read_connect handshake_start budget max_inbound_packet_size v in
      match read with
      | inr r => ret r
      | inl packet =>
          let! connect_received_at := Instant_now in
          let decision := evaluate_connect packet idle_timeout_secs peer_addr max_inbound_packet_size in
          act_on_decision handshake_start budget fuel decision state connect_received_at ingest_deadline
      end
  end.

(** [handle_client]: [peer_addr] is the answer of [stream.peer_addr()], and
    the world is the monoio transport of [handle_client_io]. *)
Definition handle_client (fuel : nat) (peer_addr : io_result string)
    (connection_timeout_secs idle_timeout_secs : Z)
    (max_inbound_packet_size : MaxInboundPacketSize) (ingest_deadline : Z) :
    M (result SessionOutcome Error) :=
  match peer_addr with
  | Err e => ret (Err (Io e))
  | Ok peer_addr =>
      serve_session fuel peer_addr connection_timeout_secs idle_timeout_secs max_inbound_packet_size
        ingest_deadline
  end.
End Session.
