(* ===== verification/SessionSafety.v ===== *)
(** * What a session does to its client and to the callback

    The packet loop of [Session] against the program logic of [Runtime].  Every
    event of the loop is allowed by what came before it ([safe]), and what the
    client and the callback observe is the fold of [dispatch] over the packets
    read ([transcript], [final]). *)

From S2P Require Import Prelude FixedHeader Rmqtt Errors Decoder Packet Handshake Api Channel Runtime Session.
Open Scope uring_scope.

Section LoopSafety.
Context `{RmqttCodec} `{RuntimeSpec}.
Context (idle_timeout : Z) (max_packet_size : option Z) (ingest_deadline : Z).
Context (v : ProtocolVersion) (base : list Event).
Hypothesis Hidle : 0 <= idle_timeout.
Hypothesis Hingest : 0 <= ingest_deadline.

(** Code between two awaits takes no time. *)
Definition instantaneous : Prop := forall w, now (tick w) = now w.

Definition is_disconnect (p : MqttPacket) : Prop := exists c, p = V5 (V5_Disconnect c).

(** A packet the loop may write: a reply or a DISCONNECT, within the limit. *)
Definition writable (p : MqttPacket) : Prop :=
  ((exists r, p = render r v) \/ is_disconnect p) /\ packet_fits v max_packet_size p.

Definition due_by (k : Track) (t d : Z) : Prop :=
  d <= idle_timeout /\ (instantaneous -> d = 0 \/ t + d <= last_read k + idle_timeout).

Definition safe (k : Track) (e : Event) : Prop :=
  match e with
  | EvVersion _ _ _ => False
  | EvRead t d buffered _ _ => fail k = false /\ (buffered = false -> pend k = None) /\ due_by k t d /\
      (instantaneous -> waited k = false -> d = sat_sub (last_read k + idle_timeout) t)
  | EvSend t d p _ => fail k = false /\ writable p /\ due_by k t d
  | EvFlush t d _ => fail k = false /\ 0 < d /\ due_by k t d /\
      exists queued_at, pend k = Some queued_at /\ t + d <= queued_at + idle_timeout
  | EvWait t d => fail k = false /\ pend k = None /\ 0 < d <= ingest_deadline /\ due_by k t (d + INGEST_REPLY_RESERVE)
  | EvAdmit _ _ => fail k = false
  | EvDebug _ | EvWarn _ => True
  end.

(** What the trace remembers lies in the past. *)
Definition clock_ok (k : Track) (t : Z) : Prop :=
  last_read k <= t /\ forall queued_at, pend k = Some queued_at -> queued_at <= t.

Record Inv (s : Sess) : Prop := {
  i_chan : chan_good (world s);
  i_version : version (world s) = v;
  i_good : good safe base (trace s);
  i_clock : clock_ok (trk (trace s)) (now (world s))
}.

Definition due (u : option UnflushedReplies) (k : Track) : Prop :=
  match u with
  | None => pend k = None
  | Some q => exists queued_at, pend k = Some queued_at /\ flush_by q <= queued_at + idle_timeout /\
      (instantaneous -> flush_by q <= last_read k + idle_timeout)
  end.

(** No write has failed and [u] describes the write buffer. *)
Definition live (u : option UnflushedReplies) (s : Sess) : Prop :=
  fail (trk (trace s)) = false /\ due u (trk (trace s)).

(** [s'] is later, and shows what [s] shows plus [o]. *)
Definition shows (s s' : Sess) (o : list Obs) : Prop :=
  now (world s) <= now (world s') /\
  obs (trk (trace s')) = obs (trk (trace s)) ++ o /\
  warns (trk (trace s')) = warns (trk (trace s)) /\
  last_read (trk (trace s')) = last_read (trk (trace s)) /\
  (waited (trk (trace s')) = false -> waited (trk (trace s)) = false).

Lemma shows_refl s : shows s s [].
Proof. unfold shows. rewrite app_nil_r. split_and!; done || lia. Qed.

Lemma shows_trans s1 s2 s3 o1 o2 : shows s1 s2 o1 -> shows s2 s3 o2 -> shows s1 s3 (o1 ++ o2).
Proof.
  intros (Hn & Ho & Hw & Hl & Hd) (Hn' & Ho' & Hw' & Hl' & Hd').
  split; [lia|]. split; [by rewrite Ho', Ho, app_assoc|]. split; [congruence|]. split; [congruence|auto].
Qed.

(** ** Steps that do not wait *)

(** The clock was read: nothing else has changed. *)
Record ticked (s s1 : Sess) : Prop := {
  t_trace : trace s1 = trace s;
  t_version : version (world s1) = version (world s);
  t_chan : channel (world s1) = channel (world s);
  t_buf : read_buffer (world s1) = read_buffer (world s);
  t_now : now (world s) <= now (world s1);
  t_inst : instantaneous -> now (world s1) = now (world s)
}.

Lemma clock_ok_le k t t' : clock_ok k t -> t <= t' -> clock_ok k t'.
Proof. intros [? Hp] Hle. split; [lia|]. intros q Hq. specialize (Hp q Hq). lia. Qed.

(** Starting at [t] and ending at [t'], an event keeps the trace in the past. *)
Lemma track_clock k e t t' :
  clock_ok k t -> t <= t' ->
  match e with
  | EvRead _ _ _ _ t1 => t1 = t'
  | EvSend t0 _ _ _ => t0 = t
  | _ => True
  end -> clock_ok (track k e) t'.
Proof.
  intros [Hl Hp] Hle He.
  assert (clock_ok k t') as Hk by (apply (clock_ok_le _ t); [by split|done]). clear Hl.
  destruct Hk as [Hl Hq].
  destruct e as [| ? ? ? [[[[p n]|]|]|] t1 | t0 ? ? [[|]|] | ? ? [[|]|] | | | |];
    (split; [simpl in *; lia|]); try exact Hq.
  - intros q [= <-]. simpl in He. destruct (pend k) as [q'|]; simpl; [by apply Hq|lia].
  - done.
Qed.

Lemma wp_clock s (Q : Z -> Sess -> Prop) :
  Inv s -> (forall s1, Inv s1 -> ticked s s1 -> Q (now (world s1)) s1) -> wp Instant_now Q s.
Proof.
  intros [] HQ. apply wp_now. pose proof (tick_now (world s)).
  destruct (tick_frame (world s)) as (Hv & Hc & Hb).
  apply (HQ (at_world s (tick (world s)))).
  - split; simpl; [|congruence|done|by eapply clock_ok_le]. unfold chan_good. by rewrite Hc.
  - split; simpl; auto.
Qed.

Lemma shows_ticked s s1 : ticked s s1 -> shows s s1 [].
Proof. intros []. unfold shows. rewrite app_nil_r, t_trace0. done. Qed.

Lemma live_ticked u s s1 : ticked s s1 -> live u s -> live u s1.
Proof. intros []. unfold live. by rewrite t_trace0. Qed.

Lemma inv_add s w e :
  Inv s -> safe (trk (trace s)) e -> chan_good w -> version w = v ->
  clock_ok (track (trk (trace s)) e) (now w) -> Inv (add s w e).
Proof.
  intros [] Hsafe Hc Hv Ht. split; simpl; [done|done|by constructor|by rewrite trk_snoc].
Qed.

Lemma inv_log s e : Inv s -> (exists l, e = EvDebug l \/ e = EvWarn l) -> Inv (add s (world s) e).
Proof.
  intros Hi He. pose proof Hi as []. apply inv_add; try done.
  - by destruct He as [l [-> | ->]].
  - eapply track_clock; [done|done|]. by destruct He as [l [-> | ->]].
Qed.

Lemma shows_debug s l : shows s (add s (world s) (EvDebug l)) [].
Proof. unfold shows, add; simpl. rewrite trk_snoc, app_nil_r. split_and!; done || lia. Qed.

Lemma live_debug u s l : live u s -> live u (add s (world s) (EvDebug l)).
Proof. unfold live; simpl. by rewrite trk_snoc. Qed.

(** The event of an awaited packet operation. *)
Lemma inv_advance s w e :
  Inv s -> advances (world s) w -> safe (trk (trace s)) e ->
  match e with
  | EvRead _ _ _ _ t1 => t1 = now w
  | EvSend t0 _ _ _ => t0 = now (world s)
  | _ => True
  end -> Inv (add s w e).
Proof.
  intros Hi [Hn Hv Hc] Hs He. pose proof Hi as []. apply inv_add; auto; [congruence|].
  by eapply track_clock.
Qed.

(** ** Writing *)

Lemma wp_flush_replies u s (Q : _ -> Sess -> Prop) :
  Inv s -> live u s ->
  (forall r s', Inv s' -> shows s s' [] -> (r = Ok tt -> live None s') -> Q (r, None) s') ->
  wp (flush_replies u) Q s.
Proof.
  intros Hi Hlive HQ. unfold flush_replies. destruct u as [q|]; [|by apply HQ; [|apply shows_refl|]].
  apply wp_bind, wp_clock; [done|]. intros s1 Hi1 Ht. apply (live_ticked _ _ _ Ht) in Hlive as [Hf Hd].
  apply shows_ticked in Ht. destruct Hd as (tq & Hp & Hb & Hl).
  apply wp_if; intros Hz; zbool.
  { wp_steps. apply HQ; [apply inv_log; eauto|exact (shows_trans _ _ _ _ _ Ht (shows_debug _ _))|done]. }
  unfold timeout, fut_flush. apply wp_bind, wp_perform. intros r w Hop. apply flush_spec in Hop.
  assert (Inv (add s1 w (EvFlush (now (world s1)) (sat_sub (flush_by q) (now (world s1))) r))) as Hi2.
  { apply inv_advance; [done..| |done]. pose proof (i_clock _ Hi1) as [_ Hq]. specialize (Hq _ Hp).
    unfold sat_sub in *. split; [done|]. split; [lia|].
    split; [split; [lia|intros Hin; specialize (Hl Hin); right; lia]|]. exists tq. split; [done|lia]. }
  assert (shows s (add s1 w (EvFlush (now (world s1)) (sat_sub (flush_by q) (now (world s1))) r)) []) as Hs2.
  { apply (shows_trans _ _ _ _ _ Ht). destruct Hop. unfold shows; simpl. rewrite trk_snoc, app_nil_r.
    by destruct r as [[|]|]. }
  destruct r as [[[]|e]|]; wp_steps; apply HQ; try done.
  - intros _. unfold live; simpl. by rewrite trk_snoc.
  - by apply inv_log; eauto.
  - exact (shows_trans _ _ _ _ _ Hs2 (shows_debug _ _)).
Qed.

(** The time a write is given lies within the idle budget of the last read. *)
Definition in_budget (s : Sess) (deadline : Z) : Prop :=
  0 < deadline <= idle_timeout /\
  (instantaneous -> now (world s) + deadline <= last_read (trk (trace s)) + idle_timeout).

(** Making room in a full write buffer. *)
Lemma wp_make_room u s (b : bool) (Q : _ -> Sess -> Prop) :
  Inv s -> live u s ->
  (forall r u' s', Inv s' -> shows s s' [] -> (r = Ok tt -> live u' s') -> (r <> Ok tt -> u' = None) ->
    Q (r, u') s') ->
  wp (if b then flush_replies u else ret (Ok tt, u)) Q s.
Proof.
  intros Hi Hl HQ. apply wp_if; intros _.
  - apply wp_flush_replies; auto.
  - apply wp_ret, HQ; auto using shows_refl. done.
Qed.

Lemma wp_queue_reply u pkt deadline ctx s (Q : _ -> Sess -> Prop) :
  Inv s -> live u s -> in_budget s deadline -> writable pkt ->
  (forall r u' s', Inv s' ->
    (r = Ok tt /\ live u' s' /\ shows s s' [OSend pkt] \/ r <> Ok tt /\ u' = None /\ shows s s' []) ->
    Q (r, u') s') ->
  wp (queue_reply u pkt deadline ctx) Q s.
Proof.
  intros Hi Hl [Hd Hin] Hw HQ. unfold queue_reply.
  apply wp_bind, wp_clock; [done|]. intros s1 Hi1 Ht1. apply wp_bind, wp_peek.
  apply wp_bind, wp_make_room; [done|by eapply live_ticked|]. intros r u1 s2 Hi2 Hs2 Hok Hbad.
  assert (shows s s2 []) as Hs by exact (shows_trans _ _ _ _ _ (shows_ticked _ _ Ht1) Hs2).
  destruct r as [[]|e]; [|apply wp_ret, HQ; [done|]; right; by rewrite Hbad].
  specialize (Hok eq_refl). apply wp_bind, wp_clock; [done|]. intros s3 Hi3 Ht3.
  apply (live_ticked _ _ _ Ht3) in Hok as [Hf Hdue].
  assert (shows s s3 []) as Hs3 by exact (shows_trans _ _ _ _ _ Hs (shows_ticked _ _ Ht3)).
  assert (now (world s1) + deadline <= now (world s3) + idle_timeout /\
    (instantaneous -> now (world s1) + deadline <= last_read (trk (trace s3)) + idle_timeout) /\
    now (world s1) <= now (world s3)) as (Hb1 & Hb2 & Hb3).
  { destruct Ht1, Hs2 as (Hn2 & _), Ht3, Hs3 as (_ & _ & _ & Hlr & _). split; [lia|]. split; [|lia].
    intros Hi'. rewrite Hlr, t_inst0 by done. by apply Hin. }
  unfold timeout, fut_send. apply wp_bind, wp_perform. intros r w Hop. apply send_spec in Hop.
  set (left := sat_sub _ _) in *. set (ev := EvSend _ left pkt r).
  assert (Inv (add s3 w ev)) as Hi4.
  { apply inv_advance; [done|done| |done]. split; [done|]. split; [done|]. split; [unfold left, sat_sub; lia|].
    intros Hi'. specialize (Hb2 Hi'). unfold left, sat_sub. lia. }
  assert (now (world s3) <= now w) by apply Hop.
  destruct r as [[[]|e]|]; wp_steps; apply HQ; try done.
  - left. split; [done|]. split.
    + unfold live, add; cbn [trace]. rewrite trk_snoc. split; [done|]. simpl.
      destruct u1 as [q|]; simpl in *.
      * destruct Hdue as (tq & -> & ? & ?). by exists tq.
      * rewrite Hdue. by exists (now (world s3)).
    + destruct Hs3 as (? & Ho & ? & ? & ?). unfold shows, add; cbn [world trace]. rewrite trk_snoc.
      simpl. rewrite Ho, app_nil_r. split; [lia|done].
  - right. split; [done|]. split; [done|]. destruct Hs3 as (? & Ho & ? & ? & ?).
    unfold shows, add; cbn [world trace]. rewrite trk_snoc. split; [lia|done].
  - by apply inv_log; eauto.
  - right. split; [done|]. split; [done|]. destruct Hs3 as (? & Ho & ? & ? & ?).
    unfold shows, add; cbn [world trace]. rewrite !trk_snoc. split; [lia|done].
Qed.

(** ** Closing on a violation *)

Definition disconnects (c : list Obs) : Prop :=
  c = [] \/ exists p, c = [OSend p] /\ is_disconnect p.

(** One warning names the violation; a failed write may add one more. *)
Definition closed_with (violation : Violation) (s s' : Sess) : Prop :=
  exists c extra, disconnects c /\ (extra = [] \/ extra = ["violation close write failed"%string]) /\
    obs (trk (trace s')) = obs (trk (trace s)) ++ c /\
    warns (trk (trace s')) = warns (trk (trace s)) ++ reason violation :: extra.

Lemma disconnect_writable violation p :
  disconnect violation v max_packet_size = Some p -> writable p /\ is_disconnect p.
Proof.
  unfold disconnect, writable, packet_fits, is_disconnect, fits_max_packet_size. intros Hd.
  split_matches; eauto 10.
Qed.

Lemma log_write_error_closed violation s1 s2 (err : result unit Error) (Q : unit -> Sess -> Prop) :
  Inv s2 ->
  (exists c, disconnects c /\ obs (trk (trace s2)) = obs (trk (trace s1)) ++ c) ->
  warns (trk (trace s2)) = warns (trk (trace s1)) ++ [reason violation] ->
  (forall s', Inv s' -> closed_with violation s1 s' -> Q tt s') ->
  wp (match err with Err e => log_violation_close_write_error e | Ok _ => ret tt end) Q s2.
Proof.
  intros Hi (c & Hc & Ho) Hw HQ.
  assert (closed_with violation s1 s2) as Hquiet by (exists c, []; auto).
  assert (forall e, (exists l, e = EvDebug l) \/ e = EvWarn "violation close write failed" ->
    wp (emit e) Q s2) as Hlog.
  { intros e He. apply wp_emit, HQ; [apply inv_log; naive_solver|].
    destruct He as [[l ->]| ->].
    - exists c, []. unfold add; cbn [trace]. rewrite trk_snoc. auto.
    - exists c, ["violation close write failed"%string]. unfold add; cbn [trace]. rewrite trk_snoc; simpl.
      rewrite Ho, Hw, <- app_assoc. auto. }
  destruct err as [[]|e]; [by apply wp_ret, HQ|]. unfold log_violation_close_write_error.
  destruct e; try (by apply wp_ret, HQ); simpl; try (apply Hlog; eauto).
  destruct (io_kind e); apply Hlog; eauto.
Qed.

Lemma wp_close_with_violation u violation deadline s (Q : _ -> Sess -> Prop) :
  Inv s -> live u s -> in_budget s deadline ->
  (forall s', Inv s' -> closed_with violation s s' -> Q ViolationOutcome s') ->
  wp (close_with_violation u violation deadline max_packet_size) Q s.
Proof.
  intros Hi Hl Hb HQ. unfold close_with_violation. apply wp_bind, wp_emit.
  set (s1 := add s (world s) (EvWarn (reason violation))).
  assert (Inv s1) as Hi1 by (apply inv_log; eauto).
  assert (live u s1) as Hl1 by (unfold live, s1, add in *; simpl; by rewrite trk_snoc).
  assert (in_budget s1 deadline) as Hb1 by (unfold in_budget, s1, add in *; simpl; by rewrite trk_snoc).
  assert (obs (trk (trace s1)) = obs (trk (trace s)) /\
          warns (trk (trace s1)) = warns (trk (trace s)) ++ [reason violation]) as [Ho1 Hw1]
    by (unfold s1, add; simpl; by rewrite trk_snoc).
  clearbody s1. apply wp_bind, wp_peek. rewrite (i_version _ Hi1). apply wp_bind.
  eapply wp_mono with (Q := fun x s2 => Inv s2 /\ (x.1 = Ok tt -> live x.2 s2) /\ (x.1 <> Ok tt -> x.2 = None) /\
    exists c, disconnects c /\ shows s1 s2 c).
  { destruct (disconnect violation v max_packet_size) as [pkt|] eqn:Ed.
    - apply disconnect_writable in Ed as [Hwr Hdis].
      apply wp_queue_reply; [done..|]. intros r u' s2 Hi2 [(-> & ? & ?)|(? & -> & ?)]; simpl.
      + split_and!; [done|done|done|]. exists [OSend pkt]. split; [right; eauto|done].
      + split_and!; [done|done|done|]. exists []. split; [by left|done].
    - apply wp_ret. simpl. split_and!; [done|done|done|]. exists []. split; [by left|apply shows_refl]. }
  intros [queued u'] s2 (Hi2 & Hok & Hbad & c & Hc & Hs2); simpl in *. apply wp_bind.
  assert (forall (r : result unit Error) s3, Inv s3 -> shows s2 s3 [] ->
    wp (do! (match (match queued with Ok _ => r | Err e => Err e end) with
             | Err err => log_violation_close_write_error err | Ok _ => ret tt end) in
        ret ViolationOutcome) Q s3) as Hend.
  { intros r s3 Hi3 Hs3. apply wp_bind. pose proof (shows_trans _ _ _ _ _ Hs2 Hs3) as (_ & Ho & Hw & _).
    rewrite app_nil_r in Ho. eapply log_write_error_closed; [done| | |].
    - exists c. split; [done|]. by rewrite Ho, Ho1.
    - by rewrite Hw, Hw1.
    - intros s' Hi' Hcl. by apply wp_ret, HQ. }
  destruct queued as [[]|e].
  - apply wp_flush_replies; [done|by apply Hok|]. intros r s3 Hi3 Hs3 _. exact (Hend r s3 Hi3 Hs3).
  - rewrite Hbad by done. apply wp_ret. exact (Hend (Ok tt) s2 Hi2 (shows_refl _)).
Qed.

(** ** Admission *)

(** Nothing is queued for the client, or an offer will not wait. *)
Definition may_offer (s : Sess) : Prop :=
  pend (trk (trace s)) = None \/ would_hold (channel (world s)) = false.

(** An offer is held only by waiting: without a wait it is never reported as
    held, and dropped only when no wait was allowed. *)
Definition was_held (a : Admission) (wait : Z) : Prop := a = EnqueuedAfterHold \/ a = Dropped /\ wait <> 0.

Lemma admit_begin_at_once c p wait reply_by t a c' :
  admit_begin c p wait reply_by t = (inl a, c') -> ~ was_held a wait.
Proof.
  unfold admit_begin, offer_now, enqueue. intros Hb [->|[-> Hw]]; repeat case_match; simplify_eq; zbool; done.
Qed.

(** [k'] is [k], or what a wait makes of it. *)
Definition up_to_wait (k k' : Track) : Prop := k' = k \/ exists t d, k' = track k (EvWait t d).

Lemma up_to_wait_same k k' : up_to_wait k k' ->
  pend k' = pend k /\ fail k' = fail k /\ last_read k' = last_read k /\ obs k' = obs k /\ warns k' = warns k.
Proof. by intros [->|(t & d & ->)]. Qed.

Lemma admit_begin_holds alive c p wait reply_by t slot c' :
  chan_ok 0 alive c -> admit_begin c p wait reply_by t = (inr slot, c') ->
  would_hold c = true /\ wait <> 0.
Proof.
  intros Hok. unfold admit_begin. destruct (_ && _); [done|].
  destruct (offer_now c p) as [[a|p'] c1] eqn:Eo; [done|].
  apply (offer_now_ok alive []) in Eo as [_ Hh]; [|done].
  simpl in Hh. symmetry in Hh. apply negb_false_iff in Hh.
  destruct (Z.eqb_spec wait 0); [done|]. by destruct (acquire _).
Qed.

(** The admission is recorded and the channel is consistent again. *)
Lemma inv_admitted s s0 w p a :
  Inv s -> good safe base (trace s0) -> up_to_wait (trk (trace s)) (trk (trace s0)) -> fail (trk (trace s)) = false ->
  now (world s) <= now w -> version w = v -> chan_good w ->
  let s' := add s0 w (EvAdmit p a) in
  Inv s' /\ shows s s' [OOffer p a] /\ (forall u, live u s -> live u s') /\
  waited (trk (trace s')) = waited (trk (trace s0)).
Proof.
  intros [] Hg Hk Hf Hn Hv Hc. destruct (up_to_wait_same _ _ Hk) as (Ep & Ef & El & Eo & Ew).
  assert (clock_ok (trk (trace s0)) (now (world s))) as Hck by (unfold clock_ok; by rewrite Ep, El).
  simpl. split; [|split; [|split]].
  - split; simpl; [done|done| |]; rewrite ?trk_snoc.
    + constructor; [done|]. simpl. by rewrite Ef.
    + eapply (track_clock _ (EvAdmit p a)); [done|lia|done].
  - unfold shows, add; simpl. rewrite trk_snoc. simpl. rewrite Eo, Ew, El. split_and!; try done.
    by destruct Hk as [->|(t & d & ->)].
  - intros u [_ Hd]. unfold live, add; simpl. rewrite trk_snoc. split; [by simpl; rewrite Ef|].
    unfold due in *. simpl. by rewrite Ep, El.
  - unfold add; simpl. by rewrite trk_snoc.
Qed.

(** The second half of a hold, from the state the wait left. *)
Lemma wp_admit_waited u p reply_by slot granted alive s s2 (Q : _ -> Sess -> Prop) :
  Inv s -> live u s -> good safe base (trace s2) ->
  up_to_wait (trk (trace s)) (trk (trace s2)) -> waited (trk (trace s2)) = true ->
  now (world s) <= now (world s2) -> version (world s2) = v ->
  chan_ok (held_by granted) alive (channel (world s2)) ->
  completed slot = false -> settled slot = false -> resumable (channel (world s2)) slot granted ->
  (forall a s', Inv s' -> live u s' -> shows s s' [OOffer p a] -> waited (trk (trace s')) = true -> Q a s') ->
  wp (admit_waited p reply_by slot granted) Q s2.
Proof.
  intros Hi Hl Hg Hk Hwt Hn Hv Hok Hnc Hns Hres HQ. unfold admit_waited. apply wp_bind.
  eapply wp_mono with (Q := fun _ s3 => trace s3 = trace s2 /\ channel (world s3) = channel (world s2) /\
    version (world s3) = version (world s2) /\ now (world s2) <= now (world s3)).
  { destruct (tick_frame (world s2)) as (? & ? & _). pose proof (tick_now (world s2)).
    destruct granted as [[]|]; [apply wp_now|apply wp_peek..]; done. }
  intros t s3 (Htr & Hch & Hver & Hnow). apply wp_bind, wp_peek. rewrite Hch.
  destruct (admit_resume (channel (world s2)) p reply_by t slot granted) as [a o] eqn:Er.
  apply (admit_resume_ok alive []) in Er as [(c' & -> & Hokc & _) _]; [|done..].
  destruct (set_channel_frame c' (world s3)) as (Hnc3 & Hvc3 & Hcc3).
  wp_steps. edestruct (inv_admitted s s3 (set_channel c' (world s3)) p a) as (Hi' & Hs & Hlive & Hw).
  - done.
  - by rewrite Htr.
  - by rewrite Htr.
  - apply Hl.
  - lia.
  - by rewrite Hvc3, Hver.
  - exists alive. by rewrite Hcc3.
  - apply HQ; [done|by apply Hlive|done|]. rewrite <- Hwt, <- Htr. exact Hw.
Qed.

Lemma wp_admit_with u p wait reply_by s (Q : _ -> Sess -> Prop) :
  Inv s -> live u s -> may_offer s -> 0 <= wait <= ingest_deadline ->
  (wait <> 0 -> in_budget s (wait + INGEST_REPLY_RESERVE)) ->
  (forall a s', Inv s' -> live u s' -> shows s s' [OOffer p a] ->
    (was_held a wait -> waited (trk (trace s')) = true) -> Q a s') ->
  wp (admit_with p wait reply_by) Q s.
Proof.
  intros Hi Hl Hm Hwait Hres0 HQ. unfold admit_with. apply wp_bind, wp_clock; [done|]. intros s1 Hi1 Ht1.
  apply wp_bind, wp_peek.
  assert (now (world s) <= now (world s1)) as Hn1 by apply Ht1.
  assert (trk (trace s1) = trk (trace s)) as Hk1 by (by rewrite (t_trace _ _ Ht1)).
  destruct (i_chan _ Hi1) as [alive Hok].
  destruct (admit_begin (channel (world s1)) p wait reply_by (now (world s1))) as [begun c] eqn:Eb.
  apply wp_bind, wp_put_channel. destruct (set_channel_frame c (world s1)) as (Hnc & Hvc & Hcc).
  pose proof Eb as Hbk. apply (admit_begin_ok alive []) in Hbk as [Hok' Hbk]; [|done].
  destruct begun as [a|slot].
  - apply admit_begin_at_once in Eb.
    wp_steps. edestruct (inv_admitted s s1 (set_channel c (world s1)) p a) as (Hi' & Hs & Hlive & _).
    + done.
    + apply Hi1.
    + by left.
    + apply Hl.
    + lia.
    + rewrite Hvc. apply Hi1.
    + exists alive. by rewrite Hcc.
    + apply HQ; [done|by apply Hlive|done|done].
  - destruct Hbk as (_ & Hnc' & Hns).
    destruct (admit_begin_holds _ _ _ _ _ _ _ _ Hok Eb) as [Hwh Hnz].
    assert (pend (trk (trace s1)) = None) as Hp.
    { destruct Hm as [Hm|Hm]; [by rewrite Hk1|]. rewrite <- (t_chan _ _ Ht1) in Hm. congruence. }
    unfold timeout, fut_wait_slot. apply wp_bind, wp_perform. intros granted w Hop.
    apply wait_slot_spec in Hop as (Hnw & Hvw & alive' & Hokw & Hres); [|exists alive; simpl; by rewrite Hcc].
    simpl in Hnw, Hvw |- *. eapply (wp_admit_waited u _ _ _ _ alive' s); try done; unfold add; simpl.
    + constructor; [apply Hi1|]. split; [by rewrite Hk1; apply Hl|]. split; [done|]. split; [lia|].
      destruct (Hres0 Hnz) as [Hb Hbi]. split; [lia|]. intros Hin. right.
      specialize (Hbi Hin). rewrite Hk1. pose proof (t_inst _ _ Ht1 Hin). simpl. lia.
    + rewrite trk_snoc, Hk1. right. eauto.
    + by rewrite trk_snoc.
    + lia.
    + rewrite Hvw, Hvc. apply Hi1.
    + eauto.
Qed.

Lemma wp_deliver_publish u p budget s (Q : _ -> Sess -> Prop) :
  Inv s -> live u s -> may_offer s -> (budget <> 0 -> in_budget s budget) -> 0 <= budget ->
  (forall a step s', Inv s' -> live u s' -> shows s s' [OOffer (from_codec p) a] ->
    (step <> IdleTimeout -> a <> NoReplyTime) -> (step = Continue true -> waited (trk (trace s')) = true) -> Q step s') ->
  wp (deliver_publish p budget ingest_deadline) Q s.
Proof.
  intros Hi Hl Hm Hbud Hb0 HQ. unfold deliver_publish. apply wp_bind, wp_emit.
  set (s1 := add s (world s) (EvDebug "PUBLISH")).
  assert (Inv s1) as Hi1 by (apply inv_log; eauto).
  assert (live u s1) as Hl1 by (by apply live_debug).
  assert (shows s s1 []) as Hs1 by apply shows_debug.
  assert (may_offer s1) as Hm1 by (unfold may_offer, s1, add in *; simpl; by rewrite trk_snoc).
  assert (budget <> 0 -> in_budget s1 budget) as Hbud1 by (unfold in_budget, s1, add in *; simpl; by rewrite trk_snoc).
  clearbody s1. apply wp_bind, wp_clock; [done|]. intros s2 Hi2 Ht2.
  apply wp_bind, (wp_admit_with u); [done|by eapply live_ticked| | | |].
  - unfold may_offer in *. by rewrite (t_trace _ _ Ht2), (t_chan _ _ Ht2).
  - pose proof (sat_sub_nonneg budget INGEST_REPLY_RESERVE). lia.
  - assert (0 < INGEST_REPLY_RESERVE) as HR by done. unfold sat_sub. intros Hnz.
    destruct Hbud1 as [Hb1 Hb2]; [lia|]. split; [lia|]. intros Hin. specialize (Hb2 Hin).
    rewrite (t_trace _ _ Ht2), (t_inst _ _ Ht2 Hin). lia.
  - intros a s3 Hi3 Hl3 Hs3 Hheld. apply wp_ret. apply (HQ a); [done|done| |by destruct a|].
    2: { intros Hst. apply Hheld. unfold was_held. destruct a; try done; [by left|].
         destruct (_ <? _); [done|]. injection Hst as Hst. zbool. by right. }
    exact (shows_trans _ _ _ _ _ Hs1 (shows_trans _ _ _ _ _ (shows_ticked _ _ Ht2) Hs3)).
Qed.

(** ** One packet *)

(** [st] describes the session [s]: the idle anchor is not after the last
    read, and only a wait leaves a hold to pay for. *)
Definition fits_state (st : LoopState) (s : Sess) : Prop :=
  live (unflushed st) s /\
  (instantaneous -> cs_last_packet_time (conn st) <= last_read (trk (trace s))) /\
  (waited (trk (trace s)) = false -> hold_debt st = false).

(** Between two rounds of a session that never waited for a slot, the idle
    anchor is the last read. *)
Definition anchored (st : LoopState) (s : Sess) : Prop :=
  instantaneous -> waited (trk (trace s)) = false -> cs_last_packet_time (conn st) = last_read (trk (trace s)).

Lemma anchored_shows st s s' o : shows s s' o -> anchored st s -> anchored st s'.
Proof. intros (_ & _ & _ & Hl & Hw) Ha Hin Hf. rewrite Hl. auto. Qed.

Lemma fits_shows st s s' o u : shows s s' o -> fits_state st s -> live u s' ->
  fits_state {| conn := conn st; awaiting := awaiting st; hold_debt := hold_debt st; unflushed := u |} s'.
Proof. intros (_ & _ & _ & Hl & Hw) (_ & Ha & Hh) Hlive. split; [done|]. rewrite Hl. auto. Qed.

Definition displays (s s' : Sess) (o : list Obs) : Prop :=
  obs (trk (trace s')) = obs (trk (trace s)) ++ o /\ warns (trk (trace s')) = warns (trk (trace s)).

Definition truncated_line : string := "client closed the connection mid-packet".

(** What a result of the loop comes with: the DISCONNECT written last and the
    warnings. *)
Inductive closing : result SessionOutcome Error -> list Obs -> list string -> Prop :=
| closing_quiet r : r <> Ok ViolationOutcome -> r <> Ok Refused -> closing r [] []
| closing_truncated e : is_truncated_packet e = true -> closing (Err e) [] [truncated_line]
| closing_violation violation c extra :
    disconnects c -> extra = [] \/ extra = ["violation close write failed"%string] ->
    closing (Ok ViolationOutcome) c (reason violation :: extra).

(** How a session leaves the loop, having shown [o] since [s]. *)
Definition leaves (r : result SessionOutcome Error) (o : list Obs) (s s' : Sess) : Prop :=
  exists c ws, closing r c ws /\
    obs (trk (trace s')) = obs (trk (trace s)) ++ o ++ c /\
    warns (trk (trace s')) = warns (trk (trace s)) ++ ws.

(** After a step: round again having shown [full], or out having shown
    [part]. *)
Definition step_post (full part : list Obs -> Prop) (a : AwaitingRelease) (s : Sess)
    (n : LoopNext) (s' : Sess) : Prop :=
  Inv s' /\
  match n with
  | inl st => (fits_state st s' /\ anchored st s') /\ awaiting st = a /\ exists o, full o /\ displays s s' o
  | inr r => exists o, part o /\ leaves r o s s'
  end.

Lemma shows_displays s s' o : shows s s' o -> displays s s' o.
Proof. intros (_ & Ho & Hw & _). by split. Qed.

Lemma displays_trans s1 s2 s3 o1 o2 : displays s1 s2 o1 -> displays s2 s3 o2 -> displays s1 s3 (o1 ++ o2).
Proof. intros [Ho Hw] [Ho' Hw']. split; [by rewrite Ho', Ho, app_assoc|congruence]. Qed.

Lemma leaves_after r s1 s2 s3 o1 o2 : displays s1 s2 o1 -> leaves r o2 s2 s3 -> leaves r (o1 ++ o2) s1 s3.
Proof.
  intros [Ho1 Hw1] (c & ws & Hc & Ho & Hw). exists c, ws. split; [done|].
  split; [by rewrite Ho, Ho1, !app_assoc|by rewrite Hw, Hw1].
Qed.

Lemma leaves_quiet r o s s' :
  r <> Ok ViolationOutcome -> r <> Ok Refused -> displays s s' o -> leaves r o s s'.
Proof. intros ? ? [? ?]. exists [], []. rewrite !app_nil_r. split; [by constructor|done]. Qed.

Lemma step_post_after full part a s1 s2 n s3 o1 (full' part' : list Obs -> Prop) :
  displays s1 s2 o1 -> step_post full part a s2 n s3 ->
  (forall o, full o -> full' (o1 ++ o)) -> (forall o, part o -> part' (o1 ++ o)) ->
  step_post full' part' a s1 n s3.
Proof.
  intros Hd [Hi Hn] Hf Hp. split; [done|]. destruct n as [st|r].
  - destruct Hn as (? & ? & o & Ho & Hd'). split; [done|]. split; [done|]. exists (o1 ++ o).
    split; [auto|by eapply displays_trans].
  - destruct Hn as (o & Ho & Hl). exists (o1 ++ o). split; [auto|by eapply leaves_after].
Qed.

Lemma wp_leave_idle full a s : Inv s ->
  wp leave_idle (step_post full (fun o => o = []) a s) s.
Proof.
  intros Hi. unfold leave_idle, leave. wp_steps. split; [apply inv_log; eauto|].
  exists []. split; [done|]. apply leaves_quiet; [done|done|]. apply shows_displays, shows_debug.
Qed.

Lemma wp_idle_left st s (Q : Z -> Sess -> Prop) :
  Inv s -> fits_state st s ->
  (forall d s1, Inv s1 -> ticked s s1 -> fits_state st s1 -> 0 <= d <= idle_timeout ->
    (d <> 0 -> in_budget s1 d) -> (instantaneous -> d = 0 \/ now (world s1) + d <= last_read (trk (trace s1)) + idle_timeout) ->
    d = sat_sub idle_timeout (sat_sub (now (world s1)) (cs_last_packet_time (conn st))) ->
    Q d s1) ->
  wp (idle_left idle_timeout st) Q s.
Proof.
  intros Hi [Hl Ha] HQ. unfold idle_left, elapsed_since. apply wp_bind, wp_bind, wp_clock; [done|].
  intros s1 Hi1 Ht. apply wp_ret, wp_ret. unfold elapsed.
  assert (fits_state st s1) as Hf.
  { split; [by eapply live_ticked|]. rewrite (t_trace _ _ Ht). exact Ha. }
  destruct Ha as [Ha Hh]. pose proof (sat_sub_nonneg (now (world s1)) (cs_last_packet_time (conn st))).
  assert (instantaneous -> cs_last_packet_time (conn st) <= last_read (trk (trace s1))) as Ha1 by apply Hf.
  apply HQ; [done|done|done|unfold sat_sub in *; lia| | |done].
  - intros Hnz. split; [unfold sat_sub in *; lia|]. intros Hin. specialize (Ha1 Hin). unfold sat_sub in *. lia.
  - intros Hin. specialize (Ha1 Hin). unfold sat_sub in *. lia.
Qed.

Lemma wp_violation_close full a st violation d s :
  Inv s -> fits_state st s -> in_budget s d ->
  wp (violation_close max_packet_size st violation d) (step_post full (fun o => o = []) a s) s.
Proof.
  intros Hi [Hl _] Hb. unfold violation_close. apply wp_bind, wp_close_with_violation; [done..|].
  intros s' Hi' (c & x & Hc & Hx & Ho & Hw). apply wp_ret. split; [done|]. exists []. split; [done|].
  exists c, (reason violation :: x). split; [by constructor|done].
Qed.

Lemma wp_on_violation full a st violation s :
  Inv s -> fits_state st s ->
  wp (on_violation idle_timeout max_packet_size st violation) (step_post full (fun o => o = []) a s) s.
Proof.
  intros Hi Hf. unfold on_violation. apply wp_bind, wp_idle_left; [done..|].
  intros d s1 Hi1 Ht Hf1 Hd Hb _ _. apply shows_ticked, shows_displays in Ht.
  apply wp_if; intros Hz; zbool; eapply wp_mono;
    [by apply (wp_leave_idle full a)| |by apply (wp_violation_close full a); auto|];
    intros n s' Hp; eapply (step_post_after _ _ _ _ _ _ _ []); eauto.
Qed.

Definition reply_obs (owed : option Reply) : list Obs :=
  match owed with Some r => [OSend (render r v)] | None => [] end.

Lemma gate_writable reply :
  reply_over_max_packet_size reply v max_packet_size = None -> writable (render reply v).
Proof.
  unfold reply_over_max_packet_size, writable, packet_fits, fits_max_packet_size, Reply_encoded_len.
  intros Hg. split; [eauto|]. by destruct (fits_within _ _).
Qed.

Lemma wp_settle_reply st owed s :
  Inv s -> fits_state st s -> anchored st s ->
  wp (settle_reply idle_timeout max_packet_size st owed)
    (step_post (fun o => o = reply_obs owed) (fun o => o = []) (awaiting st) s) s.
Proof.
  intros Hi Hf Ha. unfold settle_reply. apply wp_bind, wp_idle_left; [done..|].
  intros d s1 Hi1 Ht Hf1 Hd Hb _ _. apply shows_ticked in Ht. apply (anchored_shows _ _ _ _ Ht) in Ha. apply shows_displays in Ht.
  eapply wp_mono; [|intros n s' Hp; eapply (step_post_after _ _ _ _ _ _ _ [] _ _ Ht Hp); intros o; exact id].
  apply wp_if; intros Hz; zbool; [by apply wp_leave_idle|]. specialize (Hb Hz).
  destruct owed as [reply|]; simpl.
  2: { apply wp_ret. split; [done|]. split; [done|]. split; [done|]. exists []. split; [done|].
       apply shows_displays, shows_refl. }
  apply wp_bind, wp_peek. rewrite (i_version _ Hi1).
  destruct (reply_over_max_packet_size reply v max_packet_size) as [violation|] eqn:Eg;
    [by apply wp_violation_close|].
  apply wp_bind, wp_queue_reply; [done|apply Hf1|done|by apply gate_writable|].
  intros r u' s2 Hi2 [(-> & Hl & Hs)|(Hr & -> & Hs)].
  - apply wp_ret. split; [done|]. split; [split|].
    + by eapply fits_shows.
    + by apply (anchored_shows st _ _ _ Hs).
    + split; [done|]. eexists. split; [done|]. by apply shows_displays.
  - destruct r as [[]|e]; [done|]. apply wp_ret. split; [done|]. exists []. split; [done|].
    apply leaves_quiet; [done|done|]. by apply shows_displays.
Qed.

Lemma wp_deliver_then st p owed s :
  Inv s -> fits_state st s -> anchored st s -> may_offer s ->
  wp (deliver_then idle_timeout max_packet_size ingest_deadline st p owed)
    (step_post (fun o => exists a, a <> NoReplyTime /\ o = OOffer (from_codec p) a :: reply_obs owed)
               (fun o => exists a, o = [OOffer (from_codec p) a]) (awaiting st) s) s.
Proof.
  intros Hi Hf Han Hm. unfold deliver_then. apply wp_bind, wp_idle_left; [done..|].
  intros d s1 Hi1 Ht Hf1 Hd0 Hbud _ _.
  apply wp_bind, (wp_deliver_publish (unflushed st)); [done|apply Hf1| |done|lia|].
  { unfold may_offer in *. by rewrite (t_trace _ _ Ht), (t_chan _ _ Ht). }
  intros a step s2 Hi2 Hl2 Hs2 Ha Hheld.
  assert (displays s s2 [OOffer (from_codec p) a]) as Hd2.
  { apply shows_displays. exact (shows_trans _ _ _ _ _ (shows_ticked _ _ Ht) Hs2). }
  destruct step as [held|].
  - eapply wp_mono; [apply wp_settle_reply; [done| |]|].
    + destruct (fits_shows st _ _ _ (unflushed st) Hs2 Hf1 Hl2) as (? & ? & Hh). split; [done|]. split; [done|].
      simpl in *. intros Hw. rewrite (Hh Hw). destruct held; [|done]. by rewrite Hheld in Hw.
    + apply (anchored_shows st _ _ _ (shows_trans _ _ _ _ _ (shows_ticked _ _ Ht) Hs2)). exact Han.
    + intros n s' Hp. eapply (step_post_after _ _ _ _ _ _ _ _ _ _ Hd2 Hp); intros o ->; [|by eauto].
      exists a. split; [by apply Ha|done].
  - eapply wp_mono; [by apply (wp_leave_idle (fun _ => False))|].
    intros n s' Hp. eapply (step_post_after _ _ _ _ _ _ _ _ _ _ Hd2 Hp); intros o; [done|intros ->; eauto].
Qed.

(** What a disposition lets the client and the callback see, [a] being the
    answer of the event channel: in full, and when the session ends in the
    middle of it. *)
Definition answers (d : Disposition) (a : Admission) : list Obs :=
  match d with
  | Deliver p => [OOffer (from_codec p) a]
  | DeliverThenReply p r => [OOffer (from_codec p) a; OSend (render r v)]
  | ReplyWith r => [OSend (render r v)]
  | Close | ViolationClose _ => []
  end.

Definition offers (d : Disposition) (a : Admission) : list Obs :=
  match d with
  | Deliver p | DeliverThenReply p _ => [OOffer (from_codec p) a]
  | ReplyWith _ | Close | ViolationClose _ => []
  end.

Definition goes_on (d : Disposition) : Prop :=
  match d with Close | ViolationClose _ => False | _ => True end.

Lemma wp_on_packet st fresh p s :
  Inv s -> fits_state st s -> may_offer s -> last_read (trk (trace s)) = now (world s) ->
  let '(d, a) := dispatch p (awaiting st) in
  wp (on_packet idle_timeout max_packet_size ingest_deadline st fresh p)
    (step_post (fun o => goes_on d /\ exists adm, adm <> NoReplyTime /\ o = answers d adm)
               (fun o => exists adm, o = offers d adm) a s) s.
Proof.
  intros Hi Hf Hm Hr. destruct (dispatch p (awaiting st)) as [d a] eqn:Ed. unfold on_packet. apply wp_bind.
  eapply wp_mono with (Q := fun st1 s1 => Inv s1 /\ displays s s1 [] /\ fits_state st1 s1 /\ anchored st1 s1 /\ may_offer s1 /\
    awaiting st1 = awaiting st).
  { apply wp_if; intros Hdebt.
    2: { apply wp_ret. split; [done|]. split; [apply shows_displays, shows_refl|]. split; [done|]. split; [|done].
         intros _ Hw. destruct Hf as (_ & _ & Hh). rewrite (Hh Hw) in Hdebt. done. }
    apply wp_bind, wp_clock; [done|]. intros s1 Hi1 Ht. apply wp_ret. split; [done|].
    split; [by apply shows_displays, shows_ticked|]. split; [split; simpl; [|split]|split; [|split]].
    - eapply live_ticked; [done|apply Hf].
    - intros Hin. rewrite (t_trace _ _ Ht), (t_inst _ _ Ht Hin). lia.
    - done.
    - intros Hin _. simpl. by rewrite (t_trace _ _ Ht), (t_inst _ _ Ht Hin).
    - unfold may_offer in *. by rewrite (t_trace _ _ Ht), (t_chan _ _ Ht).
    - done. }
  intros st1 s1 (Hi1 & Hd1 & Hf1 & Ha1 & Hm1 & Haw). rewrite Haw, Ed.
  eapply wp_mono; [|intros n s' Hp; eapply (step_post_after _ _ _ _ _ _ _ [] _ _ Hd1 Hp); intros o; exact id].
  set (st2 := {| conn := conn st1; awaiting := a; hold_debt := hold_debt st1; unflushed := unflushed st1 |}).
  assert (fits_state st2 s1) as Hf2 by exact Hf1. assert (anchored st2 s1) as Ha2 by exact Ha1.
  destruct d as [q|q r|r| |violation].
  - eapply wp_mono; [by apply (wp_deliver_then st2 q None)|]. intros n s' Hp.
    eapply (step_post_after _ _ _ s1 s1 _ _ [] _ _ (shows_displays _ _ _ (shows_refl _)) Hp); simpl; naive_solver.
  - eapply wp_mono; [by apply (wp_deliver_then st2 q (Some r))|]. intros n s' Hp.
    eapply (step_post_after _ _ _ s1 s1 _ _ [] _ _ (shows_displays _ _ _ (shows_refl _)) Hp); simpl; naive_solver.
  - eapply wp_mono; [by apply (wp_settle_reply st2 (Some r))|]. intros n s' Hp.
    eapply (step_post_after _ _ _ s1 s1 _ _ [] _ _ (shows_displays _ _ _ (shows_refl _)) Hp); simpl.
    + intros o ->. split; [done|]. by exists Enqueued.
    + intros o ->. by exists Enqueued.
  - apply wp_bind, wp_emit. cbn beta.
    apply wp_bind, wp_flush_replies; [apply inv_log; eauto|apply live_debug, Hf2|].
    intros r s3 Hi3 Hs3 _.
    assert (displays s1 s3 []) as Hd3 by exact (shows_displays _ _ _ (shows_trans _ _ _ _ _ (shows_debug _ _) Hs3)).
    destruct r as [[]|e]; apply wp_ret; (split; [done|]); exists []; (split; [by exists Enqueued|]);
      by apply leaves_quiet.
  - eapply wp_mono; [by apply (wp_on_violation (fun _ => False) a st2)|]. intros n s' Hp.
    eapply (step_post_after _ _ _ s1 s1 _ _ [] _ _ (shows_displays _ _ _ (shows_refl _)) Hp); simpl; [done|].
    intros o ->. by exists Enqueued.
Qed.

Lemma wp_on_read_error st e s :
  Inv s -> fits_state st s ->
  wp (on_read_error idle_timeout max_packet_size st e)
    (step_post (fun _ => False) (fun o => o = []) (awaiting st) s) s.
Proof.
  intros Hi Hf. unfold on_read_error. destruct (classify_read_error e); [by apply wp_on_violation|].
  apply wp_if; intros Ht; wp_steps; (split; [apply inv_log; eauto|]); exists []; (split; [done|]).
  - exists [], [truncated_line]. split; [by constructor|].
    unfold add; cbn [trace]. rewrite trk_snoc, !app_nil_r. done.
  - apply leaves_quiet; [done|done|]. apply shows_displays, shows_debug.
Qed.

(** ** One round of the loop *)

(** A round reads a packet and answers it in full, or is the last. *)
Definition round (a a' : AwaitingRelease) (o : list Obs) : Prop :=
  exists p d adm, dispatch p a = (d, a') /\ goes_on d /\ adm <> NoReplyTime /\
    o = ORead p :: answers d adm.

Definition last_round (a : AwaitingRelease) (o : list Obs) : Prop :=
  o = [] \/ exists p d a' adm, dispatch p a = (d, a') /\ o = ORead p :: offers d adm.

Definition round_post (a : AwaitingRelease) (s : Sess) (n : LoopNext) (s' : Sess) : Prop :=
  Inv s' /\
  match n with
  | inl st => (fits_state st s' /\ anchored st s') /\ exists o, round a (awaiting st) o /\ displays s s' o
  | inr r => exists o, last_round a o /\ leaves r o s s'
  end.

Lemma round_read a p s s1 n s' :
  displays s s1 [ORead p] ->
  (let '(d, a') := dispatch p a in
   step_post (fun o => goes_on d /\ exists adm, adm <> NoReplyTime /\ o = answers d adm)
             (fun o => exists adm, o = offers d adm) a' s1 n s') ->
  round_post a s n s'.
Proof.
  intros Hd Hp. destruct (dispatch p a) as [d a'] eqn:Ed. destruct Hp as [Hi Hn].
  split; [done|]. destruct n as [st|r].
  - destruct Hn as (Hf & <- & o & (Hg & adm & Hadm & ->) & Hd'). split; [done|].
    exists (ORead p :: answers d adm). split; [by exists p, d, adm|].
    exact (displays_trans _ _ _ _ _ Hd Hd').
  - destruct Hn as (o & [adm ->] & Hl). exists (ORead p :: offers d adm).
    split; [right; by exists p, d, a', adm|]. exact (leaves_after _ _ _ _ _ _ Hd Hl).
Qed.

Lemma round_silent a s s1 n s' (part : list Obs -> Prop) a' :
  displays s s1 [] -> (forall o, part o -> o = []) ->
  step_post (fun _ => False) part a' s1 n s' -> round_post a s n s'.
Proof.
  intros Hd Hpart [Hi Hn]. split; [done|]. destruct n as [st|r].
  - by destruct Hn as (_ & _ & o & [] & _).
  - destruct Hn as (o & Ho & Hl). apply Hpart in Ho as ->. exists []. split; [by left|].
    exact (leaves_after _ _ _ _ _ _ Hd Hl).
Qed.

Definition read_obs (r : option (option (io_result (MqttPacket * Z)))) : list Obs :=
  match r with Some (Some (Ok (p, _))) => [ORead p] | _ => [] end.

(** The state after a read: nothing was waiting, or the packet was buffered
    and the channel is as it was. *)
Lemma after_read st s d r w :
  Inv s -> fits_state st s -> next_packet d (world s) = (r, w) ->
  (unflushed st = None \/
    holds_complete_packet (read_buffer (world s)) = true /\ would_hold (channel (world s)) = false) ->
  due_by (trk (trace s)) (now (world s)) d ->
  (instantaneous -> waited (trk (trace s)) = false -> d = sat_sub (last_read (trk (trace s)) + idle_timeout) (now (world s))) ->
  let s' := add s w (EvRead (now (world s)) d (holds_complete_packet (read_buffer (world s))) r (now w)) in
  Inv s' /\ fits_state st s' /\ displays s s' (read_obs r) /\ may_offer s' /\
  (forall p n, r = Some (Some (Ok (p, n))) -> last_read (trk (trace s')) = now (world s')).
Proof.
  intros Hi [[Hf Hdue] [Ha Hdebt]] Hop Hbuf Hd Hex. pose proof (next_packet_buffered _ _ _ _ Hop) as Hsame.
  apply next_packet_spec in Hop. pose proof (i_clock _ Hi) as [Hlr _]. pose proof (adv_now _ _ Hop) as Hn.
  split.
  { apply inv_advance; [done|done| |done]. split; [done|]. split; [|by split]. intros Hb.
    destruct Hbuf as [Hu|[Hb' _]]; [by rewrite Hu in Hdue|congruence]. }
  unfold fits_state, live, displays, may_offer, add; cbn [trace world]. rewrite trk_snoc.
  assert (unflushed st = None -> pend (trk (trace s)) = None) as Hp by (intros Hu; by rewrite Hu in Hdue).
  assert (forall k, pend k = pend (trk (trace s)) -> last_read (trk (trace s)) <= last_read k ->
    due (unflushed st) k) as Hdue'.
  { intros k Hk Hle. unfold due in *. destruct (unflushed st); [|by rewrite Hk].
    destruct Hdue as (tq & ? & ? & Hin). exists tq. rewrite Hk. split_and!; [done|done|].
    intros Hi'. specialize (Hin Hi'). lia. }
  assert (pend (trk (trace s)) = None \/ would_hold (channel w) = false) as Hm.
  { destruct Hbuf as [Hu|[Hb Hw]]; [by left; apply Hp|]. right. by rewrite Hsame. }
  destruct r as [[[[p n]|e]|]|]; simpl; rewrite ?app_nil_r;
    (split; [split; [split; [done|apply Hdue'; simpl; [done|lia]]|split; [|done]]|]);
    try (by split_and!); intros Hin; specialize (Ha Hin); lia.
Qed.

Lemma wp_packet_loop_step st s :
  Inv s -> fits_state st s -> anchored st s ->
  wp (packet_loop_step idle_timeout max_packet_size ingest_deadline st) (round_post (awaiting st) s) s.
Proof.
  intros Hi Hf Ha. unfold packet_loop_step. apply wp_bind, wp_peek. apply wp_bind.
  set (must_flush := negb _ || _).
  eapply wp_mono with (Q := fun x s1 => Inv s1 /\ shows s s1 [] /\
    (x.1 = Ok tt -> live x.2 s1 /\ (x.2 = None \/ must_flush = false /\ s1 = s))).
  { apply wp_if; intros Hmf.
    - apply wp_flush_replies; [done|apply Hf|]. intros r s1 Hi1 Hs1 Hl1. simpl. auto.
    - apply wp_ret. simpl. split; [done|]. split; [apply shows_refl|]. intros _. split; [apply Hf|auto]. }
  intros [flushed u] s1 (Hi1 & Hs1 & Hok); simpl in *. destruct flushed as [[]|e].
  2: { apply wp_ret. split; [done|]. exists []. split; [by left|].
       apply leaves_quiet; [done|done|]. by apply shows_displays. }
  destruct (Hok eq_refl) as [Hl1 Hu]. apply wp_bind, wp_peek.
  set (st1 := {| conn := conn st; awaiting := awaiting st; hold_debt := hold_debt st; unflushed := u |}).
  assert (fits_state st1 s1) as Hf1.
  { by eapply fits_shows. }
  apply (anchored_shows _ _ _ _ Hs1) in Ha.
  apply wp_bind, wp_idle_left; [done..|]. intros d s2 Hi2 Ht2 Hf2 Hd _ Hdue Hex.
  apply (anchored_shows _ _ _ _ (shows_ticked _ _ Ht2)) in Ha.
  assert (displays s s2 []) as Hd2
    by exact (shows_displays _ _ _ (shows_trans _ _ _ _ _ Hs1 (shows_ticked _ _ Ht2))).
  assert (u = None \/ holds_complete_packet (read_buffer (world s2)) = true /\
                     would_hold (channel (world s2)) = false) as Hbuf.
  { destruct Hu as [->|[Hmf ->]]; [by left|]. right. rewrite (t_buf _ _ Ht2), (t_chan _ _ Ht2).
    unfold must_flush in Hmf. zbool. done. }
  unfold timeout, fut_next_packet. apply wp_bind, wp_perform. intros r w Hop.
  destruct (after_read st1 s2 d r w) as (Hi3 & Hf3 & Hd3 & Hm3 & Hr3); [done|done|done|done|by split; [lia|]| |].
  { intros Hin Hw. specialize (Ha Hin Hw). simpl in Hex. rewrite Hex, Ha. pose proof (i_clock _ Hi2) as [Hc _]. unfold sat_sub. lia. }
  pose proof (displays_trans _ _ _ _ _ Hd2 Hd3) as Hd23. set (s3 := add s2 w _) in *. clearbody s3.
  destruct r as [[[[p n]|e]|]|]; simpl in Hd23.
  - pose proof (wp_on_packet st1 (bool_decide (read_buffer (world s1) = [])) p s3) as Hon.
    specialize (Hon Hi3 Hf3 Hm3 (Hr3 _ _ eq_refl)). pose proof (round_read (awaiting st) p s s3) as Hrr.
    change (awaiting st1) with (awaiting st) in Hon.
    destruct (dispatch p (awaiting st)) as [dd aa]. eapply wp_mono; [exact Hon|]. auto.
  - eapply wp_mono; [by apply wp_on_read_error|]. intros n s' Hp.
    by eapply (round_silent _ _ _ _ _ _ _ Hd23); [|exact Hp].
  - wp_steps. split; [apply inv_log; eauto|]. exists []. split; [by left|].
    apply leaves_quiet; [done|done|].
    exact (displays_trans _ _ _ _ _ Hd23 (shows_displays _ _ _ (shows_debug _ _))).
  - eapply wp_mono; [by apply (wp_leave_idle (fun _ => False) (awaiting st))|].
    intros n s' Hp. by eapply (round_silent _ _ _ _ _ _ _ Hd23); [|exact Hp].
Qed.

(** ** The loop *)

(** What a run of full rounds shows, from one QoS 2 state to another. *)
Inductive transcript : AwaitingRelease -> list Obs -> AwaitingRelease -> Prop :=
| transcript_nil a : transcript a [] a
| transcript_round a o a1 o1 a2 : transcript a o a1 -> round a1 a2 o1 -> transcript a (o ++ o1) a2.

Definition loop_post (s : Sess) (r : result SessionOutcome Error) (s' : Sess) : Prop :=
  Inv s' /\ exists o a o1, transcript AwaitingRelease_default o a /\ last_round a o1 /\ leaves r (o ++ o1) s s'.

Lemma wp_run_packet_loop fuel state s :
  Inv s -> live None s ->
  (instantaneous -> cs_last_packet_time state = last_read (trk (trace s))) ->
  wp (run_packet_loop idle_timeout max_packet_size ingest_deadline fuel state) (loop_post s) s.
Proof.
  intros Hi Hl Ha. unfold wp, run_packet_loop.
  destruct (loop _ fuel _) as [[r s']|] eqn:El; [|done].
  pose (I := fun x : LoopState * Sess => Inv x.2 /\ (fits_state x.1 x.2 /\ anchored x.1 x.2) /\
    exists o, transcript AwaitingRelease_default o (awaiting x.1) /\ displays s x.2 o).
  pose (Q := fun x : Exec (result SessionOutcome Error) * Sess =>
    match x with (Done r, s') => loop_post s r s' | (Panic, _) => False | (OutOfFuel, _) => True end).
  apply (loop_inv _ I Q) in El; [done| | |].
  - intros [st s1] [st2 s2] (Hi1 & [Hf1 Hb1] & o & Ht & Hd). simpl in *. intros Es.
    pose proof (wp_packet_loop_step st s1 Hi1 Hf1 Hb1) as Hw. unfold wp in Hw.
    destruct (packet_loop_step _ _ _ st s1) as [[[st'|r']| |] s3]; simplify_eq.
    destruct Hw as (Hi2 & Hf2 & o2 & Hr & Hd2). split; [done|]. split; [done|]. exists (o ++ o2).
    split; [by econstructor|by eapply displays_trans].
  - intros [st s1] [r2 s2] (Hi1 & [Hf1 Hb1] & o & Ht & Hd). simpl in *. intros Es.
    pose proof (wp_packet_loop_step st s1 Hi1 Hf1 Hb1) as Hw. unfold wp in Hw.
    destruct (packet_loop_step _ _ _ st s1) as [[[st'|r']| |] s3]; simplify_eq; try done.
    destruct Hw as (Hi2 & o2 & Hr & Hd2). split; [done|]. exists o, (awaiting st), o2.
    split; [done|]. split; [done|]. by eapply leaves_after.
  - split; [done|]. split.
    { split; [|by intros Hin _; apply Ha]. split; [done|]. split; [|done]. intros Hin. simpl. by rewrite Ha. }
    exists []. split; [constructor|].
    apply shows_displays, shows_refl.
Qed.
End LoopSafety.
