(* ===== verification/SessionSpec.v ===== *)
(** * Whole sessions

    [serve_session] of [Session] from the first byte to the end: the handshake
    under its shared budget, then the packet loop of [SessionSafety].  The
    claims about sessions are projections of [serve_session_spec]. *)

From S2P Require Import Prelude FixedHeader Rmqtt Errors Decoder Packet Handshake Api Channel Runtime Session SessionSafety.
Open Scope uring_scope.

Section HandshakeSafety.
Context `{RmqttCodec} `{RuntimeSpec}.
Context (start budget : Z).

Definition is_connack (p : MqttPacket) : Prop :=
  (exists a, p = V3 (V3_ConnectAck a)) \/ (exists a, p = V5 (V5_ConnectAck a)).

(** Every wait of the handshake ends when the shared budget does. *)
Definition on_budget (t d : Z) : Prop := d = sat_sub (start + budget) t.

Definition hs_safe (k : Track) (e : Event) : Prop :=
  match e with
  | EvVersion t d _ | EvRead t d _ _ _ => on_budget t d /\ greeted k = false /\ fail k = false /\ pend k = None
  | EvSend t d p _ => on_budget t d /\ greeted k = false /\ fail k = false /\ is_connack p
  | EvFlush t d _ => on_budget t d /\ greeted k = false /\ fail k = false
  | EvWait _ _ | EvAdmit _ _ => False
  | EvDebug _ | EvWarn _ => True
  end.

Record HInv (s : Sess) : Prop := {
  h_chan : chan_good (world s);
  h_good : good hs_safe [] (trace s);
  h_clock : clock_ok (trk (trace s)) (now (world s));
  h_start : start <= now (world s)
}.

(** No write has failed and none is pending; [o] is what was shown, and
    [done] says whether the CONNACK was flushed. *)
Definition quiet (done : bool) (o : list Obs) (s : Sess) : Prop :=
  fail (trk (trace s)) = false /\ pend (trk (trace s)) = None /\ obs (trk (trace s)) = o /\
  greeted (trk (trace s)) = done.
Definition clean := quiet false.

Definition hs_result (r : result SessionOutcome Error) : Prop := r = Ok Refused \/ exists e, r = Err e.

(** The session ended in the handshake after showing [o] and at most one
    CONNACK among [allowed]. *)
Definition hs_ended (o : list Obs) (allowed : MqttPacket -> Prop) (r : result SessionOutcome Error)
    (s' : Sess) : Prop :=
  HInv s' /\ hs_result r /\
  (obs (trk (trace s')) = o \/
   exists p, allowed p /\ is_connack p /\ obs (trk (trace s')) = o ++ [OSend p]).

Lemma hinv_log s e : HInv s -> (exists l, e = EvDebug l \/ e = EvWarn l) -> HInv (add s (world s) e).
Proof.
  intros [] He. split; simpl; [done| |rewrite trk_snoc|done].
  - constructor; [done|]. by destruct He as [l [-> | ->]].
  - eapply track_clock; [done|done|]. by destruct He as [l [-> | ->]].
Qed.

Lemma clean_log o s e : clean o s -> (exists l, e = EvDebug l \/ e = EvWarn l) -> clean o (add s (world s) e).
Proof. intros Hc [l [-> | ->]]; unfold clean, quiet, add in *; simpl; by rewrite trk_snoc. Qed.

Lemma wp_remaining s (Q : Z -> Sess -> Prop) :
  HInv s ->
  (forall d s1, HInv s1 -> ticked s s1 -> on_budget (now (world s1)) d -> Q d s1) ->
  wp (remaining start budget) Q s.
Proof.
  intros [] HQ. unfold remaining, elapsed_since. wp_steps.
  pose proof (tick_now (world s)). destruct (tick_frame (world s)) as (Hv & Hc & Hb).
  apply HQ.
  - split; simpl; [unfold chan_good; by rewrite Hc|done|by eapply clock_ok_le|lia].
  - split; simpl; auto.
  - unfold on_budget, elapsed, sat_sub. simpl. lia.
Qed.

Lemma hinv_advance s w e :
  HInv s -> now (world s) <= now w -> (chan_good (world s) -> chan_good w) -> hs_safe (trk (trace s)) e ->
  match e with
  | EvRead _ _ _ _ t1 => t1 = now w
  | EvSend t0 _ _ _ => t0 = now (world s)
  | _ => True
  end -> HInv (add s w e).
Proof.
  intros [] Hn Hc Hs He. split; simpl; [auto|by constructor| |lia]. rewrite trk_snoc. by eapply track_clock.
Qed.

(** A CONNACK: written and flushed under what is left of the budget. *)
Lemma wp_send_connack o p s (Q : result unit Error -> Sess -> Prop) :
  HInv s -> clean o s -> is_connack p ->
  (forall r s', HInv s' -> version (world s') = version (world s) ->
    last_read (trk (trace s')) = last_read (trk (trace s)) ->
    warns (trk (trace s')) = warns (trk (trace s)) ->
    (obs (trk (trace s')) = o \/ obs (trk (trace s')) = o ++ [OSend p]) ->
    (r = Ok tt -> quiet true (o ++ [OSend p]) s') -> Q r s') ->
  wp (send_connack start budget p) Q s.
Proof.
  intros Hi (Hf & Hp & Ho & Hgr) Hconn HQ. unfold send_connack. apply wp_bind, wp_remaining; [done|].
  intros d s1 Hi1 Ht1 Hd. unfold bounded_send, timeout, fut_bind. apply wp_bind, wp_bind, wp_peek.
  assert (trace s1 = trace s) as Htr by apply Ht1.
  assert (version (world s1) = version (world s)) as Hv1 by apply Ht1.
  rewrite <- Htr in *. rewrite <- Hv1 in HQ. clear Ht1 Htr Hv1 Hi s. rename s1 into s.
  unfold fut_send. apply wp_bind, wp_perform. intros r w Hop. apply send_spec in Hop as [Hn Hv Hc].
  set (s2 := add s w _).
  assert (HInv s2) as Hi2 by (by apply hinv_advance).
  assert (version (world s2) = version (world s) /\ trk (trace s2) = track (trk (trace s))
    (EvSend (now (world s)) d p r)) as [Hv2 Hk2] by (unfold s2, add; simpl; by rewrite trk_snoc).
  assert (now (world s) <= now (world s2)) as Hn2 by done. clearbody s2. rewrite <- Hv2 in HQ.
  destruct r as [[[]|e]|].
  - apply wp_bind, wp_peek. unfold fut_flush. apply wp_perform. intros r w' Hop.
    apply flush_spec in Hop as [Hn' Hv' Hc'].
    set (s3 := add s2 w' _).
    assert (HInv s3) as Hi3.
    { apply hinv_advance; [done|done|done| |done]. rewrite Hk2. split; [|done].
      unfold on_budget, sat_sub in *. lia. }
    assert (version (world s3) = version (world s2)) as Hv3 by done. rewrite <- Hv3 in HQ.
    assert (exists d', trk (trace s3) = track (trk (trace s2)) (EvFlush (now (world s2)) d' r)) as [d' Hk3]
      by (unfold s3, add; simpl; rewrite trk_snoc; eauto). clearbody s3.
    destruct r as [[[]|e]|]; wp_steps.
    + apply HQ; [done|done|by rewrite Hk3, Hk2..|by right; rewrite Hk3, Hk2; simpl; rewrite Ho|].
      intros _. unfold quiet. rewrite Hk3, Hk2. simpl. by rewrite Ho.
    + apply HQ; [done|done|by rewrite Hk3, Hk2..|by right; rewrite Hk3, Hk2; simpl; rewrite Ho|done].
    + apply HQ; [apply hinv_log; eauto|done|..|done]; unfold add; cbn [trace]; rewrite trk_snoc, Hk3, Hk2;
        [done|done|by right; simpl; rewrite Ho].
  - wp_steps. apply HQ; [done|done|by rewrite Hk2..|by left; rewrite Hk2|done].
  - wp_steps. apply HQ; [apply hinv_log; eauto|done|..|done]; unfold add; cbn [trace]; rewrite trk_snoc, Hk2;
      [done|done|by left].
Qed.

Lemma wp_refuse_with o p s :
  HInv s -> clean o s -> is_connack p ->
  wp (refuse_with start budget p) (hs_ended o (fun q => q = p)) s.
Proof.
  intros Hi Hc Hp. unfold refuse_with. apply wp_bind, (wp_send_connack o); [done..|].
  intros r s' Hi' _ _ _ Ho _. destruct r as [[]|e]; apply wp_ret; (split; [done|]);
    (split; [unfold hs_result; eauto|]); destruct Ho as [->| ->]; eauto 10.
Qed.

Lemma hs_failed o allowed e s l :
  HInv s -> clean o s -> (exists line, l = EvDebug line \/ l = EvWarn line) ->
  hs_ended o allowed (Err e) (add s (world s) l).
Proof.
  intros Hi Hc Hl. split; [by apply hinv_log|]. split; [right; eauto|]. left. by apply (clean_log o).
Qed.

Lemma wp_transport_error o allowed e s (Q : unit -> Sess -> Prop) :
  HInv s -> clean o s -> (forall s', hs_ended o allowed (Err e) s' -> Q tt s') ->
  wp (log_handshake_transport_error e) Q s.
Proof.
  intros Hi Hc HQ. unfold log_handshake_transport_error. apply wp_if; intros _;
    apply wp_emit, HQ, hs_failed; eauto.
Qed.

Lemma wp_enter_packets o v m s (Q : unit -> Sess -> Prop) :
  HInv s -> clean o s ->
  (forall s', HInv s' -> clean o s' -> trace s' = trace s -> version (world s') = v -> Q tt s') ->
  wp (enter_packets v m) Q s.
Proof.
  intros [] Hc HQ. apply wp_enter. destruct (into_packets_spec v m (world s)) as (Hv & Hn & Hch).
  apply HQ; [|done|done|done]. split; simpl; rewrite ?Hn; try done. unfold chan_good. by rewrite Hch.
Qed.

(** The refusals of a CONNECT that did not decode: its protocol level or its
    client id is not acceptable. *)
Definition early_refusal (m : MaxInboundPacketSize) (p : MqttPacket) : Prop :=
  p = V3 (V3_ConnectAck {| v3_return_code := UnacceptableProtocolVersion; v3_session_present := false |}) \/
  p = V3 (V3_ConnectAck {| v3_return_code := IdentifierRejected; v3_session_present := false |}) \/
  p = V5 (V5_ConnectAck (honest_v5_connack V5_ClientIdentifierNotValid m)).

Lemma wp_detect_version m s :
  HInv s -> clean [] s ->
  wp (detect_version start budget m) (fun x s' =>
    match x with
    | inl _ => HInv s' /\ clean [] s' /\ warns (trk (trace s')) = warns (trk (trace s))
    | inr r => hs_ended [] (early_refusal m) r s'
    end) s.
Proof.
  intros Hi Hc. unfold detect_version. apply wp_bind, wp_remaining; [done|]. intros d s1 Hi1 Ht1 Hd.
  unfold timeout, fut_next_version. apply wp_bind, wp_perform. intros r w Hop.
  apply next_version_spec in Hop as [Hn Hch].
  set (s2 := add s1 w _).
  assert (HInv s2) as Hi2 by (apply hinv_advance; rewrite ?(t_trace _ _ Ht1); destruct Hc as (? & ? & _ & ?); done).
  assert (trk (trace s2) = trk (trace s)) as Hk by (unfold s2, add; simpl; by rewrite trk_snoc, (t_trace _ _ Ht1)).
  assert (clean [] s2) as Hc2 by (unfold clean, quiet; by rewrite Hk). clearbody s2.
  destruct r as [[[v|e]|]|].
  - apply wp_ret. by rewrite Hk.
  - destruct (downcast_decode e) as [[]|] eqn:Ed;
      try (wp_steps; apply hs_failed; by eauto).
    + apply wp_bind, wp_emit. cbn beta. apply wp_bind, (wp_enter_packets []);
        [apply hinv_log; eauto|apply clean_log; eauto|]. intros s3 Hi3 Hc3 _ _.
      apply wp_bind. eapply wp_mono; [apply (wp_refuse_with []); [done|done|left; eauto]|].
      intros r s4 (? & ? & Ho). apply wp_ret. split_and!; [done..|]. unfold early_refusal. naive_solver.
    + apply wp_bind, (wp_transport_error [] (early_refusal m)); [done|done|]. intros s3 Hs3. by apply wp_ret.
  - apply wp_ret. split; [done|]. split; [right; eauto|]. left. apply Hc2.
  - wp_steps. apply hs_failed; eauto.
Qed.

Lemma wp_read_connect m v s :
  HInv s -> clean [] s -> version (world s) = v ->
  wp (read_connect start budget m v) (fun x s' =>
    match x with
    | inl p => HInv s' /\ clean [ORead p] s' /\ warns (trk (trace s')) = warns (trk (trace s)) /\
               version (world s') = v /\ matches_version v p /\ last_read (trk (trace s')) = now (world s')
    | inr r => hs_ended [] (early_refusal m) r s'
    end) s.
Proof.
  intros Hi Hc Hv. unfold read_connect. apply wp_bind, wp_remaining; [done|]. intros d s1 Hi1 Ht1 Hd.
  unfold timeout, fut_next_packet. apply wp_bind, wp_perform. intros r w Hop.
  assert (forall p n, r = Some (Some (Ok (p, n))) -> matches_version v p) as Hmv.
  { intros p n ->. apply next_packet_version in Hop. by rewrite (t_version _ _ Ht1), Hv in Hop. }
  apply next_packet_spec in Hop as [Hn Hvw Hch].
  set (s2 := add s1 w _).
  assert (HInv s2) as Hi2 by (apply hinv_advance; rewrite ?(t_trace _ _ Ht1); destruct Hc as (? & ? & _ & ?); done).
  assert (exists b, trk (trace s2) = track (trk (trace s)) (EvRead (now (world s1)) d b r (now (world s2)))) as [b Hk]
    by (unfold s2, add; cbn [trace world]; rewrite trk_snoc, (t_trace _ _ Ht1); by eexists).
  assert (version (world s2) = v) as Hv2 by (simpl; by rewrite Hvw, (t_version _ _ Ht1)). clearbody s2.
  destruct Hc as (Hf & Hp & Ho & Hgr). destruct r as [[[[p n]|e]|]|]; simpl in Hk.
  - apply wp_ret. split; [done|]. unfold clean, quiet. rewrite Hk; simpl. rewrite Ho. split_and!; eauto.
  - assert (clean [] s2) as Hc2 by (unfold clean, quiet; by rewrite Hk).
    destruct (downcast_decode e) as [[]|] eqn:Ed; try (wp_steps; apply hs_failed; by eauto).
    + apply wp_bind, wp_emit. cbn beta. apply wp_bind.
      eapply wp_mono; [apply (wp_refuse_with []); [apply hinv_log; eauto|apply clean_log; eauto|]|].
      { destruct v; [left|right]; eauto. }
      intros r s4 (? & ? & Ho'). apply wp_ret. split_and!; [done..|]. destruct Ho' as [?|(p & -> & ? & ?)]; [by left|right].
      exists (invalid_client_id_refusal m v). split; [|done]. right. destruct v; [by left|by right].
    + apply wp_bind, (wp_transport_error [] (early_refusal m)); [done|done|]. intros s3 Hs3. by apply wp_ret.
  - apply wp_ret. split; [done|]. split; [right; eauto|]. left. by rewrite Hk.
  - wp_steps. apply hs_failed; [done| |eauto]. unfold clean, quiet. by rewrite Hk.
Qed.
End HandshakeSafety.

(** ** The whole session *)

Section Whole.
Context `{RmqttCodec} `{RuntimeSpec}.
Context (peer_addr : string) (connection_timeout_secs idle_timeout_secs : Z)
  (m : MaxInboundPacketSize) (ingest_deadline : Z).
Hypothesis Hidle : 0 <= idle_timeout_secs.
Hypothesis Hingest : 0 <= ingest_deadline.

Definition handshake_budget : Z := from_secs (Z.min connection_timeout_secs MAX_TIMEOUT_SECS).

(** A session that was accepted: the handshake [base], the CONNECT and what
    was decided about it, then the packet loop. *)
Record accepted (start : Z) (r : result SessionOutcome Error) (s' : Sess) (base : list Event)
    (v : ProtocolVersion) (connect connack : MqttPacket) (idle : Z) (mps : option Z)
    (o : list Obs) (a : AwaitingRelease) (o1 c : list Obs) : Prop := {
  ac_hs : good (hs_safe start handshake_budget) [] base;
  ac_base : obs (trk base) = [ORead connect; OSend connack] /\ greeted (trk base) = true;
  ac_decision : exists id ka,
    evaluate_connect connect idle_timeout_secs peer_addr m = Accept connack id ka idle mps;
  ac_version : matches_version v connect;
  ac_loop : good (safe idle mps ingest_deadline v) base (trace s');
  ac_rounds : transcript v AwaitingRelease_default o a;
  ac_last : last_round a o1;
  ac_closing : closing r c (warns (trk (trace s')));
  ac_obs : obs (trk (trace s')) = [ORead connect; OSend connack] ++ (o ++ o1) ++ c
}.

(** A session that ended in the handshake: at most the CONNECT was read and
    at most one CONNACK written, the one the decision carries. *)
Definition ended_early (start : Z) (r : result SessionOutcome Error) (s' : Sess) : Prop :=
  good (hs_safe start handshake_budget) [] (trace s') /\ hs_result r /\
  exists read allowed,
    (obs (trk (trace s')) = read \/
     exists p, allowed p /\ is_connack p /\ obs (trk (trace s')) = read ++ [OSend p]) /\
    (read = [] /\ (forall p, allowed p -> early_refusal m p) \/ exists connect, read = [ORead connect] /\
      forall p, allowed p ->
        decision_connack (evaluate_connect connect idle_timeout_secs peer_addr m) = Some p).

Definition session_post (start : Z) (r : result SessionOutcome Error) (s' : Sess) : Prop :=
  ended_early start r s' \/
    exists base v connect connack idle mps o a o1 c,
      accepted start r s' base v connect connack idle mps o a o1 c.

Lemma hs_ended_early start o allowed r s' :
  hs_ended start handshake_budget o allowed r s' ->
  (o = [] /\ (forall p, allowed p -> early_refusal m p) \/ exists connect, o = [ORead connect] /\ forall p, allowed p ->
    decision_connack (evaluate_connect connect idle_timeout_secs peer_addr m) = Some p) ->
  session_post start r s'.
Proof.
  intros ([_ Hg _ _] & Hr & Ho) Hread. left. split; [done|]. split; [done|].
  by exists o, allowed.
Qed.

Lemma wp_act_on_decision start fuel v connect state received s :
  let decision := evaluate_connect connect idle_timeout_secs peer_addr m in
  HInv start handshake_budget s -> clean [ORead connect] s -> warns (trk (trace s)) = [] ->
  version (world s) = v -> matches_version v connect ->
  (instantaneous -> received = last_read (trk (trace s))) ->
  wp (act_on_decision start handshake_budget fuel decision state received ingest_deadline) (session_post start) s.
Proof.
  intros decision Hi Hc Hw Hv Hmv Hrec. unfold act_on_decision.
  pose proof (connack_of_decision connect idle_timeout_secs peer_addr m) as Hconnack.
  destruct decision as [connack id ka idle mps|connack [|]| |] eqn:Ed; fold decision in Hconnack; rewrite Ed in Hconnack.
  - apply wp_bind, (wp_send_connack _ _ [ORead connect]); [done|done|apply (Hconnack connack false); eauto 10|].
    intros r s1 Hi1 Hv1 Hl1 Hw1 Ho1 Hok. destruct r as [[]|e].
    2: { apply wp_ret. eapply (hs_ended_early start [ORead connect] (fun p => p = connack)).
         - split; [done|]. split; [right; eauto|]. destruct Ho1 as [->| ->]; [by left|].
           right. exists connack. split; [done|]. split; [apply (Hconnack connack false); eauto 10|done].
         - right. exists connect. split; [done|]. intros p ->. fold decision. by rewrite Ed. }
    destruct (Hok eq_refl) as (Hf & Hp & Ho & Hgr).
    assert (0 <= idle) as Hi0 by exact (accept_idle_nonneg _ _ _ _ _ _ _ _ _ Hidle Ed).
    eapply wp_mono; [apply (wp_run_packet_loop idle mps ingest_deadline v (trace s1)); try done|].
    + split; [apply Hi1|congruence|constructor|apply Hi1].
    + intros Hin. simpl. rewrite Hl1. auto.
    + intros r s' (Hinv & o & a & o1 & Ht & Hlast & c & ws & Hcl & Hobs & Hws). right.
      exists (trace s1), v, connect, connack, idle, mps, o, a, o1, c.
      rewrite Hw1, Hw in Hws. simpl in Hws. subst ws. rewrite Ho in Hobs.
      split; [apply Hi1|done|by exists id, ka|done|apply Hinv|done..].
  - apply wp_bind, wp_emit. cbn beta. eapply wp_mono.
    + apply (wp_refuse_with _ _ [ORead connect]); [apply hinv_log; eauto|apply clean_log; eauto|].
      apply (Hconnack connack true). by right.
    + intros r s' He. eapply hs_ended_early; [done|]. right. exists connect. split; [done|].
      intros p ->. fold decision. by rewrite Ed.
  - wp_steps. eapply (hs_ended_early start [ORead connect] (fun _ => False)).
    + split; [by do 2 (apply hinv_log; [|eauto])|]. split; [by left|]. left.
      apply (clean_log [ORead connect]); [apply clean_log|]; eauto.
    + right. by exists connect.
  - wp_steps. eapply (hs_ended_early start [ORead connect] (fun _ => False)).
    + split; [by apply hinv_log; eauto|]. split; [by left|]. left. apply (clean_log [ORead connect]); eauto.
    + right. by exists connect.
  - wp_steps. eapply (hs_ended_early start [ORead connect] (fun _ => False)).
    + apply hs_failed; eauto.
    + right. by exists connect.
Qed.

Definition session_start (w : World) : Sess := {| world := w; trace := [] |}.

(** [handshake_start]: the second clock reading of a session. *)
Definition handshake_started (w : World) : Z := now (tick (tick w)).

(** A world a session can start in. *)
Definition world_ok (w : World) : Prop := chan_good w /\ 0 <= now w.

Lemma serve_session_spec fuel w :
  world_ok w ->
  wp (serve_session fuel peer_addr connection_timeout_secs idle_timeout_secs m ingest_deadline)
    (session_post (handshake_started w)) (session_start w).
Proof.
  intros [Hg Hw0]. unfold serve_session. apply wp_bind, wp_now. cbn beta. apply wp_bind, wp_now. cbn beta.
  set (s0 := at_world (at_world _ _) _). set (start := now (world s0)). fold handshake_budget.
  change (handshake_started w) with start.
  change (now (tick (world (at_world (session_start w) (tick (world (session_start w))))))) with start.
  assert (HInv start handshake_budget s0) as Hi0.
  { pose proof (tick_now w). pose proof (tick_now (tick w)).
    destruct (tick_frame w) as (_ & Hc & _). destruct (tick_frame (tick w)) as (_ & Hc' & _).
    split; simpl; [unfold chan_good, s0; simpl; by rewrite Hc', Hc|constructor|split; [simpl; lia|done]|done]. }
  apply wp_bind. eapply wp_mono; [by apply wp_detect_version|].
  intros [v|r] s1; simpl; [|intros He; apply wp_ret; eapply hs_ended_early; [done|by left; split]].
  intros (Hi1 & Hc1 & Hw1). apply wp_bind, wp_emit. cbn beta.
  apply wp_bind, (wp_enter_packets start handshake_budget []); [apply hinv_log; eauto|apply clean_log; eauto|].
  intros s2 Hi2 Hc2 Ht2 Hv2.
  assert (warns (trk (trace s2)) = []) as Hw2 by (rewrite Ht2; unfold add; cbn [trace]; by rewrite trk_snoc).
  apply wp_bind. eapply wp_mono; [by apply wp_read_connect|].
  intros [connect|r] s3; simpl; [|intros He; apply wp_ret; eapply hs_ended_early; [done|by left; split]].
  intros (Hi3 & Hc3 & Hw3 & Hv3 & Hmv & Hl3). apply wp_bind, wp_now.
  pose proof (tick_now (world s3)). destruct (tick_frame (world s3)) as (Hv & Hch & _).
  apply (wp_act_on_decision start fuel v); [|done|simpl; congruence|simpl; congruence|done|].
  - destruct Hi3. split; simpl; [unfold chan_good; by rewrite Hch|done|by eapply clock_ok_le|lia].
  - intros Hin. simpl. rewrite Hl3, (Hin (world s3)). lia.
Qed.

Section Run.
Context (fuel : nat) (w : World) (r : result SessionOutcome Error) (s' : Sess).
Hypothesis Hw : world_ok w.
Hypothesis Hrun :
  serve_session fuel peer_addr connection_timeout_secs idle_timeout_secs m ingest_deadline
    (session_start w) = (Done r, s').

Lemma session_run : session_post (handshake_started w) r s'.
Proof. pose proof (serve_session_spec fuel w Hw) as Hs. unfold wp in Hs. by rewrite Hrun in Hs. Qed.

(** Before a wait on the peer or on the channel nothing is left in the
    write buffer, and after a failed write nothing more is written. *)
Definition disciplined (k : Track) (e : Event) : Prop :=
  match e with
  | EvVersion _ _ _ | EvRead _ _ false _ _ | EvWait _ _ => pend k = None
  | EvSend _ _ _ _ => fail k = false
  | EvFlush _ _ _ => fail k = false
  | _ => True
  end.

Lemma hs_disciplined start budget k e : hs_safe start budget k e -> disciplined k e.
Proof. destruct e as [|? ? [] ?| | | | | |]; simpl; tauto. Qed.

Lemma loop_disciplined idle mps v k e : safe idle mps ingest_deadline v k e -> disciplined k e.
Proof. destruct e as [|? ? [] ?| | | | | |]; simpl; tauto. Qed.

Lemma session_good_disciplined : good disciplined [] (trace s').
Proof.
  destruct session_run as [(Hg & _)|(base & v & connect & connack & idle & mps & o & a & o1 & c & Ha)].
  - eapply good_mono; [|done]. apply hs_disciplined.
  - destruct Ha. eapply good_trans; (eapply good_mono; [|done]); [apply hs_disciplined|].
    intros k e. apply loop_disciplined.
Qed.

(** The packets a session may write: CONNACK, replies and DISCONNECT. *)
Definition server_packet (p : MqttPacket) : Prop :=
  is_connack p \/ (exists reply v, p = render reply v) \/ is_disconnect p.

Definition sends_server_packets (k : Track) (e : Event) : Prop :=
  match e with EvSend _ _ p _ => server_packet p | _ => True end.

Lemma session_good_packets : good sends_server_packets [] (trace s').
Proof.
  destruct session_run as [(Hg & _)|(base & v & connect & connack & idle & mps & o & a & o1 & c & Ha)].
  - eapply good_mono; [|done]. intros k [] Hs; try done. left. apply Hs.
  - destruct Ha. eapply good_trans; (eapply good_mono; [|done]); intros k [] Hs; try done.
    + left. apply Hs.
    + destruct Hs as (_ & [[[reply ->]|Hd] _] & _); [right; left; eauto|right; by right].
Qed.

(** The idle timeout the CONNACK settled, read off what was shown. *)
Definition negotiated (k : Track) : option Z :=
  match obs k with
  | ORead connect :: OSend _ :: _ =>
      match evaluate_connect connect idle_timeout_secs peer_addr m with
      | Accept _ _ _ idle _ => Some idle
      | _ => None
      end
  | _ => None
  end.

(** The time an await is given.  Until the CONNACK is flushed it is what is left
    of the one budget that began at [start].  After that it is at most the
    negotiated idle timeout and, when code between two awaits takes no time,
    due by that timeout after the last packet read; a read then has exactly
    what is left, unless the session has waited for a slot, after which a
    packet may not count; a flush has time and is due by the timeout after the
    oldest reply it writes was encoded; and a wait for a slot keeps the
    reserve for the reply. *)
Definition on_time (start : Z) (k : Track) (e : Event) : Prop :=
  let left t := sat_sub (start + handshake_budget) t in
  let within t d (more : Z -> Prop) := exists idle, negotiated k = Some idle /\ due_by idle k t d /\ more idle in
  match e with
  | EvVersion t d _ => greeted k = false /\ d = left t
  | EvRead t d _ _ _ =>
      if greeted k then
        within t d (fun idle => instantaneous -> waited k = false -> d = sat_sub (last_read k + idle) t)
      else d = left t
  | EvSend t d _ _ => if greeted k then within t d (fun _ => True) else d = left t
  | EvFlush t d _ =>
      if greeted k then
        within t d (fun idle => 0 < d /\ exists queued_at, pend k = Some queued_at /\ t + d <= queued_at + idle)
      else d = left t
  | EvWait t d => greeted k = true /\ 0 < d <= ingest_deadline /\ within t (d + INGEST_REPLY_RESERVE) (fun _ => True)
  | EvAdmit _ _ | EvDebug _ | EvWarn _ => True
  end.

Lemma hs_on_time start k e : hs_safe start handshake_budget k e -> on_time start k e.
Proof. destruct e; simpl; unfold on_budget; try done; intros (Hd & Hg & _); by rewrite Hg. Qed.

Lemma loop_on_time start idle mps v k e :
  safe idle mps ingest_deadline v k e -> greeted k = true -> negotiated k = Some idle -> on_time start k e.
Proof.
  intros Hs Hg Hn. destruct e; simpl in *; rewrite ?Hg; try done.
  - destruct Hs as (_ & _ & Hd & Hx). by exists idle.
  - destruct Hs as (_ & _ & Hd). by exists idle.
  - destruct Hs as (_ & Hp & Hd & Hq). by exists idle.
  - destruct Hs as (_ & _ & Hi & Hd). split; [done|]. split; [done|]. by exists idle.
Qed.

Lemma session_good_on_time : good (on_time (handshake_started w)) [] (trace s').
Proof.
  destruct session_run as [(Hg & _)|(base & v & connect & connack & idle & mps & o & a & o1 & c & Ha)].
  - eapply good_mono; [|done]. apply hs_on_time.
  - destruct Ha as [Hhs [Hbo Hbg] (id & ka & Hd) _ Hloop _ _ _ _].
    eapply good_trans; [eapply good_mono; [|done]; apply hs_on_time|]. clear -Hloop Hbo Hbg Hd.
    induction Hloop as [|t e Hgood IH Hok]; constructor; [done|].
    destruct (good_grows _ _ _ Hgood) as [[rest Ho] Hgr].
    eapply loop_on_time; [done|by apply Hgr|]. unfold negotiated. rewrite Ho, Hbo. simpl. by rewrite Hd.
Qed.

(** ** What is written, in order *)

Definition sent (o : list Obs) : list MqttPacket :=
  omap (fun x => match x with OSend p => Some p | _ => None end) o.

Definition is_reply (p : MqttPacket) : Prop := exists reply v, p = render reply v.

Lemma transcript_sent v a o a' : transcript v a o a' -> Forall is_reply (sent o).
Proof.
  induction 1 as [|a o a1 o1 a2 _ IH (p & d & adm & _ & _ & _ & ->)]; [constructor|].
  unfold sent. rewrite omap_app. apply Forall_app. split; [done|].
  destruct d; simpl; repeat constructor; unfold is_reply; eauto.
Qed.

Lemma last_round_sent a o : last_round a o -> sent o = [].
Proof. intros [->|(p & d & a' & adm & _ & ->)]; [done|]. by destruct d. Qed.

Lemma closing_sent res c ws : closing res c ws -> sent c = [] \/ exists p, sent c = [p] /\ is_disconnect p.
Proof.
  intros [| |? ? ? Hd]; [by left..|]. destruct Hd as [->|(p & -> & ?)]; [by left|right; eauto].
Qed.

(** One CONNACK, then replies, then at most one DISCONNECT. *)
Definition greeting_replies_farewell (l : list MqttPacket) : Prop :=
  exists connack replies last, l = connack :: replies ++ last /\ is_connack connack /\ Forall is_reply replies /\
    (last = [] \/ exists p, last = [p] /\ is_disconnect p).

Lemma greeting_only p : is_connack p -> greeting_replies_farewell [p].
Proof. intros Hp. exists p, [], []. split_and!; try done. by left. Qed.

Lemma session_sent :
  sent (obs (trk (trace s'))) = [] \/ greeting_replies_farewell (sent (obs (trk (trace s')))).
Proof.
  destruct session_run as [(_ & _ & read & allowed & Ho & Hread)|(base & v & connect & connack & idle & mps & o & a & o1 & c & Ha)].
  - assert (sent read = []) as Hr by (destruct Hread as [[-> _]|(connect & -> & _)]; done).
    destruct Ho as [->|(p & _ & Hp & ->)]; [by left|right]. unfold sent in *. rewrite omap_app, Hr. by apply greeting_only.
  - right. destruct Ha as [_ _ (id & ka & Hd) _ _ Hrounds Hlast Hcl ->].
    pose proof (connack_of_decision connect idle_timeout_secs peer_addr m) as Hc. rewrite Hd in Hc.
    unfold sent. rewrite !omap_app. fold (sent o) (sent o1) (sent c). rewrite (last_round_sent _ _ Hlast), app_nil_r.
    exists connack, (sent o), (sent c). split; [done|]. split; [apply (Hc connack false); eauto 10|].
    split; [by eapply transcript_sent|by eapply closing_sent].
Qed.

Lemma sends_after idle mps v base t p :
  good (safe idle mps ingest_deadline v) base t -> OSend p ∈ obs (trk t) ->
  OSend p ∈ obs (trk base) \/ packet_fits v mps p.
Proof.
  induction 1 as [|t e Hg IH Hs]; [by left|]. rewrite trk_snoc.
  destruct e as [|? ? ? [[[[q n]|]|]|] ?|? ? q [[|]|]|? ? [[|]|]| | | |]; simpl; auto;
    rewrite elem_of_app, list_elem_of_singleton; intros [Hin|Heq]; auto; [done| |done].
  injection Heq as ->. right. by destruct Hs as (_ & [_ Hf] & _).
Qed.

(** After a CONNECT that declares a limit, everything written fits it. *)
Lemma session_fits connect rest p limit : obs (trk (trace s')) = ORead connect :: rest ->
  declared_max_packet_size connect = Some limit -> p ∈ sent rest -> packet_fits MQTT5 (Some limit) p.
Proof.
  intros Hobs Hlim Hp. apply list_elem_of_omap in Hp as (x & Hx & Ep). destruct x as [|?|q]; try done. injection Ep as ->.
  destruct session_run as [(_ & _ & read & allowed & Ho & Hread)|(base & v & connect' & connack & idle & mps & o & a & o1 & c & Ha)].
  - destruct Hread as [[-> _]|(connect' & -> & Hal)].
    { destruct Ho as [Ho|(q & _ & _ & Ho)]; rewrite Ho in Hobs; simplify_eq. }
    destruct Ho as [Ho|(q & Hq & _ & Ho)]; rewrite Ho in Hobs; simplify_eq/=; [by apply not_elem_of_nil in Hx|].
    apply list_elem_of_singleton in Hx as [= ->]. rewrite <- Hlim. by eapply decision_connack_fits, Hal.
  - destruct Ha as [_ [Hbo _] (id & ka & Hd) Hmv Hloop _ _ _ Hshown].
    assert (connect' = connect) as -> by (rewrite Hshown in Hobs; by simplify_eq/=).
    pose proof (accept_max_packet_size _ _ _ _ _ _ _ _ _ Hd) as ->. rewrite Hlim in Hloop.
    assert (v = MQTT5) as -> by (by destruct connect as [|[]|]; simplify_eq/=).
    assert (OSend p ∈ obs (trk (trace s'))) as Hin' by (rewrite Hobs; by right).
    destruct (sends_after _ _ _ _ _ _ Hloop Hin') as [Hb|Hf]; [|done].
    rewrite Hbo in Hb. apply elem_of_cons in Hb as [?|Hb]; [done|].
    apply list_elem_of_singleton in Hb as [= ->]. rewrite <- Hlim.
    apply (decision_connack_fits _ idle_timeout_secs peer_addr m). by rewrite Hd.
Qed.
End Run.
End Whole.
