(* ===== verification/Termination.v ===== *)
(** * Sessions end

    The packet loop has no bound of its own: it runs while the peer sends.
    For a peer that sends finitely many packets, every session ends, within
    one round of the loop per packet ([FinitePeer]). *)

From S2P Require Import Prelude FixedHeader Rmqtt Errors Decoder Packet Handshake Api Channel Runtime Session SessionSafety SessionSpec.
Open Scope uring_scope.

(** [rank w] bounds the packets the peer may still send: reading one lowers
    it, and nothing raises it. *)
Class FinitePeer `{Runtime} := {
  rank : World -> nat;
  rank_tick w : (rank (tick w) <= rank w)%nat;
  rank_set_channel c w : (rank (set_channel c w) <= rank w)%nat;
  rank_into_packets v m w : (rank (into_packets v m w) <= rank w)%nat;
  rank_next_version d w : (rank (next_version d w).2 <= rank w)%nat;
  rank_next_packet d w r w' : next_packet d w = (r, w') -> (rank w' <= rank w)%nat;
  rank_packet d w p n w' : next_packet d w = (Some (Some (Ok (p, n))), w') -> (rank w' < rank w)%nat;
  rank_send d p w : (rank (send_packet d p w).2 <= rank w)%nat;
  rank_flush d w : (rank (flush_io d w).2 <= rank w)%nat;
  rank_wait_slot d x w : (rank (wait_slot d x w).2 <= rank w)%nat
}.

Section Bounded.
Context `{RmqttCodec} `{FinitePeer}.

(** [m] ends within its fuel and does not raise the rank. *)
Definition bounded {A} (m : M A) : Prop := forall s,
  (rank (world (m s).2) <= rank (world s))%nat /\ (m s).1 <> OutOfFuel.

Lemma bounded_ret {A} (a : A) : bounded (ret a).
Proof. by intros s. Qed.

Lemma bounded_bind {A B} (m : M A) (k : A -> M B) : bounded m -> (forall a, bounded (k a)) -> bounded (bind m k).
Proof.
  intros Hm Hk s. unfold bind. specialize (Hm s). destruct (m s) as [[a| |] s1]; simpl in *; [|naive_solver..].
  specialize (Hk a s1). destruct Hm, Hk. split; [lia|done].
Qed.

Lemma bounded_emit e : bounded (emit e).
Proof. by intros s. Qed.

Lemma bounded_peek {A} (f : World -> A) : bounded (peek f).
Proof. by intros s. Qed.

Lemma bounded_now : bounded Instant_now.
Proof. intros s. simpl. split; [apply rank_tick|done]. Qed.

Lemma bounded_put c : bounded (put_channel c).
Proof. intros s. simpl. split; [apply rank_set_channel|done]. Qed.

Lemma bounded_enter v m : bounded (enter_packets v m).
Proof. intros s. simpl. split; [apply rank_into_packets|done]. Qed.

Lemma bounded_panic {A} : bounded (fun s => (@Panic A, s)).
Proof. by intros s. Qed.

Lemma bounded_perform {A} (op : World -> A * World) ev :
  (forall w, (rank (op w).2 <= rank w)%nat) -> bounded (perform op ev).
Proof.
  intros Hop s. specialize (Hop (world s)). unfold perform. destruct (op (world s)); simpl in *.
  split; [lia|done].
Qed.

Lemma bounded_next_packet d w : (rank (next_packet d w).2 <= rank w)%nat.
Proof. destruct (next_packet d w) eqn:E. by eapply rank_next_packet. Qed.

Lemma bounded_fut_bind {A B} (f : Fut A) (k : A -> Fut B) d :
  (forall d, bounded (f d)) -> (forall a d, bounded (k a d)) -> bounded (fut_bind f k d).
Proof.
  intros Hf Hk. unfold fut_bind. apply bounded_bind; [apply bounded_peek|]. intros t0.
  apply bounded_bind; [apply Hf|]. intros [a|]; [|apply bounded_ret].
  apply bounded_bind; [apply bounded_peek|]. intros t1. apply Hk.
Qed.
End Bounded.

Create HintDb bounded.
#[export] Hint Resolve bounded_ret bounded_emit bounded_peek bounded_now bounded_put bounded_enter
  bounded_panic rank_next_version bounded_next_packet rank_send rank_flush rank_wait_slot : bounded.

(** Follow the structure of a program to its primitive operations. *)
Ltac bounded_step :=
  match goal with
  | |- bounded (bind _ _) => apply bounded_bind; [|intros ?]
  | |- bounded (perform _ _) => apply bounded_perform; intros ?
  | |- bounded (fut_bind _ _ _) => apply bounded_fut_bind; intros ?; [|intros ?]
  | |- bounded (match ?x with _ => _ end) => destruct x
  | |- bounded (match ?x with _ => _ end _) => destruct x
  | |- bounded (let '(_, _) := ?x in _) => destruct x
  | |- bounded (timeout _ _) => unfold timeout
  | |- bounded _ => progress cbn beta
  end.
Ltac bounded_tac := repeat bounded_step; auto with bounded.

Section Functions.
Context `{RmqttCodec} `{FinitePeer}.

Lemma bounded_elapsed t : bounded (elapsed_since t).
Proof. unfold elapsed_since. bounded_tac. Qed.

Lemma bounded_admit p wait reply_by : bounded (admit_with p wait reply_by).
Proof. unfold admit_with, admit_waited, timeout, fut_wait_slot. bounded_tac. Qed.
#[local] Hint Resolve bounded_elapsed bounded_admit : bounded.

Lemma bounded_deliver p l g : bounded (deliver_publish p l g).
Proof. unfold deliver_publish, debug. bounded_tac. Qed.

Lemma bounded_flush u : bounded (flush_replies u).
Proof. unfold flush_replies, timeout, fut_flush, debug. bounded_tac. Qed.
#[local] Hint Resolve bounded_deliver bounded_flush : bounded.

Lemma bounded_queue u p d c : bounded (queue_reply u p d c).
Proof. unfold queue_reply, timeout, fut_send, debug. bounded_tac. Qed.

Lemma bounded_bounded_send p d c : bounded (bounded_send p d c).
Proof. unfold bounded_send, timeout, fut_send, fut_flush, fut_ret, debug. bounded_tac. Qed.

Lemma bounded_log_close e : bounded (log_violation_close_write_error e).
Proof. unfold log_violation_close_write_error, debug, warn. bounded_tac. Qed.
#[local] Hint Resolve bounded_queue bounded_bounded_send bounded_log_close : bounded.

Lemma bounded_close u vi d mps : bounded (close_with_violation u vi d mps).
Proof. unfold close_with_violation, warn. bounded_tac. Qed.
#[local] Hint Resolve bounded_close : bounded.

Lemma bounded_leave o : bounded (leave o).
Proof. unfold leave. bounded_tac. Qed.
Lemma bounded_leave_idle : bounded leave_idle.
Proof. unfold leave_idle, leave, debug. bounded_tac. Qed.
Lemma bounded_idle_left i st : bounded (idle_left i st).
Proof. unfold idle_left. bounded_tac. Qed.
#[local] Hint Resolve bounded_leave bounded_leave_idle bounded_idle_left : bounded.

Lemma bounded_violation_close mps st vi d : bounded (violation_close mps st vi d).
Proof. unfold violation_close. bounded_tac. Qed.
#[local] Hint Resolve bounded_violation_close : bounded.
Lemma bounded_on_violation i mps st vi : bounded (on_violation i mps st vi).
Proof. unfold on_violation. bounded_tac. Qed.
Lemma bounded_settle i mps st o : bounded (settle_reply i mps st o).
Proof. unfold settle_reply. bounded_tac. Qed.
#[local] Hint Resolve bounded_on_violation bounded_settle : bounded.
Lemma bounded_deliver_then i mps g st p o : bounded (deliver_then i mps g st p o).
Proof. unfold deliver_then. bounded_tac. Qed.
#[local] Hint Resolve bounded_deliver_then : bounded.
Lemma bounded_on_packet i mps g st f p : bounded (on_packet i mps g st f p).
Proof. unfold on_packet, debug. bounded_tac. Qed.
Lemma bounded_on_read_error i mps st e : bounded (on_read_error i mps st e).
Proof. unfold on_read_error, debug, warn. bounded_tac. Qed.
#[local] Hint Resolve bounded_on_packet bounded_on_read_error : bounded.

Lemma bounded_remaining t b : bounded (remaining t b).
Proof. unfold remaining. bounded_tac. Qed.
#[local] Hint Resolve bounded_remaining : bounded.
Lemma bounded_send_connack t b p : bounded (send_connack t b p).
Proof. unfold send_connack. bounded_tac. Qed.
#[local] Hint Resolve bounded_send_connack : bounded.
Lemma bounded_refuse_with t b p : bounded (refuse_with t b p).
Proof. unfold refuse_with, try_. bounded_tac. Qed.
Lemma bounded_log_handshake e : bounded (log_handshake_transport_error e).
Proof. unfold log_handshake_transport_error, debug, warn. bounded_tac. Qed.
#[local] Hint Resolve bounded_refuse_with bounded_log_handshake : bounded.
Lemma bounded_detect t b m : bounded (detect_version t b m).
Proof. unfold detect_version, timeout, fut_next_version, debug, warn. bounded_tac. Qed.
Lemma bounded_read_connect t b m v : bounded (read_connect t b m v).
Proof. unfold read_connect, timeout, fut_next_packet, debug, warn. bounded_tac. Qed.

(** A round of the loop that goes on has read a packet. *)
Definition lowers (s : Sess) (x : Exec LoopNext * Sess) : Prop :=
  x.1 <> OutOfFuel /\ (rank (world x.2) <= rank (world s))%nat /\
  (forall st, x.1 = Done (inl st) -> (rank (world x.2) < rank (world s))%nat).

Lemma lowers_bind {A} (m : M A) (k : A -> M LoopNext) s :
  bounded m -> (forall a s1, (rank (world s1) <= rank (world s))%nat -> lowers s1 (k a s1)) ->
  lowers s (bind m k s).
Proof.
  intros Hm Hk. unfold bind. specialize (Hm s). destruct (m s) as [[a| |] s1]; simpl in *.
  - destruct Hm as [Hle _]. destruct (Hk a s1 Hle) as (? & ? & Hlt). split; [done|]. split; [lia|].
    intros st Hst. specialize (Hlt st Hst). lia.
  - unfold lowers. simpl. naive_solver.
  - naive_solver.
Qed.

Lemma lowers_end m s : bounded m -> (forall st, (m s).1 <> Done (inl st)) -> lowers s (m s).
Proof. intros Hm Hne. destruct (Hm s). split; [done|]. split; [done|]. by intros st ?%Hne. Qed.

Lemma bind_perform {A B} (op : World -> A * World) ev (k : A -> M B) s r w' :
  op (world s) = (r, w') -> bind (perform op ev) k s = k r (add s w' (ev (world s) r w')).
Proof. intros Hop. unfold bind, perform. by rewrite Hop. Qed.

(** A program that always leaves the loop. *)
Definition never_on (m : M LoopNext) : Prop := forall s st, (m s).1 <> Done (inl st).

Lemma never_on_bind {A} (m : M A) (k : A -> M LoopNext) : (forall a, never_on (k a)) -> never_on (bind m k).
Proof. intros Hk s st. unfold bind. destruct (m s) as [[a| |] s1]; [apply Hk|done..]. Qed.

Lemma never_on_leave o : never_on (leave o).
Proof. by intros s st. Qed.

Lemma never_on_leave_idle : never_on leave_idle.
Proof. apply never_on_bind. intros ?. apply never_on_leave. Qed.

Lemma never_on_violation i mps st vi : never_on (on_violation i mps st vi).
Proof.
  apply never_on_bind. intros d. destruct (d =? 0); [apply never_on_leave_idle|].
  apply never_on_bind. intros o. apply never_on_leave.
Qed.

Lemma never_on_read_error i mps st e : never_on (on_read_error i mps st e).
Proof.
  unfold on_read_error. destruct (classify_read_error e); [apply never_on_violation|].
  destruct (is_truncated_packet _); apply never_on_bind; intros ?; [by intros s st'|apply never_on_leave].
Qed.

Lemma packet_loop_step_lowers i mps g st s : lowers s (packet_loop_step i mps g st s).
Proof.
  unfold packet_loop_step. apply lowers_bind; [apply bounded_peek|]. intros must s0 _.
  apply lowers_bind; [bounded_tac|]. intros [[[]|e] u] s1 _.
  2: { apply (lowers_end (ret (inr (Err e)))); [apply bounded_ret|done]. }
  apply lowers_bind; [apply bounded_peek|]. intros fresh s2 _.
  apply lowers_bind; [apply bounded_idle_left|]. intros d s3 _.
  unfold timeout, fut_next_packet. destruct (next_packet d (world s3)) as [r w'] eqn:En.
  pose proof (rank_next_packet _ _ _ _ En) as Hle. rewrite (bind_perform _ _ _ _ r w' En).
  set (s4 := add s3 w' _).
  assert (forall x, lowers s4 x -> lowers s3 x) as Hmono.
  { intros x (? & ? & Hlt). unfold s4 in *. simpl in *. split; [done|]. split; [lia|].
    intros st' Hst. specialize (Hlt st' Hst). lia. }
  destruct r as [[[[p n]|e]|]|].
  - apply rank_packet in En. destruct (bounded_on_packet i mps g {| conn := conn st; awaiting := awaiting st;
      hold_debt := hold_debt st; unflushed := u |} fresh p s4) as [Hr Hf].
    unfold s4 in *. simpl in *. split; [done|]. split; [lia|]. intros; lia.
  - apply Hmono, lowers_end; [apply bounded_on_read_error|intros ?; apply never_on_read_error].
  - apply Hmono, lowers_end; [unfold debug; bounded_tac|intros ?; apply never_on_bind; intros ?; apply never_on_leave].
  - apply Hmono, lowers_end; [apply bounded_leave_idle|intros ?; apply never_on_leave_idle].
Qed.

Lemma run_packet_loop_ends i mps g fuel state s :
  (rank (world s) < fuel)%nat -> (run_packet_loop i mps g fuel state s).1 <> OutOfFuel.
Proof.
  intros Hlt. unfold run_packet_loop. set (step := fun x : LoopState * Sess => _). set (x0 := (_, s)).
  destruct (loop_terminates step (fun _ => True) (fun x => rank (world x.2))) with (n := fuel) (s := x0)
    as [x Hx]; [|done|done|].
  { intros [st s1] [st' s2] _. unfold step. simpl. pose proof (packet_loop_step_lowers i mps g st s1) as Hl.
    destruct (packet_loop_step i mps g st s1) as [[[st2|r]| |] s3]; intros; simplify_eq.
    split; [done|]. destruct Hl as (_ & _ & Hl). by eapply Hl. }
  rewrite Hx. apply (loop_inv step (fun _ => True) (fun x => x.1 <> OutOfFuel)) in Hx; [done|done| |done].
  intros [st s1] [r s2] _. unfold step. simpl. pose proof (packet_loop_step_lowers i mps g st s1) as Hl.
  destruct (packet_loop_step i mps g st s1) as [[[st2|r2]| |] s3]; intros; simplify_eq; [done|done|].
  by destruct Hl.
Qed.

(** ** The whole session *)

Definition ends (fuel : nat) {A} (m : M A) : Prop := forall s,
  (rank (world s) < fuel)%nat -> (m s).1 <> OutOfFuel.

Lemma ends_bounded fuel {A} (m : M A) : bounded m -> ends fuel m.
Proof. intros Hm s _. apply Hm. Qed.

Lemma ends_bind fuel {A B} (m : M A) (k : A -> M B) : bounded m -> (forall a, ends fuel (k a)) -> ends fuel (bind m k).
Proof.
  intros Hm Hk s Hlt. unfold bind. destruct (Hm s) as [Hle Hf].
  destruct (m s) as [[a| |] s1]; simpl in *; [|done|done]. apply Hk. lia.
Qed.

Lemma serve_session_ends fuel peer ct it m g : ends fuel (serve_session fuel peer ct it m g).
Proof.
  unfold serve_session. repeat (apply ends_bind; [apply bounded_now|intros ?]).
  apply ends_bind; [apply bounded_detect|]. intros [v|r]; [|apply ends_bounded, bounded_ret].
  apply ends_bind; [apply bounded_emit|intros ?]. apply ends_bind; [apply bounded_enter|intros ?].
  apply ends_bind; [apply bounded_read_connect|]. intros [connect|r]; [|apply ends_bounded, bounded_ret].
  apply ends_bind; [apply bounded_now|intros received]. unfold act_on_decision.
  destruct (evaluate_connect _ _ _ _) as [connack id ka idle mps|connack [|]| |].
  - apply ends_bind; [apply bounded_send_connack|]. intros [[]|e]; [|apply ends_bounded, bounded_ret].
    intros s. apply run_packet_loop_ends.
  - apply ends_bounded. unfold warn. bounded_tac.
  - apply ends_bounded. unfold warn, debug. bounded_tac.
  - apply ends_bounded. unfold warn. bounded_tac.
  - apply ends_bounded. unfold warn. bounded_tac.
Qed.
End Functions.
