(* ===== verification/Sessions.v ===== *)
(** * Theorems about sessions

    A scripted peer that makes every promise of [RuntimeSpec] and
    [FinitePeer], and the claims about [serve_session]. *)

From S2P Require Import Prelude FixedHeader Rmqtt Errors Decoder Packet Handshake Api Channel Runtime Session SessionSafety SessionSpec Termination.
Open Scope uring_scope.

(** ** A scripted peer

    The peer speaks one protocol version and has a list of packets to send;
    each read takes a second, writes succeed, and a wait for a slot times
    out.  After the last packet the peer closes. *)

Module Script.
#[export] Existing Instances FifoSync.ops FifoSync.spec.

Record Peer := {
  clock : Z;
  speaks : ProtocolVersion;
  inbox : list MqttPacket;
  unwritten : list Z;
  chan : EventChannel
}.

Definition matches (v : ProtocolVersion) (p : MqttPacket) : bool :=
  match p, v with V3 _, MQTT5 => false | V5 _, MQTT3 => false | _, _ => true end.

Definition with_inbox (w : Peer) (l : list MqttPacket) : Peer :=
  {| clock := clock w + from_secs 1; speaks := speaks w; inbox := l; unwritten := unwritten w; chan := chan w |}.

Definition read (w : Peer) : option (option (io_result (MqttPacket * Z))) * Peer :=
  match inbox w with
  | [] => (Some None, w)
  | p :: l => (Some (Some (if matches (speaks w) p then Ok (p, 0)
                           else Err (IoError_new InvalidData (SourceDecode MalformedPacketError)))),
               with_inbox w l)
  end.

#[export] Instance peer : Runtime := {|
  World := Peer;
  now := clock;
  tick w := w;
  next_version d w := (Some (Some (Ok (speaks w))), w);
  into_packets v m w :=
    {| clock := clock w; speaks := v; inbox := inbox w; unwritten := unwritten w; chan := chan w |};
  next_packet d := read;
  send_packet d p w :=
    (Some (Ok tt), {| clock := clock w; speaks := speaks w; inbox := inbox w;
                      unwritten := unwritten w ++ [0]; chan := chan w |});
  flush_io d w :=
    (Some (Ok tt), {| clock := clock w; speaks := speaks w; inbox := inbox w;
                      unwritten := []; chan := chan w |});
  read_buffer w := [];
  write_buffer := unwritten;
  version := speaks;
  channel := chan;
  set_channel c w :=
    {| clock := clock w; speaks := speaks w; inbox := inbox w; unwritten := unwritten w; chan := c |};
  wait_slot d x w :=
    (None, {| clock := clock w + Z.max 0 d; speaks := speaks w; inbox := inbox w;
              unwritten := unwritten w; chan := chan w |})
|}.

Lemma read_advances w r w' : read w = (r, w') -> advances w w' /\ (length (inbox w') <= length (inbox w))%nat.
Proof.
  unfold read. destruct (inbox w) as [|p l] eqn:El; intros; simplify_eq; simpl.
  - split; [by split|]. by rewrite El.
  - split; [|lia]. split; simpl; [unfold from_secs, NANOS_PER_SEC; lia|done|done].
Qed.

#[export] Instance peer_spec : RuntimeSpec.
Proof.
  split; simpl; try done.
  - intros; simplify_eq. done.
  - intros d w r w' Hr. by apply read_advances in Hr as [? _].
  - intros d w p n w'. unfold read. destruct (inbox w) as [|q l]; [done|].
    destruct (matches (speaks w) q) eqn:Em; intros; simplify_eq. by destruct p, (speaks w).
  - intros; simplify_eq. by split.
  - intros; simplify_eq. by split.
  - intros d slot w r w' ? [alive Hok]; simplify_eq/=. split; [lia|]. split; [done|]. by exists alive.
Qed.

#[export] Instance peer_finite : FinitePeer.
Proof.
  refine {| rank w := length (inbox (w : Peer)) : nat |}; simpl; try done.
  - intros d w r w' Hr. by apply read_advances in Hr as [_ ?].
  - intros d w p n w'. unfold read. destruct (inbox w) as [|q l]; [done|].
    destruct (matches (speaks w) q); intros; simplify_eq; simpl. lia.
Defined.

Definition start (v : ProtocolVersion) (l : list MqttPacket) : Peer :=
  {| clock := 0; speaks := v; inbox := l; unwritten := []; chan := event_channel 0 |}.
End Script.

(** ** Claims *)

Section Claims.
Context `{RmqttCodec} `{RuntimeSpec}.

(** (C1) What a client and the callback observe of a session is what the
    decision functions say, in order.  Either the session ended in the
    handshake, having read at most one packet and written at most one
    CONNACK, the one [evaluate_connect] decided on; or, after CONNECT and
    its CONNACK, every packet read was dispatched in the QoS 2 state its
    predecessors left and answered in full (offered to the callback first,
    then acknowledged) before the next was read, up to the last packet,
    which may be cut short, but never acknowledged without having been
    offered.  The result and its warnings match: one warning names a
    violation, none accompanies a served session. *)
Theorem session_refines_dispatch fuel peer ct it m ingest w r s' :
  0 <= it -> 0 <= ingest -> world_ok w ->
  serve_session fuel peer ct it m ingest (session_start w) = (Done r, s') ->
  let shown := obs (trk (trace s')) in
  (hs_result r /\ (shown = [] \/ (exists p, is_connack p /\ shown = [OSend p]) \/
     exists connect, shown = [ORead connect] \/
       exists p, decision_connack (evaluate_connect connect it peer m) = Some p /\
         shown = [ORead connect; OSend p])) \/
  (exists v connect connack id ka idle mps rounds a cut c,
     evaluate_connect connect it peer m = Accept connack id ka idle mps /\
     transcript v AwaitingRelease_default rounds a /\ last_round a cut /\
     closing r c (warns (trk (trace s'))) /\
     shown = [ORead connect; OSend connack] ++ (rounds ++ cut) ++ c).
Proof.
  intros Hit Hin Hw Hrun. destruct (session_run _ _ _ _ _ Hit Hin _ _ _ _ Hw Hrun)
    as [(_ & Hr & read & allowed & Ho & Hread)|(base & v & connect & connack & idle & mps & o & a & o1 & c & Ha)].
  - left. split; [done|]. destruct Hread as [[-> _]|(connect & -> & Hal)].
    + destruct Ho as [->|(p & _ & ? & ->)]; [by left|right; left; eauto].
    + right. right. exists connect. destruct Ho as [->|(p & Hp & _ & ->)]; [by left|right; eauto].
  - right. destruct Ha. destruct ac_decision as (id & ka & Hd). by exists v, connect, connack, id, ka, idle, mps, o, a, o1, c.
Qed.

(** (C2) The server speaks only to answer, in order, and within the client's
    limit.  Every packet a session tries to write is a CONNACK, a reply or a
    DISCONNECT, never a PUBLISH; those it wrote are one CONNACK, then replies,
    then at most one DISCONNECT.  Once a CONNECT that declares a Maximum
    Packet Size is decoded, every packet written, the CONNACK included, fits
    it.  A session that decoded no CONNECT wrote at most one packet, the
    refusal of the protocol level or of the client id. *)
Theorem session_writes_fit fuel peer ct it m ingest w r s' :
  0 <= it -> 0 <= ingest -> world_ok w ->
  serve_session fuel peer ct it m ingest (session_start w) = (Done r, s') ->
  let shown := obs (trk (trace s')) in
  (forall t1 t d p x t2, trace s' = t1 ++ EvSend t d p x :: t2 ->
     server_packet p /\ publish_of p = None) /\
  (sent shown = [] \/ greeting_replies_farewell (sent shown)) /\
  (forall connect rest p limit, shown = ORead connect :: rest ->
     declared_max_packet_size connect = Some limit -> p ∈ sent rest -> packet_fits MQTT5 (Some limit) p) /\
  ((forall connect, ORead connect ∉ shown) -> shown = [] \/ exists p, shown = [OSend p] /\ early_refusal m p).
Proof.
  intros Hit Hin Hw Hrun shown. split; [|split; [|split]].
  - intros t1 t d p x t2 Ht.
    assert (server_packet p) as Hp.
    { eapply (good_at _ [] _ t1 (EvSend t d p x) t2 (session_good_packets _ _ _ _ _ Hit Hin _ _ _ _ Hw Hrun)).
      exact Ht. }
    split; [done|]. destruct Hp as [[[a ->]|[a ->]]|[(reply & v & ->)|[c ->]]]; try done.
    by destruct reply as [| | | | |? [] ], v.
  - exact (session_sent _ _ _ _ _ Hit Hin _ _ _ _ Hw Hrun).
  - exact (session_fits _ _ _ _ _ Hit Hin _ _ _ _ Hw Hrun).
  - intros Hno. destruct (session_run _ _ _ _ _ Hit Hin _ _ _ _ Hw Hrun)
      as [(_ & _ & read & allowed & Ho & Hread)|(base & v & connect & connack & idle & mps & o & a & o1 & c & Ha)].
    + fold shown in Ho. destruct Hread as [[-> Hal]|(connect & -> & _)].
      * destruct Ho as [Ho|(p & Hp & _ & Ho)]; [by left|right; eauto].
      * exfalso. apply (Hno connect). destruct Ho as [->|(p & _ & _ & ->)]; by left.
    + exfalso. apply (Hno connect). unfold shown. rewrite (ac_obs _ _ _ _ _ _ _ _ _ _ _ _ _ _ _ _ _ _ Ha). by left.
Qed.

(** (C3) The write discipline: when a session waits on the peer for bytes
    (a read with no whole packet buffered) or on a full event channel,
    nothing is left in its write buffer, so no acknowledgement is delayed
    by either wait; a flush of the packet loop always has something to write
    and is over by the negotiated idle timeout after the oldest reply it
    writes was encoded; and after a write that failed or timed out a session
    writes nothing more. *)
Theorem session_write_discipline fuel peer ct it m ingest w r s' t1 e t2 :
  0 <= it -> 0 <= ingest -> world_ok w ->
  serve_session fuel peer ct it m ingest (session_start w) = (Done r, s') ->
  trace s' = t1 ++ e :: t2 ->
  match e with
  | EvVersion _ _ _ | EvRead _ _ false _ _ | EvWait _ _ => pend (trk t1) = None
  | EvSend _ _ _ _ => fail (trk t1) = false
  | EvFlush t d _ => fail (trk t1) = false /\
      (greeted (trk t1) = true -> exists idle queued_at, negotiated peer it m (trk t1) = Some idle /\
         pend (trk t1) = Some queued_at /\ 0 < d /\ t + d <= queued_at + idle)
  | _ => True
  end.
Proof.
  intros Hit Hin Hw Hrun Ht.
  pose proof (good_at _ [] _ t1 e t2 (session_good_disciplined _ _ _ _ _ Hit Hin _ _ _ _ Hw Hrun) Ht) as Hg.
  pose proof (good_at _ [] _ t1 e t2 (session_good_on_time _ _ _ _ _ Hit Hin _ _ _ _ Hw Hrun) Ht) as Hd.
  change ([] ++ t1) with t1 in Hg, Hd. destruct e as [|? ? [] ?| |t d x| | | |]; try done. split; [done|]. intros Hgr.
  unfold on_time in Hd. rewrite Hgr in Hd.
  destruct Hd as (idle & Hn & _ & Hp & q & Hq & Hle). by exists idle, q.
Qed.

(** (C4) Deadlines, as [on_time] states them, of every await of a session.  In
    the handshake, which began at the second clock reading, each is given
    exactly what is left of the one configured budget.  In the packet loop no
    read, write or flush is given more than the idle timeout the CONNECT
    negotiated; when code between two awaits takes no time, each is due within
    that timeout of the last packet read, and a read is given exactly what is
    left of it unless the session has waited for a slot; a flush always has
    time, and is over by the idle timeout after its oldest reply was encoded;
    a wait for a slot is within the ingest deadline and leaves the reserve for
    the reply. *)
Theorem session_deadlines fuel peer ct it m ingest w r s' t1 e t2 :
  0 <= it -> 0 <= ingest -> world_ok w ->
  serve_session fuel peer ct it m ingest (session_start w) = (Done r, s') ->
  trace s' = t1 ++ e :: t2 -> on_time peer ct it m ingest (handshake_started w) (trk t1) e.
Proof.
  intros Hit Hin Hw Hrun Ht.
  exact (good_at _ [] _ t1 e t2 (session_good_on_time _ _ _ _ _ Hit Hin _ _ _ _ Hw Hrun) Ht).
Qed.
End Claims.

(** (C5) Every session ends: with a peer that sends finitely many packets,
    [serve_session] returns a result, without panicking, within one round of
    the packet loop per packet. *)
Theorem session_total `{RmqttCodec} `{RuntimeSpec} `{!FinitePeer} fuel peer ct it m ingest w :
  0 <= it -> 0 <= ingest -> world_ok w -> (rank w < fuel)%nat ->
  exists r s', serve_session fuel peer ct it m ingest (session_start w) = (Done r, s').
Proof.
  intros Hit Hin Hw Hf. pose proof (serve_session_spec peer ct it m ingest Hit Hin fuel w Hw) as Hs.
  pose proof (serve_session_ends fuel peer ct it m ingest (session_start w) Hf) as He. unfold wp in Hs.
  destruct (serve_session fuel peer ct it m ingest (session_start w)) as [[r| |] s']; [eauto|done|done].
Qed.

(** ** Witnesses *)

Section Witnesses.
#[local] Existing Instances FrameCodec.codec_ops FifoSync.ops FifoSync.spec Script.peer Script.peer_spec
  Script.peer_finite.

Definition v3_connect : MqttPacket :=
  V3 (V3_Connect {| v3_client_id := "c"; v3_clean_session := true; v3_keep_alive := 60 |}).

Definition qos1_publish : CodecPublish :=
  {| p_dup := false; p_retain := false; p_qos := AtLeastOnce; p_topic := "t"; p_packet_id := Some 7;
     p_payload := [1; 2]; p_properties := None |}.

(** CONNECT, one QoS 1 PUBLISH, then the peer closes. *)
Definition telemetry_peer : World := Script.start MQTT3 [v3_connect; V3 (V3_Publish qos1_publish)].

Lemma telemetry_peer_ok : world_ok telemetry_peer.
Proof. split; [exists true; apply (event_channel_ok 0)|simpl; lia]. Qed.

Definition telemetry_end : Sess :=
  (serve_session 3 "peer" 10 300 MaxInboundPacketSize_DEFAULT (from_secs 5) (session_start telemetry_peer)).2.

Lemma telemetry_served :
  serve_session 3 "peer" 10 300 MaxInboundPacketSize_DEFAULT (from_secs 5) (session_start telemetry_peer) =
    (Done (Ok Served), telemetry_end).
Proof.
  assert ((serve_session 3 "peer" 10 300 MaxInboundPacketSize_DEFAULT (from_secs 5)
    (session_start telemetry_peer)).1 = Done (Ok Served)) as He by (vm_compute; reflexivity).
  unfold telemetry_end. destruct (serve_session _ _ _ _ _ _ _) as [e s]. simpl in *. by subst.
Qed.

Lemma session_refines_dispatch_witness :
  exists v connect connack id ka idle mps rounds a cut c,
    evaluate_connect connect 300 "peer" MaxInboundPacketSize_DEFAULT = Accept connack id ka idle mps /\
    transcript v AwaitingRelease_default rounds a /\ last_round a cut /\
    obs (trk (trace telemetry_end)) = [ORead connect; OSend connack] ++ (rounds ++ cut) ++ c.
Proof.
  destruct (session_refines_dispatch 3 "peer" 10 300 MaxInboundPacketSize_DEFAULT (from_secs 5) telemetry_peer
    (Ok Served) telemetry_end) as [[[Hr|[e Hr]] _]|Ha];
    [lia|unfold from_secs, NANOS_PER_SEC; lia|exact telemetry_peer_ok|exact telemetry_served|discriminate Hr|discriminate Hr|].
  destruct Ha as (v & connect & connack & id & ka & idle & mps & rounds & a & cut & c & Hd & Ht & Hl & _ & Ho).
  exists v, connect, connack, id, ka, idle, mps, rounds, a, cut, c.
  split; [exact Hd|]. split; [exact Ht|]. split; [exact Hl|exact Ho].
Defined.

Lemma session_total_witness :
  exists r s', serve_session 3 "peer" 10 300 MaxInboundPacketSize_DEFAULT (from_secs 5)
    (session_start telemetry_peer) = (Done r, s').
Proof.
  apply (session_total 3 "peer" 10 300 MaxInboundPacketSize_DEFAULT (from_secs 5) telemetry_peer);
    [lia|unfold from_secs, NANOS_PER_SEC; lia|exact telemetry_peer_ok|simpl; lia].
Defined.

(** A v5 client that can receive 15 bytes: enough for its CONNACK. *)
Definition v5_peer : World := Script.start MQTT5 [V5 (V5_Connect sample_v5_connect); V5 V5_PingRequest].

Lemma v5_peer_ok : world_ok v5_peer.
Proof. split; [exists true; apply (event_channel_ok 0)|simpl; lia]. Qed.

Definition v5_end : Sess :=
  (serve_session 3 "peer" 10 300 MaxInboundPacketSize_DEFAULT (from_secs 5) (session_start v5_peer)).2.

Lemma v5_served :
  serve_session 3 "peer" 10 300 MaxInboundPacketSize_DEFAULT (from_secs 5) (session_start v5_peer) =
    (Done (Ok Served), v5_end).
Proof.
  assert ((serve_session 3 "peer" 10 300 MaxInboundPacketSize_DEFAULT (from_secs 5)
    (session_start v5_peer)).1 = Done (Ok Served)) as He by (vm_compute; reflexivity).
  unfold v5_end. destruct (serve_session _ _ _ _ _ _ _) as [e s]. simpl in *. by subst.
Qed.

Lemma v5_shown :
  obs (trk (trace v5_end)) =
    [ORead (V5 (V5_Connect sample_v5_connect));
     OSend (V5 (V5_ConnectAck (with_session (honest_v5_connack V5_Success MaxInboundPacketSize_DEFAULT)
       None (Some 200))));
     ORead (V5 V5_PingRequest); OSend (V5 V5_PingResponse)].
Proof. vm_compute. reflexivity. Qed.

Lemma session_writes_fit_witness :
  packet_fits MQTT5 (Some 15) (V5 V5_PingResponse) /\ greeting_replies_farewell (sent (obs (trk (trace v5_end)))).
Proof.
  destruct (session_writes_fit 3 "peer" 10 300 MaxInboundPacketSize_DEFAULT (from_secs 5) v5_peer
    (Ok Served) v5_end) as (_ & Hs & Hfit & _);
    [lia|unfold from_secs, NANOS_PER_SEC; lia|exact v5_peer_ok|exact v5_served|]. split.
  - eapply Hfit; [exact v5_shown|reflexivity|]. right. left.
  - destruct Hs as [Hs|Hs]; [rewrite v5_shown in Hs; discriminate Hs|exact Hs].
Defined.

(** In the telemetry session the PUBACK is flushed before the
    read that finds the peer gone. *)
Definition acked_at : nat := 9.

Lemma telemetry_flush :
  trace telemetry_end = take acked_at (trace telemetry_end) ++
    EvFlush 2000000000 90000000000 (Some (Ok tt)) :: drop (S acked_at) (trace telemetry_end).
Proof. vm_compute. reflexivity. Qed.

Lemma session_write_discipline_witness :
  exists idle queued_at, pend (trk (take acked_at (trace telemetry_end))) = Some queued_at /\
    negotiated "peer" 300 MaxInboundPacketSize_DEFAULT (trk (take acked_at (trace telemetry_end))) = Some idle /\
    2000000000 + 90000000000 <= queued_at + idle.
Proof.
  destruct (session_write_discipline 3 "peer" 10 300 MaxInboundPacketSize_DEFAULT (from_secs 5) telemetry_peer
    (Ok Served) telemetry_end _ _ _ ltac:(lia) ltac:(unfold from_secs, NANOS_PER_SEC; lia) telemetry_peer_ok telemetry_served telemetry_flush)
    as [_ Hf].
  destruct (Hf ltac:(vm_compute; reflexivity)) as (idle & q & Hn & Hq & _ & Hle).
  exists idle, q. split; [exact Hq|]. split; [exact Hn|exact Hle].
Defined.

Lemma session_deadlines_witness :
  on_time "peer" 10 300 MaxInboundPacketSize_DEFAULT (from_secs 5) (handshake_started telemetry_peer)
    (trk (take acked_at (trace telemetry_end))) (EvFlush 2000000000 90000000000 (Some (Ok tt))).
Proof.
  apply (session_deadlines 3 "peer" 10 300 MaxInboundPacketSize_DEFAULT (from_secs 5) telemetry_peer
    (Ok Served) telemetry_end _ _ (drop (S acked_at) (trace telemetry_end)));
    [lia|unfold from_secs, NANOS_PER_SEC; lia|exact telemetry_peer_ok|exact telemetry_served|exact telemetry_flush].
Defined.
End Witnesses.
