(* ===== verification/Scripted.v ===== *)
(** * Sessions from bytes

    The monoio adapters of src/broker/runtime.rs and the in-memory client of
    src/broker/fuzz.rs: [scripted] is the runtime a session of [run_session]
    runs on, from the bytes of the script to the publishes its drain receives.
    monoio-codec's [Framed] is a dependency, so it is the class [MonoioFramed]
    and what the code relies on of it is [MonoioFramedSpec]; [PlainFramed] is a
    concrete instance.  Every operation of the client is ready at once, so the
    drain runs only while the session waits for a slot of the event channel, and
    after its end. *)

From S2P Require Import Prelude FixedHeader Rmqtt Errors Decoder Packet Handshake Api Channel Runtime Session.
Open Scope uring_scope.

(** ** [ScriptedIo] *)

Definition FUZZ_PEER_ADDR : string := "127.0.0.1:1883".
Definition UNCHUNKED : Z := 0.

Record ScriptedIo := { wire : list Z; max_read : Z; bytes_written : Z }.

(** A read into a buffer with [room] free bytes, at most [max_read] of them
    filled; nothing read is the end of the stream. *)
Definition ScriptedIo_read (room : nat) (io : ScriptedIo) : list Z * ScriptedIo :=
  let cap := if max_read io =? UNCHUNKED then length (wire io)
             else Nat.min (Z.to_nat (max_read io)) (length (wire io)) in
  let chunk := take cap (wire io) in
  let n := Nat.min room (length chunk) in
  (take n chunk, {| wire := drop n (wire io); max_read := max_read io; bytes_written := bytes_written io |}).

Definition ScriptedIo_write (buf : list Z) (io : ScriptedIo) : Z * ScriptedIo :=
  let n := Z.of_nat (length buf) in
  (n, {| wire := wire io; max_read := max_read io; bytes_written := bytes_written io + n |}).

(** ** monoio-codec *)

Abbreviation Decode C A := (C -> list Z -> result (Decoded A) IoError * C * list Z).

(** [Framed<ScriptedIo, C>] for a codec [C], whose functions are passed where
    Rust finds them by trait. *)
Class MonoioFramed := {
  Framed : Type -> Type;
  Framed_new : forall {C}, ScriptedIo -> C -> Framed C;
  map_codec : forall {C D}, (C -> D) -> Framed C -> Framed D;
  framed_codec : forall {C}, Framed C -> C;
  framed_io : forall {C}, Framed C -> ScriptedIo;
  framed_read_buffer : forall {C}, Framed C -> list Z;
  framed_write_buffer : forall {C}, Framed C -> list Z;
  Framed_next : forall {C A}, Decode C A -> Decode C A -> Framed C -> option (io_result A) * Framed C;
  Framed_send : forall {C}, (C -> MqttPacket -> list Z -> result unit IoError * C * list Z) ->
    MqttPacket -> Framed C -> io_result unit * Framed C;
  Framed_flush : forall {C}, Framed C -> io_result unit * Framed C;
  (** The [decode_eof] a decoder has unless it defines its own. *)
  default_decode_eof : forall {C A}, Decode C A -> Decode C A
}.

(** ** The adapters and the world of a session *)

Section World.
Context `{RmqttCodec} `{LocalSync} `{MonoioFramed}.

(** [MonoioHandshake], then [MonoioPackets]. *)
Inductive Stage := Handshaking (f : Framed VersionDecoder) | Serving (f : Framed CodecPair).

Definition MonoioHandshake_new (io : ScriptedIo) (m : MaxInboundPacketSize) : Stage :=
  Handshaking (Framed_new io (VersionDecoder_new m)).

Definition version_decode (c : VersionDecoder) (src : list Z) : result (Decoded ProtocolVersion) IoError * VersionDecoder * list Z :=
  let '(answer, src) := VersionDecoder_decode c src in (answer, c, src).

(** [ticks] counts the steps of the clock, [drained] is what the drain has
    received so far. *)
Record Scripted := { ticks : nat; stage : Stage; chan : EventChannel; drained : list Publish }.

Definition with_stage (w : Scripted) (s : Stage) : Scripted :=
  {| ticks := S (ticks w); stage := s; chan := chan w; drained := drained w |}.
Definition with_chan (w : Scripted) (c : EventChannel) (taken : list Publish) : Scripted :=
  {| ticks := S (ticks w); stage := stage w; chan := c; drained := drained w ++ taken |}.

Definition scripted_next_version (w : Scripted) : option (option (io_result ProtocolVersion)) * Scripted :=
  match stage w with
  | Handshaking f =>
      let '(r, f) := Framed_next version_decode (default_decode_eof version_decode) f in (Some r, with_stage w (Handshaking f))
  | Serving _ => (Some None, w)
  end.

Definition scripted_into_packets (v : ProtocolVersion) (m : MaxInboundPacketSize) (w : Scripted) : Scripted :=
  let to_packets {C} (f : Framed C) := Serving (map_codec (fun _ => CodecPair_new v m) f) in
  {| ticks := ticks w; stage := match stage w with Handshaking f => to_packets f | Serving f => to_packets f end;
     chan := chan w; drained := drained w |}.

Definition scripted_next_packet (w : Scripted) : option (option (io_result (MqttPacket * Z))) * Scripted :=
  match stage w with
  | Serving f => let '(r, f) := Framed_next CodecPair_decode CodecPair_decode_eof f in (Some r, with_stage w (Serving f))
  | Handshaking _ => (Some None, w)
  end.

Definition scripted_send (p : MqttPacket) (w : Scripted) : option (io_result unit) * Scripted :=
  match stage w with
  | Serving f => let '(r, f) := Framed_send CodecPair_encode p f in (Some r, with_stage w (Serving f))
  | Handshaking _ => (None, w)
  end.

Definition scripted_flush (w : Scripted) : option (io_result unit) * Scripted :=
  match stage w with
  | Serving f => let '(r, f) := Framed_flush f in (Some r, with_stage w (Serving f))
  | Handshaking _ => (None, w)
  end.

(** The drain: [while let Some(publish) = rx.recv().await], as far as the
    channel has publishes. *)
Fixpoint drain (n : nat) (c : EventChannel) : list Publish * EventChannel :=
  match n with
  | O => ([], c)
  | S n =>
      match recv c with
      | (Some publish, c) => let '(taken, c) := drain n c in (publish :: taken, c)
      | (None, c) => ([], c)
      end
  end.
Definition drain_fuel : nat := S (Z.to_nat EVENT_CHANNEL_CAPACITY).

(** The session waits for a slot: the drain runs, and the slot is polled again. *)
Definition scripted_wait_slot (x : Waiter) (w : Scripted) : option (result unit AcquireError) * Scripted :=
  match poll_acquire (room (chan w)) x with
  | (Ready r, s) => (Some r, with_chan w (with_room (chan w) s) [])
  | (Pending, s) =>
      let '(taken, c) := drain drain_fuel (with_room (chan w) s) in
      match poll_acquire (room c) x with
      | (Ready r, s) => (Some r, with_chan w (with_room c s) taken)
      | (Pending, s) => (None, with_chan w (with_room c s) taken)
      end
  end.

(** The host's clock, by its steps. *)
Context (clock : nat -> Z).

Definition scripted : Runtime := {|
  World := Scripted;
  now w := clock (ticks w);
  tick w := {| ticks := S (ticks w); stage := stage w; chan := chan w; drained := drained w |};
  next_version _ := scripted_next_version;
  into_packets := scripted_into_packets;
  next_packet _ := scripted_next_packet;
  send_packet _ := scripted_send;
  flush_io _ := scripted_flush;
  read_buffer w := match stage w with Serving f => framed_read_buffer f | Handshaking f => framed_read_buffer f end;
  write_buffer w := match stage w with Serving f => framed_write_buffer f | Handshaking f => framed_write_buffer f end;
  version w := match stage w with Serving f => cp_version (framed_codec f) | Handshaking _ => MQTT3 end;
  channel := chan;
  set_channel c w := {| ticks := ticks w; stage := stage w; chan := c; drained := drained w |};
  wait_slot _ := scripted_wait_slot
|}.
#[local] Existing Instance scripted.

(** ** [run_session] *)

Record SessionTrace := { st_result : result SessionOutcome Error; st_bytes_written : Z; st_delivered : list Publish }.

Definition split_script (data : list Z) : Z * list Z :=
  match data with b :: wire => (b, wire) | [] => (UNCHUNKED, []) end.

Definition script_io (data : list Z) : ScriptedIo :=
  {| wire := (split_script data).2; max_read := (split_script data).1; bytes_written := 0 |}.

(** A connection that was just opened, before its first byte. *)
Definition client_start (stream : ScriptedIo) (event_tx : EventChannel) (m : MaxInboundPacketSize) : Scripted :=
  {| ticks := 0; stage := MonoioHandshake_new stream m; chan := event_tx; drained := [] |}.

Definition handle_client_io (fuel : nat) (stream : ScriptedIo) (peer_addr : string) (event_tx : EventChannel)
    (connection_timeout_secs idle_timeout_secs : Z) (m : MaxInboundPacketSize) (ingest_deadline : Z) :
    Exec (result SessionOutcome Error) * Sess :=
  serve_session fuel peer_addr connection_timeout_secs idle_timeout_secs m ingest_deadline
    {| world := client_start stream event_tx m : @World _ scripted; trace := [] |}.

Definition stage_io (s : Stage) : ScriptedIo := match s with Handshaking f => framed_io f | Serving f => framed_io f end.

(** One turn of the packet loop per packet; a packet has at least one byte. *)
Definition session_fuel (data : list Z) : nat := S (length data).

Definition run_session (data : list Z) : option SessionTrace :=
  match handle_client_io (session_fuel data) (script_io data) FUZZ_PEER_ADDR (event_channel 0) DEFAULT_CONNECTION_TIMEOUT_SECS
          DEFAULT_IDLE_TIMEOUT_SECS MaxInboundPacketSize_DEFAULT (from_secs DEFAULT_INGEST_DEADLINE_SECS) with
  | (Done r, s) =>
      Some {| st_result := r; st_bytes_written := bytes_written (stage_io (stage (world s)));
              st_delivered := drained (world s) ++ (drain drain_fuel (chan (world s))).1 |}
  | _ => None
  end.
End World.

(** ** What the code relies on of monoio-codec *)

Section Frames.
Context {C A : Type} (decode decode_eof : Decode C A).

Definition at_end (a : result (Decoded A) IoError) : option (io_result A) :=
  match a with Ok (DSome x) => Some (Ok x) | Ok Insufficient => None | Err e => Some (Err e) end.

(** One [next]: what is buffered is decoded first, more is read while that is
    not enough (before the first [decode] when nothing is buffered), and the end
    of the stream, which is remembered, is given to [decode_eof]. *)
Inductive frames : bool -> C -> list Z -> ScriptedIo -> option (io_result A) -> C -> list Z -> ScriptedIo -> bool -> Prop :=
| fr_item c buf io x c' buf' : decode c buf = (Ok (DSome x), c', buf') -> frames false c buf io (Some (Ok x)) c' buf' io false
| fr_error c buf io e c' buf' : decode c buf = (Err e, c', buf') -> frames false c buf io (Some (Err e)) c' buf' io false
| fr_more c buf io c1 buf1 room chunk io1 r c' buf' io' eof :
    decode c buf = (Ok Insufficient, c1, buf1) \/ (buf = [] /\ c1 = c /\ buf1 = []) ->
    (0 < room)%nat -> ScriptedIo_read room io = (chunk, io1) -> chunk <> [] ->
    frames false c1 (buf1 ++ chunk) io1 r c' buf' io' eof -> frames false c buf io r c' buf' io' eof
| fr_end c buf io c1 buf1 room io1 r c' buf' io' eof :
    decode c buf = (Ok Insufficient, c1, buf1) \/ (buf = [] /\ c1 = c /\ buf1 = []) ->
    (0 < room)%nat -> ScriptedIo_read room io = ([], io1) ->
    frames true c1 buf1 io1 r c' buf' io' eof -> frames false c buf io r c' buf' io' eof
| fr_eof c buf io a c' buf' : decode_eof c buf = (a, c', buf') -> frames true c buf io (at_end a) c' buf' io true.
End Frames.

(** [framed_open] is [Some eof] while a [Framed] may be polled for frames. *)
Class MonoioFramedSpec `{MonoioFramed} := {
  framed_open : forall {C}, Framed C -> option bool;
  new_framed C io (c : C) : framed_open (Framed_new io c) = Some false /\ framed_codec (Framed_new io c) = c /\
    framed_io (Framed_new io c) = io /\ framed_read_buffer (Framed_new io c) = [] /\ framed_write_buffer (Framed_new io c) = [];
  map_codec_framed C D (g : C -> D) f : framed_open (map_codec g f) = framed_open f /\
    framed_codec (map_codec g f) = g (framed_codec f) /\ framed_io (map_codec g f) = framed_io f /\
    framed_read_buffer (map_codec g f) = framed_read_buffer f /\ framed_write_buffer (map_codec g f) = framed_write_buffer f;
  next_framed C A (decode decode_eof : Decode C A) f eof r f' :
    framed_open f = Some eof -> Framed_next decode decode_eof f = (r, f') ->
    framed_write_buffer f' = framed_write_buffer f /\
    exists eof', (forall x, r = Some (Ok x) -> framed_open f' = Some eof') /\
      frames decode decode_eof eof (framed_codec f) (framed_read_buffer f) (framed_io f) r
        (framed_codec f') (framed_read_buffer f') (framed_io f') eof';
  (** Below the backpressure boundary an item is only encoded. *)
  send_framed C (encode : C -> MqttPacket -> list Z -> result unit IoError * C * list Z) p f r f' :
    Z.of_nat (length (framed_write_buffer f)) < WRITE_BACKPRESSURE_BOUNDARY -> Framed_send encode p f = (r, f') ->
    encode (framed_codec f) p (framed_write_buffer f) = (r, framed_codec f', framed_write_buffer f') /\
    framed_open f' = framed_open f /\ framed_io f' = framed_io f /\ framed_read_buffer f' = framed_read_buffer f;
  flush_framed C (f : Framed C) r f' : Framed_flush f = (r, f') ->
    r = Ok tt /\ framed_open f' = framed_open f /\ framed_codec f' = framed_codec f /\
    framed_io f' = (ScriptedIo_write (framed_write_buffer f) (framed_io f)).2 /\
    framed_read_buffer f' = framed_read_buffer f /\ framed_write_buffer f' = [];
  stray_bytes : IoError;
  stray_not_decode : downcast_decode stray_bytes = None;
  default_eof C A (decode : Decode C A) c src :
    default_decode_eof decode c src =
      let '(a, c, src) := decode c src in
      (match a with
       | Ok Insufficient => if (length src =? 0)%nat then Ok Insufficient else Err stray_bytes
       | a => a
       end, c, src)
}.

(** ** A concrete [Framed] *)

Module PlainFramed.
Record State (C : Type) := { s_codec : C; s_io : ScriptedIo; s_read : list Z; s_write : list Z; s_open : option bool }.
Arguments s_codec {C}.
Arguments s_io {C}.
Arguments s_read {C}.
Arguments s_write {C}.
Arguments s_open {C}.

Definition READ_ROOM : nat := Nat.pow 2 13.

Section Next.
Context {C A : Type} (decode decode_eof : Decode C A).

Definition ended (c : C) (buf : list Z) (io : ScriptedIo) (out : list Z) : option (io_result A) * State C :=
  let '(a, c, buf) := decode_eof c buf in
  (at_end a, {| s_codec := c; s_io := io; s_read := buf; s_write := out;
                s_open := match a with Ok (DSome _) => Some true | _ => None end |}).

Fixpoint reading (n : nat) (c : C) (buf : list Z) (io : ScriptedIo) (out : list Z) : option (io_result A) * State C :=
  let '(a, c, buf) := decode c buf in
  match a with
  | Ok (DSome x) => (Some (Ok x), {| s_codec := c; s_io := io; s_read := buf; s_write := out; s_open := Some false |})
  | Err e => (Some (Err e), {| s_codec := c; s_io := io; s_read := buf; s_write := out; s_open := None |})
  | Ok Insufficient =>
      match ScriptedIo_read READ_ROOM io, n with
      | (b :: chunk, io), S n => reading n c (buf ++ b :: chunk) io out
      | (_, io), _ => ended c buf io out
      end
  end.
End Next.

#[export] Instance ops : MonoioFramed := {|
  Framed := State;
  Framed_new C io c := {| s_codec := c; s_io := io; s_read := []; s_write := []; s_open := Some false |};
  map_codec C D g f := {| s_codec := g (s_codec f); s_io := s_io f; s_read := s_read f; s_write := s_write f; s_open := s_open f |};
  framed_codec C := s_codec;
  framed_io C := s_io;
  framed_read_buffer C := s_read;
  framed_write_buffer C := s_write;
  Framed_next C A decode decode_eof f :=
    match s_open f with
    | Some false => reading decode decode_eof (length (wire (s_io f))) (s_codec f) (s_read f) (s_io f) (s_write f)
    | Some true => ended decode_eof (s_codec f) (s_read f) (s_io f) (s_write f)
    | None => (None, f)
    end;
  Framed_send C encode p f :=
    let '(io, out) := if WRITE_BACKPRESSURE_BOUNDARY <=? Z.of_nat (length (s_write f))
                      then ((ScriptedIo_write (s_write f) (s_io f)).2, []) else (s_io f, s_write f) in
    let '(r, c, out) := encode (s_codec f) p out in
    (r, {| s_codec := c; s_io := io; s_read := s_read f; s_write := out; s_open := s_open f |});
  Framed_flush C f :=
    (Ok tt, {| s_codec := s_codec f; s_io := (ScriptedIo_write (s_write f) (s_io f)).2; s_read := s_read f; s_write := [];
               s_open := s_open f |});
  default_decode_eof C A decode c src :=
    let '(a, c, src) := decode c src in
    (match a with
     | Ok Insufficient => if (length src =? 0)%nat then Ok Insufficient
                          else Err {| io_kind := OtherIoErrorKind 0; io_source := Some (SourceOther "bytes remaining on stream") |}
     | a => a
     end, c, src)
|}.

Lemma read_shrinks room io chunk io1 : ScriptedIo_read room io = (chunk, io1) ->
  wire io = chunk ++ wire io1 /\ max_read io1 = max_read io /\ bytes_written io1 = bytes_written io.
Proof.
  unfold ScriptedIo_read. set (cap := if max_read io =? UNCHUNKED then length (wire io) else _). intros; simplify_eq/=.
  split; [|done]. rewrite take_take, Nat.min_l by (rewrite length_take; lia). by rewrite take_drop.
Qed.

Lemma read_ends room io io1 : (0 < room)%nat -> 0 <= max_read io -> ScriptedIo_read room io = ([], io1) -> wire io = [] /\ wire io1 = [].
Proof.
  unfold ScriptedIo_read. intros Hr Hm. set (cap := if max_read io =? UNCHUNKED then length (wire io) else _). intros Hx; simplify_eq/=.
  assert (wire io = []) as ->; [|by rewrite drop_nil].
  destruct (wire io) as [|b l] eqn:E; [done|]. exfalso.
  assert (0 < cap)%nat as Hc.
  { unfold cap, UNCHUNKED. cbn [length]. destruct (Z.eqb_spec (max_read io) 0); lia. }
  destruct cap as [|cap]; [lia|]. destruct room as [|room]; [lia|]. by cbn in H.
Qed.

Lemma reading_frames {C A} (decode decode_eof : Decode C A) n c buf io out r f' :
  (length (wire io) <= n)%nat -> reading decode decode_eof n c buf io out = (r, f') ->
  s_write f' = out /\ exists eof', (forall x, r = Some (Ok x) -> s_open f' = Some eof') /\
    frames decode decode_eof false c buf io r (s_codec f') (s_read f') (s_io f') eof'.
Proof.
  assert (0 < READ_ROOM)%nat as Hroom by (unfold READ_ROOM; simpl; lia).
  assert (forall c1 buf1 io1 r f', ended decode_eof c1 buf1 io1 out = (r, f') ->
    s_write f' = out /\ (forall x, r = Some (Ok x) -> s_open f' = Some true) /\
    frames decode decode_eof true c1 buf1 io1 r (s_codec f') (s_read f') (s_io f') true) as Hend.
  { intros c1 buf1 io1 r1 f1. unfold ended. destruct (decode_eof c1 buf1) as [[a c2] buf2] eqn:E.
    intros; simplify_eq/=. split; [done|]. split; [by destruct a as [[]|]|]. by apply fr_eof. }
  revert c buf io r f'. induction n as [|n IH]; intros c buf io r f' Hn; cbn [reading];
    destruct (decode c buf) as [[[[x|]|e] c1] buf1] eqn:E.
  1, 4: (intros; simplify_eq/=; split; [done|]; exists false; split; [done|]; by apply fr_item).
  2, 4: (intros; simplify_eq/=; split; [done|]; exists false; split; [done|]; by apply fr_error).
  - destruct (ScriptedIo_read READ_ROOM io) as [[|b chunk] io1] eqn:Er.
    + intros (Hw & Ho & Hf)%Hend. split; [done|]. exists true. split; [done|]. eapply fr_end; eauto.
    + apply read_shrinks in Er as [Hl _]. rewrite Hl in Hn. simpl in Hn. lia.
  - destruct (ScriptedIo_read READ_ROOM io) as [[|b chunk] io1] eqn:Er.
    + intros (Hw & Ho & Hf)%Hend. split; [done|]. exists true. split; [done|]. eapply fr_end; eauto.
    + pose proof (read_shrinks _ _ _ _ Er) as [Hl _]. rewrite Hl, length_app in Hn. simpl in Hn.
      intros (Hw & eof & Ho & Hf)%IH; [|lia]. split; [done|]. exists eof. split; [done|]. by eapply fr_more; eauto.
Qed.

#[export] Instance spec : MonoioFramedSpec.
Proof.
  refine {| framed_open := fun (C : Type) => s_open : State C -> option bool;
            stray_bytes := {| io_kind := OtherIoErrorKind 0; io_source := Some (SourceOther "bytes remaining on stream") |} |}; try done.
  - intros C A decode decode_eof f eof r f' Ho. simpl in *. rewrite Ho. destruct eof.
    + unfold ended. destruct (decode_eof _ _) as [[a c] buf] eqn:E. intros; simplify_eq/=. split; [done|].
      exists true. split; [by destruct a as [[]|]|]. by apply fr_eof.
    + intros Hr%reading_frames; [done|lia].
  - intros C encode p f r f' Hlt. simpl in *. rewrite (proj2 (Z.leb_gt _ _)) by done.
    destruct (encode _ _ _) as [[a c] out] eqn:E. intros; by simplify_eq/=.
  - intros C f r f'. simpl. intros; by simplify_eq/=.
Defined.
End PlainFramed.
