(* ===== verification/Stream.v ===== *)
(** * Frames do not depend on reads

    However the bytes of a stream are cut into reads, [Framed] hands out the
    frames that decoding the whole stream at once gives.  [RmqttIncremental] is
    what this takes of rmqtt-codec: a decoder that lacks bytes waits without
    losing any, and what it has decided is not changed by bytes that follow. *)

From S2P Require Import Prelude FixedHeader Rmqtt Errors Decoder Packet Handshake Api Channel Runtime Session Scripted.

(** Two decodings with the same answer, and the same state unless they failed. *)
Definition same_decode {A E C} (x y : result A E * C * list Z) : Prop :=
  x.1.1 = y.1.1 /\ (forall a, x.1.1 = Ok a -> x = y).

Lemma same_decode_eq {A E C} (x y : result A E * C * list Z) : x = y -> same_decode x y.
Proof. by intros ->. Qed.

Definition keep_alive_ok (p : MqttPacket) : Prop :=
  match p with
  | V3 (V3_Connect c) => u16 (v3_keep_alive c)
  | V5 (V5_Connect c) => u16 (v5_keep_alive c)
  | _ => True
  end.

Class RmqttIncremental `{RmqttFraming} := {
  inc_more c src c' src' more : codec_decode c src = (Ok None, c', src') ->
    same_decode (codec_decode c' (src' ++ more)) (codec_decode c (src ++ more));
  inc_some c src p c' src' more : codec_decode c src = (Ok (Some p), c', src') ->
    codec_decode c (src ++ more) = (Ok (Some p), c', src' ++ more);
  inc_error c src e c' src' more : codec_decode c src = (Err e, c', src') -> (codec_decode c (src ++ more)).1.1 = Err e;
  (** An error at a frame boundary is about a header that has arrived. *)
  inc_error_header c src e c' src' more : mid_frame c = false -> codec_decode c src = (Err e, c', src') ->
    fixed_header (src ++ more) = fixed_header src;
  (** A whole packet is enough, and is consumed. *)
  inc_complete c src c' src' : mid_frame c = false -> codec_decode c src = (Ok None, c', src') -> holds_complete_packet src = false;
  inc_consumes c src p c' src' : mid_frame c = false -> codec_decode c src = (Ok (Some p), c', src') ->
    (length src' < length src)%nat;
  inc_keep_alive c src p n c' src' : codec_decode c src = (Ok (Some (p, n)), c', src') -> keep_alive_ok p;
  (** [encode] appends. *)
  enc_appends c p dst c' bytes : codec_encode c p [] = (Ok tt, c', bytes) -> codec_encode c p dst = (Ok tt, c', dst ++ bytes);
  enc_fails c p dst e c' bytes : codec_encode c p [] = (Err e, c', bytes) -> (codec_encode c p dst).1.1 = Err e;
  (** The version is read without consuming it. *)
  ver_peeks src : (VersionCodec_decode src).2 = src;
  ver_some src v more : (VersionCodec_decode src).1 = Ok (Some v) ->
    is_Some (fixed_header src) /\ (VersionCodec_decode (src ++ more)).1 = Ok (Some v);
  ver_error src e more : (VersionCodec_decode src).1 = Err e -> exists e', (VersionCodec_decode (src ++ more)).1 = Err e'
}.

(** ** Header verdicts *)

Lemma verdicts_stable m src more : is_Some (fixed_header src) ->
  rejects_fixed_header m (src ++ more) = rejects_fixed_header m src /\
  rejects_malformed_fixed_header (src ++ more) = rejects_malformed_fixed_header src.
Proof.
  intros [x Hx]. pose proof (fixed_header_nonempty _ _ Hx). pose proof (fixed_header_app _ more _ Hx) as Hx'.
  unfold rejects_fixed_header, rejects_malformed_fixed_header, packet_len. rewrite Hx, Hx'. by destruct src.
Qed.

Lemma verdicts_same m src more : fixed_header (src ++ more) = fixed_header src ->
  rejects_fixed_header m (src ++ more) = rejects_fixed_header m src /\
  rejects_malformed_fixed_header (src ++ more) = rejects_malformed_fixed_header src.
Proof.
  intros Hx. destruct (fixed_header src) as [x|] eqn:E; [by apply verdicts_stable; eexists|].
  unfold rejects_fixed_header, rejects_malformed_fixed_header, packet_len. by rewrite Hx, E.
Qed.

(** A header that passed both checks still passes them. *)
Lemma verdicts_pass m src more : fixed_header (src ++ more) = fixed_header src \/ is_Some (fixed_header src) ->
  rejects_fixed_header m src = false /\ rejects_malformed_fixed_header src = false ->
  rejects_fixed_header m (src ++ more) = false /\ rejects_malformed_fixed_header (src ++ more) = false.
Proof. intros [Hs|Hs] [E1 E2]; [apply (verdicts_same m) in Hs as [-> ->]|apply (verdicts_stable m _ more) in Hs as [-> ->]]; done. Qed.

Lemma rejects_header m src : rejects_fixed_header m src = true -> is_Some (fixed_header src).
Proof. unfold rejects_fixed_header, packet_len. destruct (fixed_header src); [by eexists|done]. Qed.

Lemma malformed_header src : rejects_malformed_fixed_header src = true -> is_Some (fixed_header src).
Proof. unfold rejects_malformed_fixed_header. destruct (fixed_header src); [by eexists|done]. Qed.

Lemma complete_stable src more : holds_complete_packet src = true -> holds_complete_packet (src ++ more) = true.
Proof.
  unfold holds_complete_packet, packet_len. destruct (fixed_header src) as [x|] eqn:E; [|done].
  rewrite (fixed_header_app _ more _ E). destruct x. rewrite length_app, !Z.leb_le. lia.
Qed.

(** ** [MqttDecoder] *)

Section Decoder.
Context `{RmqttIncremental}.

(** The decoder's answer from the codec's, the header checks passed. *)
Definition decoded (d : MqttDecoder) (before : nat) (x : result (option (MqttPacket * Z)) DecodeError * codec * list Z) :
    result (Decoded (MqttPacket * Z)) IoError * MqttDecoder * list Z :=
  let '(answer, inner, src) := x in
  let with_start b := {| d_inner := inner; d_max_inbound_packet_size := d_max_inbound_packet_size d; d_at_frame_start := b |} in
  match answer with
  | Ok (Some packet) => (Ok (DSome packet), with_start true, src)
  | Ok None => (Ok Insufficient, with_start (if (length src <? before)%nat then false else d_at_frame_start d), src)
  | Err e => (Err (IoError_new InvalidData (SourceDecode e)), with_start (d_at_frame_start d), src)
  end.

Lemma decode_unchecked d src :
  (d_at_frame_start d = true ->
    rejects_fixed_header (d_max_inbound_packet_size d) src = false /\ rejects_malformed_fixed_header src = false) ->
  MqttDecoder_decode d src = decoded d (length src) (codec_decode (d_inner d) src).
Proof.
  intros Hc. unfold MqttDecoder_decode, decoded. destruct (d_at_frame_start d); cbn [andb].
  - destruct (Hc eq_refl) as [-> ->]. by destruct (codec_decode _ _) as [[[[]|] ?] ?].
  - by destruct (codec_decode _ _) as [[[[]|] ?] ?].
Qed.

Lemma decode_some d src x d1 src1 more : frame_sync d -> MqttDecoder_decode d src = (Ok (DSome x), d1, src1) ->
  MqttDecoder_decode d (src ++ more) = (Ok (DSome x), d1, src1 ++ more).
Proof.
  intros Hs Hd. pose proof (decode_ok_inv _ _ _ _ _ Hd) as (Hchk & Hm & answer & E & Ha). destruct answer as [p|]; [|by destruct Ha].
  destruct Ha as [[= ->] Hst]. rewrite decode_unchecked.
  - rewrite (inc_some _ _ _ _ _ more E). unfold decoded. destruct d1; simpl in *. by subst.
  - intros Hst'. unfold frame_sync in Hs. rewrite Hst' in Hs. apply verdicts_pass; [right|auto].
    eapply framing_some; [done|]. by destruct (mid_frame (d_inner d)).
Qed.

Lemma decode_more d src d1 src1 more : frame_sync d -> MqttDecoder_decode d src = (Ok Insufficient, d1, src1) ->
  same_decode (MqttDecoder_decode d1 (src1 ++ more)) (MqttDecoder_decode d (src ++ more)).
Proof.
  intros Hs Hd. pose proof (decode_ok_inv _ _ _ _ _ Hd) as (Hchk & Hm & answer & E & Ha). destruct answer as [p|]; [by destruct Ha|].
  destruct Ha as [_ Hst]. pose proof (framing_none _ _ _ _ E) as Hf. pose proof (inc_more _ _ _ _ more E) as Hinc.
  destruct (length src1 <? length src)%nat eqn:El.
  - destruct Hf as [_ Hh]. apply Nat.ltb_lt in El.
    rewrite (decode_unchecked d1), (decode_unchecked d); [| |by rewrite Hst].
    + unfold decoded. destruct Hinc as [Hans Heq].
      destruct (codec_decode (d_inner d1) (src1 ++ more)) as [[[[p|]|e] c2] s2] eqn:E2; simpl in *.
      * rewrite <- (Heq _ eq_refl). apply same_decode_eq. by rewrite Hm.
      * rewrite <- (Heq _ eq_refl). apply same_decode_eq. rewrite Hm. repeat f_equal. rewrite Hst.
        pose proof (framing_none _ _ _ _ E2) as Hf2.
        assert (length s2 <= length (src1 ++ more))%nat as Hle.
        { destruct (_ <? _)%nat eqn:E3; [apply Nat.ltb_lt in E3; lia|]. by destruct Hf2 as [_ ->]. }
        assert ((length s2 <? length (src ++ more))%nat = true) as -> by (apply Nat.ltb_lt; rewrite !length_app in *; lia). by destruct (_ <? _)%nat.
      * destruct (codec_decode (d_inner d) (src ++ more)) as [[a c3] s3]; simpl in *; subst a. split; [done|]. done.
    + intros Hst'. unfold frame_sync in Hs. rewrite Hst' in Hs. apply verdicts_pass; [right|auto].
      apply Hh. by destruct (mid_frame (d_inner d)).
  - destruct Hf as [Hmid ->]. unfold MqttDecoder_decode. rewrite Hst, Hm.
    destruct (d_at_frame_start d && rejects_fixed_header _ _); [by split|].
    destruct (d_at_frame_start d && rejects_malformed_fixed_header _); [by split|].
    destruct Hinc as [Hans Heq]. destruct (codec_decode (d_inner d1) (src ++ more)) as [[[[p|]|e] c2] s2]; simpl in *.
    + rewrite <- (Heq _ eq_refl). by apply same_decode_eq.
    + rewrite <- (Heq _ eq_refl). by apply same_decode_eq.
    + destruct (codec_decode (d_inner d) (src ++ more)) as [[a c3] s3]; simpl in *; subst a. done.
Qed.

Lemma decode_err d src e d1 src1 more : frame_sync d -> MqttDecoder_decode d src = (Err e, d1, src1) ->
  (MqttDecoder_decode d (src ++ more)).1.1 = Err e.
Proof.
  intros Hs. unfold frame_sync in Hs. unfold MqttDecoder_decode at 1.
  destruct (d_at_frame_start d && rejects_fixed_header _ _) eqn:E1.
  { apply andb_true_iff in E1 as [Hst Hr]. intros; simplify_eq. unfold MqttDecoder_decode. rewrite Hst.
    destruct (verdicts_stable (d_max_inbound_packet_size d1) src1 more (rejects_header _ _ Hr)) as [-> _]. by rewrite Hr. }
  destruct (d_at_frame_start d && rejects_malformed_fixed_header _) eqn:E2.
  { apply andb_true_iff in E2 as [Hst Hr]. intros; simplify_eq. unfold MqttDecoder_decode. rewrite Hst in *.
    destruct (verdicts_stable (d_max_inbound_packet_size d1) src1 more (malformed_header _ Hr)) as [-> ->].
    simpl in E1. by rewrite E1, Hr. }
  destruct (codec_decode (d_inner d) src) as [[[[p|]|e'] c2] s2] eqn:E; intros; simplify_eq.
  rewrite decode_unchecked.
  - pose proof (inc_error _ _ _ _ _ more E) as Hi. unfold decoded.
    destruct (codec_decode (d_inner d) (src ++ more)) as [[a c3] s3]; simpl in *. by subst a.
  - intros Hst. rewrite Hst in *. simpl in E1, E2. apply verdicts_pass; [left|done].
    eapply inc_error_header; [|done]. by destruct (mid_frame (d_inner d)).
Qed.
End Decoder.

(** ** Any reads give the frames of the whole stream *)

Section Frames.
Context {C A : Type} (decode decode_eof : Decode C A) (I : C -> Prop) (E : IoError -> IoError -> Prop).

(** What [next] has to answer, from [decode_eof] of all the bytes there are. *)
Definition answers (whole : result (Decoded A) IoError * C * list Z) (r : option (io_result A)) (c' : C) (rest : list Z) : Prop :=
  match whole with
  | (Ok (DSome x), c1, rest1) => r = Some (Ok x) /\ c' = c1 /\ rest = rest1
  | (Ok Insufficient, _, _) => r = None
  | (Err e, _, _) => exists e', r = Some (Err e') /\ E e e'
  end.

Hypothesis Hmore : forall c src c1 src1 more, I c -> decode c src = (Ok Insufficient, c1, src1) ->
  I c1 /\ same_decode (decode_eof c1 (src1 ++ more)) (decode_eof c (src ++ more)).
Hypothesis Hsome : forall c src x c1 src1 more, I c -> decode c src = (Ok (DSome x), c1, src1) ->
  decode_eof c (src ++ more) = (Ok (DSome x), c1, src1 ++ more).
Hypothesis Herr : forall c src e c1 src1 more, I c -> decode c src = (Err e, c1, src1) ->
  exists e', (decode_eof c (src ++ more)).1.1 = Err e' /\ E e' e.
Hypothesis Erefl : forall e, E e e.

Lemma answers_same x y r c' rest : same_decode x y -> answers x r c' rest -> answers y r c' rest.
Proof.
  intros [Ha He]. destruct x as [[a c] s]. simpl in *. destruct a as [a|e].
  - by rewrite <- (He a eq_refl).
  - destruct y as [[b c1] s1]. simpl in *. by subst b.
Qed.

(** What no decoding changes, no [next] changes. *)
Lemma frames_keep {K} (k : C -> K) eof c buf io r c' buf' io' eof' :
  (forall c src a c' src', decode c src = (a, c', src') \/ decode_eof c src = (a, c', src') -> k c' = k c) ->
  frames decode decode_eof eof c buf io r c' buf' io' eof' -> k c' = k c.
Proof.
  intros Hk. induction 1 as [c buf io x c' buf' Hd|c buf io e c' buf' Hd|c buf io c1 buf1 room chunk io1 r c' buf' io' eof Hd _ _ _ _ IH
    |c buf io c1 buf1 room io1 r c' buf' io' eof Hd _ _ _ IH|c buf io a c' buf' Hd].
  1, 2, 5: (eapply Hk; by eauto).
  all: (rewrite IH; destruct Hd as [Hd|(_ & -> & _)]; [eapply Hk; by eauto|done]).
Qed.

Lemma frames_whole eof c buf io r c' buf' io' eof' :
  frames decode decode_eof eof c buf io r c' buf' io' eof' -> I c -> 0 <= max_read io -> (eof = true -> wire io = []) ->
  answers (decode_eof c (buf ++ wire io)) r c' (buf' ++ wire io') /\
  (eof' = true -> wire io' = []) /\ max_read io' = max_read io /\ bytes_written io' = bytes_written io.
Proof.
  induction 1 as [c buf io x c' buf' Hd|c buf io e c' buf' Hd|c buf io c1 buf1 room chunk io1 r c' buf' io' eof Hd Hroom Hr Hc Hf IH
    |c buf io c1 buf1 room io1 r c' buf' io' eof Hd Hroom Hr Hf IH|c buf io a c' buf' Hd]; intros Hi Hm Hw.
  - by rewrite (Hsome _ _ _ _ _ (wire io) Hi Hd).
  - destruct (Herr _ _ _ _ _ (wire io) Hi Hd) as (e' & He & Hee). destruct (decode_eof _ _) as [[b c1] s1]. simpl in *. subst b.
    split; [by exists e|done].
  - apply PlainFramed.read_shrinks in Hr as (Hl & Hm1 & Hb1). rewrite Hl.
    assert (I c1 /\ same_decode (decode_eof c1 (buf1 ++ chunk ++ wire io1)) (decode_eof c (buf ++ chunk ++ wire io1))) as [Hi1 Hs].
    { destruct Hd as [Hd|(-> & -> & ->)]; [by apply Hmore|]. split; [done|by apply same_decode_eq]. }
    destruct IH as (Ha & He & Hm' & Hb'); [done|by rewrite Hm1|done|].
    rewrite <- app_assoc in Ha. split; [by eapply answers_same|]. split; [done|]. split; congruence.
  - pose proof (PlainFramed.read_shrinks _ _ _ _ Hr) as (_ & Hm1 & Hb1).
    apply PlainFramed.read_ends in Hr as [Hl Hl1]; [|done|done]. rewrite Hl. rewrite Hl1 in IH.
    assert (I c1 /\ same_decode (decode_eof c1 (buf1 ++ [])) (decode_eof c (buf ++ []))) as [Hi1 Hs].
    { destruct Hd as [Hd|(-> & -> & ->)]; [by apply Hmore|]. split; [done|by apply same_decode_eq]. }
    destruct IH as (Ha & He & Hm' & Hb'); [done|by rewrite Hm1|done|].
    split; [by eapply answers_same|]. split; [done|]. split; congruence.
  - rewrite (Hw eq_refl), !app_nil_r, Hd. unfold answers, at_end. destruct a as [[x|]|e]; eauto 10.
Qed.
End Frames.

Section Instances.
Context `{RmqttIncremental}.

Definition pair_sync (c : CodecPair) : Prop := frame_sync (cp_decoder c).

Lemma decode_eof_of d src : MqttDecoder_decode_eof d src =
  let '(answer, d1, src1) := MqttDecoder_decode d src in
  (match answer with
   | Ok Insufficient => if (length src1 =? 0)%nat && d_at_frame_start d1 then Ok Insufficient
                        else Err (IoError_new UnexpectedEof (SourceTruncated TruncatedPacket_))
   | a => a
   end, d1, src1).
Proof. unfold MqttDecoder_decode_eof. destruct (MqttDecoder_decode d src) as [[[[]|] ?] ?]; try done. by destruct (_ && _). Qed.

Lemma decode_eof_more d src d1 src1 more : frame_sync d -> MqttDecoder_decode d src = (Ok Insufficient, d1, src1) ->
  same_decode (MqttDecoder_decode_eof d1 (src1 ++ more)) (MqttDecoder_decode_eof d (src ++ more)).
Proof.
  intros Hs Hd. destruct (decode_more _ _ _ _ more Hs Hd) as [Ha He]. rewrite !decode_eof_of.
  destruct (MqttDecoder_decode d1 (src1 ++ more)) as [[[a|e] d2] s2]; simpl in *.
  - rewrite <- (He _ eq_refl). by apply same_decode_eq.
  - destruct (MqttDecoder_decode d (src ++ more)) as [[b d3] s3]. simpl in *. by subst b.
Qed.

(** A packet leaves the decoder at a frame boundary, with fewer bytes to go. *)
Lemma decode_eof_item d src x d1 src1 : frame_sync d -> d_at_frame_start d = true ->
  MqttDecoder_decode_eof d src = (Ok (DSome x), d1, src1) ->
  frame_sync d1 /\ d_at_frame_start d1 = true /\ (length src1 < length src)%nat /\ keep_alive_ok x.1.
Proof.
  intros Hs Hst. rewrite decode_eof_of. destruct (MqttDecoder_decode d src) as [[[[y|]|e] d2] s2] eqn:Ed; [|by destruct (_ && _)|done].
  intros [= -> -> ->]. pose proof (decode_sync _ _ _ _ _ Hs Ed) as Hs1.
  apply decode_ok_inv in Ed as (_ & _ & answer & E & Ha). destruct answer as [p|]; [|by destruct Ha]. destruct Ha as [[= ->] Hst1].
  split; [done|]. split; [done|]. unfold frame_sync in Hs. rewrite Hst in Hs. destruct p as [p n].
  split; [eapply inc_consumes; [|done]; by destruct (mid_frame (d_inner d))|by eapply inc_keep_alive].
Qed.

(** A stream that ends, or is cut, at a frame boundary held no whole packet;
    every other failure of the decoder is a typed rejection. *)
Lemma decode_eof_incomplete d src a d1 src1 : frame_sync d -> d_at_frame_start d = true ->
  MqttDecoder_decode_eof d src = (a, d1, src1) ->
  match a with
  | Ok (DSome _) => True
  | Ok Insufficient => holds_complete_packet src = false
  | Err e => classify_read_error e = None -> holds_complete_packet src = false
  end.
Proof.
  intros Hs Hst. rewrite decode_eof_of. destruct (MqttDecoder_decode d src) as [[[[y|]|e] d2] s2] eqn:Ed.
  - by intros [= <- <- <-].
  - assert (holds_complete_packet src = false) as Hc.
    { apply decode_ok_inv in Ed as (_ & _ & answer & E & Ha). destruct answer as [p|]; [by destruct Ha|].
      eapply inc_complete; [|done]. unfold frame_sync in Hs. rewrite Hst in Hs. by destruct (mid_frame (d_inner d)). }
    intros [= <- <- <-]. by destruct (_ && _).
  - intros [= <- <- <-]. assert (is_Some (downcast_decode e)) as [x Hx]; [|unfold classify_read_error; rewrite Hx; by destruct x].
    unfold MqttDecoder_decode in Ed. repeat (case_match; simplify_eq/=; try by eexists).
Qed.

(** A session's frames: [next] of a [Framed] at a frame boundary. *)
Lemma packet_frames eof c buf io r c' buf' io' eof' :
  frames CodecPair_decode CodecPair_decode_eof eof c buf io r c' buf' io' eof' -> pair_sync c -> 0 <= max_read io ->
  (eof = true -> wire io = []) ->
  answers eq (CodecPair_decode_eof c (buf ++ wire io)) r c' (buf' ++ wire io') /\
  (eof' = true -> wire io' = []) /\ max_read io' = max_read io /\ bytes_written io' = bytes_written io.
Proof.
  apply (frames_whole _ _ pair_sync eq); unfold pair_sync, CodecPair_decode, CodecPair_decode_eof.
  - intros [v d e] src c1 src1 more Hs. simpl in *. destruct (MqttDecoder_decode d src) as [[a d1] s1] eqn:Ed.
    intros; simplify_eq/=. split; [by eapply decode_sync|].
    destruct (decode_eof_more _ _ _ _ more Hs Ed) as [Ha He].
    destruct (MqttDecoder_decode_eof d1 (src1 ++ more)) as [[[a|x] d2] s2]; simpl in *.
    + rewrite <- (He _ eq_refl). by apply same_decode_eq.
    + destruct (MqttDecoder_decode_eof d (src ++ more)) as [[b d3] s3]. simpl in *. by subst b.
  - intros [v d e] src x c1 src1 more Hs. simpl in *. destruct (MqttDecoder_decode d src) as [[a d1] s1] eqn:Ed.
    intros; simplify_eq/=. by rewrite decode_eof_of, (decode_some _ _ _ _ _ more Hs Ed).
  - intros [v d e] src x c1 src1 more Hs. simpl in *. destruct (MqttDecoder_decode d src) as [[a d1] s1] eqn:Ed.
    intros; simplify_eq/=. pose proof (decode_err _ _ _ _ _ more Hs Ed) as He. rewrite decode_eof_of.
    destruct (MqttDecoder_decode d (src ++ more)) as [[b d3] s3]. simpl in *. subst b. by exists x.
  - done.
Qed.

Lemma packet_frames_keep eof c buf io r c' buf' io' eof' :
  frames CodecPair_decode CodecPair_decode_eof eof c buf io r c' buf' io' eof' ->
  cp_version c' = cp_version c /\ cp_encoder c' = cp_encoder c.
Proof.
  intros Hf. apply (frames_keep _ _ (fun c => (cp_version c, cp_encoder c))) in Hf; [by injection Hf|].
  intros c1 src a c2 src' [Hd|Hd]; unfold CodecPair_decode, CodecPair_decode_eof in Hd.
  - by destruct (MqttDecoder_decode _ _) as [[? ?] ?]; simplify_eq.
  - by destruct (MqttDecoder_decode_eof _ _) as [[? ?] ?]; simplify_eq.
Qed.

(** ** The version of a stream *)

Lemma version_decode_eq m src : version_decode (VersionDecoder_new m) src =
  ((VersionDecoder_decode (VersionDecoder_new m) src).1, VersionDecoder_new m, src).
Proof.
  unfold version_decode, VersionDecoder_decode. destruct (rejects_fixed_header _ _); [done|].
  pose proof (ver_peeks src) as Hp. destruct (VersionCodec_decode src) as [a s]. simpl in Hp. by subst s.
Qed.

Lemma version_some m src v more : (VersionDecoder_decode (VersionDecoder_new m) src).1 = Ok (DSome v) ->
  (VersionDecoder_decode (VersionDecoder_new m) (src ++ more)).1 = Ok (DSome v).
Proof.
  unfold VersionDecoder_decode. destruct (rejects_fixed_header _ src) eqn:Er; [done|].
  destruct (VersionCodec_decode src) as [a s] eqn:Ev. destruct a as [[v'|]|e]; [|done|destruct e; try done; by destruct (names_a_known_protocol _)].
  intros [= ->]. destruct (ver_some src v more) as [Hh Hv]; [by rewrite Ev|].
  destruct (verdicts_stable m src more Hh) as [Hr _]. simpl in *. rewrite Hr, Er.
  destruct (VersionCodec_decode (src ++ more)) as [a s']. simpl in *. by subst a.
Qed.

Lemma version_err m src e more : (VersionDecoder_decode (VersionDecoder_new m) src).1 = Err e ->
  exists e', (VersionDecoder_decode (VersionDecoder_new m) (src ++ more)).1 = Err e'.
Proof.
  intros Hd. destruct (rejects_fixed_header m (src ++ more)) eqn:Er'.
  { unfold VersionDecoder_decode. simpl. rewrite Er'. by eexists. }
  unfold VersionDecoder_decode in *. simpl in *. rewrite Er'.
  destruct (rejects_fixed_header m src) eqn:Er.
  { destruct (verdicts_stable m src more (rejects_header _ _ Er)) as [Hr _]. congruence. }
  destruct (VersionCodec_decode src) as [a s] eqn:Ev. simpl in Hd.
  destruct a as [[v|]|e0]; [done|done|]. destruct (ver_error src e0 more) as [e1 He1]; [by rewrite Ev|].
  destruct (VersionCodec_decode (src ++ more)) as [a s']. simpl in *. subst a. destruct e1; try by eexists. by destruct (names_a_known_protocol s'); eexists.
Qed.

Lemma version_err_typed m src e : (VersionDecoder_decode (VersionDecoder_new m) src).1 = Err e -> is_Some (downcast_decode e).
Proof. unfold VersionDecoder_decode. intros He. repeat (case_match; simplify_eq/=; try by eexists). Qed.
End Instances.

Section Version.
Context `{RmqttIncremental} `{MonoioFramedSpec}.

Definition version_eof (m : MaxInboundPacketSize) (src : list Z) : result (Decoded ProtocolVersion) IoError :=
  match (VersionDecoder_decode (VersionDecoder_new m) src).1 with
  | Ok Insufficient => if (length src =? 0)%nat then Ok Insufficient else Err stray_bytes
  | a => a
  end.

Lemma version_eof_eq m src : default_decode_eof version_decode (VersionDecoder_new m) src =
  (version_eof m src, VersionDecoder_new m, src).
Proof. rewrite default_eof, version_decode_eq. unfold version_eof. by destruct (VersionDecoder_decode _ _).1 as [[]|]. Qed.

(** Reads may change which rejection a stream that names no version meets, but
    not an end of the stream. *)
Definition version_error (whole e : IoError) : Prop := downcast_decode whole = None -> e = whole.

Lemma version_frames m buf io r c' buf' io' eof' :
  frames version_decode (default_decode_eof version_decode) false (VersionDecoder_new m) buf io r c' buf' io' eof' ->
  0 <= max_read io ->
  answers version_error (version_eof m (buf ++ wire io), VersionDecoder_new m, buf ++ wire io) r c' (buf' ++ wire io') /\
  (eof' = true -> wire io' = []) /\ max_read io' = max_read io /\ bytes_written io' = bytes_written io.
Proof.
  intros Hf Hm. rewrite <- version_eof_eq. eapply (frames_whole _ _ (fun c => c = VersionDecoder_new m) version_error); try done.
  - intros c src c1 src1 more -> Hd. rewrite version_decode_eq in Hd. simplify_eq. split; [done|]. by apply same_decode_eq.
  - intros c src x c1 src1 more -> Hd. rewrite version_decode_eq in Hd. simplify_eq. rewrite version_eof_eq. unfold version_eof.
    match goal with Hx : (VersionDecoder_decode _ _).1 = _ |- _ => by rewrite (version_some _ _ _ more Hx) end.
  - intros c src e c1 src1 more -> Hd. rewrite version_decode_eq in Hd. simplify_eq. rewrite version_eof_eq. unfold version_eof.
    match goal with Hx : (VersionDecoder_decode _ _).1 = _ |- _ => destruct (version_err _ _ _ more Hx) as [e' He'] end.
    simpl. rewrite He'. exists e'. split; [done|]. intros Hn. by destruct (version_err_typed _ _ _ He') as [x Hx]; rewrite Hx in Hn.
Qed.

(** The rejection a stream meets is that of one of its prefixes, unless the
    stream ended first. *)
Lemma version_rejection m eof c buf io r c' buf' io' eof' e :
  frames version_decode (default_decode_eof version_decode) eof c buf io r c' buf' io' eof' ->
  c = VersionDecoder_new m -> 0 <= max_read io -> (eof = true -> wire io = []) -> r = Some (Err e) ->
  (exists pre, pre `prefix_of` buf ++ wire io /\ (VersionDecoder_decode (VersionDecoder_new m) pre).1 = Err e) \/
  version_eof m (buf ++ wire io) = Err stray_bytes.
Proof.
  induction 1 as [|c buf io e' c' buf' Hd|c buf io c1 buf1 room chunk io1 r c' buf' io' eof Hd Hroom Hr Hc Hf IH
    |c buf io c1 buf1 room io1 r c' buf' io' eof Hd Hroom Hr Hf IH|c buf io a c' buf' Hd]; intros -> Hm Hw Hres.
  - done.
  - rewrite version_decode_eq in Hd. simplify_eq. left. exists buf'. split; [by eexists|done].
  - apply PlainFramed.read_shrinks in Hr as (Hl & Hm1 & _). rewrite Hl, app_assoc.
    assert (c1 = VersionDecoder_new m /\ buf1 = buf) as [-> ->].
    { destruct Hd as [Hd|(-> & -> & ->)]; [|done]. rewrite version_decode_eq in Hd. by simplify_eq. }
    apply IH; [done|by rewrite Hm1|done|done].
  - pose proof (PlainFramed.read_shrinks _ _ _ _ Hr) as (Hl & Hm1 & _). apply PlainFramed.read_ends in Hr as [_ Hl1]; [|done|done].
    rewrite Hl. simpl. assert (c1 = VersionDecoder_new m /\ buf1 = buf) as [-> ->].
    { destruct Hd as [Hd|(-> & -> & ->)]; [|done]. rewrite version_decode_eq in Hd. by simplify_eq. }
    apply IH; [done|by rewrite Hm1|done|done].
  - rewrite version_eof_eq in Hd. simplify_eq. rewrite (Hw eq_refl), app_nil_r. unfold version_eof in *.
    destruct (VersionDecoder_decode (VersionDecoder_new m) buf').1 as [[v|]|e'] eqn:Ev; [done| |].
    + right. by destruct (_ =? _)%nat.
    + left. simplify_eq/=. by exists buf'.
Qed.
End Version.
