(* ===== verification/ScriptedSpec.v ===== *)
(** * A session is a function of the bytes it is sent

    [stream_connect] says, without reads, clock or channel, what a stream of
    bytes makes of a session: it decodes the stream as a whole and applies the
    decision functions.  [run_session] of [Scripted] implements it, whatever the
    sizes of its reads.  The clock may move, but by less than half a second over
    the session, so no timeout fires (the shortest idle timeout is a keep-alive
    of 1 s with its grace of one half, and a second of it is kept back from an
    ingest wait). *)

From S2P Require Import Prelude FixedHeader Rmqtt Errors Decoder Packet Handshake Api Channel Runtime Session Scripted Stream.
Open Scope uring_scope.

(** ** The specification *)

Section Spec.
Context `{RmqttCodec}.

(** Where a session is in its stream, what it has encoded and delivered. *)
Record Progress := {
  p_decoder : MqttDecoder; p_rest : list Z; p_awaiting : AwaitingRelease; p_encoder : MqttEncoder; p_out : Z;
  p_delivered : list Publish
}.

(** [e_out] is [None] when an encoding failed: what was encoded before it and
    not yet written is lost. *)
Record Ending := { e_result : result SessionOutcome Error; e_out : option Z; e_delivered : list Publish }.

Definition encoded (e : MqttEncoder) (pkt : MqttPacket) : result Z IoError * MqttEncoder :=
  let '(a, e, bytes) := MqttEncoder_encode e pkt [] in
  (match a with Ok _ => Ok (Z.of_nat (length bytes)) | Err x => Err x end, e).

Definition sent (p : Progress) (e : MqttEncoder) (n : Z) : Progress :=
  {| p_decoder := p_decoder p; p_rest := p_rest p; p_awaiting := p_awaiting p; p_encoder := e; p_out := p_out p + n;
     p_delivered := p_delivered p |}.
Definition delivered (p : Progress) (publish : CodecPublish) : Progress :=
  {| p_decoder := p_decoder p; p_rest := p_rest p; p_awaiting := p_awaiting p; p_encoder := p_encoder p; p_out := p_out p;
     p_delivered := p_delivered p ++ [from_codec publish] |}.
Definition advanced (p : Progress) (d : MqttDecoder) (rest : list Z) (a : AwaitingRelease) : Progress :=
  {| p_decoder := d; p_rest := rest; p_awaiting := a; p_encoder := p_encoder p; p_out := p_out p;
     p_delivered := p_delivered p |}.

Definition ending (p : Progress) (r : result SessionOutcome Error) : Ending :=
  {| e_result := r; e_out := Some (p_out p); e_delivered := p_delivered p |}.

Section Loop.
Context (v : ProtocolVersion) (max_packet_size : option Z).

(** A violation: the DISCONNECT it is answered with, if any, and the end. *)
Definition stream_violation (p : Progress) (violation : Violation) : Ending :=
  match disconnect violation v max_packet_size with
  | None => ending p (Ok ViolationOutcome)
  | Some pkt =>
      match encoded (p_encoder p) pkt with
      | (Ok n, e) => ending (sent p e n) (Ok ViolationOutcome)
      | (Err _, _) => {| e_result := Ok ViolationOutcome; e_out := None; e_delivered := p_delivered p |}
      end
  end.

Definition stream_reply (p : Progress) (reply : Reply) : Progress + Ending :=
  match reply_over_max_packet_size reply v max_packet_size with
  | Some violation => inr (stream_violation p violation)
  | None =>
      match encoded (p_encoder p) (render reply v) with
      | (Ok n, e) => inl (sent p e n)
      | (Err x, _) => inr {| e_result := Err (Io x); e_out := None; e_delivered := p_delivered p |}
      end
  end.

(** One packet. *)
Definition stream_step (p : Progress) : Progress + Ending :=
  match MqttDecoder_decode_eof (p_decoder p) (p_rest p) with
  | (Ok (DSome (packet, _)), d, rest) =>
      let '(disposition, a) := dispatch packet (p_awaiting p) in
      let p := advanced p d rest a in
      match disposition with
      | Deliver publish => inl (delivered p publish)
      | DeliverThenReply publish reply => stream_reply (delivered p publish) reply
      | ReplyWith reply => stream_reply p reply
      | Close => inr (ending p (Ok Served))
      | ViolationClose violation => inr (stream_violation p violation)
      end
  | (Ok Insufficient, _, _) => inr (ending p (Ok Served))
  | (Err e, _, _) =>
      inr match classify_read_error e with
          | Some violation => stream_violation p violation
          | None => ending p (if is_truncated_packet (Io e) then Err (Io e) else Ok Served)
          end
  end.
End Loop.

(** A CONNACK and what follows it. *)
Definition stream_connack (p : Progress) (connack : MqttPacket) (k : Progress -> option Ending) : option Ending :=
  match encoded (p_encoder p) connack with
  | (Ok n, e) => k (sent p e n)
  | (Err x, _) => Some {| e_result := Err (Io x); e_out := None; e_delivered := p_delivered p |}
  end.
Definition refused_with (p : Progress) (connack : MqttPacket) : option Ending :=
  stream_connack p connack (fun p => Some (ending p (Ok Refused))).

Section Session.
Context (peer_addr : string) (idle_timeout_secs : Z) (m : MaxInboundPacketSize).

(** A CONNECT the decoder refuses. *)
Definition connect_ending (v : ProtocolVersion) (p : Progress) (e : IoError) : option Ending :=
  match downcast_decode e with
  | Some InvalidClientId => refused_with p (invalid_client_id_refusal m v)
  | _ => Some (ending p (Err (Io e)))
  end.

(** A stream whose first packet the version decoder rejects with [e]. *)
Definition rejection_ending (wire : list Z) (e : IoError) : option Ending :=
  match downcast_decode e with
  | Some UnsupportedProtocolLevel =>
      refused_with {| p_decoder := MqttDecoder_new MQTT3 m; p_rest := wire; p_awaiting := AwaitingRelease_default;
                      p_encoder := MqttEncoder_new MQTT3; p_out := 0; p_delivered := [] |}
        (V3 (V3_ConnectAck {| v3_return_code := UnacceptableProtocolVersion; v3_session_present := false |}))
  | _ => Some {| e_result := Err (Io e); e_out := Some 0; e_delivered := [] |}
  end.

(** The decision on a CONNECT, and the packets after it. *)
Definition decision_ending (v : ProtocolVersion) (p : Progress) (fuel : nat) (decision : ConnectDecision) : option Ending :=
  match decision with
  | NotConnect => Some (ending p (Err (Protocol "first packet was not CONNECT")))
  | Refuse connack true => refused_with p connack
  | Refuse _ false | RefusePersistentSession => Some (ending p (Ok Refused))
  | Accept connack _ _ _ max_packet_size => stream_connack p connack (loop (stream_step v max_packet_size) fuel)
  end.

Definition connecting (v : ProtocolVersion) (wire : list Z) : Progress :=
  {| p_decoder := MqttDecoder_new v m; p_rest := wire; p_awaiting := AwaitingRelease_default;
     p_encoder := MqttEncoder_new v; p_out := 0; p_delivered := [] |}.

(** After the version is known: CONNECT, the decision, the packets, each of
    which takes at least one byte. *)
Definition stream_connect (v : ProtocolVersion) (wire : list Z) : option Ending :=
  let p := connecting v wire in
  match MqttDecoder_decode_eof (p_decoder p) wire with
  | (Ok (DSome (packet, _)), d, rest) =>
      decision_ending v (advanced p d rest AwaitingRelease_default) (S (length wire))
        (evaluate_connect packet idle_timeout_secs peer_addr m)
  | (Ok Insufficient, _, _) => Some (ending p (Err ClientClosed))
  | (Err e, _, _) => connect_ending v p e
  end.
End Session.
End Spec.

(** ** What the code relies on of local-sync

    A waiter that is alone on a semaphore gets the next permit: [quiet] says
    that nobody waits. *)

Class LocalSyncFair `{LocalSyncSpec} := {
  quiet : Semaphore -> Prop;
  quiet_new n : quiet (Semaphore_new n);
  quiet_try s s' : quiet s -> sem_try_acquire s = Some s' -> quiet s';
  quiet_available s : quiet s -> available_permits s = unclaimed s;
  quiet_wait s : quiet s -> available_permits s = 0 -> sem_closed s = false ->
    exists s2, poll_acquire (acquire s).2 (acquire s).1 = (Pending, s2) /\
      forall n, exists s3, poll_acquire (Nat.iter (S n) (fun s => add_permits s 1) s2) (acquire s).1 = (Ready (Ok tt), s3) /\
        forall s4, acquire_drop s3 (acquire s).1 = Some s4 -> quiet s4
}.

Module FifoFair.
#[local] Existing Instances FifoSync.ops FifoSync.spec.

Lemma add_granted n (s : FifoSync.Sem) w : FifoSync.granted s = {[w]} -> FifoSync.waiting s = [] ->
  let s' := Nat.iter n (fun s => add_permits s 1) s in FifoSync.granted s' = {[w]} /\ FifoSync.waiting s' = [].
Proof.
  intros Hg Hw. apply (Nat.iter_invariant n _ _ (fun s => FifoSync.granted s = {[w]} /\ FifoSync.waiting s = [])); [|done].
  intros x [Hg1 Hw1]. simpl. unfold FifoSync.add_one. by rewrite Hw1.
Qed.

Lemma lone_wait n (s : FifoSync.Sem) w : FifoSync.granted s = ∅ -> FifoSync.waiting s = [w] ->
  exists s3, FifoSync.poll (Nat.iter (S n) (fun s => add_permits s 1) s) w = (Ready (Ok tt), s3) /\
    FifoSync.granted s3 = ∅ /\ FifoSync.waiting s3 = [].
Proof.
  intros Hg Hw. rewrite Nat.iter_succ_r.
  destruct (add_granted n (@add_permits FifoSync.ops s 1) w) as [Hg' Hw'].
  1, 2: (simpl; unfold FifoSync.add_one; rewrite Hw, Hg; rewrite bool_decide_eq_false_2 by set_solver; simpl; set_solver).
  unfold FifoSync.poll. rewrite Hg', Hw'. rewrite bool_decide_eq_true_2 by set_solver. eexists. split; [done|]. simpl. set_solver.
Qed.

#[export] Instance fifo_fair : LocalSyncFair.
Proof.
  refine {| quiet := (fun s : FifoSync.Sem => FifoSync.granted s = ∅ /\ FifoSync.waiting s = []) : @Semaphore FifoSync.ops -> Prop |}.
  - done.
  - intros s s' Hq. simpl in *. destruct (FifoSync.avail s); [done|]. destruct (FifoSync.closed s); [done|]. intros; by simplify_eq/=.
  - intros s [Hg _]. simpl in *. unfold FifoSync.unclaimed. rewrite Hg, size_empty. lia.
  - intros s [Hg Hw] Ha Hc.
    exists {| FifoSync.avail := 0; FifoSync.granted := ∅; FifoSync.waiting := [FifoSync.next s]; FifoSync.next := S (FifoSync.next s);
              FifoSync.closed := false |}.
    split.
    + simpl in *. unfold FifoSync.poll; simpl. rewrite Hg, Hw, Hc. rewrite bool_decide_eq_false_2 by set_solver.
      by destruct (FifoSync.avail s); [|lia].
    + intros n. destruct (lone_wait n {| FifoSync.avail := 0; FifoSync.granted := ∅; FifoSync.waiting := [FifoSync.next s];
        FifoSync.next := S (FifoSync.next s); FifoSync.closed := false |} (FifoSync.next s)) as (s3 & Hp & Hg3 & Hw3); [done|done|].
      exists s3. split; [exact Hp|]. intros s4. simpl. rewrite Hg3, Hw3. case_bool_decide; [done|]. intros; by simplify_eq/=.
Defined.
End FifoFair.

(** ** The simulation *)

Section Simulation.
Context `{RmqttIncremental} `{LocalSyncFair} `{MonoioFramedSpec}.
Context (clock : nat -> Z).

Definition HALF_SECOND : Z := from_millis 500.
Definition prompt : Prop := forall n, clock 0 <= clock n < clock 0 + HALF_SECOND.
Hypothesis Hprompt : prompt.

#[local] Instance rt : Runtime := scripted clock.

(** [runs m Q s]: from [s], [m] comes to an end without a panic, in [Q]. *)
Definition runs {A} (m : M A) (Q : A -> Sess -> Prop) (s : Sess) : Prop :=
  match m s with (Done a, s') => Q a s' | _ => False end.

Lemma runs_bind {A B} (m : M A) (k : A -> M B) Q s : runs m (fun a s' => runs (k a) Q s') s -> runs (bind m k) Q s.
Proof. unfold runs, bind. by destruct (m s) as [[] ?]. Qed.

Lemma runs_mono {A} (m : M A) (Q Q' : A -> Sess -> Prop) s : runs m Q s -> (forall a s', Q a s' -> Q' a s') -> runs m Q' s.
Proof. unfold runs. destruct (m s) as [[] ?]; eauto. Qed.

Lemma runs_ret {A} (a : A) (Q : A -> Sess -> Prop) s : Q a s -> runs (ret a) Q s.
Proof. done. Qed.

Lemma runs_peek {A} (g : World -> A) (Q : A -> Sess -> Prop) s : Q (g (world s)) s -> runs (peek g) Q s.
Proof. done. Qed.

Lemma runs_emit e (Q : unit -> Sess -> Prop) s : (forall t, Q tt {| world := world s; trace := t |}) -> runs (emit e) Q s.
Proof. intros HQ. apply HQ. Qed.

Lemma runs_perform {A} (op : World -> A * World) ev (Q : A -> Sess -> Prop) s :
  (forall r w' t, op (world s) = (r, w') -> Q r {| world := w'; trace := t |}) -> runs (perform op ev) Q s.
Proof. intros HQ. unfold runs, perform. destruct (op (world s)) as [r w'] eqn:E. by apply HQ. Qed.

(** *** Where the world is *)

Record received (w : Scripted) (l : list Publish) : Prop := {
  rv_chan : chan_ok 0 true (chan w);
  rv_quiet : quiet (room (chan w));
  rv_list : drained w ++ contents (queue (chan w)) = l
}.

(** The stream of a connection that may still be read ([b]). *)
Record at_stream (p : Progress) (f : Framed CodecPair) : Prop := {
  as_open : exists eof, framed_open f = Some eof /\ (eof = true -> wire (framed_io f) = []);
  as_decoder : cp_decoder (framed_codec f) = p_decoder p;
  as_rest : framed_read_buffer f ++ wire (framed_io f) = p_rest p;
  as_cap : 0 <= max_read (framed_io f)
}.

Record at_frame (v : ProtocolVersion) (b : bool) (p : Progress) (f : Framed CodecPair) : Prop := {
  af_read : b = true -> at_stream p f;
  af_version : cp_version (framed_codec f) = v;
  af_encoder : cp_encoder (framed_codec f) = p_encoder p;
  af_out : bytes_written (framed_io f) + Z.of_nat (length (framed_write_buffer f)) = p_out p
}.

Record reach (v : ProtocolVersion) (b : bool) (p : Progress) (u : option UnflushedReplies) (w : Scripted) : Prop := {
  rc_frame : exists f, stage w = Serving f /\ at_frame v b p f /\ (u = None -> framed_write_buffer f = []);
  rc_start : b = true -> frame_sync (p_decoder p) /\ d_at_frame_start (p_decoder p) = true;
  rc_received : received w (p_delivered p);
  rc_by : forall q, u = Some q -> clock 0 + HALF_SECOND <= flush_by q
}.

(** The session is over: what it delivered, and what it wrote unless an
    encoding failed. *)
Record finished (e : Ending) (r : result SessionOutcome Error) (w : Scripted) : Prop := {
  fi_result : r = e_result e;
  fi_received : received w (e_delivered e);
  fi_out : forall n, e_out e = Some n -> bytes_written (stage_io (stage w)) = n
}.

Lemma reach_tick v b p u w : reach v b p u w -> reach v b p u (tick (w : World)).
Proof. by intros [? ? [] ?]. Qed.

Lemma finished_flushed v b p r w : reach v b p None w -> finished (ending p r) r w.
Proof.
  intros [(f & Hs & [_ _ _ Ho] & Hb) _ Hr _]. split; [done|done|]. intros n [= <-]. rewrite Hs. simpl.
  rewrite (Hb eq_refl) in Ho. simpl in Ho. lia.
Qed.

Lemma runs_now v b p u s (Q : Z -> Sess -> Prop) : reach v b p u (world s) ->
  (forall t w', reach v b p u w' -> stage w' = stage (world s) -> clock 0 <= t < clock 0 + HALF_SECOND -> Q t {| world := w' : World; trace := trace s |}) ->
  runs Instant_now Q s.
Proof. intros Hr HQ. unfold runs, Instant_now. apply HQ; [by apply reach_tick|done|apply Hprompt]. Qed.

(** The time an instant of this session is away is less than half a second. *)
Lemma runs_elapsed v b p u i s (Q : Z -> Sess -> Prop) : reach v b p u (world s) -> clock 0 <= i ->
  (forall d w', reach v b p u w' -> 0 <= d < HALF_SECOND -> Q d {| world := w' : World; trace := trace s |}) ->
  runs (elapsed_since i) Q s.
Proof.
  intros Hr Hi HQ. apply runs_bind, (runs_now v b p u); [done|]. intros t w' Hr' _ Ht. apply runs_ret, HQ; [done|].
  unfold elapsed, sat_sub. lia.
Qed.

(** *** Writing *)

Lemma flushed_frame v b p f r f' : at_frame v b p f -> Framed_flush f = (r, f') ->
  r = Ok tt /\ at_frame v b p f' /\ framed_write_buffer f' = [].
Proof.
  intros [Hrd Hv Hen Hout] (-> & Ho & Hc & Hio & Hrb & Hwb)%flush_framed. split; [done|]. split; [|done].
  split; rewrite ?Hc; [|done|done|rewrite Hwb, Hio; simpl; lia].
  intros Hb. destruct (Hrd Hb) as [Hop Hd Hrest Hcap]. split; by rewrite ?Ho, ?Hc, ?Hrb, ?Hio.
Qed.

Lemma runs_flush v b p u s (Q : result unit Error * option UnflushedReplies -> Sess -> Prop) : reach v b p u (world s) ->
  (forall s', reach v b p None (world s') -> Q (Ok tt, None) s') -> runs (flush_replies u) Q s.
Proof.
  intros Hr HQ. unfold flush_replies. destruct u as [q|]; [|by apply runs_ret, HQ].
  apply runs_bind, (runs_now v b p (Some q)); [done|]. clear Hr. intros t w Hr _ Ht. pose proof (rc_by _ _ _ _ _ Hr q eq_refl) as Hby.
  rewrite (proj2 (Z.eqb_neq _ _)) by (unfold sat_sub; lia).
  apply runs_bind, runs_perform. intros r w' tr Hop. simpl in Hop. unfold scripted_flush in Hop.
  destruct Hr as [(f & Hs & Hf & _) Hst Hrv _]. rewrite Hs in Hop.
  destruct (Framed_flush f) as [a f'] eqn:Ef. apply (flushed_frame v b p) in Ef as (-> & Hf' & Hwb); [|done]. simplify_eq.
  apply runs_ret, HQ. split; [|done|by destruct Hrv|done]. by exists f'.
Qed.

Lemma encoded_ok e pkt n e' dst : encoded e pkt = (Ok n, e') ->
  exists bytes, MqttEncoder_encode e pkt dst = (Ok tt, e', dst ++ bytes) /\ n = Z.of_nat (length bytes).
Proof.
  unfold encoded, MqttEncoder_encode. destruct (codec_encode (e_inner e) pkt []) as [[[[]|x] c] bytes] eqn:E; intros; simplify_eq.
  exists bytes. by rewrite (enc_appends _ _ dst _ _ E).
Qed.

Lemma encoded_err e pkt x e' dst : encoded e pkt = (Err x, e') -> (MqttEncoder_encode e pkt dst).1.1 = Err x.
Proof.
  unfold encoded, MqttEncoder_encode. destruct (codec_encode (e_inner e) pkt []) as [[[[]|m] c] bytes] eqn:E; intros; simplify_eq.
  pose proof (enc_fails _ _ dst _ _ _ E) as Hf. destruct (codec_encode (e_inner e) pkt dst) as [[a c1] s1]. simpl in *. by subst a.
Qed.

(** An encoding, the write buffer being below the boundary. *)
Lemma send_reach v b p u w pkt r w' f : reach v b p u w -> stage w = Serving f ->
  Z.of_nat (length (framed_write_buffer f)) < WRITE_BACKPRESSURE_BOUNDARY -> scripted_send pkt w = (r, w') ->
  match encoded (p_encoder p) pkt with
  | (Ok n, e) => r = Some (Ok tt) /\ forall q, clock 0 + HALF_SECOND <= flush_by q -> reach v b (sent p e n) (Some q) w'
  | (Err x, _) => r = Some (Err x) /\ received w' (p_delivered p)
  end.
Proof.
  intros [(f' & Hs' & [Hrd Hv Hen Hout] & _) Hst Hrv _] Hs Hlt. rewrite Hs in Hs'. injection Hs' as <-.
  unfold scripted_send. rewrite Hs. destruct (Framed_send CodecPair_encode pkt f) as [a f1] eqn:Ef. intros [= <- <-].
  apply send_framed in Ef as (He & Hop & Hio & Hrb); [|done]. unfold CodecPair_encode in He. rewrite Hen in He.
  destruct (encoded (p_encoder p) pkt) as [[n|x] e] eqn:Ee.
  - destruct (encoded_ok _ _ _ _ (framed_write_buffer f) Ee) as (bytes & Hbytes & ->). rewrite Hbytes in He.
    injection He as <- Hc Hwb. split; [done|]. intros q Hq. split; [|done|by destruct Hrv|by intros ? [= <-]].
    exists f1. split; [done|]. split; [|done]. split; rewrite <- ?Hc; [|done|done|rewrite <- Hwb, Hio, length_app; simpl; lia].
    intros Hb. destruct (Hrd Hb) as [Ho Hd Hrest Hcap]. split; rewrite <- ?Hc, ?Hop, ?Hio, ?Hrb; done.
  - pose proof (encoded_err _ _ _ _ (framed_write_buffer f) Ee) as Hx.
    destruct (MqttEncoder_encode _ _ _) as [[a1 e1] d1]. simpl in Hx. subst a1. injection He as <- _ _. split; [done|]. by destruct Hrv.
Qed.

Lemma runs_queue v b p u pkt deadline ctx s (Q : result unit Error * option UnflushedReplies -> Sess -> Prop) :
  reach v b p u (world s) -> HALF_SECOND <= deadline ->
  (forall s', match encoded (p_encoder p) pkt with
     | (Ok n, e) => forall q, reach v b (sent p e n) (Some q) (world s') -> Q (Ok tt, Some q) s'
     | (Err x, _) => received (world s') (p_delivered p) -> Q (Err (Io x), None) s'
     end) ->
  runs (queue_reply u pkt deadline ctx) Q s.
Proof.
  intros Hr Hd HQ. unfold queue_reply. apply runs_bind, (runs_now v b p u); [done|]. clear Hr. intros t w Hr _ Ht.
  apply runs_bind, runs_peek, runs_bind.
  assert (runs (if WRITE_BACKPRESSURE_BOUNDARY <=? Z.of_nat (length (write_buffer (w : @World _ rt))) then flush_replies u else ret (Ok tt, u))
    (fun x s' => exists u', x = (Ok tt, u') /\ reach v b p u' (world s') /\
       exists f, stage (world s') = Serving f /\ Z.of_nat (length (framed_write_buffer f)) < WRITE_BACKPRESSURE_BOUNDARY)
    {| world := w : @World _ rt; trace := trace s |}) as Hroom.
  { destruct (Z.leb_spec WRITE_BACKPRESSURE_BOUNDARY (Z.of_nat (length (write_buffer (w : @World _ rt))))) as [Hle|Hlt].
    - apply (runs_flush v b p u); [done|]. intros s' Hr'. exists None. split; [done|]. split; [done|].
      destruct (rc_frame _ _ _ _ _ Hr') as (f & Hs & _ & Hb). exists f. split; [done|]. by rewrite (Hb eq_refl).
    - apply runs_ret. exists u. split; [done|]. split; [done|]. destruct (rc_frame _ _ _ _ _ Hr) as (f & Hs & _). exists f.
      split; [done|]. simpl in Hlt. by rewrite Hs in Hlt. }
  eapply runs_mono; [exact Hroom|]. clear w Hr Hroom s. intros x s (u' & -> & Hr & Hbelow).
  apply runs_bind, (runs_now v b p u'); [done|]. intros t2 w2 Hr2 Hst2 Ht2. destruct Hbelow as (f & Hs & Hb). rewrite <- Hst2 in Hs.
  apply runs_bind, runs_perform. intros r w3 tr Hop. simpl in Hop. apply (send_reach v b p u' w2 pkt r w3 f) in Hop; [|done..].
  specialize (HQ {| world := w3 : @World _ rt; trace := tr |}). destruct (encoded (p_encoder p) pkt) as [[n|x] e].
  - destruct Hop as [-> Hop]. apply runs_ret, HQ. destruct u' as [q|]; simpl.
    + apply Hop. by apply (rc_by _ _ _ _ _ Hr2).
    + apply Hop. simpl. lia.
  - destruct Hop as [-> Hop]. by apply runs_ret, HQ.
Qed.

Lemma runs_remaining v b p u start budget s (Q : Z -> Sess -> Prop) : reach v b p u (world s) -> clock 0 <= start ->
  (forall d s', reach v b p u (world s') -> Q d s') -> runs (remaining start budget) Q s.
Proof.
  intros Hr Hs HQ. apply runs_bind, (runs_elapsed v b p u); [done..|]. intros d w' Hr' _. by apply runs_ret, HQ.
Qed.

(** A CONNACK is encoded and flushed at once. *)
Lemma runs_connack v b p start budget pkt s (Q : result unit Error -> Sess -> Prop) :
  reach v b p None (world s) -> clock 0 <= start ->
  (forall s', match encoded (p_encoder p) pkt with
     | (Ok n, e) => reach v b (sent p e n) None (world s') -> Q (Ok tt) s'
     | (Err x, _) => received (world s') (p_delivered p) -> Q (Err (Io x)) s'
     end) ->
  runs (send_connack start budget pkt) Q s.
Proof.
  intros Hr Hst HQ. apply runs_bind, (runs_remaining v b p None); [done..|]. clear Hr. intros d s1 Hr. unfold bounded_send, timeout, fut_bind.
  apply runs_bind, runs_bind, runs_peek, runs_bind, runs_perform. intros r w tr Hop. simpl in Hop.
  destruct (rc_frame _ _ _ _ _ Hr) as (f & Hs & _ & Hb). apply (send_reach v b p None (world s1) pkt r w f) in Hop; [|done|done|by rewrite Hb].
  destruct (encoded (p_encoder p) pkt) as [[n|x] e].
  - destruct Hop as [-> Hop]. apply runs_bind, runs_peek. set (q := {| flush_by := clock 0 + HALF_SECOND; queued_context := "" |}).
    specialize (Hop q ltac:(done)). apply runs_perform. intros r w' tr' Hf. simpl in Hf. unfold scripted_flush in Hf.
    destruct Hop as [(f1 & Hs1 & Hf1 & _) Hst' Hrv _]. rewrite Hs1 in Hf.
    destruct (Framed_flush f1) as [a f2] eqn:Ef. apply (flushed_frame v b (sent p e n)) in Ef as (-> & Hf2 & Hwb); [|done]. simplify_eq.
    apply runs_ret, HQ. split; [|done|by destruct Hrv|done]. by exists f2.
  - destruct Hop as [-> Hop]. by apply runs_ret, runs_ret, HQ.
Qed.

(** *** Delivering *)

Lemma drain_ok n c : chan_ok 0 true c -> (length (contents (queue c)) < n)%nat ->
  exists c', drain n c = (contents (queue c), c') /\ chan_ok 0 true c' /\ contents (queue c') = [] /\
    room c' = Nat.iter (length (contents (queue c))) (fun s => add_permits s 1) (room c).
Proof.
  revert c. induction n as [|n IH]; intros c Hok Hlt; [lia|]. cbn [drain].
  destruct (recv c) as [r c1] eqn:Er. pose proof (recv_ok true [] c r c1 Hok Er) as (Hok1 & Hb & Hn).
  unfold recv in Er. pose proof (rx_recv_spec _ (queue c)) as Hx.
  destruct (rx_recv (queue c)) as [[item|] q]; simplify_eq/=.
  - destruct Hx as [Hx _]. rewrite Hx in *. cbn [length] in *. edestruct (IH _ Hok1) as (c' & -> & Hok' & Hc' & Hroom); [simpl; lia|].
    exists c'. split; [done|]. split; [done|]. split; [done|]. rewrite Hroom. cbn [room queue]. by rewrite Nat.iter_succ_r.
  - destruct Hx as (Hx & Hq & _). rewrite Hx. eexists. split; [done|]. split; [done|]. split; [done|]. done.
Qed.

Lemma drained_fuel c : chan_ok 0 true c -> (length (contents (queue c)) < drain_fuel)%nat.
Proof.
  intros Hok. pose proof (chan_ok_depth 0 true c ltac:(lia) Hok) as Hd. rewrite (ok_depth _ _ _ Hok) in Hd.
  unfold drain_fuel, EVENT_CHANNEL_CAPACITY in *. lia.
Qed.

(** The wait of a full channel: the drain empties it and the slot is granted. *)
Lemma wait_granted w x s1 l : received w l -> available_permits (room (chan w)) = 0 -> acquire (room (chan w)) = (x, s1) ->
  exists w', scripted_wait_slot x {| ticks := ticks w; stage := stage w; chan := with_room (chan w) s1; drained := drained w |}
      = (Some (Ok tt), w') /\
    stage w' = stage w /\ chan_ok 1 true (chan w') /\ drained w' ++ contents (queue (chan w')) = l /\
    waiter_state (room (chan w')) x = Idle /\ (forall s4, acquire_drop (room (chan w')) x = Some s4 -> quiet s4).
Proof.
  intros [Hok Hq Hl] Ha Hacq. pose proof (ok_sem _ _ _ Hok) as Hcl. simpl in Hcl.
  destruct (quiet_wait _ Hq Ha Hcl) as (s2 & Hp & Hgrant). rewrite Hacq in *. cbn [fst snd] in *.
  pose proof (acquire_spec (room (chan w))) as (Hu1 & Hc1 & _). rewrite Hacq in *. cbn [fst snd] in *.
  unfold scripted_wait_slot. cbn [chan room with_room]. rewrite Hp. apply poll_spec in Hp as (Hc2 & Hu2 & _ & _).
  assert (chan_ok 0 true (with_room (chan w) s2)) as Hok2 by (eapply chan_ok_room; [done|congruence|lia]).
  change (with_room (with_room (chan w) s1) s2) with (with_room (chan w) s2).
  destruct (drain_ok drain_fuel _ Hok2 (drained_fuel _ Hok2)) as (c' & -> & Hok' & Hc' & Hroom). cbn [room queue with_room chan] in *.
  assert (exists k, length (contents (queue (chan w))) = S k) as [k Hk].
  { pose proof (quiet_available _ Hq). pose proof (ok_slots _ _ _ Hok). pose proof (ok_depth _ _ _ Hok). unfold EVENT_CHANNEL_CAPACITY in *.
    destruct (length (contents (queue (chan w)))) as [|k]; [lia|by exists k]. }
  destruct (Hgrant k) as (s3 & Hp3 & Hdrop). rewrite Hk in Hroom. rewrite Hroom, Hp3.
  eexists. split; [done|]. split; [done|]. simpl. rewrite <- Hroom in Hp3. apply poll_spec in Hp3 as (Hc3 & Hu3 & Hidle).
  split; [eapply chan_ok_room; [done|done|lia]|]. split; [|done]. rewrite Hc', app_nil_r. by rewrite <- Hl.
Qed.

Lemma reach_delivered v b p u w w' publish : reach v b p u w -> stage w' = stage w ->
  received w' (p_delivered p ++ [from_codec publish]) -> reach v b (delivered p publish) u w'.
Proof.
  intros [(f & Hs & [Hrd Hv Hen Hout] & Hb) Hst _ Hby] Hs' Hr. split; [|done|done|done].
  exists f. rewrite Hs'. split; [done|]. split; [|done]. split; [|done..]. intros Hbt. destruct (Hrd Hbt). by split.
Qed.

(** With room in the channel a publish is enqueued at once. *)
Lemma offered_now w publish c l a : received w l -> offer_now (chan w) publish = (Ok a, c) ->
  a = Enqueued /\ forall w', chan w' = c -> drained w' = drained w -> received w' (l ++ [publish]).
Proof.
  intros [Hok Hq Hl] Ho. pose proof Ho as Ho'. apply (offer_now_ok true (drained w)) in Ho' as [(Hok' & Hb & ->) _]; [|done].
  split; [done|]. intros w' Hc Hd. split; rewrite Hc; [done| |].
  - unfold offer_now in Ho. rewrite (ok_tx _ _ _ Hok) in Ho. simpl in Ho.
    destruct (sem_try_acquire (room (chan w))) as [s1|] eqn:Et; [|done]. apply (quiet_try _ _ Hq) in Et.
    unfold enqueue in Ho. simpl in Ho. destruct (tx_send _ _) as [q|]; simplify_eq. by rewrite <- Ho.
  - rewrite Hd, <- Hl. by injection Hb.
Qed.

(** Without room it waits, the drain makes room, and it is enqueued. *)
Lemma offered_later w publish reply_by slot s2 l : received w l ->
  available_permits (room (chan w)) = 0 -> acquire (room (chan w)) = (waiter slot, s2) -> completed slot = false -> settled slot = false ->
  exists w1 c2, scripted_wait_slot (waiter slot) {| ticks := ticks w; stage := stage w; chan := with_room (chan w) s2; drained := drained w |}
      = (Some (Ok tt), w1) /\ stage w1 = stage w /\
    (forall t, t < reply_by -> admit_resume (chan w1) publish reply_by t slot (Some (Ok tt)) = (EnqueuedAfterHold, Some c2)) /\
    forall w', chan w' = c2 -> drained w' = drained w1 -> received w' (l ++ [publish]).
Proof.
  intros Hr Ha Hacq Hnc Hns. destruct (wait_granted _ _ _ _ Hr Ha Hacq) as (w1 & Hw & Hst & Hok1 & Hl1 & Hidle & Hdrop).
  assert (forall t, t < reply_by -> admit_resume (chan w1) publish reply_by t slot (Some (Ok tt)) =
    admit_resume (chan w1) publish reply_by (reply_by - 1) slot (Some (Ok tt))) as Htime.
  { intros t Ht. unfold admit_resume. by rewrite !(proj2 (Z.leb_gt _ _)) by lia. }
  destruct (admit_resume (chan w1) publish reply_by (reply_by - 1) slot (Some (Ok tt))) as [a o] eqn:Er. pose proof Er as Er'.
  apply (admit_resume_ok true (drained w1)) in Er' as [(c2 & -> & Hok2 & Hb) Halive]; [|done..].
  unfold admit_resume in Er. rewrite (proj2 (Z.leb_gt _ _)) in Er by lia.
  unfold enqueue in Er. pose proof (tx_send_spec _ (queue (chan w1)) publish) as Hs.
  destruct (tx_send (queue (chan w1)) publish) as [q|]; [|by rewrite (ok_tx _ _ _ Hok1) in Hs].
  unfold SlotWait_drop in Er. cbn [completed settled waiter room] in Er.
  destruct (acquire_drop (room (chan w1)) (waiter slot)) as [s4|] eqn:Ed; simplify_eq.
  exists w1, (with_room {| queue := q; depth := wrap64 (depth (chan w1) + 1); dropped := dropped (chan w1); room := room (chan w1);
                logged := logged (chan w1) |} s4).
  split; [done|]. split; [done|]. split; [exact Htime|]. intros w' Hc Hd. split; rewrite Hc; [done|by apply Hdrop|].
  rewrite Hd. by injection Hb.
Qed.

Section Loop.
Context (v : ProtocolVersion) (idle : Z) (mps : option Z) (ingest : Z).
Hypothesis Hidle : from_millis 1500 <= idle.
Hypothesis Hingest : 0 < ingest.

Lemma runs_deliver b p u publish left s (Q : IngestStep -> Sess -> Prop) :
  reach v b p u (world s) -> from_secs 1 < left ->
  (forall held s', reach v b (delivered p publish) u (world s') -> Q (Continue held) s') ->
  runs (deliver_publish publish left ingest) Q s.
Proof.
  intros Hr Hleft HQ. unfold deliver_publish. apply runs_bind, runs_emit. intros tr.
  apply runs_bind, (runs_now v b p u); [done|]. clear Hr. intros t w Hr _ Ht. set (s1 := {| world := _; trace := _ |}).
  change w with (world s1) in Hr. clearbody s1. clear w. apply runs_bind.
  assert (0 < sat_sub left INGEST_REPLY_RESERVE) as Hwait by (unfold sat_sub, INGEST_REPLY_RESERVE; lia).
  set (wait := Z.min ingest (sat_sub left INGEST_REPLY_RESERVE)). assert (0 < wait) by lia. clearbody wait. unfold admit_with.
  apply runs_bind, (runs_now v b p u); [done|]. clear Hr. intros t2 w Hr _ Ht2. apply runs_bind, runs_peek.
  assert (t2 < t + left) as Hby by (unfold HALF_SECOND, from_millis, from_secs, NANOS_PER_MILLI, NANOS_PER_SEC in *; lia).
  destruct (admit_begin (chan w) (from_codec publish) wait (t + left) t2) as [begun c] eqn:Eb. cbn [world]. 
  change (channel (w : @World _ rt)) with (chan w). rewrite Eb. unfold admit_begin in Eb.
  rewrite (proj2 (Z.leb_gt _ _)) in Eb by done. cbn [andb] in Eb.
  pose proof (rc_received _ _ _ _ _ Hr) as Hrv. apply runs_bind. unfold runs at 1, put_channel.
  destruct (offer_now (chan w) (from_codec publish)) as [[a|x] c1] eqn:Eo; simplify_eq.
  - destruct (offered_now _ _ _ _ _ Hrv Eo) as [-> Hn]. apply runs_bind, runs_emit. intros tr2. apply runs_ret, runs_ret, HQ.
    eapply reach_delivered; [exact Hr|done|]. by apply Hn.
  - rewrite (proj2 (Z.eqb_neq _ _)) in Eb by lia. pose proof Eo as Eo'.
    apply (offer_now_ok true (drained w)) in Eo' as [(_ & -> & _) Hho]; [|apply Hrv]. simpl in Hho.
    assert (available_permits (room (chan w)) = 0) as Ha.
    { unfold would_hold in Hho. destruct (Z.eqb_spec (available_permits (room (chan w))) 0); [done|]. by rewrite andb_false_r in Hho. }
    destruct (acquire (room (chan w))) as [x1 s2] eqn:Ea. simplify_eq.
    set (slot := {| waiter := x1; completed := false; settled := false |}).
    destruct (offered_later w (from_codec publish) (t + left) slot s2 _ Hrv Ha Ea) as (w1 & c2 & Hw & Hst & Hres & Hn); [done..|].
    apply runs_bind, runs_perform. intros granted w2 tr2 Hop.
    assert (scripted_wait_slot (waiter slot) {| ticks := ticks w; stage := stage w; chan := with_room (chan w) s2; drained := drained w |}
      = (granted, w2)) as Hop' by exact Hop. rewrite Hw in Hop'. simplify_eq.
    unfold admit_waited. apply runs_bind. unfold runs at 1, Instant_now. apply runs_bind, runs_peek.
    cbn [world trace]. change (channel (tick (w2 : @World _ rt))) with (chan w2).
    rewrite Hres by (pose proof (Hprompt (S (ticks w2))); unfold HALF_SECOND, from_millis, from_secs, NANOS_PER_MILLI, NANOS_PER_SEC in *; simpl; lia).
    apply runs_bind. unfold runs at 1, put_channel. apply runs_bind, runs_emit. intros tr3. apply runs_ret, runs_ret, HQ.
    eapply reach_delivered; [exact Hr|exact Hst|]. by apply Hn.
Qed.

(** The state of the loop stands for a place in the stream. *)
Definition loop_at (b : bool) (p : Progress) (st : LoopState) (w : Scripted) : Prop :=
  reach v b p (unflushed st) w /\ awaiting st = p_awaiting p /\ clock 0 <= cs_last_packet_time (conn st).

(** A step of the loop stands for a step of the specification. *)
Definition stands_for (x : Progress + Ending) (y : LoopNext) (s : Sess) : Prop :=
  match x, y with
  | inl p, inl st => loop_at true p st (world s)
  | inr e, inr r => finished e r (world s)
  | _, _ => False
  end.

Lemma runs_idle_left b p st s (Q : Z -> Sess -> Prop) : loop_at b p st (world s) ->
  (forall d s', loop_at b p st (world s') -> from_secs 1 < d -> Q d s') -> runs (idle_left idle st) Q s.
Proof.
  intros (Hr & Ha & Hl) HQ. apply runs_bind, (runs_elapsed v b p (unflushed st)); [done..|]. intros d w' Hr' Hd.
  apply runs_ret, HQ; [by split|].
  unfold sat_sub, HALF_SECOND, from_millis, from_secs, NANOS_PER_MILLI, NANOS_PER_SEC in *. lia.
Qed.

Lemma half_below d : from_secs 1 < d -> HALF_SECOND <= d /\ (d =? 0) = false.
Proof. unfold HALF_SECOND, from_millis, from_secs, NANOS_PER_MILLI, NANOS_PER_SEC. split; [lia|]. apply Z.eqb_neq. lia. Qed.

Lemma runs_close b p u violation deadline s (Q : SessionOutcome -> Sess -> Prop) :
  reach v b p u (world s) -> HALF_SECOND <= deadline ->
  (forall s', finished (stream_violation v mps p violation) (Ok ViolationOutcome) (world s') -> Q ViolationOutcome s') ->
  runs (close_with_violation u violation deadline mps) Q s.
Proof.
  intros Hr Hd HQ. unfold close_with_violation. apply runs_bind, runs_emit. intros tr. apply runs_bind, runs_peek.
  assert (version (world s) = v) as Hv.
  { destruct (rc_frame _ _ _ _ _ Hr) as (f & Hs & [_ Hv _ _] & _). simpl. by rewrite Hs. }
  cbn [world]. rewrite Hv. apply runs_bind. unfold stream_violation in HQ. destruct (disconnect violation v mps) as [pkt|].
  - apply (runs_queue v b p u); [done..|]. clear s Hr Hv. intros s.
    destruct (encoded (p_encoder p) pkt) as [[n|x] e].
    + intros q Hr. apply runs_bind, (runs_flush v b (sent p e n) (Some q)); [done|]. intros s' Hr'.
      by apply runs_bind, runs_ret, runs_ret, HQ, (finished_flushed v b).
    + intros Hrv. apply runs_bind, runs_ret, runs_bind.
      assert (forall tr, Q ViolationOutcome {| world := world s; trace := tr |}) as HQ'.
      { intros tr'. apply HQ. by split. }
      cbn [log_violation_close_write_error]. destruct (is_routine_disconnect (Io x)); apply runs_emit; intros tr'; by apply runs_ret.
  - apply runs_ret, runs_bind, (runs_flush v b p u); [done|]. intros s' Hr'.
    by apply runs_bind, runs_ret, runs_ret, HQ, (finished_flushed v b).
Qed.

Lemma runs_violation_close b p st violation d s : loop_at b p st (world s) -> from_secs 1 < d ->
  runs (violation_close mps st violation d) (stands_for (inr (stream_violation v mps p violation))) s.
Proof.
  intros (Hr & _ & _) [Hd _]%half_below. apply runs_bind, (runs_close b p); [done..|]. intros s' Hf. apply runs_ret. exact Hf.
Qed.

Lemma runs_on_violation b p st violation s : loop_at b p st (world s) ->
  runs (on_violation idle mps st violation) (stands_for (inr (stream_violation v mps p violation))) s.
Proof.
  intros Hl. apply runs_bind, (runs_idle_left b p st); [done|]. intros d s' Hl' Hd.
  destruct (half_below d Hd) as [_ ->]. by apply (runs_violation_close b p).
Qed.

Lemma runs_settle p st owed s : loop_at true p st (world s) ->
  runs (settle_reply idle mps st owed) (stands_for (match owed with None => inl p | Some reply => stream_reply v mps p reply end)) s.
Proof.
  intros Hl. apply runs_bind, (runs_idle_left true p st); [done|]. clear s Hl. intros d s Hl Hd.
  destruct (half_below d Hd) as [Hh ->]. destruct owed as [reply|]; [|by apply runs_ret].
  apply runs_bind, runs_peek. pose proof Hl as (Hr & Ha & Ht).
  assert (version (world s) = v) as ->.
  { destruct (rc_frame _ _ _ _ _ Hr) as (f & Hs & [_ Hv _ _] & _). simpl. by rewrite Hs. }
  unfold stream_reply. destruct (reply_over_max_packet_size reply v mps) as [vi|]; [by apply (runs_violation_close true p)|].
  apply runs_bind, (runs_queue v true p (unflushed st)); [done..|]. intros s'.
  destruct (encoded (p_encoder p) (render reply v)) as [[n|x] e].
  - intros q Hr'. apply runs_ret. by split.
  - intros Hrv. apply runs_ret. by split.
Qed.

Lemma runs_deliver_then p st publish owed s : loop_at true p st (world s) ->
  runs (deliver_then idle mps ingest st publish owed)
    (stands_for (match owed with None => inl (delivered p publish) | Some reply => stream_reply v mps (delivered p publish) reply end)) s.
Proof.
  intros Hl. apply runs_bind, (runs_idle_left true p st); [done|]. clear s Hl. intros d s (Hr & Ha & Ht) Hd.
  apply runs_bind, (runs_deliver true p (unflushed st)); [done..|]. intros held s' Hr'. apply (runs_settle (delivered p publish)). by split.
Qed.

(** *** Reading *)

(** One frame: the decoding of all that is left of the stream. *)
Lemma read_reach p u w r w' : reach v true p u w -> scripted_next_packet w = (r, w') ->
  match MqttDecoder_decode_eof (p_decoder p) (p_rest p) with
  | (Ok (DSome x), d, rest) => r = Some (Some (Ok x)) /\ reach v true (advanced p d rest (p_awaiting p)) u w' /\ (length rest < length (p_rest p))%nat
  | (Ok Insufficient, _, _) => r = Some None /\ reach v false p u w'
  | (Err e, _, _) => r = Some (Some (Err e)) /\ reach v false p u w'
  end.
Proof.
  intros [(f & Hs & [Hrd Hv Hen Hout] & Hwb) Hst Hrv Hby]. unfold scripted_next_packet. rewrite Hs.
  destruct (Framed_next CodecPair_decode CodecPair_decode_eof f) as [a f'] eqn:Ef. intros [= <- <-].
  destruct (Hrd eq_refl) as [(eof & Ho & He) Hd Hrest Hcap]. destruct (Hst eq_refl) as [Hsync Hstart].
  destruct (next_framed _ _ _ _ _ _ _ _ Ho Ef) as (Hwb' & eof' & Ho' & Hf).
  pose proof (packet_frames_keep _ _ _ _ _ _ _ _ _ Hf) as [E4 E5]. apply packet_frames in Hf as (Hans & He' & Hcap' & Hbw); [|by unfold pair_sync; rewrite Hd|done|done].
  unfold CodecPair_decode_eof in Hans. rewrite Hd, Hrest in Hans.
  assert (forall b' p', p_encoder p' = p_encoder p -> p_out p' = p_out p -> p_delivered p' = p_delivered p ->
    (b' = true -> at_stream p' f' /\ frame_sync (p_decoder p') /\ d_at_frame_start (p_decoder p') = true) ->
    reach v b' p' u (with_stage w (Serving f'))) as Hreach.
  { intros b' p' E1 E2 E3 Hb'. split; [|intros Hx; by apply Hb'|rewrite E3; by destruct Hrv|done].
    exists f'. split; [done|]. split; [|by rewrite Hwb']. split; [intros Hx; by apply Hb'|congruence|congruence|].
    by rewrite E2, Hbw, Hwb'. }
  destruct (MqttDecoder_decode_eof (p_decoder p) (p_rest p)) as [[[[x|]|e] d] rest] eqn:Ed; simpl in Hans.
  - destruct Hans as (-> & Hc' & Hrest'). destruct (decode_eof_item _ _ _ _ _ Hsync Hstart Ed) as (Hs1 & Hst1 & Hlt & _).
    split; [done|]. split; [|done]. apply Hreach; [done..|]. intros _. split; [|done].
    split; [exists eof'; split; [by eapply Ho'|done]|by rewrite Hc'|done|by rewrite Hcap'].
  - rewrite Hans. split; [done|]. by apply Hreach.
  - destruct Hans as (e' & -> & <-). split; [done|]. by apply Hreach.
Qed.

Lemma reach_awaiting b p u w a : reach v b p u w -> reach v b (advanced p (p_decoder p) (p_rest p) a) u w.
Proof. intros [(f & Hs & [Hrd Hv Hen Hout] & Hwb) Hst Hrv Hby]. split; [|done..]. exists f. split; [done|]. split; [|done]. split; [|done..]. intros Hb. by destruct (Hrd Hb). Qed.

Lemma runs_on_packet p st fresh packet s : loop_at true p st (world s) ->
  runs (on_packet idle mps ingest st fresh packet)
    (stands_for (let '(disposition, a) := dispatch packet (p_awaiting p) in
       let p := advanced p (p_decoder p) (p_rest p) a in
       match disposition with
       | Deliver publish => inl (delivered p publish)
       | DeliverThenReply publish reply => stream_reply v mps (delivered p publish) reply
       | ReplyWith reply => stream_reply v mps p reply
       | Close => inr (ending p (Ok Served))
       | ViolationClose violation => inr (stream_violation v mps p violation)
       end)) s.
Proof.
  intros Hl. unfold on_packet. apply runs_bind.
  assert (runs (if negb (hold_debt st) || fresh
                then let! t := Instant_now in ret {| conn := update_activity (conn st) t; awaiting := awaiting st; hold_debt := false;
                       unflushed := unflushed st |}
                else ret st) (fun st' s' => loop_at true p st' (world s')) s) as Hact.
  { destruct Hl as (Hr & Ha & Ht). destruct (_ || _); [|by apply runs_ret]. apply runs_bind, (runs_now v true p (unflushed st)); [done|].
    intros t w' Hr' _ Ht'. apply runs_ret. split; [done|]. split; [done|]. simpl. lia. }
  eapply runs_mono; [exact Hact|]. clear st s Hl Hact. intros st s (Hr & Ha & Ht). rewrite Ha.
  destruct (dispatch packet (p_awaiting p)) as [disposition a]. apply (reach_awaiting _ _ _ _ a) in Hr.
  set (p' := advanced p _ _ a) in *. set (st' := {| conn := conn st; awaiting := a; hold_debt := _; unflushed := _ |}).
  assert (loop_at true p' st' (world s)) as Hl by by split. clearbody p' st'.
  destruct disposition as [publish|publish reply|reply| |violation].
  - by apply (runs_deliver_then p' st' publish None).
  - by apply (runs_deliver_then p' st' publish (Some reply)).
  - by apply (runs_settle p' st' (Some reply)).
  - apply runs_bind, runs_emit. intros tr. apply runs_bind, (runs_flush v true p' (unflushed st')); [apply Hl|].
    intros s' Hr'. apply runs_ret. by apply (finished_flushed v true).
  - by apply (runs_on_violation true p').
Qed.

(** Before a read that may wait, nothing is left unwritten. *)
Lemma runs_must_flush p st s (Q : result unit Error * option UnflushedReplies -> Sess -> Prop) : loop_at true p st (world s) ->
  (forall u s', reach v true p u (world s') -> u = None \/ holds_complete_packet (p_rest p) = true -> Q (Ok tt, u) s') ->
  runs (if negb (holds_complete_packet (read_buffer (world s))) || would_hold (channel (world s))
        then flush_replies (unflushed st) else ret (Ok tt, unflushed st)) Q s.
Proof.
  intros (Hr & _ & _) HQ. destruct (_ || _) eqn:E.
  - apply (runs_flush v true p (unflushed st)); [done|]. intros s' Hr'. apply HQ; [done|by left].
  - apply runs_ret, HQ; [done|]. right. apply orb_false_iff in E as [E _]. apply negb_false_iff in E.
    destruct (rc_frame _ _ _ _ _ Hr) as (f & Hs & [Hrd _ _ _] & _). destruct (Hrd eq_refl) as [_ _ <- _].
    simpl in E. rewrite Hs in E. by apply complete_stable.
Qed.

Lemma runs_on_read_error p st e s : loop_at false p st (world s) -> (classify_read_error e = None -> unflushed st = None) ->
  runs (on_read_error idle mps st e)
    (stands_for (inr match classify_read_error e with
                     | Some violation => stream_violation v mps p violation
                     | None => ending p (if is_truncated_packet (Io e) then Err (Io e) else Ok Served)
                     end)) s.
Proof.
  intros Hl Hu. unfold on_read_error. destruct (classify_read_error e) as [vi|]; [by apply (runs_on_violation false p)|].
  destruct Hl as (Hr & _ & _). rewrite (Hu eq_refl) in Hr.
  destruct (is_truncated_packet (Io e)); apply runs_bind, runs_emit; intros tr; apply runs_ret; by apply (finished_flushed v false).
Qed.

Lemma runs_step p st s : loop_at true p st (world s) ->
  runs (packet_loop_step idle mps ingest st) (stands_for (stream_step v mps p)) s.
Proof.
  intros Hl. unfold packet_loop_step. apply runs_bind, runs_peek, runs_bind, (runs_must_flush p); [done|].
  pose proof Hl as (_ & Ha & Ht). clear Hl. intros u s1 Hr Hu.
  set (st' := {| conn := conn st; unflushed := u |}).
  assert (loop_at true p st' (world s1)) as Hl by by split. assert (unflushed st' = u) as Hst' by done. clearbody st'. subst u.
  apply runs_bind, runs_peek, runs_bind, (runs_idle_left true p st'); [done|]. clear Hl Hr.
  intros d s2 Hl _. apply runs_bind, runs_perform. intros r w tr Hop. simpl in Hop. destruct Hl as (Hr & Ha' & Ht').
  destruct (rc_start _ _ _ _ _ Hr eq_refl) as [Hs Hs']. pose proof (read_reach _ _ _ _ _ Hr Hop) as Hread. unfold stream_step.
  destruct (MqttDecoder_decode_eof (p_decoder p) (p_rest p)) as [[a d1] rest1] eqn:Ed.
  pose proof (decode_eof_incomplete _ _ _ _ _ Hs Hs' Ed) as Hinc. destruct a as [[[packet n]|]|e].
  - destruct Hread as (-> & Hr' & _).
    apply (runs_on_packet (advanced p d1 rest1 (p_awaiting p)) st' _ packet {| world := w : @World _ rt; trace := tr |}). by split.
  - destruct Hread as [-> Hr']. apply runs_bind, runs_emit. intros tr'. apply runs_ret.
    destruct Hu as [Hu|Hu]; [|congruence]. rewrite Hu in Hr'. by apply (finished_flushed v false).
  - destruct Hread as [-> Hr']. apply (runs_on_read_error p st' e {| world := w : @World _ rt; trace := tr |}); [by split|].
    intros Hc. destruct Hu as [Hu|Hu]; [done|]. rewrite (Hinc Hc) in Hu. done.
Qed.

(** The loop answers with what the specification answers. *)
Lemma runs_loop fuel p state s e : reach v true p None (world s) -> p_awaiting p = AwaitingRelease_default ->
  clock 0 <= cs_last_packet_time state -> loop (stream_step v mps) fuel p = Some e ->
  runs (run_packet_loop idle mps ingest fuel state) (fun r s' => finished e r (world s')) s.
Proof.
  intros Hr Ha Ht. unfold run_packet_loop.
  set (st := {| conn := state; awaiting := _; hold_debt := _; unflushed := _ |}).
  assert (loop_at true p st (world s)) as Hl by by split. clearbody st. unfold runs. set (sn := s) at 2. clearbody sn.
  clear Hr Ha Ht. revert p st s Hl. induction fuel as [|fuel IH]; intros p st s Hl; [done|]. rewrite !loop_S. cbn [fst snd].
  pose proof (runs_step _ _ _ Hl) as Hstep. unfold runs in Hstep.
  destruct (packet_loop_step idle mps ingest st s) as [[[st'|r]| |] s']; try done; destruct (stream_step v mps p) as [p'|e']; try done.
  - intros Hloop. by apply (IH p').
  - by intros [= <-].
Qed.
End Loop.

(** *** The handshake *)

Section Handshake.
Context (m : MaxInboundPacketSize).

(** Before the version is known: nothing written, nothing delivered; [b] while
    the stream may be read. *)
Record greeting (b : bool) (bytes : list Z) (w : Scripted) : Prop := {
  gr_frame : exists f, stage w = Handshaking f /\ bytes_written (framed_io f) = 0 /\ framed_write_buffer f = [] /\
    (b = true -> framed_codec f = VersionDecoder_new m /\ (exists eof, framed_open f = Some eof /\ (eof = true -> wire (framed_io f) = [])) /\
       framed_read_buffer f ++ wire (framed_io f) = bytes /\ 0 <= max_read (framed_io f));
  gr_received : received w []
}.

Lemma greeting_finished b bytes w r : greeting b bytes w ->
  finished {| e_result := r; e_out := Some 0; e_delivered := [] |} r w.
Proof. intros [(f & Hs & Hb & _) Hr]. split; [done|done|]. intros n [= <-]. by rewrite Hs. Qed.

Lemma enter_reach b bytes v w : greeting b bytes w -> reach v b (connecting m v bytes) None (into_packets v m (w : @World _ rt)).
Proof.
  intros [(f & Hs & Hb & Hw & Hrd) Hr]. split; [|intros _; split; [destruct v; unfold frame_sync; simpl; by rewrite ?framing_v3, ?framing_v5|done]|by destruct Hr|done].
  simpl. unfold scripted_into_packets. rewrite Hs. eexists. split; [done|].
  destruct (map_codec_framed _ _ (fun _ : VersionDecoder => CodecPair_new v m) f) as (Ho & Hc & Hio & Hrb & Hwb).
  split; [|by rewrite Hwb]. split; rewrite ?Hc, ?Hio, ?Hwb, ?Hw, ?Hb; try done.
  intros Hbt. destruct (Hrd Hbt) as (_ & Hop & Hrest & Hcap). split; by rewrite ?Ho, ?Hc, ?Hio, ?Hrb.
Qed.

Lemma runs_now_any s (Q : Z -> Sess -> Prop) :
  (forall t w', stage w' = stage (world s) -> chan w' = chan (world s) -> drained w' = drained (world s) ->
     clock 0 <= t < clock 0 + HALF_SECOND -> Q t {| world := w' : World; trace := trace s |}) -> runs Instant_now Q s.
Proof. intros HQ. unfold runs, Instant_now. apply HQ; [done..|apply Hprompt]. Qed.

Lemma greeting_now b bytes s (Q : Z -> Sess -> Prop) : greeting b bytes (world s) ->
  (forall t w', greeting b bytes w' -> clock 0 <= t < clock 0 + HALF_SECOND -> Q t {| world := w' : World; trace := trace s |}) ->
  runs Instant_now Q s.
Proof.
  intros [Hf [Hok Hq Hl]] HQ. apply runs_now_any. intros t w' Hs Hc Hd Ht. apply HQ; [|done]. split; [by rewrite Hs|]. by split; rewrite ?Hc, ?Hd.
Qed.

Context (start budget : Z).
Hypothesis Hstart : clock 0 <= start.

Lemma runs_refuse v b p connack s : reach v b p None (world s) ->
  runs (refuse_with start budget connack) (fun r s' => exists e, refused_with p connack = Some e /\ finished e r (world s')) s.
Proof.
  intros Hr. apply runs_bind, (runs_connack v b p); [done..|]. intros s'. unfold refused_with, stream_connack.
  destruct (encoded (p_encoder p) connack) as [[n|x] e].
  - intros Hr'. apply runs_ret. eexists. split; [done|]. by apply (finished_flushed v b).
  - intros Hrv. apply runs_ret. eexists. split; [done|]. by split.
Qed.

(** What becomes of a stream whose first packet names no version: it met the
    rejection of one of its prefixes. *)
Definition turned_away (bytes : list Z) (r : result SessionOutcome Error) (w : Scripted) : Prop :=
  exists pre e x, pre `prefix_of` bytes /\ (VersionDecoder_decode (VersionDecoder_new m) pre).1 = Err e /\
    rejection_ending m bytes e = Some x /\ finished x r w.

Lemma runs_detect bytes s : greeting true bytes (world s) ->
  (forall f, stage (world s) = Handshaking f -> framed_open f = Some false) ->
  runs (detect_version start budget m) (fun x s' =>
    match version_eof m bytes with
    | Ok (DSome v) => x = inl v /\ greeting true bytes (world s')
    | Ok Insufficient => x = inr (Err ClientClosed) /\ greeting false bytes (world s')
    | Err e => exists r, x = inr r /\
        (downcast_decode e = None -> r = Err (Io e) /\ greeting false bytes (world s')) /\
        (is_Some (downcast_decode e) -> turned_away bytes r (world s'))
    end) s.
Proof.
  intros Hg Hfirst. unfold detect_version, remaining, elapsed_since.
  do 3 apply runs_bind. apply runs_now_any. intros t w Hs Hc Hd _. do 2 apply runs_ret. apply runs_bind, runs_perform.
  intros r w' tr Hop. simpl in Hop. unfold scripted_next_version in Hop. rewrite Hs in Hop.
  destruct Hg as [(f & Hsf & Hb & Hw & Hrd) [Hok Hq Hl]]. destruct (Hrd eq_refl) as (Hcodec & _ & Hrest & Hcap).
  rewrite Hsf in Hop. destruct (Framed_next _ _ f) as [a f'] eqn:Ef. injection Hop as <- <-.
  destruct (next_framed _ _ _ _ _ _ _ _ (Hfirst f Hsf) Ef) as (Hwb' & eof' & Ho' & Hf). rewrite Hcodec in Hf.
  assert (forall e, a = Some (Err e) -> (exists pre, pre `prefix_of` bytes /\ (VersionDecoder_decode (VersionDecoder_new m) pre).1 = Err e) \/
    version_eof m bytes = Err stray_bytes) as Hrej.
  { intros e ->. rewrite <- Hrest. by apply (version_rejection _ _ _ _ _ _ _ _ _ _ e Hf). }
  apply version_frames in Hf as (Hans & He' & Hcap' & Hbw); [|done]. rewrite Hrest in Hans.
  assert (received (with_stage w (Handshaking f')) []) as Hrv by (split; simpl; by rewrite ?Hc, ?Hd).
  assert (forall b, (b = true -> framed_codec f' = VersionDecoder_new m /\
      (exists eof, framed_open f' = Some eof /\ (eof = true -> wire (framed_io f') = [])) /\
      framed_read_buffer f' ++ wire (framed_io f') = bytes /\ 0 <= max_read (framed_io f')) ->
    greeting b bytes (with_stage w (Handshaking f'))) as Hgr.
  { intros b Hbt. split; [|done]. exists f'. split; [done|]. split; [congruence|]. split; [congruence|done]. }
  destruct (version_eof m bytes) as [[v|]|e]; simpl in Hans.
  - destruct Hans as (-> & Hc' & Hr'). apply runs_ret. split; [done|]. apply Hgr. intros _.
    split; [done|]. split; [exists eof'; split; [by eapply Ho'|done]|]. split; [done|by rewrite Hcap'].
  - subst a. apply runs_ret. split; [done|]. by apply Hgr.
  - destruct Hans as (e' & -> & He). assert (greeting false bytes (with_stage w (Handshaking f'))) as Hg by by apply Hgr.
    assert (is_Some (downcast_decode e) -> exists pre, pre `prefix_of` bytes /\ (VersionDecoder_decode (VersionDecoder_new m) pre).1 = Err e') as Hpre.
    { intros [y Hy]. destruct (Hrej _ eq_refl) as [?|[= ->]]; [done|]. by rewrite stray_not_decode in Hy. }
    assert (downcast_decode e' <> Some UnsupportedProtocolLevel -> forall tr', exists r, inr (A := ProtocolVersion) (Err (Io e')) = inr r /\
      (downcast_decode e = None -> r = Err (Io e) /\ greeting false bytes (world {| world := with_stage w (Handshaking f') : @World _ rt; trace := tr' |})) /\
      (is_Some (downcast_decode e) -> turned_away bytes r (world {| world := with_stage w (Handshaking f') : @World _ rt; trace := tr' |}))) as Hend.
    { intros Hnl tr'. eexists. split; [done|]. split; [intros Hn; by rewrite (He Hn)|].
      intros Hsome. destruct (Hpre Hsome) as (pre & Hp & Hpe). exists pre, e', {| e_result := Err (Io e'); e_out := Some 0; e_delivered := [] |}.
      split; [done|]. split; [done|]. split; [|by apply (greeting_finished false bytes)].
      unfold rejection_ending. destruct (downcast_decode e') as [[]|]; done. }
    destruct (downcast_decode e') as [[]|] eqn:Ee;
      try (apply runs_bind, runs_emit; intros tr'; apply runs_ret; by apply Hend).
    + apply runs_bind, runs_emit. intros tr'. apply runs_bind. unfold runs at 1, enter_packets. apply runs_bind.
      eapply runs_mono; [apply (runs_refuse MQTT3 false (connecting m MQTT3 bytes)); by apply enter_reach|].
      intros r s' (e1 & Hr1 & Hfin). apply runs_ret. exists r. split; [done|].
      split; [intros Hn; rewrite (He Hn) in Ee; congruence|].
      intros Hsome. destruct (Hpre Hsome) as (pre & Hp & Hpe). exists pre, e', e1. split; [done|]. split; [done|].
      split; [|done]. unfold rejection_ending. by rewrite Ee.
    + apply runs_bind. unfold log_handshake_transport_error.
      destruct (is_routine_disconnect _); apply runs_emit; intros tr'; apply runs_ret; by apply Hend.
Qed.

Lemma runs_read_connect v p s : reach v true p None (world s) ->
  runs (read_connect start budget m v) (fun x s' =>
    match MqttDecoder_decode_eof (p_decoder p) (p_rest p) with
    | (Ok (DSome (packet, _)), d, rest) =>
        x = inl packet /\ keep_alive_ok packet /\ reach v true (advanced p d rest (p_awaiting p)) None (world s')
    | (Ok Insufficient, _, _) => exists r, x = inr r /\ finished (ending p (Err ClientClosed)) r (world s')
    | (Err e, _, _) => exists r e', x = inr r /\ connect_ending m v p e = Some e' /\ finished e' r (world s')
    end) s.
Proof.
  intros Hr. apply runs_bind, (runs_remaining v true p None); [done..|]. clear s Hr. intros d s Hr.
  apply runs_bind, runs_perform. intros r w tr Hop. simpl in Hop. pose proof (read_reach _ _ _ _ _ _ Hr Hop) as Hread.
  destruct (rc_start _ _ _ _ _ Hr eq_refl) as [Hs Hs'].
  destruct (MqttDecoder_decode_eof (p_decoder p) (p_rest p)) as [[[[[packet n]|]|e] d1] rest1] eqn:Ed.
  - destruct Hread as (-> & Hr' & _). apply runs_ret. split; [done|]. split; [|done].
    by destruct (decode_eof_item _ _ _ _ _ Hs Hs' Ed) as (_ & _ & _ & Hk).
  - destruct Hread as [-> Hr']. apply runs_ret. eexists. split; [done|]. by apply (finished_flushed v false).
  - destruct Hread as [-> Hr']. unfold connect_ending.
    assert (forall tr', exists r e', inr (A := MqttPacket) (Err (Io e)) = inr r /\ Some (ending p (Err (Io e))) = Some e' /\
      finished e' r (world {| world := w : @World _ rt; trace := tr' |})) as Hend.
    { intros tr'. do 2 eexists. split; [done|]. split; [done|]. by apply (finished_flushed v false). }
    destruct (downcast_decode e) as [[]|]; try (apply runs_bind, runs_emit; intros tr'; apply runs_ret; by apply Hend).
    + apply runs_bind, runs_emit. intros tr'. apply runs_bind. eapply runs_mono; [by apply (runs_refuse v false p)|].
      intros r s' (e' & He & Hf). apply runs_ret. by exists r, e'.
    + apply runs_bind. unfold log_handshake_transport_error.
      destruct (is_routine_disconnect _); apply runs_emit; intros tr'; apply runs_ret; by apply Hend.
Qed.

Definition patient (decision : ConnectDecision) : Prop :=
  match decision with Accept _ _ _ idle _ => from_millis 1500 <= idle | _ => True end.

Lemma runs_decision v p fuel decision state received_at ingest s e : reach v true p None (world s) ->
  p_awaiting p = AwaitingRelease_default -> patient decision -> clock 0 <= received_at -> 0 < ingest ->
  decision_ending v p fuel decision = Some e ->
  runs (act_on_decision start budget fuel decision state received_at ingest) (fun r s' => finished e r (world s')) s.
Proof.
  intros Hr Ha Hp Ht Hi He. destruct decision as [connack id ka idle mps|connack [|]| |]; simpl in *.
  - apply runs_bind, (runs_connack v true p); [done..|]. intros s'. unfold stream_connack in He.
    destruct (encoded (p_encoder p) connack) as [[n|x] e1].
    + intros Hr'. by apply (runs_loop v idle mps ingest Hp Hi fuel (sent p e1 n)).
    + intros Hrv. simplify_eq. apply runs_ret. by split.
  - apply runs_bind, runs_emit. intros tr. eapply runs_mono; [by apply (runs_refuse v true p)|].
    intros r s' (e' & He' & Hf). congruence.
  - simplify_eq. do 2 (apply runs_bind, runs_emit; intros ?). apply runs_ret. by apply (finished_flushed v true).
  - simplify_eq. apply runs_bind, runs_emit. intros tr. apply runs_ret. by apply (finished_flushed v true).
  - simplify_eq. apply runs_bind, runs_emit. intros tr. apply runs_ret. by apply (finished_flushed v true).
Qed.
End Handshake.

(** *** The whole session *)

(** Every packet takes bytes, so the specification comes to an end. *)
Lemma stream_loop_ends v mps p n : frame_sync (p_decoder p) -> d_at_frame_start (p_decoder p) = true ->
  (length (p_rest p) < n)%nat -> exists e, loop (stream_step v mps) n p = Some e.
Proof.
  intros Hs Hst. apply (loop_terminates _ (fun p => frame_sync (p_decoder p) /\ d_at_frame_start (p_decoder p) = true)
    (fun p => length (p_rest p))); [|done].
  clear p Hs Hst. intros p p' [Hs Hst]. unfold stream_step.
  destruct (MqttDecoder_decode_eof (p_decoder p) (p_rest p)) as [[[[[packet k]|]|e] d] rest] eqn:Ed; [|done|done].
  destruct (decode_eof_item _ _ _ _ _ Hs Hst Ed) as (Hs1 & Hst1 & Hlt & _).
  destruct (dispatch packet (p_awaiting p)) as [[publish|publish reply|reply| |vi] a]; unfold stream_reply; intros Hx;
    repeat case_match; simplify_eq/=; done.
Qed.

Lemma decision_ends v p n decision : frame_sync (p_decoder p) -> d_at_frame_start (p_decoder p) = true ->
  (length (p_rest p) < n)%nat -> exists e, decision_ending v p n decision = Some e.
Proof.
  intros Hs Hst Hn. destruct decision as [connack id ka idle mps|connack [|]| |]; simpl; unfold refused_with, stream_connack; try by eexists.
  - destruct (encoded _ _) as [[k|x] e]; [|by eexists]. by apply stream_loop_ends.
  - by destruct (encoded _ _) as [[k|x] e]; eexists.
Qed.

Lemma decision_mono v p n n' decision e : (n <= n')%nat -> decision_ending v p n decision = Some e ->
  decision_ending v p n' decision = Some e.
Proof.
  intros Hn. destruct decision as [connack id ka idle mps|connack [|]| |]; simpl; unfold stream_connack; try done.
  destruct (encoded _ _) as [[k|x] e1]; [|done]. by apply loop_mono.
Qed.

Lemma keep_alive_patient ka : u16 ka -> ka <> 0 -> from_millis 1500 <= keep_alive_grace ka.
Proof.
  unfold u_range, keep_alive_grace, from_millis, KEEP_ALIVE_GRACE_MILLIS_PER_SEC, NANOS_PER_MILLI. intros Hk Hz. rewrite wrap_small; lia.
Qed.

(** The shortest idle timeout of an accepted session. *)
Lemma accept_patient packet : keep_alive_ok packet ->
  patient (evaluate_connect packet DEFAULT_IDLE_TIMEOUT_SECS FUZZ_PEER_ADDR MaxInboundPacketSize_DEFAULT).
Proof.
  intros Hk. destruct packet as [[c| | | | | | | | | | | | |]|[c| | | | | | | | | | | | | |]|]; try done; simpl in *.
  - unfold evaluate_v3_connect. destruct (_ && _); [done|]. destruct (negb _); [done|]. simpl.
    destruct (Z.eqb_spec (v3_keep_alive c) 0); [vm_compute; discriminate|].
    apply Z.min_glb; [by apply keep_alive_patient|vm_compute; discriminate].
  - unfold evaluate_v5_connect, refuse_v5, negotiate_v5_keep_alive. destruct (v5_auth_method c); [done|].
    destruct (Z.eqb_spec (v5_keep_alive c) 0); [destruct (negb _); [done|vm_compute; discriminate]|].
    destruct (_ <=? _); destruct (negb _); try done; first [by apply keep_alive_patient|vm_compute; discriminate].
Qed.

Definition script_start (data : list Z) : Scripted := client_start (script_io data) (event_channel 0) MaxInboundPacketSize_DEFAULT.

Lemma start_greeting data : Forall u8 data ->
  greeting MaxInboundPacketSize_DEFAULT true (split_script data).2 (script_start data) /\
  forall f, stage (script_start data) = Handshaking f -> framed_open f = Some false.
Proof.
  intros Hd. unfold script_start, client_start, script_io. destruct (split_script data) as [cap bytes] eqn:Es. cbn [fst snd].
  destruct (new_framed _ {| wire := bytes; max_read := cap; bytes_written := 0 |} (VersionDecoder_new MaxInboundPacketSize_DEFAULT))
    as (Ho & Hc & Hio & Hrb & Hwb).
  split; [|by intros f [= <-]]. split.
  - eexists. split; [done|]. rewrite Hio, Hwb, Hc, Hrb. split; [done|]. split; [done|]. intros _. split; [done|]. split; [by eexists|].
    split; [done|]. destruct data as [|b data]; simplify_eq/=; [done|]. apply Forall_cons in Hd as [Hb _]. unfold u_range in Hb. lia.
  - destruct (event_channel_ok 0) as [Hok Hb]. split; [exact Hok|apply quiet_new|]. simpl. apply queue_new_spec.
Qed.

(** The session ended as [e] says; the bytes written are known unless an
    encoding failed. *)
Definition ended_as (e : Ending) (t : SessionTrace) : Prop :=
  st_result t = e_result e /\ st_delivered t = e_delivered e /\ forall n, e_out e = Some n -> st_bytes_written t = n.

(** What a scripted session has to show for its bytes. *)
Definition shows (bytes : list Z) (t : SessionTrace) : Prop :=
  match (VersionDecoder_decode (VersionDecoder_new MaxInboundPacketSize_DEFAULT) bytes).1 with
  | Ok (DSome v) =>
      exists e, stream_connect FUZZ_PEER_ADDR DEFAULT_IDLE_TIMEOUT_SECS MaxInboundPacketSize_DEFAULT v bytes = Some e /\ ended_as e t
  | Ok Insufficient =>
      t = {| st_result := Err (if bool_decide (bytes = []) then ClientClosed else Io stray_bytes); st_bytes_written := 0; st_delivered := [] |}
  | Err _ =>
      exists pre e x, pre `prefix_of` bytes /\
        (VersionDecoder_decode (VersionDecoder_new MaxInboundPacketSize_DEFAULT) pre).1 = Err e /\
        rejection_ending MaxInboundPacketSize_DEFAULT bytes e = Some x /\ ended_as x t
  end.

Definition trace_of (r : result SessionOutcome Error) (w : Scripted) : SessionTrace :=
  {| st_result := r; st_bytes_written := bytes_written (stage_io (stage w)); st_delivered := drained w ++ (drain drain_fuel (chan w)).1 |}.

Lemma received_all w l : received w l -> drained w ++ (drain drain_fuel (chan w)).1 = l.
Proof.
  intros [Hok _ Hl]. destruct (drain_ok drain_fuel _ Hok (drained_fuel _ Hok)) as (c' & -> & _). exact Hl.
Qed.

Lemma finished_trace e r w : finished e r w -> ended_as e (trace_of r w).
Proof. intros [Hr Hrv Ho]. split; [done|]. split; [by apply received_all|done]. Qed.

Lemma runs_session data : Forall u8 data ->
  runs (serve_session (session_fuel data) FUZZ_PEER_ADDR DEFAULT_CONNECTION_TIMEOUT_SECS DEFAULT_IDLE_TIMEOUT_SECS
          MaxInboundPacketSize_DEFAULT (from_secs DEFAULT_INGEST_DEADLINE_SECS))
    (fun r s => shows (split_script data).2 (trace_of r (world s))) {| world := script_start data : @World _ rt; trace := [] |}.
Proof.
  intros Hd. destruct (start_greeting data Hd) as [Hg Hfirst]. set (bytes := (split_script data).2) in *.
  assert (S (length bytes) <= session_fuel data)%nat as Hfuel by (unfold session_fuel, bytes; destruct data; simpl; lia).
  unfold serve_session. apply runs_bind, runs_now_any. intros t0 w0 Es0 Ec0 Ed0 _. apply runs_bind, runs_now_any.
  intros start w1 Es1 Ec1 Ed1 [Hstart _]. cbn [world] in *.
  assert (stage w1 = stage (script_start data) /\ chan w1 = chan (script_start data) /\ drained w1 = drained (script_start data))
    as (Es & Ec & Ed) by (split_and!; congruence). rewrite <- Es in Hfirst.
  assert (greeting MaxInboundPacketSize_DEFAULT true bytes w1) as Hg1.
  { destruct Hg as [Hf [Hok Hq Hl]]. split; [by rewrite Es|]. by split; rewrite ?Ec, ?Ed. }
  apply runs_bind. eapply runs_mono; [by apply (runs_detect _ start _ Hstart bytes {| world := w1 : @World _ rt; trace := [] |})|].
  unfold shows, version_eof. set (m := MaxInboundPacketSize_DEFAULT) in *.
  pose proof (version_err_typed m bytes) as Htyped.
  destruct (VersionDecoder_decode (VersionDecoder_new m) bytes).1 as [[v|]|e]; cbn beta iota.
  - intros x s [-> Hg2]. apply runs_bind, runs_emit. intros tr. apply runs_bind. unfold runs at 1, enter_packets.
    apply (enter_reach _ _ _ v) in Hg2. apply runs_bind.
    eapply runs_mono; [by apply (runs_read_connect m start _ Hstart v (connecting m v bytes))|]. clear s tr Hg2. intros x s.
    unfold stream_connect. cbn [connecting p_decoder p_rest]. fold (connecting m v bytes).
    destruct (MqttDecoder_decode_eof (MqttDecoder_new v m) bytes) as [[[[[packet n]|]|e] d] rest] eqn:Edec.
    + intros (-> & Hka & Hr). apply runs_bind, (runs_now v true (advanced (connecting m v bytes) d rest AwaitingRelease_default) None); [exact Hr|].
      intros t2 w2 Hr2 _ [Ht2 _]. destruct (rc_start _ _ _ _ _ Hr2 eq_refl) as [Hs Hs'].
      assert (length rest < S (length bytes))%nat as Hlt.
      { destruct (decode_eof_item (MqttDecoder_new v m) bytes (packet, n) d rest) as (_ & _ & Hl & _); [|done|done|lia].
        unfold frame_sync. destruct v; simpl; by rewrite ?framing_v3, ?framing_v5. }
      destruct (decision_ends v (advanced (connecting m v bytes) d rest AwaitingRelease_default) (S (length bytes))
        (evaluate_connect packet DEFAULT_IDLE_TIMEOUT_SECS FUZZ_PEER_ADDR m) Hs Hs' Hlt) as [e He].
      eapply runs_mono; [apply (runs_decision start _ Hstart v (advanced (connecting m v bytes) d rest AwaitingRelease_default) _ _ _ _ _ _ e);
        [exact Hr2|done|by apply accept_patient|done|vm_compute; reflexivity|by eapply decision_mono]|].
      intros r s' Hf. exists e. split; [exact He|]. by apply finished_trace.
    + intros (r & -> & Hf). apply runs_ret. eexists. split; [done|]. by apply finished_trace.
    + intros (r & e' & -> & He & Hf). apply runs_ret. exists e'. split; [exact He|]. by apply finished_trace.
  - intros x s Hx. assert (exists r, x = inr r /\ greeting m false bytes (world s) /\
      r = Err (if bool_decide (bytes = []) then ClientClosed else Io stray_bytes)) as (r & -> & Hg2 & Hr).
    { destruct bytes as [|b bytes]; simpl in Hx.
      - destruct Hx as [-> Hg2]. eauto.
      - destruct Hx as (r & -> & Ht & _). destruct (Ht stray_not_decode) as [-> Hgr]. eauto. }
    apply runs_ret. apply (greeting_finished _ _ _ _ r), finished_trace in Hg2 as (_ & Hdl & Hb). rewrite Hr in *.
    cbn [trace_of st_delivered st_bytes_written e_delivered e_out] in Hdl, Hb. unfold trace_of. by rewrite Hdl, (Hb 0 eq_refl).
  - intros x s (r & -> & _ & Ht). apply runs_ret. destruct (Ht (Htyped e eq_refl)) as (pre & e' & y & Hp & He & Hy & Hf).
    exists pre, e', y. split; [exact Hp|]. split; [exact He|]. split; [exact Hy|by apply finished_trace].
Qed.
End Simulation.

(** (C10) A scripted session over a clock that moves by less than half a second,
    so that no timeout fires, always comes to an end, without a panic.  When the
    stream names a protocol version, its result, the publishes delivered and
    the number of reply bytes are those of [stream_connect], a function of the
    bytes alone, which decodes the stream as a whole and applies the decision
    functions: no publish is lost or reordered, also past the capacity of the
    event channel, and every reply byte is written unless an encoding failed.
    A stream that ends before it names a version is a closed client, or stray
    bytes when it had any.  A stream the version decoder rejects ends as its
    rejection of some prefix says, which prefix depending on the reads: with
    the CONNACK that refuses an unsupported protocol level, or in that I/O
    error with nothing written; nothing is delivered. *)
Theorem run_session_refines `{RmqttIncremental} `{LocalSyncFair} `{MonoioFramedSpec} clock data :
  prompt clock -> Forall u8 data -> exists t, run_session clock data = Some t /\ shows (split_script data).2 t.
Proof.
  intros Hp Hd. pose proof (runs_session clock Hp data Hd) as Hr. unfold run_session, handle_client_io. unfold runs, script_start in Hr.
  unfold rt in Hr. destruct (serve_session _ _ _ _ _ _ _) as [[r| |] s]; [|done|done]. eexists. split; [done|]. exact Hr.
Qed.

(** ** A concrete codec and clock

    Enough of MQTT 3.1.1 to run scripts: CONNECT, PUBLISH at QoS 0 and 1,
    PINGREQ and DISCONNECT. *)

Module ScriptCodec.
Definition u16_of (hi lo : Z) : Z := (256 * hi + lo) mod 2 ^ 16.

Definition text (bytes : list Z) : string := String.string_of_list_ascii ((fun b => Ascii.ascii_of_nat (Z.to_nat b)) <$> bytes).

Definition publish_of (qos : QoS) (body : list Z) : result MqttPacket DecodeError :=
  match body with
  | hi :: lo :: rest =>
      let n := Z.to_nat (u16_of hi lo) in
      let publish id payload := Ok (V3 (V3_Publish {| p_dup := false; p_retain := false; p_qos := qos; p_topic := text (take n rest);
                                         p_packet_id := id; p_payload := payload; p_properties := None |})) in
      match qos, drop n rest with
      | AtMostOnce, payload => publish None payload
      | _, hi :: lo :: payload => publish (Some (u16_of hi lo)) payload
      | _, _ => Err InvalidLength
      end
  | _ => Err InvalidLength
  end.

Definition parse (ty : Z) (body : list Z) : result MqttPacket DecodeError :=
  if ty =? 16 then
    match drop 7 body with
    | flags :: hi :: lo :: id =>
        Ok (V3 (V3_Connect {| v3_client_id := text (drop 2 id); v3_clean_session := Z.testbit flags 1; v3_keep_alive := u16_of hi lo |}))
    | _ => Err InvalidLength
    end
  else if ty =? 48 then publish_of AtMostOnce body
  else if ty =? 50 then publish_of AtLeastOnce body
  else if ty =? 192 then Ok (V3 V3_PingRequest)
  else if ty =? 224 then Ok (V3 V3_Disconnect)
  else Err UnsupportedPacketType.

(** Inside a frame, the first byte and the length of its body. *)
Definition body (ty r : Z) (src : list Z) : result (option (MqttPacket * Z)) DecodeError * option (Z * Z) * list Z :=
  if r <=? Z.of_nat (length src) then
    (match parse ty (take (Z.to_nat r) src) with Ok p => Ok (Some (p, r)) | Err e => Err e end, None, drop (Z.to_nat r) src)
  else (Ok None, Some (ty, r), src).

Definition decode (c : option (Z * Z)) (src : list Z) : result (option (MqttPacket * Z)) DecodeError * option (Z * Z) * list Z :=
  match c with
  | Some (ty, r) => body ty r src
  | None =>
      match fixed_header src, src with
      | Some (h, r), ty :: _ => body ty r (drop (Z.to_nat h) src)
      | _, _ => (Ok None, None, src)
      end
  end.

Definition version (src : list Z) : result (option ProtocolVersion) DecodeError :=
  match fixed_header src with
  | None => Ok None
  | Some (h, _) =>
      match src !! Z.to_nat (h + 6) with
      | None => Ok None
      | Some level => if level =? 4 then Ok (Some MQTT3) else if level =? 5 then Ok (Some MQTT5) else Err InvalidProtocol
      end
  end.

#[export] Instance codec_ops : RmqttCodec := {|
  codec := option (Z * Z);
  V3Codec_new _ := None;
  V5Codec_new _ _ := None;
  V3Codec_default := None;
  V5Codec_default := None;
  codec_decode := decode;
  codec_encode c p dst := (Ok tt, c, dst ++ repeat 0 (FrameCodec.wire_size p));
  VersionCodec_decode src := (version src, src)
|}.

(** A frame once its header is there. *)
Lemma decode_header src h r more : fixed_header src = Some (h, r) ->
  exists ty, decode None (src ++ more) = body ty r (drop (Z.to_nat h) src ++ more) /\ (Z.to_nat h <= length src)%nat /\ 0 <= h /\
    decode None src = body ty r (drop (Z.to_nat h) src).
Proof.
  intros Hh. pose proof (fixed_header_app _ more _ Hh) as Hh'. pose proof (FrameCodec.header_consumes _ _ _ Hh) as Hlt.
  assert ((Z.to_nat h <= length src)%nat /\ 0 <= h) as [Hle Hpos].
  { destruct src as [|ty src]; [done|]. rewrite fixed_header_cons in Hh.
    assert (forall bs i acc h r, fixed_header_scan i acc bs = Some (h, r) -> 2 <= h <= 1 + Z.of_nat i + Z.of_nat (length bs)) as Hge.
    { induction bs as [|b bs IH]; intros i acc h' r'; cbn -[Z.of_nat]; [done|]. destruct (_ =? _); [intros; simplify_eq; lia|intros ?%IH; lia]. }
    apply Hge in Hh. rewrite length_take in Hh. simpl. lia. }
  destruct src as [|ty src]; [done|]. exists ty. unfold decode. cbn [app] in *. rewrite Hh, Hh'. rewrite !app_comm_cons, drop_app_le by done. done.
Qed.

Lemma decode_no_header src : fixed_header src = None -> decode None src = (Ok None, None, src).
Proof. unfold decode. by intros ->. Qed.

(** A body that is there is read the same whatever follows it. *)
Lemma body_app ty r src more : r <= Z.of_nat (length src) ->
  body ty r (src ++ more) = ((body ty r src).1, (body ty r src).2 ++ more).
Proof.
  intros Hr. unfold body. rewrite length_app, !(proj2 (Z.leb_le _ _)) by lia. cbn [fst snd].
  by rewrite take_app_le, drop_app_le by lia.
Qed.

#[export] Instance codec_framing : RmqttFraming.
Proof.
  refine {| mid_frame := (fun c : option (Z * Z) => match c with Some _ => true | None => false end) : @codec codec_ops -> bool |}; [done|done| |].
  - intros c src p c' src'. simpl. destruct c as [[ty r]|].
    + unfold decode, body. intros Hd. by repeat (case_match; simplify_eq/=).
    + destruct (fixed_header src) as [[h r]|] eqn:Eh; [|by rewrite decode_no_header].
      destruct (decode_header _ _ _ [] Eh) as (ty & _ & _ & _ & ->). unfold body. intros Hd. split; [|by eexists]. by repeat (case_match; simplify_eq/=).
  - intros c src c' src'. simpl. destruct c as [[ty r]|].
    + unfold decode, body. intros Hd. destruct (r <=? _); [by repeat (case_match; simplify_eq/=)|]. simplify_eq. by rewrite Nat.ltb_irrefl.
    + destruct (fixed_header src) as [[h r]|] eqn:Eh; [|rewrite decode_no_header by done; intros; simplify_eq; by rewrite Nat.ltb_irrefl].
      destruct (decode_header _ _ _ [] Eh) as (ty & _ & _ & _ & ->). pose proof (FrameCodec.header_consumes _ _ _ Eh) as Hlt%Nat.ltb_lt.
      unfold body. intros Hd. destruct (r <=? _) eqn:El; [by repeat (case_match; simplify_eq/=)|]. simplify_eq. rewrite Hlt. split; [done|]. by eexists.
Defined.

Lemma parse_keep_alive ty b p : parse ty b = Ok p -> keep_alive_ok p.
Proof.
  unfold parse, publish_of, u16_of. intros Hp. repeat (case_match; simplify_eq/=; try done). unfold u_range.
  pose proof (Z.mod_pos_bound (256 * z0 + z1) (2 ^ 16)). lia.
Qed.

Lemma body_more ty r src more :
  match body ty r src with
  | (Ok None, c', src') => decode c' (src' ++ more) = body ty r (src ++ more)
  | (a, c', src') => body ty r (src ++ more) = (a, c', src' ++ more)
  end.
Proof.
  destruct (Z.leb_spec r (Z.of_nat (length src))) as [Hle|Hgt].
  - rewrite (body_app _ _ _ more Hle). unfold body. rewrite (proj2 (Z.leb_le _ _)) by done. by destruct (parse _ _).
  - unfold body at 1. by rewrite (proj2 (Z.leb_gt _ _)) by done.
Qed.

Lemma script_decode_more c src more :
  match decode c src with
  | (Ok None, c', src') => decode c' (src' ++ more) = decode c (src ++ more)
  | (a, c', src') => decode c (src ++ more) = (a, c', src' ++ more)
  end.
Proof.
  destruct c as [[ty r]|]; [apply body_more|]. destruct (fixed_header src) as [[h r]|] eqn:Eh; [|by rewrite decode_no_header].
  destruct (decode_header _ _ _ more Eh) as (ty & -> & _ & _ & ->). apply body_more.
Qed.

#[export] Instance codec_incremental : RmqttIncremental.
Proof.
  split.
  - intros c src c' src' more Hd. pose proof (script_decode_more c src more) as Hm. simpl in *. rewrite Hd in Hm. by apply same_decode_eq.
  - intros c src p c' src' more Hd. pose proof (script_decode_more c src more) as Hm. simpl in *. by rewrite Hd in Hm.
  - intros c src e c' src' more Hd. pose proof (script_decode_more c src more) as Hm. simpl in *. rewrite Hd in Hm. by rewrite Hm.
  - intros c src e c' src' more Hc Hd. destruct c as [[ty r]|]; [done|]. cbn [codec_decode codec_ops] in Hd.
    destruct (fixed_header src) as [[h r]|] eqn:Eh; [by apply fixed_header_app|]. by rewrite decode_no_header in Hd.
  - intros c src c' src' Hc Hd. destruct c as [[ty r]|]; [done|]. cbn [codec_decode codec_ops] in Hd. unfold holds_complete_packet, packet_len.
    destruct (fixed_header src) as [[h r]|] eqn:Eh; [|done]. destruct (decode_header _ _ _ [] Eh) as (ty & _ & Hle & Hpos & Hdec). rewrite Hdec in Hd.
    unfold body in Hd. destruct (r <=? _) eqn:El; [by destruct (parse _ _)|]. apply Z.leb_gt in El. rewrite length_drop in El. apply Z.leb_gt. lia.
  - intros c src p c' src' Hc Hd. destruct c as [[ty r]|]; [done|]. cbn [codec_decode codec_ops] in Hd.
    destruct (fixed_header src) as [[h r]|] eqn:Eh; [|by rewrite decode_no_header in Hd].
    destruct (decode_header _ _ _ [] Eh) as (ty & _ & _ & _ & Hdec). rewrite Hdec in Hd. pose proof (FrameCodec.header_consumes _ _ _ Eh).
    unfold body in Hd. destruct (r <=? _); [|done]. simplify_eq. rewrite length_drop. lia.
  - intros c src p n c' src' Hd. cbn [codec_decode codec_ops] in Hd.
    assert (forall ty r s, body ty r s = (Ok (Some (p, n)), c', src') -> keep_alive_ok p) as Hbody.
    { intros ty r s Hb. unfold body in Hb. destruct (r <=? _); [|done]. destruct (parse ty _) eqn:Ep; simplify_eq. by eapply parse_keep_alive. }
    destruct c as [[ty r]|]; [by eapply Hbody|]. unfold decode in Hd. repeat (case_match; simplify_eq/=). by eapply Hbody.
  - intros c p dst c' bytes. simpl. intros; by simplify_eq.
  - done.
  - done.
  - intros src v more. simpl. unfold version. destruct (fixed_header src) as [[h r]|] eqn:Eh; [|done].
    rewrite (fixed_header_app _ more _ Eh). destruct (src !! _) as [level|] eqn:El; [|done]. rewrite (lookup_app_l_Some _ _ _ _ El). by split; [eexists|].
  - intros src e more. simpl. unfold version. destruct (fixed_header src) as [[h r]|] eqn:Eh; [|done].
    rewrite (fixed_header_app _ more _ Eh). destruct (src !! _) as [level|] eqn:El; [|done]. rewrite (lookup_app_l_Some _ _ _ _ El). by eexists.
Qed.
End ScriptCodec.

(** ** Scripts *)

Module SampleScripts.
#[local] Existing Instances FifoSync.ops FifoSync.spec FifoFair.fifo_fair PlainFramed.ops PlainFramed.spec.
Import ScriptCodec.

(** A clock that moves a millisecond in the whole session. *)
Definition clock (n : nat) : Z := Z.min (Z.of_nat n) 1000000.

Definition connect : list Z := [16; 16; 0; 4; 77; 81; 84; 84; 4; 2; 0; 60; 0; 4; 116; 101; 115; 116].
Definition qos1_publish : list Z := [50; 5; 0; 1; 116; 0; 7].
Definition disconnect : list Z := [224; 0].
Definition script : list Z := connect ++ qos1_publish ++ disconnect.

(** The same trace with whole reads and with reads of one byte. *)
Example same_trace : let t := {| st_result := Ok Served; st_bytes_written := 8;
    st_delivered := [from_codec {| p_dup := false; p_retain := false; p_qos := AtLeastOnce; p_topic := "t"; p_packet_id := Some 7;
                                   p_payload := []; p_properties := None |}] |} in
  run_session clock (0 :: script) = Some t /\ run_session clock (1 :: script) = Some t.
Proof. split; vm_compute; reflexivity. Qed.

(** A stream cut inside a packet, one that ends before its version, and none. *)
Example cut_traces :
  run_session clock (3 :: connect ++ [48; 3; 0]) =
    Some {| st_result := Err (Io (IoError_new UnexpectedEof (SourceTruncated TruncatedPacket_))); st_bytes_written := 4; st_delivered := [] |} /\
  run_session clock [1; 16; 16] = Some {| st_result := Err (Io stray_bytes); st_bytes_written := 0; st_delivered := [] |} /\
  run_session clock [] = Some {| st_result := Err ClientClosed; st_bytes_written := 0; st_delivered := [] |}.
Proof. split_and!; vm_compute; reflexivity. Qed.

(** The packets of a session past the capacity of the channel. *)
Definition flood : list Z := connect ++ mjoin (replicate (Z.to_nat EVENT_CHANNEL_CAPACITY + 3) [48; 3; 0; 1; 116]) ++ disconnect.
Example flood_delivers :
  match run_session clock (0 :: flood) with
  | Some t => (st_result t, length (st_delivered t)) = (Ok Served, (Z.to_nat EVENT_CHANNEL_CAPACITY + 3)%nat)
  | None => False
  end.
Proof. vm_compute. reflexivity. Qed.
End SampleScripts.

Section Witness.
#[local] Existing Instances FifoSync.ops FifoSync.spec FifoFair.fifo_fair PlainFramed.ops PlainFramed.spec.
Import ScriptCodec SampleScripts.

Lemma run_session_refines_witness :
  exists t, run_session clock (1 :: script) = Some t /\ shows (split_script (1 :: script)).2 t.
Proof.
  apply (run_session_refines clock (1 :: script)).
  - intros n. unfold clock, HALF_SECOND, from_millis, NANOS_PER_MILLI. simpl. lia.
  - unfold u_range. repeat constructor; lia.
Defined.
End Witness.
