(* ===== verification/Worker.v ===== *)
(** * The worker: connection slots, accept loop, drain and exit

    [WorkerState], [PostGoFlag], [process_events] and [run_worker] of
    src/broker/worker.rs.  [run_worker] is async: its setup is the function
    [run_worker_setup], its accept loop and shutdown the handlers below, one
    per completion the runtime can deliver, and [worker_step] their
    interleaving with the sessions of [Session], seen here through their
    operations on the event channel, and with the event processor. *)

From S2P Require Import Prelude FixedHeader Rmqtt Errors Packet Handshake Api Channel Runtime Session.

(** ** Per-worker state *)

Record WorkerState := {
  worker_id : Z;
  active_connections : Z;
  max_connections : Z;
  refused_connects : Z;
  violations : Z;
  state_log : list (string * Z)
}.

Definition WorkerState_new (id max : Z) : WorkerState :=
  {| worker_id := id; active_connections := 0; max_connections := max; refused_connects := 0;
     violations := 0; state_log := [] |}.

Definition with_active (self : WorkerState) (n : Z) : WorkerState :=
  {| worker_id := worker_id self; active_connections := n; max_connections := max_connections self;
     refused_connects := refused_connects self; violations := violations self;
     state_log := state_log self |}.

Definition WorkerState_try_acquire (self : WorkerState) : bool * WorkerState :=
  let current := active_connections self in
  if max_connections self <=? current then (false, self)
  else (true, with_active self (wrap64 (current + 1))).

Definition WorkerState_release (self : WorkerState) : WorkerState :=
  with_active self (wrap64 (active_connections self - 1)).

Definition active_count (self : WorkerState) : Z := active_connections self.
Definition WorkerState_id (self : WorkerState) : Z := worker_id self.

Definition note_refused (self : WorkerState) : WorkerState :=
  let total := wrap64 (refused_connects self + 1) in
  {| worker_id := worker_id self; active_connections := active_connections self;
     max_connections := max_connections self; refused_connects := total; violations := violations self;
     state_log := if should_log_count total then state_log self ++ [("refused connects total"%string, total)]
                  else state_log self |}.

Definition note_violation (self : WorkerState) : WorkerState :=
  let total := wrap64 (violations self + 1) in
  {| worker_id := worker_id self; active_connections := active_connections self;
     max_connections := max_connections self; refused_connects := refused_connects self;
     violations := total;
     state_log := if should_log_count total then state_log self ++ [("protocol violations total"%string, total)]
                  else state_log self |}.

Definition ACCEPTED_LOG_EVERY : Z := 100.
Definition ACCEPT_ERROR_BACKOFF : Z := from_millis 100.

(** ** The go barrier *)

Record PostGoFlag := { armed : bool }.
Definition PostGoFlag_unarmed : PostGoFlag := {| armed := false |}.
Definition PostGoFlag_arm (self : PostGoFlag) : PostGoFlag := {| armed := true |}.
Definition is_armed (self : PostGoFlag) : bool := armed self.

Section Worker.
Context `{LocalSync}.

(** ** Delivery *)

(** What the callback was called with, or what was traced for want of one. *)
Record Delivery := { calls : list Publish; traced : list Publish }.

Definition deliver (has_callback : bool) (d : Delivery) (p : Publish) : Delivery :=
  if has_callback then {| calls := calls d ++ [p]; traced := traced d |}
  else {| calls := calls d; traced := traced d ++ [p] |}.

(** [process_events]; [None] when the fuel ran out. *)
Definition process_events (fuel : nat) (has_callback : bool) (c : EventChannel) (d : Delivery) :
    option (EventChannel * Delivery) :=
  loop (fun x : EventChannel * Delivery =>
    match recv x.1 with
    | (Some publish, c) => inl (c, deliver has_callback x.2 publish)
    | (None, c) => inr (c, x.2)
    end) fuel (c, d).

(** ** Setup *)

(** The report on [ready_tx] and whether setup succeeded; [bind] and
    [signal] are the answers of the kernel to [bind_with_config] and
    [UnixStream::from_std]. *)
Definition run_worker_setup (id : Z) (bind signal : io_result unit) :
    (Z * result unit Error) * bool :=
  match bind with
  | Err e => ((id, Err (Io e)), false)
  | Ok _ =>
      match signal with
      | Err e => ((id, Err (Io e)), false)
      | Ok _ => ((id, Ok tt), true)
      end
  end.

(** [go_rx.recv()]: [None] is a disconnected sender. *)
Definition passes_go (go : option bool) : bool :=
  match go with Some true => true | Some false | None => false end.

(** ** After go *)

Inductive Phase := Accepting | Draining | ForceClosing | Flushing | Exited.

Inductive WorkerLog :=
| WarnLimit | InfoAccepted (active total : Z) | ErrorAccept | InfoDraining (active : Z)
| WarnForceClose (active : Z) | DebugClient.

Record Worker := {
  phase : Phase;
  state : WorkerState;
  post_go : PostGoFlag;
  shutdown_requested : bool;
  connection_counter : Z;
  sessions : list Z;           (* the spawned connection tasks *)
  channel_sys : Running;       (* the event channel and the waits on it *)
  delivery : Delivery;
  backoffs : list Z;
  worker_log : list WorkerLog
}.

Definition worker_init (config : BrokerConfig) (id dropped : Z) : Worker :=
  {| phase := Accepting;
     state := WorkerState_new id (max_connections_per_worker config);
     post_go := PostGoFlag_arm PostGoFlag_unarmed;
     shutdown_requested := false;
     connection_counter := 0;
     sessions := [];
     channel_sys := {| ch := event_channel dropped; holds := []; outcomes := []; received := [];
                       rx_alive := true |};
     delivery := {| calls := []; traced := [] |};
     backoffs := [];
     worker_log := [] |}.

(** [run_worker] up to the accept loop: the ready report, and the running
    worker if go was given. *)
Definition run_worker_start (config : BrokerConfig) (id dropped : Z) (bind signal : io_result unit)
    (go : option bool) : (Z * result unit Error) * option Worker :=
  let '(report, ok) := run_worker_setup id bind signal in
  (report, if ok && passes_go go then Some (worker_init config id dropped) else None).

Definition set_phase (w : Worker) (p : Phase) (log : list WorkerLog) : Worker :=
  {| phase := p; state := state w; post_go := post_go w; shutdown_requested := shutdown_requested w;
     connection_counter := connection_counter w; sessions := sessions w; channel_sys := channel_sys w;
     delivery := delivery w; backoffs := backoffs w; worker_log := worker_log w ++ log |}.

(** Leaving the accept loop. *)
Definition stop_accepting (w : Worker) : Worker :=
  set_phase w Draining [InfoDraining (active_count (state w))].

(** [Ok((stream, addr))] from [cancelable_accept]. *)
Definition on_accept (w : Worker) : Worker :=
  if shutdown_requested w then stop_accepting w
  else match WorkerState_try_acquire (state w) with
  | (false, _) => set_phase w Accepting [WarnLimit]
  | (true, st) =>
      let counter := wrap64 (connection_counter w + 1) in
      {| phase := Accepting; state := st; post_go := post_go w; shutdown_requested := false;
         connection_counter := counter;
         sessions := sessions w ++ [counter];
         channel_sys := channel_sys w; delivery := delivery w; backoffs := backoffs w;
         worker_log := if counter mod ACCEPTED_LOG_EVERY =? 0
                       then worker_log w ++ [InfoAccepted (active_count st) counter]
                       else worker_log w |}
  end.

(** [Err(e)] from [cancelable_accept]. *)
Definition on_accept_error (w : Worker) : Worker :=
  if shutdown_requested w then stop_accepting w
  else {| phase := Accepting; state := state w; post_go := post_go w; shutdown_requested := false;
          connection_counter := connection_counter w; sessions := sessions w;
          channel_sys := channel_sys w; delivery := delivery w;
          backoffs := backoffs w ++ [ACCEPT_ERROR_BACKOFF];
          worker_log := worker_log w ++ [ErrorAccept] |}.

(** The watcher: any completion on the shutdown stream. *)
Definition on_signal (w : Worker) : Worker :=
  {| phase := phase w; state := state w; post_go := post_go w; shutdown_requested := true;
     connection_counter := connection_counter w; sessions := sessions w; channel_sys := channel_sys w;
     delivery := delivery w; backoffs := backoffs w; worker_log := worker_log w |}.

(** The end of a connection task: [None] is the abort arm of its select. *)
Definition settle_session (st : WorkerState) (res : option (result SessionOutcome Error)) : WorkerState :=
  match res with
  | Some (Ok Refused) => note_refused st
  | Some (Ok Served) => st
  | Some (Ok ViolationOutcome) => note_violation st
  | Some (Err _) | None => st
  end.

Definition on_session_end (w : Worker) (rest : list Z) (res : option (result SessionOutcome Error)) : Worker :=
  {| phase := phase w; state := WorkerState_release (settle_session (state w) res); post_go := post_go w;
     shutdown_requested := shutdown_requested w; connection_counter := connection_counter w;
     sessions := rest; channel_sys := channel_sys w; delivery := delivery w; backoffs := backoffs w;
     worker_log := match res with
                   | Some (Err e) => if is_routine_disconnect e then worker_log w else worker_log w ++ [DebugClient]
                   | _ => worker_log w
                   end |}.

(** The drain deadline passed: [abort.close()]. *)
Definition on_drain_timeout (w : Worker) : Worker :=
  set_phase w ForceClosing [WarnForceClose (active_count (state w))].

(** [done_rx.recv()] answered [None]: every session is gone, the master
    sender is dropped. *)
Definition on_drained (w : Worker) : Worker := set_phase w Flushing [].

Definition with_channel (w : Worker) (c : Running) (d : Delivery) : Worker :=
  {| phase := phase w; state := state w; post_go := post_go w; shutdown_requested := shutdown_requested w;
     connection_counter := connection_counter w; sessions := sessions w; channel_sys := c;
     delivery := d; backoffs := backoffs w; worker_log := worker_log w |}.

(** The processor took one publish out. *)
Definition received_one (c : Running) (p : Publish) (e : EventChannel) : Running :=
  {| ch := e; holds := holds c; outcomes := outcomes c; received := received c ++ [p]; rx_alive := rx_alive c |}.

(** [processor.await] once every sender is gone and the queue is empty: the
    processor sees the end and drops the receiver. *)
Definition on_processor_done (w : Worker) (e : EventChannel) : Worker :=
  let c := channel_sys w in
  set_phase (with_channel w
    {| ch := EventReceiver_drop e; holds := holds c; outcomes := outcomes c; received := received c;
       rx_alive := false |} (delivery w)) Exited [].

(** ** Interleaving *)

(** The steps of [chan_step] a session takes; the receiver belongs to the
    processor. *)
Definition session_channel_step (c c' : Running) : Prop :=
  chan_step (Run c) (Run c') /\ received c' = received c /\ rx_alive c' = rx_alive c.

(** [ws_session_end] is every way a session ends: its peer, its own error or
    deadline, or the force-close of the drain. *)
Inductive worker_step (has_callback : bool) : Worker -> Worker -> Prop :=
| ws_accept w : phase w = Accepting -> worker_step has_callback w (on_accept w)
| ws_accept_error w : phase w = Accepting -> worker_step has_callback w (on_accept_error w)
| ws_signal w : phase w <> Exited -> worker_step has_callback w (on_signal w)
| ws_channel w c :
    session_channel_step (channel_sys w) c -> (length (holds c) <= length (sessions w))%nat ->
    sessions w <> [] -> worker_step has_callback w (with_channel w c (delivery w))
| ws_session_end w l1 id l2 res :
    sessions w = l1 ++ id :: l2 -> (length (holds (channel_sys w)) <= length (l1 ++ l2))%nat ->
    worker_step has_callback w (on_session_end w (l1 ++ l2) (Some res))
| ws_abort w l1 id l2 :
    phase w = ForceClosing -> sessions w = l1 ++ id :: l2 ->
    (length (holds (channel_sys w)) <= length (l1 ++ l2))%nat ->
    worker_step has_callback w (on_session_end w (l1 ++ l2) None)
| ws_deliver w p e :
    phase w <> Exited -> recv (ch (channel_sys w)) = (Some p, e) ->
    worker_step has_callback w
      (with_channel w (received_one (channel_sys w) p e) (deliver has_callback (delivery w) p))
| ws_drain_timeout w :
    phase w = Draining -> sessions w <> [] -> worker_step has_callback w (on_drain_timeout w)
| ws_drained w :
    phase w = Draining \/ phase w = ForceClosing -> sessions w = [] ->
    worker_step has_callback w (on_drained w)
| ws_exit w e :
    phase w = Flushing -> recv (ch (channel_sys w)) = (None, e) ->
    worker_step has_callback w (on_processor_done w e).

Definition worker_reachable (has_callback : bool) (config : BrokerConfig) (id dropped : Z) (w : Worker) : Prop :=
  rtc (worker_step has_callback) (worker_init config id dropped) w.
End Worker.

Section WorkerInvariant.
Context `{LocalSyncSpec}.
Context (has_callback : bool) (config : BrokerConfig) (id total : Z).
Hypothesis Hmax : u64 (max_connections_per_worker config).

(** The processor's deliveries are exactly what it took out of the channel. *)
Definition delivered_ok (d : Delivery) (taken : list Publish) : Prop :=
  if has_callback then calls d = taken /\ traced d = [] else traced d = taken /\ calls d = [].

Record worker_ok (w : Worker) : Prop := {
  wo_chan : sys_ok total (Run (channel_sys w));
  wo_rx : rx_alive (channel_sys w) = true <-> phase w <> Exited;
  wo_active : active_connections (state w) = Z.of_nat (length (sessions w));
  wo_max : max_connections (state w) = max_connections_per_worker config;
  wo_limit : Z.of_nat (length (sessions w)) <= max_connections_per_worker config;
  wo_holds : (length (holds (channel_sys w)) <= length (sessions w))%nat;
  wo_gone : phase w = Flushing \/ phase w = Exited -> sessions w = [];
  wo_signal : phase w <> Accepting -> shutdown_requested w = true;
  wo_delivered : delivered_ok (delivery w) (received (channel_sys w));
  wo_exited : phase w = Exited -> contents (queue (ch (channel_sys w))) = []
}.

Lemma settle_session_state st res :
  active_connections (settle_session st res) = active_connections st /\
  max_connections (settle_session st res) = max_connections st.
Proof. by destruct res as [[[]|]|]. Qed.

Lemma deliver_ok d taken p : delivered_ok d taken -> delivered_ok (deliver has_callback d p) (taken ++ [p]).
Proof. unfold delivered_ok, deliver. destruct has_callback; simpl; intros [-> ->]; done. Qed.

Lemma worker_init_ok : worker_ok (worker_init config id total).
Proof.
  unfold u_range in Hmax. split; simpl; try done; try lia; try (by intros [|]).
  - destruct (event_channel_ok total) as [? ->]. done.
  - unfold delivered_ok. by destruct has_callback.
Qed.

Lemma set_phase_ok w p log :
  worker_ok w -> phase w <> Exited -> p <> Exited ->
  (p <> Accepting -> shutdown_requested w = true) -> (p = Flushing -> sessions w = []) ->
  worker_ok (set_phase w p log).
Proof.
  intros [] Hw Hp Hs Hf. split; simpl; auto.
  - split; [done|]. intros _. by apply wo_rx0.
  - by intros [|]; auto.
  - by intros ?%Hp.
Qed.

Lemma stop_accepting_ok w : worker_ok w -> phase w = Accepting -> shutdown_requested w = true ->
  worker_ok (stop_accepting w).
Proof. intros Hok Hp Hs. apply set_phase_ok; congruence || done. Qed.

Lemma on_accept_ok w : worker_ok w -> phase w = Accepting -> worker_ok (on_accept w).
Proof.
  intros Hok Hp. pose proof Hok as []. unfold on_accept, u_range in *.
  destruct (shutdown_requested w) eqn:Es; [by apply stop_accepting_ok|].
  unfold WorkerState_try_acquire. destruct (Z.leb_spec (max_connections (state w)) (active_connections (state w))).
  - apply set_phase_ok; congruence || done.
  - rewrite Hp in *. split; simpl; rewrite ?length_app; simpl; try done; try lia; try (by intros [|]).
    rewrite wrap_small; lia.
Qed.

Lemma on_session_end_ok w l1 x l2 res :
  worker_ok w -> sessions w = l1 ++ x :: l2 -> (length (holds (channel_sys w)) <= length (l1 ++ l2))%nat ->
  worker_ok (on_session_end w (l1 ++ l2) res).
Proof.
  intros [] Hs Hh. destruct (settle_session_state (state w) res) as [Ha Hm]. unfold u_range in Hmax.
  assert (length (sessions w) = S (length (l1 ++ l2))) as Hl by (rewrite Hs, !length_app; simpl; lia).
  split; simpl; try done; try lia; [rewrite Ha, wrap_small; lia|].
  intros Hx. specialize (wo_gone0 Hx). by rewrite wo_gone0 in Hl.
Qed.

Lemma worker_step_ok w w' : worker_ok w -> worker_step has_callback w w' -> worker_ok w'.
Proof.
  intros Hok Hstep. destruct Hstep.
  - by apply on_accept_ok.
  - unfold on_accept_error. destruct (shutdown_requested w) eqn:Es; [by apply stop_accepting_ok|].
    destruct Hok. rewrite H1 in *. split; simpl; by try intros [|].
  - destruct Hok. by split.
  - destruct Hok, H1 as (Hc & Hr & Ha). split; simpl; try done.
    + exact (chan_step_ok total _ _ wo_chan0 Hc).
    + by rewrite Ha.
    + by rewrite Hr.
    + intros He. specialize (wo_gone0 (or_intror He)). done.
  - by eapply on_session_end_ok.
  - by eapply on_session_end_ok.
  - destruct Hok. assert (rx_alive (channel_sys w) = true) as Ha by (by apply wo_rx0).
    split; simpl; try done; [|by apply deliver_ok].
    assert (chan_step (Run (channel_sys w)) (Run (received_one (channel_sys w) p e))) as Hc.
    { unfold received_one. rewrite Ha. by apply step_recv. }
    exact (chan_step_ok total _ _ wo_chan0 Hc).
  - apply set_phase_ok; [done|congruence|done| |done]. intros _. apply Hok. congruence.
  - assert (phase w <> Accepting /\ phase w <> Exited) as [? ?] by (destruct H1; split; congruence).
    apply set_phase_ok; [done..| |done]. intros _. by apply Hok.
  - destruct Hok. rewrite H1 in *. assert (rx_alive (channel_sys w) = true) as Ha by (by apply wo_rx0).
    destruct wo_chan0 as (Hc & Hh & Hb & Hn). rewrite Ha in Hc.
    pose proof (recv_ok true (received (channel_sys w)) _ _ _ Hc H2) as (Hc' & Hb' & He).
    destruct (EventReceiver_drop_ok (received (channel_sys w)) e Hc') as [Hd Hbd].
    rewrite app_nil_r in Hb'.
    split; simpl; try done; [|auto|by intros _; apply wo_signal0|].
    + split_and!; [done|done| |done]. by rewrite Hbd, Hb'.
    + intros _. apply (f_equal entered) in Hb'. simpl in Hb'. rewrite (He eq_refl), app_nil_r in Hb'.
      destruct (rx_close_spec _ (queue e)) as [_ ->].
      apply (app_inv_head (received (channel_sys w))). by rewrite app_nil_r.
Qed.

Lemma worker_reachable_ok w : worker_reachable has_callback config id total w -> worker_ok w.
Proof.
  unfold worker_reachable. intros Hr. pose proof worker_init_ok as Hi. revert Hi.
  induction Hr; intros Hi; [done|]. eauto using worker_step_ok.
Qed.

(** ** Shutdown makes progress *)

Abbreviation runs := (rtc (worker_step has_callback)).

Lemma runs_ok w w' : worker_ok w -> runs w w' -> worker_ok w'.
Proof. intros Hok. induction 1; eauto using worker_step_ok. Qed.

Lemma abandon_holds w :
  worker_ok w -> phase w = ForceClosing ->
  exists w', runs w w' /\ phase w' = ForceClosing /\ holds (channel_sys w') = [].
Proof.
  remember (length (holds (channel_sys w))) as n eqn:Hn. revert w Hn.
  induction n as [|n IH]; intros w Hn Hok Hp; destruct (holds (channel_sys w)) as [|h l] eqn:Eh; try done.
  { exists w. split; [constructor|done]. }
  pose proof Hok as []. destruct wo_chan0 as (Hc & Hh & _ & _). rewrite Eh in Hh.
  apply Forall_cons in Hh as [[Hnc Hns] Hl].
  destruct (SlotWait_drop_ok (rx_alive (channel_sys w)) [] (ch (channel_sys w)) (h_publish h) (h_slot h))
    as (c & Hdrop & _); [done|congruence|].
  pose (c' := {| ch := c; holds := l; outcomes := outcomes (channel_sys w) ++ [(h_publish h, None)];
                 received := received (channel_sys w); rx_alive := rx_alive (channel_sys w) |}).
  assert (worker_step has_callback w (with_channel w c' (delivery w))) as Hstep.
  { apply ws_channel; [split; [|done]| |].
    - pose proof (step_abandon (channel_sys w) [] h l Eh) as Ha. by rewrite Hdrop in Ha.
    - simpl. rewrite Eh in wo_holds0. simpl in wo_holds0. lia.
    - intros Hs. rewrite Eh, Hs in wo_holds0. simpl in wo_holds0. lia. }
  destruct (IH (with_channel w c' (delivery w))) as (w' & Hr & Hp' & Hh').
  - simpl in *. lia.
  - by eapply worker_step_ok.
  - done.
  - exists w'. split; [by eapply rtc_l|done].
Qed.

Lemma abort_sessions w :
  worker_ok w -> phase w = ForceClosing -> holds (channel_sys w) = [] ->
  exists w', runs w w' /\ phase w' = ForceClosing /\ sessions w' = [].
Proof.
  remember (sessions w) as l eqn:El. revert w El. induction l as [|x l IH]; intros w El Hok Hp Hh.
  { exists w. split; [constructor|done]. }
  assert (worker_step has_callback w (on_session_end w l None)) as Hstep.
  { apply (ws_abort has_callback w [] x l); [done|done|]. rewrite Hh. simpl. lia. }
  destruct (IH (on_session_end w l None)) as (w' & Hr & Hw'); [done|by eapply worker_step_ok|done|done|].
  exists w'. split; [by eapply rtc_l|done].
Qed.

Lemma deliver_queue w :
  worker_ok w -> phase w = Flushing -> exists w', runs w w' /\ phase w' = Exited.
Proof.
  remember (length (contents (queue (ch (channel_sys w))))) as n eqn:Hn. revert w Hn.
  induction n as [|n IH]; intros w Hn Hok Hp; pose proof Hok as [(Hc & _) _ _ _ _ _ _ _ _ _];
    destruct (recv (ch (channel_sys w))) as [[p|] e] eqn:Er;
    pose proof (recv_ok _ [] _ _ _ Hc Er) as (_ & Hb & He);
    apply (f_equal entered) in Hb; simpl in Hb.
  - rewrite <- Hb in Hn. by simpl in Hn.
  - exists (on_processor_done w e). split; [|done]. by apply rtc_once, ws_exit.
  - edestruct IH as (w' & Hr & Hw'); [| | |exists w'; split; [eapply rtc_l; [by eapply ws_deliver; [congruence|]|done]|done]].
    + simpl. rewrite <- Hb in Hn. simpl in Hn. lia.
    + eapply worker_step_ok; [done|]. by eapply ws_deliver; [congruence|].
    + done.
  - rewrite (He eq_refl) in Hn. done.
Qed.

Lemma drained_exits w :
  worker_ok w -> phase w = Draining \/ phase w = ForceClosing -> sessions w = [] ->
  exists w', runs w w' /\ phase w' = Exited.
Proof.
  intros Hok Hp Hs. assert (worker_step has_callback w (on_drained w)) as Hstep by (by apply ws_drained).
  destruct (deliver_queue (on_drained w)) as (w' & Hr & Hw'); [by eapply worker_step_ok|done|].
  exists w'. split; [by eapply rtc_l|done].
Qed.

Lemma force_closed_exits w :
  worker_ok w -> phase w = ForceClosing -> exists w', runs w w' /\ phase w' = Exited.
Proof.
  intros Hok Hp. destruct (abandon_holds w Hok Hp) as (w1 & Hr1 & Hp1 & Hh1).
  pose proof (runs_ok _ _ Hok Hr1) as Hok1.
  destruct (abort_sessions w1 Hok1 Hp1 Hh1) as (w2 & Hr2 & Hp2 & Hs2).
  destruct (drained_exits w2 (runs_ok _ _ Hok1 Hr2) (or_intror Hp2) Hs2) as (w3 & Hr3 & Hp3).
  exists w3. split; [|done]. by do 2 (etrans; [done|]).
Qed.

Lemma draining_exits w : worker_ok w -> phase w = Draining -> exists w', runs w w' /\ phase w' = Exited.
Proof.
  intros Hok Hp. destruct (sessions w) as [|x l] eqn:Es; [apply drained_exits; auto|].
  assert (worker_step has_callback w (on_drain_timeout w)) as Hstep by (apply ws_drain_timeout; congruence).
  destruct (force_closed_exits (on_drain_timeout w)) as (w' & Hr & Hw'); [by eapply worker_step_ok|done|].
  exists w'. split; [by eapply rtc_l|done].
Qed.

Lemma shutdown_exits w :
  worker_ok w -> shutdown_requested w = true -> exists w', runs w w' /\ phase w' = Exited.
Proof.
  intros Hok Hs. destruct (phase w) eqn:Hp; [|by apply draining_exits|by apply force_closed_exits
    |by apply deliver_queue|exists w; split; [constructor|done]].
  assert (worker_step has_callback w (stop_accepting w)) as Hstep.
  { pose proof (ws_accept_error has_callback w Hp) as Ha. unfold on_accept_error in Ha. by rewrite Hs in Ha. }
  destruct (draining_exits (stop_accepting w)) as (w' & Hr & Hw'); [by eapply worker_step_ok|done|].
  exists w'. split; [by eapply rtc_l|done].
Qed.
End WorkerInvariant.

Section WorkerClaims.
Context `{LocalSyncSpec}.

(** (C12) Connection slots: in every reachable state the counter is the
    number of live connection tasks and never exceeds the configured limit
    (so [release] never underflows), and a step that starts a connection
    does so below the limit, while accepting, and before shutdown was
    requested. *)
Theorem worker_slots has_callback config id total w :
  u64 (max_connections_per_worker config) -> worker_reachable has_callback config id total w ->
  active_count (state w) = Z.of_nat (length (sessions w)) /\
  0 <= active_count (state w) <= max_connections_per_worker config /\
  forall w', worker_step has_callback w w' -> (length (sessions w) < length (sessions w'))%nat ->
    phase w = Accepting /\ shutdown_requested w = false /\
    active_count (state w) < max_connections_per_worker config.
Proof.
  intros Hmax Hr. apply (worker_reachable_ok _ _ _ _ Hmax) in Hr. pose proof Hr as [].
  unfold active_count. split; [done|]. split; [lia|].
  intros w' Hstep Hlt. destruct Hstep; simpl in *; try lia;
    try (rewrite H1 in Hlt; rewrite !length_app in Hlt; simpl in Hlt; lia);
    try (rewrite H2 in Hlt; rewrite !length_app in Hlt; simpl in Hlt; lia).
  - unfold on_accept in Hlt. destruct (shutdown_requested w); [simpl in Hlt; lia|].
    split; [done|]. split; [done|]. unfold WorkerState_try_acquire in Hlt.
    destruct (Z.leb_spec (max_connections (state w)) (active_connections (state w))); simpl in Hlt; lia.
  - unfold on_accept_error in Hlt. destruct (shutdown_requested w); simpl in Hlt; lia.
Qed.

(** (C8) Nothing admitted is lost at exit: a worker that has exited has no
    session, no wait in progress and an empty queue, and the callback was
    called (or, without one, the publish traced) exactly once for every
    publish that was ever enqueued, in the order they were enqueued. *)
Theorem worker_delivers_all has_callback config id total w :
  u64 (max_connections_per_worker config) -> worker_reachable has_callback config id total w ->
  phase w = Exited ->
  sessions w = [] /\ holds (channel_sys w) = [] /\ contents (queue (ch (channel_sys w))) = [] /\
  (if has_callback then calls (delivery w) else traced (delivery w)) =
    enqueued_of (outcomes (channel_sys w)).
Proof.
  intros Hmax Hr Hp. apply (worker_reachable_ok _ _ _ _ Hmax) in Hr as [].
  pose proof (wo_gone0 (or_intror Hp)) as Hs. pose proof (wo_exited0 Hp) as Hq.
  split; [done|]. split; [apply nil_length_inv; rewrite Hs in wo_holds0; simpl in wo_holds0; lia|].
  split; [done|]. destruct wo_chan0 as (_ & _ & Hb & _). apply (f_equal entered) in Hb.
  rewrite books_entered in Hb. simpl in Hb. rewrite Hq, app_nil_r in Hb. rewrite <- Hb.
  unfold delivered_ok in wo_delivered0. by destruct has_callback; destruct wo_delivered0.
Qed.

(** (C11) Shutdown completes: from every reachable state in which shutdown
    has been requested the worker can run to its exit, whatever sessions and
    held publishes it has; and once it has been requested no step starts a
    connection or goes back to accepting. *)
Theorem worker_shutdown_completes has_callback config id total w :
  u64 (max_connections_per_worker config) -> worker_reachable has_callback config id total w ->
  shutdown_requested w = true ->
  (exists w', rtc (worker_step has_callback) w w' /\ phase w' = Exited) /\
  forall w', worker_step has_callback w w' ->
    shutdown_requested w' = true /\ (length (sessions w') <= length (sessions w))%nat /\
    (phase w <> Accepting -> phase w' <> Accepting).
Proof.
  intros Hmax Hr Hs. apply (worker_reachable_ok _ _ _ _ Hmax) in Hr. split; [by eapply shutdown_exits|].
  intros w' Hstep. destruct Hstep; simpl; try (by split_and!);
    try (rewrite ?H1, ?H2, !length_app; simpl; split_and!; [done|lia|done]).
  - unfold on_accept. rewrite Hs. simpl. by rewrite H1.
  - unfold on_accept_error. rewrite Hs. simpl. by rewrite H1.
Qed.

(** The event processor: given more fuel than there are queued
    publishes it returns, having delivered exactly the queued publishes in
    order and left the queue empty with every slot free again. *)
Theorem process_events_drains has_callback alive c d fuel :
  chan_ok 0 alive c -> (length (contents (queue c)) < fuel)%nat ->
  exists c' d', process_events fuel has_callback c d = Some (c', d') /\
    contents (queue c') = [] /\ unclaimed (room c') = EVENT_CHANNEL_CAPACITY /\
    calls d' = (if has_callback then calls d ++ contents (queue c) else calls d) /\
    traced d' = (if has_callback then traced d else traced d ++ contents (queue c)).
Proof.
  revert c d. induction fuel as [|n IH]; intros c d Hok Hlt; [lia|].
  unfold process_events. rewrite loop_S. cbn [fst snd]. destruct (recv c) as [[p|] c1] eqn:Er;
    pose proof (recv_ok _ [] _ _ _ Hok Er) as (Hok1 & Hb & He);
    apply (f_equal entered) in Hb; simpl in Hb.
  - rewrite <- Hb in *. simpl in Hlt.
    destruct (IH c1 (deliver has_callback d p) Hok1) as (c' & d' & Hp & Hc & Hu & Hca & Htr); [lia|].
    exists c', d'. unfold process_events in Hp. rewrite Hp. split_and!; [done..| |].
    + rewrite Hca. unfold deliver. destruct has_callback; simpl; [by rewrite <- app_assoc|done].
    + rewrite Htr. unfold deliver. destruct has_callback; simpl; [done|by rewrite <- app_assoc].
  - rewrite (He eq_refl) in *. exists c1, d. rewrite !app_nil_r. destruct Hok1.
    split_and!; [done|done| |by destruct has_callback..]. rewrite Hb in ok_depth. simpl in ok_depth. lia.
Qed.
End WorkerClaims.

(** ** Witnesses *)

Section Witnesses.
#[local] Existing Instances FifoSync.ops FifoSync.spec.

Definition sample_config : BrokerConfig := BrokerConfig_default.
Definition w0 : Worker := worker_init sample_config 0 0.
Definition w1 : Worker := on_accept w0.
Definition w2 : Worker := on_signal w1.
Definition w3 : Worker := on_session_end w2 [] (Some (Ok Served)).
Definition w4 : Worker := on_drained (on_accept w3).
Definition w5 : Worker := on_processor_done w4 (recv (ch (channel_sys w4))).2.

Lemma sample_limit : u64 (max_connections_per_worker sample_config).
Proof. unfold u_range; simpl. unfold DEFAULT_MAX_CONNECTIONS_PER_WORKER. lia. Qed.

Lemma w1_reachable : worker_reachable true sample_config 0 0 w1.
Proof. apply rtc_once, ws_accept. reflexivity. Qed.

Lemma w2_reachable : worker_reachable true sample_config 0 0 w2.
Proof. eapply rtc_r; [apply w1_reachable|]. by apply ws_signal. Qed.

Lemma w5_reachable : worker_reachable true sample_config 0 0 w5.
Proof.
  eapply rtc_r; [eapply rtc_r; [eapply rtc_r; [eapply rtc_r; [apply w2_reachable|]|]|]|].
  - eapply (ws_session_end true w2 [] 1 []); [reflexivity|simpl; lia].
  - apply ws_accept. reflexivity.
  - apply ws_drained; [left; reflexivity|reflexivity].
  - apply ws_exit; [reflexivity|]. reflexivity.
Qed.

Lemma worker_slots_witness : active_count (state w1) = 1.
Proof. destruct (worker_slots true sample_config 0 0 w1 sample_limit w1_reachable) as [H _]. exact H. Defined.

Lemma worker_delivers_all_witness : calls (delivery w5) = enqueued_of (outcomes (channel_sys w5)).
Proof.
  destruct (worker_delivers_all true sample_config 0 0 w5 sample_limit w5_reachable) as (_ & _ & _ & H);
    [reflexivity|exact H].
Defined.

Lemma worker_shutdown_completes_witness :
  exists w', rtc (worker_step true) w2 w' /\ phase w' = Exited.
Proof.
  destruct (worker_shutdown_completes true sample_config 0 0 w2 sample_limit w2_reachable) as [H _];
    [reflexivity|exact H].
Defined.

Lemma process_events_drains_witness :
  exists c' d', process_events 1 true (event_channel 0) {| calls := []; traced := [] |} = Some (c', d') /\
    contents (queue c') = [] /\ unclaimed (room c') = EVENT_CHANNEL_CAPACITY /\ calls d' = [] /\ traced d' = [].
Proof.
  destruct (process_events_drains true true (event_channel 0) {| calls := []; traced := [] |} 1)
    as (c' & d' & H1 & H2 & H3 & H4 & H5); [apply event_channel_ok|simpl; lia|].
  exists c', d'. split_and!; [exact H1|exact H2|exact H3|exact H4|exact H5].
Defined.
End Witnesses.
