(* ===== verification/Broker.v ===== *)
(** * Startup, shutdown and join

    [ShutdownHandle], [BrokerHandle], [WorkerExitGuard], [supervise_startup]
    and [MqttBroker::start_with_callback] of src/broker/mod.rs.  The kernel's
    answers (socket pairs, threads, runtimes, listeners) are arguments; a
    socket end is a number and dropping it is the end-of-file its worker's
    watcher sees. *)

From S2P Require Import Prelude FixedHeader Rmqtt Errors Packet Handshake Api Channel Runtime Session Worker.

(** ** The shutdown trigger

    Every clone of a [ShutdownHandle] shares one mutex-protected option; the
    state below is what it protects, with the ends dropped so far and the log
    lines. *)

Inductive BrokerLog := InfoSignaled | ErrorWorkerExited (id : Z) | ErrorPanicked | WarnDropPanicked
  | WarnDropError | WarnStartup (id : Z) | ErrorAbortPanicked.

Record Trigger := {
  signal_ends : option (list Z);
  closed_ends : list Z;
  trigger_log : list BrokerLog
}.

Definition take_signal_ends (t : Trigger) : option (list Z) * Trigger :=
  (signal_ends t, {| signal_ends := None; closed_ends := closed_ends t; trigger_log := trigger_log t |}).

(** [drop(taken)], after the line logged when there was something to take. *)
Definition drop_taken (taken : option (list Z)) (line : BrokerLog) (t : Trigger) : Trigger :=
  match taken with
  | Some ends => {| signal_ends := signal_ends t; closed_ends := closed_ends t ++ ends;
                    trigger_log := trigger_log t ++ [line] |}
  | None => t
  end.

Definition shutdown (t : Trigger) : Trigger :=
  let '(taken, t) := take_signal_ends t in drop_taken taken InfoSignaled t.

(** [Drop for WorkerExitGuard]. *)
Definition WorkerExitGuard_drop (id : Z) (post_go : PostGoFlag) (t : Trigger) : Trigger :=
  if negb (is_armed post_go) then t
  else let '(taken, t) := take_signal_ends t in drop_taken taken (ErrorWorkerExited id) t.

(** ** The running broker *)

(** What [JoinHandle::join] answers: [None] is a panicked thread. *)
Definition ThreadResult : Type := option (result unit Error).

Definition sum_counters (counters : list Z) : Z := wrap64 (foldr Z.add 0 counters).

Record BrokerHandle := {
  trigger : Trigger;
  handles : list Z;
  dropped_counters : list Z
}.

Definition is_running (finished : Z -> bool) (self : BrokerHandle) : bool :=
  negb (existsb finished (handles self)).

Definition dropped_publishes (self : BrokerHandle) : Z := sum_counters (dropped_counters self).

Definition shutdown_handle (self : BrokerHandle) : Trigger := trigger self.

Definition BrokerHandle_shutdown (self : BrokerHandle) : BrokerHandle :=
  {| trigger := shutdown (trigger self); handles := handles self; dropped_counters := dropped_counters self |}.

(** The handle of [dropped_publishes_handle] reads the same counters. *)
Definition dropped_publishes_handle (self : BrokerHandle) : list Z := dropped_counters self.
Definition DroppedPublishesHandle_total (counters : list Z) : Z := sum_counters counters.

Definition or_else {A} (a b : option A) : option A := match a with Some _ => a | None => b end.

Definition worker_panicked : Error := Errors.Worker "worker thread panicked".

(** [join]: the threads' answers in order. *)
Fixpoint join_workers (worker_err : option Error) (results : list ThreadResult) :
    option Error * list BrokerLog :=
  match results with
  | [] => (worker_err, [])
  | None :: results =>
      let '(e, log) := join_workers (or_else worker_err (Some worker_panicked)) results in
      (e, ErrorPanicked :: log)
  | Some (Err e) :: results => join_workers (or_else worker_err (Some e)) results
  | Some (Ok _) :: results => join_workers worker_err results
  end.

Definition join (results : list ThreadResult) : result unit Error :=
  match (join_workers None results).1 with None => Ok tt | Some e => Err e end.

(** [Drop for BrokerHandle]: signal, then join what is left. *)
Definition BrokerHandle_drop (t : Trigger) (results : list ThreadResult) : Trigger * list BrokerLog :=
  (shutdown t,
   omap (fun r => match r with
                  | None => Some WarnDropPanicked
                  | Some (Err _) => Some WarnDropError
                  | Some (Ok _) => None
                  end) results).

(** [join] consumes the handle, so the handle is dropped with no thread left
    to join. *)
Definition BrokerHandle_join (self : BrokerHandle) (results : list ThreadResult) : result unit Error * Trigger :=
  (join results, (BrokerHandle_drop (trigger self) []).1).

(** ** Startup *)

(** The reports in the order they arrive; the end of the list is the
    disconnect of [ready_rx].  The answer, and the decision sent to every go
    sender. *)
Fixpoint supervise_startup (ready : list (Z * result unit Error)) (count num_workers : Z) :
    result unit Error * bool * list BrokerLog :=
  match ready with
  | [] => (Err (Errors.Worker "worker exited before reporting startup result"), false, [])
  | (_, Ok _) :: ready =>
      let count := wrap64 (count + 1) in
      if count =? num_workers then (Ok tt, true, []) else supervise_startup ready count num_workers
  | (id, Err e) :: _ => (Err e, false, [WarnStartup id])
  end.

Definition worker_count (config : BrokerConfig) (available_parallelism : option Z) : Z :=
  match num_workers config with
  | Some n => n
  | None => default FALLBACK_NUM_WORKERS available_parallelism
  end.

(** The first [n] answers of the kernel to [UnixStream::pair], or the first
    error. *)
Fixpoint make_pairs (pair : nat -> io_result unit) (n : nat) : result (list Z) Error :=
  match n with
  | O => Ok []
  | S k =>
      match make_pairs pair k with
      | Err e => Err e
      | Ok ends => match pair k with Ok _ => Ok (ends ++ [Z.of_nat k]) | Err e => Err (Io e) end
      end
  end.

(** [std::thread::Builder::spawn] for worker 0, 1, ...: the threads started,
    and the worker that could not be. *)
Fixpoint spawn_workers (spawn : nat -> io_result unit) (n : nat) : list Z * option Z :=
  match n with
  | O => ([], None)
  | S k =>
      match spawn_workers spawn k with
      | (started, Some failed) => (started, Some failed)
      | (started, None) =>
          match spawn k with
          | Ok _ => (started ++ [Z.of_nat k], None)
          | Err _ => (started, Some (Z.of_nat k))
          end
      end
  end.

(** What a start leaves behind: the decision each started worker received
    ([None] before any was sent) and the result. *)
Record Started := { go : option bool; threads : list Z; outcome : result BrokerHandle Error }.

Definition start_with_callback (config : BrokerConfig) (available_parallelism : option Z)
    (pair spawn : nat -> io_result unit) (ready : list (Z * result unit Error)) : Started :=
  let n := worker_count config available_parallelism in
  if n =? 0 then {| go := None; threads := []; outcome := Err (Errors.Worker "num_workers must be at least 1") |}
  else match make_pairs pair (Z.to_nat n) with
  | Err e => {| go := None; threads := []; outcome := Err e |}
  | Ok ends =>
      let t := {| signal_ends := Some ends; closed_ends := []; trigger_log := [] |} in
      let dropped := replicate (Z.to_nat n) 0 in
      match spawn_workers spawn (Z.to_nat n) with
      | (started, Some failed) =>
          {| go := Some false; threads := started;
             outcome := Err (Errors.Worker "failed to spawn worker thread") |}
      | (started, None) =>
          let '(answer, decision, _) := supervise_startup ready 0 n in
          {| go := Some decision; threads := started;
             outcome := match answer with
                        | Ok _ => Ok {| trigger := t; handles := started; dropped_counters := dropped |}
                        | Err e => Err e
                        end |}
      end
  end.

(** [run_with_callback] blocks in [join]: the start, then the threads'
    answers. *)
Definition run_with_callback (config : BrokerConfig) (available_parallelism : option Z)
    (pair spawn : nat -> io_result unit) (ready : list (Z * result unit Error)) (results : list ThreadResult) :
    result unit Error :=
  match outcome (start_with_callback config available_parallelism pair spawn ready) with
  | Err e => Err e
  | Ok handle => (BrokerHandle_join handle results).1
  end.

(** The body of a worker thread up to the accept loop: its report, unless it
    panicked before, and the running worker. *)
Definition worker_thread `{LocalSync} (config : BrokerConfig) (id : Z)
    (runtime bind signal : io_result unit) (go : option bool) :
    (Z * result unit Error) * option Worker :=
  match runtime with
  | Err _ => ((id, Err (Errors.Worker "runtime build failed")), None)
  | Ok _ => run_worker_start config id 0 bind signal go
  end.

(** ** The trigger fires once *)

Inductive TriggerOp := OpShutdown | OpWorkerExit (id : Z) (post_go : PostGoFlag).

Definition trigger_op (t : Trigger) (op : TriggerOp) : Trigger :=
  match op with
  | OpShutdown => shutdown t
  | OpWorkerExit id post_go => WorkerExitGuard_drop id post_go t
  end.

(** An exit before the go barrier does not signal. *)
Definition effective (op : TriggerOp) : bool :=
  match op with OpShutdown => true | OpWorkerExit _ post_go => is_armed post_go end.

Lemma trigger_op_spent t op : signal_ends t = None -> trigger_op t op = t.
Proof.
  destruct t as [s c l]; simpl. intros ->.
  destruct op as [|id g]; simpl; unfold shutdown, WorkerExitGuard_drop; simpl; [done|].
  by destruct (is_armed g).
Qed.

Lemma trigger_ops_spent t ops : signal_ends t = None -> foldl trigger_op t ops = t.
Proof. revert t. induction ops as [|op ops IH]; intros t Ht; simpl; [done|]. rewrite trigger_op_spent by done. by apply IH. Qed.

(** Shutdown is idempotent and fail-fast: whatever shutdown calls, from
    any clone, and worker exits happen in whatever order, the workers' signal
    ends are closed exactly once, all of them, as soon as the first shutdown
    call or the first exit of a worker that had passed the go barrier
    happens, with one log line; exits before the barrier leave the trigger
    untouched. *)
Theorem trigger_fires_once ends ops :
  let t0 := {| signal_ends := Some ends; closed_ends := []; trigger_log := [] |} in
  let t := foldl trigger_op t0 ops in
  if existsb effective ops
  then signal_ends t = None /\ closed_ends t = ends /\ length (trigger_log t) = 1%nat
  else t = t0.
Proof.
  intros t0 t. subst t. induction ops as [|op ops IH]; [done|]. simpl.
  destruct (effective op) eqn:Ee; simpl.
  - assert (signal_ends (trigger_op t0 op) = None /\ closed_ends (trigger_op t0 op) = ends /\
      length (trigger_log (trigger_op t0 op)) = 1%nat) as (Hs & Hc & Hl).
    { destruct op as [|id g]; simpl in *; unfold shutdown, WorkerExitGuard_drop; rewrite ?Ee; done. }
    by rewrite trigger_ops_spent.
  - destruct op as [|id g]; [done|]. simpl in *. unfold WorkerExitGuard_drop. by rewrite Ee.
Qed.

(** ** The startup barrier *)

Definition report_ok (r : Z * result unit Error) : bool := result_is_ok r.2.

Lemma supervise_ok ready count n :
  0 <= count < n -> n < 2 ^ 64 -> forallb report_ok ready = true -> count + Z.of_nat (length ready) = n ->
  (supervise_startup ready count n).1 = (Ok tt, true).
Proof.
  revert count. induction ready as [|[id [u|e]] ready IH]; intros count Hc Hn Hok Hlen;
    cbn [length forallb report_ok] in *; [lia| |done].
  cbn [supervise_startup]. cbv zeta. rewrite wrap_small by lia.
  destruct (Z.eqb_spec (count + 1) n) as [_|Hne]; [done|].
  apply IH; [lia|lia|done|lia].
Qed.

Lemma supervise_fails ready count n :
  0 <= count < n -> n < 2 ^ 64 ->
  forallb report_ok ready = false \/ count + Z.of_nat (length ready) < n ->
  count + Z.of_nat (length ready) <= n ->
  exists e, (supervise_startup ready count n).1 = (Err e, false).
Proof.
  revert count. induction ready as [|[id [u|e]] ready IH]; intros count Hc Hn Hbad Hlen;
    cbn [length forallb report_ok supervise_startup] in *; cbv zeta; [eauto| |eauto].
  rewrite wrap_small by lia. destruct (Z.eqb_spec (count + 1) n) as [Heq|Hne].
  - destruct ready as [|r ready]; simpl in *; [|lia]. destruct Hbad; [done|lia].
  - apply IH; [lia|lia| |lia]. destruct Hbad; [by left|right; lia].
Qed.

(** The reports of [n] workers, each either reporting or panicking first, in
    any order of arrival. *)
Definition arrives (workers : list (option (Z * result unit Error))) (ready : list (Z * result unit Error)) : Prop :=
  ready ≡ₚ omap id workers.

Definition setup_ok (w : option (Z * result unit Error)) : bool :=
  match w with Some r => report_ok r | None => false end.

Lemma arrives_count workers ready : arrives workers ready ->
  (length ready <= length workers)%nat /\
  (forallb setup_ok workers = true <-> forallb report_ok ready = true /\ length ready = length workers).
Proof.
  unfold arrives. intros Hp. rewrite (Permutation_length Hp).
  assert (forallb report_ok ready = forallb report_ok (omap id workers)) as ->.
  { apply eq_true_iff_eq. rewrite !forallb_forall. by setoid_rewrite Hp. }
  clear Hp. induction workers as [|[r|] workers [IHl IH]]; [done| |].
  - change (omap id (Some r :: workers)) with (r :: omap id workers). cbn [length forallb setup_ok].
    split; [lia|]. rewrite !andb_true_iff, IH. split; [intros (? & ? & ?)|intros ((? & ?) & ?)]; split_and!; auto; lia.
  - change (omap id (None :: workers)) with (omap id workers). cbn [length forallb setup_ok].
    split; [lia|]. split; [done|]. intros [_ ?]. lia.
Qed.

(** (C19) The startup barrier is all or nothing.  When every socket pair and
    thread could be made, the start succeeds exactly when every worker's setup
    reported success, whatever the order in which reports arrive; then every
    worker gets go and reaches its accept loop, and otherwise none does, also
    when a worker panicked before its report. *)
Theorem startup_all_or_nothing `{LocalSync} config parallelism pair spawn workers ready :
  let n := worker_count config parallelism in
  0 < n < 2 ^ 64 -> Z.of_nat (length workers) = n -> arrives workers ready ->
  (forall k, pair k = Ok tt) -> (forall k, spawn k = Ok tt) ->
  let started := start_with_callback config parallelism pair spawn ready in
  go started = Some (forallb setup_ok workers) /\
  result_is_ok (outcome started) = forallb setup_ok workers /\
  length (threads started) = length workers /\
  forall id runtime bind signal, (worker_thread config id runtime bind signal (go started)).2 <> None <->
    forallb setup_ok workers = true /\ runtime = Ok tt /\ bind = Ok tt /\ signal = Ok tt.
Proof.
  intros n Hn Hlen Harr Hpair Hspawn started. destruct (arrives_count _ _ Harr) as [Hle Hiff].
  assert (make_pairs pair (Z.to_nat n) = Ok (Z.of_nat <$> seq 0 (Z.to_nat n))) as Hp.
  { clear -Hpair. induction (Z.to_nat n) as [|k IH]; [done|]. rewrite seq_S, fmap_app. simpl. by rewrite IH, Hpair. }
  assert (spawn_workers spawn (Z.to_nat n) = (Z.of_nat <$> seq 0 (Z.to_nat n), None)) as Hs.
  { clear -Hspawn. induction (Z.to_nat n) as [|k IH]; [done|]. rewrite seq_S, fmap_app. simpl. by rewrite IH, Hspawn. }
  assert (exists x, (supervise_startup ready 0 n).1 = (x, forallb setup_ok workers) /\
                    result_is_ok x = forallb setup_ok workers) as (x & Hx & Hxr).
  { destruct (forallb setup_ok workers).
    - destruct (proj1 Hiff eq_refl) as [? ?]. exists (Ok tt). split; [|done]. apply supervise_ok; [lia|lia|done|lia]. 
    - destruct (supervise_fails ready 0 n) as [e He]; [lia|lia| |lia|by exists (Err e)].
      destruct (forallb report_ok ready) eqn:Er; [|by left]. right.
      destruct (decide (length ready = length workers)); [|lia]. by assert (false = true) by (by apply Hiff). }
  assert (go started = Some (forallb setup_ok workers) /\ result_is_ok (outcome started) = forallb setup_ok workers /\
    threads started = Z.of_nat <$> seq 0 (Z.to_nat n)) as (Hgo & Hout & Hth).
  { unfold started, start_with_callback. fold n. destruct (Z.eqb_spec n 0); [lia|]. rewrite Hp, Hs.
    destruct (supervise_startup ready 0 n) as [[y d] l]. simpl in Hx. simplify_eq. simpl. by destruct x. }
  rewrite Hgo, Hth. split; [done|]. split; [done|]. split; [rewrite length_fmap, length_seq; lia|].
  intros id0 runtime bind signal. unfold worker_thread, run_worker_start, run_worker_setup.
  destruct runtime as [[]|], bind as [[]|], signal as [[]|], (forallb setup_ok workers); simpl; naive_solver.
Qed.

(** What the socket pairs and the threads cost when the kernel refuses one. *)
Lemma make_pairs_spec pair n :
  match make_pairs pair n with
  | Ok ends => ends = Z.of_nat <$> seq 0 n /\ forall k, (k < n)%nat -> pair k = Ok tt
  | Err e => exists k e', (k < n)%nat /\ pair k = Err e' /\ e = Io e'
  end.
Proof.
  induction n as [|n IH]; cbn [make_pairs]; [by split; [|lia]|].
  destruct (make_pairs pair n) as [ends|e]; [destruct (pair n) as [[]|e'] eqn:E|].
  - destruct IH as [-> Hk]. rewrite seq_S, fmap_app. split; [done|].
    intros k Hlt. destruct (decide (k = n)) as [->|]; [done|]. apply Hk. lia.
  - exists n, e'. split_and!; [lia|done..].
  - destruct IH as (k & e' & ? & ? & ?). exists k, e'. split_and!; [lia|done..].
Qed.

Lemma spawn_workers_spec spawn n :
  match spawn_workers spawn n with
  | (started, None) => started = Z.of_nat <$> seq 0 n /\ forall k, (k < n)%nat -> spawn k = Ok tt
  | (started, Some failed) =>
      exists k e, (k < n)%nat /\ failed = Z.of_nat k /\ spawn k = Err e /\ started = Z.of_nat <$> seq 0 k /\
                  forall j, (j < k)%nat -> spawn j = Ok tt
  end.
Proof.
  induction n as [|n IH]; cbn [spawn_workers]; [by split; [|lia]|].
  destruct (spawn_workers spawn n) as [started [failed|]].
  - destruct IH as (k & e & ? & ? & ? & ? & ?). exists k, e. split_and!; [lia|done..].
  - destruct IH as [-> Hk]. destruct (spawn n) as [[]|e] eqn:E.
    + rewrite seq_S, fmap_app. split; [done|].
      intros k Hlt. destruct (decide (k = n)) as [->|]; [done|]. apply Hk. lia.
    + exists n, e. split_and!; [lia|done..].
Qed.

Lemma supervise_decides ready count n :
  let r := supervise_startup ready count n in
  r.1.2 = result_is_ok r.1.1 /\ (r.1.2 = true -> 0 <= n).
Proof.
  revert count. induction ready as [|[id [u|e]] ready IH]; intros count; cbn [supervise_startup]; [done| |done].
  cbv zeta. destruct (Z.eqb_spec (wrap64 (count + 1)) n) as [<-|]; [|apply IH].
  split; [done|]. intros _. apply Z.mod_pos_bound. lia.
Qed.

Lemma sum_counters_zeros n : sum_counters (replicate n 0) = 0.
Proof. unfold sum_counters. assert (foldr Z.add 0 (replicate n 0) = 0) as -> by (by induction n). done. Qed.

(** A start that fails fails closed, whatever failed: workers are told to
    go exactly when the caller gets a handle, a refused socket pair leaves no
    thread behind, a refused thread aborts exactly the threads started before
    it, and a handle owns one thread, one signal end and one zeroed drop
    counter per worker. *)
Theorem start_fails_closed config parallelism pair spawn ready :
  let n := Z.to_nat (worker_count config parallelism) in
  let started := start_with_callback config parallelism pair spawn ready in
  (go started = Some true <-> result_is_ok (outcome started) = true) /\
  match outcome started with
  | Ok handle =>
      (forall k, (k < n)%nat -> pair k = Ok tt /\ spawn k = Ok tt) /\ (0 < n)%nat /\
      handles handle = Z.of_nat <$> seq 0 n /\ threads started = handles handle /\
      signal_ends (trigger handle) = Some (Z.of_nat <$> seq 0 n) /\
      length (dropped_counters handle) = n /\ dropped_publishes handle = 0
  | Err _ =>
      go started = None /\ threads started = [] \/
      go started = Some false /\ exists k, (k <= n)%nat /\ threads started = Z.of_nat <$> seq 0 k /\
                                 (forall j, (j < k)%nat -> spawn j = Ok tt) /\
                                 ((k < n)%nat -> exists e, spawn k = Err e)
  end.
Proof.
  intros n started. subst started. unfold start_with_callback. set (w := worker_count config parallelism) in *.
  destruct (Z.eqb_spec w 0) as [|Hw]; [by split; [|left]|].
  pose proof (make_pairs_spec pair n) as Hp. fold n. destruct (make_pairs pair n) as [ends|e]; [|by split; [|left]].
  destruct Hp as [-> Hp]. pose proof (spawn_workers_spec spawn n) as Hs.
  destruct (spawn_workers spawn n) as [started [failed|]].
  - destruct Hs as (k & e & Hk & -> & He & -> & Hj). split; [done|]. right. split; [done|].
    exists k. split_and!; [lia|done|done|by eexists].
  - destruct Hs as [-> Hs]. destruct (supervise_decides ready 0 w) as [Hd Hpos].
    destruct (supervise_startup ready 0 w) as [[[[]|e] d] log]; cbn [fst snd] in *; subst d; cbn [go outcome result_is_ok].
    + specialize (Hpos eq_refl). split; [done|]. split_and!; try done; [auto|lia|apply length_replicate|].
      apply sum_counters_zeros.
    + split; [done|]. right. split; [done|]. exists n. split_and!; [lia|done|done|lia].
Qed.

Lemma join_workers_head results we :
  (join_workers we results).1 =
  or_else we (head (omap (fun r : ThreadResult => match r with
    | None => Some worker_panicked | Some (Err e) => Some e | Some (Ok _) => None end) results)).
Proof.
  revert we. induction results as [|[[u|e]|] results IH]; intros we; simpl.
  - by destruct we.
  - apply IH.
  - rewrite IH. by destruct we.
  - specialize (IH (or_else we (Some worker_panicked))).
    destruct (join_workers _ _) as [x l]; simpl in *. rewrite IH. by destruct we.
Qed.

(** [join] reports the first failure in worker order: it succeeds
    exactly when every worker returned successfully, and otherwise answers the
    first worker's error, a panicked thread counting as the error
    [worker thread panicked].  It consumes the handle, so the shutdown trigger
    has fired, for every clone, when it returns. *)
Theorem join_first_error handle results :
  (BrokerHandle_join handle results).1 =
    match omap (fun r : ThreadResult => match r with
                                        | None => Some worker_panicked
                                        | Some (Err e) => Some e
                                        | Some (Ok _) => None
                                        end) results with
    | [] => Ok tt
    | e :: _ => Err e
    end /\
  signal_ends (BrokerHandle_join handle results).2 = None /\
  closed_ends (BrokerHandle_join handle results).2 =
    closed_ends (trigger handle) ++ default [] (signal_ends (trigger handle)).
Proof.
  split_and!.
  - unfold BrokerHandle_join, join. cbn [fst]. rewrite join_workers_head. by destruct (omap _ results).
  - destruct handle as [[[ends|] c l] h d]; done.
  - destruct handle as [[[ends|] c l] h d]; cbn; [done|by rewrite app_nil_r].
Qed.

(** ** Witness *)

Section Witnesses.
#[local] Existing Instances FifoSync.ops.

Definition two_workers : BrokerConfig :=
  {| bind_addr := "0.0.0.0:1883"; max_connections_per_worker := 10; connection_timeout_secs := 10;
     idle_timeout_secs := 300; drain_timeout_secs := 5; ingest_deadline_secs := 5; num_workers := Some 2;
     backlog := 1024; max_inbound_packet_size := MaxInboundPacketSize_DEFAULT |}.

(** Worker 1 reports first, worker 0 panics: no worker runs. *)
Lemma startup_all_or_nothing_witness :
  go (start_with_callback two_workers None (fun _ => Ok tt) (fun _ => Ok tt) [(1, Ok tt)]) = Some false.
Proof.
  apply (startup_all_or_nothing two_workers None (fun _ => Ok tt) (fun _ => Ok tt) [None; Some (1, Ok tt)]
    [(1, Ok tt)]); [split; reflexivity|reflexivity|apply Permutation_refl|reflexivity|reflexivity].
Defined.
End Witnesses.
