(* ===== verification/Twin.v ===== *)
(** * The tokio twin

    bench/src/twin.rs: the server the benchmark compares the broker with.  It
    runs the broker's own session and event channel on tokio, one worker per
    thread.  A worker is a step relation over its select loop, its drain, its
    session tasks and its event processor, like the broker's worker; here a
    finished task stays in the [JoinSet] until it is joined, and what a worker
    saw go wrong is kept and answered when it returns.

    Texts of errors from tokio and the kernel are arguments of the steps;
    [show] is the [Display] of the session's error type. *)

From S2P Require Import Prelude Text FixedHeader Rmqtt Errors Decoder Packet Handshake Api Channel Runtime Session Worker.

(** ** Codec adapters *)

Section Codecs.
Context `{RmqttCodec}.

(** tokio-util's [Decoder] over a monoio-codec answer. *)
Definition tokio_decoded {A} (r : result (Decoded A) IoError) : result (option A) IoError :=
  match r with Ok (DSome x) => Ok (Some x) | Ok Insufficient => Ok None | Err e => Err e end.

Definition TokioVersion_decode (self : VersionDecoder) (src : list Z) : result (option ProtocolVersion) IoError * list Z :=
  let '(r, src) := VersionDecoder_decode self src in (tokio_decoded r, src).

Record PacketCodec := { pc_version : ProtocolVersion; pc_decoder : MqttDecoder; pc_encoder : MqttEncoder }.

Definition PacketCodec_new (version : ProtocolVersion) (max : MaxInboundPacketSize) : PacketCodec :=
  {| pc_version := version; pc_decoder := MqttDecoder_new version max; pc_encoder := MqttEncoder_new version |}.

Definition PacketCodec_decode (self : PacketCodec) (src : list Z) :
    result (option (MqttPacket * Z)) IoError * PacketCodec * list Z :=
  let '(r, d, src) := MqttDecoder_decode (pc_decoder self) src in
  (tokio_decoded r, {| pc_version := pc_version self; pc_decoder := d; pc_encoder := pc_encoder self |}, src).

Definition PacketCodec_decode_eof (self : PacketCodec) (src : list Z) :
    result (option (MqttPacket * Z)) IoError * PacketCodec * list Z :=
  let '(r, d, src) := MqttDecoder_decode_eof (pc_decoder self) src in
  (tokio_decoded r, {| pc_version := pc_version self; pc_decoder := d; pc_encoder := pc_encoder self |}, src).

Definition PacketCodec_encode (self : PacketCodec) (item : MqttPacket) (dst : list Z) :
    result unit IoError * PacketCodec * list Z :=
  let '(r, e, dst) := MqttEncoder_encode (pc_encoder self) item dst in
  (r, {| pc_version := pc_version self; pc_decoder := pc_decoder self; pc_encoder := e |}, dst).
End Codecs.

(** ** Evidence *)

Inductive JoinError := JoinPanic (e : str) | JoinCancelled (e : str).

(** A joined session task: [Ok (Some e)] is a refusal, a violation or an error
    that is not a routine disconnect. *)
Abbreviation TaskResult := (result (option str) JoinError).

Record Evidence := { failure : option str; session_failure : option str; accept_failure : option str }.
Definition no_evidence : Evidence := {| failure := None; session_failure := None; accept_failure := None |}.

(** [if o.is_none() { o = Some(e) }]. *)
Definition first_of (o : option str) (e : str) : option str := match o with None => Some e | Some _ => o end.

Definition note_failure (v : Evidence) (e : str) : Evidence :=
  {| failure := first_of (failure v) e; session_failure := session_failure v; accept_failure := accept_failure v |}.
Definition note_accept (v : Evidence) (e : str) : Evidence :=
  {| failure := failure v; session_failure := session_failure v; accept_failure := first_of (accept_failure v) e |}.

(** The evidence, and whether shutdown is broadcast. *)
Definition note_session_result (joined : TaskResult) (v : Evidence) : Evidence * bool :=
  match joined with
  | Ok (Some e) =>
      ({| failure := failure v; session_failure := first_of (session_failure v) e; accept_failure := accept_failure v |}, false)
  | Err (JoinPanic e) => (note_failure v (lit "session panicked: " ++ e), true)
  | Ok None | Err (JoinCancelled _) => (v, false)
  end.

(** What a session task returns. *)
Definition session_result (show : Error -> str) (peer : str) (outcome : result SessionOutcome Error) : option str :=
  match outcome with
  | Ok Served => None
  | Ok Refused => Some (lit "session " ++ peer ++ lit ": connect refused")
  | Ok ViolationOutcome => Some (lit "session " ++ peer ++ lit ": protocol violation")
  | Err e =>
      if is_truncated_packet e then None
      else if is_routine_disconnect e then None
      else Some (lit "session " ++ peer ++ lit ": " ++ show e)
  end.

(** The result of a worker. *)
Definition worker_result (v : Evidence) : result unit str :=
  match match failure v with
        | Some e => Some e
        | None => match accept_failure v with Some e => Some e | None => session_failure v end
        end with
  | Some e => Err e
  | None => Ok tt
  end.

(** ** A worker *)

Inductive Processor := ProcRunning | ProcEnded (r : result unit JoinError) | ProcJoined.

Inductive TwinPhase := Serving | TwinDraining | Aborting | Closing | Returned (r : result unit str).

(** How a session task ends. *)
Inductive TaskEnd := SessionEnded (peer : str) (outcome : result SessionOutcome Error) | SessionPanicked (e : str) | SessionCancelled (e : str).

(** What a step shows of the run: ends of session tasks, joined tasks,
    accept-path outcomes, and the end of the processor, inside the select loop
    or awaited after it. *)
Inductive TwinEvent :=
| EvEnded (t : TaskEnd)
| EvJoined (r : TaskResult)
| EvOverLimit (peer : str) (limit : Z)
| EvNodelay (peer e : str)
| EvAcceptError (e : str)
| EvProcessorInLoop (r : result unit JoinError)
| EvProcessorAwaited (r : result unit JoinError).

Section Twin.
Context `{LocalSync}.

Record Twin := {
  tw_phase : TwinPhase;
  tw_active : Z;                 (* [WorkerState] *)
  tw_limit : Z;
  tasks : list str;              (* running session tasks, by peer *)
  finished : list TaskResult;    (* tasks of the [JoinSet] that are not joined *)
  tw_channel : Running;
  tw_calls : list Publish;       (* calls of the callback that returned *)
  processor : Processor;
  evidence : Evidence;
  tw_shutdown : bool             (* the watch all workers share *)
}.

Definition twin_init (config : BrokerConfig) (dropped : Z) : Twin :=
  {| tw_phase := Serving; tw_active := 0; tw_limit := max_connections_per_worker config; tasks := []; finished := [];
     tw_channel := {| ch := event_channel dropped; holds := []; outcomes := []; received := []; rx_alive := true |};
     tw_calls := []; processor := ProcRunning; evidence := no_evidence; tw_shutdown := false |}.

Definition set_tw_phase (w : Twin) (p : TwinPhase) : Twin :=
  {| tw_phase := p; tw_active := tw_active w; tw_limit := tw_limit w; tasks := tasks w; finished := finished w;
     tw_channel := tw_channel w; tw_calls := tw_calls w; processor := processor w; evidence := evidence w;
     tw_shutdown := tw_shutdown w |}.
Definition set_evidence (w : Twin) (v : Evidence) (broadcast : bool) : Twin :=
  {| tw_phase := tw_phase w; tw_active := tw_active w; tw_limit := tw_limit w; tasks := tasks w; finished := finished w;
     tw_channel := tw_channel w; tw_calls := tw_calls w; processor := processor w; evidence := v;
     tw_shutdown := tw_shutdown w || broadcast |}.
Definition set_tasks (w : Twin) (active : Z) (l : list str) (f : list TaskResult) : Twin :=
  {| tw_phase := tw_phase w; tw_active := active; tw_limit := tw_limit w; tasks := l; finished := f;
     tw_channel := tw_channel w; tw_calls := tw_calls w; processor := processor w; evidence := evidence w;
     tw_shutdown := tw_shutdown w |}.
Definition set_processor (w : Twin) (c : Running) (calls : list Publish) (p : Processor) : Twin :=
  {| tw_phase := tw_phase w; tw_active := tw_active w; tw_limit := tw_limit w; tasks := tasks w; finished := finished w;
     tw_channel := c; tw_calls := calls; processor := p; evidence := evidence w; tw_shutdown := tw_shutdown w |}.

(** Joining one task. *)
Definition join_task (w : Twin) (joined : TaskResult) : Twin :=
  let active := if 0 <? tw_active w then tw_active w - 1 else tw_active w in
  let '(v, broadcast) := note_session_result joined (evidence w) in
  set_evidence (set_tasks w active (tasks w) (finished w)) v broadcast.

(** [while let Some(joined) = sessions.try_join_next()], with the tasks that
    have finished in the order the [JoinSet] gives them. *)
Definition reap (w : Twin) (order : list TaskResult) : Twin :=
  foldl join_task (set_tasks w (tw_active w) (tasks w) []) order.

(** The accept branch: an accepted stream with its peer and the error of
    [set_nodelay], or an error of [accept]. *)
Definition on_twin_accept (w : Twin) (order : list TaskResult) (res : result (str * option str) str) : Twin * list TwinEvent :=
  let joined := EvJoined <$> order in
  let w := reap w order in
  match failure (evidence w) with
  | Some _ => (set_tw_phase w TwinDraining, joined)
  | None =>
      match res with
      | Ok (peer, nodelay) =>
          if tw_limit w <=? tw_active w then
            (set_evidence w (note_accept (evidence w)
               (lit "accept " ++ peer ++ lit ": connection limit " ++ dec (tw_limit w) ++ lit " reached")) false,
             joined ++ [EvOverLimit peer (tw_limit w)])
          else
            match nodelay with
            | Some e =>
                (set_evidence w (note_accept (evidence w) (lit "accept " ++ peer ++ lit ": set_nodelay: " ++ e)) false,
                 joined ++ [EvNodelay peer e])
            | None => (set_tasks w (tw_active w + 1) (tasks w ++ [peer]) (finished w), joined)
            end
      | Err e =>
          if tw_shutdown w then (set_tw_phase w TwinDraining, joined)
          else (set_evidence w (note_accept (evidence w) (lit "accept: " ++ e)) false, joined ++ [EvAcceptError e])
      end
  end.

(** The processor branch of the select. *)
Definition processor_in_loop (r : result unit JoinError) : str :=
  match r with
  | Ok _ => lit "event processor ended"
  | Err (JoinPanic e) => lit "event processor panicked: " ++ e
  | Err (JoinCancelled e) => lit "event processor ended: " ++ e
  end.

Definition on_processor_in_loop (w : Twin) (r : result unit JoinError) : Twin :=
  let v := evidence w in
  let v := {| failure := Some (processor_in_loop r); session_failure := session_failure v; accept_failure := accept_failure v |} in
  set_tw_phase (set_evidence (set_processor w (tw_channel w) (tw_calls w) ProcJoined) v true) TwinDraining.

(** [processor.await] after the drain. *)
Definition on_processor_awaited (w : Twin) (r : result unit JoinError) : Twin :=
  let w := set_processor w (tw_channel w) (tw_calls w) ProcJoined in
  match r with
  | Ok _ => w
  | Err (JoinPanic e) => set_evidence w (note_failure (evidence w) (lit "event processor panicked: " ++ e)) true
  | Err (JoinCancelled e) => set_evidence w (note_failure (evidence w) (lit "event processor ended: " ++ e)) false
  end.

(** The processor's receiver goes with its task. *)
Definition processor_ends (w : Twin) (c : Running) (e : EventChannel) (r : result unit JoinError) : Twin :=
  set_processor w {| ch := EventReceiver_drop e; holds := holds c; outcomes := outcomes c; received := received c;
                     rx_alive := false |} (tw_calls w) (ProcEnded r).

(** ** Interleaving *)

(** The select is biased, so the loop takes the accept branch only while the
    processor runs; the shared flag can be raised by another thread between the
    poll and the branch, so that branch is not guarded by it.  A running task
    of an aborted set is cancelled; one that finished before keeps its result. *)
Inductive twin_step (show : Error -> str) : Twin -> list TwinEvent -> Twin -> Prop :=
| ts_shutdown w : twin_step show w [] (set_evidence w (evidence w) true)
| ts_stop w : tw_phase w = Serving -> tw_shutdown w = true -> twin_step show w [] (set_tw_phase w TwinDraining)
| ts_accept w order res :
    tw_phase w = Serving -> processor w = ProcRunning -> order ≡ₚ finished w ->
    twin_step show w (on_twin_accept w order res).2 (on_twin_accept w order res).1
| ts_processor w r :
    tw_phase w = Serving -> processor w = ProcEnded r ->
    twin_step show w [EvProcessorInLoop r] (on_processor_in_loop w r)
| ts_channel w c :
    session_channel_step (tw_channel w) c -> (length (holds c) <= length (tasks w))%nat -> tasks w <> [] ->
    twin_step show w [] (set_processor w c (tw_calls w) (processor w))
| ts_session w l1 peer l2 outcome :
    tasks w = l1 ++ peer :: l2 -> (length (holds (tw_channel w)) <= length (l1 ++ l2))%nat -> tw_phase w <> Aborting ->
    twin_step show w [EvEnded (SessionEnded peer outcome)]
      (set_tasks w (tw_active w) (l1 ++ l2) (finished w ++ [Ok (session_result show peer outcome)]))
| ts_session_panic w l1 peer l2 e :
    tasks w = l1 ++ peer :: l2 -> (length (holds (tw_channel w)) <= length (l1 ++ l2))%nat -> tw_phase w <> Aborting ->
    twin_step show w [EvEnded (SessionPanicked e)] (set_tasks w (tw_active w) (l1 ++ l2) (finished w ++ [Err (JoinPanic e)]))
| ts_cancel w l1 peer l2 e :
    tasks w = l1 ++ peer :: l2 -> (length (holds (tw_channel w)) <= length (l1 ++ l2))%nat -> tw_phase w = Aborting ->
    twin_step show w [EvEnded (SessionCancelled e)] (set_tasks w (tw_active w) (l1 ++ l2) (finished w ++ [Err (JoinCancelled e)]))
| ts_join w l1 j l2 :
    tw_phase w = TwinDraining \/ tw_phase w = Aborting -> finished w = l1 ++ j :: l2 ->
    twin_step show w [EvJoined j] (join_task (set_tasks w (tw_active w) (tasks w) (l1 ++ l2)) j)
| ts_drain_timeout w : tw_phase w = TwinDraining -> twin_step show w [] (set_tw_phase w Aborting)
| ts_drained w :
    tw_phase w = TwinDraining \/ tw_phase w = Aborting -> tasks w = [] -> finished w = [] ->
    twin_step show w [] (set_tw_phase w Closing)
| ts_deliver w p e :
    processor w = ProcRunning -> recv (ch (tw_channel w)) = (Some p, e) ->
    twin_step show w [] (set_processor w (received_one (tw_channel w) p e) (tw_calls w ++ [p]) ProcRunning)
| ts_callback_panic w p e x :
    processor w = ProcRunning -> recv (ch (tw_channel w)) = (Some p, e) ->
    twin_step show w [] (processor_ends w (received_one (tw_channel w) p e) e (Err (JoinPanic x)))
| ts_processor_end w e :
    tw_phase w = Closing -> processor w = ProcRunning -> recv (ch (tw_channel w)) = (None, e) ->
    twin_step show w [] (processor_ends w (tw_channel w) e (Ok tt))
| ts_awaited w r :
    tw_phase w = Closing -> processor w = ProcEnded r ->
    twin_step show w [EvProcessorAwaited r] (on_processor_awaited w r)
| ts_return w :
    tw_phase w = Closing -> processor w = ProcJoined ->
    twin_step show w [] (set_tw_phase w (Returned (worker_result (evidence w)))).

Inductive twin_run (show : Error -> str) (w : Twin) : list TwinEvent -> Twin -> Prop :=
| tr_here : twin_run show w [] w
| tr_step tr w' evs w'' : twin_run show w tr w' -> twin_step show w' evs w'' -> twin_run show w (tr ++ evs) w''.
End Twin.

(** ** What a run's events say *)

(** A panic of a session or of the processor, or a processor that is gone. *)
Definition fatal_of (ev : TwinEvent) : option str :=
  match ev with
  | EvJoined (Err (JoinPanic e)) => Some (lit "session panicked: " ++ e)
  | EvProcessorInLoop (Ok _) => Some (lit "event processor ended")
  | EvProcessorInLoop (Err (JoinPanic e)) => Some (lit "event processor panicked: " ++ e)
  | EvProcessorInLoop (Err (JoinCancelled e)) => Some (lit "event processor ended: " ++ e)
  | EvProcessorAwaited (Err (JoinPanic e)) => Some (lit "event processor panicked: " ++ e)
  | EvProcessorAwaited (Err (JoinCancelled e)) => Some (lit "event processor ended: " ++ e)
  | _ => None
  end.
Definition accept_of (ev : TwinEvent) : option str :=
  match ev with
  | EvOverLimit peer limit => Some (lit "accept " ++ peer ++ lit ": connection limit " ++ dec limit ++ lit " reached")
  | EvNodelay peer e => Some (lit "accept " ++ peer ++ lit ": set_nodelay: " ++ e)
  | EvAcceptError e => Some (lit "accept: " ++ e)
  | _ => None
  end.
Definition session_of (ev : TwinEvent) : option str := match ev with EvJoined (Ok (Some e)) => Some e | _ => None end.

(** [e] is what the first event of [tr] with a cause says. *)
Definition first_cause (cause : TwinEvent -> option str) (tr : list TwinEvent) (e : str) : Prop :=
  exists before ev after, tr = before ++ ev :: after /\ cause ev = Some e /\ Forall (fun ev => cause ev = None) before.
Definition no_cause (cause : TwinEvent -> option str) (tr : list TwinEvent) : Prop := Forall (fun ev => cause ev = None) tr.

(** The verdict a run calls for: what is fatal outranks the accept path, which
    outranks the sessions, and within a rank the first counts. *)
Inductive verdict (tr : list TwinEvent) : result unit str -> Prop :=
| verdict_fatal e : first_cause fatal_of tr e -> verdict tr (Err e)
| verdict_accept e : no_cause fatal_of tr -> first_cause accept_of tr e -> verdict tr (Err e)
| verdict_session e : no_cause fatal_of tr -> no_cause accept_of tr -> first_cause session_of tr e -> verdict tr (Err e)
| verdict_ok : no_cause fatal_of tr -> no_cause accept_of tr -> no_cause session_of tr -> verdict tr (Ok tt).

(** What a task that ended tells whoever joins it: a peer that went away is
    nothing to report. *)
Inductive told (show : Error -> str) : TaskEnd -> TaskResult -> Prop :=
| told_served peer : told show (SessionEnded peer (Ok Served)) (Ok None)
| told_refused peer : told show (SessionEnded peer (Ok Refused)) (Ok (Some (lit "session " ++ peer ++ lit ": connect refused")))
| told_violation peer :
    told show (SessionEnded peer (Ok ViolationOutcome)) (Ok (Some (lit "session " ++ peer ++ lit ": protocol violation")))
| told_gone peer e : is_truncated_packet e = true \/ is_routine_disconnect e = true -> told show (SessionEnded peer (Err e)) (Ok None)
| told_error peer e : is_truncated_packet e = false -> is_routine_disconnect e = false ->
    told show (SessionEnded peer (Err e)) (Ok (Some (lit "session " ++ peer ++ lit ": " ++ show e)))
| told_panic e : told show (SessionPanicked e) (Err (JoinPanic e))
| told_cancelled e : told show (SessionCancelled e) (Err (JoinCancelled e)).

Definition ended_of (ev : TwinEvent) : option TaskEnd := match ev with EvEnded t => Some t | _ => None end.
Definition joined_of (ev : TwinEvent) : option TaskResult := match ev with EvJoined r => Some r | _ => None end.

(** The first event of each kind. *)
Definition evidence_of (tr : list TwinEvent) : Evidence :=
  {| failure := head (omap fatal_of tr); session_failure := head (omap session_of tr); accept_failure := head (omap accept_of tr) |}.

Section TwinInvariant.
Context `{LocalSyncSpec}.
Context (show : Error -> str) (config : BrokerConfig) (total : Z).
Hypothesis Hmax : 0 <= max_connections_per_worker config.

Lemma first_of_head {A} (f : A -> option str) tr ev :
  head (omap f (tr ++ [ev])) = match f ev with Some e => first_of (head (omap f tr)) e | None => head (omap f tr) end.
Proof. rewrite omap_app. simpl. destruct (f ev); [|by rewrite app_nil_r]. by destruct (omap f tr). Qed.

Definition note_event (v : Evidence) (ev : TwinEvent) : Evidence :=
  {| failure := match fatal_of ev with Some e => first_of (failure v) e | None => failure v end;
     session_failure := match session_of ev with Some e => first_of (session_failure v) e | None => session_failure v end;
     accept_failure := match accept_of ev with Some e => first_of (accept_failure v) e | None => accept_failure v end |}.

Lemma evidence_snoc tr ev : evidence_of (tr ++ [ev]) = note_event (evidence_of tr) ev.
Proof. unfold evidence_of, note_event. by rewrite !first_of_head. Qed.

Lemma evidence_app tr evs : evidence_of (tr ++ evs) = foldl note_event (evidence_of tr) evs.
Proof.
  revert tr. induction evs as [|ev evs IH]; intros tr; [by rewrite app_nil_r|].
  simpl. by rewrite <- evidence_snoc, <- IH, <- app_assoc.
Qed.

(** *** Joining *)

Lemma join_task_evidence w j : evidence (join_task w j) = note_event (evidence w) (EvJoined j).
Proof. destruct w as [? ? ? ? ? ? ? ? [? ? ?] ?], j as [[]|[]]; done. Qed.

(** What joining leaves alone. *)
Record same_worker (w w' : Twin) : Prop := {
  sw_phase : tw_phase w' = tw_phase w; sw_limit : tw_limit w' = tw_limit w; sw_tasks : tasks w' = tasks w;
  sw_channel : tw_channel w' = tw_channel w; sw_calls : tw_calls w' = tw_calls w; sw_processor : processor w' = processor w
}.

Lemma join_task_same w j : same_worker w (join_task w j) /\ finished (join_task w j) = finished w /\
  (0 < tw_active w -> tw_active (join_task w j) = tw_active w - 1).
Proof.
  unfold join_task. destruct (note_session_result j (evidence w)) as [v b]. split_and!; [by constructor|done|].
  intros Ha. simpl. by rewrite (proj2 (Z.ltb_lt _ _)).
Qed.

Lemma join_all order : forall w, Z.of_nat (length order) <= tw_active w ->
  let w' := foldl join_task w order in
  same_worker w w' /\ finished w' = finished w /\ tw_active w' = tw_active w - Z.of_nat (length order) /\
  evidence w' = foldl note_event (evidence w) (EvJoined <$> order).
Proof.
  induction order as [|j order IH]; intros w Ha; cbn [foldl fmap list_fmap length] in *.
  - split_and!; [by constructor|done|lia|done].
  - destruct (join_task_same w j) as (S & F & A). specialize (A ltac:(lia)).
    destruct (IH (join_task w j)) as (S' & F' & A' & E'); [lia|]. rewrite E', F', A', A, F, join_task_evidence.
    split_and!; [|done|lia|done]. destruct S, S'. constructor; congruence.
Qed.

Lemma reap_spec w order : order ≡ₚ finished w -> tw_active w = Z.of_nat (length (tasks w) + length (finished w)) ->
  let w' := reap w order in
  same_worker w w' /\ finished w' = [] /\ tw_active w' = Z.of_nat (length (tasks w)) /\
  evidence w' = foldl note_event (evidence w) (EvJoined <$> order).
Proof.
  intros Hp Ha. apply Permutation_length in Hp. unfold reap.
  destruct (join_all order (set_tasks w (tw_active w) (tasks w) [])) as (S & F & A & E); [simpl; lia|].
  split_and!; [destruct S; by constructor|done|rewrite A; simpl; lia|done].
Qed.

(** *** The invariant *)

Definition closed_down (w : Twin) : Prop := tw_phase w = Closing \/ exists r, tw_phase w = Returned r.

Record twin_ok (tr : list TwinEvent) (w : Twin) : Prop := {
  to_chan : sys_ok total (Run (tw_channel w));
  to_rx : rx_alive (tw_channel w) = true <-> processor w = ProcRunning;
  to_active : tw_active w = Z.of_nat (length (tasks w) + length (finished w));
  to_limit : tw_limit w = max_connections_per_worker config;
  to_room : tw_active w <= tw_limit w;
  to_holds : (length (holds (tw_channel w)) <= length (tasks w))%nat;
  to_gone : closed_down w -> tasks w = [] /\ finished w = [];
  to_evidence : evidence w = evidence_of tr;
  to_serving : tw_phase w = Serving -> failure (evidence w) = None /\ processor w <> ProcJoined;
  to_calls : processor w = ProcRunning -> tw_calls w = received (tw_channel w);
  to_ended r : processor w = ProcEnded r -> r <> Ok tt \/
    (closed_down w /\ tw_calls w = received (tw_channel w) /\ contents (queue (ch (tw_channel w))) = []);
  to_joined : processor w = ProcJoined -> failure (evidence w) = None ->
    closed_down w /\ tw_calls w = received (tw_channel w) /\ contents (queue (ch (tw_channel w))) = [];
  to_returned r : tw_phase w = Returned r -> processor w = ProcJoined /\ r = worker_result (evidence w)
}.

Lemma twin_init_ok : twin_ok [] (twin_init config total).
Proof.
  split; simpl; try done; try lia.
  destruct (event_channel_ok total) as [? ->]. done.
Qed.

Lemma evidence_mono v evs e : failure v = Some e -> failure (foldl note_event v evs) = Some e.
Proof.
  revert v. induction evs as [|ev evs IH]; intros v Hv; [done|]. simpl. apply IH. simpl. rewrite Hv. by destruct (fatal_of ev).
Qed.

Lemma unfailed v ev : failure (note_event v ev) = None -> failure v = None.
Proof. simpl. destruct (fatal_of ev), (failure v); done. Qed.

(** A step of the channel that leaves the processor and the tasks alone. *)
Lemma channel_ok tr w c : twin_ok tr w -> session_channel_step (tw_channel w) c ->
  (length (holds c) <= length (tasks w))%nat -> tasks w <> [] -> twin_ok tr (set_processor w c (tw_calls w) (processor w)).
Proof.
  intros Hok (Hc & Hr & Ha) Hh Hne. pose proof Hok as []. split; simpl; try done.
  - exact (chan_step_ok total _ _ to_chan0 Hc).
  - by rewrite Ha.
  - by rewrite Hr.
  - intros r Hp. destruct (to_ended0 r Hp) as [?|(Hd & _)]; [by left|]. by destruct (to_gone0 Hd).
  - intros Hp Hf. destruct (to_joined0 Hp Hf) as (Hd & _). by destruct (to_gone0 Hd).
Qed.

(** A running task ends; it stays in the set. *)
Lemma task_ends_ok tr w l1 peer l2 t j : twin_ok tr w -> tasks w = l1 ++ peer :: l2 ->
  (length (holds (tw_channel w)) <= length (l1 ++ l2))%nat ->
  twin_ok (tr ++ [EvEnded t]) (set_tasks w (tw_active w) (l1 ++ l2) (finished w ++ [j])).
Proof.
  intros [] Ht Hh. assert (Hl : length (tasks w) = S (length (l1 ++ l2))) by (rewrite Ht, !length_app; simpl; lia).
  split; simpl; try done; [rewrite (length_app (finished w)); simpl; lia| |].
  - intros Hd. destruct (to_gone0 Hd) as [E _]. by rewrite E in Hl.
  - rewrite evidence_snoc, <- to_evidence0. by destruct (evidence w).
Qed.

(** A task is joined outside the select loop. *)
Lemma join_ok tr w l1 j l2 : twin_ok tr w -> tw_phase w = TwinDraining \/ tw_phase w = Aborting -> finished w = l1 ++ j :: l2 ->
  twin_ok (tr ++ [EvJoined j]) (join_task (set_tasks w (tw_active w) (tasks w) (l1 ++ l2)) j).
Proof.
  intros [] Hp Hf. set (w1 := set_tasks _ _ _ _). destruct (join_task_same w1 j) as (HS & F & A).
  assert (Hl : length (finished w) = S (length (l1 ++ l2))) by (rewrite Hf, !length_app; simpl; lia).
  assert (Hx : tw_active w1 = tw_active w) by done. rewrite Hx in A. specialize (A ltac:(lia)).
  pose proof (join_task_evidence w1 j) as E.   destruct HS. set (w2 := join_task w1 j) in *. clearbody w2. cbn in *.
  assert (Hnd : ~ closed_down w) by (unfold closed_down; destruct Hp as [-> | ->]; intros [?|[? ?]]; done).
  assert (Hnd2 : ~ closed_down w2) by (unfold closed_down in *; by rewrite sw_phase0).
  split; rewrite ?sw_channel0, ?sw_limit0, ?sw_tasks0, ?sw_calls0, ?sw_processor0, ?A, ?F; try done; try lia.
  - by rewrite E, to_evidence0, evidence_snoc.
  - rewrite sw_phase0. destruct Hp; congruence.
  - intros r Hr. destruct (to_ended0 r Hr) as [?|(Hd & _)]; [by left|done].
  - intros Hj Hn. rewrite E in Hn. apply unfailed in Hn. by destruct (to_joined0 Hj Hn).
  - intros r. rewrite sw_phase0. destruct Hp; congruence.
Qed.

(** Leaving the select loop. *)
Lemma draining_ok tr w : twin_ok tr w -> tw_phase w = Serving -> twin_ok tr (set_tw_phase w TwinDraining).
Proof.
  intros [] Hp. assert (Hnd : ~ closed_down w) by (unfold closed_down; rewrite Hp; intros [?|[? ?]]; done).
  destruct (to_serving0 Hp) as [_ Hj]. split; simpl; try done.
  - intros [?|[? ?]]; done.
  - intros r Hr. destruct (to_ended0 r Hr) as [?|(Hd & _)]; [by left|done].
Qed.

(** The flag is all that [ts_shutdown] changes. *)
Lemma shutdown_ok tr w b : twin_ok tr w -> twin_ok tr (set_evidence w (evidence w) b).
Proof. intros []. by split. Qed.

Lemma note_accept_ok tr w ev msg : twin_ok tr w -> fatal_of ev = None -> session_of ev = None -> accept_of ev = Some msg ->
  tw_phase w = Serving -> twin_ok (tr ++ [ev]) (set_evidence w (note_accept (evidence w) msg) false).
Proof.
  intros [] Hf Hs Ha Hp. split; simpl; try done.
  - rewrite evidence_snoc, <- to_evidence0. unfold note_event, note_accept. by rewrite Hf, Hs, Ha.
  - intros r Hr. congruence.
Qed.

(** Joining inside the select loop, before the accepted stream is looked at. *)
Lemma reap_ok tr w order : twin_ok tr w -> tw_phase w = Serving -> processor w = ProcRunning -> order ≡ₚ finished w ->
  let w' := reap w order in
  twin_ok (tr ++ (EvJoined <$> order)) (set_tw_phase w' TwinDraining) /\
  (failure (evidence w') = None -> twin_ok (tr ++ (EvJoined <$> order)) w') /\
  tw_phase w' = Serving /\ finished w' = [].
Proof.
  intros [] Hp Hr Ho. destruct (reap_spec w order Ho to_active0) as (HS & F & A & E). cbv zeta in *.
  set (w2 := reap w order) in *. clearbody w2. destruct HS. rewrite to_evidence0, <- evidence_app in E.
  split; [|split; [intros Hn|by split; [congruence|]]].
  - split; simpl; rewrite ?sw_channel0, ?sw_limit0, ?sw_tasks0, ?sw_calls0, ?sw_processor0, ?A, ?F, ?Nat.add_0_r; try done; try lia; try congruence.
    intros [?|[? ?]]; done.
  - split; rewrite ?sw_channel0, ?sw_limit0, ?sw_tasks0, ?sw_calls0, ?sw_processor0, ?A, ?F, ?Nat.add_0_r; try done; try lia; try congruence.
    + unfold closed_down. rewrite sw_phase0, Hp. intros [?|[? ?]]; done.
    + intros _. split; [done|congruence].
Qed.

Lemma on_twin_accept_ok tr w order res : twin_ok tr w -> tw_phase w = Serving -> processor w = ProcRunning -> order ≡ₚ finished w ->
  twin_ok (tr ++ (on_twin_accept w order res).2) (on_twin_accept w order res).1.
Proof.
  intros Hok Hp Hr Ho. destruct (reap_ok tr w order Hok Hp Hr Ho) as (Hd & Hs & Hp' & Hf). cbv zeta in *.
  unfold on_twin_accept. set (w' := reap w order) in *. clearbody w'. destruct (failure (evidence w')) eqn:Ef; [done|].
  specialize (Hs eq_refl). destruct res as [[peer nodelay]|e].
  - destruct (Z.leb_spec (tw_limit w') (tw_active w')); [cbn [fst snd]; rewrite (app_assoc tr); by apply note_accept_ok|].
    destruct nodelay; [cbn [fst snd]; rewrite (app_assoc tr); by apply note_accept_ok|].
    destruct Hs. split; simpl; try done; rewrite ?length_app; simpl; try lia.
    intros [?|[? ?]]; simpl in *; congruence.
  - destruct (tw_shutdown w'); [done|]. cbn [fst snd]. rewrite (app_assoc tr). by apply note_accept_ok.
Qed.

(** The receiver's steps. *)
Lemma deliver_one_ok tr w p e : twin_ok tr w -> processor w = ProcRunning -> recv (ch (tw_channel w)) = (Some p, e) ->
  sys_ok total (Run (received_one (tw_channel w) p e)) /\
  twin_ok tr (set_processor w (received_one (tw_channel w) p e) (tw_calls w ++ [p]) ProcRunning).
Proof.
  intros [] Hr He. pose proof (proj2 to_rx0 Hr) as Ha.
  assert (Hc : sys_ok total (Run (received_one (tw_channel w) p e))).
  { apply (chan_step_ok total (Run (tw_channel w))); [done|]. unfold received_one. rewrite Ha. by apply step_recv. }
  split; [done|]. split; simpl; try done.
  - intros Hp. split; [by apply to_serving0|done].
  - intros _. by rewrite to_calls0.
  - intros r Hp. destruct (to_returned0 r Hp) as [? _]. congruence.
Qed.

(** The processor's task ends, its receiver dropped. *)
Lemma processor_ends_ok tr w c e r : twin_ok tr w -> processor w = ProcRunning -> sys_ok total (Run c) -> rx_alive c = true ->
  (length (holds c) <= length (tasks w))%nat -> ch c = e ->
  r <> Ok tt \/ (tw_phase w = Closing /\ received c = received (tw_channel w) /\ contents (queue e) = []) ->
  twin_ok tr (processor_ends w c e r).
Proof.
  intros [] Hr Hs Ha Hh <- Hend. unfold processor_ends. split; simpl; try done.
  - exact (chan_step_ok total _ _ Hs (step_receiver_drop c Ha)).
  - intros Hp. split; [by apply to_serving0|done].
  - intros r' [= <-]. destruct Hend as [?|(Hp & Hrc & Hq)]; [by left|right].
    split; [by left|]. rewrite Hrc. split; [by apply to_calls0|]. unfold EventReceiver_drop. simpl.
    by destruct (rx_close_spec _ (queue (ch c))) as [_ ->].
  - intros r' Hp. destruct (to_returned0 r' Hp) as [? _]. congruence.
Qed.

Lemma processor_done_ok tr w e : twin_ok tr w -> tw_phase w = Closing -> processor w = ProcRunning ->
  recv (ch (tw_channel w)) = (None, e) -> twin_ok tr (processor_ends w (tw_channel w) e (Ok tt)).
Proof.
  intros Hok Hp Hr He. pose proof Hok as []. destruct to_chan0 as (Hc & Hh & Hb & Hn). pose proof (proj2 to_rx0 Hr) as Ha.
  pose (c := {| ch := e; holds := holds (tw_channel w); outcomes := outcomes (tw_channel w); received := received (tw_channel w);
                rx_alive := true |}).
  destruct (recv_ok _ (received (tw_channel w)) _ _ _ Hc He) as (Hc' & Hb' & Hq). rewrite app_nil_r in Hb'. rewrite Ha in *.
  apply (processor_ends_ok tr w c e (Ok tt)); try done.
  - split_and!; try done. simpl. by rewrite Hb'.
  - right. split_and!; try done. apply (f_equal entered) in Hb'. simpl in Hb'. rewrite (Hq eq_refl) in Hb'.
    by apply app_inv_head in Hb'.
Qed.

Lemma processor_in_loop_ok tr w r : twin_ok tr w -> tw_phase w = Serving -> processor w = ProcEnded r ->
  twin_ok (tr ++ [EvProcessorInLoop r]) (on_processor_in_loop w r).
Proof.
  intros [] Hp Hr. destruct (to_serving0 Hp) as [Hf _]. split; simpl; try done.
  - rewrite to_rx0, Hr. done.
  - intros [?|[? ?]]; done.
  - rewrite evidence_snoc, <- to_evidence0. unfold note_event. destruct r as [[]|[]]; simpl; by rewrite Hf.
Qed.

Lemma processor_awaited_ok tr w r : twin_ok tr w -> tw_phase w = Closing -> processor w = ProcEnded r ->
  twin_ok (tr ++ [EvProcessorAwaited r]) (on_processor_awaited w r).
Proof.
  intros [] Hp Hr. unfold on_processor_awaited. destruct r as [[]|[x|x]]; split; simpl; try done; try congruence;
    try (rewrite to_rx0, Hr; done); try (rewrite evidence_snoc, <- to_evidence0; by destruct (evidence w)).
  - intros _ _. destruct (to_ended0 _ Hr) as [?|(? & ? & ?)]; [done|]. by split_and!.
  - intros _. by destruct (failure (evidence w)).
  - intros _. by destruct (failure (evidence w)).
Qed.

Lemma twin_step_ok tr w evs w' : twin_ok tr w -> twin_step show w evs w' -> twin_ok (tr ++ evs) w'.
Proof.
  intros Hok Hstep. destruct Hstep; rewrite ?app_nil_r.
  - by apply shutdown_ok.
  - by apply draining_ok.
  - by apply on_twin_accept_ok.
  - by apply processor_in_loop_ok.
  - by apply channel_ok.
  - by eapply task_ends_ok.
  - by eapply task_ends_ok.
  - by eapply task_ends_ok.
  - by apply join_ok.
  - destruct Hok. split; simpl; try done.
    + intros [?|[? ?]]; done.
    + intros r Hr. destruct (to_ended0 r Hr) as [?|([?|[? ?]] & _)]; [by left|congruence..].
    + intros Hj Hf. destruct (to_joined0 Hj Hf) as ([?|[? ?]] & _); congruence.
  - assert (Hnd : ~ closed_down w) by (unfold closed_down; destruct H1 as [-> | ->]; intros [?|[? ?]]; done).
    destruct Hok. split; simpl; try done.
    + intros r Hr. destruct (to_ended0 r Hr) as [?|(? & _)]; [by left|done].
    + intros Hj Hf. by destruct (to_joined0 Hj Hf).
  - by apply deliver_one_ok.
  - destruct (deliver_one_ok tr w p e Hok H1 H2) as [Hs _]. apply processor_ends_ok; try done; [|by apply Hok|by left].
    simpl. by apply Hok.
  - by apply processor_done_ok.
  - by apply processor_awaited_ok.
  - destruct Hok. split; simpl; try done.
    + intros _. apply to_gone0. by left.
    + intros r Hr. congruence.
    + intros Hj Hf. destruct (to_joined0 Hj Hf) as (_ & ? & ?). split_and!; try done. right. by eexists.
    + by intros r [= <-].
Qed.

Lemma twin_run_ok tr w : twin_run show (twin_init config total) tr w -> twin_ok tr w.
Proof. induction 1; [apply twin_init_ok|by eapply twin_step_ok]. Qed.

(** *** The verdict *)

Lemma head_first cause tr e : head (omap cause tr) = Some e -> first_cause cause tr e.
Proof.
  induction tr as [|ev tr IH]; [done|]. cbn [omap list_omap]. destruct (cause ev) eqn:E.
  - intros [= ->]. by exists [], ev, tr.
  - intros (b & x & a & -> & Hx & Hb)%IH. exists (ev :: b), x, a. split_and!; [done|done|by constructor].
Qed.

Lemma head_none cause tr : head (omap cause tr) = None -> no_cause cause tr.
Proof.
  induction tr as [|ev tr IH]; [by constructor|]. cbn [omap list_omap]. destruct (cause ev) eqn:E; [done|].
  intros H'. constructor; [done|by apply IH].
Qed.

Lemma worker_result_verdict tr : verdict tr (worker_result (evidence_of tr)).
Proof.
  unfold worker_result. simpl.
  destruct (head (omap fatal_of tr)) eqn:Ef; [by apply verdict_fatal, head_first|]. apply head_none in Ef.
  destruct (head (omap accept_of tr)) eqn:Ea; [by apply verdict_accept; [|apply head_first]|]. apply head_none in Ea.
  destruct (head (omap session_of tr)) eqn:Es; [by apply verdict_session; [..|apply head_first]|].
  by apply verdict_ok, head_none.
Qed.

Lemma session_result_told peer outcome : told show (SessionEnded peer outcome) (Ok (session_result show peer outcome)).
Proof.
  destruct outcome as [[]|e]; simpl; try constructor. destruct (is_truncated_packet e) eqn:Et; [constructor; by left|].
  destruct (is_routine_disconnect e) eqn:Er; constructor; auto.
Qed.

(** Every task that ended is joined or waits to be, with what it tells. *)
Definition told_once (tr : list TwinEvent) (w : Twin) : Prop :=
  exists results, Forall2 (told show) (omap ended_of tr) results /\ results ≡ₚ omap joined_of tr ++ finished w.

Lemma told_ends tr w w' t j : told show t j -> finished w' = finished w ++ [j] -> told_once tr w -> told_once (tr ++ [EvEnded t]) w'.
Proof.
  intros Ht Hf (rs & Hrs & Hp). exists (rs ++ [j]). rewrite !omap_app, Hf. simpl. rewrite app_nil_r, app_assoc. split.
  - apply Forall2_app; [done|by repeat constructor].
  - by rewrite Hp.
Qed.

Lemma told_joins tr w w' evs : omap ended_of evs = [] -> omap joined_of evs ++ finished w' ≡ₚ finished w ->
  told_once tr w -> told_once (tr ++ evs) w'.
Proof.
  intros He Hj (rs & Hrs & Hp). exists rs. rewrite !omap_app, He, app_nil_r, <- app_assoc. split; [done|]. by rewrite Hj.
Qed.

Lemma joined_only (order : list TaskResult) :
  omap ended_of (EvJoined <$> order) = [] /\ omap joined_of (EvJoined <$> order) = order.
Proof. induction order as [|j order [IH1 IH2]]; [done|]. cbn. by rewrite IH1, IH2. Qed.

Lemma accept_joins w order res : let '(w', evs) := on_twin_accept w order res in
  omap ended_of evs = [] /\ omap joined_of evs = order /\ finished w' = [].
Proof.
  assert (Hf : finished (reap w order) = []).
  { assert (Hall : forall w0, finished w0 = [] -> finished (foldl join_task w0 order) = []); [|by apply Hall].
    induction order as [|j order IH]; intros w0 Hw0; [done|]. simpl. apply IH.
    destruct (join_task_same w0 j) as (_ & E & _). by rewrite E. }
  destruct (joined_only order) as [E1 E2]. unfold on_twin_accept. cbv zeta. set (w' := reap w order) in *. clearbody w'.
  set (joined := EvJoined <$> order) in *. clearbody joined.
  assert (Hsnoc : forall ev, ended_of ev = None -> joined_of ev = None ->
    omap ended_of (joined ++ [ev]) = [] /\ omap joined_of (joined ++ [ev]) = order).
  { intros ev He Hj. rewrite !omap_app, E1, E2. simpl. by rewrite He, Hj, app_nil_r. }
  destruct (failure (evidence w')); [done|]. destruct res as [[peer nodelay]|e].
  - destruct (tw_limit w' <=? tw_active w'); [by destruct (Hsnoc (EvOverLimit peer (tw_limit w')))|].
    destruct nodelay as [e|]; [by destruct (Hsnoc (EvNodelay peer e))|done].
  - destruct (tw_shutdown w'); [done|]. by destruct (Hsnoc (EvAcceptError e)).
Qed.

Lemma twin_step_told tr w evs w' : told_once tr w -> twin_step show w evs w' -> told_once (tr ++ evs) w'.
Proof.
  intros Hok Hstep. destruct Hstep; try (by eapply told_joins; [| |exact Hok]).
  - pose proof (accept_joins w order res) as Ha. destruct (on_twin_accept w order res) as [w' evs].
    destruct Ha as (E1 & E2 & E3). eapply told_joins; [done| |exact Hok]. simpl. by rewrite E2, E3, app_nil_r.
  - eapply told_ends; [apply session_result_told|done|done].
  - by eapply told_ends; [constructor| |].
  - by eapply told_ends; [constructor| |].
  - eapply told_joins; [done| |exact Hok].
    rewrite (proj1 (proj2 (join_task_same _ _))), H2. simpl. by rewrite Permutation_middle.
  - eapply told_joins; [done| |exact Hok]. unfold on_processor_awaited. by destruct r as [|[]].
Qed.

Lemma twin_run_told tr w : twin_run show (twin_init config total) tr w -> told_once tr w.
Proof. induction 1; [by exists []; split; [constructor|]|by eapply twin_step_told]. Qed.

(** *** Stopping *)

(** What a run from [w] can lead to. *)
Definition can_reach (w : Twin) (Q : Twin -> Prop) : Prop := exists tr w', twin_run show w tr w' /\ Q w'.

Lemma run_trans w tr w' tr' w'' : twin_run show w tr w' -> twin_run show w' tr' w'' -> twin_run show w (tr ++ tr') w''.
Proof. intros H1 H2. induction H2 as [|tr' w2 evs w3 H2 IH Hs]; [by rewrite app_nil_r|]. rewrite app_assoc. by eapply tr_step. Qed.

Lemma reach_step w evs w' (Q : Twin -> Prop) tr : twin_ok tr w -> twin_step show w evs w' ->
  (forall tr', twin_ok tr' w' -> can_reach w' Q) -> can_reach w Q.
Proof.
  intros Hok Hs Hk. destruct (Hk _ (twin_step_ok _ _ _ _ Hok Hs)) as (t & x & Hr & Hx).
  exists (evs ++ t), x. split; [|done]. eapply run_trans; [|exact Hr]. exact (tr_step show w [] w evs w' (tr_here _ _) Hs).
Qed.

Definition returned (w : Twin) : Prop := exists r, tw_phase w = Returned r.

Lemma return_reached tr w : twin_ok tr w -> tw_phase w = Closing -> processor w = ProcJoined -> can_reach w returned.
Proof.
  intros Hok Hp Hj. eapply reach_step; [done|by apply ts_return|]. intros tr' _. eexists [], _. split; [constructor|by eexists].
Qed.

Lemma awaited_returns tr w r : twin_ok tr w -> tw_phase w = Closing -> processor w = ProcEnded r -> can_reach w returned.
Proof.
  intros Hok Hp Hr. eapply reach_step; [done|by apply ts_awaited|]. intros tr' Hok'. eapply return_reached; [done|..];
    by destruct r as [[]|[]].
Qed.

Lemma closing_returns n : forall tr w, length (contents (queue (ch (tw_channel w)))) = n -> twin_ok tr w -> tw_phase w = Closing ->
  can_reach w returned.
Proof.
  induction n as [|n IH]; intros tr w Hn Hok Hp; (destruct (processor w) as [|r|] eqn:Hr;
    [|by eapply awaited_returns|by eapply return_reached]);
    destruct (to_chan _ _ Hok) as (Hc & _); destruct (recv (ch (tw_channel w))) as [[p|] e] eqn:He;
    destruct (recv_ok _ [] _ _ _ Hc He) as (_ & Hb & Hq); apply (f_equal entered) in Hb; simpl in Hb.
  - by rewrite <- Hb in Hn.
  - eapply reach_step; [done|by apply ts_processor_end|]. intros tr' Hok'. by eapply awaited_returns.
  - eapply reach_step; [done|by apply ts_deliver|]. intros tr' Hok'. eapply IH; [|done|done]. simpl.
    rewrite <- Hb in Hn. simpl in Hn. lia.
  - by rewrite (Hq eq_refl) in Hn.
Qed.

Lemma joined_returns l : forall tr w, finished w = l -> twin_ok tr w -> tw_phase w = Aborting -> tasks w = [] -> can_reach w returned.
Proof.
  induction l as [|j l IH]; intros tr w Hf Hok Hp Ht.
  - eapply reach_step; [done|by apply ts_drained; [right|..]|]. intros tr' Hok'. by eapply closing_returns.
  - eapply reach_step; [done|by apply (ts_join show w [] j l); [right|]|]. intros tr' Hok'.
    destruct (join_task_same (set_tasks w (tw_active w) (tasks w) ([] ++ l)) j) as ([] & Hf' & _).
    eapply IH; [done|done|by rewrite sw_phase0|by rewrite sw_tasks0].
Qed.

Lemma cancelled_returns l : forall tr w, tasks w = l -> twin_ok tr w -> tw_phase w = Aborting -> holds (tw_channel w) = [] ->
  can_reach w returned.
Proof.
  induction l as [|peer l IH]; intros tr w Ht Hok Hp Hh; [by eapply joined_returns|].
  eapply reach_step; [done|apply (ts_cancel show w [] peer l []); [done|rewrite Hh; simpl; lia|done]|].
  intros tr' Hok'. by eapply IH.
Qed.

Lemma aborting_returns n : forall tr w, length (holds (tw_channel w)) = n -> twin_ok tr w -> tw_phase w = Aborting -> can_reach w returned.
Proof.
  induction n as [|n IH]; intros tr w Hn Hok Hp; destruct (holds (tw_channel w)) as [|h l] eqn:Eh; try done;
    [by eapply cancelled_returns|].
  destruct (to_chan _ _ Hok) as (Hc & Hh & _ & _). rewrite Eh in Hh. apply Forall_cons in Hh as [[Hnc Hns] Hl].
  destruct (SlotWait_drop_ok (rx_alive (tw_channel w)) [] (ch (tw_channel w)) (h_publish h) (h_slot h))
    as (c & Hdrop & _); [done|congruence|].
  pose proof (step_abandon (tw_channel w) [] h l Eh) as Ha. rewrite Hdrop in Ha. simpl in Ha.
  pose proof (to_holds _ _ Hok) as Hle. rewrite Eh in Hle. simpl in Hle.
  eapply reach_step; [done|eapply ts_channel; [split; [exact Ha|done]|simpl; lia|intros E; rewrite E in Hle; simpl in Hle; lia]|].
  intros tr' Hok'. eapply IH; [|done|done]. simpl in *. lia.
Qed.
End TwinInvariant.

Section TwinClaims.
Context `{LocalSyncSpec}.

(** (C15) What a twin worker answers is what its run showed: it returns the
    first panic of a session or of the event processor, failing that the first
    accept-path failure, failing that the first refused, violating or failed
    session to be joined, and success exactly when there was none of these;
    every task that ended was joined once, with what its end tells; no session,
    unjoined task or held publish is left, and after a success the callback has
    returned from every publish ever enqueued, in order. *)
Theorem twin_verdict show config total tr w r :
  0 <= max_connections_per_worker config -> twin_run show (twin_init config total) tr w -> tw_phase w = Returned r ->
  verdict tr r /\
  (exists results, Forall2 (told show) (omap ended_of tr) results /\ results ≡ₚ omap joined_of tr) /\
  tasks w = [] /\ finished w = [] /\ holds (tw_channel w) = [] /\
  (r = Ok tt -> contents (queue (ch (tw_channel w))) = [] /\ tw_calls w = enqueued_of (outcomes (tw_channel w))).
Proof.
  intros Hmax Hrun Hp. destruct (twin_run_told _ _ _ _ _ Hrun) as (rs & Hrs & Hprs).
  apply (twin_run_ok _ _ _ Hmax) in Hrun as []. destruct (to_returned0 r Hp) as [Hj ->].
  destruct (to_gone0 (or_intror (ex_intro _ _ Hp))) as [Ht Hf]. rewrite Hf, app_nil_r in Hprs.
  split_and!; [rewrite to_evidence0; apply worker_result_verdict|by exists rs|done|done| |].
  - apply nil_length_inv. rewrite Ht in to_holds0. simpl in to_holds0. lia.
  - intros Hok. assert (Hn : failure (evidence w) = None) by (unfold worker_result in Hok; by destruct (failure (evidence w))).
    destruct (to_joined0 Hj Hn) as (_ & Hc & Hq). split; [done|]. destruct to_chan0 as (_ & _ & Hb & _).
    apply (f_equal entered) in Hb. rewrite books_entered in Hb. simpl in Hb. rewrite Hq, app_nil_r in Hb. congruence.
Qed.

(** A twin worker has at most its limit of sessions, counting the tasks it has
    not joined yet, and once shutdown is requested it can run to its return,
    whatever its sessions, its callback and its clients do. *)
Theorem twin_stops show config total tr w :
  0 <= max_connections_per_worker config -> twin_run show (twin_init config total) tr w ->
  tw_active w = Z.of_nat (length (tasks w) + length (finished w)) /\ tw_active w <= max_connections_per_worker config /\
  (tw_shutdown w = true -> exists tr' w' r, twin_run show w tr' w' /\ tw_phase w' = Returned r).
Proof.
  intros Hmax Hrun. apply (twin_run_ok _ _ _ Hmax) in Hrun. pose proof Hrun as []. split_and!; [done|congruence|]. intros Hs.
  assert (Hd : forall tr w, twin_ok config total tr w -> tw_phase w = TwinDraining -> can_reach show w returned).
  { intros tr1 w1 Hok Hp. eapply reach_step; [done..|by apply ts_drain_timeout|]. intros tr2 Hok2. by eapply aborting_returns. }
  assert (Hr : can_reach show w returned).
  { destruct (tw_phase w) as [| | | |r] eqn:Hp; [|by eapply Hd|by eapply aborting_returns|by eapply closing_returns|].
    - eapply reach_step; [done..|by apply ts_stop|]. intros tr1 Hok1. by eapply Hd.
    - exists [], w. split; [constructor|by eexists]. }
  destruct Hr as (tr' & w' & Hx & r & Hr). by exists tr', w', r.
Qed.
End TwinClaims.

(** ** Startup, join and drop *)

(** Setup of a worker up to its startup report; the arguments are the errors of
    the runtime and of the socket calls, and whether the starter still listens. *)
Definition twin_setup (id : Z) (runtime socket reuseaddr reuseport bind listen : option str) (heard : bool) : result unit str :=
  let err what e := Err (lit "worker " ++ dec id ++ lit ": " ++ lit what ++ e) in
  match runtime with Some e => err "tokio runtime build: "%string e | None =>
  match socket with Some e => err "TcpSocket: "%string e | None =>
  match reuseaddr with Some e => err "set_reuseaddr: "%string e | None =>
  match reuseport with Some e => err "set_reuseport: "%string e | None =>
  match bind with Some e => err "bind: "%string e | None =>
  match listen with Some e => err "listen: "%string e | None =>
  if heard then Ok tt else err "startup receiver dropped"%string []
  end end end end end end.

(** A joined thread: [None] is a panic. *)
Abbreviation TwinThread := (option (result unit str)).

(** The first failure in worker order, as [panicked] and [failed] put it. *)
Fixpoint first_thread_error (panicked : Z -> str) (failed : Z -> str -> str) (id : Z) (results : list TwinThread) : option str :=
  match results with
  | [] => None
  | None :: _ => Some (panicked id)
  | Some (Err e) :: _ => Some (failed id e)
  | Some (Ok _) :: results => first_thread_error panicked failed (id + 1) results
  end.

(** Spawning until a spawn fails: how many threads run, and the failure. *)
Fixpoint spawn_twins (id : Z) (spawns : list (option str)) : nat * option str :=
  match spawns with
  | [] => (0%nat, None)
  | Some e :: _ => (0%nat, Some (lit "worker " ++ dec id ++ lit " thread spawn: " ++ e))
  | None :: spawns => let '(n, e) := spawn_twins (id + 1) spawns in (S n, e)
  end.

(** [spawns] answers each spawn, [reports] counts the startup reports before
    every sender is gone, [results] joins the threads of a failed start. *)
Definition twin_start (config : BrokerConfig) (available : option Z) (addr : result unit str) (spawns : Z -> list (option str))
    (reports : nat) (results : list TwinThread) : result nat str :=
  let workers := match num_workers config with Some n => n | None => default 4 available end in
  if workers =? 0 then Err (lit "num_workers must be at least 1")
  else if backlog config <? 0 then Err (lit "backlog must not be negative")
  else if 2 ^ 32 <=? backlog config then Err (lit "backlog out of range")
  else match addr with
  | Err e => Err (lit "bind_addr parse: " ++ e)
  | Ok _ =>
      let '(threads, spawn_failed) := spawn_twins 0 (spawns workers) in
      let senders_gone := (reports <? threads)%nat in
      if bool_decide (is_Some spawn_failed) || senders_gone then
        let joined := first_thread_error (fun id => lit "worker " ++ dec id ++ lit " panicked during startup") (fun _ e => e) 0 results in
        Err (match spawn_failed with
             | Some e => e
             | None => default (lit "worker died before reporting startup") joined
             end)
      else Ok threads
  end.

(** [TwinDroppedPublishes::total]; an overflow of the sum wraps. *)
Definition twin_dropped_total (counters : list Z) : Z := foldl (fun acc d => wrap64 (acc + d)) 0 counters.

Definition twin_join (results : list TwinThread) (counters : list Z) : result Z str :=
  match first_thread_error (fun id => lit "twin worker " ++ dec id ++ lit " panicked")
          (fun id e => lit "twin worker " ++ dec id ++ lit ": " ++ e) 0 results with
  | Some e => Err e
  | None => Ok (twin_dropped_total counters)
  end.

(** [TwinHandle]: the threads not joined yet with what each will return, the
    drop counters, and the watch all workers share. *)
Record TwinHandle := { th_handles : option (list TwinThread); th_dropped : list Z; th_shutdown : bool }.

(** [TwinShutdown::shutdown]. *)
Definition TwinShutdown_shutdown (h : TwinHandle) : TwinHandle :=
  {| th_handles := th_handles h; th_dropped := th_dropped h; th_shutdown := true |}.

(** [Drop for TwinHandle]: signal, then join what is left; the results it
    discards, and the handle. *)
Definition TwinHandle_drop (h : TwinHandle) : list TwinThread * TwinHandle :=
  let h := TwinShutdown_shutdown h in
  (default [] (th_handles h), {| th_handles := None; th_dropped := th_dropped h; th_shutdown := th_shutdown h |}).

(** [TwinHandle::join] consumes the handle, which is dropped when it returns:
    the answer, what the drop discards, and the handle.  A handle without
    threads is a panic. *)
Definition TwinHandle_join (h : TwinHandle) : option (result Z str * (list TwinThread * TwinHandle)) :=
  match th_handles h with
  | None => None
  | Some results =>
      Some (twin_join results (th_dropped h),
            TwinHandle_drop {| th_handles := None; th_dropped := th_dropped h; th_shutdown := th_shutdown h |})
  end.

Lemma first_thread_error_none panicked failed results : forall id,
  first_thread_error panicked failed id results = None <-> Forall (fun r => r = Some (Ok tt)) results.
Proof.
  induction results as [|[[[]|e]|] results IH]; intros id; simpl; rewrite ?Forall_cons; [by split| |by split; [|intros [? _]]..].
  rewrite IH. naive_solver.
Qed.

Lemma spawn_twins_ok spawns : forall id n, spawn_twins id spawns = (n, None) <-> n = length spawns /\ Forall (fun s => s = None) spawns.
Proof.
  induction spawns as [|[e|] spawns IH]; intros id n; simpl; rewrite ?Forall_cons; [naive_solver| |].
  - split; [done|]. by intros (_ & ? & _).
  - destruct (spawn_twins (id + 1) spawns) as [k e] eqn:E. split.
    + intros [= <- ->]. destruct (proj1 (IH _ _) E) as [-> ?]. done.
    + intros (-> & _ & Hf). rewrite (proj2 (IH (id + 1) (length spawns)) (conj eq_refl Hf)) in E. by injection E as <- <-.
Qed.

(** Every thread is joined once, by [join] or by the drop: a join leaves the
    drop nothing to discard and answers a total exactly when every worker
    returned without an error; a handle that is only dropped joins them all. *)
Lemma twin_handle_joins h results : th_handles h = Some results ->
  (exists r h', TwinHandle_join h = Some (r, ([], h')) /\ th_shutdown h' = true /\ TwinHandle_join h' = None /\
     ((exists total, r = Ok total) <-> Forall (fun t => t = Some (Ok tt)) results)) /\
  (TwinHandle_drop h).1 = results /\ (TwinHandle_drop (TwinHandle_drop h).2).1 = [].
Proof.
  intros Hh. unfold TwinHandle_join. rewrite Hh. split; [|by simpl; rewrite Hh]. do 2 eexists. split; [done|]. split; [done|]. split; [done|].
  unfold twin_join. destruct (first_thread_error _ _ _ _) eqn:E.
  - split; [by intros [? [=]]|]. intros Hf. by rewrite (proj2 (first_thread_error_none _ _ _ _) Hf) in E.
  - apply first_thread_error_none in E. split; [done|by eexists].
Qed.

(** The twin starts exactly when its configuration is one it accepts, every
    thread was spawned and every worker reported; a start that fails answers
    the failure of a spawn, or the first cause a joined worker returned. *)
Theorem twin_start_outcome config available addr spawns reports results :
  let workers := match num_workers config with Some n => n | None => default 4 available end in
  match twin_start config available addr spawns reports results with
  | Ok n => workers <> 0 /\ 0 <= backlog config < 2 ^ 32 /\ addr = Ok tt /\ n = length (spawns workers) /\
            Forall (fun s => s = None) (spawns workers) /\ (n <= reports)%nat
  | Err e => workers <> 0 -> 0 <= backlog config < 2 ^ 32 -> addr = Ok tt ->
             Forall (fun s => s = None) (spawns workers) ->
             (reports < length (spawns workers))%nat /\
             e = match first_thread_error (fun id => lit "worker " ++ dec id ++ lit " panicked during startup") (fun _ e => e) 0 results with
                 | Some cause => cause
                 | None => lit "worker died before reporting startup"
                 end
  end.
Proof.
  intros workers. unfold twin_start. fold workers. destruct (Z.eqb_spec workers 0); [done|].
  destruct (Z.ltb_spec (backlog config) 0); [intros; lia|]. destruct (Z.leb_spec (2 ^ 32) (backlog config)); [intros; lia|].
  destruct addr as [[]|e]; [|done]. destruct (spawn_twins 0 (spawns workers)) as [threads [e|]] eqn:E; simpl.
  - intros _ _ _ Hf. rewrite (proj2 (spawn_twins_ok _ 0 _) (conj eq_refl Hf)) in E. done.
  - apply spawn_twins_ok in E as [-> Hf]. destruct (Nat.ltb_spec reports (length (spawns workers))); [|split_and!; done].
    intros _ _ _ _. split; [done|]. by destruct (first_thread_error _ _ _ _).
Qed.

(** ** A worker whose only client is refused *)

Section Witnesses.
#[local] Existing Instances FifoSync.ops FifoSync.spec.

Definition refused_show (e : Error) : str := lit "error".
Definition refused_peer : str := lit "10.0.0.1:4000".
Definition r0 : Twin := twin_init BrokerConfig_default 0.
Definition r1 : Twin := (on_twin_accept r0 [] (Ok (refused_peer, None))).1.
Definition refusal : TaskResult := Ok (session_result refused_show refused_peer (Ok Refused)).
Definition r2 : Twin := set_tasks r1 (tw_active r1) [] [refusal].
Definition r3 : Twin := set_tw_phase (set_evidence r2 (evidence r2) true) TwinDraining.
Definition r4 : Twin := set_tw_phase (join_task (set_tasks r3 (tw_active r3) [] []) refusal) Closing.
Definition r5 : Twin := on_processor_awaited (processor_ends r4 (tw_channel r4) (recv (ch (tw_channel r4))).2 (Ok tt)) (Ok tt).
Definition r6 : Twin := set_tw_phase r5 (Returned (worker_result (evidence r5))).

Definition refused_end : TwinEvent := EvEnded (SessionEnded refused_peer (Ok Refused)).

Lemma r3_run : twin_run refused_show r0 [refused_end] r3.
Proof.
  pose proof (tr_step refused_show r0 [] r0 _ _ (tr_here _ _) (ts_accept refused_show r0 [] (Ok (refused_peer, None))
    eq_refl eq_refl (Permutation_refl _))) as H1.
  pose proof (tr_step _ _ _ _ _ _ H1 (ts_session refused_show r1 [] refused_peer [] (Ok Refused) eq_refl ltac:(simpl; lia) ltac:(done))) as H2.
  pose proof (tr_step _ _ _ _ _ _ H2 (ts_shutdown refused_show r2)) as H3.
  exact (tr_step _ _ _ _ _ _ H3 (ts_stop refused_show (set_evidence r2 (evidence r2) true) eq_refl eq_refl)).
Qed.

Lemma r6_run : twin_run refused_show r0 [refused_end; EvJoined refusal; EvProcessorAwaited (Ok tt)] r6.
Proof.
  pose proof (tr_step _ _ _ _ _ _ r3_run (ts_join refused_show r3 [] refusal [] (or_introl eq_refl) eq_refl)) as H4.
  pose proof (tr_step _ _ _ _ _ _ H4 (ts_drained refused_show (join_task (set_tasks r3 (tw_active r3) [] []) refusal) (or_introl eq_refl) eq_refl eq_refl)) as H5.
  pose proof (tr_step _ _ _ _ _ _ H5 (ts_processor_end refused_show r4 (recv (ch (tw_channel r4))).2 eq_refl eq_refl eq_refl)) as H6.
  pose proof (tr_step _ _ _ _ _ _ H6 (ts_awaited refused_show (processor_ends r4 (tw_channel r4) (recv (ch (tw_channel r4))).2 (Ok tt)) (Ok tt) eq_refl eq_refl)) as H7.
  exact (tr_step _ _ _ _ _ _ H7 (ts_return refused_show r5 eq_refl eq_refl)).
Qed.

Lemma twin_verdict_witness :
  verdict [refused_end; EvJoined refusal; EvProcessorAwaited (Ok tt)] (Err (lit "session 10.0.0.1:4000: connect refused")).
Proof.
  destruct (twin_verdict refused_show BrokerConfig_default 0 _ r6 (worker_result (evidence r5)) ltac:(done) r6_run ltac:(reflexivity))
    as (E & _). exact E.
Defined.

Lemma twin_stops_witness : exists tr' w' r, twin_run refused_show r3 tr' w' /\ tw_phase w' = Returned r.
Proof.
  destruct (twin_stops refused_show BrokerConfig_default 0 _ r3 ltac:(done) r3_run) as (_ & _ & H). apply H. reflexivity.
Defined.
End Witnesses.
