(* ===== verification/Wire.v ===== *)
(** * The load generator's wire format

    bench/src/payload.rs and bench/src/wire.rs: the stamped benchmark payload
    and the hand-encoded MQTT 3.1.1 frames, proved against the broker's own
    fixed-header scanner.  Where the code panics ([expect]) the model answers
    [None]. *)

From S2P Require Import Prelude FixedHeader Rmqtt Decoder.

(** ** Integers as bytes *)

Fixpoint to_le_bytes (n : nat) (x : Z) : list Z :=
  match n with O => [] | S n => Z.land x 255 :: to_le_bytes n (Z.shiftr x 8) end.

Fixpoint from_le_bytes (bytes : list Z) : Z :=
  match bytes with [] => 0 | b :: bytes => Z.lor b (Z.shiftl (from_le_bytes bytes) 8) end.

(** [u16::to_be_bytes]. *)
Definition be16 (x : Z) : list Z := [Z.shiftr x 8; Z.land x 255].

Definition string_bytes (s : string) : list Z :=
  (fun a => Z.of_nat (Ascii.nat_of_ascii a)) <$> String.list_ascii_of_string s.

(** ** The stamp *)

Definition PAYLOAD_BYTES : nat := 64.
Definition TOPIC : string := "bench/load".

Record Stamp := { conn_id : Z; seq_no : Z; scheduled_ns : Z }.

Definition Stamp_encode (self : Stamp) : list Z :=
  to_le_bytes 4 (conn_id self) ++ to_le_bytes 8 (seq_no self) ++ to_le_bytes 8 (scheduled_ns self) ++
  replicate (PAYLOAD_BYTES - 20) 0.

Definition slice (l : list Z) (a b : nat) : list Z := take (b - a) (drop a l).

Definition Stamp_decode (payload : list Z) : option Stamp :=
  if negb (length payload =? PAYLOAD_BYTES)%nat then None
  else if existsb (fun b => negb (b =? 0)) (slice payload 20 PAYLOAD_BYTES) then None
  else Some {| conn_id := from_le_bytes (slice payload 0 4);
               seq_no := from_le_bytes (slice payload 4 12);
               scheduled_ns := from_le_bytes (slice payload 12 20) |}.

(** ** Frames *)

Definition INBOUND_REMAINING_LENGTH_MAX : Z := 1024.
Definition CONNACK_REMAINING_LENGTH : Z := 2.

Definition write_varint_step (s : Z * list Z) : (Z * list Z) + list Z :=
  let '(value, out) := s in
  let encoded := Z.land value 127 in
  let value := Z.shiftr value 7 in
  let encoded := if 0 <? value then Z.lor encoded 128 else encoded in
  let out := out ++ [encoded] in
  if value =? 0 then inr out else inl (value, out).

(** A [usize] has 64 bits, so ten groups of seven are enough
    ([write_varint_spec]). *)
Definition write_varint_fuel : nat := 10.

Definition write_varint (value : Z) (out : list Z) : list Z :=
  default out (loop write_varint_step write_varint_fuel (value, out)).

Definition encode_connect (client_id : string) : option (list Z) :=
  let id := string_bytes client_id in
  let body_len := 12 + Z.of_nat (length id) in
  if 2 ^ 16 <=? Z.of_nat (length id) then None
  else Some (write_varint body_len [16] ++ [0; 4; 77; 81; 84; 84] ++ [4] ++ [2] ++ [0; 0] ++
             be16 (Z.of_nat (length id)) ++ id).

(** [dst] is a [Vec] the frame is appended to. *)
Definition encode_publish (dst : list Z) (qos : Z) (packet_id : option Z) (payload : list Z) :
    option (list Z) :=
  let topic := string_bytes TOPIC in
  let fixed := Z.lor 48 (Z.land (Z.shiftl qos 1) 255) in
  let body_len := 2 + Z.of_nat (length topic) + Z.of_nat (length payload) + (if 0 <? qos then 2 else 0) in
  let head := write_varint body_len (dst ++ [fixed]) ++ be16 (Z.of_nat (length topic)) ++ topic in
  if 0 <? qos then
    match packet_id with
    | Some id => Some (head ++ be16 id ++ payload)
    | None => None
    end
  else Some (head ++ payload).

Definition encode_subscribe (packet_id qos : Z) : list Z :=
  let topic := string_bytes TOPIC in
  let body_len := 2 + 2 + Z.of_nat (length topic) + 1 in
  write_varint body_len [130] ++ be16 packet_id ++ be16 (Z.of_nat (length topic)) ++ topic ++ [qos].

Definition encode_puback (packet_id : Z) : list Z :=
  [64; 2; Z.shiftr packet_id 8; Z.land packet_id 255].

Definition DISCONNECT : list Z := [224; 0].

Definition packet_kind (packet : PacketV3) : string :=
  match packet with
  | V3_Connect _ => "CONNECT"
  | V3_ConnectAck _ => "CONNACK"
  | V3_Publish _ => "PUBLISH"
  | V3_PublishAck _ => "PUBACK"
  | V3_PublishReceived _ => "PUBREC"
  | V3_PublishRelease _ => "PUBREL"
  | V3_PublishComplete _ => "PUBCOMP"
  | V3_Subscribe _ _ => "SUBSCRIBE"
  | V3_SubscribeAck _ _ => "SUBACK"
  | V3_Unsubscribe _ _ => "UNSUBSCRIBE"
  | V3_UnsubscribeAck _ => "UNSUBACK"
  | V3_PingRequest => "PINGREQ"
  | V3_PingResponse => "PINGRESP"
  | V3_Disconnect => "DISCONNECT"
  end.

(** ** Little-endian round trips *)

Lemma low_byte x : u8 (Z.land x 255).
Proof. unfold u_range. change 255 with (Z.ones 8). rewrite Z.land_ones by lia. apply Z.mod_pos_bound. lia. Qed.

Lemma to_le_bytes_u8 n x : Forall u8 (to_le_bytes n x).
Proof. revert x. induction n; constructor; [apply low_byte|done]. Qed.

Lemma length_to_le_bytes n x : length (to_le_bytes n x) = n.
Proof. revert x. induction n; intros; simpl; congruence. Qed.

Lemma le_byte_split b y : u8 b -> Z.lor b (Z.shiftl y 8) = b + y * 256.
Proof. intros. rewrite lor_shiftl_add; [done|lia|done]. Qed.

Lemma from_to_le_bytes n x : 0 <= x < 256 ^ Z.of_nat n -> from_le_bytes (to_le_bytes n x) = x.
Proof.
  revert x. induction n as [|n IH]; intros x Hx; simpl; [lia|].
  rewrite Nat2Z.inj_succ, Z.pow_succ_r in Hx by lia.
  rewrite Z.shiftr_div_pow2 by lia. change (2 ^ 8) with 256.
  rewrite IH by (split; [apply Z.div_pos; lia|apply Z.div_lt_upper_bound; lia]).
  rewrite le_byte_split by apply low_byte. change 255 with (Z.ones 8). rewrite Z.land_ones by lia.
  change (2 ^ 8) with 256. pose proof (Z.div_mod x 256). lia.
Qed.

Lemma to_from_le_bytes bytes : Forall u8 bytes -> to_le_bytes (length bytes) (from_le_bytes bytes) = bytes.
Proof.
  induction 1 as [|b bytes Hb _ IH]; simpl; [done|]. rewrite le_byte_split by done.
  unfold u_range in Hb. f_equal.
  - change 255 with (Z.ones 8). rewrite Z.land_ones by lia. simpl. rewrite Z.mod_add, Z.mod_small by lia. done.
  - rewrite Z.shiftr_div_pow2 by lia. simpl. rewrite Z.div_add, Z.div_small by lia. done.
Qed.

Lemma from_le_bytes_range bytes : Forall u8 bytes -> 0 <= from_le_bytes bytes < 256 ^ Z.of_nat (length bytes).
Proof.
  induction 1 as [|b bytes Hb _ IH]; [done|]. cbn [from_le_bytes length]. rewrite le_byte_split by done.
  rewrite Nat2Z.inj_succ, Z.pow_succ_r by lia. unfold u_range in Hb. lia.
Qed.

(** A stamp whose fields have their machine widths. *)
Definition stamp_ok (s : Stamp) : Prop := u32 (conn_id s) /\ u64 (seq_no s) /\ u64 (scheduled_ns s).

Lemma slice_app (a b c : list Z) i j :
  i = length a -> j = (length a + length b)%nat -> slice (a ++ b ++ c) i j = b.
Proof.
  intros -> ->. unfold slice. rewrite drop_app_length. replace (length a + length b - length a)%nat
    with (length b) by lia. apply take_app_length.
Qed.

Lemma stamp_slices a b c d :
  length a = 4%nat -> length b = 8%nat -> length c = 8%nat -> length d = 44%nat ->
  let p := a ++ b ++ c ++ d in
  length p = PAYLOAD_BYTES /\ slice p 0 4 = a /\ slice p 4 12 = b /\ slice p 12 20 = c /\
  slice p 20 PAYLOAD_BYTES = d.
Proof.
  intros Ha Hb Hc Hd p. unfold p, PAYLOAD_BYTES. split_and!.
  - rewrite !length_app. lia.
  - apply (slice_app [] a (b ++ c ++ d)); simpl; lia.
  - apply (slice_app a b (c ++ d)); lia.
  - rewrite (app_assoc a b). apply (slice_app (a ++ b) c d); rewrite length_app; lia.
  - rewrite (app_assoc b c), (app_assoc a). rewrite <- (app_nil_r d) at 1.
    apply (slice_app (a ++ b ++ c) d []); rewrite !length_app; lia.
Qed.

Lemma existsb_zero l : existsb (fun b => negb (b =? 0)) l = false <-> l = replicate (length l) 0.
Proof.
  induction l as [|b l IH]; simpl; [done|]. rewrite orb_false_iff, IH, negb_false_iff, Z.eqb_eq.
  split; [intros [-> <-]; done|]. intros [= -> H]. by rewrite H at 1.
Qed.

(** Stamps survive the wire, and nothing else is taken for one: decoding
    inverts encoding for every stamp whose fields have their machine widths,
    and a payload that decodes is byte for byte the encoding of its stamp. *)
Theorem stamp_round_trip :
  (forall s, stamp_ok s -> Stamp_decode (Stamp_encode s) = Some s) /\
  (forall payload s, Forall u8 payload -> Stamp_decode payload = Some s ->
     stamp_ok s /\ Stamp_encode s = payload).
Proof.
  split.
  - intros [i q t] (Hi & Hq & Ht). unfold Stamp_decode, Stamp_encode, u_range in *. cbn [conn_id seq_no scheduled_ns] in *.
    destruct (stamp_slices (to_le_bytes 4 i) (to_le_bytes 8 q) (to_le_bytes 8 t) (replicate (PAYLOAD_BYTES - 20) 0))
      as (-> & -> & -> & -> & ->); [apply length_to_le_bytes..|done|].
    rewrite (proj2 (existsb_zero _)) by done. simpl negb. cbn iota.
    by rewrite !from_to_le_bytes by (simpl in *; lia).
  - intros payload s Hu. unfold Stamp_decode. destruct (Nat.eqb_spec (length payload) PAYLOAD_BYTES) as [Hl|]; [|done].
    destruct (existsb _ _) eqn:Ez; [done|]. intros [= <-]. apply existsb_zero in Ez.
    assert (payload = slice payload 0 4 ++ slice payload 4 12 ++ slice payload 12 20 ++ slice payload 20 PAYLOAD_BYTES) as Hp.
    { unfold PAYLOAD_BYTES in Hl. do 65 (destruct payload as [|? payload]; try discriminate). reflexivity. }
    assert (forall a b, (a <= b <= 64)%nat -> length (slice payload a b) = (b - a)%nat /\ Forall u8 (slice payload a b)) as Hs.
    { intros a b Hab. unfold slice. split; [rewrite length_take, length_drop, Hl; unfold PAYLOAD_BYTES; lia|].
      by apply Forall_take, Forall_drop. }
    destruct (Hs 0 4)%nat as [L1 U1]; [lia|]. destruct (Hs 4 12)%nat as [L2 U2]; [lia|].
    destruct (Hs 12 20)%nat as [L3 U3]; [lia|]. destruct (Hs 20 64)%nat as [L4 _]; [lia|].
    split.
    + pose proof (from_le_bytes_range _ U1) as R1. pose proof (from_le_bytes_range _ U2) as R2.
      pose proof (from_le_bytes_range _ U3) as R3. rewrite L1 in R1. rewrite L2 in R2. rewrite L3 in R3.
      unfold stamp_ok, u_range; simpl in *; lia.
    + rewrite Hp at 4. unfold Stamp_encode; cbn [conn_id seq_no scheduled_ns].
      rewrite <- (to_from_le_bytes _ U1) at 2. rewrite <- (to_from_le_bytes _ U2) at 2.
      rewrite <- (to_from_le_bytes _ U3) at 2. rewrite L1, L2, L3, Ez. unfold PAYLOAD_BYTES in *. rewrite L4. done.
Qed.

(** ** Frames are what the broker's scanner expects *)

(** A minimal varint: continuation bytes, then a last byte that is not a
    superfluous zero. *)
Definition minimal_varint (bytes : list Z) (value : Z) : Prop :=
  exists pre b, bytes = pre ++ [b] /\ Forall u8 bytes /\ Forall continues pre /\ ~ continues b /\
    (pre = [] \/ b <> 0) /\ varint_value bytes = value.

Lemma land127 v : 0 <= v -> Z.land v 127 = v mod 128.
Proof. intros. change 127 with (Z.ones 7). by rewrite Z.land_ones by lia. Qed.

Lemma lor128 x : 0 <= x < 128 -> Z.lor x 128 = x + 128.
Proof. intros. change 128 with (Z.shiftl 1 7) at 1. rewrite lor_shiftl_add; [done|lia|done]. Qed.

Lemma minimal_byte b v : 0 <= b < 128 -> b = v -> minimal_varint [b] v.
Proof.
  intros Hb <-. exists [], b. unfold continues, u_range.
  split_and!; [done|repeat constructor; lia|constructor|lia|by left|simpl; rewrite Z.mod_small by lia; lia].
Qed.

Lemma write_varint_loop n v out :
  0 <= v < 128 ^ Z.of_nat (S n) ->
  exists bytes, loop write_varint_step (S n) (v, out) = Some (out ++ bytes) /\
    minimal_varint bytes v /\ (length bytes <= S n)%nat.
Proof.
  revert v out. induction n as [|n IH]; intros v out Hv; rewrite loop_S; unfold write_varint_step at 1;
    rewrite Z.shiftr_div_pow2 by lia; change (2 ^ 7) with 128; rewrite land127 by lia;
    pose proof (Z.div_mod v 128 ltac:(lia)) as Hdm; pose proof (Z.mod_pos_bound v 128 ltac:(lia)) as Hm.
  - change (128 ^ Z.of_nat 1) with 128 in Hv.
    assert (v / 128 = 0) as Hz by (apply Z.div_small; lia). rewrite Hz in *. simpl.
    exists [v mod 128]. split; [done|]. split; [apply minimal_byte; lia|simpl; lia].
  - destruct (Z.eqb_spec (v / 128) 0) as [Hz|Hnz].
    + rewrite Hz in *. simpl. exists [v mod 128]. split; [done|]. split; [apply minimal_byte; lia|simpl; lia].
    + assert (0 <= v / 128) by (apply Z.div_pos; lia).
      replace (0 <? v / 128) with true by (symmetry; apply Z.ltb_lt; lia). rewrite lor128 by lia.
      destruct (IH (v / 128) (out ++ [v mod 128 + 128])) as (bytes & Hl & (pre & b & -> & Hu & Hc & Hb & Hmin & Hval) & Hlen).
      { rewrite Nat2Z.inj_succ, Z.pow_succ_r in Hv by lia. split; [lia|]. apply Z.div_lt_upper_bound; lia. }
      exists ((v mod 128 + 128) :: pre ++ [b]). rewrite Hl, <- app_assoc. split; [done|]. split; [|simpl; lia].
      exists ((v mod 128 + 128) :: pre), b. unfold continues, u_range in *. split_and!; [done| | |done| |].
      * constructor; [lia|done].
      * constructor; [lia|done].
      * right. intros ->. destruct Hmin as [->|]; [|done]. change (0 = v / 128) in Hval. lia.
      * cbn [varint_value]. rewrite Hval. replace (v mod 128 + 128) with (v mod 128 + 1 * 128) by lia.
        rewrite Z.mod_add, Z.mod_mod by lia. lia.
Qed.

Lemma write_varint_spec v out : u64 v ->
  exists bytes, write_varint v out = out ++ bytes /\ minimal_varint bytes v /\
    forall n, 0 <= v < 128 ^ Z.of_nat (S n) -> (length bytes <= S n)%nat.
Proof.
  unfold u_range, write_varint, write_varint_fuel. intros Hv.
  destruct (write_varint_loop 9 v out) as (bytes & Hl & Hm & _); [simpl; lia|].
  exists bytes. rewrite Hl. split; [done|]. split; [done|]. intros n Hn.
  destruct (write_varint_loop n v out Hn) as (bytes' & Hl' & _ & Hlen).
  destruct (decide (S n <= 10)%nat).
  - pose proof (loop_mono _ _ 10 _ _ l Hl') as Hl2. rewrite Hl in Hl2. by simplify_eq.
  - pose proof (loop_mono write_varint_step 10 (S n) _ _ ltac:(lia) Hl) as Hl2. rewrite Hl' in Hl2. by simplify_eq.
Qed.

(** A type byte, the body's length as a varint and the body: the scanner finds
    exactly that frame, whatever follows it. *)
Lemma frame_scans ty body rest :
  u8 ty -> ty <> PINGREQ_FIRST_BYTE -> Forall u8 body -> Forall u8 rest ->
  Z.of_nat (length body) <= MAX_REMAINING_LENGTH ->
  let frame := write_varint (Z.of_nat (length body)) [ty] ++ body in
  Forall u8 frame /\
  exists h, fixed_header (frame ++ rest) = Some (h, Z.of_nat (length body)) /\
    h + Z.of_nat (length body) = Z.of_nat (length frame) /\
    drop (Z.to_nat h) (frame ++ rest) = body ++ rest /\
    rejects_malformed_fixed_header (frame ++ rest) = false.
Proof.
  intros Hty Hne Hb Hr Hlen frame. unfold MAX_REMAINING_LENGTH in Hlen.
  destruct (write_varint_spec (Z.of_nat (length body)) [ty]) as (bytes & Hw & (pre & b & -> & Hu & Hc & Hnc & Hmin & Hval) & Hlim);
    [unfold u_range; lia|].
  specialize (Hlim 3%nat ltac:(simpl; lia)). rewrite length_app in Hlim. simpl in Hlim.
  assert (frame = ty :: pre ++ b :: body) as -> by (unfold frame; rewrite Hw; simpl; by rewrite <- app_assoc).
  apply Forall_app in Hu as [Hup Hub]. apply Forall_cons in Hub as [Hub _].
  assert (Forall u8 (ty :: pre ++ b :: body)) as Hf by (constructor; [done|]; apply Forall_app; split; [done|]; by constructor).
  split; [done|]. exists (2 + Z.of_nat (length pre)).
  assert (fixed_header ((ty :: pre ++ b :: body) ++ rest) = Some (2 + Z.of_nat (length pre), Z.of_nat (length body))) as Hh.
  { apply header_grammar_scan; [by apply Forall_app|]. exists ty, pre, b, (body ++ rest).
    unfold MAX_VARINT_BYTES. split_and!; [simpl; by rewrite <- app_assoc|done|done|lia|done|done]. }
  split; [done|]. split; [simpl; rewrite length_app; simpl; lia|]. split.
  - replace (Z.to_nat (2 + Z.of_nat (length pre))) with (length (ty :: pre ++ [b])) by (simpl; rewrite length_app; simpl; lia).
    replace ((ty :: pre ++ b :: body) ++ rest) with ((ty :: pre ++ [b]) ++ body ++ rest)
      by (simpl; by rewrite <- !app_assoc). apply drop_app_length.
  - unfold rejects_malformed_fixed_header. rewrite Hh. cbn [lookup list_lookup default app].
    unfold id. replace (ty =? PINGREQ_FIRST_BYTE) with false by (symmetry; by apply Z.eqb_neq).
    cbn [andb orb].
    rewrite varint_len_width by lia. replace (2 + Z.of_nat (length pre) - 1) with (1 + Z.of_nat (length pre)) by lia.
    apply not_true_is_false. rewrite <- Hval. intros Hx.
    apply varint_minimal in Hx as [Hn ->]; [naive_solver|unfold u_range, continues in *; lia|unfold MAX_VARINT_BYTES; lia].
Qed.

(** The bytes are one well-formed frame to the broker, whatever follows. *)
Definition one_frame (frame : list Z) : Prop := forall rest, Forall u8 rest ->
  packet_len (frame ++ rest) = Some (Z.of_nat (length frame)) /\
  holds_complete_packet (frame ++ rest) = true /\
  rejects_malformed_fixed_header (frame ++ rest) = false.

Lemma frame_one ty body n :
  u8 ty -> ty <> PINGREQ_FIRST_BYTE -> Forall u8 body -> n = Z.of_nat (length body) ->
  n <= MAX_REMAINING_LENGTH -> one_frame (write_varint n [ty] ++ body).
Proof.
  intros Hty Hne Hb -> Hn rest Hr. destruct (frame_scans ty body rest Hty Hne Hb Hr Hn) as (_ & h & Hh & Hl & _ & Hm).
  unfold packet_len, holds_complete_packet, packet_len. rewrite Hh, Hl. split; [done|]. split; [|done].
  apply Z.leb_le. rewrite !length_app. lia.
Qed.

Lemma string_bytes_u8 s : Forall u8 (string_bytes s).
Proof.
  unfold string_bytes. apply Forall_fmap, Forall_forall. intros a _.
  change (u8 (Z.of_nat (Ascii.nat_of_ascii a))). pose proof (Ascii.nat_ascii_bounded a). unfold u_range. lia.
Qed.

Lemma be16_u8 x : 0 <= x < 2 ^ 16 -> Forall u8 (be16 x).
Proof.
  intros Hx. unfold be16. constructor; [|constructor; [apply low_byte|constructor]].
  rewrite Z.shiftr_div_pow2 by lia. unfold u_range. split; [apply Z.div_pos; lia|].
  apply Z.div_lt_upper_bound; simpl; lia.
Qed.

(** The varint goes behind whatever the buffer already holds. *)
Lemma write_varint_app v dst ty : u64 v -> write_varint v (dst ++ [ty]) = dst ++ write_varint v [ty].
Proof.
  intros Hv. unfold write_varint, u_range in *.
  assert (forall n v dst out, 0 <= v < 128 ^ Z.of_nat (S n) ->
    loop write_varint_step (S n) (v, dst ++ out) = option_map (app dst) (loop write_varint_step (S n) (v, out))) as Hl.
  { clear. induction n as [|n IH]; intros v dst out Hv;
      rewrite (loop_S _ _ (v, dst ++ out)), (loop_S _ _ (v, out)); cbn [write_varint_step];
      destruct (Z.shiftr v 7 =? 0); cbn [option_map]; rewrite <- ?app_assoc; try done.
    apply IH. rewrite Z.shiftr_div_pow2 by lia. rewrite Nat2Z.inj_succ, Z.pow_succ_r in Hv by lia.
    split; [apply Z.div_pos; lia|]. apply Z.div_lt_upper_bound; simpl; lia. }
  destruct (write_varint_loop 9 v [ty]) as (bytes & Hb & _); [simpl; lia|].
  unfold write_varint_fuel. rewrite Hl by (simpl; lia). by rewrite Hb.
Qed.

(** ** The frames, one by one *)

Lemma connect_frame client_id frame :
  encode_connect client_id = Some frame ->
  one_frame frame /\ forall rest, Forall u8 rest -> names_a_known_protocol (frame ++ rest) = true.
Proof.
  unfold encode_connect. set (cid := string_bytes client_id).
  pose proof (string_bytes_u8 client_id : Forall u8 cid) as Hid.
  destruct (Z.leb_spec (2 ^ 16) (Z.of_nat (length cid))) as [|Hlen]; [done|]. intros [= <-].
  match goal with |- one_frame (write_varint _ _ ++ ?b) /\ _ => set (body := b) end.
  assert (Forall u8 body /\ 12 + Z.of_nat (length cid) = Z.of_nat (length body)) as [Hb Hl].
  { unfold body. split; [|simpl; lia]. repeat (apply Forall_cons; split; [unfold u_range; lia|]).
    change (Forall u8 (be16 (Z.of_nat (length cid)) ++ cid)).
    apply Forall_app. split; [apply be16_u8; lia|done]. }
  split; [apply frame_one; [unfold u_range; lia|done|done|done|unfold MAX_REMAINING_LENGTH; lia]|].
  intros rest Hr. rewrite Hl.
  destruct (frame_scans 16 body rest) as (Hf & h & Hh & Hhl & Hd & Hm);
    [unfold u_range; lia|done|done|done|unfold MAX_REMAINING_LENGTH; lia|].
  apply names_a_known_protocol_spec; [by apply Forall_app|].
  exists h, (Z.of_nat (length body)), 0, 4, PROTOCOL_NAME_MQTT, (drop 6 body ++ rest).
  split_and!; [done|done|exact Hd|done|by left|]. unfold PROTOCOL_NAME_LEN_BYTES. rewrite <- Hl. simpl. lia.
Qed.

(** A PUBLISH of the benchmark topic with [suffix] behind the topic name. *)
Lemma topic_frame dst fixed suffix n :
  u8 fixed -> fixed <> PINGREQ_FIRST_BYTE -> Forall u8 suffix -> n = Z.of_nat (12 + length suffix) -> n <= 100 ->
  exists frame, (dst ++ write_varint n [fixed]) ++ be16 10 ++ string_bytes TOPIC ++ suffix = dst ++ frame /\
    one_frame frame /\ Z.of_nat (length frame) <= MaxInboundPacketSize_get MaxInboundPacketSize_DEFAULT.
Proof.
  intros Hfx Hnp Hs Hn Hn100. set (body := be16 10 ++ string_bytes TOPIC ++ suffix).
  exists (write_varint n [fixed] ++ body). rewrite <- app_assoc. split; [done|].
  assert (n = Z.of_nat (length body)) as Hnb by (unfold body; rewrite !length_app; simpl; lia).
  split; [apply frame_one; [done|done| |done|unfold MAX_REMAINING_LENGTH; lia]|].
  - unfold body. apply Forall_app. split; [apply be16_u8; lia|]. apply Forall_app. split; [apply string_bytes_u8|done].
  - destruct (write_varint_spec n [fixed]) as (bytes & -> & _ & Hbl); [unfold u_range; lia|].
    specialize (Hbl 0%nat ltac:(simpl; lia)). rewrite !length_app. simpl in *. lia.
Qed.

Lemma publish_frame dst qos packet_id payload :
  0 <= qos <= 2 -> (forall id, packet_id = Some id -> u16 id) -> Forall u8 payload ->
  length payload = PAYLOAD_BYTES ->
  match encode_publish dst qos packet_id payload with
  | Some out => exists frame, out = dst ++ frame /\ one_frame frame /\
      Z.of_nat (length frame) <= MaxInboundPacketSize_get MaxInboundPacketSize_DEFAULT
  | None => 0 < qos /\ packet_id = None
  end.
Proof.
  intros Hq Hid Hu Hlen. unfold encode_publish. unfold PAYLOAD_BYTES in Hlen.
  rewrite write_varint_app, Hlen by (unfold u_range; rewrite Hlen; destruct (0 <? qos); simpl; lia).
  set (fixed := Z.lor 48 _). assert (u8 fixed /\ fixed <> PINGREQ_FIRST_BYTE) as [Hfx Hnp].
  { assert (qos = 0 \/ qos = 1 \/ qos = 2) as [->|[->| ->]] by lia; by vm_compute. }
  destruct (Z.ltb_spec 0 qos) as [Hpos|Hz].
  - destruct packet_id as [id|]; [|done].
    destruct (topic_frame dst fixed (be16 id ++ payload) 78) as (frame & Hf & Hone);
      [done|done|apply Forall_app; split; [apply be16_u8, Hid; done|done]|rewrite length_app, Hlen; done|lia|].
    exists frame. split; [|done]. rewrite <- Hf. rewrite <- ?app_assoc. reflexivity.
  - destruct (topic_frame dst fixed payload 76) as (frame & Hf & Hone); [done..|rewrite Hlen; done|lia|].
    exists frame. split; [|done]. rewrite <- Hf. rewrite <- ?app_assoc. reflexivity.
Qed.

Lemma subscribe_frame packet_id qos : u16 packet_id -> 0 <= qos <= 2 -> one_frame (encode_subscribe packet_id qos).
Proof.
  intros Hid Hq. unfold encode_subscribe.
  apply frame_one; [unfold u_range; lia|done| |rewrite !length_app; simpl; lia|unfold MAX_REMAINING_LENGTH; simpl; lia].
  repeat (apply Forall_app; split); [by apply be16_u8|apply be16_u8; simpl; lia|apply string_bytes_u8|].
  constructor; [unfold u_range; lia|constructor].
Qed.

Lemma puback_frame packet_id : u16 packet_id -> one_frame (encode_puback packet_id).
Proof.
  intros Hid. change (encode_puback packet_id) with (write_varint 2 [64] ++ be16 packet_id).
  apply frame_one; [unfold u_range; lia|done|by apply be16_u8|done|unfold MAX_REMAINING_LENGTH; lia].
Qed.

Lemma disconnect_frame : one_frame DISCONNECT.
Proof.
  change DISCONNECT with (write_varint 0 [224] ++ []).
  apply frame_one; [unfold u_range; lia|done|done|done|unfold MAX_REMAINING_LENGTH; lia].
Qed.

(** The generator and the broker agree on framing: every CONNECT,
    PUBLISH, SUBSCRIBE, PUBACK and DISCONNECT the generator encodes is, for the
    broker's fixed-header scanner, exactly one complete and well-formed packet
    whatever bytes follow it; a PUBLISH is appended behind what the buffer
    holds, is under the default inbound bound, and needs a packet id exactly
    above QoS 0; and a CONNECT names a protocol the version decoder knows. *)
Theorem bench_frames_scan :
  (forall client_id frame, encode_connect client_id = Some frame ->
     one_frame frame /\ forall rest, Forall u8 rest -> names_a_known_protocol (frame ++ rest) = true) /\
  (forall dst qos packet_id payload,
     0 <= qos <= 2 -> (forall id, packet_id = Some id -> u16 id) -> Forall u8 payload ->
     length payload = PAYLOAD_BYTES ->
     match encode_publish dst qos packet_id payload with
     | Some out => exists frame, out = dst ++ frame /\ one_frame frame /\
         Z.of_nat (length frame) <= MaxInboundPacketSize_get MaxInboundPacketSize_DEFAULT
     | None => 0 < qos /\ packet_id = None
     end) /\
  (forall packet_id qos, u16 packet_id -> 0 <= qos <= 2 -> one_frame (encode_subscribe packet_id qos)) /\
  (forall packet_id, u16 packet_id -> one_frame (encode_puback packet_id)) /\
  one_frame DISCONNECT.
Proof.
  split_and!; [apply connect_frame|apply publish_frame|apply subscribe_frame|apply puback_frame|apply disconnect_frame].
Qed.
