(* ===== verification/SimpleBroker.v ===== *)
(** * The example server

    examples/simple_broker.rs: the payload format it accepts, the callback that
    counts readings and rejected payloads and logs some of them, and [main] on
    top of [Broker].  A log line is its arguments; the log filter is built by
    tracing-subscriber and left out. *)

From S2P Require Import Prelude FixedHeader Rmqtt Errors Decoder Packet Handshake Api Channel Runtime Session Worker Broker Wire.

Record SensorV1 := { temperature : Z; pressure : Z }.

Definition SENSOR_V1_LEN : nat := 4.
Definition LOG_EVERY : Z := 100.

(** [i16::from_be_bytes] and [u16::from_be_bytes]. *)
Definition be_u16 (hi lo : Z) : Z := 256 * hi + lo.
Definition be_i16 (hi lo : Z) : Z := let x := be_u16 hi lo in if x <? 2 ^ 15 then x else x - 2 ^ 16.

Definition parse_sensor_data (data : list Z) : option SensorV1 :=
  if negb (Nat.eqb (length data) SENSOR_V1_LEN) then None
  else match data with
       | b0 :: b1 :: b2 :: b3 :: _ => Some {| temperature := be_i16 b0 b1; pressure := be_u16 b2 b3 |}
       | _ => None
       end.

Inductive ExampleLog := ReadingLine (total : Z) (r : SensorV1) | RejectedLine (topic : string) (bytes total : Z).

Record Tally := { readings : Z; rejected : Z; lines : list ExampleLog }.

Definition record_payload (t : Tally) (topic : string) (payload : list Z) : Tally :=
  match parse_sensor_data payload with
  | Some r =>
      let total := wrap64 (readings t + 1) in
      {| readings := total; rejected := rejected t;
         lines := if (total =? 1) || (total mod LOG_EVERY =? 0) then lines t ++ [ReadingLine total r] else lines t |}
  | None =>
      let total := wrap64 (rejected t + 1) in
      {| readings := readings t; rejected := total;
         lines := if (total =? 1) || (total mod LOG_EVERY =? 0)
                  then lines t ++ [RejectedLine topic (Z.of_nat (length payload)) total] else lines t |}
  end.

(** The callback [main] installs. *)
Definition callback (t : Tally) (publish : Publish) : Tally := record_payload t (topic publish) (payload publish).
Definition no_readings : Tally := {| readings := 0; rejected := 0; lines := [] |}.

Definition example_config : BrokerConfig :=
  foldl configure (BrokerConfig_new "0.0.0.0:1883")
    [SetMaxConnectionsPerWorker 1000; SetConnectionTimeoutSecs 10; SetIdleTimeoutSecs 300].

(** [main]: [handler] is the answer of [ctrlc::set_handler], [results] what the
    worker threads return. *)
Definition main (available_parallelism : option Z) (pair spawn : nat -> io_result unit) (ready : list (Z * result unit Error))
    (handler : option string) (results : list ThreadResult) : result unit Error :=
  match outcome (start_with_callback example_config available_parallelism pair spawn ready) with
  | Err e => Err e
  | Ok handle =>
      match handler with
      | Some e => Err (Errors.Worker ("install ctrl-c handler: " +:+ e))
      | None => (BrokerHandle_join handle results).1
      end
  end.

(** ** The payload format *)

Definition sensor_ok (r : SensorV1) : Prop := - 2 ^ 15 <= temperature r < 2 ^ 15 /\ u16 (pressure r).

Definition sensor_bytes (r : SensorV1) : list Z := be16 (temperature r mod 2 ^ 16) ++ be16 (pressure r).

Lemma be16_value x : u16 x -> exists hi lo, be16 x = [hi; lo] /\ be_u16 hi lo = x.
Proof.
  intros Hx. exists (Z.shiftr x 8), (Z.land x 255). split; [done|]. unfold be_u16. rewrite Z.shiftr_div_pow2 by lia.
  change 255 with (Z.ones 8). rewrite Z.land_ones by lia. change (2 ^ 8) with 256. pose proof (Z.div_mod x 256). lia.
Qed.

(** Every reading has its four bytes, and no other payload is a reading. *)
Lemma sensor_round_trip r : sensor_ok r -> parse_sensor_data (sensor_bytes r) = Some r.
Proof.
  intros [Ht Hp]. destruct r as [t p]. unfold sensor_bytes. cbn [temperature pressure] in *.
  destruct (be16_value (t mod 2 ^ 16)) as (h1 & l1 & -> & E1); [unfold u_range; pose proof (Z.mod_pos_bound t (2 ^ 16)); lia|].
  destruct (be16_value p Hp) as (h2 & l2 & -> & E2). cbn [app].
  transitivity (Some {| temperature := be_i16 h1 l1; pressure := be_u16 h2 l2 |}); [done|]. do 2 f_equal; [|done]. unfold be_i16. rewrite E1.
  destruct (Z.ltb_spec (t mod 2 ^ 16) (2 ^ 15)) as [Hlt|Hge]; [destruct (Z.le_gt_cases 0 t) as [?|Hneg]|destruct (Z.le_gt_cases 0 t) as [?|Hneg]].
  - by rewrite Z.mod_small by lia.
  - rewrite <- (Z.mod_add t 1 (2 ^ 16)), Z.mod_small in Hlt by lia. lia.
  - rewrite Z.mod_small in Hge by lia. lia.
  - rewrite <- (Z.mod_add t 1 (2 ^ 16)), Z.mod_small by lia. lia.
Qed.

Lemma sensor_exact data r : Forall u8 data -> parse_sensor_data data = Some r -> sensor_ok r /\ length data = SENSOR_V1_LEN.
Proof.
  intros Hd. destruct data as [|b0 [|b1 [|b2 [|b3 [|]]]]]; try done. unfold parse_sensor_data. intros [= <-]. decompose_Forall_hyps. split; [|done].
  unfold sensor_ok, be_i16, be_u16, u_range in *. cbn [temperature pressure]. destruct (Z.ltb_spec (256 * b0 + b1) (2 ^ 15)); lia.
Qed.

(** ** Counting *)

Definition is_reading (p : Publish) : bool := match parse_sensor_data (payload p) with Some _ => true | None => false end.

(** Over the publishes a run delivers, every payload is counted once. *)
Lemma callback_counts publishes : Z.of_nat (length publishes) < 2 ^ 64 ->
  let t := foldl callback no_readings publishes in
  readings t = Z.of_nat (length (filter is_reading publishes)) /\
  rejected t = Z.of_nat (length (filter (fun p => negb (is_reading p)) publishes)) /\
  readings t + rejected t = Z.of_nat (length publishes).
Proof.
  induction publishes as [|p publishes IH] using rev_ind; [done|]. rewrite length_app. cbn [length]. intros Hlt.
  destruct IH as (E1 & E2 & E3); [lia|]. cbv zeta. rewrite foldl_app, !filter_app, !length_app. cbn [foldl].
  set (t := foldl callback no_readings publishes) in *. clearbody t. unfold callback, record_payload.
  assert (is_reading p = match parse_sensor_data (payload p) with Some _ => true | None => false end) as Hp by done.
  rewrite !filter_cons, !filter_nil. destruct (parse_sensor_data (payload p)); cbn [readings rejected]; rewrite wrap_small by lia;
    repeat case_decide; rewrite Hp in *; cbn [length]; try done; lia.
Qed.
