(* ===== verification/Recorder.v ===== *)
(** * The benchmark's delivery recorder

    [Recorder] of bench/src/record.rs: per-connection duplicate detection in a
    chunked bitset, counters, per-second timelines and the merged report.
    hdrhistogram is a dependency: the class [HdrHistogram] has the operations
    the recorder calls.  A mutex per shard makes every [record] atomic, so a
    run is a sequence of deliveries. *)

From S2P Require Import Prelude Api Wire.

Definition LATENCY_MAX_NS : Z := 60000000000.
Definition ARM_ORIGIN_SKEW_MAX_NS : Z := 60000000000.
Definition WINDOW_MAX_SPAN_NS : Z := 3600000000000.
Definition LATENCY_HISTOGRAM_BINS : Z := 27 * 1024.
Definition LATENCY_BINS_BUDGET : Z := 32 * 1024 * 1024.
Definition CONNECTIONS_MAX : Z := LATENCY_BINS_BUDGET / LATENCY_HISTOGRAM_BINS.
Definition SEQ_CHUNK_WORDS : nat := 8.
Definition SEQ_CHUNK_SEQS : Z := Z.of_nat SEQ_CHUNK_WORDS * 64.
Definition NS : Z := 1000000000.

Record Window := { start_ns : Z; end_ns : Z }.

Definition Window_contains (self : Window) (ns : Z) : bool := (start_ns self <=? ns) && (ns <? end_ns self).
Definition start_sec (self : Window) : Z := start_ns self / NS.
Definition end_sec (self : Window) : Z := end_ns self / NS.

Record Timeline := { origin_sec : Z; counts : list Z }.

(** [checked_add] over the bins. *)
Fixpoint checked_sum (total : Z) (l : list Z) : option Z :=
  match l with
  | [] => Some total
  | c :: l => if total + c <? 2 ^ 64 then checked_sum (total + c) l else None
  end.

Definition Timeline_total (self : Timeline) : option Z := checked_sum 0 (counts self).

Definition sum_secs (self : Timeline) (from_sec to_sec : Z) : Z :=
  let len := Z.of_nat (length (counts self)) in
  let first_sec := Z.max from_sec (origin_sec self) in
  let last_sec := Z.min to_sec (sat_add 64 (origin_sec self) len) in
  if last_sec <=? first_sec then 0
  else foldl (sat_add 64) 0
         (slice (counts self) (Z.to_nat (first_sec - origin_sec self)) (Z.to_nat (last_sec - origin_sec self))).

Class HdrHistogram := {
  Histogram : Type;
  new_latency_histogram : Histogram;
  hist_record : Histogram -> Z -> Histogram;
  hist_add : Histogram -> Histogram -> Histogram;
  histogram_buckets : Histogram -> list (Z * Z)
}.

(** The messages [arm_at] formats, with the values it puts in them. *)
Inductive ArmError :=
| OriginSkew (origin_ns now_ns : Z)
| StartPrecedesOrigin (start_ns origin_ns : Z)
| EmptyWindow (start_ns end_ns : Z)
| WindowTooLong (end_ns origin_ns : Z)
| AlreadyArmed.

Record WorkerLoad := { connections : Z; load_delivered : Z; latency_p99_ns : option Z }.

(** [timeline.resize(n, 0)] for a longer [n]. *)
Definition grow (l : list Z) (n : nat) : list Z := l ++ replicate (n - length l) 0.

Section Recorder.
Context `{HdrHistogram}.

Record Shard := {
  seen : gmap Z (list Z);
  s_delivered : Z;
  s_duplicates : Z;
  s_over_range : Z;
  s_anomalies : Z;
  timeline_origin_sec : option Z;
  timeline : list Z;
  latency : option Histogram;
  first_thread : option Z
}.

Definition Shard_new : Shard :=
  {| seen := ∅; s_delivered := 0; s_duplicates := 0; s_over_range := 0; s_anomalies := 0;
     timeline_origin_sec := None; timeline := []; latency := None; first_thread := None |}.

Definition set_seq_bit (self : gmap Z (list Z)) (seq : Z) : bool * gmap Z (list Z) :=
  let chunk := seq / SEQ_CHUNK_SEQS in
  let offset := seq mod SEQ_CHUNK_SEQS in
  let idx := Z.to_nat (offset / 64) in
  let mask := Z.shiftl 1 (offset mod 64) in
  let words := default (replicate SEQ_CHUNK_WORDS 0) (self !! chunk) in
  let word := default 0 (words !! idx) in
  if negb (Z.land word mask =? 0) then (true, <[chunk := words]> self)
  else (false, <[chunk := <[idx := Z.lor word mask]> words]> self).

Definition bump_timeline (origin : option Z) (bins : list Z) (now_ns origin_sec : Z) : option Z * list Z :=
  let now_sec := now_ns / NS in
  let base := default origin_sec origin in
  let '(bins, base) :=
    if now_sec <? base then (replicate (Z.to_nat (base - now_sec)) 0 ++ bins, now_sec) else (bins, base) in
  let idx := Z.to_nat (now_sec - base) in
  let bins := if (length bins <=? idx)%nat then grow bins (idx + 1) else bins in
  (Some base, <[idx := sat_add 64 (default 0 (bins !! idx)) 1]> bins).

Record Recorder := {
  armed : option (Z * Window);
  shards : list Shard;
  foreign : Z
}.

Definition Recorder_new (connections : Z) : Recorder :=
  {| armed := None; shards := replicate (Z.to_nat connections) Shard_new; foreign := 0 |}.

Definition arm_at (self : Recorder) (origin_ns : Z) (window : Window) (now_ns : Z) :
    result unit ArmError * Recorder :=
  if ARM_ORIGIN_SKEW_MAX_NS <? Z.abs (origin_ns - now_ns) then (Err (OriginSkew origin_ns now_ns), self)
  else if start_ns window <? origin_ns then (Err (StartPrecedesOrigin (start_ns window) origin_ns), self)
  else if end_ns window <=? start_ns window then (Err (EmptyWindow (start_ns window) (end_ns window)), self)
  else if WINDOW_MAX_SPAN_NS <? end_ns window - origin_ns then
    (Err (WindowTooLong (end_ns window) origin_ns), self)
  else match armed self with
       | Some _ => (Err AlreadyArmed, self)
       | None => (Ok tt, {| armed := Some (origin_ns / NS, window); shards := shards self;
                            foreign := foreign self |})
       end.

Definition note_foreign (self : Recorder) : Recorder :=
  {| armed := armed self; shards := shards self; foreign := wrap64 (foreign self + 1) |}.

(** The locked part of [record]. *)
Definition record_in_shard (s : Shard) (stamp : Stamp) (now_ns origin_sec : Z) (window : Window) (thread : Z) :
    Shard :=
  let thread := Some (default thread (first_thread s)) in
  let '(already, bits) := set_seq_bit (seen s) (seq_no stamp) in
  if already then
    {| seen := bits; s_delivered := s_delivered s; s_duplicates := sat_add 64 (s_duplicates s) 1;
       s_over_range := s_over_range s; s_anomalies := s_anomalies s;
       timeline_origin_sec := timeline_origin_sec s; timeline := timeline s; latency := latency s;
       first_thread := thread |}
  else
    let '(origin, bins) := bump_timeline (timeline_origin_sec s) (timeline s) now_ns origin_sec in
    let late := now_ns <? scheduled_ns stamp in
    let in_window := negb late && Window_contains window (scheduled_ns stamp) in
    let lat := now_ns - scheduled_ns stamp in
    {| seen := bits; s_delivered := sat_add 64 (s_delivered s) 1; s_duplicates := s_duplicates s;
       s_over_range := if in_window && (LATENCY_MAX_NS <? lat) then sat_add 64 (s_over_range s) 1
                       else s_over_range s;
       s_anomalies := if late then sat_add 64 (s_anomalies s) 1 else s_anomalies s;
       timeline_origin_sec := origin; timeline := bins;
       latency := if in_window && negb (LATENCY_MAX_NS <? lat)
                  then Some (hist_record (default new_latency_histogram (latency s)) (Z.max lat 1))
                  else latency s;
       first_thread := thread |}.

Definition record (self : Recorder) (payload : list Z) (now_ns thread : Z) : Recorder :=
  match armed self with
  | None => note_foreign self
  | Some (origin_sec, window) =>
      match Stamp_decode payload with
      | None => note_foreign self
      | Some stamp =>
          match shards self !! Z.to_nat (conn_id stamp) with
          | None => note_foreign self
          | Some s =>
              {| armed := armed self;
                 shards := <[Z.to_nat (conn_id stamp) :=
                             record_in_shard s stamp now_ns origin_sec window thread]> (shards self);
                 foreign := foreign self |}
          end
      end
  end.

Definition record_on_topic (self : Recorder) (topic : string) (payload : list Z) (now_ns thread : Z) : Recorder :=
  if bool_decide (topic = TOPIC) then record self payload now_ns thread else note_foreign self.

(** The callback a benchmark server installs: one delivery per publish. *)
Definition callback (self : Recorder) (p : Publish) (now_ns thread : Z) : Recorder :=
  record_on_topic self (Api.topic p) (Api.payload p) now_ns thread.

(** ** The report *)

Definition merge_histogram (target : option Histogram) (h : Histogram) : option Histogram :=
  match target with Some t => Some (hist_add t h) | None => Some h end.

(** Add [counts] into [timeline] from index [offset]. *)
Fixpoint add_bins (timeline : list Z) (offset : nat) (counts : list Z) : list Z :=
  match counts with
  | [] => timeline
  | c :: counts =>
      add_bins (<[offset := sat_add 64 (default 0 (timeline !! offset)) c]> timeline) (S offset) counts
  end.

Definition merge_timeline (origin : Z) (timeline : list Z) (shard : Z * list Z) : list Z :=
  let offset := Z.to_nat (shard.1 - origin) in
  let timeline :=
    if (length timeline <? offset + length shard.2)%nat then grow timeline (offset + length shard.2) else timeline in
  add_bins timeline offset shard.2.

Record DeliveryReport := {
  delivered : Z;
  duplicates : Z;
  report_foreign : Z;
  latency_over_range : Z;
  clock_anomalies : Z;
  dropped : option Z;
  report_timeline : Timeline;
  report_latency : list (Z * Z);
  worker_loads : option (list WorkerLoad)
}.

Definition shard_timelines (self : Recorder) : list (Z * list Z) :=
  omap (fun s => match timeline_origin_sec s with Some o => Some (o, timeline s) | None => None end) (shards self).

Definition min_origin (armed_origin : Z) (l : list (Z * list Z)) : Z :=
  match l with [] => armed_origin | x :: l => foldl (fun m y => Z.min m y.1) x.1 l end.

Definition report (self : Recorder) : DeliveryReport :=
  let sum f := foldl (fun acc s => sat_add 64 acc (f s)) 0 (shards self) in
  let merged := foldl (fun m s => match latency s with Some h => merge_histogram m h | None => m end) None
                  (shards self) in
  let origin := min_origin (match armed self with Some (o, _) => o | None => 0 end) (shard_timelines self) in
  {| delivered := sum s_delivered; duplicates := sum s_duplicates; report_foreign := foreign self;
     latency_over_range := sum s_over_range; clock_anomalies := sum s_anomalies;
     dropped := None; worker_loads := None;
     report_timeline := {| origin_sec := origin;
                           counts := foldl (merge_timeline origin) [] (shard_timelines self) |};
     report_latency := match merged with Some h => histogram_buckets h | None => [] end |}.
End Recorder.

(** ** The duplicate bitset *)

(** Membership of a sequence number in the chunked bitset. *)
Definition seq_seen (m : gmap Z (list Z)) (q : Z) : bool :=
  match m !! (q / SEQ_CHUNK_SEQS) with
  | Some words => Z.testbit (default 0 (words !! Z.to_nat (q mod SEQ_CHUNK_SEQS / 64))) (q mod SEQ_CHUNK_SEQS mod 64)
  | None => false
  end.

(** Every chunk has its fixed number of words. *)
Definition seen_wf (m : gmap Z (list Z)) : Prop := map_Forall (fun _ words => length words = SEQ_CHUNK_WORDS) m.

Lemma seq_coords q :
  (Z.to_nat (q mod SEQ_CHUNK_SEQS / 64) < SEQ_CHUNK_WORDS)%nat /\ 0 <= q mod SEQ_CHUNK_SEQS mod 64 < 64.
Proof.
  change SEQ_CHUNK_SEQS with 512. unfold SEQ_CHUNK_WORDS. pose proof (Z.mod_pos_bound q 512).
  pose proof (Z.mod_pos_bound (q mod 512) 64). split; [|lia].
  assert (q mod 512 / 64 < 8) by (apply Z.div_lt_upper_bound; lia).
  assert (0 <= q mod 512 / 64) by (apply Z.div_pos; lia). lia.
Qed.

Lemma seq_coords_inj q q' :
  q / SEQ_CHUNK_SEQS = q' / SEQ_CHUNK_SEQS ->
  Z.to_nat (q mod SEQ_CHUNK_SEQS / 64) = Z.to_nat (q' mod SEQ_CHUNK_SEQS / 64) ->
  q mod SEQ_CHUNK_SEQS mod 64 = q' mod SEQ_CHUNK_SEQS mod 64 -> q = q'.
Proof.
  change SEQ_CHUNK_SEQS with 512. intros Hc Hi Hb.
  pose proof (Z.mod_pos_bound q 512). pose proof (Z.mod_pos_bound q' 512).
  assert (0 <= q mod 512 / 64) by (apply Z.div_pos; lia).
  assert (0 <= q' mod 512 / 64) by (apply Z.div_pos; lia).
  rewrite (Z.div_mod q 512), (Z.div_mod q' 512) by lia.
  rewrite (Z.div_mod (q mod 512) 64), (Z.div_mod (q' mod 512) 64) by lia. lia.
Qed.

(** The words [entry(chunk).or_insert] hands out. *)
Lemma chunk_words m q :
  seen_wf m ->
  let words := default (replicate SEQ_CHUNK_WORDS 0) (m !! (q / SEQ_CHUNK_SEQS)) in
  length words = SEQ_CHUNK_WORDS /\
  seq_seen m q = Z.testbit (default 0 (words !! Z.to_nat (q mod SEQ_CHUNK_SEQS / 64))) (q mod SEQ_CHUNK_SEQS mod 64).
Proof.
  intros Hwf. unfold seq_seen. destruct (m !! _) as [words|] eqn:E; cbn [from_option id].
  - split; [by apply (Hwf _ _ E)|done].
  - split; [apply length_replicate|]. rewrite lookup_replicate_2 by apply seq_coords. symmetry. apply Z.bits_0.
Qed.

Lemma set_seq_bit_wf m q :
  seen_wf m -> seen_wf (set_seq_bit m q).2 /\ dom (set_seq_bit m q).2 = {[q / SEQ_CHUNK_SEQS]} ∪ dom m.
Proof.
  intros Hwf. destruct (chunk_words m q Hwf) as [Hlen _].
  unfold set_seq_bit. case_match; cbn [snd].
  all: split; [apply map_Forall_insert_2; [by rewrite ?length_insert|done]|apply dom_insert_L].
Qed.

Lemma set_seq_bit_set m q q' :
  seen_wf m -> seq_seen (set_seq_bit m q).2 q' = (q' =? q) || seq_seen m q'.
Proof.
  intros Hwf. destruct (chunk_words m q Hwf) as [Hlen Hq]. destruct (seq_coords q) as [Hi Hb].
  destruct (chunk_words m q' Hwf) as [_ Hq'].
  unfold set_seq_bit. rewrite bit_clear_test, negb_involutive, <- Hq by lia.
  destruct (decide (q' = q)) as [->|Hne].
  - rewrite Z.eqb_refl. cbn [orb]. destruct (seq_seen m q) eqn:E; cbn [snd];
      unfold seq_seen; rewrite lookup_insert_eq; [by rewrite <- Hq|].
    rewrite list_lookup_insert_eq by lia. cbn [from_option id]. rewrite bit_set_test, Z.eqb_refl by lia. apply orb_true_r.
  - rewrite (proj2 (Z.eqb_neq q' q)) by done. cbn [orb]. rewrite Hq'.
    assert (Hcase : q' / SEQ_CHUNK_SEQS = q / SEQ_CHUNK_SEQS \/ q' / SEQ_CHUNK_SEQS <> q / SEQ_CHUNK_SEQS) by lia.
    destruct Hcase as [Hc|Hc].
    + destruct (seq_seen m q) eqn:E; cbn [snd]; unfold seq_seen; rewrite Hc, lookup_insert_eq; [done|].
      destruct (decide (Z.to_nat (q' mod SEQ_CHUNK_SEQS / 64) = Z.to_nat (q mod SEQ_CHUNK_SEQS / 64))) as [Hw|Hw];
        [|by rewrite list_lookup_insert_ne by done].
      rewrite Hw, list_lookup_insert_eq by lia. cbn [from_option id]. rewrite bit_set_test by lia.
      rewrite (proj2 (Z.eqb_neq _ _)) by (intros ?; by apply Hne, seq_coords_inj). apply orb_false_r.
    + rewrite <- Hq'. destruct (seq_seen m q); cbn [snd]; unfold seq_seen; by rewrite lookup_insert_ne by done.
Qed.

(** A new chunk is allocated only for a sequence number not seen before. *)
Lemma set_seq_bit_size m q :
  seen_wf m -> (size (set_seq_bit m q).2 <= size m + (if seq_seen m q then 0 else 1))%nat.
Proof.
  intros Hwf. destruct (set_seq_bit_wf m q Hwf) as [_ Hd]. rewrite <- !size_dom, Hd.
  destruct (seq_seen m q) eqn:E.
  - assert (q / SEQ_CHUNK_SEQS ∈ dom m).
    { apply elem_of_dom. unfold seq_seen in E. by destruct (m !! _); [eexists|]. }
    rewrite subseteq_union_1_L by set_solver. lia.
  - rewrite size_union_alt, size_singleton.
    pose proof (subseteq_size (dom m ∖ {[q / SEQ_CHUNK_SEQS]}) (dom m) ltac:(set_solver)). lia.
Qed.

Lemma set_seq_bit_answer m q : seen_wf m -> (set_seq_bit m q).1 = seq_seen m q.
Proof.
  intros Hwf. destruct (chunk_words m q Hwf) as [_ Hq]. destruct (seq_coords q).
  unfold set_seq_bit. rewrite bit_clear_test, negb_involutive, <- Hq by lia. by destruct (seq_seen m q).
Qed.

(** ** Timelines

    [bins_at o l t]: the deliveries the bins [l], the first of which is second
    [o], hold for second [t]. *)

Definition sumZ (l : list Z) : Z := foldr Z.add 0 l.
Definition bins_at (o : Z) (l : list Z) (t : Z) : Z := if t <? o then 0 else default 0 (l !! Z.to_nat (t - o)).
Definition tl_at (o : option Z) (l : list Z) (t : Z) : Z := match o with Some o => bins_at o l t | None => 0 end.
Abbreviation nonneg := (Forall (Z.le 0)).

Lemma sumZ_app l k : sumZ (l ++ k) = sumZ l + sumZ k.
Proof. unfold sumZ. induction l; cbn [app foldr]; lia. Qed.

Lemma sumZ_zeros n : sumZ (replicate n 0) = 0.
Proof. unfold sumZ. induction n; cbn [replicate foldr]; lia. Qed.

Lemma sumZ_cons x l : sumZ (x :: l) = x + sumZ l.
Proof. done. Qed.

Lemma sumZ_insert l i x y : l !! i = Some x -> sumZ (<[i := y]> l) = sumZ l - x + y.
Proof.
  intros E. rewrite <- (take_drop_middle _ _ _ E) at 2. rewrite insert_take_drop by (by eapply lookup_lt_Some).
  rewrite !sumZ_app, !sumZ_cons. lia.
Qed.

Lemma sumZ_nonneg l : nonneg l -> 0 <= sumZ l.
Proof. unfold sumZ. induction 1; cbn [foldr]; lia. Qed.

Lemma sumZ_entry l i : nonneg l -> 0 <= default 0 (l !! i) <= sumZ l.
Proof.
  intros Hl. pose proof (sumZ_nonneg _ Hl). destruct (l !! i) as [x|] eqn:E; cbn [from_option id]; [|lia].
  pose proof (Forall_lookup_1 _ _ _ _ Hl E). rewrite <- (take_drop_middle _ _ _ E), sumZ_app, sumZ_cons.
  pose proof (sumZ_nonneg _ (Forall_take _ i _ Hl)). pose proof (sumZ_nonneg _ (Forall_drop _ (S i) _ Hl)). lia.
Qed.

Lemma nonneg_insert l i x : nonneg l -> 0 <= x -> nonneg (<[i := x]> l).
Proof. intros. by apply Forall_insert. Qed.

Lemma nonneg_zeros n : nonneg (replicate n 0).
Proof. by apply Forall_replicate. Qed.

Lemma sat_add_small w x y : x + y < 2 ^ w -> sat_add w x y = x + y.
Proof. unfold sat_add. lia. Qed.

(** Zero bins at either end change neither the total nor any second. *)
Lemma lookup_grow l n i : default 0 (grow l n !! i) = default 0 (l !! i).
Proof.
  unfold grow. destruct (decide (i < length l)%nat).
  - by rewrite lookup_app_l.
  - rewrite lookup_app_r, (lookup_ge_None_2 l) by lia.
    destruct (replicate _ _ !! _) as [x|] eqn:E; [|done]. by apply lookup_replicate in E as [-> _].
Qed.

Lemma sumZ_grow l n : sumZ (grow l n) = sumZ l.
Proof. unfold grow. rewrite sumZ_app, sumZ_zeros. lia. Qed.

Lemma nonneg_grow l n : nonneg l -> nonneg (grow l n).
Proof. intros. apply Forall_app. split; [done|apply nonneg_zeros]. Qed.

Lemma length_grow l n : (n <= length (grow l n))%nat.
Proof. unfold grow. rewrite length_app, length_replicate. lia. Qed.

Lemma bins_at_prepend o k l t : bins_at (o - Z.of_nat k) (replicate k 0 ++ l) t = bins_at o l t.
Proof.
  unfold bins_at. destruct (Z.ltb_spec t (o - Z.of_nat k)), (Z.ltb_spec t o); try done; [lia| |].
  - rewrite lookup_app_l by (rewrite length_replicate; lia). by rewrite lookup_replicate_2 by lia.
  - rewrite lookup_app_r by (rewrite length_replicate; lia). rewrite length_replicate. do 2 f_equal. lia.
Qed.

(** Adding [c] to the bin of second [o + i]. *)
Lemma bins_at_add o l (i : nat) c t :
  (i < length l)%nat ->
  bins_at o (<[i := default 0 (l !! i) + c]> l) t = bins_at o l t + (if t =? o + Z.of_nat i then c else 0).
Proof.
  intros Hi. unfold bins_at. destruct (Z.ltb_spec t o), (Z.eqb_spec t (o + Z.of_nat i)); try lia.
  - replace (Z.to_nat (t - o)) with i by lia. rewrite list_lookup_insert_eq by done. done.
  - rewrite list_lookup_insert_ne by lia. lia.
Qed.

Lemma sumZ_add l (i : nat) c : (i < length l)%nat -> sumZ (<[i := default 0 (l !! i) + c]> l) = sumZ l + c.
Proof. intros [x E]%lookup_lt_is_Some_2. rewrite (sumZ_insert _ _ _ _ E), E. cbn [from_option id]. lia. Qed.

(** The invariant of one shard's timeline, and what a bump adds. *)
Definition tl_wf (o : option Z) (l : list Z) : Prop := nonneg l /\ (o = None -> l = []).

(** The bins with room for second [now], wherever it lies. *)
Lemma bump_room o l now :
  nonneg l ->
  let base := Z.min o now in
  let room := if now <? o then replicate (Z.to_nat (o - now)) 0 ++ l else l in
  let idx := Z.to_nat (now - base) in
  let bins := if (length room <=? idx)%nat then grow room (idx + 1) else room in
  (idx < length bins)%nat /\ nonneg bins /\ sumZ bins = sumZ l /\ forall t, bins_at base bins t = bins_at o l t.
Proof.
  intros Hl base room idx bins.
  assert (nonneg room /\ sumZ room = sumZ l /\ forall t, bins_at base room t = bins_at o l t) as (Hr & Hs & Ht).
  { subst base room. destruct (Z.ltb_spec now o).
    - split_and!; [by apply Forall_app_2; [apply nonneg_zeros|]|rewrite sumZ_app, sumZ_zeros; lia|].
      intros t. rewrite Z.min_r by lia. replace now with (o - Z.of_nat (Z.to_nat (o - now))) at 1 by lia.
      apply bins_at_prepend.
    - by rewrite Z.min_l by lia. }
  subst bins. destruct (Nat.leb_spec (length room) idx); [|done].
  pose proof (length_grow room (idx + 1)). rewrite sumZ_grow. split_and!; [lia|by apply nonneg_grow|done|].
  intros t. rewrite <- Ht. unfold bins_at. by rewrite lookup_grow.
Qed.

Lemma bump_timeline_spec origin bins now_ns origin_sec :
  tl_wf origin bins -> sumZ bins + 1 < 2 ^ 64 ->
  let r := bump_timeline origin bins now_ns origin_sec in
  tl_wf r.1 r.2 /\ sumZ r.2 = sumZ bins + 1 /\
  forall t, tl_at r.1 r.2 t = tl_at origin bins t + (if t =? now_ns / NS then 1 else 0).
Proof.
  intros [Hnn Hnone] Hsum. unfold bump_timeline. set (o := default origin_sec origin). set (now := now_ns / NS).
  pose proof (bump_room o bins now Hnn) as R. cbv zeta in R.
  assert (Ho : forall t, bins_at o bins t = tl_at origin bins t).
  { intros t. subst o. destruct origin; [done|]. rewrite Hnone by done. unfold bins_at. rewrite lookup_nil. by destruct (t <? _). }
  assert (E : (if now <? o then (replicate (Z.to_nat (o - now)) 0 ++ bins, now) else (bins, o)) =
              (if now <? o then replicate (Z.to_nat (o - now)) 0 ++ bins else bins, Z.min o now))
    by (destruct (Z.ltb_spec now o); f_equal; lia).
  rewrite E. set (room := if now <? o then _ else _) in *. set (idx := Z.to_nat (now - Z.min o now)) in *.
  set (l := if (length room <=? idx)%nat then _ else _) in *. destruct R as (Hi & Hl & Hs & Ht). cbn [fst snd tl_at].
  pose proof (sumZ_entry l idx Hl). rewrite sat_add_small by lia. split_and!.
  - split; [by apply nonneg_insert; [|lia]|done].
  - rewrite sumZ_add by done. lia.
  - intros t. rewrite bins_at_add, Ht, Ho by done. replace (Z.min o now + Z.of_nat idx) with now by lia. done.
Qed.

(** ** Merging the shards *)

Lemma bins_at_nil o t : bins_at o [] t = 0.
Proof. unfold bins_at. rewrite lookup_nil. by destruct (t <? o). Qed.

Lemma bins_at_cons o c l t : bins_at o (c :: l) t = (if t =? o then c else 0) + bins_at (o + 1) l t.
Proof.
  unfold bins_at. destruct (Z.ltb_spec t o), (Z.eqb_spec t o), (Z.ltb_spec t (o + 1)); try lia.
  - subst t. rewrite Z.sub_diag. symmetry. apply Z.add_0_r.
  - replace (Z.to_nat (t - o)) with (S (Z.to_nat (t - (o + 1)))) by lia. done.
Qed.

Lemma add_bins_spec o (off : nat) counts tl :
  (off + length counts <= length tl)%nat -> nonneg tl -> nonneg counts -> sumZ tl + sumZ counts < 2 ^ 64 ->
  nonneg (add_bins tl off counts) /\ sumZ (add_bins tl off counts) = sumZ tl + sumZ counts /\
  forall t, bins_at o (add_bins tl off counts) t = bins_at o tl t + bins_at (o + Z.of_nat off) counts t.
Proof.
  intros Hlen Htl Hc. revert off tl Hlen Htl. induction Hc as [|c counts Hc Hcs IH]; intros off tl Hlen Htl Hb.
  { change (sumZ []) with 0. cbn [add_bins]. split_and!; [done|lia|]. intros t. rewrite bins_at_nil. lia. }
  cbn [add_bins length] in *. rewrite sumZ_cons in *. pose proof (sumZ_nonneg _ Hcs). pose proof (sumZ_entry tl off Htl).
  rewrite sat_add_small by lia. pose proof (sumZ_add tl off c ltac:(lia)) as Hs.
  destruct (IH (S off) (<[off := default 0 (tl !! off) + c]> tl)) as (IH1 & IH2 & IH3).
  { rewrite length_insert. lia. } { by apply nonneg_insert; [|lia]. } { lia. }
  split_and!; [done|lia|]. intros t. rewrite IH3, bins_at_add, bins_at_cons by lia.
  replace (o + Z.of_nat off + 1) with (o + Z.of_nat (S off)) by lia. lia.
Qed.

Definition shards_sum (l : list (Z * list Z)) : Z := sumZ ((fun s => sumZ s.2) <$> l).
Definition shards_at (l : list (Z * list Z)) (t : Z) : Z := sumZ ((fun s => bins_at s.1 s.2 t) <$> l).

Lemma merge_timeline_spec o tl s :
  o <= s.1 -> nonneg tl -> nonneg s.2 -> sumZ tl + sumZ s.2 < 2 ^ 64 ->
  nonneg (merge_timeline o tl s) /\ sumZ (merge_timeline o tl s) = sumZ tl + sumZ s.2 /\
  forall t, bins_at o (merge_timeline o tl s) t = bins_at o tl t + bins_at s.1 s.2 t.
Proof.
  intros Ho Htl Hs Hb. unfold merge_timeline. set (off := Z.to_nat (s.1 - o)).
  set (room := if (_ <? _)%nat then _ else _).
  assert ((off + length s.2 <= length room)%nat /\ nonneg room /\ sumZ room = sumZ tl /\
          forall t, bins_at o room t = bins_at o tl t) as (Hl & Hn & E & Ht).
  { subst room. destruct (Nat.ltb_spec (length tl) (off + length s.2)); [|done].
    rewrite sumZ_grow. split_and!; [apply length_grow|by apply nonneg_grow|done|].
    intros t. unfold bins_at. by rewrite lookup_grow. }
  destruct (add_bins_spec o off s.2 room) as (H1 & H2 & H3); [done..|lia|].
  split_and!; [done|lia|]. intros t. rewrite H3, Ht. replace (o + Z.of_nat off) with s.1 by lia. done.
Qed.

Lemma merge_all_spec o l tl :
  Forall (fun s => o <= s.1 /\ nonneg s.2) l -> nonneg tl -> sumZ tl + shards_sum l < 2 ^ 64 ->
  let r := foldl (merge_timeline o) tl l in
  nonneg r /\ sumZ r = sumZ tl + shards_sum l /\ forall t, bins_at o r t = bins_at o tl t + shards_at l t.
Proof.
  intros Hl. revert tl. unfold shards_sum, shards_at.
  induction Hl as [|s l [Ho Hs] Hl IH]; intros tl Htl Hb; cbn [foldl fmap list_fmap] in *.
  { change (sumZ []) with 0. split_and!; [done|lia|intros; lia]. }
  rewrite !sumZ_cons in *.
  assert (0 <= sumZ ((fun s => sumZ s.2) <$> l)).
  { apply sumZ_nonneg, Forall_fmap. eapply Forall_impl; [exact Hl|]. intros x [_ Hx]. by apply sumZ_nonneg. }
  destruct (merge_timeline_spec o tl s) as (H1 & H2 & H3); [done..|lia|].
  destruct (IH (merge_timeline o tl s)) as (IH1 & IH2 & IH3); [done|lia|].
  split_and!; [done|lia|]. intros t. rewrite IH3, H3, sumZ_cons. lia.
Qed.

Lemma min_origin_le a l : Forall (fun s => min_origin a l <= s.1) l.
Proof.
  assert (G : forall l m, foldl (fun m (y : Z * list Z) => Z.min m y.1) m l <= m /\
              Forall (fun s => foldl (fun m (y : Z * list Z) => Z.min m y.1) m l <= s.1) l).
  { clear. induction l as [|y l IH]; intros m; [by split; [cbn; lia|]|]. cbn [foldl].
    destruct (IH (Z.min m y.1)) as [H1 H2]. split; [lia|]. by constructor; [lia|]. }
  destruct l as [|x l]; [done|]. cbn [min_origin]. destruct (G l x.1). by constructor.
Qed.

Lemma checked_sum_spec l a : nonneg l -> a + sumZ l < 2 ^ 64 -> checked_sum a l = Some (a + sumZ l).
Proof.
  intros Hl. revert a. induction Hl as [|c l Hc Hl IH]; intros a Hb.
  { change (sumZ []) with 0. cbn [checked_sum]. f_equal. lia. }
  rewrite sumZ_cons in *. pose proof (sumZ_nonneg _ Hl). cbn [checked_sum].
  rewrite (proj2 (Z.ltb_lt _ _)) by lia. rewrite IH by lia. f_equal. lia.
Qed.

(** A saturating sum of counters that fits is the sum. *)
Lemma sat_sum_spec {A} (f : A -> Z) l a :
  Forall (fun x => 0 <= f x) l -> a + sumZ (f <$> l) < 2 ^ 64 ->
  foldl (fun acc x => sat_add 64 acc (f x)) a l = a + sumZ (f <$> l).
Proof.
  intros Hl. revert a. induction Hl as [|x l Hx Hl IH]; intros a Hb; cbn [foldl fmap list_fmap] in *.
  { change (sumZ []) with 0. lia. }
  rewrite sumZ_cons in *. assert (0 <= sumZ (f <$> l)) by (by apply sumZ_nonneg, Forall_fmap).
  rewrite sat_add_small by lia. rewrite IH by lia. lia.
Qed.

(** ** Sums over spans of seconds *)

(** The deliveries [f] counts in the seconds from [a] up to [b]. *)
Definition span_sum (f : Z -> Z) (a b : Z) : Z := sumZ (f <$> seqZ a (b - a)).

Lemma span_empty f a b : b <= a -> span_sum f a b = 0.
Proof. intros. unfold span_sum. by rewrite seqZ_nil by lia. Qed.

Lemma span_split f a m b : a <= m <= b -> span_sum f a b = span_sum f a m + span_sum f m b.
Proof.
  intros. unfold span_sum. replace (b - a) with ((m - a) + (b - m)) by lia.
  rewrite seqZ_app, fmap_app, sumZ_app by lia. by replace (a + (m - a)) with m by lia.
Qed.

Lemma span_zero f a b : (forall t, a <= t < b -> f t = 0) -> span_sum f a b = 0.
Proof.
  intros Hf. unfold span_sum. assert (Hz : Forall (fun t => f t = 0) (seqZ a (b - a))).
  { apply Forall_seqZ. intros t Ht. apply Hf. lia. }
  induction Hz as [|t l Ht _ IH]; [done|]. cbn [fmap list_fmap]. rewrite sumZ_cons, Ht. lia.
Qed.

(** Only the span in which [f] is not zero counts. *)
Lemma span_trim f o e a b :
  o <= e -> (forall t, t < o \/ e <= t -> f t = 0) -> span_sum f a b = span_sum f (Z.max a o) (Z.min b e).
Proof.
  intros Hoe Hf. destruct (Z.le_gt_cases b a); [by rewrite !span_empty by lia|].
  destruct (Z.le_gt_cases (Z.min b e) (Z.max a o)).
  - rewrite (span_empty _ (Z.max a o)) by lia. apply span_zero. intros t Ht. apply Hf. lia.
  - rewrite (span_split f a (Z.max a o) b), (span_split f (Z.max a o) (Z.min b e) b) by lia.
    rewrite (span_zero f a), (span_zero f (Z.min b e)) by (intros; apply Hf; lia). lia.
Qed.

Lemma slice_span o l i j :
  (i <= j <= length l)%nat ->
  slice l i j = bins_at o l <$> seqZ (o + Z.of_nat i) (Z.of_nat j - Z.of_nat i).
Proof.
  intros Hij. apply list_eq. intros k. unfold slice. rewrite list_lookup_fmap.
  destruct (decide (k < j - i)%nat).
  - rewrite lookup_take_lt, lookup_drop, lookup_seqZ_lt by lia. cbn [fmap option_fmap option_map].
    unfold bins_at. rewrite (proj2 (Z.ltb_ge _ _)) by lia.
    replace (Z.to_nat (o + Z.of_nat i + Z.of_nat k - o)) with (i + k)%nat by lia.
    destruct (lookup_lt_is_Some_2 l (i + k)) as [x ->]; [lia|done].
  - rewrite lookup_take_ge, lookup_seqZ_ge by lia. done.
Qed.

Lemma sumZ_slice_le l i j : nonneg l -> 0 <= sumZ (slice l i j) <= sumZ l.
Proof.
  intros Hl. pose proof (Forall_drop _ i _ Hl) as Hd. unfold slice.
  pose proof (sumZ_nonneg _ (Forall_take _ (j - i) _ Hd)). pose proof (sumZ_nonneg _ (Forall_drop _ (j - i) _ Hd)).
  pose proof (sumZ_nonneg _ (Forall_take _ i _ Hl)).
  assert (sumZ l = sumZ (take i l) + sumZ (drop i l)) by (by rewrite <- sumZ_app, take_drop).
  assert (sumZ (drop i l) = sumZ (take (j - i) (drop i l)) + sumZ (drop (j - i) (drop i l)))
    by (by rewrite <- sumZ_app, take_drop).
  lia.
Qed.

(** [sum_secs] sums the seconds asked for, stored or not. *)
Lemma sum_secs_span tl a b :
  nonneg (counts tl) -> sumZ (counts tl) < 2 ^ 64 -> b < 2 ^ 64 ->
  sum_secs tl a b = span_sum (bins_at (origin_sec tl) (counts tl)) a b.
Proof.
  intros Hn Hs Hb. unfold sum_secs. set (o := origin_sec tl) in *. set (l := counts tl) in *.
  set (len := Z.of_nat (length l)). rewrite (span_trim _ o (o + len)); [|lia|].
  - replace (Z.min b (sat_add 64 o len)) with (Z.min b (o + len)) by (unfold sat_add; lia).
    destruct (Z.leb_spec (Z.min b (o + len)) (Z.max a o)); [by rewrite span_empty|].
    set (i := Z.to_nat (Z.max a o - o)). set (j := Z.to_nat (Z.min b (o + len) - o)).
    pose proof (sumZ_slice_le l i j Hn).
    assert (E : (fun x : Z => x) <$> slice l i j = slice l i j) by apply list_fmap_id.
    rewrite (sat_sum_spec (fun x => x)), E; [|by apply Forall_take, Forall_drop|rewrite E; lia].
    unfold span_sum. rewrite (slice_span o) by lia.
    replace (o + Z.of_nat i) with (Z.max a o) by lia.
    by replace (Z.of_nat j - Z.of_nat i) with (Z.min b (o + len) - Z.max a o) by lia.
  - intros t Ht. unfold bins_at. destruct (Z.ltb_spec t o); [done|]. by rewrite lookup_ge_None_2 by lia.
Qed.

(** ** The specification: a tally of arrivals

    What a report means, without shards, bitsets or bins: the (connection,
    sequence number) pairs that arrived, the first arrival of each with its
    stamp and its time, and the number of repeats and of foreign publishes. *)

Record Arrival := { pub : Publish; at_ns : Z; on_thread : Z }.

(** The stamp of a benchmark delivery to one of [n] connections. *)
Definition bench_stamp (n : nat) (a : Arrival) : option Stamp :=
  if bool_decide (Api.topic (pub a) = TOPIC) then
    match Stamp_decode (Api.payload (pub a)) with
    | Some stamp => if decide (Z.to_nat (conn_id stamp) < n)%nat then Some stamp else None
    | None => None
    end
  else None.

Record Tally := {
  keys : gset (nat * Z);
  firsts : list (Stamp * Z);
  repeats : Z;
  others : Z
}.

Definition stamp_key (s : Stamp) : nat * Z := (Z.to_nat (conn_id s), seq_no s).

Definition tally_step (n : nat) (t : Tally) (a : Arrival) : Tally :=
  match bench_stamp n a with
  | None => {| keys := keys t; firsts := firsts t; repeats := repeats t; others := others t + 1 |}
  | Some s =>
      if decide (stamp_key s ∈ keys t)
      then {| keys := keys t; firsts := firsts t; repeats := repeats t + 1; others := others t |}
      else {| keys := {[stamp_key s]} ∪ keys t; firsts := firsts t ++ [(s, at_ns a)]; repeats := repeats t;
              others := others t |}
  end.

Definition tally (n : nat) (l : list Arrival) : Tally :=
  foldl (tally_step n) {| keys := ∅; firsts := []; repeats := 0; others := 0 |} l.

Definition count {A} (p : A -> bool) (l : list A) : Z := sumZ ((fun x => if p x then 1 else 0) <$> l).

Definition arrived_at (t : Z) (x : Stamp * Z) : bool := t =? x.2 / NS.
Definition from_future (x : Stamp * Z) : bool := x.2 <? scheduled_ns x.1.
Definition too_late (w : Window) (x : Stamp * Z) : bool :=
  negb (from_future x) && Window_contains w (scheduled_ns x.1) && (LATENCY_MAX_NS <? x.2 - scheduled_ns x.1).

Lemma count_snoc {A} (p : A -> bool) l x : count p (l ++ [x]) = count p l + (if p x then 1 else 0).
Proof. unfold count. rewrite fmap_app, sumZ_app. cbn [fmap list_fmap]. rewrite sumZ_cons. change (sumZ []) with 0. lia. Qed.

(** The tally in closed form. *)
Definition bench_keys (n : nat) (l : list Arrival) : list (nat * Z) := stamp_key <$> omap (bench_stamp n) l.

Lemma tally_snoc n l a : tally n (l ++ [a]) = tally_step n (tally n l) a.
Proof. unfold tally. by rewrite foldl_app. Qed.

Lemma tally_closed n l :
  keys (tally n l) = list_to_set (bench_keys n l) /\
  Z.of_nat (length (firsts (tally n l))) + repeats (tally n l) = Z.of_nat (length (bench_keys n l)).
Proof.
  induction l as [|a l [IH1 IH2]] using rev_ind; [done|]. rewrite tally_snoc. unfold tally_step, bench_keys in *.
  rewrite omap_app, fmap_app, length_app. cbn [omap list_omap].
  destruct (bench_stamp n a) as [s|]; [destruct (decide _) as [Hin|]|].
  all: cbn [keys firsts repeats fmap list_fmap length]; rewrite ?length_app; cbn [length].
  all: rewrite ?app_nil_r, ?list_to_set_app_L; split; [|lia].
  - rewrite IH1 in *. rewrite list_to_set_cons, list_to_set_nil, union_empty_r_L. apply set_eq. intros k.
    rewrite elem_of_union, elem_of_singleton. naive_solver.
  - rewrite IH1, list_to_set_cons, list_to_set_nil. set_solver.
  - done.
Qed.

Lemma span_add f g a b : span_sum (fun t => f t + g t) a b = span_sum f a b + span_sum g a b.
Proof.
  unfold span_sum. induction (seqZ a (b - a)) as [|t l IH]; [done|]. cbn [fmap list_fmap]. rewrite !sumZ_cons, IH. lia.
Qed.

Lemma span_point s a b : span_sum (fun t => if t =? s then 1 else 0) a b = if (a <=? s) && (s <? b) then 1 else 0.
Proof.
  assert (Z0 : forall a b, s < a \/ b <= s -> span_sum (fun t => if t =? s then 1 else 0) a b = 0).
  { clear. intros a b Hs. apply span_zero. intros t Ht. by rewrite (proj2 (Z.eqb_neq t s)) by lia. }
  destruct (Z.leb_spec a s), (Z.ltb_spec s b); cbn [andb]; try (apply Z0; lia).
  rewrite (span_split _ a s b), (span_split _ s (s + 1) b), (Z0 a s), (Z0 (s + 1) b) by lia.
  unfold span_sum. replace (s + 1 - s) with 1 by lia. rewrite seqZ_cons, seqZ_nil by lia.
  cbn [fmap list_fmap]. rewrite Z.eqb_refl, sumZ_cons. change (sumZ []) with 0. lia.
Qed.

(** Counting per second, then over the seconds of a span. *)
Lemma span_count l a b :
  span_sum (fun t => count (arrived_at t) l) a b = count (fun x => (a <=? x.2 / NS) && (x.2 / NS <? b)) l.
Proof.
  induction l as [|x l IH]; [by apply span_zero|]. unfold count in *. cbn [fmap list_fmap].
  rewrite sumZ_cons, <- IH, <- span_point.
  rewrite <- (span_add (fun t => if t =? x.2 / NS then 1 else 0)). done.
Qed.

Section Refinement.
Context `{HdrHistogram}.

Record shard_ok (s : Shard) : Prop := {
  ok_seen : seen_wf (seen s);
  ok_tl : tl_wf (timeline_origin_sec s) (timeline s);
  ok_total : sumZ (timeline s) = s_delivered s;
  ok_dup : 0 <= s_duplicates s;
  ok_mem : Z.of_nat (size (seen s)) <= s_delivered s;
  ok_over : 0 <= s_over_range s <= s_delivered s;
  ok_anom : 0 <= s_anomalies s <= s_delivered s
}.

(** What the locked part of [record] does to a shard, on both branches. *)
Lemma record_in_shard_dup s stamp now o w th :
  shard_ok s -> seq_seen (seen s) (seq_no stamp) = true -> s_duplicates s + 1 < 2 ^ 64 ->
  let s' := record_in_shard s stamp now o w th in
  shard_ok s' /\ (forall q, seq_seen (seen s') q = seq_seen (seen s) q) /\
  s_delivered s' = s_delivered s /\ s_duplicates s' = s_duplicates s + 1 /\ s_over_range s' = s_over_range s /\
  s_anomalies s' = s_anomalies s /\
  timeline_origin_sec s' = timeline_origin_sec s /\ timeline s' = timeline s.
Proof.
  intros [] Hseen Hb. destruct (set_seq_bit_wf _ (seq_no stamp) ok_seen0) as [Hwf _].
  pose proof (set_seq_bit_answer _ (seq_no stamp) ok_seen0) as Ha.
  pose proof (set_seq_bit_size _ (seq_no stamp) ok_seen0) as Hz. rewrite Hseen in Hz.
  pose proof (fun q => set_seq_bit_set _ (seq_no stamp) q ok_seen0) as Hset.
  unfold record_in_shard. destruct (set_seq_bit _ _) as [already bits]. cbn [fst snd] in *.
  rewrite Ha, Hseen, sat_add_small by lia. split_and!; try done; [split; try done; cbn [seen s_delivered s_duplicates s_over_range s_anomalies]; lia|].
  intros q. cbn [seen]. rewrite Hset. destruct (Z.eqb_spec q (seq_no stamp)) as [->|]; [by rewrite Hseen|done].
Qed.

Lemma record_in_shard_first s stamp now o w th :
  shard_ok s -> seq_seen (seen s) (seq_no stamp) = false -> s_delivered s + 1 < 2 ^ 64 ->
  let s' := record_in_shard s stamp now o w th in
  shard_ok s' /\ (forall q, seq_seen (seen s') q = (q =? seq_no stamp) || seq_seen (seen s) q) /\
  s_delivered s' = s_delivered s + 1 /\ s_duplicates s' = s_duplicates s /\
  s_over_range s' = s_over_range s + (if too_late w (stamp, now) then 1 else 0) /\
  s_anomalies s' = s_anomalies s + (if from_future (stamp, now) then 1 else 0) /\
  forall t, tl_at (timeline_origin_sec s') (timeline s') t =
            tl_at (timeline_origin_sec s) (timeline s) t + (if arrived_at t (stamp, now) then 1 else 0).
Proof.
  intros [] Hseen Hb. destruct (set_seq_bit_wf _ (seq_no stamp) ok_seen0) as [Hwf _].
  pose proof (set_seq_bit_answer _ (seq_no stamp) ok_seen0) as Ha.
  pose proof (set_seq_bit_size _ (seq_no stamp) ok_seen0) as Hz. rewrite Hseen in Hz.
  pose proof (fun q => set_seq_bit_set _ (seq_no stamp) q ok_seen0) as Hset.
  destruct (bump_timeline_spec _ _ now o ok_tl0) as (Hw & Hs & Ht); [lia|].
  unfold record_in_shard. destruct (set_seq_bit _ _) as [already bits]. destruct (bump_timeline _ _ _ _) as [o' b'].
  cbn [fst snd] in *. rewrite Ha, Hseen, !sat_add_small by lia.
  unfold too_late, from_future, arrived_at. cbn [fst snd].
  split_and!; try done; cbn [s_over_range s_anomalies]; try (case_match; lia).
  split; try done; cbn [seen timeline s_delivered s_over_range s_anomalies]; try lia; case_match; lia.
Qed.

Definition total (f : Shard -> Z) (r : Recorder) : Z := sumZ (f <$> shards r).

(** The simulation: the recorder's shards represent the tally. *)
Record sim (n : nat) (w : Window) (r : Recorder) (t : Tally) (arrivals : Z) : Prop := {
  sim_armed : exists o, armed r = Some (o, w);
  sim_len : length (shards r) = n;
  sim_ok : Forall shard_ok (shards r);
  sim_seen : forall i s, shards r !! i = Some s ->
               forall q, seq_seen (seen s) q = bool_decide ((i, q) ∈ keys t);
  sim_delivered : total s_delivered r = Z.of_nat (length (firsts t));
  sim_duplicates : total s_duplicates r = repeats t;
  sim_over : total s_over_range r = count (too_late w) (firsts t);
  sim_anomalies : total s_anomalies r = count from_future (firsts t);
  sim_foreign : foreign r = others t;
  sim_bins : forall sec, total (fun s => tl_at (timeline_origin_sec s) (timeline s) sec) r =
                         count (arrived_at sec) (firsts t);
  sim_size : size (keys t) = length (firsts t);
  sim_all : Z.of_nat (length (firsts t)) + repeats t + others t = arrivals;
  sim_nonneg : 0 <= repeats t /\ 0 <= others t
}.

Definition set_shard (r : Recorder) (i : nat) (s : Shard) : Recorder :=
  {| armed := armed r; shards := <[i := s]> (shards r); foreign := foreign r |}.

Lemma total_set f r i s s' : shards r !! i = Some s -> total f (set_shard r i s') = total f r - f s + f s'.
Proof. intros E. unfold total. cbn [shards set_shard]. rewrite list_fmap_insert. apply sumZ_insert. by rewrite list_lookup_fmap, E. Qed.

Lemma total_entry (f : Shard -> Z) r i s :
  Forall (fun s => 0 <= f s) (shards r) -> shards r !! i = Some s -> 0 <= f s <= total f r.
Proof.
  intros Hf E. pose proof (sumZ_entry (f <$> shards r) i) as G. rewrite list_lookup_fmap, E in G.
  apply G. by apply Forall_fmap.
Qed.

(** Membership after an update of shard [i] alone. *)
Lemma sim_seen_set (n : nat) (w : Window) (r : Recorder) (t : Tally) (a : Z) (i : nat) (s s' : Shard) (ks : gset (nat * Z)) :
  sim n w r t a -> shards r !! i = Some s ->
  (forall q, seq_seen (seen s') q = bool_decide ((i, q) ∈ ks)) ->
  (forall j q, j <> i -> (j, q) ∈ ks <-> (j, q) ∈ keys t) ->
  forall j u, shards (set_shard r i s') !! j = Some u -> forall q, seq_seen (seen u) q = bool_decide ((j, q) ∈ ks).
Proof.
  intros S E Hi Hj j u. cbn [set_shard shards]. destruct (decide (j = i)) as [->|Hne].
  - rewrite list_lookup_insert_eq by (by eapply lookup_lt_Some). by intros [= <-].
  - rewrite list_lookup_insert_ne by done. intros Hu q. rewrite (sim_seen _ _ _ _ _ S _ _ Hu).
    apply bool_decide_ext. by rewrite Hj.
Qed.

Lemma sim_foreign_step n w r t a :
  sim n w r t a -> a + 1 < 2 ^ 64 ->
  sim n w (note_foreign r) {| keys := keys t; firsts := firsts t; repeats := repeats t; others := others t + 1 |}
    (a + 1).
Proof.
  intros [] Hb. split; try done; cbn [note_foreign foreign firsts repeats others]; try lia.
  rewrite sim_foreign0. apply wrap_small. lia.
Qed.

Lemma sim_dup_step n w r t a s stamp now o th :
  sim n w r t a -> a + 1 < 2 ^ 64 -> shards r !! Z.to_nat (conn_id stamp) = Some s -> stamp_key stamp ∈ keys t ->
  sim n w (set_shard r (Z.to_nat (conn_id stamp)) (record_in_shard s stamp now o w th))
    {| keys := keys t; firsts := firsts t; repeats := repeats t + 1; others := others t |} (a + 1).
Proof.
  intros S Hb E Hk. pose proof S as []. pose proof (Forall_lookup_1 _ _ _ _ sim_ok0 E) as Hok.
  destruct (total_entry s_duplicates r _ _ ltac:(eapply Forall_impl; [exact sim_ok0|by intros ? []]) E).
  destruct (record_in_shard_dup s stamp now o w th Hok) as (Hok' & Hq & Hd & Hp & Ho & Ha & Hto & Ht).
  { rewrite (sim_seen0 _ _ E). by apply bool_decide_eq_true. } { lia. }
  split; cbn [keys firsts repeats others]; try done; try lia.
  - cbn [set_shard shards]. by rewrite length_insert.
  - by apply Forall_insert.
  - eapply sim_seen_set; [done..| |done]. intros q. rewrite Hq. by apply sim_seen0.
  - rewrite (total_set _ _ _ _ _ E). lia.
  - rewrite (total_set _ _ _ _ _ E). lia.
  - rewrite (total_set _ _ _ _ _ E). lia.
  - rewrite (total_set _ _ _ _ _ E). lia.
  - intros sec. rewrite (total_set _ _ _ _ _ E), Hto, Ht, <- sim_bins0. lia.
Qed.

Lemma sim_first_step n w r t a s stamp now o th :
  sim n w r t a -> a + 1 < 2 ^ 64 -> shards r !! Z.to_nat (conn_id stamp) = Some s -> stamp_key stamp ∉ keys t ->
  sim n w (set_shard r (Z.to_nat (conn_id stamp)) (record_in_shard s stamp now o w th))
    {| keys := {[stamp_key stamp]} ∪ keys t; firsts := firsts t ++ [(stamp, now)]; repeats := repeats t;
       others := others t |} (a + 1).
Proof.
  intros S Hb E Hk. pose proof S as []. pose proof (Forall_lookup_1 _ _ _ _ sim_ok0 E) as Hok.
  destruct (total_entry s_delivered r _ _ ltac:(eapply Forall_impl; [exact sim_ok0|intros ? []; lia]) E).
  destruct (record_in_shard_first s stamp now o w th Hok) as (Hok' & Hq & Hd & Hp & Ho & Ha & Ht).
  { rewrite (sim_seen0 _ _ E). by apply bool_decide_eq_false. } { lia. }
  split; cbn [keys firsts repeats others]; rewrite ?length_app, ?count_snoc; cbn [length]; try done; try lia.
  - cbn [set_shard shards]. by rewrite length_insert.
  - by apply Forall_insert.
  - eapply sim_seen_set; [done..| |].
    + intros q. rewrite Hq, (sim_seen0 _ _ E). unfold stamp_key. destruct (Z.eqb_spec q (seq_no stamp)).
      all: cbn [orb]; symmetry; first [apply bool_decide_eq_true|apply bool_decide_ext]; set_solver.
    + intros j q Hj. unfold stamp_key. set_solver.
  - rewrite (total_set _ _ _ _ _ E). lia.
  - rewrite (total_set _ _ _ _ _ E). lia.
  - rewrite (total_set _ _ _ _ _ E). lia.
  - rewrite (total_set _ _ _ _ _ E). lia.
  - intros sec. rewrite (total_set _ _ _ _ _ E), Ht, count_snoc, <- sim_bins0. lia.
  - rewrite size_union, size_singleton by set_solver. lia.
Qed.

Definition arrive (r : Recorder) (a : Arrival) : Recorder := callback r (pub a) (at_ns a) (on_thread a).

Lemma sim_step n w r t k a :
  sim n w r t k -> k + 1 < 2 ^ 64 -> sim n w (arrive r a) (tally_step n t a) (k + 1).
Proof.
  intros S Hb. destruct (sim_armed _ _ _ _ _ S) as [o Ho]. pose proof (sim_len _ _ _ _ _ S) as Hl.
  unfold arrive, callback, record_on_topic, record, tally_step, bench_stamp. rewrite Ho.
  case_match; [|by apply sim_foreign_step]. destruct (Stamp_decode _) as [stamp|]; [|by apply sim_foreign_step].
  destruct (shards r !! _) as [s|] eqn:E.
  - rewrite decide_True by (rewrite <- Hl; by eapply lookup_lt_Some).
    rewrite <- Ho. change {| armed := _; shards := <[_ := ?u]> _; foreign := _ |} with (set_shard r (Z.to_nat (conn_id stamp)) u).
    destruct (decide _); [by apply sim_dup_step|by apply sim_first_step].
  - apply lookup_ge_None_1 in E. rewrite decide_False by lia. by apply sim_foreign_step.
Qed.

Lemma sim_run n w l : forall r t k,
  sim n w r t k -> k + Z.of_nat (length l) < 2 ^ 64 ->
  sim n w (foldl arrive r l) (foldl (tally_step n) t l) (k + Z.of_nat (length l)).
Proof.
  induction l as [|a l IH]; intros r t k Hsim Hb; cbn [foldl length] in *.
  { replace (k + Z.of_nat 0) with k by lia. done. }
  replace (k + Z.of_nat (S (length l))) with (k + 1 + Z.of_nat (length l)) by lia.
  apply IH; [apply sim_step; [done|lia]|lia].
Qed.

Lemma total_zero f n : f Shard_new = 0 -> sumZ (f <$> replicate n Shard_new) = 0.
Proof. intros E. by rewrite fmap_replicate, E, sumZ_zeros. Qed.

(** An [ARM] that is accepted starts the run with an empty tally. *)
Lemma sim_start connections origin_ns window now_ns r :
  arm_at (Recorder_new connections) origin_ns window now_ns = (Ok tt, r) ->
  sim (Z.to_nat connections) window r (tally (Z.to_nat connections) []) 0.
Proof.
  unfold arm_at. repeat (case_match; [done|]). intros [= <-].
  split; cbn [tally foldl keys firsts repeats others length]; unfold total; cbn [armed shards foreign Recorder_new];
    try done; try (by intros; apply total_zero); [by eexists|apply length_replicate| |].
  - apply Forall_replicate. split; done.
  - intros i s Hs q. apply lookup_replicate in Hs as [-> _]. cbn. symmetry. apply bool_decide_eq_false. set_solver.
Qed.

(** The shards that hold a timeline hold every delivery. *)
Lemma shard_timelines_spec r :
  Forall shard_ok (shards r) ->
  Forall (fun s => nonneg s.2) (shard_timelines r) /\
  shards_sum (shard_timelines r) = total s_delivered r /\
  forall t, shards_at (shard_timelines r) t = total (fun s => tl_at (timeline_origin_sec s) (timeline s) t) r.
Proof.
  unfold shards_sum, shards_at, total, shard_timelines. induction 1 as [|s l [? [Hn Hnone] Htot _ _ _ _] _ IH]; [done|].
  destruct IH as (IH1 & IH2 & IH3). cbn [omap list_omap fmap list_fmap].
  destruct (timeline_origin_sec s) as [o|]; cbn [omap list_omap fmap list_fmap].
  - rewrite !sumZ_cons, IH2. split_and!; [by constructor|cbn [snd]; lia|]. intros t. rewrite !sumZ_cons, <- IH3. done.
  - rewrite Hnone in Htot by done. change (sumZ []) with 0 in Htot. rewrite sumZ_cons, <- IH2.
    split_and!; [done|lia|]. intros t. rewrite sumZ_cons, <- IH3. cbn [tl_at]. lia.
Qed.

Lemma report_timeline_spec r :
  Forall shard_ok (shards r) -> total s_delivered r < 2 ^ 64 ->
  let tl := report_timeline (report r) in
  nonneg (counts tl) /\ sumZ (counts tl) = total s_delivered r /\
  forall t, bins_at (origin_sec tl) (counts tl) t =
            total (fun s => tl_at (timeline_origin_sec s) (timeline s) t) r.
Proof.
  intros Hok Hb. destruct (shard_timelines_spec r Hok) as (H1 & H2 & H3).
  cbn [report report_timeline origin_sec counts]. set (o := min_origin _ _).
  destruct (merge_all_spec o (shard_timelines r) []) as (M1 & M2 & M3).
  - apply Forall_and. split; [apply min_origin_le|done].
  - done.
  - change (sumZ []) with 0. lia.
  - change (sumZ []) with 0 in M2. split_and!; [done|lia|]. intros t. rewrite M3, bins_at_nil, H3. lia.
Qed.

Lemma report_counts r f :
  Forall (fun s => 0 <= f s) (shards r) -> total f r < 2 ^ 64 ->
  foldl (fun acc s => sat_add 64 acc (f s)) 0 (shards r) = total f r.
Proof. intros Hf Hb. rewrite sat_sum_spec; [done|done|]. unfold total in Hb. lia. Qed.

Lemma count_le {A} (p : A -> bool) l : 0 <= count p l <= Z.of_nat (length l).
Proof.
  induction l as [|x l IH]; [done|]. unfold count in *. cbn [fmap list_fmap length]. rewrite sumZ_cons.
  destruct (p x); lia.
Qed.

(** The report of a recorder that represents a tally. *)
Lemma report_sim n w r t k :
  sim n w r t k -> k < 2 ^ 64 ->
  let rep := report r in
  delivered rep = Z.of_nat (length (firsts t)) /\ duplicates rep = repeats t /\ report_foreign rep = others t /\
  latency_over_range rep = count (too_late w) (firsts t) /\ clock_anomalies rep = count from_future (firsts t).
Proof.
  intros [] Hb. cbn [report delivered duplicates report_foreign latency_over_range clock_anomalies].
  pose proof (count_le (too_late w) (firsts t)). pose proof (count_le from_future (firsts t)).
  rewrite !report_counts; first [done|lia|eapply Forall_impl; [exact sim_ok0|intros ? []; lia]].
Qed.

(** The recorder after a run of [l] from an accepted [ARM]. *)
Lemma sim_armed_run connections origin_ns window now_ns r l :
  arm_at (Recorder_new connections) origin_ns window now_ns = (Ok tt, r) -> Z.of_nat (length l) < 2 ^ 64 ->
  sim (Z.to_nat connections) window (foldl arrive r l) (tally (Z.to_nat connections) l) (Z.of_nat (length l)).
Proof. intros Harm Hl. by apply (sim_run _ _ l r _ 0); [eapply sim_start|]. Qed.

Lemma report_run_timeline n w r t k :
  sim n w r t k -> k < 2 ^ 64 ->
  let tl := report_timeline (report r) in
  nonneg (counts tl) /\ sumZ (counts tl) = Z.of_nat (length (firsts t)) /\
  sumZ (counts tl) < 2 ^ 64 /\
  forall sec, bins_at (origin_sec tl) (counts tl) sec = count (arrived_at sec) (firsts t).
Proof.
  intros [] Hk. destruct (report_timeline_spec r sim_ok0) as (H1 & H2 & H3); [lia|].
  split_and!; [done|lia|lia|]. intros sec. by rewrite H3.
Qed.

(** A benchmark report counts every delivery exactly once.  After an
    accepted [ARM] and any sequence of publishes shorter than [2^64],
    [delivered] is the number of distinct (connection, sequence number) pairs
    among the well-formed benchmark payloads on the benchmark topic,
    [delivered + duplicates] is the number of those payloads, [foreign] counts
    the other publishes, and the chunks of a connection's duplicate bitset
    never outnumber its deliveries, whatever sequence numbers the payloads
    carry. *)
Theorem recorder_counts_once connections origin_ns window now_ns r (l : list Arrival) :
  arm_at (Recorder_new connections) origin_ns window now_ns = (Ok tt, r) ->
  Z.of_nat (length l) < 2 ^ 64 ->
  let ks := bench_keys (Z.to_nat connections) l in
  let rep := report (foldl arrive r l) in
  delivered rep = Z.of_nat (size (list_to_set ks : gset (nat * Z))) /\
  delivered rep + duplicates rep = Z.of_nat (length ks) /\
  delivered rep + duplicates rep + report_foreign rep = Z.of_nat (length l) /\
  Forall (fun s => Z.of_nat (size (seen s)) <= s_delivered s) (shards (foldl arrive r l)).
Proof.
  intros Harm Hl ks rep. pose proof (sim_armed_run _ _ _ _ _ l Harm Hl) as S.
  destruct (report_sim _ _ _ _ _ S Hl) as (H1 & H2 & H3 & _). destruct S.
  destruct (tally_closed (Z.to_nat connections) l) as [Hk Hn]. rewrite Hk in sim_size0.
  subst rep ks. rewrite H1, H2, H3, sim_size0. split_and!; try lia.
  eapply Forall_impl; [exact sim_ok0|by intros ? []].
Qed.

(** The merged timeline places every counted delivery in exactly one
    second: its checked total is [delivered], as the documentation of
    [Timeline::total] asserts, and [sum_secs] over any span of seconds is the
    number of first deliveries whose arrival time falls in the span.  The
    anomaly and over-range counters are those of the first deliveries too. *)
Theorem report_timeline_exact connections origin_ns window now_ns r (l : list Arrival) :
  arm_at (Recorder_new connections) origin_ns window now_ns = (Ok tt, r) ->
  Z.of_nat (length l) < 2 ^ 64 ->
  let fs := firsts (tally (Z.to_nat connections) l) in
  let rep := report (foldl arrive r l) in
  Timeline_total (report_timeline rep) = Some (delivered rep) /\
  (forall from_sec to_sec, to_sec < 2 ^ 64 ->
    sum_secs (report_timeline rep) from_sec to_sec =
    count (fun x => (from_sec <=? x.2 / NS) && (x.2 / NS <? to_sec)) fs) /\
  latency_over_range rep = count (too_late window) fs /\
  clock_anomalies rep = count from_future fs.
Proof.
  intros Harm Hl fs rep. pose proof (sim_armed_run _ _ _ _ _ l Harm Hl) as S.
  destruct (report_sim _ _ _ _ _ S Hl) as (H1 & _ & _ & H4 & H5).
  destruct (report_run_timeline _ _ _ _ _ S Hl) as (T1 & T2 & T3 & T4). split_and!; [| |done|done].
  - unfold Timeline_total. rewrite checked_sum_spec by done. subst rep. by rewrite H1, <- T2.
  - intros a b Hb. subst rep. rewrite sum_secs_span, <- span_count by done. unfold span_sum. f_equal.
    apply list_fmap_ext. intros _ t _. apply T4.
Qed.
End Refinement.

(** ** A run

    A histogram that keeps its samples, two connections, and four publishes:
    one delivery, its duplicate, one to the other connection, one foreign. *)
Module RecorderWitness.
#[export] Instance samples : HdrHistogram :=
  {| Histogram := list Z; new_latency_histogram := []; hist_record h v := v :: h; hist_add h k := h ++ k;
     histogram_buckets h := (fun v => (v, 1)) <$> h |}.

Definition stamped (conn seq at_ns : Z) : Arrival :=
  {| pub := Publish_new TOPIC (Stamp_encode {| conn_id := conn; seq_no := seq; scheduled_ns := 5 * NS |}) BAtMostOnce
              false;
     at_ns := at_ns; on_thread := 0 |}.
Definition arrivals : list Arrival :=
  [stamped 0 700 (5 * NS); stamped 0 700 (6 * NS); stamped 1 700 (7 * NS); stamped 9 1 (7 * NS)].
Definition window : Window := {| start_ns := 5 * NS; end_ns := 8 * NS |}.
Definition armed_recorder : Recorder := (arm_at (Recorder_new 2) (4 * NS) window (4 * NS)).2.
End RecorderWitness.

(** Two deliveries, one duplicate, one foreign publish. *)
Lemma recorder_counts_once_witness :
  let rep := report (foldl arrive RecorderWitness.armed_recorder RecorderWitness.arrivals) in
  delivered rep = 2 /\ duplicates rep = 1 /\ report_foreign rep = 1 /\
  delivered rep + duplicates rep + report_foreign rep = 4.
Proof.
  split_and!; [by vm_compute..|].
  by destruct (recorder_counts_once 2 (4 * NS) RecorderWitness.window (4 * NS) RecorderWitness.armed_recorder
    RecorderWitness.arrivals eq_refl ltac:(done)) as (_ & _ & -> & _).
Defined.

(** One of the two deliveries arrives in seconds 6 and 7. *)
Lemma report_timeline_exact_witness :
  let rep := report (foldl arrive RecorderWitness.armed_recorder RecorderWitness.arrivals) in
  Timeline_total (report_timeline rep) = Some (delivered rep) /\ sum_secs (report_timeline rep) 6 8 = 1.
Proof.
  destruct (report_timeline_exact 2 (4 * NS) RecorderWitness.window (4 * NS) RecorderWitness.armed_recorder
    RecorderWitness.arrivals eq_refl ltac:(done)) as (H & Hs & _).
  split; [exact H|]. rewrite Hs by done. by vm_compute.
Defined.
