(* ===== verification/RunRecord.v ===== *)
(** * Run records

    bench/src/run_record.rs: the record of one benchmark run and the name of
    its file, with the run specification and the protocol constants of
    bench/src/runner.rs.  [file_name_inj]: two records of different
    configurations, attempts or repetitions never share a file. *)

From S2P Require Import Prelude Text F64 Api Wire Recorder.
From Stdlib Require Import Ascii.

Definition SCHEMA_VERSION : Z := 3.

Inductive Profile := Recorded | Smoke.
Inductive ServerKind := Uring | Tokio | Mosquitto.
Inductive RunKind := KThroughput | KLatency | KConnections | KCounted.
Inductive SyscallMethod := Perf | Strace | NoMethod.
Inductive Build := Release | DebugBuild.

#[export] Instance Profile_eq_dec : EqDecision Profile.
Proof. solve_decision. Defined.
#[export] Instance ServerKind_eq_dec : EqDecision ServerKind.
Proof. solve_decision. Defined.
#[export] Instance RunKind_eq_dec : EqDecision RunKind.
Proof. solve_decision. Defined.
#[export] Instance SyscallMethod_eq_dec : EqDecision SyscallMethod.
Proof. solve_decision. Defined.
#[export] Instance Build_eq_dec : EqDecision Build.
Proof. solve_decision. Defined.

Definition is_open_loop (self : RunKind) : bool := match self with KLatency | KCounted => true | _ => false end.

Record Counts := {
  c_scheduled : option Z; c_window_scheduled : option Z; c_offered : Z; c_acked : option Z;
  c_delivered : Z; c_dropped : option Z; c_unresolved : Z; c_duplicates : Z; c_foreign : Z;
  c_latency_over_range : Z; c_clock_anomalies : Z
}.

Record LatencySummary := { p50 : Z; p99 : Z; max_ns : Z; histogram : list (Z * Z) }.
#[export] Instance LatencySummary_eq_dec : EqDecision LatencySummary.
Proof. solve_decision. Defined.

Inductive CounterExit := ExitCode (code : Z) | ExitSignal (signal : Z).

Record Syscalls := {
  y_method : SyscallMethod; y_count : option Z; y_per_msg : option f64; y_raw : option str;
  y_enabled_ns : option Z; y_disabled_ns : option Z; y_exit : option CounterExit; y_diagnostics : option str
}.

Record DriverFds := { io_uring_fds : Z; eventpoll_fds : Z }.
#[export] Instance DriverFds_eq_dec : EqDecision DriverFds.
Proof. solve_decision. Defined.

Record CpuSets := { cpus_server : str; cpus_generator : str }.
Record CpuUsage := { clk_tck : Z; sampled_ns : Z; server_ticks : Z; generator_ticks : Z }.
Record HostCpuPressure := { pressure_sampled_ns : Z; some_stall_us : Z }.
Record Env := {
  kernel : str; cpu_model : str; host_name : str; git_sha : str; git_dirty : bool; tools : list (str * str)
}.

Record GeneratorErrors := {
  g_connect : Z; g_protocol : Z; g_missed_slots : Z; g_stalled : Z; g_lateness_over_range : Z
}.

Record ConfigKey := {
  k_server : ServerKind; k_workers : Z; k_qos : option Z; k_kind : RunKind; k_offered_rate : option Z
}.
#[export] Instance ConfigKey_eq_dec : EqDecision ConfigKey.
Proof. solve_decision. Defined.

Record RunRecord := {
  r_schema : Z; r_profile : Profile; r_server : ServerKind; r_workers : Z; r_qos : option Z;
  r_kind : RunKind; r_offered_rate : option Z; r_repetition : Z; r_attempt : Z; r_connections : Z;
  r_payload_bytes : Z; r_qos1_window : Z; r_warmup_secs : Z; r_window_secs : Z; r_drain_grace_secs : Z;
  r_build : Build; r_origin_ns : Z; r_window : Window; r_timeline : Timeline; r_cycles_in_window : option Z;
  r_counts : Counts; r_throughput : option f64; r_last10s : option f64; r_latency_ns : option LatencySummary;
  r_lateness : list (Z * Z); r_lateness_p99_ns : option Z; r_last_write_start_ns : option Z;
  r_connections_per_sec : option f64; r_generator_errors : GeneratorErrors; r_syscalls : Syscalls;
  r_driver : option DriverFds; r_cpu_sets : CpuSets; r_env : Env; r_cpu : option CpuUsage;
  r_host_cpu_pressure : option HostCpuPressure; r_worker_loads : option (list WorkerLoad);
  r_started_at_unix : Z; r_harness_errors : list str; r_valid : bool; r_invalid_reasons : list str;
  r_cancelled : bool
}.

(** Keys of a [HashMap]: numbered through a sum of products. *)
Definition server_code (s : ServerKind) : Z := match s with Uring => 0 | Tokio => 1 | Mosquitto => 2 end.
Definition kind_code (k : RunKind) : Z :=
  match k with KThroughput => 0 | KLatency => 1 | KConnections => 2 | KCounted => 3 end.

#[export] Instance ConfigKey_countable : Countable ConfigKey.
Proof.
  refine (inj_countable'
    (fun k => (server_code (k_server k), k_workers k, k_qos k, kind_code (k_kind k), k_offered_rate k))
    (fun '(s, w, q, k, r) =>
       {| k_server := if s =? 0 then Uring else if s =? 1 then Tokio else Mosquitto; k_workers := w; k_qos := q;
          k_kind := if k =? 0 then KThroughput else if k =? 1 then KLatency else if k =? 2 then KConnections else KCounted;
          k_offered_rate := r |}) _).
  by intros [[] ? ? [] ?].
Defined.

Definition server_lower (server : ServerKind) : str :=
  match server with Uring => lit "uring" | Tokio => lit "tokio" | Mosquitto => lit "mosquitto" end.

Definition kind_lower (kind : RunKind) : str :=
  match kind with
  | KThroughput => lit "throughput" | KLatency => lit "latency"
  | KConnections => lit "connections" | KCounted => lit "counted"
  end.

Definition key (self : RunRecord) : ConfigKey :=
  {| k_server := r_server self; k_workers := r_workers self; k_qos := r_qos self; k_kind := r_kind self;
     k_offered_rate := r_offered_rate self |}.

Definition opt_part (prefix : str) (o : option Z) : str :=
  match o with None => [] | Some n => prefix ++ dec n end.

Definition file_name (self : RunRecord) : str :=
  let q := opt_part (lit "-q") (r_qos self) in
  let rate := opt_part (lit "-at") (r_offered_rate self) in
  server_lower (r_server self) ++ lit "-w" ++ dec (r_workers self) ++ q ++ lit "-" ++ kind_lower (r_kind self)
  ++ rate ++ lit "-a" ++ dec (r_attempt self) ++ lit "-r" ++ dec (r_repetition self) ++ lit ".json".

(** ** Field updates *)

(** [record.throughput_msgs_per_sec = ..] to [record.syscalls.per_msg = ..]. *)
Definition set_derived (r : RunRecord) (thr last conn : option f64) (late : option Z) (lat : option LatencySummary) (per_msg : option f64) : RunRecord :=
  let y := {| y_method := y_method (r_syscalls r); y_count := y_count (r_syscalls r); y_per_msg := per_msg;
              y_raw := y_raw (r_syscalls r); y_enabled_ns := y_enabled_ns (r_syscalls r);
              y_disabled_ns := y_disabled_ns (r_syscalls r); y_exit := y_exit (r_syscalls r);
              y_diagnostics := y_diagnostics (r_syscalls r) |} in
  {| r_schema := r_schema r; r_profile := r_profile r; r_server := r_server r; r_workers := r_workers r;
     r_qos := r_qos r; r_kind := r_kind r; r_offered_rate := r_offered_rate r; r_repetition := r_repetition r;
     r_attempt := r_attempt r; r_connections := r_connections r; r_payload_bytes := r_payload_bytes r;
     r_qos1_window := r_qos1_window r; r_warmup_secs := r_warmup_secs r; r_window_secs := r_window_secs r;
     r_drain_grace_secs := r_drain_grace_secs r; r_build := r_build r; r_origin_ns := r_origin_ns r;
     r_window := r_window r; r_timeline := r_timeline r; r_cycles_in_window := r_cycles_in_window r;
     r_counts := r_counts r; r_throughput := thr; r_last10s := last; r_latency_ns := lat;
     r_lateness := r_lateness r; r_lateness_p99_ns := late; r_last_write_start_ns := r_last_write_start_ns r;
     r_connections_per_sec := conn; r_generator_errors := r_generator_errors r; r_syscalls := y;
     r_driver := r_driver r; r_cpu_sets := r_cpu_sets r; r_env := r_env r; r_cpu := r_cpu r;
     r_host_cpu_pressure := r_host_cpu_pressure r; r_worker_loads := r_worker_loads r;
     r_started_at_unix := r_started_at_unix r; r_harness_errors := r_harness_errors r; r_valid := r_valid r;
     r_invalid_reasons := r_invalid_reasons r; r_cancelled := r_cancelled r |}.

(** [record.invalid_reasons = reasons; record.valid = reasons.is_empty()]. *)
Definition set_verdict (r : RunRecord) (reasons : list str) : RunRecord :=
  {| r_schema := r_schema r; r_profile := r_profile r; r_server := r_server r; r_workers := r_workers r;
     r_qos := r_qos r; r_kind := r_kind r; r_offered_rate := r_offered_rate r; r_repetition := r_repetition r;
     r_attempt := r_attempt r; r_connections := r_connections r; r_payload_bytes := r_payload_bytes r;
     r_qos1_window := r_qos1_window r; r_warmup_secs := r_warmup_secs r; r_window_secs := r_window_secs r;
     r_drain_grace_secs := r_drain_grace_secs r; r_build := r_build r; r_origin_ns := r_origin_ns r;
     r_window := r_window r; r_timeline := r_timeline r; r_cycles_in_window := r_cycles_in_window r;
     r_counts := r_counts r; r_throughput := r_throughput r; r_last10s := r_last10s r;
     r_latency_ns := r_latency_ns r; r_lateness := r_lateness r; r_lateness_p99_ns := r_lateness_p99_ns r;
     r_last_write_start_ns := r_last_write_start_ns r; r_connections_per_sec := r_connections_per_sec r;
     r_generator_errors := r_generator_errors r; r_syscalls := r_syscalls r; r_driver := r_driver r;
     r_cpu_sets := r_cpu_sets r; r_env := r_env r; r_cpu := r_cpu r;
     r_host_cpu_pressure := r_host_cpu_pressure r; r_worker_loads := r_worker_loads r;
     r_started_at_unix := r_started_at_unix r; r_harness_errors := r_harness_errors r;
     r_valid := match reasons with [] => true | _ => false end; r_invalid_reasons := reasons;
     r_cancelled := r_cancelled r |}.

(** [record.harness_errors = errors]. *)
Definition set_harness_errors (r : RunRecord) (errors : list str) : RunRecord :=
  {| r_schema := r_schema r; r_profile := r_profile r; r_server := r_server r; r_workers := r_workers r;
     r_qos := r_qos r; r_kind := r_kind r; r_offered_rate := r_offered_rate r; r_repetition := r_repetition r;
     r_attempt := r_attempt r; r_connections := r_connections r; r_payload_bytes := r_payload_bytes r;
     r_qos1_window := r_qos1_window r; r_warmup_secs := r_warmup_secs r; r_window_secs := r_window_secs r;
     r_drain_grace_secs := r_drain_grace_secs r; r_build := r_build r; r_origin_ns := r_origin_ns r;
     r_window := r_window r; r_timeline := r_timeline r; r_cycles_in_window := r_cycles_in_window r;
     r_counts := r_counts r; r_throughput := r_throughput r; r_last10s := r_last10s r;
     r_latency_ns := r_latency_ns r; r_lateness := r_lateness r; r_lateness_p99_ns := r_lateness_p99_ns r;
     r_last_write_start_ns := r_last_write_start_ns r; r_connections_per_sec := r_connections_per_sec r;
     r_generator_errors := r_generator_errors r; r_syscalls := r_syscalls r; r_driver := r_driver r;
     r_cpu_sets := r_cpu_sets r; r_env := r_env r; r_cpu := r_cpu r;
     r_host_cpu_pressure := r_host_cpu_pressure r; r_worker_loads := r_worker_loads r;
     r_started_at_unix := r_started_at_unix r; r_harness_errors := errors; r_valid := r_valid r;
     r_invalid_reasons := r_invalid_reasons r; r_cancelled := r_cancelled r |}.

(** [record.host_cpu_pressure = p]. *)
Definition set_host_cpu_pressure (r : RunRecord) (p : option HostCpuPressure) : RunRecord :=
  {| r_schema := r_schema r; r_profile := r_profile r; r_server := r_server r; r_workers := r_workers r;
     r_qos := r_qos r; r_kind := r_kind r; r_offered_rate := r_offered_rate r; r_repetition := r_repetition r;
     r_attempt := r_attempt r; r_connections := r_connections r; r_payload_bytes := r_payload_bytes r;
     r_qos1_window := r_qos1_window r; r_warmup_secs := r_warmup_secs r; r_window_secs := r_window_secs r;
     r_drain_grace_secs := r_drain_grace_secs r; r_build := r_build r; r_origin_ns := r_origin_ns r;
     r_window := r_window r; r_timeline := r_timeline r; r_cycles_in_window := r_cycles_in_window r;
     r_counts := r_counts r; r_throughput := r_throughput r; r_last10s := r_last10s r;
     r_latency_ns := r_latency_ns r; r_lateness := r_lateness r; r_lateness_p99_ns := r_lateness_p99_ns r;
     r_last_write_start_ns := r_last_write_start_ns r; r_connections_per_sec := r_connections_per_sec r;
     r_generator_errors := r_generator_errors r; r_syscalls := r_syscalls r; r_driver := r_driver r;
     r_cpu_sets := r_cpu_sets r; r_env := r_env r; r_cpu := r_cpu r; r_host_cpu_pressure := p;
     r_worker_loads := r_worker_loads r; r_started_at_unix := r_started_at_unix r;
     r_harness_errors := r_harness_errors r; r_valid := r_valid r; r_invalid_reasons := r_invalid_reasons r;
     r_cancelled := r_cancelled r |}.

(** [record.cancelled = c]. *)
Definition set_cancelled (r : RunRecord) (c : bool) : RunRecord :=
  {| r_schema := r_schema r; r_profile := r_profile r; r_server := r_server r; r_workers := r_workers r;
     r_qos := r_qos r; r_kind := r_kind r; r_offered_rate := r_offered_rate r; r_repetition := r_repetition r;
     r_attempt := r_attempt r; r_connections := r_connections r; r_payload_bytes := r_payload_bytes r;
     r_qos1_window := r_qos1_window r; r_warmup_secs := r_warmup_secs r; r_window_secs := r_window_secs r;
     r_drain_grace_secs := r_drain_grace_secs r; r_build := r_build r; r_origin_ns := r_origin_ns r;
     r_window := r_window r; r_timeline := r_timeline r; r_cycles_in_window := r_cycles_in_window r;
     r_counts := r_counts r; r_throughput := r_throughput r; r_last10s := r_last10s r;
     r_latency_ns := r_latency_ns r; r_lateness := r_lateness r; r_lateness_p99_ns := r_lateness_p99_ns r;
     r_last_write_start_ns := r_last_write_start_ns r; r_connections_per_sec := r_connections_per_sec r;
     r_generator_errors := r_generator_errors r; r_syscalls := r_syscalls r; r_driver := r_driver r;
     r_cpu_sets := r_cpu_sets r; r_env := r_env r; r_cpu := r_cpu r;
     r_host_cpu_pressure := r_host_cpu_pressure r; r_worker_loads := r_worker_loads r;
     r_started_at_unix := r_started_at_unix r; r_harness_errors := r_harness_errors r; r_valid := r_valid r;
     r_invalid_reasons := r_invalid_reasons r; r_cancelled := c |}.

(** ** Run specifications and protocol constants *)

Record RunSpec := {
  sp_profile : Profile; sp_server : ServerKind; sp_workers : Z; sp_qos : option Z; sp_kind : RunKind;
  sp_offered_rate : option Z; sp_repetition : Z; sp_attempt : Z
}.

Record ProtocolConstants := {
  warmup_secs : Z; window_secs : Z; repetitions : Z; drain_grace_secs : Z; max_config_attempts : Z;
  enforce_spread : bool
}.

Definition for_profile (profile : Profile) : ProtocolConstants :=
  match profile with
  | Recorded => {| warmup_secs := 10; window_secs := 60; repetitions := 5; drain_grace_secs := 5;
                   max_config_attempts := 3; enforce_spread := true |}
  | Smoke => {| warmup_secs := 2; window_secs := 5; repetitions := 2; drain_grace_secs := 2;
                max_config_attempts := 1; enforce_spread := false |}
  end.

Record DeclaredRates := { lower : Z; higher : Z }.
Definition both (self : DeclaredRates) : list Z := [lower self; higher self].

Definition DECLARED_RATES_W1_Q1 : DeclaredRates := {| lower := 75000; higher := 300000 |}.
Definition DECLARED_RATES_W1_Q0 : DeclaredRates := {| lower := 150000; higher := 400000 |}.
Definition DECLARED_RATES_W4_Q1 : DeclaredRates := {| lower := 900000; higher := 1200000 |}.
Definition DECLARED_RATES_W4_Q0 : DeclaredRates := {| lower := 1300000; higher := 1500000 |}.
Definition SMOKE_DECLARED_RATES : DeclaredRates := {| lower := 40000; higher := 60000 |}.

Definition declared_rates (profile : Profile) (workers qos : Z) : option DeclaredRates :=
  match profile with
  | Smoke => Some SMOKE_DECLARED_RATES
  | Recorded =>
      if (workers =? 1) && (qos =? 1) then Some DECLARED_RATES_W1_Q1
      else if (workers =? 1) && (qos =? 0) then Some DECLARED_RATES_W1_Q0
      else if (workers =? 4) && (qos =? 1) then Some DECLARED_RATES_W4_Q1
      else if (workers =? 4) && (qos =? 0) then Some DECLARED_RATES_W4_Q0
      else None
  end.

Definition build_minimal_record (spec : RunSpec) : RunRecord :=
  {| r_schema := SCHEMA_VERSION; r_profile := sp_profile spec; r_server := sp_server spec;
     r_workers := sp_workers spec; r_qos := sp_qos spec; r_kind := sp_kind spec;
     r_offered_rate := sp_offered_rate spec; r_repetition := sp_repetition spec; r_attempt := sp_attempt spec;
     r_connections := 0; r_payload_bytes := 0; r_qos1_window := 0; r_warmup_secs := 0; r_window_secs := 0;
     r_drain_grace_secs := 0; r_build := Release; r_origin_ns := 0;
     r_window := {| start_ns := 0; end_ns := 0 |}; r_timeline := {| origin_sec := 0; counts := [] |};
     r_cycles_in_window := None;
     r_counts := {| c_scheduled := None; c_window_scheduled := None; c_offered := 0; c_acked := None;
                    c_delivered := 0; c_dropped := None; c_unresolved := 0; c_duplicates := 0; c_foreign := 0;
                    c_latency_over_range := 0; c_clock_anomalies := 0 |};
     r_throughput := None; r_last10s := None; r_latency_ns := None; r_lateness := []; r_lateness_p99_ns := None;
     r_last_write_start_ns := None; r_connections_per_sec := None;
     r_generator_errors := {| g_connect := 0; g_protocol := 0; g_missed_slots := 0; g_stalled := 0;
                              g_lateness_over_range := 0 |};
     r_syscalls := {| y_method := NoMethod; y_count := None; y_per_msg := None; y_raw := None;
                      y_enabled_ns := None; y_disabled_ns := None; y_exit := None; y_diagnostics := None |};
     r_driver := None; r_cpu_sets := {| cpus_server := []; cpus_generator := [] |};
     r_env := {| kernel := []; cpu_model := []; host_name := []; git_sha := []; git_dirty := false; tools := [] |};
     r_cpu := None; r_host_cpu_pressure := None; r_worker_loads := None; r_started_at_unix := 0;
     r_harness_errors := []; r_valid := false; r_invalid_reasons := []; r_cancelled := false |}.

Definition stem_for (spec : RunSpec) : str := str_remove (lit ".json") (file_name (build_minimal_record spec)).

(** The key a specification runs under. *)
Definition key_of (spec : RunSpec) : ConfigKey :=
  {| k_server := sp_server spec; k_workers := sp_workers spec; k_qos := sp_qos spec; k_kind := sp_kind spec;
     k_offered_rate := sp_offered_rate spec |}.

(** ** File names are unambiguous *)

Definition opt_nonneg (o : option Z) : Prop := match o with Some n => 0 <= n | None => True end.

(** The numbers a file name prints are unsigned. *)
Record name_wf (r : RunRecord) : Prop := {
  nw_workers : 0 <= r_workers r; nw_qos : opt_nonneg (r_qos r); nw_rate : opt_nonneg (r_offered_rate r);
  nw_attempt : 0 <= r_attempt r; nw_repetition : 0 <= r_repetition r
}.

Lemma server_cancel s s' x y : server_lower s ++ lit "-" ++ x = server_lower s' ++ lit "-" ++ y -> s = s' /\ x = y.
Proof. destruct s, s'; simpl; intros; by simplify_eq. Qed.

Lemma kind_cancel k k' x y : kind_lower k ++ lit "-" ++ x = kind_lower k' ++ lit "-" ++ y -> k = k' /\ x = y.
Proof. destruct k, k'; simpl; intros; by simplify_eq. Qed.

(** The text of a file name after its kind: [[-at<rate>]-a<attempt>-r<rep>.json]. *)
Definition name_tail (o : option Z) (attempt rep : Z) : str :=
  opt_part (lit "-at") o ++ lit "-a" ++ dec attempt ++ lit "-r" ++ dec rep ++ lit ".json".

Lemma name_tail_cancel o o' a a' r r' :
  opt_nonneg o -> opt_nonneg o' -> 0 <= a -> 0 <= a' -> 0 <= r -> 0 <= r' ->
  name_tail o a r = name_tail o' a' r' -> o = o' /\ a = a' /\ r = r'.
Proof.
  intros Ho Ho' Ha Ha' Hr Hr' E. unfold name_tail in E.
  assert (Hend : forall b b', 0 <= b -> 0 <= b' ->
    dec b ++ lit "-r" ++ dec r ++ lit ".json" = dec b' ++ lit "-r" ++ dec r' ++ lit ".json" -> b = b' /\ r = r').
  { intros b b' Hb Hb' Eb. apply dec_cancel in Eb as [-> Eb]; [|done..]. simpl in Eb. injection Eb as Eb.
    by apply dec_cancel in Eb as [-> _]. }
  destruct (dec_cons a Ha) as (c & ca & Ec & Hc). destruct (dec_cons a' Ha') as (c' & ca' & Ec' & Hc').
  destruct o as [n|], o' as [n'|]; simpl in E, Ho, Ho'.
  - injection E as E. rewrite <- ?app_assoc in E. apply dec_cancel in E as [-> E]; [|done..]. simpl in E.
    injection E as E. by destruct (Hend a a' Ha Ha' E) as [-> ->].
  - injection E as E. rewrite Ec' in E. simpl in E. injection E as E _. rewrite <- E in Hc'. by destruct Hc'.
  - injection E as E. rewrite Ec in E. simpl in E. injection E as E _. rewrite E in Hc. by destruct Hc.
  - injection E as E. by destruct (Hend a a' Ha Ha' E) as [-> ->].
Qed.

Lemma kind_head k : exists c t, kind_lower k = c :: t /\ c <> chr "q".
Proof. destruct k; eexists _, _; (split; [reflexivity|done]). Qed.

Lemma file_name_tail r : file_name r =
  server_lower (r_server r) ++ lit "-" ++ (lit "w" ++ dec (r_workers r) ++ opt_part (lit "-q") (r_qos r)
  ++ lit "-" ++ kind_lower (r_kind r) ++ name_tail (r_offered_rate r) (r_attempt r) (r_repetition r)).
Proof. done. Qed.

Lemma name_tail_dash o a r : exists t, name_tail o a r = lit "-" ++ t.
Proof. destruct o; by eexists. Qed.

(** Two runs that share a file are the same repetition of the same attempt of
    the same configuration. *)
Lemma file_name_cancel r r' : name_wf r -> name_wf r' -> file_name r = file_name r' ->
  key r = key r' /\ r_attempt r = r_attempt r' /\ r_repetition r = r_repetition r'.
Proof.
  intros [Hw Hq Hr Ha Hp] [Hw' Hq' Hr' Ha' Hp'] E. rewrite !file_name_tail in E.
  apply server_cancel in E as [Es E]. simpl in E. injection E as E.
  assert (Hrest : forall k k' o o' a a' p p', opt_nonneg o -> opt_nonneg o' -> 0 <= a -> 0 <= a' -> 0 <= p -> 0 <= p' ->
    kind_lower k ++ name_tail o a p = kind_lower k' ++ name_tail o' a' p' -> k = k' /\ o = o' /\ a = a' /\ p = p').
  { intros k k' o o' a a' p p' ? ? ? ? ? ? Ek.
    destruct (name_tail_dash o a p) as [t Et], (name_tail_dash o' a' p') as [t' Et']. rewrite Et, Et' in Ek.
    apply kind_cancel in Ek as [-> Ek]. split; [done|]. apply name_tail_cancel; try done. by rewrite Et, Et', Ek. }
  assert (Hstop : forall o k t, stops (opt_part (lit "-q") o ++ lit "-" ++ kind_lower k ++ t)) by (by intros []).
  apply dec_cancel in E as [Ew E]; [|done|done|apply Hstop..].
  assert (Hqk : r_qos r = r_qos r' /\ kind_lower (r_kind r) ++ name_tail (r_offered_rate r) (r_attempt r) (r_repetition r)
    = kind_lower (r_kind r') ++ name_tail (r_offered_rate r') (r_attempt r') (r_repetition r')).
  { destruct (kind_head (r_kind r)) as (c & t & Ek & Hc), (kind_head (r_kind r')) as (c' & t' & Ek' & Hc').
    destruct (r_qos r) as [n|], (r_qos r') as [n'|]; simpl in E, Hq, Hq'; injection E as E.
    - rewrite <- ?app_assoc in E. apply dec_cancel in E as [-> E]; [|done..]. simpl in E. by injection E as E.
    - rewrite Ek' in E. injection E as E _. by rewrite <- E in Hc'.
    - rewrite Ek in E. injection E as E _. by rewrite E in Hc.
    - done. }
  destruct Hqk as [Eq Ek]. destruct (Hrest _ _ _ _ _ _ _ _ Hr Hr' Ha Ha' Hp Hp' Ek) as (Ekk & Er & Eaa & Ep).
  unfold key. by rewrite Es, Ew, Eq, Ekk, Er.
Qed.

(** ** The directory stem of a run *)

Definition no_dot (s : str) : Prop := Forall (fun c => c <> chr ".") s.

Lemma digits_no_dot s : digits s -> no_dot s.
Proof. intros H. eapply Forall_impl; [exact H|]. intros c Hc. apply is_digit_spec in Hc. intros ->. by destruct Hc. Qed.

Lemma split_once_first c p a b : Forall (fun x => x <> c) a ->
  split_once (c :: p) (a ++ (c :: p) ++ b) = Some (a, b).
Proof.
  intros Ha. induction Ha as [|x a Hx Ha IH]; cbn [app split_once strip_prefix].
  - rewrite Z.eqb_refl. by rewrite (proj2 (strip_prefix_Some p (p ++ b) b)) by done.
  - rewrite (proj2 (Z.eqb_neq c x)) by congruence. cbn [app] in IH. by rewrite IH.
Qed.

Lemma opt_part_no_dot p o : no_dot p -> opt_nonneg o -> no_dot (opt_part p o).
Proof.
  intros Hp Ho. destruct o; simpl; [|constructor]. apply Forall_app. split; [done|]. by apply digits_no_dot, dec_digits.
Qed.

(** The stem is the file name without its extension. *)
Lemma stem_for_json spec : name_wf (build_minimal_record spec) ->
  stem_for spec ++ lit ".json" = file_name (build_minimal_record spec).
Proof.
  set (r := build_minimal_record spec). intros [Hw Hq Hr Ha Hp].
  assert (E : exists a, file_name r = a ++ lit ".json" /\ no_dot a).
  { exists (server_lower (r_server r) ++ lit "-w" ++ dec (r_workers r) ++ opt_part (lit "-q") (r_qos r) ++ lit "-"
            ++ kind_lower (r_kind r) ++ opt_part (lit "-at") (r_offered_rate r) ++ lit "-a" ++ dec (r_attempt r)
            ++ lit "-r" ++ dec (r_repetition r)).
    split; [unfold file_name; rewrite <- ?app_assoc; by rewrite <- ?app_assoc|].
    assert (Hlit : forall l, forallb (fun c => negb (c =? chr ".")) l = true -> no_dot l).
    { intros l Hl. apply Forall_forall. intros c Hc. rewrite forallb_forall in Hl.
      specialize (Hl c (proj1 (list_elem_of_In _ _) Hc)). by apply negb_true_iff, Z.eqb_neq in Hl. }
    repeat (apply Forall_app; split);
      first [by apply digits_no_dot, dec_digits | apply opt_part_no_dot; [by apply Hlit|done] | idtac]; apply Hlit; first [done|by destruct (r_server r)|by destruct (r_kind r)]. }
  destruct E as (a & E & Hdot). unfold stem_for. fold r. rewrite E. unfold str_remove.
  rewrite length_app. replace (length a + length (lit ".json"))%nat with (S (length a + 4)) by (simpl; lia).
  cbn [remove_all]. pose proof (split_once_first (chr ".") (lit "json") a [] Hdot) as Hs.
  rewrite app_nil_r in Hs. change (chr "." :: lit "json") with (lit ".json") in Hs. rewrite Hs.
  assert (Hnil : forall n, remove_all n (lit ".json") [] = []) by (by intros []). by rewrite Hnil, app_nil_r.
Qed.
