(* ===== verification/Generator.v ===== *)
(** * The load generator's packet ids

    bench/src/gen.rs: [PacketIds], the packet-id allocator a QoS 1 connection
    of the generator shares with its reader, as an implementation of a set of
    ids in flight. *)

From S2P Require Import Prelude Packet Wire Recorder.

(** ** Packet ids *)

(** [u64::trailing_zeros]: 64 for zero. *)
Fixpoint trailing_zeros_from (n : nat) (i : Z) (w : Z) : Z :=
  match n with
  | O => i
  | S n => if Z.testbit w i then i else trailing_zeros_from n (i + 1) w
  end.
Definition trailing_zeros (w : Z) : Z := trailing_zeros_from 64 0 w.

Definition ID_WORDS : nat := 1024.
Definition U64_MAX : Z := 2 ^ 64 - 1.

Record PacketIds := { bits : list Z; cursor : nat }.

Definition PacketIds_new : PacketIds := {| bits := replicate ID_WORDS 0; cursor := 0 |}.
Arguments PacketIds_new : simpl never.

(** The [for offset in 0..self.bits.len()] loop: [n] words are left to look
    at, the next at [offset] from the cursor. *)
Fixpoint allocate_from (self : PacketIds) (offset n : nat) : option Z * PacketIds :=
  match n with
  | O => (None, self)
  | S n =>
      let idx := ((cursor self + offset) mod length (bits self))%nat in
      let word := default 0 (bits self !! idx) in
      if word =? U64_MAX then allocate_from self (S offset) n
      else
        let bit := trailing_zeros (wrap64 (Z.lnot word)) in
        let id_offset := Z.of_nat idx * 64 + bit in
        if 65534 <? id_offset then allocate_from self (S offset) n
        else (Some (id_offset + 1),
              {| bits := <[idx := Z.lor word (Z.shiftl 1 bit)]> (bits self);
                 cursor := (S idx mod length (bits self))%nat |})
  end.

Definition PacketIds_allocate (self : PacketIds) : option Z * PacketIds :=
  allocate_from self 0 (length (bits self)).

Definition PacketIds_release (self : PacketIds) (id : Z) : bool * PacketIds :=
  if id =? 0 then (false, self)
  else
    let id_offset := id - 1 in
    let idx := Z.to_nat (id_offset / 64) in
    let mask := Z.shiftl 1 (id_offset mod 64) in
    let word := default 0 (bits self !! idx) in
    (negb (Z.land word mask =? 0),
     {| bits := <[idx := Z.land word (wrap64 (Z.lnot mask))]> (bits self); cursor := idx |}).

(** The set the bits stand for: bit [k] is id [k + 1]. *)
Definition id_bit (ws : list Z) (id : Z) : bool :=
  Z.testbit (default 0 (ws !! Z.to_nat ((id - 1) / 64))) ((id - 1) mod 64).

Definition id_ok (id : Z) : Prop := 1 <= id <= 65535.

(** The simulation relation: which ids are in flight. *)
Record ids_rel (p : PacketIds) (s : gset Z) : Prop := {
  ir_len : length (bits p) = ID_WORDS;
  ir_u64 : Forall u64 (bits p);
  ir_cursor : (cursor p < ID_WORDS)%nat;
  ir_bits : forall id, id_ok id -> id_bit (bits p) id = bool_decide (id ∈ s);
  ir_set : forall id, id ∈ s -> id_ok id
}.

Lemma trailing_zeros_spec w :
  u64 w -> w <> 0 ->
  0 <= trailing_zeros w < 64 /\ Z.testbit w (trailing_zeros w) = true /\
  forall j, 0 <= j < trailing_zeros w -> Z.testbit w j = false.
Proof.
  intros Hw Hnz. unfold trailing_zeros.
  assert (G : forall n i, 0 <= i -> i + Z.of_nat n = 64 -> (forall j, 0 <= j < i -> Z.testbit w j = false) ->
    let t := trailing_zeros_from n i w in
    0 <= t < 64 /\ Z.testbit w t = true /\ forall j, 0 <= j < t -> Z.testbit w j = false).
  { induction n as [|n IH]; intros i Hi Hn Hlow.
    - destruct Hnz. apply Z.bits_inj'. intros j Hj. rewrite Z.bits_0.
      destruct (Z.lt_ge_cases j 64); [apply Hlow; lia|]. apply u_range_bits in Hw as [_ Hw]; [|lia]. apply Hw. lia.
    - cbn [trailing_zeros_from]. destruct (Z.testbit w i) eqn:E; [split_and!; [lia|lia|done|done]|].
      apply IH; [lia|lia|]. intros j Hj. destruct (decide (j = i)) as [->|]; [done|]. apply Hlow. lia. }
  apply G; [lia|lia|intros; lia].
Qed.

(** A word with a free bit: the bit found is the lowest clear one. *)
Lemma free_bit_spec w :
  u64 w -> w <> U64_MAX ->
  let b := trailing_zeros (wrap64 (Z.lnot w)) in
  0 <= b < 64 /\ Z.testbit w b = false /\ forall j, 0 <= j < b -> Z.testbit w j = true.
Proof.
  intros Hw Hne b. assert (Hu : u64 (wrap64 (Z.lnot w))) by (apply Z.mod_pos_bound; lia).
  assert (Hnz : wrap64 (Z.lnot w) <> 0).
  { unfold wrap, Z.lnot, U64_MAX, u_range in *. intros E. apply Hne.
    replace (Z.pred (- w)) with ((2 ^ 64 - 1 - w) + (-1) * 2 ^ 64) in E by lia.
    rewrite Z.mod_add, Z.mod_small in E by lia. lia. }
  assert (Hbit : forall j, 0 <= j < 64 -> Z.testbit w j = negb (Z.testbit (wrap64 (Z.lnot w)) j)).
  { intros j Hj. unfold wrap. rewrite Z.mod_pow2_bits_low, Z.lnot_spec, negb_involutive by lia. done. }
  destruct (trailing_zeros_spec _ Hu Hnz) as (Hb & Ht & Hlow). subst b. split_and!; [lia|lia| |].
  - rewrite Hbit, Ht by lia. done.
  - intros j Hj. rewrite Hbit, Hlow by lia. done.
Qed.

Lemma full_word j : 0 <= j < 64 -> Z.testbit U64_MAX j = true.
Proof. intros. unfold U64_MAX. change (2 ^ 64 - 1) with (Z.ones 64). apply Z.ones_spec_low. lia. Qed.

Lemma id_position id :
  id_ok id -> (Z.to_nat ((id - 1) / 64) < ID_WORDS)%nat /\ 0 <= (id - 1) mod 64 < 64 /\
  id = Z.of_nat (Z.to_nat ((id - 1) / 64)) * 64 + (id - 1) mod 64 + 1.
Proof.
  unfold id_ok, ID_WORDS. intros Hid. pose proof (Z.mod_pos_bound (id - 1) 64 ltac:(lia)).
  pose proof (Z.div_pos (id - 1) 64 ltac:(lia) ltac:(lia)).
  assert ((id - 1) / 64 < 1024) by (apply Z.div_lt_upper_bound; lia).
  pose proof (Z.div_mod (id - 1) 64 ltac:(lia)). lia.
Qed.

(** The id of bit [b] of word [i]. *)
Lemma id_of_bit (i : nat) b :
  0 <= b < 64 -> Z.to_nat ((Z.of_nat i * 64 + b + 1 - 1) / 64) = i /\ (Z.of_nat i * 64 + b + 1 - 1) mod 64 = b.
Proof.
  intros Hb. replace (Z.of_nat i * 64 + b + 1 - 1) with (b + Z.of_nat i * 64) by lia.
  rewrite Z.div_add, Z.mod_add, Z.div_small, Z.mod_small by lia. lia.
Qed.

(** Reading an id after the word of [id] changed at [id]'s bit alone. *)
Lemma id_bit_insert ws id id' w :
  length ws = ID_WORDS -> id_ok id -> id_ok id' ->
  let i := Z.to_nat ((id - 1) / 64) in
  (forall m, 0 <= m < 64 -> m <> (id - 1) mod 64 -> Z.testbit w m = Z.testbit (default 0 (ws !! i)) m) ->
  id_bit (<[i := w]> ws) id' = if bool_decide (id' = id) then Z.testbit w ((id - 1) mod 64) else id_bit ws id'.
Proof.
  intros Hl Hid Hid' i Hother. destruct (id_position id Hid) as (Hi & Hb & E).
  destruct (id_position id' Hid') as (_ & Hb' & E'). unfold id_bit. case_bool_decide as Heq.
  - subst id'. rewrite list_lookup_insert_eq by lia. done.
  - destruct (decide (Z.to_nat ((id' - 1) / 64) = i)) as [Ei|Ei].
    + rewrite Ei, list_lookup_insert_eq by lia. apply Hother; [lia|]. intros Em. apply Heq. lia.
    + by rewrite list_lookup_insert_ne by done.
Qed.

Lemma ids_rel_new : ids_rel PacketIds_new ∅.
Proof.
  unfold PacketIds_new. split; cbn [bits cursor]; [apply length_replicate| |unfold ID_WORDS; lia| |set_solver].
  - apply Forall_replicate. unfold u_range. lia.
  - intros k Hk. unfold id_bit. rewrite lookup_replicate_2 by apply (id_position k Hk). cbn [from_option id].
    rewrite Z.bits_0. symmetry. apply bool_decide_eq_false. set_solver.
Qed.

(** What a search from [offset] over [n] words promises. *)
Definition word_taken (s : gset Z) (i : nat) : Prop :=
  forall id, id_ok id -> Z.to_nat ((id - 1) / 64) = i -> id ∈ s.

Lemma word_at p s i : ids_rel p s -> u64 (default 0 (bits p !! i)).
Proof. intros []. by apply word_u64. Qed.

Lemma word_taken_intro p s i (low : Z) :
  ids_rel p s -> (forall j, 0 <= j < low -> Z.testbit (default 0 (bits p !! i)) j = true) ->
  (forall id, id_ok id -> Z.to_nat ((id - 1) / 64) = i -> (id - 1) mod 64 < low) -> word_taken s i.
Proof.
  intros R Hlow Hin id Hid Ei. destruct (id_position id Hid) as (_ & Hb & _).
  assert (E : id_bit (bits p) id = true) by (unfold id_bit; rewrite Ei; apply Hlow; specialize (Hin id Hid Ei); lia).
  rewrite (ir_bits _ _ R id Hid) in E. by apply bool_decide_eq_true in E.
Qed.

Lemma allocate_word p s (i : nat) :
  ids_rel p s -> (i < ID_WORDS)%nat ->
  let word := default 0 (bits p !! i) in
  let b := trailing_zeros (wrap64 (Z.lnot word)) in
  word <> U64_MAX -> Z.of_nat i * 64 + b <= 65534 ->
  let id := Z.of_nat i * 64 + b + 1 in
  id_ok id /\ (id ∉ s) /\
  ids_rel {| bits := <[i := Z.lor word (Z.shiftl 1 b)]> (bits p); cursor := (S i mod length (bits p))%nat |}
    ({[id]} ∪ s).
Proof.
  intros R Hi word b Hne Hle id. pose proof (word_at p s i R) as Hw.
  destruct (free_bit_spec word Hw Hne) as (Hb & Hfree & _). fold b in Hb, Hfree.
  destruct (id_of_bit i b Hb) as [E1 E2]. fold id in E1, E2. assert (Hid : id_ok id) by (unfold id_ok; lia).
  pose proof R as []. split; [done|]. split.
  - intros Hin. assert (X : id_bit (bits p) id = true) by (rewrite ir_bits0 by done; by apply bool_decide_eq_true).
    unfold id_bit in X. rewrite E1, E2 in X. fold word in X. congruence.
  - split; cbn [bits cursor]; [by rewrite length_insert| | | |].
    + apply Forall_insert; [done|]. by apply u64_set_bit.
    + rewrite ir_len0. apply Nat.mod_upper_bound. done.
    + intros id' Hid'. rewrite <- E1 at 1.
      rewrite (id_bit_insert _ id id') by
        (try done; intros m Hm Hmb; rewrite E1, bit_set_test by lia;
         rewrite (proj2 (Z.eqb_neq m b)) by lia; by rewrite orb_false_r).
      rewrite E2, bit_set_test, Z.eqb_refl, orb_true_r by lia. case_bool_decide as Heq.
      * symmetry. apply bool_decide_eq_true. set_solver.
      * rewrite ir_bits0 by done. apply bool_decide_ext. set_solver.
    + intros id' [->%elem_of_singleton|]%elem_of_union; auto.
Qed.

Lemma allocate_from_spec p s n : forall offset,
  ids_rel p s ->
  match allocate_from p offset n with
  | (Some id, p') => id_ok id /\ (id ∉ s) /\ ids_rel p' ({[id]} ∪ s)
  | (None, p') => p' = p /\ forall k, (offset <= k < offset + n)%nat -> word_taken s ((cursor p + k) mod ID_WORDS)
  end.
Proof.
  induction n as [|n IH]; intros offset R; cbn [allocate_from]; [by split; [|lia]|].
  rewrite (ir_len _ _ R). set (i := ((cursor p + offset) mod ID_WORDS)%nat).
  assert (Hi : (i < ID_WORDS)%nat) by (by apply Nat.mod_upper_bound).
  pose proof (word_at p s i R) as Hw. set (word := default 0 (bits p !! i)) in *.
  assert (Hskip : word_taken s i ->
    match allocate_from p (S offset) n with
    | (Some id, p') => id_ok id /\ (id ∉ s) /\ ids_rel p' ({[id]} ∪ s)
    | (None, p') => p' = p /\ forall k, (offset <= k < offset + S n)%nat -> word_taken s ((cursor p + k) mod ID_WORDS)
    end).
  { intros Ht. specialize (IH (S offset) R). destruct (allocate_from p (S offset) n) as [[id|] p']; [done|].
    destruct IH as [-> IH]. split; [done|]. intros k Hk.
    destruct (decide (k = offset)) as [->|]; [done|]. apply IH. lia. }
  destruct (Z.eqb_spec word U64_MAX) as [Ew|Ew].
  - apply Hskip, (word_taken_intro p s i 64 R).
    + intros j Hj. fold word. rewrite Ew. by apply full_word.
    + intros id Hid _. pose proof (Z.mod_pos_bound (id - 1) 64). lia.
  - destruct (free_bit_spec word Hw Ew) as (Hb & _ & Hlow).
    destruct (Z.ltb_spec 65534 (Z.of_nat i * 64 + trailing_zeros (wrap64 (Z.lnot word)))) as [Hgt|Hle].
    + apply Hskip, (word_taken_intro p s i _ R Hlow). intros id Hid Ei.
      destruct (id_position id Hid) as (_ & _ & E). unfold id_ok, ID_WORDS in *. lia.
    + rewrite <- (ir_len _ _ R). by apply (allocate_word p s i R Hi).
Qed.

Lemma allocate_spec p s :
  ids_rel p s ->
  match PacketIds_allocate p with
  | (Some id, p') => id_ok id /\ (id ∉ s) /\ ids_rel p' ({[id]} ∪ s)
  | (None, p') => p' = p /\ forall id, id_ok id -> id ∈ s
  end.
Proof.
  intros R. unfold PacketIds_allocate. rewrite (ir_len _ _ R). pose proof (allocate_from_spec p s ID_WORDS 0 R) as A.
  destruct (allocate_from p 0 ID_WORDS) as [[id|] p']; [done|]. destruct A as [-> A]. split; [done|].
  intros id Hid. destruct (id_position id Hid) as (Hi & _ & _). set (i := Z.to_nat ((id - 1) / 64)) in *.
  pose proof (ir_cursor _ _ R) as Hc. apply (A ((i + (ID_WORDS - cursor p)) mod ID_WORDS)%nat); [|done|].
  - pose proof (Nat.mod_upper_bound (i + (ID_WORDS - cursor p)) ID_WORDS). unfold ID_WORDS in *. lia.
  - fold i. rewrite Nat.Div0.add_mod_idemp_r.
    replace (cursor p + (i + (ID_WORDS - cursor p)))%nat with (i + 1 * ID_WORDS)%nat by lia.
    rewrite Nat.Div0.mod_add. symmetry. by apply Nat.mod_small.
Qed.

Lemma release_spec p s id :
  ids_rel p s -> u16 id ->
  (PacketIds_release p id).1 = bool_decide (id ∈ s) /\ ids_rel (PacketIds_release p id).2 (s ∖ {[id]}).
Proof.
  intros R Hid16. unfold PacketIds_release. destruct (Z.eqb_spec id 0) as [->|Hnz]; cbn [fst snd].
  { assert (0 ∉ s) by (intros Hin; apply (ir_set _ _ R) in Hin; unfold id_ok in Hin; lia).
    split; [symmetry; by apply bool_decide_eq_false|]. by rewrite difference_disjoint_L by set_solver. }
  assert (Hid : id_ok id) by (unfold id_ok, u_range in *; lia).
  destruct (id_position id Hid) as (Hi & Hb & _). set (i := Z.to_nat ((id - 1) / 64)) in *.
  set (b := (id - 1) mod 64) in *. set (word := default 0 (bits p !! i)). pose proof (word_at p s i R) as Hw.
  pose proof R as []. split.
  - rewrite bit_clear_test, negb_involutive by lia. rewrite <- ir_bits0 by done. done.
  - split; cbn [bits cursor]; [by rewrite length_insert|apply Forall_insert; [done|by apply u64_land]|done| |set_solver].
    intros id' Hid'. subst i. rewrite (id_bit_insert _ id id'); try done.
    + rewrite Z.land_spec, lnot_bit_test, Z.eqb_refl, andb_false_r by (fold b; lia). case_bool_decide as Heq.
      * symmetry. apply bool_decide_eq_false. set_solver.
      * rewrite ir_bits0 by done. apply bool_decide_ext. set_solver.
    + intros m Hm Hmb. rewrite Z.land_spec, lnot_bit_test by lia. rewrite (proj2 (Z.eqb_neq m b)) by done.
      by rewrite andb_true_r.
Qed.

(** ** What the allocator promises *)

Inductive IdOp := OpAllocate | OpRelease (id : Z).
Inductive IdAnswer := Allocated (id : option Z) | WasInFlight (b : bool).

Definition id_step (p : PacketIds) (op : IdOp) : IdAnswer * PacketIds :=
  match op with
  | OpAllocate => let '(id, p) := PacketIds_allocate p in (Allocated id, p)
  | OpRelease id => let '(b, p) := PacketIds_release p id in (WasInFlight b, p)
  end.

Fixpoint id_run (p : PacketIds) (ops : list IdOp) : list IdAnswer * PacketIds :=
  match ops with
  | [] => ([], p)
  | op :: ops => let '(a, p) := id_step p op in let '(l, p) := id_run p ops in (a :: l, p)
  end.

(** The contract, on the set of ids in flight: an allocation hands out an id
    that is not in flight and fails only when every id is, and a release says
    whether the id was. *)
Inductive ids_contract : gset Z -> list IdOp -> list IdAnswer -> gset Z -> Prop :=
| ic_done s : ids_contract s [] [] s
| ic_allocate s id ops l s' :
    id_ok id -> id ∉ s -> ids_contract ({[id]} ∪ s) ops l s' ->
    ids_contract s (OpAllocate :: ops) (Allocated (Some id) :: l) s'
| ic_exhausted s ops l s' :
    (forall id, id_ok id -> id ∈ s) -> ids_contract s ops l s' ->
    ids_contract s (OpAllocate :: ops) (Allocated None :: l) s'
| ic_release s id ops l s' :
    ids_contract (s ∖ {[id]}) ops l s' ->
    ids_contract s (OpRelease id :: ops) (WasInFlight (bool_decide (id ∈ s)) :: l) s'.

Definition id_op_ok (op : IdOp) : Prop := match op with OpAllocate => True | OpRelease id => u16 id end.

Lemma id_run_contract ops : forall p s,
  ids_rel p s -> Forall id_op_ok ops ->
  exists s', ids_contract s ops (id_run p ops).1 s' /\ ids_rel (id_run p ops).2 s'.
Proof.
  induction ops as [|op ops IH]; intros p s R Hops; [exists s; by split; [constructor|]|].
  apply Forall_cons in Hops as [Hop Hops]. cbn [id_run]. destruct op as [|id]; cbn [id_step].
  - pose proof (allocate_spec p s R) as A. destruct (PacketIds_allocate p) as [[id|] p'].
    + destruct A as (Hid & Hnew & R'). destruct (IH _ _ R' Hops) as (s' & Hc & Hr).
      destruct (id_run p' ops). exists s'. split; [by constructor|done].
    + destruct A as [-> Hall]. destruct (IH _ _ R Hops) as (s' & Hc & Hr).
      destruct (id_run p ops). exists s'. split; [by constructor|done].
  - destruct (release_spec p s id R Hop) as [Hb R']. destruct (PacketIds_release p id) as [b p']. cbn [fst snd] in *.
    subst b. destruct (IH _ _ R' Hops) as (s' & Hc & Hr). destruct (id_run p' ops). exists s'.
    split; [by constructor|done].
Qed.

(** The allocator of a QoS 1 connection keeps its contract over every
    sequence of allocations and PUBACK releases, whatever ids the peer
    acknowledges: an id handed out is between 1 and 65535 and not in flight,
    an allocation fails only when all 65535 ids are in flight, and a release
    tells an id in flight from one that is not. *)
Theorem packet_ids_contract (ops : list IdOp) :
  Forall id_op_ok ops -> exists s, ids_contract ∅ ops (id_run PacketIds_new ops).1 s.
Proof. intros Hops. destruct (id_run_contract ops _ _ ids_rel_new Hops) as (s & Hc & _). by exists s. Qed.

(** Two allocations, a release of the first and of an id never handed out,
    and an allocation that reuses the released id. *)
Lemma packet_ids_contract_witness :
  let ops := [OpAllocate; OpAllocate; OpRelease 1; OpRelease 7; OpAllocate] in
  (id_run PacketIds_new ops).1 =
    [Allocated (Some 1); Allocated (Some 65); WasInFlight true; WasInFlight false; Allocated (Some 1)] /\
  exists s, ids_contract ∅ ops (id_run PacketIds_new ops).1 s.
Proof.
  split; [by vm_compute|]. apply packet_ids_contract. repeat constructor; by vm_compute.
Defined.
