(* ===== verification/Pacer.v ===== *)
(** * The open-loop schedule and the latency pacer

    bench/src/gen.rs: the slots of a latency run and the pacer of one
    connection.  A run at [rate] slots per second owns the global slots [j],
    due at [origin + j * 1e9 / rate]; connection [c] of [n] owns the slots
    [c + k * n].  A value that does not fit its [expect] is [None]. *)

From S2P Require Import Prelude Wire Recorder Generator.

Definition BATCH : nat := 64.
Definition SLOT_GRID_END_LEAD_NS : Z := 10000000.

Definition sat_mul (w x y : Z) : Z := Z.min (2 ^ w - 1) (x * y).

(** ** The schedule *)

Inductive Mode := Throughput | Latency (rate : Z) | Connections.

Record GenConfig := {
  mode : Mode;
  gen_qos : Z;
  gen_connections : Z;
  qos1_window : Z;
  origin_ns : Z;
  window : Window;
  drain_grace_ns : Z
}.

Definition slot_grid_end_ns (w : Window) : Z := Z.max (sat_sub (end_ns w) SLOT_GRID_END_LEAD_NS) (start_ns w).

Definition scheduled_slots (rate origin_ns : Z) (w : Window) : Z :=
  div_ceil (sat_mul 128 (sat_sub (slot_grid_end_ns w) origin_ns) rate) NS.

Definition slot_counts (rate origin_ns : Z) (w : Window) : option (Z * Z) :=
  let scheduled := div_ceil (sat_mul 128 (sat_sub (slot_grid_end_ns w) origin_ns) rate) NS in
  let start_scheduled := div_ceil (sat_mul 128 (sat_sub (start_ns w) origin_ns) rate) NS in
  if (2 ^ 64 <=? scheduled) || (2 ^ 64 <=? start_scheduled) || (scheduled <? start_scheduled) then None
  else Some (scheduled, scheduled - start_scheduled).

Definition slot_due_ns (conn_id slot_k connections rate origin_ns : Z) : option Z :=
  let j := conn_id + slot_k * connections in
  let offset_ns := sat_mul 128 j NS / rate in
  if (rate =? 0) || (2 ^ 64 <=? offset_ns) then None else Some (sat_add 64 origin_ns offset_ns).

Definition window_due_j_count (config : GenConfig) (rate : Z) : Z :=
  scheduled_slots rate (origin_ns config) (window config).

Definition own_slot_count (conn_id connections j_bound : Z) : Z := div_ceil (sat_sub j_bound conn_id) connections.

(** [past_due_j_count] of [skip_past_due_missed] at clock reading [now]. *)
Definition past_due_j_count (rate origin_ns now : Z) : Z :=
  div_ceil (sat_mul 128 (sat_add 128 (sat_sub now origin_ns) 1) rate) NS.

(** The messages of [validate], with the values formatted into them. *)
Inductive ConfigError :=
| QosRange (qos : Z)
| ConnectionsRange (connections : Z)
| Qos1WindowRange (qos1_window : Z)
| RateZero
| TooManySlots (rate scheduled : Z)
| EmptyGenWindow
| WindowBeforeOrigin (start_ns origin_ns : Z)
| DrainGraceTooLong.

Definition validate (config : GenConfig) : result unit ConfigError :=
  if 1 <? gen_qos config then Err (QosRange (gen_qos config))
  else if (gen_connections config =? 0) || (CONNECTIONS_MAX <? gen_connections config)
  then Err (ConnectionsRange (gen_connections config))
  else if (gen_qos config =? 1) && negb ((1 <=? qos1_window config) && (qos1_window config <=? 65535))
  then Err (Qos1WindowRange (qos1_window config))
  else
    let rest :=
      if end_ns (window config) <=? start_ns (window config) then Err EmptyGenWindow
      else if start_ns (window config) <? origin_ns config
      then Err (WindowBeforeOrigin (start_ns (window config)) (origin_ns config))
      else if 2 ^ 64 <=? drain_grace_ns config then Err DrainGraceTooLong
      else Ok tt in
    match mode config with
    | Latency rate =>
        if rate =? 0 then Err RateZero
        else
          let scheduled := scheduled_slots rate (origin_ns config) (window config) in
          if 2 ^ 64 - 1 <? scheduled then Err (TooManySlots rate scheduled) else rest
    | _ => rest
    end.

(** ** Slot arithmetic *)

Lemma div_lt_iff a b c : 0 < b -> a / b < c <-> a < c * b.
Proof.
  intros Hb. split; intros H.
  - pose proof (Z.mul_succ_div_gt a b Hb). nia.
  - apply Z.div_lt_upper_bound; lia.
Qed.

(** [floor (j * 1e9 / rate) < t] exactly while [j < ceil (t * rate / 1e9)]. *)
Lemma slot_before j rate t : 0 < rate -> j * NS / rate < t <-> j < div_ceil (t * rate) NS.
Proof. intros Hr. rewrite div_lt_iff, div_ceil_lt by (unfold NS; lia). done. Qed.

(** A connection's own slots below a global bound. *)
Lemma own_slot_before conn n j_bound k :
  0 <= conn -> 0 < n -> 0 <= k -> k < own_slot_count conn n j_bound <-> conn + k * n < j_bound.
Proof.
  intros Hc Hn Hk. unfold own_slot_count. rewrite div_ceil_lt by done. unfold sat_sub. nia.
Qed.

Lemma own_slot_closed conn n j :
  0 <= conn < n -> 0 <= j -> own_slot_count conn n j = j / n + (if conn <? j mod n then 1 else 0).
Proof.
  intros Hc Hj. unfold own_slot_count, div_ceil, sat_sub.
  pose proof (Z.div_mod j n ltac:(lia)) as E. pose proof (Z.mod_pos_bound j n ltac:(lia)) as Hr.
  pose proof (Z.div_pos j n Hj ltac:(lia)) as Hq. set (q := j / n) in *. set (r := j mod n) in *.
  assert (0 <= n * q) by nia. symmetry. destruct (Z.ltb_spec conn r).
  - apply (Z.div_unique _ n _ (r - conn - 1)); lia.
  - destruct (Z.le_gt_cases 0 (j - conn)).
    + apply (Z.div_unique _ n _ (n - 1 - (conn - r))); lia.
    + assert (q = 0) as -> by nia. apply (Z.div_unique _ n _ (n - 1)); lia.
Qed.

Lemma span_const c a b : a <= b -> span_sum (fun _ => c) a b = c * (b - a).
Proof.
  intros Hab. unfold span_sum. replace (b - a) with (Z.of_nat (Z.to_nat (b - a))) by lia.
  generalize (Z.to_nat (b - a)) as m. clear. intros m. revert a. induction m as [|m IH]; intros a; [by rewrite seqZ_nil; cbn; lia|].
  rewrite seqZ_cons by lia. cbn [fmap list_fmap]. rewrite sumZ_cons.
  replace (Z.pred (Z.of_nat (S m))) with (Z.of_nat m) by lia. rewrite IH. lia.
Qed.

(** The connections' shares add up to all slots. *)
Lemma own_slots_partition n j :
  0 < n -> 0 <= j -> span_sum (fun conn => own_slot_count conn n j) 0 n = j.
Proof.
  intros Hn Hj. pose proof (Z.mod_pos_bound j n Hn) as Hr.
  transitivity (span_sum (fun conn => j / n + (if conn <? j mod n then 1 else 0)) 0 n).
  { unfold span_sum. f_equal. apply list_fmap_ext. intros i c Hi. apply lookup_seqZ in Hi. apply own_slot_closed; lia. }
  rewrite (span_add (fun _ => j / n) (fun conn => if conn <? j mod n then 1 else 0)), span_const by lia.
  rewrite (span_split _ 0 (j mod n) n), (span_zero _ (j mod n) n) by
    (try lia; intros t Ht; by rewrite (proj2 (Z.ltb_ge _ _)) by lia).
  assert (span_sum (fun conn => if conn <? j mod n then 1 else 0) 0 (j mod n) = j mod n) as ->.
  { transitivity (span_sum (fun _ => 1) 0 (j mod n)); [|rewrite span_const; lia].
    unfold span_sum. f_equal. apply list_fmap_ext. intros i c Hi. apply lookup_seqZ in Hi.
    by rewrite (proj2 (Z.ltb_lt _ _)) by lia. }
  pose proof (Z.div_mod j n ltac:(lia)). lia.
Qed.

(** ** The latency run of a valid configuration *)

(** The fields at their widths. *)
Record config_ok (config : GenConfig) (rate : Z) : Prop := {
  co_mode : mode config = Latency rate;
  co_valid : validate config = Ok tt;
  co_rate : u64 rate;
  co_connections : u32 (gen_connections config);
  co_origin : u64 (origin_ns config);
  co_start : u64 (start_ns (window config));
  co_end : u64 (end_ns (window config))
}.

(** What [validate] establishes. *)
Lemma config_bounds config rate :
  config_ok config rate ->
  0 < rate /\ 0 < gen_connections config <= CONNECTIONS_MAX /\ origin_ns config <= start_ns (window config) /\
  start_ns (window config) < end_ns (window config) /\ 0 <= window_due_j_count config rate < 2 ^ 64 /\
  origin_ns config <= slot_grid_end_ns (window config) < 2 ^ 64.
Proof.
  intros []. unfold validate in co_valid0. rewrite co_mode0 in co_valid0. cbv zeta in co_valid0.
  repeat (match type of co_valid0 with context [if ?b then _ else _] => destruct b eqn:?; [done|] end). zbool.
  assert (0 <= window_due_j_count config rate).
  { unfold window_due_j_count, scheduled_slots, div_ceil, sat_mul, u_range in *. apply Z.div_pos; [|done].
    pose proof (sat_sub_nonneg (slot_grid_end_ns (window config)) (origin_ns config)).
    unfold NS. nia. }
  unfold slot_grid_end_ns, sat_sub, SLOT_GRID_END_LEAD_NS, window_due_j_count, u_range in *. lia.
Qed.

(** The slot grid and its inverse, without saturation. *)
Lemma scheduled_exact config rate :
  config_ok config rate ->
  window_due_j_count config rate = div_ceil ((slot_grid_end_ns (window config) - origin_ns config) * rate) NS.
Proof.
  intros C. destruct (config_bounds _ _ C) as (Hr & _ & _ & _ & _ & Hg). destruct C.
  unfold window_due_j_count, scheduled_slots, sat_mul, sat_sub, u_range in *.
  rewrite Z.max_r, Z.min_r by nia. done.
Qed.

Lemma past_due_exact config rate now :
  config_ok config rate -> origin_ns config <= now < 2 ^ 64 ->
  past_due_j_count rate (origin_ns config) now = div_ceil ((now - origin_ns config + 1) * rate) NS.
Proof.
  intros [] Hn. unfold past_due_j_count, sat_mul, sat_add, sat_sub, u_range in *.
  rewrite Z.max_r by lia. rewrite (Z.min_r _ (now - origin_ns config + 1)) by lia. rewrite Z.min_r by nia. done.
Qed.

Lemma slot_due_exact config rate conn k due :
  config_ok config rate -> u32 conn -> u64 k ->
  slot_due_ns conn k (gen_connections config) rate (origin_ns config) = Some due ->
  due = Z.min (2 ^ 64 - 1) (origin_ns config + (conn + k * gen_connections config) * NS / rate).
Proof.
  intros [] Hc Hk. unfold slot_due_ns, sat_mul, sat_add. destruct (_ || _); [done|]. intros [= <-].
  unfold u_range, NS in *. by rewrite (Z.min_r (2 ^ 128 - 1)) by nia.
Qed.

(** The two bounds the pacer computes are exact for its own slots. *)
Lemma slot_in_grid config rate conn k due :
  config_ok config rate -> 0 <= conn < gen_connections config -> u64 k ->
  slot_due_ns conn k (gen_connections config) rate (origin_ns config) = Some due ->
  due < slot_grid_end_ns (window config) <->
  k < own_slot_count conn (gen_connections config) (window_due_j_count config rate).
Proof.
  intros C Hc Hk Hdue. destruct (config_bounds _ _ C) as (Hr & Hn & _ & _ & _ & Hg).
  apply (slot_due_exact _ _ _ _ _ C) in Hdue as ->; [|destruct C; unfold u_range in *; lia|done].
  rewrite own_slot_before, (scheduled_exact _ _ C), <- slot_before by (unfold u_range in *; lia). lia.
Qed.

Lemma slot_past_due config rate conn k due now :
  config_ok config rate -> 0 <= conn < gen_connections config -> u64 k ->
  slot_due_ns conn k (gen_connections config) rate (origin_ns config) = Some due ->
  origin_ns config <= now < 2 ^ 64 - 1 ->
  due <= now <-> k < own_slot_count conn (gen_connections config) (past_due_j_count rate (origin_ns config) now).
Proof.
  intros C Hc Hk Hdue Hnow. destruct (config_bounds _ _ C) as (Hr & Hn & _ & _ & _ & Hg).
  apply (slot_due_exact _ _ _ _ _ C) in Hdue as ->; [|destruct C; unfold u_range in *; lia|done].
  rewrite own_slot_before, (past_due_exact _ _ _ C), <- slot_before by (unfold u_range in *; lia). lia.
Qed.

Lemma slot_counts_exact config rate :
  config_ok config rate ->
  exists start_scheduled, 0 <= start_scheduled <= window_due_j_count config rate /\
    slot_counts rate (origin_ns config) (window config) =
      Some (window_due_j_count config rate, window_due_j_count config rate - start_scheduled).
Proof.
  intros C. destruct (config_bounds _ _ C) as (Hr & _ & Ho & _ & HJ & Hg). pose proof C as [].
  unfold slot_counts. change (div_ceil (sat_mul 128 (sat_sub (slot_grid_end_ns (window config)) (origin_ns config)) rate) NS)
    with (window_due_j_count config rate). set (st := div_ceil (sat_mul 128 (sat_sub (start_ns _) _) _) _).
  assert (0 <= st <= window_due_j_count config rate).
  { rewrite (scheduled_exact _ _ C). subst st. unfold sat_mul, sat_sub, div_ceil, u_range in *.
    rewrite Z.max_r, Z.min_r by nia. split; [apply Z.div_pos; [unfold NS; nia|done]|]. apply Z.div_le_mono; [done|].
    assert (start_ns (window config) <= slot_grid_end_ns (window config)) by (unfold slot_grid_end_ns; lia). nia. }
  exists st. split; [done|]. rewrite !(proj2 (Z.leb_gt _ _)), (proj2 (Z.ltb_ge _ _)) by lia. done.
Qed.

(** The slot grid of a valid latency run is exact.  Its slot counts do
    not overflow and the window's are a part of them; the shares the
    connections compute for themselves add up to the whole schedule, so every
    slot has exactly one owner; and for each of its slots the two bounds a
    connection computes arithmetically agree with the slot's due time: it is
    below the share exactly when it is due before the grid ends, and below the
    past-due bound exactly when it is already due. *)
Theorem slot_grid_exact config rate :
  config_ok config rate ->
  let n := gen_connections config in
  let scheduled := window_due_j_count config rate in
  (exists w, 0 <= w <= scheduled /\ scheduled < 2 ^ 64 /\
    slot_counts rate (origin_ns config) (window config) = Some (scheduled, w)) /\
  span_sum (fun conn => own_slot_count conn n scheduled) 0 n = scheduled /\
  forall conn k due now,
    0 <= conn < n -> u64 k -> origin_ns config <= now < 2 ^ 64 - 1 ->
    slot_due_ns conn k n rate (origin_ns config) = Some due ->
    (due < slot_grid_end_ns (window config) <-> k < own_slot_count conn n scheduled) /\
    (due <= now <-> k < own_slot_count conn n (past_due_j_count rate (origin_ns config) now)).
Proof.
  intros C n scheduled. destruct (config_bounds _ _ C) as (_ & Hn & _ & _ & HJ & _). split_and!.
  - destruct (slot_counts_exact _ _ C) as (st & Hst & E). exists (scheduled - st). subst scheduled. split_and!; [lia|lia|lia|done].
  - apply own_slots_partition; [lia|]. subst scheduled. lia.
  - intros conn k due now Hc Hk Hnow Hdue.
    split; [by apply slot_in_grid|by apply slot_past_due].
Qed.

(** One second at 1500 slots per second over two connections. *)
Definition sample_gen : GenConfig :=
  {| mode := Latency 1500; gen_qos := 1; gen_connections := 2; qos1_window := 100; origin_ns := 1000;
     window := {| start_ns := 1000; end_ns := 1010001000 |}; drain_grace_ns := 0 |}.

Lemma sample_gen_ok : config_ok sample_gen 1500.
Proof. split; try done; vm_compute; split; congruence. Qed.

(** 1500 slots, 750 of them this connection's, and slot 749 is due last. *)
Lemma slot_grid_exact_witness :
  window_due_j_count sample_gen 1500 = 1500 /\ own_slot_count 1 2 1500 = 750 /\
  span_sum (fun conn => own_slot_count conn 2 (window_due_j_count sample_gen 1500)) 0 2 = 1500.
Proof.
  split_and!; [by vm_compute..|]. destruct (slot_grid_exact sample_gen 1500 sample_gen_ok) as (_ & H & _). exact H.
Defined.

(** ** The pacer

    The clock, the connection's packet ids (shared with its reader task) and
    the socket are a world.  Every operation may let other tasks run. *)

Definition SPIN_THRESHOLD_NS : Z := 2000000.

Class PacerWorld := {
  PWorld : Type;
  clock : PWorld -> Z;
  monotonic_now_ns : PWorld -> Z * PWorld;
  packet_ids : PWorld -> PacketIds;
  set_packet_ids : PacketIds -> PWorld -> PWorld;
  sleep : Z -> PWorld -> PWorld;
  yield_now : PWorld -> PWorld;
  (** [write_all] under the hard deadline; [None] when the deadline passed. *)
  write_all : list Z -> PWorld -> option (result unit string) * PWorld
}.

(** Half a thousand years after boot, when a [u64] of nanoseconds ends. *)
Definition CLOCK_HORIZON : Z := 2 ^ 64 - 2.

(** What the pacer relies on: the clock is monotonic, fits a [u64], and moves
    on while a task sleeps or yields, up to the horizon. *)
Class PacerLaws `{PacerWorld} := {
  clock_u64 w : 0 <= clock w <= CLOCK_HORIZON;
  now_law w t w' : monotonic_now_ns w = (t, w') -> clock w <= t <= clock w';
  ids_law p w : clock (set_packet_ids p w) = clock w;
  sleep_law d w : Z.min CLOCK_HORIZON (clock w + d) <= clock (sleep d w);
  yield_law w : Z.min CLOCK_HORIZON (clock w + 1) <= clock (yield_now w);
  write_law b w r w' : write_all b w = (r, w') -> clock w <= clock w'
}.

(** This connection's contribution to the shared [Counters]. *)
Record GenCounters := {
  offered : Z;
  stalled : Z;
  missed_slots : Z;
  lateness_over_range : Z;
  last_write_start_ns : Z;
  lateness : list Z;
  in_flight : Z
}.

Definition GenCounters_new : GenCounters :=
  {| offered := 0; stalled := 0; missed_slots := 0; lateness_over_range := 0; last_write_start_ns := 0;
     lateness := []; in_flight := 0 |}.

Definition add_missed_slots (c : GenCounters) (n : Z) : GenCounters :=
  {| offered := offered c; stalled := stalled c; missed_slots := wrap64 (missed_slots c + n);
     lateness_over_range := lateness_over_range c; last_write_start_ns := last_write_start_ns c;
     lateness := lateness c; in_flight := in_flight c |}.

Definition add_stalled (c : GenCounters) (n : Z) : GenCounters :=
  {| offered := offered c; stalled := wrap64 (stalled c + n); missed_slots := missed_slots c;
     lateness_over_range := lateness_over_range c; last_write_start_ns := last_write_start_ns c;
     lateness := lateness c; in_flight := in_flight c |}.

(** The compare-and-exchange loop keeps the greatest start. *)
Definition update_last_write_start (current start_ns : Z) : Z := if current <? start_ns then start_ns else current.

(** The write gate passed at [start]: the start is noted, then the batch is
    offered and, at QoS 1, in flight. *)
Definition gate_passed (c : GenCounters) (qos start sent : Z) : GenCounters :=
  {| offered := wrap64 (offered c + sent); stalled := stalled c; missed_slots := missed_slots c;
     lateness_over_range := lateness_over_range c;
     last_write_start_ns := update_last_write_start (last_write_start_ns c) start; lateness := lateness c;
     in_flight := if qos =? 1 then wrap64 (in_flight c + sent) else in_flight c |}.

(** The lateness of one sent slot. *)
Definition note_lateness (w : Window) (send_ns : Z) (c : GenCounters) (due : Z) : GenCounters :=
  if (start_ns w <=? due) && (due <? end_ns w) then
    let value := sat_sub send_ns due in
    if LATENCY_MAX_NS <? value then
      {| offered := offered c; stalled := stalled c; missed_slots := missed_slots c;
         lateness_over_range := wrap64 (lateness_over_range c + 1); last_write_start_ns := last_write_start_ns c;
         lateness := lateness c; in_flight := in_flight c |}
    else
      {| offered := offered c; stalled := stalled c; missed_slots := missed_slots c;
         lateness_over_range := lateness_over_range c; last_write_start_ns := last_write_start_ns c;
         lateness := lateness c ++ [Z.max value 1]; in_flight := in_flight c |}
  else c.

Inductive SendOutcome := Sent | WindowEnded | Failed (cause : string).

(** [u64::try_from(n).unwrap_or(u64::MAX)]. *)
Definition to_u64_or_max (n : Z) : Z := if n <? 2 ^ 64 then n else U64_MAX.

(** Packet id and due time of each slot. *)
Abbreviation Batch := (list (option Z * Z)).

Section Pacer.
Context `{PacerWorld}.
Context (conn_id : Z) (config : GenConfig) (rate : Z).

Definition pacer_wait (fuel : nat) (due_ns : Z) (w : PWorld) : option PWorld :=
  loop (fun w =>
    let '(now, w) := monotonic_now_ns w in
    if due_ns <=? now then inr w
    else
      let remaining := due_ns - now in
      if SPIN_THRESHOLD_NS <? remaining then inl (sleep (remaining - SPIN_THRESHOLD_NS) w)
      else inl (yield_now w)) fuel w.

Definition count_remaining_missed (c : GenCounters) (start_k : Z) : GenCounters :=
  let own_count := own_slot_count conn_id (gen_connections config) (window_due_j_count config rate) in
  add_missed_slots c (to_u64_or_max (sat_sub own_count start_k)).

(** [skip_past_due_missed] at clock reading [now]. *)
Definition skip_missed (c : GenCounters) (next_slot_k now : Z) : Z * GenCounters :=
  let n := gen_connections config in
  let bound_k := Z.min (own_slot_count conn_id n (past_due_j_count rate (origin_ns config) now))
                       (own_slot_count conn_id n (window_due_j_count config rate)) in
  let skipped := sat_sub bound_k next_slot_k in
  if skipped =? 0 then (next_slot_k, c)
  else (to_u64_or_max bound_k, add_missed_slots c (to_u64_or_max skipped)).

Definition skip_past_due_missed (c : GenCounters) (next_slot_k : Z) (w : PWorld) : Z * GenCounters * PWorld :=
  let '(now, w) := monotonic_now_ns w in (skip_missed c next_slot_k now, w).

(** [latency_collect_batch]: [room] is what is left of [BATCH]. *)
Fixpoint latency_collect_batch (room : nat) (c : GenCounters) (next_slot_k : Z) (batch : Batch) (w : PWorld) :
    option (Z * Batch * GenCounters * PWorld) :=
  match room with
  | O => Some (next_slot_k, batch, c, w)
  | S room =>
      match slot_due_ns conn_id next_slot_k (gen_connections config) rate (origin_ns config) with
      | None => None
      | Some due =>
          if slot_grid_end_ns (window config) <=? due then Some (next_slot_k, batch, c, w)
          else
            let '(now, w) := monotonic_now_ns w in
            if now <? due then Some (next_slot_k, batch, c, w)
            else if gen_qos config =? 1 then
              match PacketIds_allocate (packet_ids w) with
              | (None, p) =>
                  let '(k, c, w) := skip_past_due_missed c next_slot_k (set_packet_ids p w) in
                  Some (k, batch, c, w)
              | (Some id, p) =>
                  latency_collect_batch room c (sat_add 64 next_slot_k 1) (batch ++ [(Some id, due)]) (set_packet_ids p w)
              end
            else latency_collect_batch room c (sat_add 64 next_slot_k 1) (batch ++ [(None, due)]) w
      end
  end.

(** The ids of a batch, released under one lock. *)
Definition release_ids (batch : Batch) (p : PacketIds) : PacketIds :=
  foldl (fun p x => match x.1 with Some id => (PacketIds_release p id).2 | None => p end) p batch.

Definition latency_release_batch_ids (batch : Batch) (w : PWorld) : PWorld :=
  if negb (gen_qos config =? 1) then w else set_packet_ids (release_ids batch (packet_ids w)) w.

Definition latency_drop_batch (c : GenCounters) (batch : Batch) (next_slot_k : Z) (w : PWorld) :
    GenCounters * PWorld :=
  let w := latency_release_batch_ids batch w in
  (count_remaining_missed (add_missed_slots c (Z.of_nat (length batch))) next_slot_k, w).

(** [latency_encode_batch]; a QoS 1 slot without an id is a panic. *)
Fixpoint latency_encode_batch (batch : Batch) (next_seq : Z) (write_buf : list Z) : option (Z * list Z) :=
  match batch with
  | [] => Some (next_seq, write_buf)
  | (id, due) :: batch =>
      let payload := Stamp_encode {| Wire.conn_id := conn_id; seq_no := next_seq; scheduled_ns := due |} in
      if (gen_qos config =? 1) && bool_decide (id = None) then None
      else match encode_publish write_buf (gen_qos config) (if gen_qos config =? 1 then id else None) payload with
           | None => None
           | Some write_buf => latency_encode_batch batch (sat_add 64 next_seq 1) write_buf
           end
  end.

Definition latency_send_batch (c : GenCounters) (batch : Batch) (write_buf : list Z) (w : PWorld) :
    SendOutcome * GenCounters * PWorld :=
  let sent := Z.of_nat (length batch) in
  let '(start, w) := monotonic_now_ns w in
  if end_ns (window config) <=? start then (WindowEnded, c, w)
  else
    let c := gate_passed c (gen_qos config) start sent in
    let failed cause w := (Failed cause, if negb (gen_qos config =? 1) then add_stalled c sent else c, w) in
    match write_all write_buf w with
    | (Some (Ok _), w) =>
        let '(send_ns, w) := monotonic_now_ns w in
        (Sent, foldl (fun c x => note_lateness (window config) send_ns c x.2) c batch, w)
    | (Some (Err e), w) => failed ("publish write failed: " +:+ e) w
    | (None, w) => failed "publish write did not finish by the hard deadline"%string w
    end.

Record PacerState := { next_slot_k : Z; next_seq : Z; counters : GenCounters; pworld : PWorld }.

(** One round of ['pacer: loop]; [None] is a panic, or a wait out of fuel. *)
Definition pacer_round (wait_fuel : nat) (st : PacerState) :
    option (PacerState + result unit string * GenCounters * PWorld) :=
  let k := next_slot_k st in
  let c := counters st in
  match slot_due_ns conn_id k (gen_connections config) rate (origin_ns config) with
  | None => None
  | Some due_ns =>
      if slot_grid_end_ns (window config) <=? due_ns then Some (inr (Ok tt, c, pworld st))
      else match pacer_wait wait_fuel due_ns (pworld st) with
      | None => None
      | Some w =>
          let '(now, w) := monotonic_now_ns w in
          if end_ns (window config) <=? now then Some (inr (Ok tt, count_remaining_missed c k, w))
          else match latency_collect_batch BATCH c k [] w with
          | None => None
          | Some (k, [], c, w) =>
              Some (inl {| next_slot_k := k; next_seq := next_seq st; counters := c; pworld := w |})
          | Some (k, batch, c, w) =>
              match latency_encode_batch batch (next_seq st) [] with
              | None => None
              | Some (seq, write_buf) =>
                  match latency_send_batch c batch write_buf w with
                  | (Sent, c, w) => Some (inl {| next_slot_k := k; next_seq := seq; counters := c; pworld := w |})
                  | (WindowEnded, c, w) =>
                      let '(c, w) := latency_drop_batch c batch k w in Some (inr (Ok tt, c, w))
                  | (Failed cause, c, w) => Some (inr (Err cause, count_remaining_missed c k, w))
                  end
              end
          end
      end
  end.

Definition latency_pacer (fuel wait_fuel : nat) (w : PWorld) : option (result unit string * GenCounters * PWorld) :=
  match loop (fun st => match pacer_round wait_fuel st with
                        | Some (inl st) => inl st
                        | Some (inr r) => inr (Some r)
                        | None => inr None
                        end) fuel
          {| next_slot_k := 0; next_seq := 0; counters := GenCounters_new; pworld := w |} with
  | Some r => r
  | None => None
  end.
End Pacer.

(** ** Accounting *)

Section Accounting.
Context `{PacerLaws} (conn : Z) (config : GenConfig) (rate : Z).
Hypothesis C : config_ok config rate.
Hypothesis Hconn : 0 <= conn < gen_connections config.
Hypothesis Hqos : 0 <= gen_qos config.
(** Slots just past the grid still have a due time. *)
Hypothesis Hfit : slot_grid_end_ns (window config) + CONNECTIONS_MAX * NS < 2 ^ 64.

Let n := gen_connections config.
Let own := own_slot_count conn n (window_due_j_count config rate).

Lemma own_bounds : 0 <= own < 2 ^ 64.
Proof.
  destruct (config_bounds _ _ C) as (_ & Hn & _ & _ & HJ & _). subst own n.
  set (J := window_due_j_count config rate) in *. split.
  - unfold own_slot_count, div_ceil. apply Z.div_pos; [|lia]. pose proof (sat_sub_nonneg J conn). lia.
  - apply Z.lt_nge. intros Hge.
    pose proof (proj1 (own_slot_before conn (gen_connections config) J (2 ^ 64 - 1) ltac:(lia) ltac:(lia) ltac:(lia))
      ltac:(lia)). nia.
Qed.

Lemma due_total k : 0 <= k <= own ->
  exists due, slot_due_ns conn k n rate (origin_ns config) = Some due /\ origin_ns config <= due /\
    (due < slot_grid_end_ns (window config) <-> k < own).
Proof.
  intros Hk. pose proof own_bounds as Ho. destruct (config_bounds _ _ C) as (Hr & Hn & _ & _ & HJ & Hg).
  fold n in Hn, Hconn. set (D := slot_grid_end_ns (window config) - origin_ns config).
  assert (Hj : (conn + k * n) * NS < D * rate + n * NS).
  { assert (Hj : conn + k * n - n < window_due_j_count config rate).
    { destruct (decide (k = 0)) as [->|]; [lia|].
      pose proof (proj1 (own_slot_before conn n (window_due_j_count config rate) (k - 1) ltac:(lia) ltac:(lia) ltac:(lia))
        ltac:(fold own; lia)). lia. }
    rewrite (scheduled_exact _ _ C) in Hj. apply div_ceil_lt in Hj; [|unfold NS; lia]. fold D in Hj. lia. }
  assert (Hoff : 0 <= (conn + k * n) * NS / rate < 2 ^ 64).
  { split; [apply Z.div_pos; unfold NS; nia|]. apply div_lt_iff; [done|]. destruct C. unfold u_range, NS in *. nia. }
  assert (Hdue : slot_due_ns conn k n rate (origin_ns config) = Some (sat_add 64 (origin_ns config) ((conn + k * n) * NS / rate))).
  { unfold slot_due_ns, sat_mul. destruct C. unfold u_range, NS in *. rewrite (Z.min_r (2 ^ 128 - 1)) by nia.
    rewrite (proj2 (Z.eqb_neq rate 0)), (proj2 (Z.leb_gt _ _)) by lia. done. }
  eexists. split; [exact Hdue|]. split; [destruct C; unfold sat_add, u_range in *; lia|].
  apply (slot_in_grid config rate conn k); [done|done|unfold u_range; lia|done].
Qed.

Lemma wait_spec due fuel : forall w,
  due <= CLOCK_HORIZON -> due - clock w + 1 < Z.of_nat fuel ->
  (0 < fuel)%nat -> exists w', pacer_wait fuel due w = Some w' /\ due <= clock w' /\ clock w <= clock w'.
Proof.
  unfold pacer_wait. induction fuel as [|fuel IH]; intros w Hdue Hf Hpos; [lia|]. rewrite loop_S.
  destruct (monotonic_now_ns w) as [t w1] eqn:E. apply now_law in E.
  destruct (Z.leb_spec due t); [exists w1; split; [done|lia]|].
  assert (Hnext : forall w2, clock w < clock w2 -> exists w', loop (fun w =>
    let '(now, w) := monotonic_now_ns w in
    if due <=? now then inr w
    else if SPIN_THRESHOLD_NS <? due - now then inl (sleep (due - now - SPIN_THRESHOLD_NS) w)
    else inl (yield_now w)) fuel w2 = Some w' /\ due <= clock w' /\ clock w <= clock w').
  { intros w2 H2. destruct (IH w2) as (w' & ? & ? & ?); [done|lia|lia|]. exists w'. split; [done|lia]. }
  destruct (Z.ltb_spec SPIN_THRESHOLD_NS (due - t)); apply Hnext.
  - pose proof (sleep_law (due - t - SPIN_THRESHOLD_NS) w1). lia.
  - pose proof (yield_law w1). lia.
Qed.

(** Counters after [k' - k] slots were passed over. *)
Record passed (c c' : GenCounters) (missed : Z) : Prop := {
  pa_offered : offered c' = offered c;
  pa_missed : missed_slots c' = missed_slots c + missed;
  pa_last : last_write_start_ns c' = last_write_start_ns c
}.

Lemma passed_add c m : 0 <= missed_slots c -> 0 <= m -> missed_slots c + m < 2 ^ 64 -> passed c (add_missed_slots c m) m.
Proof. intros. split; cbn; [done| |done]. apply wrap_small. lia. Qed.

Lemma skip_spec c k due w :
  0 <= k < own -> slot_due_ns conn k n rate (origin_ns config) = Some due -> due <= clock w ->
  0 <= missed_slots c <= k ->
  exists k' c' w', skip_past_due_missed conn config rate c k w = (k', c', w') /\
    k < k' <= own /\ passed c c' (k' - k) /\ clock w <= clock w'.
Proof.
  intros Hk Hdue Hle Hm. pose proof own_bounds. unfold skip_past_due_missed, skip_missed.
  destruct (due_total k ltac:(lia)) as (due' & E & Horigin & _). rewrite Hdue in E. injection E as <-.
  destruct (monotonic_now_ns w) as [t w1] eqn:Ew. apply now_law in Ew. pose proof (clock_u64 w1). unfold CLOCK_HORIZON in *.
  assert (Hpast : k < own_slot_count conn n (past_due_j_count rate (origin_ns config) t)).
  { apply (slot_past_due config rate conn k due t C Hconn); [unfold u_range; lia|done|lia|lia]. }
  cbv zeta. fold n. fold own. set (b := Z.min _ own). assert (k < b <= own) by lia.
  unfold sat_sub. rewrite (proj2 (Z.eqb_neq (Z.max 0 (b - k)) 0)) by lia.
  unfold to_u64_or_max. rewrite !(proj2 (Z.ltb_lt _ _)) by lia. rewrite Z.max_r by lia.
  exists b, (add_missed_slots c (b - k)), w1. split; [done|]. split; [lia|]. split; [apply passed_add; lia|lia].
Qed.

(** Every entry of a QoS 1 batch carries an id. *)
Definition entry_ok (x : option Z * Z) : Prop := gen_qos config = 1 -> x.1 <> None.

(** What [latency_collect_batch] leaves: the slots it moved past are in the
    batch or missed; [progress] when it must have moved. *)
Definition collected (c : GenCounters) (k : Z) (batch : Batch) (w : PWorld) (progress : Prop)
    (r : option (Z * Batch * GenCounters * PWorld)) : Prop :=
  exists k' batch' c' w' m,
    r = Some (k', batch', c', w') /\ k <= k' <= own /\ 0 <= m /\ passed c c' m /\
    k' - k = Z.of_nat (length batch') - Z.of_nat (length batch) + m /\ Forall entry_ok batch' /\
    clock w <= clock w' /\ (progress -> k < k').

Lemma collected_stop c k batch w w' (progress : Prop) :
  0 <= k <= own -> Forall entry_ok batch -> clock w <= clock w' -> ~ progress ->
  collected c k batch w progress (Some (k, batch, c, w')).
Proof. intros. exists k, batch, c, w', 0. split_and!; try done; try lia. split; [done|lia|done]. Qed.

Lemma collect_spec room : forall c k batch w due,
  0 <= k <= own -> 0 <= missed_slots c <= k -> Forall entry_ok batch ->
  slot_due_ns conn k n rate (origin_ns config) = Some due ->
  collected c k batch w (due <= clock w /\ k < own /\ (0 < room)%nat)
    (latency_collect_batch conn config rate room c k batch w).
Proof.
  induction room as [|room IH]; intros c k batch w due Hk Hm Hb Hdue; cbn [latency_collect_batch].
  { apply collected_stop; [done|done|done|lia]. }
  destruct (due_total k Hk) as (due' & E & Horigin & Hgrid). rewrite Hdue in E. injection E as <-. fold n. rewrite Hdue.
  destruct (Z.leb_spec (slot_grid_end_ns (window config)) due) as [Hge|Hlt].
  { apply collected_stop; [done|done|done|lia]. }
  destruct (monotonic_now_ns w) as [t w1] eqn:Ew. apply now_law in Ew.
  destruct (Z.ltb_spec t due) as [Hearly|Hdue_now].
  { apply collected_stop; [done|done|lia|lia]. }
  assert (Hown : k < own) by (by apply Hgrid). pose proof own_bounds.
  assert (Hpush : forall x w2, entry_ok x -> clock w <= clock w2 ->
    collected c k batch w (due <= clock w /\ k < own /\ (0 < S room)%nat)
      (latency_collect_batch conn config rate room c (sat_add 64 k 1) (batch ++ [x]) w2)).
  { intros x w2 Hx Hw2. rewrite sat_add_small by lia. destruct (due_total (k + 1) ltac:(lia)) as (due2 & E2 & _).
    destruct (IH c (k + 1) (batch ++ [x]) w2 due2) as (k' & b' & c' & w' & m & Er & R);
      [lia|lia|by apply Forall_app_2; [|constructor]|done|].
    rewrite length_app in R. cbn [length] in R. destruct R as (? & ? & ? & ? & ? & ? & _).
    exists k', b', c', w', m. split_and!; try done; lia. }
  destruct (Z.eqb_spec (gen_qos config) 1) as [Hq|Hq]; [|apply Hpush; [by intros ?|lia]].
  destruct (PacketIds_allocate (packet_ids w1)) as [[id|] p].
  - apply Hpush; [done|]. rewrite ids_law. lia.
  - destruct (skip_spec c k due (set_packet_ids p w1)) as (k' & c' & w' & E & Hk' & Hp & Hc);
      [lia|done|rewrite ids_law; lia|done|].
    rewrite E. rewrite ids_law in Hc. exists k', batch, c', w', (k' - k). split_and!; try done; lia.
Qed.

Lemma encode_spec batch : forall seq buf,
  Forall entry_ok batch -> exists seq' buf', latency_encode_batch conn config batch seq buf = Some (seq', buf').
Proof.
  induction batch as [|[id due] batch IH]; intros seq buf Hb; [by do 2 eexists|].
  apply Forall_cons in Hb as [Hx Hb]. unfold entry_ok in Hx. cbn [latency_encode_batch fst] in *.
  destruct (Z.eqb_spec (gen_qos config) 1) as [Hq|Hq]; cbn [andb].
  - destruct id as [id|]; [|by destruct (Hx Hq)]. cbn. unfold encode_publish.
    rewrite Hq. apply IH. done.
  - unfold encode_publish. assert (gen_qos config <= 1).
    { pose proof (co_valid _ _ C) as Hv. unfold validate in Hv. destruct (Z.ltb_spec 1 (gen_qos config)); [done|lia]. }
    assert (gen_qos config = 0) as -> by lia. apply IH. done.
Qed.

(** The gate: a batch is offered only if its write starts inside the window. *)
Definition gated (c c' : GenCounters) (sent : Z) : Prop :=
  offered c' = offered c + sent /\ missed_slots c' = missed_slots c /\
  (last_write_start_ns c < end_ns (window config) -> last_write_start_ns c' < end_ns (window config)).

Lemma lateness_fold l c send_ns :
  let c' := foldl (fun c (x : option Z * Z) => note_lateness (window config) send_ns c x.2) c l in
  offered c' = offered c /\ missed_slots c' = missed_slots c /\ last_write_start_ns c' = last_write_start_ns c.
Proof.
  revert c. induction l as [|x l IH]; intros c; [done|]. cbn [foldl].
  destruct (IH (note_lateness (window config) send_ns c x.2)) as (-> & -> & ->).
  unfold note_lateness. by repeat case_match.
Qed.

Lemma send_spec c batch buf w :
  0 <= offered c -> offered c + Z.of_nat (length batch) < 2 ^ 64 ->
  exists o c' w', latency_send_batch config c batch buf w = (o, c', w') /\ clock w <= clock w' /\
    match o with WindowEnded => c' = c | _ => gated c c' (Z.of_nat (length batch)) end.
Proof.
  intros Ho Hb. unfold latency_send_batch. destruct (monotonic_now_ns w) as [start w1] eqn:Ew. apply now_law in Ew.
  destruct (Z.leb_spec (end_ns (window config)) start) as [|Hin]; [by exists WindowEnded, c, w1; split_and!; [|lia|]|].
  set (c1 := gate_passed c (gen_qos config) start (Z.of_nat (length batch))).
  assert (Hg : gated c c1 (Z.of_nat (length batch))).
  { unfold gated, update_last_write_start. subst c1. cbn. rewrite wrap_small by lia. unfold update_last_write_start.
    destruct (Z.ltb_spec (last_write_start_ns c) start); split_and!; lia. }
  destruct (write_all buf w1) as [r w2] eqn:E. apply write_law in E.
  destruct r as [[u|e]|]; [|do 3 eexists; split_and!; [done|lia|]; destruct (negb _); exact Hg..].
  destruct (monotonic_now_ns w2) as [send_ns w3] eqn:E3. apply now_law in E3.
  do 3 eexists. split_and!; [done|lia|]. destruct (lateness_fold batch c1 send_ns) as (E1 & E2 & E4).
  unfold gated. rewrite E1, E2, E4. exact Hg.
Qed.

Lemma remaining_spec c k :
  0 <= k <= own -> 0 <= missed_slots c <= k -> passed c (count_remaining_missed conn config rate c k) (own - k).
Proof.
  intros Hk Hm. pose proof own_bounds. unfold count_remaining_missed. fold n. fold own. unfold sat_sub, to_u64_or_max.
  rewrite Z.max_r, (proj2 (Z.ltb_lt _ _)) by lia. apply passed_add; lia.
Qed.

(** The pacer's books: every slot passed is offered or missed, and no write
    started at or after the end of the window. *)
Definition books (c : GenCounters) (k : Z) : Prop :=
  0 <= offered c /\ 0 <= missed_slots c /\ offered c + missed_slots c = k /\
  last_write_start_ns c < end_ns (window config).

Lemma books_passed c c' k m : books c k -> passed c c' m -> 0 <= m -> books c' (k + m).
Proof. intros (? & ? & ? & ?) [E1 E2 E3] ?. unfold books. rewrite E1, E2, E3. lia. Qed.

Lemma books_gated c c' k sent : books c k -> gated c c' sent -> 0 <= sent -> books c' (k + sent).
Proof. intros (? & ? & ? & ?) (E1 & E2 & E3) ?. unfold books. specialize (E3 ltac:(done)). lia. Qed.

Record pacer_inv (w0 : PWorld) (st : PacerState) : Prop := {
  pi_k : 0 <= next_slot_k st <= own;
  pi_books : books (counters st) (next_slot_k st);
  pi_clock : clock w0 <= clock (pworld st)
}.

Context (w0 : PWorld) (wait_fuel : nat).
Hypothesis Hwait : slot_grid_end_ns (window config) - clock w0 + 1 < Z.of_nat wait_fuel.
Hypothesis Hwait_pos : (0 < wait_fuel)%nat.

(** A batch in hand: it is sent and the pacer goes on, or the connection's
    books are closed. *)
Lemma batch_round st k batch c w m :
  pacer_inv w0 st -> k <= own -> next_slot_k st < k -> passed (counters st) c m -> 0 <= m ->
  k - next_slot_k st = Z.of_nat (length batch) + m -> Forall entry_ok batch -> clock w0 <= clock w ->
  exists r, (match latency_encode_batch conn config batch (next_seq st) [] with
    | None => None
    | Some (seq, write_buf) =>
        match latency_send_batch config c batch write_buf w with
        | (Sent, c, w) => Some (inl {| next_slot_k := k; next_seq := seq; counters := c; pworld := w |})
        | (WindowEnded, c, w) =>
            let '(c, w) := latency_drop_batch conn config rate c batch k w in Some (inr (Ok tt, c, w))
        | (Failed cause, c, w) => Some (inr (Err cause, count_remaining_missed conn config rate c k, w))
        end
    end) = Some r /\
    match r with
    | inl st' => pacer_inv w0 st' /\ next_slot_k st < next_slot_k st'
    | inr (_, c', _) => books c' own
    end.
Proof.
  intros [Hk Hbk Hclk] Hko Hlt Hp Hm Hlen Hb Hc. pose proof own_bounds.
  pose proof (books_passed _ _ _ _ Hbk Hp Hm) as Hbk1. set (sent := Z.of_nat (length batch)) in *.
  destruct (encode_spec batch (next_seq st) [] Hb) as (seq & buf & ->).
  destruct (send_spec c batch buf w) as (o & c' & w' & -> & Hc' & Ho); [apply Hbk1|unfold books in Hbk1; lia|].
  fold sent in Ho. destruct o as [| |cause].
  - eexists. split; [done|]. cbn. pose proof (books_gated _ _ _ _ Hbk1 Ho ltac:(lia)) as Hbk2.
    split; [|lia]. split; cbn; [lia| |lia]. by replace k with (next_slot_k st + m + sent) by lia.
  - subst c'. cbn [latency_drop_batch]. eexists. split; [done|].
    assert (Hdrop : passed c (add_missed_slots c sent) sent) by (unfold books in Hbk1; apply passed_add; lia).
    pose proof (books_passed _ _ _ _ Hbk1 Hdrop ltac:(lia)) as Hbk2.
    pose proof (remaining_spec (add_missed_slots c sent) k ltac:(lia) ltac:(unfold books in Hbk2; lia)) as Hr.
    pose proof (books_passed _ _ _ _ Hbk2 Hr ltac:(lia)) as Hbk3. fold sent.
    by replace own with (next_slot_k st + m + sent + (own - k)) by lia.
  - eexists. split; [done|]. pose proof (books_gated _ _ _ _ Hbk1 Ho ltac:(lia)) as Hbk2.
    pose proof (remaining_spec c' k ltac:(lia) ltac:(unfold books in Hbk2; lia)) as Hr.
    pose proof (books_passed _ _ _ _ Hbk2 Hr ltac:(lia)) as Hbk3.
    by replace own with (next_slot_k st + m + sent + (own - k)) by lia.
Qed.

Lemma pacer_round_spec st :
  pacer_inv w0 st ->
  exists r, pacer_round conn config rate wait_fuel st = Some r /\
    match r with
    | inl st' => pacer_inv w0 st' /\ next_slot_k st < next_slot_k st'
    | inr (_, c, _) => books c own
    end.
Proof.
  intros Hi. pose proof Hi as [Hk Hbk Hclk]. unfold pacer_round.
  destruct (due_total _ Hk) as (due & Hdue & _ & Hgrid). fold n. rewrite Hdue.
  destruct (Z.leb_spec (slot_grid_end_ns (window config)) due) as [Hge|Hlt].
  { eexists. split; [done|]. by replace own with (next_slot_k st) by lia. }
  destruct (wait_spec due wait_fuel (pworld st)) as (w1 & -> & Hw1 & Hc1); [|lia|done|].
  { assert (CONNECTIONS_MAX = 1213) by done. unfold CLOCK_HORIZON, NS in *. lia. }
  destruct (monotonic_now_ns w1) as [t w2] eqn:E. apply now_law in E.
  destruct (Z.leb_spec (end_ns (window config)) t).
  { eexists. split; [done|]. pose proof (remaining_spec (counters st) _ Hk ltac:(unfold books in Hbk; lia)) as Hr.
    pose proof (books_passed _ _ _ _ Hbk Hr ltac:(lia)) as Hb. by replace own with (next_slot_k st + (own - next_slot_k st)) by lia. }
  destruct (collect_spec BATCH (counters st) _ [] w2 due Hk ltac:(unfold books in Hbk; lia) ltac:(constructor) Hdue)
    as (k & batch & c & w3 & m & -> & Hk' & Hm & Hp & Hlen & Hb & Hc3 & Hprog).
  assert (Hlt' : next_slot_k st < k) by (apply Hprog; unfold BATCH; lia). cbn [length] in Hlen.
  destruct batch as [|x batch]; [|by apply (batch_round st k (x :: batch) c w3 m); try done; lia].
  eexists. split; [done|]. split; [|done]. split; cbn; [lia| |lia].
  replace k with (next_slot_k st + m) by (cbn [length] in Hlen; lia). by apply (books_passed (counters st)).
Qed.

Lemma pacer_books fuel :
  own < Z.of_nat fuel -> end_ns (window config) > 0 ->
  exists r c w, latency_pacer conn config rate fuel wait_fuel w0 = Some (r, c, w) /\ books c own.
Proof.
  intros Hfuel Hend. pose proof own_bounds. unfold latency_pacer.
  set (step := fun st => match pacer_round conn config rate wait_fuel st with
    | Some (inl st) => inl st | Some (inr r) => inr (Some r) | None => inr None end).
  set (st0 := {| next_slot_k := 0; next_seq := 0; counters := GenCounters_new; pworld := w0 |}).
  assert (Hi : pacer_inv w0 st0) by (split; cbn; [lia|unfold books; cbn; lia|lia]).
  destruct (loop_terminates step (pacer_inv w0) (fun st => Z.to_nat (own - next_slot_k st))) with (n := fuel) (s := st0)
    as [r Hr]; [|done|cbn; lia|].
  { intros st st' Hst. subst step. cbn beta. destruct (pacer_round_spec st Hst) as ([st1|q] & -> & R); [|done].
    intros [= ->]. destruct R as [R1 R2]. split; [done|]. destruct R1. lia. }
  rewrite Hr. eapply (loop_inv step (pacer_inv w0) (fun r => exists x c w, r = Some (x, c, w) /\ books c own)) in Hr; [done| | |done].
  - intros st st' Hst. subst step. cbn beta. destruct (pacer_round_spec st Hst) as ([st1|q] & -> & R); [|done].
    intros [= <-]. apply R.
  - intros st q Hst. subst step. cbn beta. destruct (pacer_round_spec st Hst) as ([st1|[[x c] w]] & -> & R); [done|].
    intros [= <-]. by exists x, c, w.
Qed.
End Accounting.

(** The pacer accounts for every slot.  Whatever the clock, the packet
    ids the reader gives back and the socket do, the pacer of a connection
    returns, given fuel for its slots and its waits, and every slot of the
    connection's share of the schedule has been counted once, as offered or as
    missed: when the grid ends, when the window ends first, when packet ids
    run out, and when a write fails.  No write started at or after the end of
    the window. *)
Theorem pacer_accounts_every_slot `{PacerLaws} conn config rate w0 fuel wait_fuel :
  config_ok config rate -> 0 <= conn < gen_connections config -> 0 <= gen_qos config ->
  slot_grid_end_ns (window config) + CONNECTIONS_MAX * NS < 2 ^ 64 ->
  let own := own_slot_count conn (gen_connections config) (window_due_j_count config rate) in
  own < Z.of_nat fuel -> slot_grid_end_ns (window config) - clock w0 + 1 < Z.of_nat wait_fuel ->
  (0 < wait_fuel)%nat ->
  exists r c w, latency_pacer conn config rate fuel wait_fuel w0 = Some (r, c, w) /\
    offered c + missed_slots c = own /\ 0 <= offered c /\ 0 <= missed_slots c /\
    last_write_start_ns c < end_ns (window config).
Proof.
  intros C Hc Hq Hfit own Hfuel Hwait Hpos. destruct (config_bounds _ _ C) as (_ & _ & _ & Hend & _).
  pose proof (co_start _ _ C) as [Hst _].
  destruct (pacer_books conn config rate C Hc Hq Hfit w0 wait_fuel Hwait Hpos fuel Hfuel) as (r & c & w & E & Hb); [lia|].
  exists r, c, w. split; [done|]. unfold books in Hb. subst own. lia.
Qed.

(** ** A run *)

(** A clock that moves a nanosecond at a time, a socket that fails at the
    [left]-th write from now. *)
Module PacerWitness.
Record Bench := { time : nat; ids : PacketIds; left : nat }.
Definition later (d : Z) (w : Bench) : Bench :=
  {| time := (time w + Z.to_nat d)%nat; ids := ids w; left := left w |}.
Definition bench_clock (w : Bench) : Z := Z.min CLOCK_HORIZON (Z.of_nat (time w)).
#[export] Instance world : PacerWorld := {|
  PWorld := Bench;
  clock := bench_clock;
  monotonic_now_ns w := (bench_clock w, later 1 w);
  packet_ids := ids;
  set_packet_ids p w := {| time := time w; ids := p; left := left w |};
  sleep := later;
  yield_now := later 1;
  write_all _ w :=
    (Some (if (left w =? 0)%nat then Err "broken pipe"%string else Ok tt),
     {| time := time w; ids := ids w; left := (left w - 1)%nat |})
|}.
#[export] Instance laws : PacerLaws.
Proof.
  split; cbn; unfold bench_clock, later, CLOCK_HORIZON; cbn; try (intros; lia).
  - intros w t w' [= <- <-]. cbn. lia.
  - intros _ w r w' [= <- <-]. cbn. lia.
Qed.

(** 20 slots in 40 nanoseconds on one QoS 1 connection. *)
Definition config : GenConfig :=
  {| mode := Latency 500000000; gen_qos := 1; gen_connections := 1; qos1_window := 10; origin_ns := 100;
     window := {| start_ns := 140; end_ns := 150 |}; drain_grace_ns := 0 |}.
Definition start : Bench := {| time := 90; ids := PacketIds_new; left := 0 |}.
End PacerWitness.
#[local] Existing Instances PacerWitness.world PacerWitness.laws.

Lemma pacer_witness_config : config_ok PacerWitness.config 500000000.
Proof. split; try done; vm_compute; split; congruence. Qed.

(** The first write fails: its batch is offered, the rest of the slots missed. *)
Lemma pacer_accounts_every_slot_witness :
  (latency_pacer 0 PacerWitness.config 500000000 41 60 PacerWitness.start ≫= fun x => Some (offered x.1.2, missed_slots x.1.2)) =
    Some (3, 17) /\
  exists r c w, latency_pacer 0 PacerWitness.config 500000000 41 60 PacerWitness.start = Some (r, c, w) /\
    offered c + missed_slots c = 20.
Proof.
  split; [by vm_compute|].
  destruct (pacer_accounts_every_slot (H0 := PacerWitness.laws) 0 PacerWitness.config 500000000 PacerWitness.start 41 60
    pacer_witness_config) as (r & c & w & E & Hb & _); [by vm_compute..|lia|].
  exists r, c, w. split; [exact E|]. rewrite Hb. by vm_compute.
Defined.
