(* ===== verification/Analysis.v ===== *)
(** * Derivation and reconciliation of run records

    bench/src/analysis.rs: [derive] computes the summary of a record from its
    raw observations, [reconcile] lists the rows of the validity contract the
    record violates and [recompute] compares a stored summary with both.  A
    reason is the text the code pushes; a panic is [None].  Row [i] of
    [reconcile] is [row i]. *)

From S2P Require Import Prelude Text F64 Api Wire Recorder Generator Pacer RunRecord.
From Stdlib Require Import Ascii.

Definition SPREAD_LIMIT : f64 := f64_ratio 1 10.
Definition GENERATOR_LATENESS_FRACTION : f64 := f64_ratio 1 10.
Definition SIGINT : Z := 2.
Definition ONE_SECOND_NS : Z := 1000000000.
Definition NS_PER_US : Z := 1000.
Definition PCT_TENTHS : f64 := f64_of_Z 10.
Definition STEADY_STATE_GROWTH_LIMIT_NS : Z := 50000000.
Definition NS_PER_MS : Z := 1000000.
Definition MS_PER_SECOND : f64 := f64_of_Z 1000.
Definition LATENCY_BUCKET_MAX_NS : Z := 60028878847.
Definition SUSTAINED_TAIL_SECS : Z := 10.
Definition COUNTER_BOUNDARY_TOLERANCE_NS : Z := 10000000.
Definition CLEANUP_SURVIVOR_PREFIX : str := lit "child survived cleanup: ".

(** ** Histograms and percentiles *)

Fixpoint histogram_total_from (total : Z) (previous : option Z) (h : list (Z * Z)) : result Z str :=
  match h with
  | [] => Ok total
  | (value, count) :: h =>
      if (value =? 0) || (LATENCY_BUCKET_MAX_NS <? value) then Err (lit "bucket value outside the recorder's range")
      else if match previous with Some p => value <=? p | None => false end
      then Err (lit "buckets out of ascending order")
      else if total + count <? 2 ^ 64 then histogram_total_from (total + count) (Some value) h
      else Err (lit "bucket counts overflow a u64")
  end.

Definition histogram_total (h : list (Z * Z)) : result Z str := histogram_total_from 0 None h.

Fixpoint value_at_rank (rank cumulative : Z) (h : list (Z * Z)) : option Z :=
  match h with
  | [] => None
  | (value, count) :: h =>
      let cumulative := sat_add 64 cumulative count in
      if rank <=? cumulative then Some value else value_at_rank rank cumulative h
  end.

Definition percentile_rank (total : Z) (quantile : f64) : Z :=
  Z.max (f64_to_u64 (f64_ceil (f64_mul quantile (f64_of_Z total)))) 1.

Definition percentile (h : list (Z * Z)) (quantile : f64) : option Z :=
  match histogram_total h with
  | Err _ => None
  | Ok total => if total =? 0 then None else value_at_rank (percentile_rank total quantile) 0 h
  end.

Definition P50 : f64 := f64_ratio 1 2.
Definition P99 : f64 := f64_ratio 99 100.
Definition P100 : f64 := f64_of_Z 1.

(** ** Counter output *)

Fixpoint find_map {A B} (f : A -> option B) (l : list A) : option B :=
  match l with [] => None | x :: l => match f x with Some y => Some y | None => find_map f l end end.

Definition parse_cpu_pressure_some_total (text : str) : option Z :=
  match List.find (fun line => bool_decide (head (split_whitespace line) = Some (lit "some"))) (lines text) with
  | None => None
  | Some line =>
      match find_map (strip_prefix (lit "total=")) (split_whitespace line) with
      | None => None
      | Some value => ok (parse_uint 64 value)
      end
  end.

Fixpoint perf_count_in (ls : list str) : option Z :=
  match ls with
  | [] => None
  | line :: ls =>
      let fields := split_char (chr ",") line in
      if bool_decide (fields !! 2%nat = Some (lit "raw_syscalls:sys_enter"))
      then match head fields with Some s => ok (parse_uint 64 s) | None => None end
      else perf_count_in ls
  end.

Definition parse_perf_count (stderr : str) : option Z := perf_count_in (lines stderr).

Definition strace_step (last_total : option Z) (line : str) : option Z :=
  let tokens := split_whitespace line in
  if bool_decide (last tokens = Some (lit "total")) then
    match match tokens !! 3%nat with Some s => ok (parse_uint 64 s) | None => None end with
    | Some calls => Some calls
    | None => last_total
    end
  else last_total.

Definition parse_strace_total (summary : str) : option Z := foldl strace_step None (lines summary).

(** ** Derivation *)

Record Derived := {
  d_throughput : option f64; d_last10s : option f64; d_connections_per_sec : option f64;
  d_latency_ns : option LatencySummary; d_lateness_p99_ns : option Z; d_syscall_count : option Z;
  d_syscalls_per_msg : option f64; d_unresolved : Z
}.

Definition window_deliveries (r : RunRecord) : Z :=
  sum_secs (r_timeline r) (start_sec (r_window r)) (end_sec (r_window r)).

Definition rate_of (n secs : Z) : f64 := f64_div (f64_of_Z n) (f64_of_Z secs).

Definition derive_rates (r : RunRecord) : option f64 * option f64 :=
  match r_kind r with
  | KThroughput =>
      let tail := Z.min SUSTAINED_TAIL_SECS (r_window_secs r) in
      let tail_start := end_sec (r_window r) - tail in
      if (0 <=? tail_start) && negb (tail =? 0)
      then (Some (rate_of (window_deliveries r) (r_window_secs r)),
            Some (rate_of (sum_secs (r_timeline r) tail_start (end_sec (r_window r))) tail))
      else (None, None)
  | _ => (None, None)
  end.

Definition summarize (h : list (Z * Z)) : LatencySummary :=
  {| p50 := default 0 (percentile h P50); p99 := default 0 (percentile h P99);
     max_ns := default 0 (percentile h P100); histogram := h |}.

Definition derive_syscall_count (y : Syscalls) : option Z :=
  match y_method y with
  | Perf => match y_raw y with Some raw => parse_perf_count raw | None => None end
  | Strace => match y_raw y with Some raw => parse_strace_total raw | None => None end
  | NoMethod => None
  end.

Definition derive_unresolved (offered delivered : Z) (dropped : option Z) : Z :=
  sat_sub (sat_sub offered delivered) (default 0 dropped).

Definition derive (r : RunRecord) : Derived :=
  let deliveries := window_deliveries r in
  let syscall_count := derive_syscall_count (r_syscalls r) in
  {| d_throughput := (derive_rates r).1;
     d_last10s := (derive_rates r).2;
     d_connections_per_sec :=
       match r_kind r with
       | KConnections => match r_cycles_in_window r with Some c => Some (rate_of c (r_window_secs r)) | None => None end
       | _ => None
       end;
     d_latency_ns :=
       if is_open_loop (r_kind r)
       then match r_latency_ns r with Some l => Some (summarize (histogram l)) | None => None end
       else None;
     d_lateness_p99_ns := percentile (r_lateness r) P99;
     d_syscall_count := syscall_count;
     d_syscalls_per_msg :=
       match syscall_count with
       | Some c => if deliveries =? 0 then None else Some (rate_of c deliveries)
       | None => None
       end;
     d_unresolved := derive_unresolved (c_offered (r_counts r)) (c_delivered (r_counts r)) (c_dropped (r_counts r)) |}.

(** ** Reconciliation *)

Definition kind_label (kind : RunKind) : str := kind_lower kind.

Definition is_counted_syscall_run (r : RunRecord) : bool := bool_decide (r_kind r = KCounted).

Definition counter_boundaries_off (r : RunRecord) : bool :=
  let off b x := match b with None => true | Some e => COUNTER_BOUNDARY_TOLERANCE_NS <? Z.abs (e - x) end in
  off (y_enabled_ns (r_syscalls r)) (start_ns (r_window r)) || off (y_disabled_ns (r_syscalls r)) (end_ns (r_window r)).

Definition counter_exit_ok (r : RunRecord) : bool :=
  match y_exit (r_syscalls r) with
  | Some (ExitCode c) => c =? 0
  | Some (ExitSignal s) => s =? SIGINT
  | None => false
  end.

Definition counter_failed (r : RunRecord) : bool :=
  is_counted_syscall_run r &&
  (negb (bool_decide (is_Some (y_count (r_syscalls r)))) || counter_boundaries_off r || negb (counter_exit_ok r)).

(** The window's backlog growth, when the record names one. *)
Definition steady_growth (r : RunRecord) : option (Z * Z) :=
  if negb (is_open_loop (r_kind r)) then None
  else match r_offered_rate r, c_window_scheduled (r_counts r) with
       | Some rate, Some w => Some (sat_sub w (window_deliveries r), rate)
       | _, _ => None
       end.

Definition steady_state_reason (r : RunRecord) : option str :=
  match steady_growth r with
  | None => None
  | Some (growth, rate) =>
      if growth * ONE_SECOND_NS <=? STEADY_STATE_GROWTH_LIMIT_NS * rate then None
      else
        let growth_ms := f64_div (f64_mul (f64_of_Z growth) MS_PER_SECOND) (f64_of_Z rate) in
        Some (lit "backlog grew by " ++ dec growth ++ lit " slots through the window (" ++ f64_fixed 1 growth_ms
              ++ lit " ms at the offered rate), above the " ++ dec (STEADY_STATE_GROWTH_LIMIT_NS / NS_PER_MS)
              ++ lit " ms steady-state limit")
  end.

Definition reason (b : bool) (text : str) : list str := if b then [text] else [].

(** Kinds whose publishes are counted: throughput and the open-loop kinds. *)
Definition publishes (r : RunRecord) : bool := bool_decide (r_kind r = KThroughput) || is_open_loop (r_kind r).
Definition open_loop (r : RunRecord) : bool := is_open_loop (r_kind r).
Definition debug_oz : option Z -> str := debug_option dec.

Definition row1 (r : RunRecord) : list str :=
  reason (open_loop r && negb (bool_decide (c_scheduled (r_counts r) = Some (c_offered (r_counts r)))))
    (lit "scheduled " ++ debug_oz (c_scheduled (r_counts r)) ++ lit " != offered " ++ dec (c_offered (r_counts r))).

Definition row2 (r : RunRecord) : list str :=
  reason (publishes r && (c_offered (r_counts r) <? sat_add 64 (c_delivered (r_counts r)) (default 0 (c_dropped (r_counts r)))))
    (lit "delivered + dropped exceeds offered").

Definition row3 (r : RunRecord) : list str :=
  reason (publishes r && negb (c_unresolved (r_counts r) =? 0)) (lit "unresolved " ++ dec (c_unresolved (r_counts r))).

Definition row4 (r : RunRecord) : list str :=
  reason (negb (c_duplicates (r_counts r) =? 0)) (lit "duplicates " ++ dec (c_duplicates (r_counts r))).

Definition row5 (r : RunRecord) : list str :=
  reason (negb (c_foreign (r_counts r) =? 0)) (lit "foreign payloads " ++ dec (c_foreign (r_counts r))).

Definition row6 (r : RunRecord) : list str :=
  match c_dropped (r_counts r) with
  | Some n => reason (publishes r && negb (n =? 0))
                (lit "dropped " ++ dec n ++ lit " in a " ++ kind_label (r_kind r) ++ lit " run")
  | None => []
  end.

Definition sustained_ok (whole tail : option f64) : bool :=
  match whole, tail with
  | Some w, Some l =>
      f64_lt (f64_of_Z 0) w && f64_le (f64_div (f64_abs (f64_sub l w)) w) SPREAD_LIMIT
  | _, _ => false
  end.

Definition row7 (r : RunRecord) : list str :=
  reason (bool_decide (r_kind r = KThroughput) && negb (sustained_ok (r_throughput r) (r_last10s r)))
    (lit "not sustained: tail " ++ debug_option f64_debug (r_last10s r) ++ lit " vs window "
     ++ debug_option f64_debug (r_throughput r)).

Definition debug_driver (d : DriverFds) : str :=
  lit "DriverFds { io_uring_fds: " ++ dec (io_uring_fds d) ++ lit ", eventpoll_fds: " ++ dec (eventpoll_fds d) ++ lit " }".

Definition row8 (r : RunRecord) : list str :=
  reason (bool_decide (r_server r = Uring)
          && negb (bool_decide (r_driver r = Some {| io_uring_fds := r_workers r; eventpoll_fds := 0 |})))
    (lit "driver proof failed: " ++ debug_option debug_driver (r_driver r)).

Definition row9 (r : RunRecord) : list str :=
  reason (negb (g_connect (r_generator_errors r) =? 0)) (lit "connect errors " ++ dec (g_connect (r_generator_errors r))).

Definition row10 (r : RunRecord) : list str :=
  reason (negb (g_protocol (r_generator_errors r) =? 0)) (lit "protocol errors " ++ dec (g_protocol (r_generator_errors r))).

Definition row11 (r : RunRecord) : list str :=
  reason (open_loop r && negb (g_missed_slots (r_generator_errors r) =? 0))
    (lit "missed slots " ++ dec (g_missed_slots (r_generator_errors r))).

Definition row12 (r : RunRecord) : list str :=
  reason (negb (g_stalled (r_generator_errors r) =? 0))
    (lit "stalled " ++ dec (g_stalled (r_generator_errors r))
     ++ lit " (publishes whose write did not complete or whose PUBACK never arrived, plus connection tasks still running at the hard deadline)").

Definition row13 (r : RunRecord) : list str :=
  reason (bool_decide (r_qos r = Some 1) && publishes r
          && negb (bool_decide (c_acked (r_counts r) = Some (c_offered (r_counts r)))))
    (lit "unacknowledged QoS 1 publishes: acked " ++ debug_oz (c_acked (r_counts r)) ++ lit " of "
     ++ dec (c_offered (r_counts r))).

Definition row14 (r : RunRecord) : list str :=
  reason (open_loop r && bool_decide (r_latency_ns r = None)) (lit "no latency samples in the window").

Definition row15 (r : RunRecord) : list str :=
  match r_latency_ns r with
  | Some l =>
      if open_loop r then
        match histogram_total (histogram l) with
        | Err e => [lit "latency histogram " ++ e]
        | Ok total =>
            reason (negb (total =? default 0 (c_window_scheduled (r_counts r))))
              (lit "latency samples " ++ dec total ++ lit " != window slots " ++ debug_oz (c_window_scheduled (r_counts r)))
        end
      else []
  | None => []
  end.

Definition row16 (r : RunRecord) : list str :=
  reason (negb (c_latency_over_range (r_counts r) =? 0))
    (lit "latency samples over range " ++ dec (c_latency_over_range (r_counts r))).

Definition row17 (r : RunRecord) : list str :=
  reason (negb (c_clock_anomalies (r_counts r) =? 0)) (lit "clock anomalies " ++ dec (c_clock_anomalies (r_counts r))).

(** [p as f64 > GENERATOR_LATENESS_FRACTION * p99 as f64]. *)
Definition lateness_exceeds (p p99 : Z) : bool :=
  f64_lt (f64_mul GENERATOR_LATENESS_FRACTION (f64_of_Z p99)) (f64_of_Z p).

Definition row18 (r : RunRecord) : list str :=
  match r_latency_ns r with
  | Some l =>
      if open_loop r then
        let text p := lit "generator lateness p99 " ++ p ++ lit " ns exceeds " ++ f64_debug GENERATOR_LATENESS_FRACTION
                      ++ lit " of latency p99 " ++ dec (p99 l) in
        match r_lateness_p99_ns r with
        | None => [text (lit "None")]
        | Some p => reason (lateness_exceeds p (p99 l)) (text (debug_oz (Some p)))
        end
      else []
  | None => []
  end.

Definition row19 (r : RunRecord) : list str :=
  reason (is_counted_syscall_run r && bool_decide (y_count (r_syscalls r) = None)) (lit "syscall count missing").

Definition row20 (r : RunRecord) : list str :=
  reason (bool_decide (r_kind r = KConnections) && (default 0 (r_cycles_in_window r) =? 0))
    (lit "no completed connection cycles").

Definition row21 (r : RunRecord) : list str :=
  reason (open_loop r && negb (g_lateness_over_range (r_generator_errors r) =? 0))
    (lit "generator lateness over range " ++ dec (g_lateness_over_range (r_generator_errors r))).

Definition row22 (r : RunRecord) : list str :=
  reason (is_counted_syscall_run r && counter_boundaries_off r)
    (lit "counter boundaries outside tolerance: enabled " ++ debug_oz (y_enabled_ns (r_syscalls r)) ++ lit " disabled "
     ++ debug_oz (y_disabled_ns (r_syscalls r))).

Definition dec_int (n : Z) : str := if n <? 0 then lit "-" ++ dec (- n) else dec n.
Definition debug_exit (e : CounterExit) : str :=
  match e with
  | ExitCode c => lit "Code(" ++ dec_int c ++ lit ")"
  | ExitSignal s => lit "Signal(" ++ dec_int s ++ lit ")"
  end.

Definition row23 (r : RunRecord) : list str :=
  reason (is_counted_syscall_run r && negb (counter_exit_ok r))
    (lit "syscall counter ended with " ++ debug_option debug_exit (y_exit (r_syscalls r))).

Definition row24 (r : RunRecord) : list str :=
  if open_loop r then
    match r_last_write_start_ns r with
    | None => [lit "publish write began at or after the window end: None"]
    | Some t => reason (end_ns (r_window r) <=? t) (lit "publish write began at or after the window end: " ++ dec t)
    end
  else [].

Definition row25 (r : RunRecord) : list str :=
  if open_loop r then
    match histogram_total (r_lateness r) with
    | Err e => [lit "lateness histogram " ++ e]
    | Ok lateness_total =>
        let total := sat_add 64 lateness_total (g_lateness_over_range (r_generator_errors r)) in
        reason (negb (total =? default 0 (c_window_scheduled (r_counts r))))
          (lit "lateness samples " ++ dec total ++ lit " != window slots " ++ debug_oz (c_window_scheduled (r_counts r)))
    end
  else [].

(** [secs.checked_mul(1e9).and_then(|ns| base.checked_add(ns))]. *)
Definition boundary (base secs : Z) : option Z :=
  if secs * ONE_SECOND_NS <? 2 ^ 64 then
    if base + secs * ONE_SECOND_NS <? 2 ^ 64 then Some (base + secs * ONE_SECOND_NS) else None
  else None.

Definition row26 (r : RunRecord) : list str :=
  let boundaries_ok :=
    bool_decide (boundary (r_origin_ns r) (r_warmup_secs r) = Some (start_ns (r_window r)))
    && bool_decide (boundary (start_ns (r_window r)) (r_window_secs r) = Some (end_ns (r_window r))) in
  let origin_ok := r_origin_ns r mod ONE_SECOND_NS =? 0 in
  let span_ok := start_ns (r_window r) <? end_ns (r_window r) in
  reason (negb origin_ok || negb boundaries_ok || negb span_ok) (lit "window inconsistent with origin and constants").

Definition row27 (r : RunRecord) : option (list str) :=
  if open_loop r then
    match r_offered_rate r with
    | None => Some [lit "no offered rate for a latency run"]
    | Some rate =>
        if end_ns (r_window r) <? start_ns (r_window r) then
          Some [lit "window start " ++ dec (start_ns (r_window r)) ++ lit " is after window end "
                ++ dec (end_ns (r_window r))]
        else if 2 ^ 64 <=? scheduled_slots rate (r_origin_ns r) (r_window r) then
          Some [lit "offered rate " ++ dec rate ++ lit " schedules more slots than a u64 can hold"]
        else match slot_counts rate (r_origin_ns r) (r_window r) with
             | None => None
             | Some (scheduled, window_scheduled) =>
                 Some (reason (negb (bool_decide (c_scheduled (r_counts r) = Some scheduled)
                                     && bool_decide (c_window_scheduled (r_counts r) = Some window_scheduled)))
                         (lit "scheduled counts inconsistent with rate " ++ debug_oz (r_offered_rate r)))
             end
    end
  else Some [].

Definition row28 (r : RunRecord) : list str := r_harness_errors r.

Definition row29 (r : RunRecord) : list str :=
  match Timeline_total (r_timeline r) with
  | None => [lit "timeline deliveries overflow a u64"]
  | Some t => reason (negb (t =? c_delivered (r_counts r)))
                (lit "timeline deliveries " ++ dec t ++ lit " != delivered " ++ dec (c_delivered (r_counts r)))
  end.

Definition row30 (r : RunRecord) : list str :=
  reason (is_counted_syscall_run r && (window_deliveries r =? 0))
    (lit "no deliveries in the window to divide the syscall count by").

Definition row31 (r : RunRecord) : list str :=
  match steady_state_reason r with Some text => [text] | None => [] end.

Definition reconcile (r : RunRecord) : option (list str) :=
  match row27 r with
  | None => None
  | Some rows27 =>
      Some (row1 r ++ row2 r ++ row3 r ++ row4 r ++ row5 r ++ row6 r ++ row7 r ++ row8 r ++ row9 r ++ row10 r
            ++ row11 r ++ row12 r ++ row13 r ++ row14 r ++ row15 r ++ row16 r ++ row17 r ++ row18 r ++ row19 r
            ++ row20 r ++ row21 r ++ row22 r ++ row23 r ++ row24 r ++ row25 r ++ row26 r ++ rows27 ++ row28 r
            ++ row29 r ++ row30 r ++ row31 r)
  end.

(** ** Recomputation *)

(** One disagreement: the stored and the derived value of a field. *)
Inductive Mismatch :=
| MThroughput (stored derived : option f64)
| MLast10s (stored derived : option f64)
| MConnections (stored derived : option f64)
| MLatency (stored derived : option LatencySummary)
| MLateness (stored derived : option Z)
| MSyscallCount (stored derived : option Z)
| MPerMsg (stored derived : option f64)
| MUnresolved (stored derived : Z)
| MReasons (stored derived : list str)
| MValid (stored derived : bool).

(** [==] on [Option<f64>]. *)
Definition opt_f64_eq (a b : option f64) : bool :=
  match a, b with Some a, Some b => f64_eq a b | None, None => true | _, _ => false end.

Definition mismatch (b : bool) (m : Mismatch) : list Mismatch := if b then [] else [m].

Definition is_nil {A} (l : list A) : bool := match l with [] => true | _ => false end.

Definition recompute (r : RunRecord) : option (list Mismatch) :=
  match reconcile r with
  | None => None
  | Some reasons =>
      let d := derive r in
      Some (mismatch (opt_f64_eq (r_throughput r) (d_throughput d)) (MThroughput (r_throughput r) (d_throughput d))
        ++ mismatch (opt_f64_eq (r_last10s r) (d_last10s d)) (MLast10s (r_last10s r) (d_last10s d))
        ++ mismatch (opt_f64_eq (r_connections_per_sec r) (d_connections_per_sec d))
             (MConnections (r_connections_per_sec r) (d_connections_per_sec d))
        ++ mismatch (bool_decide (r_latency_ns r = d_latency_ns d)) (MLatency (r_latency_ns r) (d_latency_ns d))
        ++ mismatch (bool_decide (r_lateness_p99_ns r = d_lateness_p99_ns d))
             (MLateness (r_lateness_p99_ns r) (d_lateness_p99_ns d))
        ++ mismatch (bool_decide (y_count (r_syscalls r) = d_syscall_count d))
             (MSyscallCount (y_count (r_syscalls r)) (d_syscall_count d))
        ++ mismatch (opt_f64_eq (y_per_msg (r_syscalls r)) (d_syscalls_per_msg d))
             (MPerMsg (y_per_msg (r_syscalls r)) (d_syscalls_per_msg d))
        ++ mismatch (c_unresolved (r_counts r) =? d_unresolved d) (MUnresolved (c_unresolved (r_counts r)) (d_unresolved d))
        ++ mismatch (bool_decide (r_invalid_reasons r = reasons)) (MReasons (r_invalid_reasons r) reasons)
        ++ mismatch (Bool.eqb (r_valid r) (is_nil reasons)) (MValid (r_valid r) (is_nil reasons)))
  end.
