(* ===== verification/Rates.v ===== *)
(** * Rates

    The throughput rule of bench/src/analysis.rs compares two quotients by a
    third, all in [f64].  With counts and spans that a run can reach, the
    comparison decides the exact rational one, except when the tail is off by
    exactly the limit, where the roundings decide. *)

From S2P Require Import Prelude Text F64 Api Wire Recorder Generator Pacer RunRecord Analysis.
From Stdlib Require Import Floats.SpecFloat.

(** ** One rounding *)

Lemma shr_fexp_exact q e : 2 ^ 52 <= q <= 2 ^ 53 -> -900 <= e ->
  exists mrs k mv, shr_fexp 53 1024 q e loc_Exact = (mrs, e + k) /\ shr_m mrs = Zpos mv /\ normal mv /\ 0 <= k <= 1 /\ Zpos mv * 2 ^ k = q.
Proof.
  intros Hq He. destruct (Z.eq_dec q (2 ^ 53)) as [->|Hne].
  - rewrite (shr_fexp_wide _ _ 54 0) by (done || lia). do 2 eexists. exists (Pos.pow 2 52). split; [done|].
    split; [done|]. split; [unfold normal; lia|]. split; [lia|]. done.
  - destruct q as [|p|]; try lia. assert (normal p) by (unfold normal; lia). rewrite shr_fexp_fits by (done || lia).
    eexists _, 0, p. rewrite Z.add_0_r. split; [done|]. split; [done|]. split; [done|]. split; [lia|]. lia.
Qed.

Lemma round_nearest_near m l : m <= round_nearest_even m l <= m + 1.
Proof. destruct l as [|[]]; cbn; try destruct (Z.even m); lia. Qed.

Lemma shr_record_m m l : shr_m (shr_record_of_loc m l) = m.
Proof. by destruct l as [|[]]. Qed.

(** Rounding a mantissa of one bit more than fits. *)
Lemma round_aux_near m e l : 2 ^ 52 <= m < 2 ^ 54 -> -900 <= e <= 900 ->
  exists mv k, binary_round_aux 53 1024 false m e l = S754_finite false mv (e + k) /\ normal mv /\ 0 <= k <= 2 /\ Z.abs (Zpos mv * 2 ^ k - m) <= 3.
Proof.
  intros Hm He. unfold binary_round_aux.
  assert (Hshr : exists mrs j, shr_fexp 53 1024 m e l = (mrs, e + j) /\ 0 <= j <= 1 /\ 2 ^ 52 <= shr_m mrs < 2 ^ 53 /\
    m - 1 <= shr_m mrs * 2 ^ j <= m).
  { unfold shr_fexp. destruct m as [|p|]; try lia. cbn [Zdigits2]. rewrite digits2_log2.
    destruct (Z.lt_ge_cases (Zpos p) (2 ^ 53)) as [Hs|Hs].
    - assert (Hl : Z.log2 (Zpos p) = 52) by (apply Z.log2_unique; lia). rewrite Hl, fexp_normal by lia.
      replace (52 + 1 + e - 53 - e) with 0 by lia. eexists _, 0. cbn [shr]. rewrite Z.add_0_r. split; [done|].
      rewrite shr_record_m. lia.
    - assert (Hl : Z.log2 (Zpos p) = 53) by (apply Z.log2_unique; lia). rewrite Hl, fexp_normal by lia.
      replace (53 + 1 + e - 53 - e) with 1 by lia. eexists _, 1. cbn [shr SpecFloat.iter_pos]. split; [done|].
      assert (E : shr_m (shr_1 (shr_record_of_loc (Zpos p) l)) = Zpos p / 2)
        by (destruct l as [|[]]; cbn [shr_record_of_loc]; by rewrite shr_1_nonneg by lia).
      rewrite E. pose proof (Z.div_mod (Zpos p) 2). pose proof (Z.mod_pos_bound (Zpos p) 2). lia. }
  destruct Hshr as (mrs & j & -> & Hj & Hr & Hnear).
  pose proof (round_nearest_near (shr_m mrs) (loc_of_shr_record mrs)) as Hq. set (q := round_nearest_even _ _) in *.
  destruct (shr_fexp_exact q (e + j)) as (mrs' & k & mv & -> & -> & Hv & Hk & Eq); [lia|lia|].
  rewrite (proj2 (Z.leb_le _ _)) by lia. exists mv, (j + k). rewrite Z.add_assoc. split; [done|]. split; [done|]. split; [lia|].
  rewrite Z.pow_add_r by lia. replace (Zpos mv * (2 ^ j * 2 ^ k)) with (q * 2 ^ j) by (rewrite <- Eq; ring).
  assert (Hj2 : j = 0 \/ j = 1) by lia. destruct Hj2; subst j; lia.
Qed.

(** ** Quotients *)

(** [v] is [x] up to a part in [2^50]. *)
Definition near (v x : Z) : Prop := 2 ^ 50 * Z.abs (v - x) <= x.

Lemma f64_div_near m1 e1 m2 e2 : normal m1 -> normal m2 -> -150 <= e1 <= 100 -> -150 <= e2 <= 100 -> -147 <= e1 - e2 ->
  exists mv ev, f64_div (S754_finite false m1 e1) (S754_finite false m2 e2) = S754_finite false mv ev /\ normal mv /\
    e1 - e2 - 53 <= ev <= e1 - e2 - 51 /\ near (scaled mv ev * scaled m2 e2) (scaled m1 e1 * 2 ^ 200).
Proof.
  intros H1 H2 He1 He2 He. unfold f64_div. cbn [SFdiv xorb]. unfold SFdiv_core_binary. cbn [Zdigits2].
  assert (Hd1 : Z.log2 (Zpos m1) = 52) by (apply Z.log2_unique; unfold normal in *; lia).
  assert (Hd2 : Z.log2 (Zpos m2) = 52) by (apply Z.log2_unique; unfold normal in *; lia).
  rewrite !digits2_log2, Hd1, Hd2, fexp_normal by lia. replace (Z.min _ _) with (e1 - e2 - 53) by lia.
  replace (e1 - e2 - (e1 - e2 - 53)) with 53 by lia. rewrite Z.shiftl_mul_pow2 by lia.
  pose proof (Z_div_mod (Zpos m1 * 2 ^ 53) (Zpos m2) ltac:(lia)) as Hd.
  destruct (Z.div_eucl (Zpos m1 * 2 ^ 53) (Zpos m2)) as [q r]. destruct Hd as [E Hr]. unfold normal in H1, H2.
  assert (Hq : 2 ^ 52 <= q < 2 ^ 54) by nia.
  destruct (round_aux_near q (e1 - e2 - 53) (new_location (Zpos m2) r) Hq ltac:(lia)) as (mv & k & -> & Hv & Hk & Hnear).
  exists mv, (e1 - e2 - 53 + k). split; [done|]. split; [done|]. split; [lia|]. unfold near, scaled.
  assert (Ep : 0 < 2 ^ (e1 - 53 + 400)) by (apply Z.pow_pos_nonneg; lia).
  replace (Zpos mv * 2 ^ (e1 - e2 - 53 + k + 200) * (Zpos m2 * 2 ^ (e2 + 200)))
    with ((Zpos mv * 2 ^ k) * Zpos m2 * 2 ^ (e1 - 53 + 400)).
  2: { replace (2 ^ (e1 - e2 - 53 + k + 200)) with (2 ^ k * 2 ^ (e1 - e2 - 53 + 200)) by (rewrite <- Z.pow_add_r by lia; f_equal; lia).
       replace (2 ^ (e1 - 53 + 400)) with (2 ^ (e1 - e2 - 53 + 200) * 2 ^ (e2 + 200)) by (rewrite <- Z.pow_add_r by lia; f_equal; lia). ring. }
  replace (Zpos m1 * 2 ^ (e1 + 200) * 2 ^ 200) with (Zpos m1 * 2 ^ 53 * 2 ^ (e1 - 53 + 400)).
  2: { rewrite <- !Z.mul_assoc, <- !Z.pow_add_r by lia. f_equal. f_equal. lia. }
  rewrite <- Z.mul_sub_distr_r, Z.abs_mul, (Z.abs_eq (2 ^ _)) by lia.
  rewrite Z.mul_assoc. apply Z.mul_le_mono_nonneg_r; [lia|].
  set (v := Zpos mv * 2 ^ k) in *. assert (Z.abs (v * Zpos m2 - Zpos m1 * 2 ^ 53) <= 4 * Zpos m2) by nia. nia.
Qed.

(** ** Differences *)

(** A difference of mantissas, rounded: its magnitude. *)
Lemma round_near p e : -100 <= e <= 60 -> Zpos p < 2 ^ 300 ->
  exists mv ev, binary_round 53 1024 false p e = S754_finite false mv ev /\ normal mv /\
    e + Z.log2 (Zpos p) - 52 <= ev <= e + Z.log2 (Zpos p) - 51 /\ near (scaled mv ev) (scaled p e).
Proof.
  intros He Hp. set (l := Z.log2 (Zpos p)).
  assert (Hl : 0 <= l < 300) by (split; [apply Z.log2_nonneg|apply Z.log2_lt_pow2; lia]).
  pose proof (Z.log2_spec (Zpos p) ltac:(lia)) as Hs. fold l in Hs.
  unfold binary_round, shl_align. rewrite digits2_log2, fexp_normal by lia. fold l.
  destruct (Z.lt_ge_cases 52 l) as [Hw|Hf].
  - replace (l + 1 + e - 53 - e) with (l - 52) by lia. destruct (l - 52) as [|d|d] eqn:Ed; try lia.
    destruct (binary_round_wide (Zpos p) e (Z.to_nat (l - 53))) as (mv & ev & k' & -> & Hv & -> & Hk' & Hr); try lia.
    replace (Z.of_nat (S (Z.to_nat (l - 53)))) with (l - 52) in * by lia.
    exists mv, (e + (l - 52) + k'). split; [done|]. split; [done|]. split; [lia|]. unfold near, scaled.
    replace (Zpos mv * 2 ^ (e + (l - 52) + k' + 200)) with (Zpos mv * 2 ^ k' * 2 ^ (l - 52) * 2 ^ (e + 200))
      by (rewrite <- !Z.mul_assoc, <- !Z.pow_add_r by lia; f_equal; f_equal; lia).
    rewrite <- Z.mul_sub_distr_r, Z.abs_mul, (Z.abs_eq (2 ^ _)) by (apply Z.pow_nonneg; lia).
    rewrite Z.mul_assoc. apply Z.mul_le_mono_nonneg_r; [apply Z.pow_nonneg; lia|].
    set (x := Z.abs _) in *. assert (Hx : 2 ^ l = 2 ^ 52 * 2 ^ (l - 52)) by (rewrite <- Z.pow_add_r by lia; f_equal; lia). lia.
  - assert (Hm : exists mz, (match l + 1 + e - 53 - e with Zneg d => (Pos.iter xO p d, l + 1 + e - 53) | _ => (p, e) end) = (mz, e + (l - 52)) /\
      Zpos mz = Zpos p * 2 ^ (52 - l)).
    { destruct (l + 1 + e - 53 - e) as [|d|d] eqn:Ed; [|lia|].
      - exists p. split; [f_equal; lia|]. replace (52 - l) with 0 by lia. lia.
      - exists (Pos.iter xO p d). split; [f_equal; lia|]. rewrite pos_iter_xO. f_equal. f_equal. lia. }
    destruct Hm as (mz & -> & Emz).
    assert (Hn : normal mz).
    { unfold normal. rewrite Emz. replace (2 ^ 52) with (2 ^ l * 2 ^ (52 - l)) by (rewrite <- Z.pow_add_r; f_equal; lia).
      replace (2 ^ 53) with (2 ^ Z.succ l * 2 ^ (52 - l)) by (rewrite <- Z.pow_add_r; f_equal; lia).
      pose proof (Z.pow_pos_nonneg 2 (52 - l)). nia. }
    rewrite round_normal by (done || lia). exists mz, (e + (l - 52)). split; [done|]. split; [done|]. split; [lia|].
    unfold near, scaled. replace (Zpos mz * 2 ^ (e + (l - 52) + 200)) with (Zpos p * 2 ^ (e + 200)); [lia|].
    rewrite Emz, <- Z.mul_assoc, <- Z.pow_add_r by lia. f_equal. f_equal. lia.
Qed.

Lemma shl_align_fst m e ez : ez <= e -> Zpos (shl_align m e ez).1 = Zpos m * 2 ^ (e - ez).
Proof.
  intros He. unfold shl_align. destruct (ez - e) as [|d|d] eqn:E; [|lia|].
  - replace (e - ez) with 0 by lia. simpl. lia.
  - cbn [fst]. rewrite pos_iter_xO. f_equal. f_equal. lia.
Qed.

Lemma abs_round s p e : f64_abs (binary_round 53 1024 s p e) = f64_abs (binary_round 53 1024 false p e).
Proof.
  unfold binary_round, binary_round_aux. destruct (shl_align _ _ _) as [mz ez]. destruct (shr_fexp _ _ _ _ _) as [r e'].
  destruct (shr_fexp _ _ _ _ _) as [r2 e2]. destruct (shr_m r2); [done| |done]. by destruct (_ <=? _).
Qed.

Lemma f64_sub_near m1 e1 m2 e2 : normal m1 -> normal m2 -> -92 <= e1 <= 60 -> -92 <= e2 <= 60 ->
  let d := scaled m1 e1 - scaled m2 e2 in
  let x := f64_abs (f64_sub (S754_finite false m1 e1) (S754_finite false m2 e2)) in
  (d = 0 /\ x = S754_zero false) \/
  exists mv ev, x = S754_finite false mv ev /\ normal mv /\ -144 <= ev <= 62 /\ near (scaled mv ev) (Z.abs d) /\ 0 < Z.abs d.
Proof.
  intros H1 H2 He1 He2 d x. subst x. unfold f64_sub. cbn [SFsub cond_Zopp]. set (ez := Z.min e1 e2).
  rewrite !shl_align_fst by lia. set (y := Zpos m1 * 2 ^ (e1 - ez) - Zpos m2 * 2 ^ (e2 - ez)).
  assert (Hd : d = y * 2 ^ (ez + 200)).
  { subst d y. unfold scaled. rewrite Z.mul_sub_distr_r, <- !Z.mul_assoc, <- !Z.pow_add_r by lia. f_equal; f_equal; f_equal; lia. }
  assert (Hp : 0 < 2 ^ (ez + 200)) by (apply Z.pow_pos_nonneg; lia).
  destruct (Z.eq_dec y 0) as [->|Hy]; [left; split; [lia|done]|right].
  assert (Hlt : Z.abs y < 2 ^ (53 + (Z.max e1 e2 - ez))).
  { unfold normal in *. subst y. rewrite Z.pow_add_r by lia.
    assert (2 ^ (e1 - ez) <= 2 ^ (Z.max e1 e2 - ez)) by (apply Z.pow_le_mono_r; lia).
    assert (2 ^ (e2 - ez) <= 2 ^ (Z.max e1 e2 - ez)) by (apply Z.pow_le_mono_r; lia).
    assert (0 < 2 ^ (e1 - ez)) by (apply Z.pow_pos_nonneg; lia). assert (0 < 2 ^ (e2 - ez)) by (apply Z.pow_pos_nonneg; lia). nia. }
  assert (Hr : exists p, Zpos p = Z.abs y /\ f64_abs (binary_normalize 53 1024 y ez false) = f64_abs (binary_round 53 1024 false p ez)).
  { destruct y as [|p|p]; [done|exists p; split; [done|done]|exists p; split; [done|apply abs_round]]. }
  destruct Hr as (p & Ep & ->). rewrite <- Ep in Hlt.
  destruct (round_near p ez) as (mv & ev & -> & Hv & Hev & Hn); [lia| |].
  { eapply Z.lt_le_trans; [exact Hlt|]. apply Z.pow_le_mono_r; lia. }
  assert (Hl : 0 <= Z.log2 (Zpos p) < 53 + (Z.max e1 e2 - ez)) by (split; [apply Z.log2_nonneg|by apply Z.log2_lt_pow2]).
  assert (Habs : Z.abs d = scaled p ez) by (unfold scaled; rewrite Hd, Z.abs_mul, Ep, (Z.abs_eq (2 ^ _)); lia).
  exists mv, ev. split; [done|]. split; [done|]. split; [lia|]. rewrite Habs. split; [done|]. unfold scaled. lia.
Qed.

(** ** The rule *)

(** The rate [n / secs] of a count, as a scaled mantissa. *)
Lemma rate_near n secs : 0 < n < 2 ^ 40 -> 0 < secs < 2 ^ 40 ->
  exists m e, rate_of n secs = S754_finite false m e /\ normal m /\ -92 <= e <= -12 /\ near (scaled m e * secs) (n * 2 ^ 200).
Proof.
  intros Hn Hs. unfold rate_of. destruct (f64_of_Z_exact n) as (m1 & -> & N1 & E1); [lia|]. destruct (f64_of_Z_exact secs) as (m2 & -> & N2 & E2); [lia|].
  assert (L1 : 0 <= Z.log2 n < 40) by (split; [apply Z.log2_nonneg|apply Z.log2_lt_pow2; lia]).
  assert (L2 : 0 <= Z.log2 secs < 40) by (split; [apply Z.log2_nonneg|apply Z.log2_lt_pow2; lia]).
  destruct (f64_div_near m1 (Z.log2 n - 52) m2 (Z.log2 secs - 52)) as (m & e & -> & Hm & He & Hnear); [done|done|lia|lia|lia|].
  exists m, e. split; [done|]. split; [done|]. split; [lia|].
  assert (Es : forall x mx, Zpos mx = x * 2 ^ (52 - Z.log2 x) -> 0 <= Z.log2 x < 40 -> scaled mx (Z.log2 x - 52) = x * 2 ^ 200).
  { intros x mx Ex Hx. unfold scaled. rewrite Ex, <- Z.mul_assoc, <- Z.pow_add_r by lia. f_equal. f_equal. lia. }
  rewrite !Es in Hnear by done. unfold near in *. rewrite !Z.mul_assoc, <- Z.mul_sub_distr_r, Z.abs_mul in Hnear. lia.
Qed.

Lemma spread_limit_value : SPREAD_LIMIT = S754_finite false 7205759403792794 (-56).
Proof. by vm_compute. Qed.

(** Arithmetic core: [N / P] is the tail over the whole; [A], [B], [X], [Y] and
    [QB] are the scaled results of the roundings. *)
Lemma spread_decided N P A B X Y Q QB S C :
  S = 2 ^ 200 -> C = 7205759403792794 * 2 ^ 144 -> 0 < P < 2 ^ 44 -> 0 <= N ->
  near A (N * S) -> near B (P * S) -> X = Z.abs (A - B) -> near Y X -> QB = Q * B -> near QB (Y * S) ->
  (10 * Z.abs (N - P) < P -> Q <= C) /\ (P < 10 * Z.abs (N - P) -> C < Q).
Proof.
  unfold near. intros HS HC HP HN HA HB HX HY HQ HQB. assert (0 < B) by lia. split; intros H10.
  - destruct (Z.le_gt_cases Q C) as [|Hgt]; [done|exfalso]. assert (Hlt : (C + 1) * B <= QB) by nia. subst S C. lia.
  - destruct (Z.le_gt_cases Q C) as [Hle|]; [exfalso|done]. assert (Hlt : QB <= C * B) by nia. subst S C. lia.
Qed.

Lemma near_mul v x c : 0 <= c -> near v x -> near (v * c) (x * c).
Proof. unfold near. intros Hc H. rewrite <- Z.mul_sub_distr_r, Z.abs_mul, (Z.abs_eq c), Z.mul_assoc by done. by apply Z.mul_le_mono_nonneg_r. Qed.

Lemma rate_zero secs : 0 < secs < 2 ^ 40 -> rate_of 0 secs = S754_zero false.
Proof. intros Hs. unfold rate_of. destruct (f64_of_Z_exact secs) as (m & -> & _); [lia|]. done. Qed.

(** The quotient of a difference, compared with the limit. *)
Lemma limit_decided mw ew md ed : normal mw -> normal md -> -100 <= ew <= 0 -> -147 <= ed - ew -> -147 <= ed <= 62 ->
  exists q, near (q * scaled mw ew) (scaled md ed * 2 ^ 200) /\
    f64_le (f64_div (S754_finite false md ed) (S754_finite false mw ew)) SPREAD_LIMIT = (q <=? 7205759403792794 * 2 ^ 144).
Proof.
  intros Hw Hd He Hed Hde. destruct (f64_div_near md ed mw ew) as (mq & eq & -> & Hq & Heq & Hn); [done|done|lia|lia|done|].
  exists (scaled mq eq). split; [done|]. rewrite spread_limit_value. unfold f64_le, SFleb.
  rewrite compare_normal; [|done|unfold normal; lia|lia|lia].
  change (scaled 7205759403792794 (-56)) with (7205759403792794 * 2 ^ 144).
  destruct (Z.compare_spec (scaled mq eq) (7205759403792794 * 2 ^ 144)); symmetry; try (apply Z.leb_le; lia). apply Z.leb_gt. lia.
Qed.

(** The rule on the counts [whole] over [secs] and [tail] over [span] seconds. *)
Lemma sustained_decided whole secs tail span : 0 <= whole < 2 ^ 40 -> 0 < secs < 2 ^ 40 -> 0 <= tail < 2 ^ 40 -> 0 < span <= 10 ->
  let ok := sustained_ok (Some (rate_of whole secs)) (Some (rate_of tail span)) in
  let off := 10 * Z.abs (tail * secs - whole * span) in
  (0 < whole -> off < whole * span -> ok = true) /\ (ok = true -> 0 < whole /\ off <= whole * span).
Proof.
  intros Hw Hs Ht Hp ok off. subst ok off. cbn [sustained_ok]. destruct (Z.eq_dec whole 0) as [->|Hw0].
  { rewrite rate_zero by done. split; [lia|done]. }
  destruct (rate_near whole secs) as (mw & ew & -> & Nw & Ew & Cw); [lia|done|].
  assert (Hpos : f64_lt (f64_of_Z 0) (S754_finite false mw ew) = true) by done. rewrite Hpos. cbn [andb].
  apply (near_mul _ _ span) in Cw; [|lia].
  replace (scaled mw ew * secs * span) with (scaled mw ew * (secs * span)) in Cw by ring.
  replace (whole * 2 ^ 200 * span) with (whole * span * 2 ^ 200) in Cw by ring. set (c := secs * span) in *.
  assert (Hc : 0 < c) by nia.
  (* the float decides as [q <= 1/10] for the scaled quotient [q] *)
  assert (Hq : exists A Y Q, near A (tail * secs * 2 ^ 200) /\ near Y (Z.abs (A - scaled mw ew * c)) /\
    near (Q * (scaled mw ew * c)) (Y * 2 ^ 200) /\
    f64_le (f64_div (f64_abs (f64_sub (rate_of tail span) (S754_finite false mw ew))) (S754_finite false mw ew)) SPREAD_LIMIT =
      (Q <=? 7205759403792794 * 2 ^ 144)).
  { destruct (Z.eq_dec tail 0) as [->|Ht0].
    - rewrite rate_zero by lia. change (f64_abs _) with (S754_finite false mw ew).
      destruct (limit_decided mw ew mw ew) as (q & Hq & ->); [done|done|lia|lia|lia|].
      exists 0, (scaled mw ew * c), q. apply (near_mul _ _ c) in Hq; [|lia]. unfold near in *. split_and!; [lia| | |done].
      + assert (0 < scaled mw ew) by (unfold scaled; pose proof (Z.pow_pos_nonneg 2 (ew + 200)); lia). nia.
      + replace (q * (scaled mw ew * c)) with (q * scaled mw ew * c) by ring.
        by replace (scaled mw ew * c * 2 ^ 200) with (scaled mw ew * 2 ^ 200 * c) by ring.
    - destruct (rate_near tail span) as (ml & el & -> & Nl & El & Cl); [lia|lia|].
      apply (near_mul _ _ secs) in Cl; [|lia].
      replace (scaled ml el * span * secs) with (scaled ml el * c) in Cl by (unfold c; ring).
      replace (tail * 2 ^ 200 * secs) with (tail * secs * 2 ^ 200) in Cl by ring.
      assert (Ex : Z.abs (scaled ml el * c - scaled mw ew * c) = Z.abs (scaled ml el - scaled mw ew) * c)
        by (rewrite <- Z.mul_sub_distr_r, Z.abs_mul; lia).
      destruct (f64_sub_near ml el mw ew) as [[Hd ->]|(md & ed & -> & Nd & Ed & Cd & Hd)]; [done|done|lia|lia| |].
      + exists (scaled ml el * c), 0, 0. split_and!; [done|rewrite Ex, Hd; unfold near; lia|unfold near; lia|done].
      + destruct (limit_decided mw ew md ed) as (q & Hq & ->); [done|done|lia|lia|lia|].
        apply (near_mul _ _ c) in Hq, Cd; [|lia|lia]. exists (scaled ml el * c), (scaled md ed * c), q.
        split_and!; [done|by rewrite Ex| |done].
        replace (q * (scaled mw ew * c)) with (q * scaled mw ew * c) by ring.
        by replace (scaled md ed * c * 2 ^ 200) with (scaled md ed * 2 ^ 200 * c) by ring. }
  destruct Hq as (A & Y & Q & HA & HY & HQ & ->).
  destruct (spread_decided (tail * secs) (whole * span) A (scaled mw ew * c) (Z.abs (A - scaled mw ew * c)) Y Q
    (Q * (scaled mw ew * c)) (2 ^ 200) (7205759403792794 * 2 ^ 144) eq_refl eq_refl) as [Hlo Hhi]; [nia|nia|done|done|done|done|done|done|].
  rewrite Z.leb_le. split; [done|]. intros Hok. split; [lia|]. lia.
Qed.

(** A tail that is off by exactly a tenth: below it passes, above it does not. *)
Example exact_tenth :
  sustained_ok (Some (rate_of 10 10)) (Some (rate_of 9 10)) = true /\ sustained_ok (Some (rate_of 10 10)) (Some (rate_of 11 10)) = false.
Proof. by vm_compute. Qed.
