(* ===== verification/Percentile.v ===== *)
(** * Percentiles

    [percentile] of bench/src/analysis.rs reads nearest-rank percentiles off a
    histogram through a product of [f64]s.  For every histogram below [2^44]
    samples the answer is the exact nearest-rank percentile. *)

From S2P Require Import Prelude Text F64 Api Wire Recorder Generator Pacer RunRecord Analysis.
From Stdlib Require Import Sorting.Sorted Floats.SpecFloat.

(** Samples at or below [v], and the total, as unbounded integers. *)
Fixpoint cum (h : list (Z * Z)) (v : Z) : Z :=
  match h with [] => 0 | (x, c) :: h => (if x <=? v then c else 0) + cum h v end.
Definition samples (h : list (Z * Z)) : Z := sumZ h.*2.

(** What the recorder writes: ascending values of its range, counts that fit. *)
Record histogram_wf (h : list (Z * Z)) : Prop := {
  hw_sorted : StronglySorted Z.lt h.*1;
  hw_range : Forall (fun b => 1 <= b.1 <= LATENCY_BUCKET_MAX_NS) h;
  hw_fits : samples h < 2 ^ 64
}.

Definition counts_nonneg (h : list (Z * Z)) : Prop := Forall (fun b => 0 <= b.1 /\ 0 <= b.2) h.

Lemma samples_cons x c h : samples ((x, c) :: h) = c + samples h.
Proof. done. Qed.

Lemma samples_nonneg h : counts_nonneg h -> 0 <= samples h.
Proof. induction 1 as [|[x c] h Hx _ IH]; [done|]. rewrite samples_cons. simpl in Hx. lia. Qed.

Lemma cum_bounds h v : counts_nonneg h -> 0 <= cum h v <= samples h.
Proof.
  induction 1 as [|[x c] h Hx _ IH]; [done|]. rewrite samples_cons. simpl in *. destruct (x <=? v); lia.
Qed.

Lemma cum_above h v : Forall (fun x => v < x) h.*1 -> cum h v = 0.
Proof.
  induction h as [|[x c] h IH]; [done|]. intros Hh. apply Forall_cons in Hh as [Hx Hh]. simpl in *.
  rewrite (proj2 (Z.leb_gt x v)) by done. by rewrite IH.
Qed.

(** ** The bucket list check *)

Definition after (prev : option Z) (x : Z) : Prop := match prev with Some p => p < x | None => True end.

Lemma histogram_total_from_ok h : forall total prev t, counts_nonneg h -> 0 <= total ->
  histogram_total_from total prev h = Ok t <->
  (t = total + samples h /\ (h <> [] -> t < 2 ^ 64) /\ StronglySorted Z.lt h.*1 /\ Forall (after prev) h.*1
   /\ Forall (fun b => 1 <= b.1 <= LATENCY_BUCKET_MAX_NS) h).
Proof.
  induction h as [|[x c] h IH]; intros total prev t Hh Ht; cbn [histogram_total_from].
  - change (samples []) with 0. rewrite Z.add_0_r. split.
    + intros E. injection E as ->. split_and!; try done; constructor.
    + intros (-> & _). done.
  - apply Forall_cons in Hh as [[Hx0 Hc0] Hh]. pose proof (samples_nonneg h Hh) as Hs. rewrite samples_cons. cbn [fst snd] in *.
    destruct ((x =? 0) || (LATENCY_BUCKET_MAX_NS <? x)) eqn:E1.
    { split; [done|]. intros (_ & _ & _ & _ & Hr). apply Forall_cons in Hr as [Hr _]. cbn [fst] in Hr.
      apply orb_true_iff in E1 as [?|?]; zbool; lia. }
    apply orb_false_iff in E1 as [E1 E1']. zbool.
    destruct (match prev with Some p => x <=? p | None => false end) eqn:E2.
    { split; [done|]. intros (_ & _ & _ & Ha & _). apply Forall_cons in Ha as [Ha _].
      destruct prev; [|done]. simpl in Ha. zbool. lia. }
    assert (Hafter : after prev x) by (destruct prev; [simpl; zbool; lia|done]).
    destruct (Z.ltb_spec (total + c) (2 ^ 64)) as [Hlt|Hge].
    + rewrite (IH (total + c) (Some x) t Hh) by lia. cbn [fmap list_fmap fst].
      split.
      * intros (-> & Hfit & Hso & Ha & Hr). split_and!; try done; try lia.
        -- intros _. destruct h as [|b h]; [change (samples []) with 0; lia|]. specialize (Hfit ltac:(done)). lia.
        -- by constructor.
        -- constructor; [done|]. eapply Forall_impl; [exact Ha|]. intros y Hy. destruct prev; simpl in *; [lia|done].
        -- constructor; [simpl; lia|done].
      * intros (-> & Hfit & Hso & Ha & Hr). inversion Hso; subst. apply Forall_cons in Hr as [_ Hr].
        split_and!; try done; [lia|]. intros _. specialize (Hfit ltac:(done)). lia.
    + split; [done|]. intros (-> & Hfit & _). specialize (Hfit ltac:(done)). lia.
Qed.

(** [histogram_total] accepts exactly what the recorder writes, and adds it up. *)
Lemma histogram_total_ok h t : counts_nonneg h -> histogram_total h = Ok t <-> t = samples h /\ histogram_wf h.
Proof.
  intros Hh. unfold histogram_total. rewrite histogram_total_from_ok by done. rewrite Z.add_0_l. split.
  - intros (-> & Hfit & Hs & _ & Hr). split; [done|]. split; try done.
    destruct h; [done|]. by apply Hfit.
  - intros (-> & [Hs Hr Hf]). split_and!; try done. by apply Forall_forall.
Qed.

(** ** Ranks *)

Lemma value_at_rank_spec rank h : forall acc, counts_nonneg h -> StronglySorted Z.lt h.*1 -> 0 <= acc ->
  acc + samples h < 2 ^ 64 -> acc < rank <= acc + samples h ->
  exists v, value_at_rank rank acc h = Some v /\ v ∈ h.*1 /\ rank <= acc + cum h v
    /\ forall v', v' < v -> acc + cum h v' < rank.
Proof.
  induction h as [|[x c] h IH]; intros acc Hh Hs Hacc Hfit Hrank; [change (samples []) with 0 in *; lia|].
  apply Forall_cons in Hh as [[_ Hc0] Hh]. cbn [fmap list_fmap fst snd] in *.
  rewrite samples_cons in Hfit, Hrank. pose proof (samples_nonneg h Hh). inversion Hs as [|? ? Hs' Hx]; subst.
  cbn [value_at_rank]. assert (Hsat : sat_add 64 acc c = acc + c) by (unfold sat_add; lia). rewrite Hsat.
  destruct (Z.leb_spec rank (acc + c)).
  - exists x. split; [done|]. split; [left|]. cbn [cum]. rewrite Z.leb_refl. split.
    + pose proof (cum_bounds h x Hh). lia.
    + intros v' Hv'. rewrite (proj2 (Z.leb_gt x v')) by lia. rewrite cum_above; [lia|].
      eapply Forall_impl; [exact Hx|]. simpl. lia.
  - destruct (IH (acc + c)) as (v & E & Hin & Hge & Hlt); try done; try lia.
    exists v. split; [done|]. split; [by right|]. rewrite Forall_forall in Hx. pose proof (Hx v Hin).
    cbn [cum]. rewrite (proj2 (Z.leb_le x v)) by lia. split; [lia|]. intros v' Hv'.
    specialize (Hlt v' Hv'). destruct (x <=? v'); lia.
Qed.

(** [v] is the nearest-rank percentile [a/b] of [h]: the smallest value whose
    cumulative count reaches the share [a/b] of the samples. *)
Definition nearest_rank (a b : Z) (h : list (Z * Z)) (v : Z) : Prop :=
  v ∈ h.*1 /\ a * samples h <= b * cum h v /\ forall v', v' < v -> b * cum h v' < a * samples h.

Lemma nearest_rank_unique a b h v w : nearest_rank a b h v -> nearest_rank a b h w -> v = w.
Proof.
  intros (_ & Hv & Hv') (_ & Hw & Hw'). destruct (Z.lt_trichotomy v w) as [H|[H|H]]; [|done|].
  - specialize (Hw' v H). lia.
  - specialize (Hv' w H). lia.
Qed.

(** The quantiles the harness uses, and the fractions they stand for. *)
Inductive quantile_of : f64 -> Z -> Z -> Prop :=
| q_half : quantile_of P50 1 2
| q_99 : quantile_of P99 99 100
| q_max : quantile_of P100 1 1.

Lemma percentile_rank_exact q a b T : quantile_of q a b -> 0 < T < 2 ^ 44 ->
  percentile_rank T q = div_ceil (a * T) b /\ 0 < a <= b /\ 0 < div_ceil (a * T) b <= T.
Proof.
  intros Hq HT.
  assert (Hst : exists m s, q = S754_finite false m (- s) /\ stands_for m s a b).
  { destruct Hq; [exists 4503599627370496%positive, 53|exists 8917127262193582%positive, 53|exists 4503599627370496%positive, 52];
      (split; [by vm_compute|]); [exact stands_for_half|exact stands_for_99|exact stands_for_one]. }
  destruct Hst as (m & s & -> & Hst). destruct (sf_pos _ _ _ _ Hst). unfold percentile_rank.
  rewrite (ceil_product_exact _ _ _ _ _ Hst HT).
  assert (0 < div_ceil (a * T) b) by (apply div_ceil_lt; nia).
  assert (div_ceil (a * T) b <= T) by (apply div_ceil_spec; nia). split; [lia|]. lia.
Qed.

(** A well-formed, non-empty histogram has its percentile. *)
Lemma percentile_some q a b h : quantile_of q a b -> counts_nonneg h -> histogram_wf h -> 0 < samples h < 2 ^ 44 ->
  exists v, percentile h q = Some v /\ nearest_rank a b h v.
Proof.
  intros Hq Hn Hwf HT. destruct (percentile_rank_exact _ _ _ _ Hq HT) as (Er & Hab & Hr).
  destruct Hwf as [Hs Hrange Hfit]. unfold percentile.
  rewrite (proj2 (histogram_total_ok h (samples h) Hn)) by (split; [done|by split]).
  rewrite (proj2 (Z.eqb_neq _ _)) by lia. rewrite Er.
  destruct (value_at_rank_spec (div_ceil (a * samples h) b) h 0) as (v & -> & Hin & Hge & Hlt); try done; try lia.
  exists v. split; [done|]. split; [done|]. split.
  - apply div_ceil_spec in Hge; lia.
  - intros v' Hv'. specialize (Hlt v' Hv'). apply div_ceil_lt in Hlt; lia.
Qed.

Lemma percentile_none q h : counts_nonneg h -> ~ (histogram_wf h /\ 0 < samples h) -> percentile h q = None.
Proof.
  intros Hn Hbad. unfold percentile. destruct (histogram_total h) as [t|] eqn:E; [|done].
  apply histogram_total_ok in E as [-> Hwf]; [|done]. pose proof (samples_nonneg h Hn).
  destruct (Z.eqb_spec (samples h) 0); [done|]. exfalso. apply Hbad. split; [done|lia].
Qed.

(** (C38) Percentiles are exact: for a histogram of fewer than [2^44] samples
    the median, the 99th percentile and the maximum that [percentile] reads off
    through [f64] arithmetic are the nearest-rank percentiles of the samples,
    and it answers [None] exactly when the bucket list is empty of samples or
    is not one the recorder writes. *)
Theorem percentile_nearest_rank q a b h :
  quantile_of q a b -> counts_nonneg h -> samples h < 2 ^ 44 ->
  (forall v, percentile h q = Some v <-> histogram_wf h /\ 0 < samples h /\ nearest_rank a b h v)
  /\ (percentile h q = None <-> ~ (histogram_wf h /\ 0 < samples h)).
Proof.
  intros Hq Hn HT.
  assert (Hor : (histogram_wf h /\ 0 < samples h /\ exists v, percentile h q = Some v /\ nearest_rank a b h v)
    \/ (percentile h q = None /\ ~ (histogram_wf h /\ 0 < samples h))).
  { destruct (histogram_total h) as [t|e] eqn:E.
    - pose proof E as E'. apply histogram_total_ok in E' as [-> Hwf]; [|done]. pose proof (samples_nonneg h Hn).
      destruct (Z.eq_dec (samples h) 0) as [H0|H0].
      + right. assert (~ (histogram_wf h /\ 0 < samples h)) by lia. split; [by apply percentile_none|done].
      + left. split; [done|]. split; [lia|]. apply percentile_some; try done. lia.
    - right. assert (~ (histogram_wf h /\ 0 < samples h)).
      { intros [Hwf _]. by rewrite (proj2 (histogram_total_ok h (samples h) Hn)) in E. }
      split; [by apply percentile_none|done]. }
  destruct Hor as [(Hwf & Hpos & v & -> & Hv)|[-> Hbad]].
  - split; [|split; [done|by intros []]]. intros w. split.
    + intros E. by injection E as <-.
    + intros (_ & _ & Hw). f_equal. by eapply nearest_rank_unique.
  - split; [|done]. intros w. split; [done|]. intros (H1 & H2 & _). by destruct Hbad.
Qed.

(** Ten samples: the 99th percentile is the slowest bucket, the median the
    second. *)
Definition sample_histogram : list (Z * Z) := [(100, 4); (200, 5); (900, 1)].

Lemma percentile_nearest_rank_witness :
  percentile sample_histogram P99 = Some 900 /\ nearest_rank 99 100 sample_histogram 900.
Proof.
  split; [by vm_compute|].
  destruct (percentile_nearest_rank P99 99 100 sample_histogram q_99) as [H _].
  - unfold counts_nonneg, sample_histogram. repeat constructor; simpl; lia.
  - by vm_compute.
  - apply H. by vm_compute.
Defined.

(** Above [2^53] samples the sample count itself is rounded: the rank of the
    maximum can exceed the count, and a well-formed histogram has no maximum. *)
Lemma percentile_max_lost :
  histogram_wf [(1, 2 ^ 53 + 3)] /\ 0 < samples [(1, 2 ^ 53 + 3)] /\ percentile [(1, 2 ^ 53 + 3)] P100 = None.
Proof.
  split; [|split; by vm_compute]. split; [by repeat constructor| |by vm_compute].
  repeat constructor; by vm_compute.
Qed.
