(* ===== verification/Validity.v ===== *)
(** * What a valid record certifies

    [reconcile] of bench/src/analysis.rs is a list of rows over machine
    integers, saturating sums and [f64] comparisons.  [contract] states the
    same rules in exact arithmetic; a record whose summary recomputes is marked
    valid exactly when it satisfies the contract. *)

From S2P Require Import Prelude Text F64 Api Wire Recorder Generator Pacer RunRecord Analysis Rates Percentile.
From Stdlib Require Import Floats.SpecFloat.

(** ** The contract *)

(** Every kind: clean counters, deliveries that add up, a consistent window. *)
Record accounted (r : RunRecord) : Prop := {
  ac_duplicates : c_duplicates (r_counts r) = 0;
  ac_foreign : c_foreign (r_counts r) = 0;
  ac_over_range : c_latency_over_range (r_counts r) = 0;
  ac_anomalies : c_clock_anomalies (r_counts r) = 0;
  ac_connect : g_connect (r_generator_errors r) = 0;
  ac_protocol : g_protocol (r_generator_errors r) = 0;
  ac_stalled : g_stalled (r_generator_errors r) = 0;
  ac_timeline : sumZ (counts (r_timeline r)) = c_delivered (r_counts r);
  ac_origin : r_origin_ns r mod ONE_SECOND_NS = 0;
  ac_start : start_ns (r_window r) = r_origin_ns r + r_warmup_secs r * ONE_SECOND_NS;
  ac_end : end_ns (r_window r) = start_ns (r_window r) + r_window_secs r * ONE_SECOND_NS;
  ac_span : 0 < r_window_secs r;
  ac_harness : r_harness_errors r = [];
  ac_driver : r_server r = Uring -> r_driver r = Some {| io_uring_fds := r_workers r; eventpoll_fds := 0 |}
}.

(** Publishing kinds: every offered publish was delivered, none dropped, and
    acknowledged at QoS 1. *)
Record published (r : RunRecord) : Prop := {
  pb_delivered : c_delivered (r_counts r) = c_offered (r_counts r);
  pb_dropped : default 0 (c_dropped (r_counts r)) = 0;
  pb_acked : r_qos r = Some 1 -> c_acked (r_counts r) = Some (c_offered (r_counts r))
}.

(** Open-loop kinds at [rate] with [slots] slots in the window and latency
    histogram [h]: the schedule was kept, sampled completely and in time. *)
Record paced (r : RunRecord) (rate slots : Z) (h : list (Z * Z)) : Prop := {
  pc_rate : r_offered_rate r = Some rate;
  pc_scheduled : c_scheduled (r_counts r) = Some (c_offered (r_counts r));
  pc_offered : c_offered (r_counts r) = div_ceil ((slot_grid_end_ns (r_window r) - r_origin_ns r) * rate) NS;
  pc_window : c_window_scheduled (r_counts r) = Some slots;
  pc_slots : slots = c_offered (r_counts r) - div_ceil ((start_ns (r_window r) - r_origin_ns r) * rate) NS;
  pc_missed : g_missed_slots (r_generator_errors r) = 0;
  pc_late_range : g_lateness_over_range (r_generator_errors r) = 0;
  pc_histogram : exists s, r_latency_ns r = Some s /\ histogram s = h;
  pc_samples : histogram_wf h /\ samples h = slots;
  pc_lateness : histogram_wf (r_lateness r) /\ samples (r_lateness r) = slots;
  pc_generator : exists late lat, nearest_rank 99 100 (r_lateness r) late /\ nearest_rank 99 100 h lat /\ 10 * late <= lat;
  pc_last_write : exists t, r_last_write_start_ns r = Some t /\ t < end_ns (r_window r);
  pc_steady : 20 * (slots - window_deliveries r) <= rate
}.

(** The counted kind: the counter covered the window and ended cleanly. *)
Record counted (r : RunRecord) : Prop := {
  ct_count : is_Some (derive_syscall_count (r_syscalls r));
  ct_enabled : exists e, y_enabled_ns (r_syscalls r) = Some e /\ Z.abs (e - start_ns (r_window r)) <= 10000000;
  ct_disabled : exists e, y_disabled_ns (r_syscalls r) = Some e /\ Z.abs (e - end_ns (r_window r)) <= 10000000;
  ct_exit : y_exit (r_syscalls r) = Some (ExitCode 0) \/ y_exit (r_syscalls r) = Some (ExitSignal 2);
  ct_deliveries : 0 < window_deliveries r
}.

(** The throughput kind: deliveries in the window, and a rate over its last ten
    seconds (or all of it) that is within a tenth of the whole window's, with
    both quotients cross-multiplied.  Where the tail is off by exactly a tenth
    the roundings of the [f64] comparison decide. *)
Definition tail_secs (r : RunRecord) : Z := Z.min 10 (r_window_secs r).
Definition tail_deliveries (r : RunRecord) : Z :=
  sum_secs (r_timeline r) (end_sec (r_window r) - tail_secs r) (end_sec (r_window r)).
Record steady_tail (r : RunRecord) : Prop := {
  sd_delivered : 0 < window_deliveries r;
  sd_tail : let off := 10 * Z.abs (tail_deliveries r * r_window_secs r - window_deliveries r * tail_secs r) in
    let limit := window_deliveries r * tail_secs r in
    off < limit \/ off = limit /\ sustained_ok (r_throughput r) (r_last10s r) = true
}.

Definition contract (r : RunRecord) : Prop :=
  accounted r
  /\ (publishes r = true -> published r)
  /\ (open_loop r = true -> exists rate slots h, paced r rate slots h)
  /\ (r_kind r = KCounted -> counted r)
  /\ (r_kind r = KThroughput -> steady_tail r)
  /\ (r_kind r = KConnections -> exists c, r_cycles_in_window r = Some c /\ 0 < c).

(** The types of the fields: unsigned integers of their width. *)
Definition opt_u64 (o : option Z) : Prop := match o with Some n => u64 n | None => True end.
Definition hist_typed (h : list (Z * Z)) : Prop := Forall (fun b => u64 b.1 /\ u64 b.2) h.

Record record_typed (r : RunRecord) : Prop := {
  ty_window : u64 (start_ns (r_window r)) /\ u64 (end_ns (r_window r)) /\ u64 (r_origin_ns r);
  ty_secs : u64 (r_warmup_secs r) /\ u64 (r_window_secs r);
  ty_timeline : Forall u64 (counts (r_timeline r)) /\ u64 (origin_sec (r_timeline r));
  ty_counts : u64 (c_offered (r_counts r)) /\ u64 (c_delivered (r_counts r)) /\ opt_u64 (c_dropped (r_counts r))
    /\ opt_u64 (c_window_scheduled (r_counts r)) /\ opt_u64 (c_scheduled (r_counts r));
  ty_rate : opt_u64 (r_offered_rate r);
  ty_cycles : opt_u64 (r_cycles_in_window r);
  ty_latency : match r_latency_ns r with Some s => hist_typed (histogram s) | None => True end;
  ty_lateness : hist_typed (r_lateness r);
  ty_over_range : u64 (g_lateness_over_range (r_generator_errors r))
}.

(** The sizes within which the [f64] comparisons are exact: slots, deliveries
    and seconds of a window. *)
Record within_f64 (r : RunRecord) : Prop := {
  wf_slots : default 0 (c_window_scheduled (r_counts r)) < 2 ^ 44;
  wf_delivered : c_delivered (r_counts r) < 2 ^ 40;
  wf_secs : r_window_secs r < 2 ^ 40
}.

(** ** Rows *)

Lemma reason_nil b t : reason b t = [] <-> b = false.
Proof. by destruct b. Qed.

Lemma negb_decide (P : Prop) `{Decision P} : negb (bool_decide P) = false <-> P.
Proof. rewrite negb_false_iff. apply bool_decide_eq_true. Qed.

Lemma negb_eqb a b : negb (a =? b) = false <-> a = b.
Proof. rewrite negb_false_iff. apply Z.eqb_eq. Qed.

Lemma andb_guard a b : a && b = false <-> (a = true -> b = false).
Proof. destruct a; naive_solver. Qed.

Ltac row := unfold row1, row2, row3, row4, row5, row6, row8, row9, row10, row11, row12, row13, row14, row16, row17,
    row19, row20, row21, row22, row23, row30;
  rewrite ?reason_nil, ?andb_guard, ?negb_eqb, ?negb_decide.

Lemma hist_typed_nonneg h : hist_typed h -> counts_nonneg h.
Proof. intros H. eapply Forall_impl; [exact H|]. unfold u_range. intros b []. lia. Qed.

Lemma checked_sum_iff l : forall t, Forall u64 l -> 0 <= t ->
  forall s, checked_sum t l = Some s <-> s = t + sumZ l /\ (l = [] \/ t + sumZ l < 2 ^ 64).
Proof.
  induction l as [|c l IH]; intros t Hl Ht s; cbn [checked_sum sumZ foldr].
  - rewrite Z.add_0_r. naive_solver.
  - apply Forall_cons in Hl as [Hc Hl]. unfold u_range in Hc.
    assert (0 <= sumZ l) by (clear -Hl; unfold sumZ; induction Hl as [|x l Hx _ IH']; unfold u_range in *; simpl; lia).
    destruct (Z.ltb_spec (t + c) (2 ^ 64)).
    + rewrite IH by (done || lia). unfold sumZ in *. split.
      * intros [-> [->|?]]; (split; [simpl; lia|]); right; simpl; lia.
      * intros [-> [?|?]]; [done|]. split; [lia|]. right. lia.
    + split; [done|]. intros [_ [?|?]]; [done|]. unfold sumZ in *. lia.
Qed.

Lemma row29_nil r : record_typed r -> row29 r = [] <-> sumZ (counts (r_timeline r)) = c_delivered (r_counts r).
Proof.
  intros [_ _ [Htl _] (_ & Hd & _) _ _ _ _ _]. unfold row29, Timeline_total.
  assert (Hspec := checked_sum_iff (counts (r_timeline r)) 0 Htl ltac:(lia)). unfold u_range in Hd.
  destruct (checked_sum 0 (counts (r_timeline r))) as [t|] eqn:E.
  - destruct (proj1 (Hspec t) eq_refl) as [-> _]. rewrite reason_nil, negb_eqb, Z.add_0_l. done.
  - split; [done|]. intros Hs. enough (None = Some (sumZ (counts (r_timeline r)))) by done.
    apply Hspec. split; [lia|]. right. lia.
Qed.

Lemma boundary_some base secs x : 0 <= base -> 0 <= secs -> u64 x ->
  boundary base secs = Some x <-> x = base + secs * ONE_SECOND_NS.
Proof.
  unfold u_range, boundary, ONE_SECOND_NS. intros Hb Hs Hx.
  destruct (Z.ltb_spec (secs * 1000000000) (2 ^ 64)); [destruct (Z.ltb_spec (base + secs * 1000000000) (2 ^ 64))|];
    (split; [intros; simplify_eq|intros ->]); try done; lia.
Qed.

Lemma row26_nil r : record_typed r -> row26 r = [] <->
  r_origin_ns r mod ONE_SECOND_NS = 0
  /\ start_ns (r_window r) = r_origin_ns r + r_warmup_secs r * ONE_SECOND_NS
  /\ end_ns (r_window r) = start_ns (r_window r) + r_window_secs r * ONE_SECOND_NS /\ 0 < r_window_secs r.
Proof.
  intros [(Hs & He & Ho) (Hw & Hn) _ _ _ _ _ _ _]. unfold row26.
  rewrite reason_nil, !orb_false_iff, !negb_false_iff, andb_true_iff, !bool_decide_eq_true, Z.eqb_eq, Z.ltb_lt.
  unfold u_range in *. rewrite !boundary_some by (done || lia). unfold ONE_SECOND_NS. split; intros; lia.
Qed.

Lemma row20_nil r : record_typed r -> row20 r = [] <->
  (r_kind r = KConnections -> exists c, r_cycles_in_window r = Some c /\ 0 < c).
Proof.
  intros [_ _ _ _ _ Hc _ _ _]. row. rewrite bool_decide_eq_true, Z.eqb_neq.
  destruct (r_cycles_in_window r) as [c|]; simpl in *; unfold u_range in *; [|naive_solver].
  split; intros H K; specialize (H K); [|naive_solver lia]. exists c. split; [done|lia].
Qed.

(** ** Open-loop rows *)

(** The schedule the rows recompute, without saturation. *)
Lemma slot_counts_plain rate origin w :
  u64 rate -> u64 origin -> u64 (end_ns w) -> origin <= start_ns w -> start_ns w <= end_ns w ->
  let S := div_ceil ((slot_grid_end_ns w - origin) * rate) NS in
  let S0 := div_ceil ((start_ns w - origin) * rate) NS in
  scheduled_slots rate origin w = S /\ 0 <= S0 <= S
  /\ (S < 2 ^ 64 -> slot_counts rate origin w = Some (S, S - S0)).
Proof.
  intros Hr Ho He Hos Hse S S0. unfold u_range in *.
  assert (Hg : start_ns w <= slot_grid_end_ns w <= end_ns w).
  { unfold slot_grid_end_ns, sat_sub, SLOT_GRID_END_LEAD_NS. lia. }
  assert (Hm : forall x, 0 <= x < 2 ^ 64 -> sat_mul 128 x rate = x * rate) by (intros; unfold sat_mul; nia).
  assert (Hsub : forall x, origin <= x -> sat_sub x origin = x - origin) by (intros; unfold sat_sub; lia).
  unfold scheduled_slots, slot_counts. rewrite !Hsub, !Hm by lia. fold S S0.
  assert (HS : 0 <= S0 <= S).
  { unfold S0, S, div_ceil, NS. split; [apply Z.div_pos; nia|]. apply Z.div_le_mono; nia. }
  split; [done|]. split; [done|]. intros HS'.
  by rewrite !(proj2 (Z.leb_gt _ _)), (proj2 (Z.ltb_ge _ _)) by lia.
Qed.

Lemma row27_nil r : record_typed r -> open_loop r = true -> accounted r ->
  row27 r = Some [] <-> exists rate, r_offered_rate r = Some rate
    /\ c_scheduled (r_counts r) = Some (div_ceil ((slot_grid_end_ns (r_window r) - r_origin_ns r) * rate) NS)
    /\ c_window_scheduled (r_counts r) =
       Some (div_ceil ((slot_grid_end_ns (r_window r) - r_origin_ns r) * rate) NS
             - div_ceil ((start_ns (r_window r) - r_origin_ns r) * rate) NS).
Proof.
  intros T Ho A. destruct (ty_window r T) as (Hs & He & Hor), (ty_secs r T) as [Hw _].
  assert (Hos : r_origin_ns r <= start_ns (r_window r)).
  { rewrite (ac_start r A). unfold u_range, ONE_SECOND_NS in *. lia. }
  assert (Hse : start_ns (r_window r) <= end_ns (r_window r)).
  { rewrite (ac_end r A). pose proof (ac_span r A). unfold ONE_SECOND_NS in *. lia. }
  unfold row27. rewrite Ho. pose proof (ty_rate r T) as Hrate. destruct (r_offered_rate r) as [rate|]; [|naive_solver].
  rewrite (proj2 (Z.ltb_ge _ _)) by lia.
  destruct (slot_counts_plain rate (r_origin_ns r) (r_window r)) as (-> & HS & Hc); [done..|].
  destruct (Z.leb_spec (2 ^ 64) (div_ceil ((slot_grid_end_ns (r_window r) - r_origin_ns r) * rate) NS)) as [Hbig|Hfit].
  - split; [done|]. intros (rate' & E & Esch & _). injection E as <-.
    destruct (ty_counts r T) as (_ & _ & _ & _ & Hu). rewrite Esch in Hu. unfold opt_u64, u_range in Hu. lia.
  - rewrite Hc by done. split.
    + intros E. injection E as E. rewrite reason_nil, negb_false_iff, andb_true_iff, !bool_decide_eq_true in E. naive_solver.
    + intros (rate' & E & Esch & Ewin). injection E as <-. f_equal.
      apply reason_nil, negb_false_iff, andb_true_iff. by rewrite !bool_decide_eq_true.
Qed.

Lemma row15_nil r s w : open_loop r = true -> r_latency_ns r = Some s -> hist_typed (histogram s) ->
  c_window_scheduled (r_counts r) = Some w ->
  row15 r = [] <-> histogram_wf (histogram s) /\ samples (histogram s) = w.
Proof.
  intros Ho El Ht E. unfold row15. rewrite Ho, El. apply hist_typed_nonneg in Ht.
  pose proof (histogram_total_ok (histogram s)) as Hok. destruct (histogram_total (histogram s)) as [t|e].
  - destruct (proj1 (Hok t Ht) eq_refl) as [-> Hwf]. rewrite reason_nil, negb_eqb, E. naive_solver.
  - split; [done|]. intros [Hwf _]. by specialize (proj2 (Hok _ Ht) (conj eq_refl Hwf)).
Qed.

Lemma row25_nil r w : record_typed r -> open_loop r = true -> g_lateness_over_range (r_generator_errors r) = 0 ->
  c_window_scheduled (r_counts r) = Some w ->
  row25 r = [] <-> histogram_wf (r_lateness r) /\ samples (r_lateness r) = w.
Proof.
  intros T Ho Hz E. unfold row25. rewrite Ho. pose proof (hist_typed_nonneg _ (ty_lateness r T)) as Hn.
  pose proof (histogram_total_ok (r_lateness r)) as Hok. pose proof (samples_nonneg _ Hn).
  destruct (histogram_total (r_lateness r)) as [t|e].
  - destruct (proj1 (Hok t Hn) eq_refl) as [-> Hwf]. rewrite reason_nil, negb_eqb, E, Hz.
    pose proof (hw_fits _ Hwf). unfold sat_add. rewrite Z.add_0_r, Z.min_r by lia. naive_solver.
  - split; [done|]. intros [Hwf _]. by specialize (proj2 (Hok _ Hn) (conj eq_refl Hwf)).
Qed.

(** Row 18 compares in [f64]; within the recorder's range the comparison is
    the exact one. *)
Lemma lateness_exceeds_exact p p99 : 0 <= p < 2 ^ 53 -> 0 < p99 < 2 ^ 44 -> lateness_exceeds p p99 = (p99 <? 10 * p).
Proof.
  intros Hp H99. unfold lateness_exceeds. change GENERATOR_LATENESS_FRACTION with (S754_finite false 7205759403792794 (- (56))).
  rewrite (product_lt_exact _ _ _ _ _ _ stands_for_10th) by done. f_equal; lia.
Qed.

Lemma wf_value h v : histogram_wf h -> v ∈ h.*1 -> 1 <= v <= LATENCY_BUCKET_MAX_NS.
Proof.
  intros [_ Hr _] Hin. apply list_elem_of_fmap in Hin as (b & -> & Hb). rewrite Forall_forall in Hr. by apply Hr.
Qed.

Lemma row18_nil r s w : record_typed r -> open_loop r = true -> w < 2 ^ 44 ->
  r_latency_ns r = Some s -> p99 s = default 0 (percentile (histogram s) P99) ->
  r_lateness_p99_ns r = percentile (r_lateness r) P99 ->
  histogram_wf (histogram s) -> samples (histogram s) = w ->
  histogram_wf (r_lateness r) -> samples (r_lateness r) = w ->
  row18 r = [] <-> exists late lat, nearest_rank 99 100 (r_lateness r) late /\ nearest_rank 99 100 (histogram s) lat
                     /\ 10 * late <= lat.
Proof.
  intros T Ho Hw El Ep Eq Hwf Hs Hwf' Hs'. unfold row18. rewrite Ho, El, Eq, Ep.
  pose proof (hist_typed_nonneg _ (ty_lateness r T)) as Hn'. pose proof (ty_latency r T) as Hn. rewrite El in Hn.
  apply hist_typed_nonneg in Hn. pose proof (samples_nonneg _ Hn). destruct (Z.eq_dec w 0) as [->|Hw0].
  - rewrite percentile_none by (done || lia). split; [done|]. intros (late & lat & (_ & H1 & H2) & _).
    specialize (H2 (late - 1) ltac:(lia)). pose proof (cum_bounds _ (late - 1) Hn'). lia.
  - destruct (percentile_some _ _ _ _ q_99 Hn' Hwf') as (late & -> & Hlate); [lia|].
    destruct (percentile_some _ _ _ _ q_99 Hn Hwf) as (lat & -> & Hlat); [lia|]. cbn [default from_option id].
    pose proof (wf_value _ _ Hwf (proj1 Hlat)). pose proof (wf_value _ _ Hwf' (proj1 Hlate)). unfold LATENCY_BUCKET_MAX_NS in *.
    rewrite reason_nil, lateness_exceeds_exact, Z.ltb_ge by lia. split; [by exists late, lat|].
    intros (late' & lat' & Hlate' & Hlat' & Hle). by rewrite (nearest_rank_unique _ _ _ _ _ Hlate Hlate'), (nearest_rank_unique _ _ _ _ _ Hlat Hlat').
Qed.

Lemma row24_nil r : open_loop r = true -> row24 r = [] <->
  exists t, r_last_write_start_ns r = Some t /\ t < end_ns (r_window r).
Proof.
  intros Ho. unfold row24. rewrite Ho. destruct (r_last_write_start_ns r) as [t|]; [|naive_solver].
  rewrite reason_nil, Z.leb_gt. naive_solver.
Qed.

Lemma row31_nil r rate w : open_loop r = true -> r_offered_rate r = Some rate -> 0 <= rate ->
  c_window_scheduled (r_counts r) = Some w ->
  row31 r = [] <-> 20 * (w - window_deliveries r) <= rate.
Proof.
  intros Ho Er Hr Ew. unfold row31, steady_state_reason, steady_growth. unfold open_loop in Ho. rewrite Ho, Er, Ew. cbn [negb].
  destruct (Z.leb_spec (sat_sub w (window_deliveries r) * ONE_SECOND_NS) (STEADY_STATE_GROWTH_LIMIT_NS * rate));
    unfold sat_sub, ONE_SECOND_NS, STEADY_STATE_GROWTH_LIMIT_NS in *; (split; [try done|try done]); lia.
Qed.

(** Rows that read the open-loop observations, together. *)
Definition open_rows_nil (r : RunRecord) : Prop :=
  row1 r = [] /\ row11 r = [] /\ row14 r = [] /\ row15 r = [] /\ row18 r = [] /\ row21 r = [] /\ row24 r = []
  /\ row25 r = [] /\ row27 r = Some [] /\ row31 r = [].

Definition open_summary_ok (r : RunRecord) : Prop :=
  r_latency_ns r = d_latency_ns (derive r) /\ r_lateness_p99_ns r = d_lateness_p99_ns (derive r).

Lemma open_summary_p99 r s : open_summary_ok r -> open_loop r = true -> r_latency_ns r = Some s ->
  p99 s = default 0 (percentile (histogram s) P99).
Proof.
  intros [El _] Ho Es. unfold derive in El. cbn [d_latency_ns] in El. unfold open_loop in Ho. rewrite Ho, Es in El.
  injection El as El. by rewrite El at 1.
Qed.

Lemma open_rows_paced r : record_typed r -> open_loop r = true -> accounted r -> open_summary_ok r ->
  default 0 (c_window_scheduled (r_counts r)) < 2 ^ 44 ->
  open_rows_nil r <-> exists rate slots h, paced r rate slots h.
Proof.
  intros T Ho A Sum Hb. unfold open_rows_nil. rewrite row27_nil, row24_nil by done. row. rewrite Ho.
  destruct Sum as [El Ep]. assert (Hsum : open_summary_ok r) by done.
  split.
  - intros (H1 & H11 & H14 & H15 & H18 & H21 & (t & Et & Ht) & H25 & (rate & Er & Esch & Ewin) & H31).
    specialize (H1 eq_refl). specialize (H11 eq_refl). specialize (H14 eq_refl). specialize (H21 eq_refl).
    apply bool_decide_eq_false in H14. destruct (r_latency_ns r) as [s|] eqn:Es; [|done].
    pose proof (ty_latency r T) as Hty. rewrite Es in Hty. rewrite Ewin in Hb. cbn [default from_option id] in Hb.
    pose proof (ty_rate r T) as Hrate. rewrite Er in Hrate. unfold opt_u64, u_range in Hrate.
    rewrite (row15_nil r s _ Ho Es Hty Ewin) in H15. rewrite (row25_nil r _ T Ho H21 Ewin) in H25.
    destruct H15 as [Hwf Hs], H25 as [Hwf' Hs'].
    rewrite (row18_nil r s _ T Ho Hb Es (open_summary_p99 r s Hsum Ho Es) Ep Hwf Hs Hwf' Hs') in H18.
    rewrite (row31_nil r rate _ Ho Er ltac:(lia) Ewin) in H31.
    rewrite H1 in Esch. injection Esch as Eoff. eexists rate, _, (histogram s). split; try done.
    + by rewrite Eoff.
    + by exists s.
    + by exists t.
  - intros (rate & slots & h & [Hr Hsch Hoff Hwin Hslots Hmiss Hlr (s & Es & <-) [Hwf Hs] [Hwf' Hs'] Hgen (t & Et & Ht) Hst]).
    pose proof (ty_latency r T) as Hty. rewrite Es in Hty. rewrite Hwin in Hb. cbn [default from_option id] in Hb.
    pose proof (ty_rate r T) as Hrate. rewrite Hr in Hrate. unfold opt_u64, u_range in Hrate.
    rewrite (row15_nil r s _ Ho Es Hty Hwin), (row25_nil r _ T Ho Hlr Hwin).
    rewrite (row18_nil r s _ T Ho Hb Es (open_summary_p99 r s Hsum Ho Es) Ep Hwf Hs Hwf' Hs').
    rewrite (row31_nil r rate _ Ho Hr ltac:(lia) Hwin), Es. split_and!; try done.
    + by exists t.
    + exists rate. rewrite Hsch, Hwin, Hslots, Hoff. done.
Qed.

(** ** Counter rows *)

Lemma counter_exit_ok_spec r : counter_exit_ok r = true <->
  y_exit (r_syscalls r) = Some (ExitCode 0) \/ y_exit (r_syscalls r) = Some (ExitSignal 2).
Proof.
  unfold counter_exit_ok, SIGINT. destruct (y_exit _) as [[c|s]|]; rewrite ?Z.eqb_eq; naive_solver.
Qed.

Lemma counter_boundaries_spec r : counter_boundaries_off r = false <->
  (exists e, y_enabled_ns (r_syscalls r) = Some e /\ Z.abs (e - start_ns (r_window r)) <= 10000000)
  /\ exists e, y_disabled_ns (r_syscalls r) = Some e /\ Z.abs (e - end_ns (r_window r)) <= 10000000.
Proof.
  unfold counter_boundaries_off, COUNTER_BOUNDARY_TOLERANCE_NS. rewrite orb_false_iff.
  destruct (y_enabled_ns _) as [e|], (y_disabled_ns _) as [d|]; rewrite ?Z.ltb_ge; naive_solver.
Qed.

Definition counter_rows_nil (r : RunRecord) : Prop := row19 r = [] /\ row22 r = [] /\ row23 r = [] /\ row30 r = [].

Lemma sum_secs_nonneg tl a b : Forall u64 (counts tl) -> 0 <= sum_secs tl a b.
Proof.
  intros Ht. unfold sum_secs. case_match; [done|].
  assert (forall l acc, 0 <= acc -> Forall u64 l -> 0 <= foldl (sat_add 64) acc l) as Hf.
  { induction l as [|c l IH]; intros acc Hacc Hl; [done|]. apply Forall_cons in Hl as [Hc Hl]. simpl. apply IH; [|done].
    unfold sat_add, u_range in *. lia. }
  apply Hf; [done|]. unfold slice. apply Forall_take, Forall_drop, Ht.
Qed.

Lemma counter_rows_spec r : record_typed r -> y_count (r_syscalls r) = d_syscall_count (derive r) ->
  counter_rows_nil r <-> (r_kind r = KCounted -> counted r).
Proof.
  intros T E. unfold counter_rows_nil. row. unfold is_counted_syscall_run.
  rewrite !bool_decide_eq_true, bool_decide_eq_false, negb_false_iff, Z.eqb_neq, counter_exit_ok_spec, counter_boundaries_spec, E.
  change (d_syscall_count (derive r)) with (derive_syscall_count (r_syscalls r)).
  pose proof (sum_secs_nonneg (r_timeline r) (start_sec (r_window r)) (end_sec (r_window r)) (proj1 (ty_timeline r T))) as Hw.
  change (sum_secs _ _ _) with (window_deliveries r) in Hw.
  split.
  - intros (H19 & H22 & H23 & H30) K. specialize (H19 K). specialize (H22 K). specialize (H23 K). specialize (H30 K).
    destruct H22. split; try done; [|lia]. by destruct (derive_syscall_count _).
  - intros H. split_and!; intros K; destruct (H K); try done; [|lia]. by destruct ct_count0 as [? ->].
Qed.

(** ** Assembly *)

Definition all_rows_nil (r : RunRecord) : Prop :=
  (row4 r = [] /\ row5 r = [] /\ row8 r = [] /\ row9 r = [] /\ row10 r = [] /\ row12 r = [] /\ row16 r = []
   /\ row17 r = [] /\ row26 r = [] /\ row28 r = [] /\ row29 r = [])
  /\ (row2 r = [] /\ row3 r = [] /\ row6 r = [] /\ row13 r = [])
  /\ open_rows_nil r /\ counter_rows_nil r /\ row7 r = [] /\ row20 r = [].

Lemma reconcile_nil r : reconcile r = Some [] <-> all_rows_nil r.
Proof.
  unfold reconcile, all_rows_nil, open_rows_nil, counter_rows_nil. destruct (row27 r) as [rows|].
  - split.
    + intros E. injection E as E. rewrite !app_nil in E. destruct_and! E. split_and!; try done. by f_equal.
    + intros H. destruct_and! H. f_equal. rewrite !app_nil. split_and!; try done. congruence.
  - split; [done|]. intros H. by destruct_and! H.
Qed.

Lemma accounted_rows r : record_typed r ->
  (row4 r = [] /\ row5 r = [] /\ row8 r = [] /\ row9 r = [] /\ row10 r = [] /\ row12 r = [] /\ row16 r = []
   /\ row17 r = [] /\ row26 r = [] /\ row28 r = [] /\ row29 r = []) <-> accounted r.
Proof.
  intros T. rewrite row26_nil, row29_nil by done. row. rewrite bool_decide_eq_true. unfold row28. split.
  - intros H. destruct_and! H. by split.
  - intros []. split_and!; done.
Qed.

Lemma published_rows r : record_typed r -> c_unresolved (r_counts r) = d_unresolved (derive r) ->
  (row2 r = [] /\ row3 r = [] /\ row6 r = [] /\ row13 r = []) <-> (publishes r = true -> published r).
Proof.
  intros T E. destruct (ty_counts r T) as (Ho & Hd & Hdr & _). unfold derive in E. cbn [d_unresolved] in E.
  assert (Hdr0 : u64 (default 0 (c_dropped (r_counts r)))) by (by destruct (c_dropped (r_counts r))).
  assert (H6 : row6 r = [] <-> (publishes r = true -> default 0 (c_dropped (r_counts r)) = 0)).
  { unfold row6. destruct (c_dropped (r_counts r)); [|naive_solver]. by rewrite reason_nil, andb_guard, negb_eqb. }
  rewrite H6. row. rewrite E, Z.ltb_ge. unfold derive_unresolved, sat_add, sat_sub, u_range in *. split.
  - intros (H2 & H3 & H6' & H13) K. specialize (H2 K). specialize (H3 K). specialize (H6' K). split; try done; [lia|].
    intros Eq. apply H13. by rewrite Eq, K, bool_decide_eq_true_2.
  - intros H. split_and!; try (intros K; destruct (H K); lia).
    intros [Hq K]%andb_true_iff. apply bool_decide_eq_true in Hq. by destruct (H K) as [_ _ Ha]; auto.
Qed.

Lemma open_rows_closed r : open_loop r = false -> open_rows_nil r.
Proof.
  intros Ho. unfold open_rows_nil, row15, row18, row24, row25, row27, row31, steady_state_reason, steady_growth. row.
  unfold open_loop in *. rewrite Ho. cbn [negb]. split_and!; try done; by destruct (r_latency_ns r).
Qed.

Lemma recompute_nil r : recompute r = Some [] ->
  exists reasons, reconcile r = Some reasons /\ r_valid r = is_nil reasons /\ r_invalid_reasons r = reasons
    /\ open_summary_ok r /\ opt_f64_eq (r_throughput r) (d_throughput (derive r)) = true
    /\ opt_f64_eq (r_last10s r) (d_last10s (derive r)) = true /\ y_count (r_syscalls r) = d_syscall_count (derive r)
    /\ c_unresolved (r_counts r) = d_unresolved (derive r).
Proof.
  unfold recompute. destruct (reconcile r) as [reasons|]; [|done]. intros E. injection E as E. rewrite !app_nil in E.
  assert (Hm : forall b m, mismatch b m = [] -> b = true) by (by intros []).
  destruct_and! E. repeat match goal with H : mismatch _ _ = [] |- _ => apply Hm in H end.
  rewrite ?bool_decide_eq_true, ?Z.eqb_eq in *. exists reasons. split; [done|].
  split; [by apply Bool.eqb_prop|]. split; [done|]. by split_and!.
Qed.

(** *** The throughput rule *)

Lemma f64_eq_cases x y : f64_eq x y = true -> x = y \/ exists a b, x = S754_zero a /\ y = S754_zero b.
Proof.
  unfold f64_eq, SFeqb. destruct x as [a|a| |a m e], y as [b|b| |b m' e']; cbn [SFcompare]; try done; try (by destruct a); try (by destruct b).
  - intros _. right. by exists a, b.
  - destruct a, b; [by left|done|done|by left].
  - destruct a, b; [|done|done|]; destruct (Z.compare_spec e e') as [->| |]; try done; cbn [CompOpp];
      destruct (Pos.compare_cont Eq m m') eqn:E; try done; change (Pos.compare_cont Eq m m') with (Pos.compare m m') in E;
      apply Pos.compare_eq in E as ->; by left.
Qed.

Lemma sustained_ok_stored w w' l l' : f64_eq w w' = true -> f64_eq l l' = true ->
  sustained_ok (Some w) (Some l) = sustained_ok (Some w') (Some l').
Proof.
  intros [->|(a & b & -> & ->)]%f64_eq_cases; [|by destruct a, b].
  intros [->|(a & b & -> & ->)]%f64_eq_cases; [done|]. unfold sustained_ok, f64_sub. by destruct w' as [[]|[]| |[] m e], a, b.
Qed.

Lemma sum_secs_le tl a b : Forall u64 (counts tl) -> sumZ (counts tl) < 2 ^ 64 -> sum_secs tl a b <= sumZ (counts tl).
Proof.
  intros Ht Hs. assert (Hn : nonneg (counts tl)) by (eapply Forall_impl; [exact Ht|]; intros c []; done).
  unfold sum_secs. case_match; [by apply sumZ_nonneg|]. set (i := Z.to_nat _). set (j := Z.to_nat _).
  pose proof (sumZ_slice_le (counts tl) i j Hn). assert (E : (fun x : Z => x) <$> slice (counts tl) i j = slice (counts tl) i j) by apply list_fmap_id.
  rewrite (sat_sum_spec (fun x => x)), E; [lia|by apply Forall_take, Forall_drop|rewrite E; lia].
Qed.

Lemma steady_spec r : record_typed r -> within_f64 r -> accounted r -> r_kind r = KThroughput ->
  opt_f64_eq (r_throughput r) (d_throughput (derive r)) = true -> opt_f64_eq (r_last10s r) (d_last10s (derive r)) = true ->
  sustained_ok (r_throughput r) (r_last10s r) = true <-> steady_tail r.
Proof.
  intros T Hwf A Hk Hw Hl. pose proof (ac_span r A) as Hspan. pose proof (wf_secs r Hwf) as Hsecs.
  assert (Hend : 0 <= end_sec (r_window r) - tail_secs r).
  { destruct (ty_window r T) as (_ & _ & Ho). destruct (ty_secs r T) as [Hwu _]. unfold u_range, end_sec, tail_secs, NS, ONE_SECOND_NS in *.
    rewrite (ac_end r A), (ac_start r A). unfold ONE_SECOND_NS.
    assert (r_window_secs r <= (r_origin_ns r + r_warmup_secs r * 1000000000 + r_window_secs r * 1000000000) / 1000000000);
      [apply Z.div_le_lower_bound; lia|lia]. }
  assert (Hrates : derive_rates r = (Some (rate_of (window_deliveries r) (r_window_secs r)), Some (rate_of (tail_deliveries r) (tail_secs r)))).
  { unfold derive_rates. rewrite Hk. change SUSTAINED_TAIL_SECS with 10. fold (tail_secs r). rewrite (proj2 (Z.leb_le _ _)) by done.
    rewrite (proj2 (Z.eqb_neq _ _)) by (unfold tail_secs; lia). done. }
  change (d_throughput (derive r)) with (derive_rates r).1 in Hw. change (d_last10s (derive r)) with (derive_rates r).2 in Hl.
  rewrite Hrates in Hw, Hl. destruct (r_throughput r) as [w|] eqn:Ew; [|done]. destruct (r_last10s r) as [l|] eqn:El; [|done].
  assert (Hok := sustained_ok_stored _ _ _ _ Hw Hl).
  destruct (ty_timeline r T) as [Htl _]. pose proof (ac_timeline r A) as Hsum. pose proof (wf_delivered r Hwf) as Hd.
  assert (Hbound : forall a b, 0 <= sum_secs (r_timeline r) a b < 2 ^ 40).
  { intros a b. split; [by apply sum_secs_nonneg|]. pose proof (sum_secs_le (r_timeline r) a b Htl). lia. }
  destruct (sustained_decided (window_deliveries r) (r_window_secs r) (tail_deliveries r) (tail_secs r)) as [Hyes Hno];
    [apply Hbound|lia|apply Hbound|unfold tail_secs; lia|]. rewrite <- Hok in Hyes, Hno.
  split.
  - intros H. destruct (Hno H) as [H1 H2]. split; [done|]. rewrite Ew, El. cbv zeta. apply Zle_lt_or_eq in H2 as [?|?]; auto.
  - intros [H1 H2]. rewrite Ew, El in H2. cbv zeta in H2. destruct H2 as [H2|[_ H2]]; [by apply Hyes|done].
Qed.

(** (C21) What a valid record certifies: when a record's stored summary
    recomputes from its raw observations, it is marked valid exactly when it
    satisfies the contract in exact arithmetic: clean counters, a timeline that
    adds up to the deliveries, a window consistent with its origin, every
    offered publish delivered (and acknowledged at QoS 1), and for open-loop
    runs the exact slot schedule, one latency and one lateness sample per
    window slot, a generator lateness p99 of at most a tenth of the latency
    p99, and a backlog growth of at most 50 ms at the offered rate, and for
    throughput runs a rate over the last ten seconds within a tenth of the
    window's (exactly a tenth off is decided by the [f64] roundings). *)
Theorem valid_iff_contract r :
  record_typed r -> within_f64 r -> recompute r = Some [] ->
  r_valid r = true <-> contract r.
Proof.
  intros T Hwf Hrec. pose proof (wf_slots r Hwf) as Hb. destruct (recompute_nil r Hrec) as (reasons & Er & -> & _ & Hsum & Hw & Hl & Hcount & Hun).
  assert (Hn : is_nil reasons = true <-> reconcile r = Some []) by (rewrite Er; destruct reasons; naive_solver).
  rewrite Hn, reconcile_nil. unfold all_rows_nil, contract.
  rewrite accounted_rows, published_rows, counter_rows_spec, row20_nil by done.
  assert (H7 : row7 r = [] <-> (r_kind r = KThroughput -> sustained_ok (r_throughput r) (r_last10s r) = true)).
  { unfold row7. rewrite reason_nil, andb_guard, bool_decide_eq_true, negb_false_iff. done. }
  rewrite H7. split.
  - intros (A & P & O & C & S & K). split_and!; try done; [intros Ho; by apply open_rows_paced|].
    intros Hk. apply steady_spec; auto.
  - intros (A & P & O & C & S & K). split_and!; try done; [|intros Hk; apply steady_spec; auto].
    destruct (open_loop r) eqn:Ho; [|by apply open_rows_closed]. apply open_rows_paced; auto.
Qed.

(** Two seconds of a latency run at 1000 slots per second after one second of
    warm-up. *)
Module SampleRun.
Definition spec : RunSpec :=
  {| sp_profile := Recorded; sp_server := Tokio; sp_workers := 1; sp_qos := Some 1; sp_kind := KLatency;
     sp_offered_rate := Some 1000; sp_repetition := 1; sp_attempt := 1 |}.
Definition hist : list (Z * Z) := [(50000, 1980); (90000, 10)].
Definition lateness : list (Z * Z) := [(1000, 1990)].

Definition observed : RunRecord :=
  let m := build_minimal_record spec in
  {| r_schema := r_schema m; r_profile := r_profile m; r_server := r_server m; r_workers := r_workers m;
     r_qos := r_qos m; r_kind := r_kind m; r_offered_rate := r_offered_rate m; r_repetition := 1; r_attempt := 1;
     r_connections := 100; r_payload_bytes := 64; r_qos1_window := 32; r_warmup_secs := 1; r_window_secs := 2;
     r_drain_grace_secs := 5; r_build := Release; r_origin_ns := 10000000000;
     r_window := {| start_ns := 11000000000; end_ns := 13000000000 |};
     r_timeline := {| origin_sec := 10; counts := [1000; 1000; 990] |}; r_cycles_in_window := None;
     r_counts := {| c_scheduled := Some 2990; c_window_scheduled := Some 1990; c_offered := 2990; c_acked := Some 2990;
                    c_delivered := 2990; c_dropped := Some 0; c_unresolved := 0; c_duplicates := 0; c_foreign := 0;
                    c_latency_over_range := 0; c_clock_anomalies := 0 |};
     r_throughput := None; r_last10s := None;
     r_latency_ns := Some {| p50 := 50000; p99 := 50000; max_ns := 90000; histogram := hist |};
     r_lateness := lateness; r_lateness_p99_ns := Some 1000; r_last_write_start_ns := Some 12990000001;
     r_connections_per_sec := None; r_generator_errors := r_generator_errors m; r_syscalls := r_syscalls m;
     r_driver := None; r_cpu_sets := r_cpu_sets m; r_env := r_env m; r_cpu := None; r_host_cpu_pressure := None;
     r_worker_loads := None; r_started_at_unix := 0; r_harness_errors := []; r_valid := true; r_invalid_reasons := [];
     r_cancelled := false |}.

Lemma observed_typed : record_typed observed.
Proof.
  split; unfold u_range, hist_typed; simpl; repeat match goal with |- _ /\ _ => split end; try lia; repeat constructor; simpl; lia.
Qed.
End SampleRun.

Lemma valid_iff_contract_witness :
  recompute SampleRun.observed = Some [] /\ contract SampleRun.observed.
Proof.
  assert (E : recompute SampleRun.observed = Some []) by (by vm_compute). split; [exact E|].
  apply (valid_iff_contract SampleRun.observed SampleRun.observed_typed); [split; by vm_compute|exact E|by vm_compute].
Defined.

(** ** Totality and types *)

Lemma slot_counts_total rate origin w : 0 <= rate -> start_ns w <= end_ns w -> scheduled_slots rate origin w < 2 ^ 64 ->
  is_Some (slot_counts rate origin w).
Proof.
  intros Hr Hw Hfit. unfold slot_counts. fold (scheduled_slots rate origin w).
  assert (Hle : div_ceil (sat_mul 128 (sat_sub (start_ns w) origin) rate) NS <= scheduled_slots rate origin w).
  { unfold scheduled_slots, div_ceil, NS. apply Z.div_le_mono; [lia|].
    assert (start_ns w <= slot_grid_end_ns w) by (unfold slot_grid_end_ns; lia). unfold sat_mul, sat_sub. nia. }
  rewrite !(proj2 (Z.leb_gt _ _)), (proj2 (Z.ltb_ge _ _)) by lia. by eexists.
Qed.

Lemma row27_total r : record_typed r -> is_Some (row27 r).
Proof.
  intros T. unfold row27. destruct (open_loop r); [|by eexists]. pose proof (ty_rate r T) as Hr.
  destruct (r_offered_rate r) as [rate|]; [|by eexists]. unfold opt_u64, u_range in Hr.
  destruct (Z.ltb_spec (end_ns (r_window r)) (start_ns (r_window r))); [by eexists|].
  destruct (Z.leb_spec (2 ^ 64) (scheduled_slots rate (r_origin_ns r) (r_window r))); [by eexists|].
  destruct (slot_counts_total rate (r_origin_ns r) (r_window r)) as [[a b] ->]; [lia|done|done|by eexists].
Qed.

Lemma reconcile_total r : record_typed r -> is_Some (reconcile r).
Proof. intros T. unfold reconcile. destruct (row27_total r T) as [? ->]. by eexists. Qed.

(** A percentile is a value the recorder can hold. *)
Definition recorded_ns (v : Z) : Prop := 1 <= v <= LATENCY_BUCKET_MAX_NS.

Lemma value_at_rank_in rank h : forall acc v, value_at_rank rank acc h = Some v -> v ∈ h.*1.
Proof.
  induction h as [|[x c] h IH]; intros acc v; cbn [value_at_rank]; [done|].
  case_match; [intros E; injection E as ->; left|intros E; right; by eapply IH].
Qed.

Lemma percentile_range h q v : counts_nonneg h -> percentile h q = Some v -> recorded_ns v.
Proof.
  intros Hn. unfold percentile. destruct (histogram_total h) as [t|] eqn:E; [|done].
  apply histogram_total_ok in E as [_ Hwf]; [|done]. case_match; [done|].
  intros Hv%value_at_rank_in. by apply (wf_value _ _ Hwf).
Qed.

Lemma ok_parse_range s n : ok (parse_uint 64 s) = Some n -> u64 n.
Proof. destruct (parse_uint 64 s) eqn:E; [|done]. intros [= <-]. by apply (parse_uint_range 64 s). Qed.

Lemma syscall_count_u64 y n : derive_syscall_count y = Some n -> u64 n.
Proof.
  unfold derive_syscall_count. destruct (y_method y); [| |done]; (destruct (y_raw y) as [raw|]; [|done]).
  - unfold parse_perf_count. induction (lines raw) as [|l ls IH]; cbn [perf_count_in]; [done|].
    case_match; [|done]. destruct (head _); [apply ok_parse_range|done].
  - unfold parse_strace_total. assert (Hinv : opt_u64 None) by done. revert Hinv. generalize (@None Z).
    induction (lines raw) as [|l ls IH]; intros o Ho; simpl; [intros ->; done|]. apply IH.
    unfold strace_step. case_match; [|done].
    destruct (match split_whitespace l !! 3%nat with Some s => ok (parse_uint 64 s) | None => None end) as [c|] eqn:E; [|done].
    destruct (_ !! _); [by apply ok_parse_range in E|done].
Qed.

(** The types of the derived fields. *)
Record derived_typed (d : Derived) : Prop := {
  dt_unresolved : u64 (d_unresolved d);
  dt_lateness : match d_lateness_p99_ns d with Some v => recorded_ns v | None => True end;
  dt_latency : match d_latency_ns d with
               | Some s => Forall (fun v => v = 0 \/ recorded_ns v) [p50 s; p99 s; max_ns s]
               | None => True
               end;
  dt_count : opt_u64 (d_syscall_count d)
}.

(** (C40) [derive], [reconcile] and [recompute] are total and well typed: on
    every record whose integers fit their fields, whatever they claim, the
    analysis does not panic, every derived integer fits its field, and every
    derived percentile is 0 or a value the recorder's histogram can hold. *)
Theorem derive_typed r : record_typed r ->
  is_Some (reconcile r) /\ is_Some (recompute r) /\ derived_typed (derive r).
Proof.
  intros T. split; [by apply reconcile_total|]. split.
  { unfold recompute. destruct (reconcile_total r T) as [? ->]. by eexists. }
  pose proof (hist_typed_nonneg _ (ty_lateness r T)) as Hl. split; cbn [derive d_unresolved d_lateness_p99_ns d_latency_ns d_syscall_count].
  - destruct (ty_counts r T) as (Ho & Hd & _). unfold derive_unresolved, sat_sub, u_range in *.
    pose proof (ty_counts r T) as (_ & _ & Hdr & _). destruct (c_dropped (r_counts r)); unfold opt_u64, u_range in *; simpl; lia.
  - destruct (percentile _ _) eqn:E; [|done]. by eapply percentile_range.
  - destruct (is_open_loop _); [|done]. pose proof (ty_latency r T) as Hh. destruct (r_latency_ns r) as [s|]; [|done].
    apply hist_typed_nonneg in Hh.
    assert (Hp : forall q, default 0 (percentile (histogram s) q) = 0 \/ recorded_ns (default 0 (percentile (histogram s) q))).
    { intros q. destruct (percentile _ _) eqn:E; [right; by eapply percentile_range|by left]. }
    rewrite !Forall_cons. split_and!; [apply Hp..|constructor].
  - destruct (derive_syscall_count _) eqn:E; [by apply syscall_count_u64 in E|done].
Qed.

Lemma derive_typed_witness : derived_typed (derive SampleRun.observed) /\ d_lateness_p99_ns (derive SampleRun.observed) = Some 1000.
Proof. split; [apply (derive_typed SampleRun.observed SampleRun.observed_typed)|by vm_compute]. Defined.
