(* ===== verification/CpuSet.v ===== *)
(** * CPU lists

    [cpu_count] of bench/src/analysis.rs counts the distinct CPUs a taskset list
    names without expanding it: the line of CPUs is cut at the bounds of every
    element and each segment is counted by arithmetic, or by a k-way merge
    where strides overlap.  [cpu_count_exact]: the answer is the number of CPUs
    in the union of the elements. *)

From S2P Require Import Prelude Text.
From Stdlib Require Import Ascii Sorting.Sorted.

(** ** Parsing *)

(** First CPU, last CPU and stride of an element. *)
Record Element := { first_cpu : Z; last_cpu : Z; stride : Z }.

Definition parse_u32 (s : str) : option Z := ok (parse_uint 32 s).

(** The span of an element, with its stride if it has one. *)
Definition parse_stride (part : str) : option (str * Z) :=
  match split_once (lit ":") part with
  | Some (span, s) =>
      match parse_u32 (trim s) with
      | Some s => if (s =? 0) || negb (contains (lit "-") span) then None else Some (span, s)
      | None => None
      end
  | None => Some (part, 1)
  end.

Definition parse_span (span : str) : option (Z * Z) :=
  match split_once (lit "-") span with
  | Some (a_s, b_s) =>
      match parse_u32 (trim a_s), parse_u32 (trim b_s) with
      | Some a, Some b => if b <? a then None else Some (a, b)
      | _, _ => None
      end
  | None => match parse_u32 span with Some n => Some (n, n) | None => None end
  end.

Definition parse_element (part : str) : option Element :=
  let part := trim part in
  if is_empty_str part then None
  else match parse_stride part with
       | None => None
       | Some (span, s) =>
           match parse_span span with
           | None => None
           | Some (a, b) => Some {| first_cpu := a; last_cpu := b; stride := s |}
           end
       end.

Fixpoint parse_elements (parts : list str) : option (list Element) :=
  match parts with
  | [] => Some []
  | part :: parts =>
      match parse_element part with
      | None => None
      | Some e => match parse_elements parts with Some es => Some (e :: es) | None => None end
      end
  end.

(** ** Counting *)

(** [sort_unstable] and [dedup] of the cut points. *)
Fixpoint insert_cut (x : Z) (l : list Z) : list Z :=
  match l with
  | [] => [x]
  | y :: l' => if x <? y then x :: l else if x =? y then l else y :: insert_cut x l'
  end.

Definition cuts (elements : list Element) : list Z :=
  foldr insert_cut [] (concat ((fun e => [first_cpu e; last_cpu e + 1]) <$> elements)).

(** The next CPU of the progression from [a] by [s] at or after [lo]. *)
Definition first_from (lo : Z) (p : Z * Z) : Z := p.1 + div_ceil (lo - p.1) p.2 * p.2.

(** The binary heap of the k-way merge, [Reverse((cpu, stride))]: [pop] takes
    the least pair. *)
Definition pair_le (x y : Z * Z) : bool := (x.1 <? y.1) || ((x.1 =? y.1) && (x.2 <=? y.2)).

Fixpoint heap_pop (heap : list (Z * Z)) : option ((Z * Z) * list (Z * Z)) :=
  match heap with
  | [] => None
  | x :: heap =>
      match heap_pop heap with
      | None => Some (x, [])
      | Some (m, rest) => if pair_le x m then Some (x, m :: rest) else Some (m, x :: rest)
      end
  end.

Record Merge := { heap : list (Z * Z); merged : Z; last_seen : option Z }.

Definition merge_step (hi : Z) (st : Merge) : Merge + Z :=
  match heap_pop (heap st) with
  | None => inr (merged st)
  | Some ((cpu, s), rest) =>
      if hi <=? cpu then inl {| heap := rest; merged := merged st; last_seen := last_seen st |}
      else inl {| heap := (cpu + s, s) :: rest;
                  merged := if bool_decide (last_seen st = Some cpu) then merged st else merged st + 1;
                  last_seen := Some cpu |}
  end.

(** One round per CPU a progression still has, and one to drop it. *)
Definition merge_fuel (hi : Z) (h : list (Z * Z)) : nat :=
  foldr (fun p n => Z.to_nat (hi - p.1) + 1 + n)%nat 1%nat h.

Definition merge_count (lo hi : Z) (active : list (Z * Z)) : option Z :=
  let h := (fun p => (first_from lo p, p.2)) <$> active in
  loop (merge_step hi) (merge_fuel hi h) {| heap := h; merged := 0; last_seen := None |}.

Definition active_in (elements : list Element) (lo hi : Z) : list (Z * Z) :=
  (fun e => (first_cpu e, stride e))
    <$> List.filter (fun e => (first_cpu e <=? lo) && (hi <=? last_cpu e + 1)) elements.

Definition segment_count (elements : list Element) (lo hi : Z) : option Z :=
  let active := active_in elements lo hi in
  match active with
  | [] => Some 0
  | _ =>
      if existsb (fun p => p.2 =? 1) active then Some (hi - lo)
      else match active with
           | [(a, s)] =>
               let first := first_from lo (a, s) in
               Some (if first <? hi then (hi - 1 - first) / s + 1 else 0)
           | _ => merge_count lo hi active
           end
  end.

Fixpoint count_segments (elements : list Element) (cut_points : list Z) (total : Z) : option Z :=
  match cut_points with
  | lo :: ((hi :: _) as rest) =>
      match segment_count elements lo hi with
      | Some n => count_segments elements rest (total + n)
      | None => None
      end
  | _ => Some total
  end.

(** Outer [None]: the merge ran out of fuel; inner [None]: not a CPU list. *)
Definition cpu_count_fuel (set : str) : option (option Z) :=
  match parse_elements (split_char (chr ",") set) with
  | None => Some None
  | Some elements =>
      match count_segments elements (cuts elements) 0 with
      | None => None
      | Some total => Some (Some (if total <? 2 ^ 32 then total else 2 ^ 32 - 1))
      end
  end.

Definition cpu_count (set : str) : option Z := match cpu_count_fuel set with Some r => r | None => None end.

(** ** Counting positions of an interval *)

Definition cnt (P : Z -> bool) (lo hi : Z) : Z := Z.of_nat (length (List.filter P (seqZ lo (hi - lo)))).

Lemma cnt_empty P lo hi : hi <= lo -> cnt P lo hi = 0.
Proof. intros. unfold cnt. rewrite seqZ_nil by lia. done. Qed.

Lemma cnt_step P lo hi : lo < hi -> cnt P lo hi = (if P lo then 1 else 0) + cnt P (lo + 1) hi.
Proof.
  intros H. unfold cnt. rewrite seqZ_cons by lia. replace (Z.succ lo) with (lo + 1) by lia.
  replace (Z.pred (hi - lo)) with (hi - (lo + 1)) by lia. cbn [List.filter]. destruct (P lo); cbn [length]; lia.
Qed.

Lemma cnt_app P lo mid hi : lo <= mid <= hi -> cnt P lo hi = cnt P lo mid + cnt P mid hi.
Proof.
  intros H. unfold cnt. replace (hi - lo) with ((mid - lo) + (hi - mid)) by lia.
  rewrite seqZ_app by lia. rewrite List.filter_app, length_app. replace (lo + (mid - lo)) with mid by lia. lia.
Qed.

Lemma cnt_last P lo hi : lo <= hi -> cnt P lo (hi + 1) = cnt P lo hi + (if P hi then 1 else 0).
Proof.
  intros H. rewrite (cnt_app P lo hi (hi + 1)) by lia. rewrite (cnt_step P hi), (cnt_empty P (hi + 1)) by lia. lia.
Qed.

Lemma cnt_ext P Q lo hi : (forall c, lo <= c < hi -> P c = Q c) -> cnt P lo hi = cnt Q lo hi.
Proof.
  intros H. unfold cnt. f_equal. f_equal. apply List.filter_ext_in. intros c Hc%list_elem_of_In.
  apply H. apply elem_of_seqZ in Hc. lia.
Qed.

Lemma cnt_none P lo hi : (forall c, lo <= c < hi -> P c = false) -> cnt P lo hi = 0.
Proof.
  intros H. rewrite (cnt_ext P (fun _ => false)) by done. unfold cnt. by induction (seqZ lo (hi - lo)).
Qed.

Lemma cnt_all P lo hi : lo <= hi -> (forall c, lo <= c < hi -> P c = true) -> cnt P lo hi = hi - lo.
Proof.
  intros Hle H. rewrite (cnt_ext P (fun _ => true)) by done. unfold cnt. rewrite List.forallb_filter_id.
  - rewrite length_seqZ. lia.
  - by apply forallb_forall.
Qed.

(** Taking one position out. *)
Lemma cnt_remove P lo hi x : lo <= x < hi -> P x = true ->
  cnt P lo hi = 1 + cnt (fun c => P c && negb (c =? x)) lo hi.
Proof.
  intros Hx HP. rewrite (cnt_app P lo x), (cnt_app (fun c => P c && negb (c =? x)) lo x) by lia.
  rewrite (cnt_step P x), (cnt_step (fun c => P c && negb (c =? x)) x) by lia. rewrite HP, Z.eqb_refl. simpl.
  rewrite (cnt_ext P (fun c => P c && negb (c =? x)) lo x), (cnt_ext P (fun c => P c && negb (c =? x)) (x + 1) hi); [lia|..].
  all: intros c Hc; rewrite (proj2 (Z.eqb_neq c x)) by lia; by rewrite andb_true_r.
Qed.

(** Positions of a progression from [f] by [s]. *)
Lemma cnt_progression f s n : 0 < s -> cnt (fun c => (c - f) mod s =? 0) f (f + Z.of_nat n) = div_ceil (Z.of_nat n) s.
Proof.
  intros Hs. induction n as [|n IH].
  - rewrite cnt_empty by lia. unfold div_ceil. rewrite Z.div_small; lia.
  - replace (f + Z.of_nat (S n)) with (f + Z.of_nat n + 1) by lia. rewrite cnt_last, IH by lia.
    replace (f + Z.of_nat n - f) with (Z.of_nat n) by lia. set (m := Z.of_nat n).
    replace (Z.of_nat (S n)) with (m + 1) by lia. assert (0 <= m) by lia. clearbody m. unfold div_ceil.
    pose proof (Z.div_mod m s ltac:(lia)) as Em. pose proof (Z.mod_pos_bound m s Hs).
    destruct (Z.eqb_spec (m mod s) 0) as [Hz|Hz].
    + replace (m + s - 1) with (m / s * s + (s - 1)) by lia. replace (m + 1 + s - 1) with ((m / s + 1) * s + 0) by lia.
      rewrite !Z.div_add_l by lia. rewrite (Z.div_small (s - 1)), (Z.div_small 0) by lia. lia.
    + replace (m + s - 1) with ((m / s + 1) * s + (m mod s - 1)) by lia.
      replace (m + 1 + s - 1) with ((m / s + 1) * s + m mod s) by lia.
      rewrite !Z.div_add_l by lia. rewrite (Z.div_small (m mod s - 1)), (Z.div_small (m mod s)) by lia. lia.
Qed.

(** ** Progressions *)

Definition on_progression (c : Z) (p : Z * Z) : bool := (p.1 <=? c) && ((c - p.1) mod p.2 =? 0).

Lemma first_from_spec lo a s : 0 < s -> a <= lo ->
  lo <= first_from lo (a, s) < lo + s /\ (first_from lo (a, s) - a) mod s = 0.
Proof.
  intros Hs Ha. unfold first_from. cbn [fst snd]. set (k := div_ceil (lo - a) s).
  pose proof (div_ceil_spec (lo - a) s k Hs) as [Hk _]. specialize (Hk ltac:(lia)).
  pose proof (div_ceil_lt (lo - a) s (k - 1) Hs) as [Hk' _]. specialize (Hk' ltac:(lia)).
  split; [lia|]. replace (a + k * s - a) with (k * s) by lia. by apply Z.mod_mul; lia.
Qed.

(** Starting a progression at its first CPU of the segment loses nothing. *)
Lemma progression_restart lo a s c : 0 < s -> a <= lo -> lo <= c ->
  on_progression c (first_from lo (a, s), s) = on_progression c (a, s).
Proof.
  intros Hs Ha Hc. destruct (first_from_spec lo a s Hs Ha) as [Hf Hm]. unfold on_progression. cbn [fst snd].
  set (f := first_from lo (a, s)) in *. rewrite (proj2 (Z.leb_le a c)) by lia.
  assert (Em : (c - a) mod s = (c - f) mod s).
  { apply Z.mod_divide in Hm as [k Hk]; [|lia]. replace (c - a) with ((c - f) + k * s) by lia. apply Z.mod_add. lia. }
  rewrite Em. destruct (Z.leb_spec f c); [done|]. simpl. symmetry. apply Z.eqb_neq. intros Hz.
  apply Z.mod_divide in Hz as [k Hk]; [|lia]. assert (k = 0 \/ k <= -1 \/ 1 <= k) as [?|[?|?]] by lia; nia.
Qed.

Lemma on_progression_next c cpu s : 0 < s -> on_progression c (cpu, s) = (c =? cpu) || on_progression c (cpu + s, s).
Proof.
  intros Hs. unfold on_progression. cbn [fst snd].
  assert (Em : (c - (cpu + s)) mod s = (c - cpu) mod s).
  { replace (c - (cpu + s)) with ((c - cpu) + (-1) * s) by lia. apply Z.mod_add. lia. }
  rewrite Em. destruct (Z.eqb_spec c cpu) as [->|Hne].
  - rewrite Z.sub_diag, Zmod_0_l, Z.leb_refl. done.
  - simpl. destruct (Z.leb_spec cpu c), (Z.leb_spec (cpu + s) c); try done; simpl; [|lia].
    apply Z.eqb_neq. rewrite Z.mod_small by lia. lia.
Qed.

(** ** The merge *)

Lemma pair_le_fst x y : pair_le x y = true -> x.1 <= y.1.
Proof. unfold pair_le. intros [H|[H _]%andb_true_iff]%orb_true_iff; zbool; lia. Qed.

Lemma pair_le_total x y : pair_le x y = false -> y.1 <= x.1.
Proof. unfold pair_le. intros [H _]%orb_false_iff. zbool. lia. Qed.

Lemma heap_pop_spec h : match heap_pop h with
  | None => h = []
  | Some (m, rest) => h ≡ₚ m :: rest /\ Forall (fun p => m.1 <= p.1) rest
  end.
Proof.
  induction h as [|x h IH]; [done|]. cbn [heap_pop]. destruct (heap_pop h) as [[m rest]|].
  - destruct IH as [Hp Hm]. destruct (pair_le x m) eqn:E.
    + split; [by rewrite Hp|]. apply pair_le_fst in E. constructor; [done|]. eapply Forall_impl; [exact Hm|]. simpl. lia.
    + split; [rewrite Hp; apply Permutation_swap|]. apply pair_le_total in E. by constructor.
  - by subst.
Qed.

Definition on_heap (h : list (Z * Z)) (c : Z) : bool := existsb (on_progression c) h.
Definition seen_before (last : option Z) (c : Z) : bool := bool_decide (last = Some c).

Lemma on_heap_perm h h' c : h ≡ₚ h' -> on_heap h c = on_heap h' c.
Proof.
  unfold on_heap. induction 1; simpl; [done|congruence| |congruence]. destruct (on_progression c x), (on_progression c y); done.
Qed.

(** What the merge will have counted when it ends. *)
Definition merge_total (lo hi : Z) (st : Merge) : Z :=
  merged st + cnt (fun c => on_heap (heap st) c && negb (seen_before (last_seen st) c)) lo hi.

Record merge_inv (lo hi : Z) (st : Merge) : Prop := {
  mi_heap : Forall (fun p => lo <= p.1 /\ 0 < p.2) (heap st);
  mi_last : match last_seen st with Some c => Forall (fun p => c <= p.1) (heap st) | None => True end
}.

Lemma on_heap_ge h m c : Forall (fun p => m <= p.1) h -> on_heap h c = true -> m <= c.
Proof.
  intros Hm. unfold on_heap. rewrite existsb_exists. intros (p & Hin & Hp). rewrite Forall_forall in Hm.
  specialize (Hm p (proj2 (list_elem_of_In _ _) Hin)). unfold on_progression in Hp. zbool. lia.
Qed.

(** Dropping an exhausted progression. *)
Lemma merge_drop lo hi m rest last : hi <= m.1 ->
  cnt (fun c => on_heap (m :: rest) c && negb (seen_before last c)) lo hi =
  cnt (fun c => on_heap rest c && negb (seen_before last c)) lo hi.
Proof.
  intros Hm. apply cnt_ext. intros c Hc. f_equal. unfold on_heap. cbn [existsb].
  replace (on_progression c m) with false; [done|]. unfold on_progression. by rewrite (proj2 (Z.leb_gt _ _)) by lia.
Qed.

(** Counting the least CPU and advancing its progression. *)
Lemma merge_advance lo hi cpu s rest last :
  0 < s -> lo <= cpu < hi -> Forall (fun p => cpu <= p.1) rest ->
  match last with Some c => c <= cpu | None => True end ->
  cnt (fun c => on_heap ((cpu, s) :: rest) c && negb (seen_before last c)) lo hi =
  (if bool_decide (last = Some cpu) then 0 else 1)
  + cnt (fun c => on_heap ((cpu + s, s) :: rest) c && negb (seen_before (Some cpu) c)) lo hi.
Proof.
  intros Hs Hc Hrest Hlast.
  assert (Hsb : forall c, seen_before (Some cpu) c = (c =? cpu)).
  { intros c. unfold seen_before. case_bool_decide; symmetry; [apply Z.eqb_eq|apply Z.eqb_neq]; congruence. }
  assert (Hnext : forall c, on_heap ((cpu, s) :: rest) c = (c =? cpu) || on_heap ((cpu + s, s) :: rest) c).
  { intros c. unfold on_heap. cbn [existsb]. rewrite on_progression_next by done. by rewrite orb_assoc. }
  case_bool_decide as Hl.
  - subst last. rewrite Z.add_0_l. apply cnt_ext. intros c Hin. rewrite Hnext, Hsb. destruct (c =? cpu); [|done].
    by rewrite !andb_false_r.
  - rewrite (cnt_remove _ lo hi cpu); [|lia|].
    + f_equal. apply cnt_ext. intros c Hin. rewrite Hnext, Hsb. destruct (Z.eqb_spec c cpu) as [->|Hne].
      * by rewrite !andb_false_r.
      * rewrite !andb_true_r. cbn [orb]. destruct (on_heap ((cpu + s, s) :: rest) c) eqn:E; [|done]. cbn [andb].
        apply (on_heap_ge _ cpu) in E; [|by constructor; [simpl; lia|]].
        apply negb_true_iff, bool_decide_eq_false. intros ->. lia.
    + rewrite Hnext, Z.eqb_refl. simpl. unfold seen_before. by rewrite bool_decide_eq_false_2.
Qed.

Lemma merge_step_inv lo hi st st' : merge_inv lo hi st -> merge_step hi st = inl st' ->
  merge_inv lo hi st' /\ merge_total lo hi st' = merge_total lo hi st
  /\ (merge_fuel hi (heap st') < merge_fuel hi (heap st))%nat.
Proof.
  intros [Hh Hl] Hst. unfold merge_step in Hst. pose proof (heap_pop_spec (heap st)) as Hpop.
  destruct (heap_pop (heap st)) as [[[cpu s] rest]|]; [|done]. destruct Hpop as [Hp Hmin].
  assert (Hfuel : merge_fuel hi (heap st) = (Z.to_nat (hi - cpu) + 1 + merge_fuel hi rest)%nat).
  { clear -Hp. unfold merge_fuel. change (Z.to_nat (hi - cpu) + 1 + _)%nat with
      (foldr (fun p n => Z.to_nat (hi - p.1) + 1 + n)%nat 1%nat ((cpu, s) :: rest)).
    induction Hp; simpl in *; lia. }
  rewrite Hp in Hh. apply Forall_cons in Hh as [[Hc Hs] Hr]. cbn [fst snd] in *.
  assert (Hl' : match last_seen st with Some c => Forall (fun p => c <= p.1) ((cpu, s) :: rest) | None => True end).
  { destruct (last_seen st); [by rewrite Hp in Hl|done]. }
  assert (Hcnt : forall last, cnt (fun c => on_heap (heap st) c && negb (seen_before last c)) lo hi
    = cnt (fun c => on_heap ((cpu, s) :: rest) c && negb (seen_before last c)) lo hi).
  { intros last. apply cnt_ext. intros c _. by rewrite (on_heap_perm _ _ c Hp). }
  unfold merge_total. rewrite Hcnt, Hfuel. destruct (Z.leb_spec hi cpu); simplify_eq; cbn [heap merged last_seen].
  - split; [|split; [by rewrite merge_drop|lia]]. split; [done|].
    destruct (last_seen st); [by apply Forall_cons in Hl' as [_ ?]|done].
  - split; [|split].
    + split; [constructor; [simpl; lia|done]|]. constructor; [simpl; lia|done].
    + rewrite (merge_advance lo hi cpu s rest (last_seen st)); try done.
      * case_bool_decide; lia.
      * destruct (last_seen st); [by apply Forall_cons in Hl' as [? _]|done].
    + unfold merge_fuel. cbn [foldr fst]. fold (merge_fuel hi rest). lia.
Qed.

(** The merge ends and counts the CPUs of the union of the progressions. *)
Lemma merge_count_exact lo hi active :
  Forall (fun p => p.1 <= lo /\ 0 < p.2) active ->
  merge_count lo hi active = Some (cnt (on_heap active) lo hi).
Proof.
  intros Ha. unfold merge_count. set (h := _ <$> active).
  assert (Hh : Forall (fun p => lo <= p.1 /\ 0 < p.2) h).
  { unfold h. apply Forall_fmap. eapply Forall_impl; [exact Ha|]. intros [a s] [? ?]. simpl in *.
    pose proof (first_from_spec lo a s). simpl. lia. }
  set (st := {| heap := h; merged := 0; last_seen := None |}).
  assert (Hinv : merge_inv lo hi st) by (by split).
  assert (Htot : merge_total lo hi st = cnt (on_heap active) lo hi).
  { unfold merge_total. cbn [heap merged last_seen st]. rewrite Z.add_0_l. apply cnt_ext. intros c Hc.
    unfold seen_before. rewrite bool_decide_eq_false_2 by done. simpl. rewrite andb_true_r. unfold on_heap, h.
    clear -Ha Hc. induction Ha as [|[a s] l [? ?] _ IH]; [done|]. rewrite fmap_cons. cbn [existsb fst snd] in *.
    rewrite progression_restart by (done || lia). by rewrite IH. }
  destruct (loop_terminates (merge_step hi) (merge_inv lo hi) (fun st => merge_fuel hi (heap st) - 1)%nat) with
    (n := merge_fuel hi h) (s := st) as [r Hr].
  - intros s1 s2 H1 H2. destruct (merge_step_inv _ _ _ _ H1 H2) as (? & _ & ?). split; [done|].
    assert (0 < merge_fuel hi (heap s2))%nat by (unfold merge_fuel; destruct (heap s2); simpl; lia). lia.
  - done.
  - cbn [heap st]. assert (0 < merge_fuel hi h)%nat by (unfold merge_fuel; destruct h; simpl; lia). lia.
  - rewrite Hr. f_equal. rewrite <- Htot. revert Hr.
    apply (loop_inv (merge_step hi) (fun s => merge_inv lo hi s /\ merge_total lo hi s = merge_total lo hi st)
             (fun r => r = merge_total lo hi st)); [| |done].
    + intros s1 s2 [H1 E1] H2. destruct (merge_step_inv _ _ _ _ H1 H2) as (? & ? & _). split; [done|congruence].
    + intros s1 x [H1 E1] H2. unfold merge_step in H2. pose proof (heap_pop_spec (heap s1)) as Hp.
      destruct (heap_pop (heap s1)) as [[[cpu s] rest]|]; [by destruct (hi <=? cpu)|]. simplify_eq. rewrite <- E1.
      unfold merge_total. rewrite Hp. rewrite cnt_none; [lia|done].
Qed.

(** ** Segments *)

(** The CPUs an element names, and those a list names. *)
Definition names (e : Element) (c : Z) : bool :=
  (first_cpu e <=? c) && (c <=? last_cpu e) && ((c - first_cpu e) mod stride e =? 0).
Definition named (elements : list Element) (c : Z) : bool := existsb (fun e => names e c) elements.

Definition element_wf (e : Element) : Prop := 0 <= first_cpu e <= last_cpu e /\ last_cpu e < 2 ^ 32 /\ 0 < stride e.

(** No element begins or ends strictly inside the segment. *)
Definition unbroken (elements : list Element) (lo hi : Z) : Prop :=
  Forall (fun e => (first_cpu e <= lo \/ hi <= first_cpu e) /\ (last_cpu e + 1 <= lo \/ hi <= last_cpu e + 1)) elements.

Lemma active_names elements lo hi c : unbroken elements lo hi -> lo <= c < hi ->
  named elements c = on_heap (active_in elements lo hi) c.
Proof.
  intros Hu Hc. unfold named, on_heap, active_in.
  induction Hu as [|e es [Ha Hb] _ IH]; [done|]. cbn [existsb List.filter]. rewrite IH. unfold names.
  destruct (Z.leb_spec (first_cpu e) lo), (Z.leb_spec hi (last_cpu e + 1)); cbn [andb].
  - rewrite fmap_cons. cbn [existsb]. f_equal. unfold on_progression. cbn [fst snd].
    rewrite (proj2 (Z.leb_le c (last_cpu e))) by lia. by rewrite andb_true_r.
  - rewrite (proj2 (Z.leb_gt c (last_cpu e))) by lia. by rewrite andb_false_r.
  - by rewrite (proj2 (Z.leb_gt (first_cpu e) c)) by lia.
  - by rewrite (proj2 (Z.leb_gt (first_cpu e) c)) by lia.
Qed.

Lemma active_wf elements lo hi : Forall element_wf elements ->
  Forall (fun p => p.1 <= lo /\ 0 < p.2) (active_in elements lo hi).
Proof.
  intros Hw. unfold active_in. apply Forall_fmap, Forall_forall. intros e He%list_elem_of_In.
  apply filter_In in He as [He Hc]. rewrite Forall_forall in Hw. apply list_elem_of_In, Hw in He.
  apply andb_true_iff in Hc as [Hc _]. zbool. destruct He as (_ & _ & ?). by simpl.
Qed.

(** One stride alone, counted arithmetically. *)
Lemma single_stride_exact lo hi a s : 0 < s -> a <= lo -> lo < hi ->
  cnt (on_heap [(a, s)]) lo hi =
  (let first := first_from lo (a, s) in if first <? hi then (hi - 1 - first) / s + 1 else 0).
Proof.
  intros Hs Ha Hlt. destruct (first_from_spec lo a s Hs Ha) as [Hf _]. cbv zeta.
  rewrite (cnt_ext _ (fun c => on_progression c (first_from lo (a, s), s))).
  2: { intros c Hc. unfold on_heap. cbn [existsb]. rewrite orb_false_r. symmetry. apply progression_restart; lia. }
  set (f := first_from lo (a, s)) in *.
  destruct (Z.ltb_spec f hi).
  - rewrite (cnt_app _ lo f hi) by lia. rewrite cnt_none.
    2: { intros c Hc. unfold on_progression. cbn [fst]. by rewrite (proj2 (Z.leb_gt f c)) by lia. }
    rewrite Z.add_0_l, (cnt_ext _ (fun c => (c - f) mod s =? 0)).
    2: { intros c Hc. unfold on_progression. cbn [fst snd]. by rewrite (proj2 (Z.leb_le f c)) by lia. }
    pose proof (cnt_progression f s (Z.to_nat (hi - f)) Hs) as E. rewrite Z2Nat.id in E by lia.
    replace (f + (hi - f)) with hi in E by lia. rewrite E. unfold div_ceil.
    replace (hi - f + s - 1) with (1 * s + (hi - 1 - f)) by lia. rewrite Z.div_add_l by lia. lia.
  - apply cnt_none. intros c Hc. unfold on_progression. cbn [fst]. by rewrite (proj2 (Z.leb_gt f c)) by lia.
Qed.

Lemma segment_count_exact elements lo hi : Forall element_wf elements -> unbroken elements lo hi -> lo < hi ->
  segment_count elements lo hi = Some (cnt (named elements) lo hi).
Proof.
  intros Hw Hu Hlt. rewrite (cnt_ext _ (on_heap (active_in elements lo hi))) by (intros; by apply active_names).
  pose proof (active_wf elements lo hi Hw) as Ha. unfold segment_count. set (active := active_in elements lo hi) in *.
  destruct active as [|p active'] eqn:E; [by rewrite cnt_none|]. rewrite <- E in *.
  destruct (existsb (fun p => p.2 =? 1) active) eqn:E1.
  - rewrite cnt_all; [done|lia|]. intros c Hc. apply existsb_exists in E1 as (q & Hq & H1). zbool.
    apply existsb_exists. exists q. split; [done|]. rewrite Forall_forall in Ha. apply list_elem_of_In in Hq.
    destruct (Ha q Hq). unfold on_progression. rewrite H1, Z.mod_1_r, (proj2 (Z.leb_le _ _)) by lia. done.
  - rewrite E in *. destruct p as [a s].
    destruct active' as [|q active']; [|by apply merge_count_exact]. apply Forall_cons in Ha as [[? ?] _]. by rewrite single_stride_exact.
Qed.

(** Every bound of an element is behind the current cut or still to come. *)
Definition bounds_in (elements : list Element) (lo : Z) (rest : list Z) : Prop :=
  Forall (fun e => (first_cpu e <= lo \/ first_cpu e ∈ rest) /\ (last_cpu e + 1 <= lo \/ last_cpu e + 1 ∈ rest)) elements.

Lemma count_segments_exact elements rest : forall lo total, Forall element_wf elements ->
  StronglySorted Z.lt (lo :: rest) -> bounds_in elements lo rest ->
  exists hi, count_segments elements (lo :: rest) total = Some (total + cnt (named elements) lo hi)
    /\ lo <= hi /\ Forall (fun x => x <= hi) rest.
Proof.
  induction rest as [|hi rest IH]; intros lo total Hw Hs Hb.
  - exists lo. rewrite cnt_empty, Z.add_0_r by lia. split; [done|]. split; [lia|constructor].
  - inversion Hs as [|? ? Hs' Hlt]; subst. inversion Hs' as [|? ? _ Hlt']; subst. apply Forall_cons in Hlt as [Hlo _].
    rewrite Forall_forall in Hlt'.
    assert (Hu : unbroken elements lo hi).
    { eapply Forall_impl; [exact Hb|]. intros e [Ha Hl]. split; [destruct Ha as [?|Ha]|destruct Hl as [?|Hl]].
      1, 3: lia.
      all: right; apply elem_of_cons in Ha || apply elem_of_cons in Hl.
      - destruct Ha as [->|Ha]; [lia|]. specialize (Hlt' _ Ha). lia.
      - destruct Hl as [->|Hl]; [lia|]. specialize (Hlt' _ Hl). lia. }
    destruct (IH hi (total + cnt (named elements) lo hi)) as (m & E & Hm & Hr); [done|done| |].
    { eapply Forall_impl; [exact Hb|]. intros e [Ha Hl]. rewrite !elem_of_cons in Ha, Hl. split; [destruct Ha as [?|[?|?]]|destruct Hl as [?|[?|?]]];
        solve [by right | left; lia]. }
    exists m. cbn [count_segments]. rewrite (segment_count_exact _ _ _ Hw Hu Hlo). split; [|split; [lia|by constructor]].
    rewrite (cnt_app _ lo hi m) by lia. cbn [count_segments] in E. rewrite E. f_equal. lia.
Qed.

(** ** The cut points *)

Lemma insert_cut_in x l y : y ∈ insert_cut x l <-> y = x \/ y ∈ l.
Proof.
  induction l as [|z l IH]; cbn [insert_cut]; [rewrite elem_of_cons; set_solver|].
  destruct (x <? z); [rewrite !elem_of_cons; done|]. destruct (Z.eqb_spec x z) as [->|].
  - rewrite elem_of_cons. naive_solver.
  - rewrite !elem_of_cons, IH. naive_solver.
Qed.

Lemma insert_cut_sorted x l : StronglySorted Z.lt l -> StronglySorted Z.lt (insert_cut x l).
Proof.
  induction 1 as [|z l Hs IH Hz]; cbn [insert_cut]; [repeat constructor|].
  destruct (Z.ltb_spec x z).
  - constructor; [by constructor|]. constructor; [done|]. eapply Forall_impl; [exact Hz|]. simpl. lia.
  - destruct (Z.eqb_spec x z); [by constructor|]. constructor; [done|]. apply Forall_forall. intros y Hy.
    apply insert_cut_in in Hy as [->|Hy]; [lia|]. rewrite Forall_forall in Hz. by apply Hz.
Qed.

Lemma cuts_sorted elements : StronglySorted Z.lt (cuts elements).
Proof. unfold cuts. induction (concat _); simpl; [constructor|by apply insert_cut_sorted]. Qed.

Lemma cuts_in elements x : x ∈ cuts elements <-> exists e, e ∈ elements /\ (x = first_cpu e \/ x = last_cpu e + 1).
Proof.
  unfold cuts. assert (Hf : forall l, x ∈ foldr insert_cut [] l <-> x ∈ l).
  { induction l as [|y l IH]; simpl; [done|]. rewrite insert_cut_in, IH, elem_of_cons. done. }
  rewrite Hf. induction elements as [|e es IH]; [split; [intros H; by apply not_elem_of_nil in H|naive_solver set_solver]|].
  rewrite fmap_cons. cbn [concat]. rewrite elem_of_app, IH. rewrite !elem_of_cons. split.
  - intros [[H|[H|H]]|(e' & He & H)]; [..|by exists e'; set_solver]; [exists e; set_solver..|]. by apply not_elem_of_nil in H.
  - intros (e' & [->|He]%elem_of_cons & H); [left; naive_solver|right; by exists e'].
Qed.

(** ** Parsed elements *)

Lemma parse_u32_range s n : parse_u32 s = Some n -> 0 <= n < 2 ^ 32.
Proof. unfold parse_u32. destruct (parse_uint 32 s) eqn:E; [|done]. intros [= <-]. by apply (parse_uint_range 32 s). Qed.

Lemma parse_element_wf part e : parse_element part = Some e -> element_wf e.
Proof.
  unfold parse_element. destruct (is_empty_str _); [done|].
  assert (Hs : forall p span s, parse_stride p = Some (span, s) -> 0 < s).
  { intros p span s. unfold parse_stride. destruct (split_once _ p) as [[sp r]|]; [|intros; simplify_eq; lia].
    destruct (parse_u32 (trim r)) as [n|] eqn:En; [|done]. apply parse_u32_range in En.
    destruct (_ || _) eqn:Eo; [done|]. apply orb_false_iff in Eo as [Eo _]. zbool. intros. simplify_eq. lia. }
  assert (Hp : forall span a b, parse_span span = Some (a, b) -> 0 <= a <= b /\ b < 2 ^ 32).
  { intros span a b. unfold parse_span. destruct (split_once _ span) as [[sa sb]|].
    - destruct (parse_u32 (trim sa)) as [x|] eqn:Ea; [|done]. destruct (parse_u32 (trim sb)) as [y|] eqn:Eb; [|done].
      apply parse_u32_range in Ea, Eb. destruct (Z.ltb_spec y x); [done|]. intros. simplify_eq. lia.
    - destruct (parse_u32 span) as [x|] eqn:Ea; [|done]. apply parse_u32_range in Ea. intros. simplify_eq. lia. }
  destruct (parse_stride _) as [[span s]|] eqn:Es; [|done]. destruct (parse_span span) as [[a b]|] eqn:Ep; [|done].
  intros [= <-]. apply Hs in Es. apply Hp in Ep. unfold element_wf. simpl. lia.
Qed.

Lemma parse_elements_wf parts es : parse_elements parts = Some es -> Forall element_wf es.
Proof.
  revert es. induction parts as [|p parts IH]; intros es; cbn [parse_elements]; [intros [= <-]; constructor|].
  destruct (parse_element p) as [e|] eqn:E; [|done]. destruct (parse_elements parts) as [l|]; [|done].
  intros [= <-]. constructor; [by eapply parse_element_wf|by apply IH].
Qed.

(** The number of positions that satisfy [P] is the size of their set. *)
Lemma cnt_size P hi : exists X : gset Z, (forall c, c ∈ X <-> 0 <= c < hi /\ P c = true) /\ cnt P 0 hi = Z.of_nat (size X).
Proof.
  exists (list_to_set (List.filter P (seqZ 0 (hi - 0)))). split.
  - intros c. rewrite elem_of_list_to_set, list_elem_of_In, filter_In, <- list_elem_of_In, elem_of_seqZ. naive_solver lia.
  - unfold cnt. rewrite size_list_to_set; [done|]. apply NoDup_ListNoDup, List.NoDup_filter, NoDup_ListNoDup, NoDup_seqZ.
Qed.

Lemma count_segments_total elements cpu_line : Forall element_wf elements -> elements <> [] -> 2 ^ 32 <= cpu_line ->
  count_segments elements (cuts elements) 0 = Some (cnt (named elements) 0 cpu_line).
Proof.
  intros Hw Hne Hline. pose proof (cuts_sorted elements) as Hs. destruct (cuts elements) as [|lo rest] eqn:Ec.
  - destruct elements as [|e es]; [done|]. exfalso. apply (not_elem_of_nil (first_cpu e)). rewrite <- Ec.
    apply cuts_in. exists e. split; [left|by left].
  - assert (Hin : forall e, e ∈ elements -> (first_cpu e ∈ lo :: rest) /\ (last_cpu e + 1 ∈ lo :: rest)).
    { intros e He. rewrite <- Ec, !cuts_in. split; exists e; naive_solver. }
    destruct (count_segments_exact elements rest lo 0) as (hi & E & Hlh & Hr); [done|done| |].
    { apply Forall_forall. intros e He. destruct (Hin e He) as [Ha Hb]. rewrite elem_of_cons in Ha, Hb. naive_solver lia. }
    rewrite E, Z.add_0_l. f_equal. inversion Hs as [|? ? _ Hlo]; subst. rewrite Forall_forall in Hlo, Hr. rewrite Forall_forall in Hw.
    assert (Hb : forall e, e ∈ elements -> lo <= first_cpu e /\ last_cpu e + 1 <= hi).
    { intros e He. destruct (Hin e He) as [Ha Hb]. rewrite elem_of_cons in Ha, Hb. split.
      - destruct Ha as [->|Ha]; [lia|]. specialize (Hlo _ Ha). lia.
      - destruct Hb as [->|Hb]; [lia|]. by apply Hr. }
    assert (Hnone : forall c, named elements c = true -> lo <= c < hi).
    { intros c Hc. unfold named in Hc. apply existsb_exists in Hc as (e & He & Hn). apply list_elem_of_In in He.
      destruct (Hb e He). unfold names in Hn. zbool. lia. }
    assert (Hz : forall a b, b <= lo \/ hi <= a -> cnt (named elements) a b = 0).
    { intros a b Hab. apply cnt_none. intros c Hc. destruct (named elements c) eqn:En; [|done]. apply Hnone in En. lia. }
    assert (0 <= lo).
    { assert (lo ∈ cuts elements) as Hl by (rewrite Ec; left). apply cuts_in in Hl as (e & He & Hl).
      destruct (Hw e He) as ((? & ?) & _). lia. }
    assert (lo <= cpu_line).
    { destruct elements as [|e es]; [done|]. destruct (Hb e) as [? _]; [left|]. destruct (Hw e) as ((? & ?) & ? & _); [left|]. lia. }
    destruct (Z.le_ge_cases hi cpu_line).
    + rewrite (cnt_app _ 0 lo cpu_line), (cnt_app _ lo hi cpu_line) by lia. rewrite (Hz 0 lo), (Hz hi cpu_line) by lia. lia.
    + rewrite (cnt_app _ 0 lo cpu_line), (cnt_app _ lo cpu_line hi) by lia. rewrite (Hz 0 lo) by lia.
      rewrite (cnt_none _ cpu_line hi); [lia|]. intros c Hc. destruct (named elements c) eqn:En; [|done].
      unfold named in En. apply existsb_exists in En as (e & He & Hn). apply list_elem_of_In in He.
      destruct (Hw e He) as (_ & ? & _). unfold names in Hn. zbool. lia.
Qed.

Lemma cpu_elements_wf set es : parse_elements (split_char (chr ",") set) = Some es -> Forall element_wf es /\ es <> [].
Proof.
  intros E. split; [by eapply parse_elements_wf|]. pose proof (split_by_nonempty (Z.eqb (chr ",")) set) as Hn. unfold split_char in E.
  destruct (split_by _ set) as [|p ps]; [done|]. cbn [parse_elements] in E. destruct (parse_element p); [|done].
  destruct (parse_elements ps); [|done]. by injection E as <-.
Qed.

Lemma cpu_count_range set n : cpu_count set = Some n -> 0 <= n < 2 ^ 32.
Proof.
  unfold cpu_count, cpu_count_fuel. destruct (parse_elements _) as [es|] eqn:E; [|done].
  destruct (cpu_elements_wf _ _ E) as [Hw Hne]. remember (2 ^ 32) as line eqn:El.
  rewrite (count_segments_total es line Hw Hne) by lia. destruct (cnt_size (named es) line) as (X & _ & ->).
  intros [= <-]. destruct (Z.ltb_spec (Z.of_nat (size X)) line); lia.
Qed.

(** (C39) [cpu_count] counts the union: a text that is not a CPU list answers
    [None], and for every other one the answer is the number of distinct CPUs
    its ranges and strides name, saturating at [u32::MAX], although no range
    is expanded and overlapping strides are merged on the fly; the merge always
    ends. *)
Theorem cpu_count_exact set :
  match parse_elements (split_char (chr ",") set) with
  | None => cpu_count set = None
  | Some elements =>
      exists cpus : gset Z,
        (forall c, c ∈ cpus <-> exists e, e ∈ elements /\ first_cpu e <= c <= last_cpu e /\ (stride e | c - first_cpu e))
        /\ cpu_count set = Some (Z.min (2 ^ 32 - 1) (Z.of_nat (size cpus)))
  end.
Proof.
  unfold cpu_count, cpu_count_fuel. destruct (parse_elements _) as [es|] eqn:E; [|done].
  destruct (cpu_elements_wf _ _ E) as [Hw Hne].
  remember (2 ^ 32) as line eqn:Eline.
  rewrite (count_segments_total es line Hw Hne) by lia. destruct (cnt_size (named es) line) as (X & HX & ->). exists X. split.
  - intros c. rewrite HX. rewrite Forall_forall in Hw. unfold named. rewrite existsb_exists. split.
    + intros (_ & e & He & Hn). apply list_elem_of_In in He. exists e. unfold names in Hn. zbool.
      destruct (Hw e He) as (_ & _ & ?). split; [done|]. split; [lia|]. apply Z.mod_divide; [lia|done].
    + intros (e & He & Hr & Hd). destruct (Hw e He) as (? & ? & ?). split; [lia|]. exists e.
      split; [by apply list_elem_of_In|]. unfold names. rewrite !(proj2 (Z.leb_le _ _)) by lia. simpl.
      apply Z.eqb_eq, Z.mod_divide; [lia|done].
  - f_equal. destruct (Z.ltb_spec (Z.of_nat (size X)) line); lia.
Qed.

Example cpu_count_ex1 : cpu_count (lit "0,2,4,6") = Some 4.
Proof. by vm_compute. Qed.
Example cpu_count_ex2 : cpu_count (lit "0-10:2, 0-12:3, 8-9") = Some 9.
Proof. by vm_compute. Qed.
Example cpu_count_ex3 : cpu_count (lit "0-4000000000:2") = Some 2000000001.
Proof. by vm_compute. Qed.
Example cpu_count_ex4 : cpu_count (lit "0,,2") = None.
Proof. by vm_compute. Qed.
