(* ===== verification/Sorting.v ===== *)
(** * Sorting

    Rust's [sort_by] is stable: the result is the insertion sort of the list.
    Grouping records in a [BTreeMap] keeps the keys ascending and every group
    in the order of arrival. *)

From S2P Require Import Prelude.
From Stdlib Require Import Sorting.Sorted.

Section Sort.
Context {A : Type} (le : A -> A -> bool).

Fixpoint insert_sorted (x : A) (l : list A) : list A :=
  match l with
  | [] => [x]
  | y :: l' => if le x y then x :: l else y :: insert_sorted x l'
  end.

Definition sort_by (l : list A) : list A := foldr insert_sorted [] l.

Lemma insert_sorted_perm x l : insert_sorted x l ≡ₚ x :: l.
Proof. induction l as [|y l IH]; simpl; [done|]. destruct (le x y); [done|]. rewrite IH. apply Permutation_swap. Qed.

Lemma sort_by_perm l : sort_by l ≡ₚ l.
Proof. induction l as [|x l IH]; simpl; [done|]. by rewrite insert_sorted_perm, IH. Qed.

Context (le_total : forall x y, le x y = false -> le y x = true)
        (le_trans : forall x y z, le x y = true -> le y z = true -> le x z = true).

Lemma insert_sorted_sorted x l :
  StronglySorted (fun a b => le a b = true) l -> StronglySorted (fun a b => le a b = true) (insert_sorted x l).
Proof.
  induction 1 as [|y l Hs IH Hy]; simpl; [repeat constructor|]. destruct (le x y) eqn:E.
  - constructor; [by constructor|]. constructor; [done|]. eapply Forall_impl; [exact Hy|]. simpl. intros. by eapply le_trans.
  - constructor; [done|]. rewrite insert_sorted_perm. constructor; [by apply le_total|done].
Qed.

Lemma sort_by_sorted l : StronglySorted (fun a b => le a b = true) (sort_by l).
Proof. induction l; simpl; [constructor|by apply insert_sorted_sorted]. Qed.
End Sort.

Definition sort_Z : list Z -> list Z := sort_by Z.leb.

Lemma sort_Z_sorted l : StronglySorted Z.le (sort_Z l).
Proof.
  unfold sort_Z. assert (H : StronglySorted (fun a b => (a <=? b) = true) (sort_by Z.leb l)).
  { apply sort_by_sorted; intros *; rewrite ?Z.leb_le, ?Z.leb_gt; lia. }
  induction H as [|x m _ IH Hx]; [constructor|]. constructor; [done|]. eapply Forall_impl; [exact Hx|].
  intros y. apply Z.leb_le.
Qed.

Lemma sorted_perm_unique (l m : list Z) : StronglySorted Z.le l -> StronglySorted Z.le m -> l ≡ₚ m -> l = m.
Proof.
  intros Hl. revert m. induction Hl as [|x l Hl IH Hx]; intros m Hm Hp.
  - by apply Permutation_nil in Hp as ->.
  - destruct Hm as [|y m Hm Hy]; [by apply Permutation_sym, Permutation_nil in Hp|].
    assert (x = y) as ->.
    { rewrite Forall_forall in Hx, Hy. assert (x ∈ y :: m) as Hxm by (rewrite <- Hp; left).
      assert (y ∈ x :: l) as Hyl by (rewrite Hp; left). apply elem_of_cons in Hxm as [->|Hxm]; [done|].
      apply elem_of_cons in Hyl as [->|Hyl]; [done|]. specialize (Hx y Hyl). specialize (Hy x Hxm). lia. }
    f_equal. apply IH; [done|]. by apply Permutation_cons_inv in Hp.
Qed.

Lemma seqZ_sorted a n : StronglySorted Z.le (seqZ a n).
Proof.
  destruct (Z.le_gt_cases n 0) as [Hn|Hn]; [rewrite seqZ_nil by done; constructor|].
  rewrite <- (Z2Nat.id n) by lia. generalize (Z.to_nat n) as k. clear Hn n. intros k. revert a.
  induction k as [|k IH]; intros a; [constructor|]. rewrite seqZ_cons by lia. replace (Z.pred _) with (Z.of_nat k) by lia.
  constructor; [apply IH|]. apply Forall_forall. intros y Hy%elem_of_seqZ. lia.
Qed.

(** A sorted list equals a range exactly when it is a permutation of it. *)
Lemma sort_Z_seqZ l a n : sort_Z l = seqZ a n <-> l ≡ₚ seqZ a n.
Proof.
  split; [intros <-; symmetry; apply sort_by_perm|]. intros Hp. apply sorted_perm_unique.
  - apply sort_Z_sorted.
  - apply seqZ_sorted.
  - unfold sort_Z. by rewrite sort_by_perm.
Qed.

(** ** Groups *)

Section Groups.
Context {A : Type} (key : A -> Z).

(** [map.entry(k).or_default().push(x)] on a [BTreeMap]. *)
Fixpoint group_push (x : A) (m : list (Z * list A)) : list (Z * list A) :=
  match m with
  | [] => [(key x, [x])]
  | (k, g) :: m' =>
      if key x <? k then (key x, [x]) :: m
      else if key x =? k then (k, g ++ [x]) :: m'
      else (k, g) :: group_push x m'
  end.

Definition group_by (l : list A) : list (Z * list A) := foldl (fun m x => group_push x m) [] l.

(** A group holds, in order, the elements of its key; the keys ascend. *)
Record groups_of (l : list A) (m : list (Z * list A)) : Prop := {
  gr_sorted : StronglySorted Z.lt m.*1;
  gr_group : forall k g, (k, g) ∈ m -> g = List.filter (fun x => key x =? k) l;
  gr_keys : forall k, k ∈ m.*1 <-> k ∈ key <$> l
}.

Lemma group_push_keys x m k : k ∈ (group_push x m).*1 <-> k = key x \/ k ∈ m.*1.
Proof.
  induction m as [|[k' g] m IH]; cbn [group_push]; [cbn; rewrite elem_of_cons; naive_solver|].
  destruct (Z.ltb_spec (key x) k'); [cbn [fmap list_fmap fst]; rewrite !elem_of_cons; naive_solver|].
  destruct (Z.eqb_spec (key x) k') as [->|]; cbn [fmap list_fmap fst]; rewrite !elem_of_cons; [naive_solver|].
  change (list_fmap _ _ fst (group_push x m)) with ((group_push x m).*1). rewrite IH. naive_solver.
Qed.

Lemma group_push_sorted x m : StronglySorted Z.lt m.*1 -> StronglySorted Z.lt (group_push x m).*1.
Proof.
  induction m as [|[k g] m IH]; cbn [group_push]; intros Hs; [repeat constructor|].
  inversion Hs as [|? ? Hs' Hk]; subst. destruct (Z.ltb_spec (key x) k).
  - constructor; [done|]. constructor; [done|]. eapply Forall_impl; [exact Hk|]. simpl. lia.
  - destruct (Z.eqb_spec (key x) k); [done|]. constructor; [by apply IH|]. apply Forall_forall. intros y Hy.
    apply (group_push_keys x m y) in Hy as [->|Hy]; [simpl; lia|]. rewrite Forall_forall in Hk. by apply Hk.
Qed.

Lemma group_push_in x m k g : StronglySorted Z.lt m.*1 -> (k, g) ∈ group_push x m ->
  (k <> key x /\ (k, g) ∈ m) \/ (k = key x /\ ((exists g', (k, g') ∈ m /\ g = g' ++ [x]) \/ (g = [x] /\ k ∉ m.*1))).
Proof.
  induction m as [|[k' g'] m IH]; cbn [group_push]; intros Hs.
  - rewrite list_elem_of_singleton. intros [= -> ->]. right. split; [done|]. right. split; [done|]. apply not_elem_of_nil.
  - inversion Hs as [|? ? Hs' Hk]; subst. rewrite Forall_forall in Hk.
    destruct (Z.ltb_spec (key x) k') as [Hlt|Hge].
    + intros [E|Hin]%elem_of_cons.
      * simplify_eq. right. split; [done|]. right. split; [done|]. cbn. intros [?|Hc]%elem_of_cons; [lia|].
        specialize (Hk _ Hc). lia.
      * left. split; [|done]. intros ->. apply elem_of_cons in Hin as [?|Hin]; [simplify_eq; lia|].
        apply (list_elem_of_fmap_2 fst) in Hin. simpl in Hin. specialize (Hk _ Hin). lia.
    + destruct (Z.eqb_spec (key x) k') as [Heq|Hne].
      * intros [E|Hin]%elem_of_cons.
        -- simplify_eq. right. split; [done|]. left. exists g'. split; [left|done].
        -- left. split; [|by right]. intros ->. apply (list_elem_of_fmap_2 fst) in Hin. simpl in Hin.
           specialize (Hk _ Hin). lia.
      * intros [E|Hin]%elem_of_cons.
        -- simplify_eq. left. split; [congruence|left].
        -- destruct (IH Hs' Hin) as [[? ?]|[-> [(g'' & Hg & ->)|[-> Hnot]]]].
           ++ left. split; [done|by right].
           ++ right. split; [done|]. left. exists g''. split; [by right|done].
           ++ right. split; [done|]. right. split; [done|]. cbn. intros [?|Hc]%elem_of_cons; [lia|done].
Qed.

Lemma group_by_groups l : groups_of l (group_by l).
Proof.
  unfold group_by. assert (H : forall l' done m, groups_of done m -> groups_of (done ++ l') (foldl (fun m x => group_push x m) m l')).
  { induction l' as [|x l' IH]; intros d m Hg; [by rewrite app_nil_r|]. simpl.
    replace (d ++ x :: l') with ((d ++ [x]) ++ l') by (by rewrite <- app_assoc). apply IH. destruct Hg as [Hs Hgr Hk]. split.
    - by apply group_push_sorted.
    - intros k g Hin. rewrite List.filter_app. cbn [List.filter].
      destruct (group_push_in x m k g Hs Hin) as [[Hne Hin']|[-> [(g' & Hg' & ->)|[-> Hnot]]]].
      + rewrite (proj2 (Z.eqb_neq _ _)) by done. rewrite app_nil_r. by apply Hgr.
      + rewrite Z.eqb_refl. f_equal. by apply Hgr.
      + rewrite Z.eqb_refl. replace (List.filter _ d) with (@nil A); [done|]. symmetry. rewrite Hk in Hnot.
        clear -Hnot. induction d as [|y d IH]; [done|]. cbn [List.filter]. rewrite fmap_cons, not_elem_of_cons in Hnot.
        destruct Hnot as [Hy Hd]. rewrite (proj2 (Z.eqb_neq _ _)) by congruence. by apply IH.
    - intros k. rewrite group_push_keys, Hk, fmap_app, elem_of_app. cbn. rewrite list_elem_of_singleton. naive_solver. }
  apply (H l [] []). split; [constructor|intros k g Hin; by apply not_elem_of_nil in Hin|done].
Qed.
End Groups.
