(* ===== verification/Verdict.v ===== *)
(** * Verdicts on configurations

    The second half of bench/src/analysis.rs: medians and spreads, whether the
    records of an attempt are complete and pass, and how an open-loop
    configuration ends.  An outer [None] is a panic: [median] compares with
    [expect("median inputs are finite")]. *)

From S2P Require Import Prelude Text F64 Api Wire Recorder Generator Pacer RunRecord Analysis Sorting.
From Stdlib Require Import Ascii Sorting.Sorted Floats.SpecFloat.

(** ** Spread *)

Definition is_nan (x : f64) : bool := match x with S754_nan => true | _ => false end.

Definition median (values : list f64) : option (option f64) :=
  match values with
  | [] => Some None
  | _ =>
      let n := length values in
      if (2 <=? n)%nat && existsb is_nan values then None
      else
        let sorted := sort_by f64_le values in
        if Nat.odd n then
          match sorted !! Nat.div2 n with Some m => Some (Some m) | None => None end
        else
          match sorted !! (Nat.div2 n - 1)%nat, sorted !! Nat.div2 n with
          | Some a, Some b => Some (Some (f64_midpoint a b))
          | _, _ => None
          end
  end.

Definition min_max (values : list f64) : f64 * f64 :=
  foldl (fun '(min, max) v => (if f64_lt v min then v else min, if f64_lt max v then v else max))
    (f64_infinity, f64_neg_infinity) values.

Definition spread (values : list f64) : option (option f64) :=
  match median values with
  | None => None
  | Some None => Some None
  | Some (Some m) =>
      if f64_eq m (f64_of_Z 0) then Some None
      else let '(min, max) := min_max values in Some (Some (f64_div (f64_sub max min) m))
  end.

Definition metric (r : RunRecord) : option f64 :=
  match r_kind r with
  | KThroughput => r_throughput r
  | KLatency => match r_latency_ns r with Some l => Some (f64_of_Z (p99 l)) | None => None end
  | KConnections => r_connections_per_sec r
  | KCounted => y_per_msg (r_syscalls r)
  end.

(** ** CPU evidence *)

Definition cpu_percent (ticks clk_tck sampled_ns cpus : Z) : option f64 :=
  if (clk_tck =? 0) || (sampled_ns =? 0) || (cpus =? 0) then None
  else
    let denom := sat_mul 128 (sat_mul 128 clk_tck sampled_ns) cpus in
    if denom =? 0 then None
    else Some (f64_div (f64_of_Z (sat_mul 128 (sat_mul 128 ticks 100) ONE_SECOND_NS)) (f64_of_Z denom)).

Definition host_cpu_pressure_pct (p : HostCpuPressure) : option f64 :=
  if pressure_sampled_ns p =? 0 then None
  else Some (f64_div (f64_of_Z (sat_mul 128 (sat_mul 128 (some_stall_us p) NS_PER_US) 100)) (f64_of_Z (pressure_sampled_ns p))).

Definition host_pressure_note (r : RunRecord) : str :=
  match match r_host_cpu_pressure r with Some p => host_cpu_pressure_pct p | None => None end with
  | Some pct =>
      let pct := f64_div (f64_round (f64_mul pct PCT_TENTHS)) PCT_TENTHS in
      lit "host CPU pressure " ++ f64_fixed 1 pct ++ lit " % over the sampled interval"
  | None => lit "host CPU pressure was not measured"
  end.

(** ** Attempts *)

(** Why an attempt does not count, with the values formatted into the text. *)
Inductive ConfigFailure :=
| WasCancelled (repetition : Z)
| LeftChild (repetition : Z)
| RepetitionsAre (reps : list Z) (repetitions : Z)
| IsInvalid (repetition : Z) (reasons : list str) (note : str)
| HasNoMetric (repetition : Z) (kind : RunKind)
| SpreadAbove (spread : f64)
| SpreadUndefined.

Definition is_survivor (e : str) : bool := starts_with CLEANUP_SURVIVOR_PREFIX e.
Definition left_child (r : RunRecord) : bool := existsb is_survivor (r_harness_errors r).

Definition incomplete_reason (runs : list RunRecord) (repetitions : Z) : option ConfigFailure :=
  match List.find r_cancelled runs with
  | Some r => Some (WasCancelled (r_repetition r))
  | None =>
      match List.find left_child runs with
      | Some r => Some (LeftChild (r_repetition r))
      | None =>
          let reps := sort_Z (r_repetition <$> runs) in
          if bool_decide (reps = seqZ 1 repetitions) then None else Some (RepetitionsAre reps repetitions)
      end
  end.

Definition attempt_complete (runs : list RunRecord) (repetitions : Z) : bool :=
  match incomplete_reason runs repetitions with None => true | Some _ => false end.

(** The metrics of the runs, or the first run without one. *)
Fixpoint collect_metrics (runs : list RunRecord) : result (list f64) RunRecord :=
  match runs with
  | [] => Ok []
  | r :: runs =>
      match metric r with
      | None => Err r
      | Some m => match collect_metrics runs with Ok ms => Ok (m :: ms) | Err e => Err e end
      end
  end.

Definition config_failure (runs : list RunRecord) (repetitions : Z) (enforce_spread : bool) :
    option (option ConfigFailure) :=
  match incomplete_reason runs repetitions with
  | Some reason => Some (Some reason)
  | None =>
      match List.find (fun r => negb (r_valid r)) runs with
      | Some r => Some (Some (IsInvalid (r_repetition r) (r_invalid_reasons r) (host_pressure_note r)))
      | None =>
          if negb enforce_spread then Some None
          else match collect_metrics runs with
               | Err r => Some (Some (HasNoMetric (r_repetition r) (r_kind r)))
               | Ok metrics =>
                   match spread metrics with
                   | None => None
                   | Some (Some s) => Some (if f64_le s SPREAD_LIMIT then None else Some (SpreadAbove s))
                   | Some None => Some (Some SpreadUndefined)
                   end
               end
      end
  end.

Definition config_passes (runs : list RunRecord) (repetitions : Z) (enforce_spread : bool) : option bool :=
  match config_failure runs repetitions enforce_spread with
  | None => None
  | Some None => Some true
  | Some (Some _) => Some false
  end.

(** ** Open-loop outcomes *)

Inductive CapacityRow := Unresolved | MissedSlots | SteadyState.
#[export] Instance CapacityRow_eq_dec : EqDecision CapacityRow.
Proof. solve_decision. Defined.

Definition label (self : CapacityRow) : str :=
  match self with Unresolved => lit "unresolved" | MissedSlots => lit "missed slots" | SteadyState => lit "steady state" end.

Definition capacity_rows (r : RunRecord) : list CapacityRow :=
  if negb (is_open_loop (r_kind r)) then []
  else (if c_unresolved (r_counts r) =? 0 then [] else [Unresolved])
       ++ (if g_missed_slots (r_generator_errors r) =? 0 then [] else [MissedSlots])
       ++ (match steady_state_reason r with Some _ => [SteadyState] | None => [] end).

(** What [Exhausted] names. *)
Inductive Exhaustion :=
| StraceSpent (attempts : Z)
| AttemptRefused (attempt : Z) (reason : option ConfigFailure)
| CounterFailed (attempt repetition : Z) (reasons : list str)
| NoCapacityRow (attempt repetition : Z) (reasons : list str).

Inductive OpenLoopOutcome :=
| Passed
| Pending
| NotSustained (rows : list CapacityRow)
| Exhausted (cause : Exhaustion).

Definition attempt_groups (runs : list RunRecord) : list (Z * list RunRecord) := group_by r_attempt runs.

Definition completed_groups (runs : list RunRecord) (constants : ProtocolConstants) : list (Z * list RunRecord) :=
  List.filter (fun g => attempt_complete g.2 (repetitions constants)) (attempt_groups runs).

(** [u32::try_from(completed.len()).unwrap_or(u32::MAX)]. *)
Definition len_u32 {A} (l : list A) : Z := Z.min (2 ^ 32 - 1) (Z.of_nat (length l)).

Definition invalid_runs (group : list RunRecord) : list RunRecord :=
  sort_by (fun a b => r_repetition a <=? r_repetition b) (List.filter (fun r => negb (r_valid r)) group).

(** The loop over the invalid repetitions of one attempt. *)
Fixpoint classify_invalid (attempt : Z) (invalid : list RunRecord) (rows : list CapacityRow) :
    result (list CapacityRow) Exhaustion :=
  match invalid with
  | [] => Ok rows
  | r :: invalid =>
      if counter_failed r then Err (CounterFailed attempt (r_repetition r) (r_invalid_reasons r))
      else match capacity_rows r with
           | [] => Err (NoCapacityRow attempt (r_repetition r) (r_invalid_reasons r))
           | run_rows => classify_invalid attempt invalid (rows ++ run_rows)
           end
  end.

(** The loop over the completed attempts; outer [None] is a panic. *)
Fixpoint classify_completed (completed : list (Z * list RunRecord)) (constants : ProtocolConstants)
    (rows : list CapacityRow) : option (result (list CapacityRow) Exhaustion) :=
  match completed with
  | [] => Some (Ok rows)
  | (attempt, group) :: completed =>
      match invalid_runs group with
      | [] =>
          match config_failure group (repetitions constants) (enforce_spread constants) with
          | None => None
          | Some reason => Some (Err (AttemptRefused attempt reason))
          end
      | invalid =>
          match classify_invalid attempt invalid rows with
          | Err cause => Some (Err cause)
          | Ok rows => classify_completed completed constants rows
          end
      end
  end.

(** A [BTreeSet] of rows, read out in their order. *)
Definition row_set (rows : list CapacityRow) : list CapacityRow :=
  List.filter (fun r => bool_decide (r ∈ rows)) [Unresolved; MissedSlots; SteadyState].

Definition is_strace_counted (r : RunRecord) : bool :=
  bool_decide (r_kind r = KCounted) && bool_decide (y_method (r_syscalls r) = Strace).

Definition open_loop_outcome (runs : list RunRecord) (constants : ProtocolConstants) : option OpenLoopOutcome :=
  match last (attempt_groups runs) with
  | None => Some Pending
  | Some (_, highest) =>
      match config_passes highest (repetitions constants) (enforce_spread constants) with
      | None => None
      | Some true => Some Passed
      | Some false =>
          let completed := completed_groups runs constants in
          if len_u32 completed <? max_config_attempts constants then Some Pending
          else if existsb is_strace_counted runs then Some (Exhausted (StraceSpent (max_config_attempts constants)))
          else match classify_completed completed constants [] with
               | None => None
               | Some (Err cause) => Some (Exhausted cause)
               | Some (Ok rows) => Some (NotSustained (row_set rows))
               end
      end
  end.

(** ** Schedules *)

Definition interleave {A} (configs : list A) (repetitions : Z) : list (A * Z) :=
  concat ((fun rep => (fun cfg => (cfg, rep)) <$> configs) <$> seqZ 1 repetitions).

(** ** Driver proof

    The listing of an fd directory: [read_dir] can fail, every entry can fail,
    and so can the [read_link] of an entry. *)

Inductive FsErrorKind := NotFound | AlreadyExists | OtherError (code : Z).
#[export] Instance FsErrorKind_eq_dec : EqDecision FsErrorKind.
Proof. solve_decision. Defined.

Fixpoint count_fd_entries (entries : list (result (result str FsErrorKind) FsErrorKind)) (uring epoll : Z) :
    result DriverFds FsErrorKind :=
  match entries with
  | [] => Ok {| io_uring_fds := uring; eventpoll_fds := epoll |}
  | Err e :: _ => Err e
  | Ok (Ok s) :: entries =>
      if bool_decide (s = lit "anon_inode:[io_uring]") then count_fd_entries entries (sat_add 32 uring 1) epoll
      else if bool_decide (s = lit "anon_inode:[eventpoll]") then count_fd_entries entries uring (sat_add 32 epoll 1)
      else count_fd_entries entries uring epoll
  | Ok (Err NotFound) :: entries => count_fd_entries entries uring epoll
  | Ok (Err e) :: _ => Err e
  end.

Definition count_driver_fds (fd_dir : result (list (result (result str FsErrorKind) FsErrorKind)) FsErrorKind) :
    result DriverFds FsErrorKind :=
  match fd_dir with Err e => Err e | Ok entries => count_fd_entries entries 0 0 end.

(** ** What the verdicts mean *)

Definition attempt_runs (runs : list RunRecord) (a : Z) : list RunRecord := List.filter (fun r => r_attempt r =? a) runs.

(** A complete attempt: its repetitions are 1 to [n], each once, none cut short
    and none that left a child behind. *)
Definition complete_attempt (runs : list RunRecord) (n : Z) : Prop :=
  (forall r, r ∈ runs -> r_cancelled r = false /\ forall e, e ∈ r_harness_errors r -> is_survivor e = false)
  /\ r_repetition <$> runs ≡ₚ seqZ 1 n.

Lemma find_none {A} (f : A -> bool) l : List.find f l = None <-> forall x, x ∈ l -> f x = false.
Proof.
  induction l as [|y l IH]; simpl; [split; [intros _ x Hx; by apply not_elem_of_nil in Hx|done]|].
  destruct (f y) eqn:E; [split; [done|intros H; by rewrite H in E by left]|].
  rewrite IH. split; [intros H x [->|Hx]%elem_of_cons; auto|intros H x Hx; apply H; by right].
Qed.

Lemma existsb_false {A} (f : A -> bool) l : existsb f l = false <-> forall x, x ∈ l -> f x = false.
Proof.
  induction l as [|y l IH]; simpl; [split; [intros _ x Hx; by apply not_elem_of_nil in Hx|done]|].
  rewrite orb_false_iff, IH. split; [intros [H1 H2] x [->|Hx]%elem_of_cons; auto|].
  intros H. split; [apply H; left|intros x Hx; apply H; by right].
Qed.

Lemma attempt_complete_iff runs n : attempt_complete runs n = true <-> complete_attempt runs n.
Proof.
  unfold attempt_complete, incomplete_reason, complete_attempt.
  destruct (List.find r_cancelled runs) as [r|] eqn:E1.
  { split; [done|]. intros [H _]. apply List.find_some in E1 as [Hin Hc]. apply list_elem_of_In in Hin.
    destruct (H r Hin). congruence. }
  destruct (List.find left_child runs) as [r|] eqn:E2.
  { split; [done|]. intros [H _]. apply List.find_some in E2 as [Hin Hc]. apply list_elem_of_In in Hin.
    destruct (H r Hin) as [_ Hs]. unfold left_child in Hc. by rewrite (proj2 (existsb_false _ _)) in Hc. }
  rewrite find_none in E1, E2.
  rewrite <- sort_Z_seqZ. case_bool_decide as Hs; [|by split; [|intros [_ ?]]]. split; [|done]. intros _. split; [|done].
  intros r Hr. split; [by apply E1|]. by apply existsb_false, E2.
Qed.

Lemma config_passes_iff runs n enforce : config_passes runs n enforce = Some true <->
  complete_attempt runs n /\ (forall r, r ∈ runs -> r_valid r = true)
  /\ (enforce = true -> exists ms s, collect_metrics runs = Ok ms /\ spread ms = Some (Some s) /\ f64_le s SPREAD_LIMIT = true).
Proof.
  rewrite <- attempt_complete_iff. unfold config_passes, config_failure, attempt_complete.
  destruct (incomplete_reason runs n); [naive_solver|].
  destruct (List.find (fun r => negb (r_valid r)) runs) as [r|] eqn:E.
  { split; [done|]. intros (_ & H & _). apply List.find_some in E as [Hin Hv]. apply list_elem_of_In in Hin.
    rewrite H in Hv by done. done. }
  rewrite find_none in E. assert (Hval : forall r, r ∈ runs -> r_valid r = true).
  { intros r Hr. specialize (E r Hr). by apply negb_false_iff in E. }
  destruct enforce; cbn [negb]; [|naive_solver].
  destruct (collect_metrics runs) as [ms|]; [destruct (spread ms) as [[s|]|] eqn:Es; [destruct (f64_le s SPREAD_LIMIT) eqn:El|..]|];
    try (split; [done|]; intros (_ & _ & H); destruct (H eq_refl) as (ms' & s' & ? & ? & ?); congruence).
  split; [|done]. intros _. split; [done|]. split; [done|]. intros _. by exists ms, s.
Qed.

(** Facts about the attempts of a list of records. *)
Definition attempts (runs : list RunRecord) : list Z := r_attempt <$> runs.
Definition completed (runs : list RunRecord) (k : ProtocolConstants) (a : Z) : Prop :=
  a ∈ attempts runs /\ complete_attempt (attempt_runs runs a) (repetitions k).
Definition highest_attempt (runs : list RunRecord) (h : Z) : Prop :=
  h ∈ attempts runs /\ forall a, a ∈ attempts runs -> a <= h.

Lemma completed_groups_spec runs k a g : (a, g) ∈ completed_groups runs k <-> completed runs k a /\ g = attempt_runs runs a.
Proof.
  destruct (group_by_groups r_attempt runs) as [_ Hg Hk]. unfold completed_groups, completed.
  rewrite list_elem_of_In, filter_In, <- list_elem_of_In. fold (attempt_groups runs) in *. cbn [snd].
  rewrite attempt_complete_iff. split.
  - intros [Hin Hc]. pose proof (Hg _ _ Hin) as ->. split; [|done]. split; [|done].
    apply Hk. by apply (list_elem_of_fmap_2 fst) in Hin.
  - intros [[Ha Hc] ->]. apply Hk, list_elem_of_fmap in Ha as ([a' g'] & -> & Hin). cbn [fst] in *.
    pose proof (Hg _ _ Hin) as E. fold (attempt_runs runs a') in E. by rewrite <- E in Hc |- *.
Qed.

Lemma completed_groups_nodup runs k : NoDup (completed_groups runs k).*1.
Proof.
  destruct (group_by_groups r_attempt runs) as [Hs _ _]. unfold completed_groups. fold (attempt_groups runs) in Hs.
  induction (attempt_groups runs) as [|[a g] m IH]; cbn [List.filter]; [constructor|]. inversion Hs as [|? ? Hs' Ha]; subst.
  destruct (attempt_complete _ _); [|by apply IH]. rewrite fmap_cons. constructor; [|by apply IH].
  intros Hin. apply list_elem_of_fmap in Hin as ([a' g'] & E & Hin). cbn [fst] in *. subst a'.
  apply list_elem_of_In, filter_In in Hin as [Hin _]. apply list_elem_of_In, (list_elem_of_fmap_2 fst) in Hin.
  rewrite Forall_forall in Ha. specialize (Ha _ Hin). simpl in Ha. lia.
Qed.

Lemma last_group runs : match last (attempt_groups runs) with
  | None => runs = []
  | Some (h, g) => highest_attempt runs h /\ g = attempt_runs runs h
  end.
Proof.
  destruct (group_by_groups r_attempt runs) as [Hs Hg Hk]. fold (attempt_groups runs) in *.
  destruct (last (attempt_groups runs)) as [[h g]|] eqn:E.
  - apply last_Some in E as [m E]. assert (Hin : (h, g) ∈ attempt_groups runs) by (rewrite E; set_solver).
    split; [|by apply Hg]. split; [by apply Hk; apply (list_elem_of_fmap_2 fst) in Hin|].
    intros a Ha. apply Hk in Ha. rewrite E, fmap_app in Ha, Hs. apply elem_of_app in Ha as [Ha|Ha].
    + clear -Hs Ha. induction m as [|[x gx] m IH]; [by apply not_elem_of_nil in Ha|]. rewrite fmap_cons in Ha, Hs.
      inversion Hs as [|? ? Hs' Hx]; subst. apply elem_of_cons in Ha as [->|Ha]; [|by apply IH].
      rewrite Forall_forall in Hx. specialize (Hx h). cbn in Hx. assert (x < h); [|simpl; lia]. apply Hx. set_solver.
    + cbn in Ha. apply list_elem_of_singleton in Ha as ->. lia.
  - apply last_None in E. rewrite E in Hk. destruct runs as [|r runs]; [done|]. exfalso.
    apply (not_elem_of_nil (r_attempt r)). apply Hk. rewrite fmap_cons. left.
Qed.

(** ** Open-loop outcomes, declaratively *)

(** [n] attempts of the configuration are complete. *)
Definition completed_count (runs : list RunRecord) (k : ProtocolConstants) (n : Z) : Prop :=
  exists l, NoDup l /\ (forall a, a ∈ l <-> completed runs k a) /\ n = Z.of_nat (length l).

Definition highest_fails (runs : list RunRecord) (k : ProtocolConstants) : Prop :=
  exists h, highest_attempt runs h
    /\ config_passes (attempt_runs runs h) (repetitions k) (enforce_spread k) = Some false.

Definition budget_spent (runs : list RunRecord) (k : ProtocolConstants) : Prop :=
  highest_fails runs k /\ exists n, completed_count runs k n /\ max_config_attempts k <= Z.min (2 ^ 32 - 1) n.

(** An invalid repetition of a complete attempt. *)
Definition failed_run (runs : list RunRecord) (k : ProtocolConstants) (a : Z) (r : RunRecord) : Prop :=
  completed runs k a /\ r ∈ attempt_runs runs a /\ r_valid r = false.

(** The run missed only what the server's capacity decides. *)
Definition capacity_failure (r : RunRecord) : Prop := counter_failed r = false /\ capacity_rows r <> [].

Definition exhaustion_holds (runs : list RunRecord) (k : ProtocolConstants) (cause : Exhaustion) : Prop :=
  match cause with
  | StraceSpent n => n = max_config_attempts k /\ exists r, r ∈ runs /\ is_strace_counted r = true
  | AttemptRefused a reason =>
      completed runs k a /\ (forall r, r ∈ attempt_runs runs a -> r_valid r = true)
      /\ config_failure (attempt_runs runs a) (repetitions k) (enforce_spread k) = Some reason
  | CounterFailed a rep _ => exists r, failed_run runs k a r /\ r_repetition r = rep /\ counter_failed r = true
  | NoCapacityRow a rep _ => exists r, failed_run runs k a r /\ r_repetition r = rep /\ capacity_rows r = []
  end.

Definition outcome_means (runs : list RunRecord) (k : ProtocolConstants) (out : OpenLoopOutcome) : Prop :=
  match out with
  | Passed => exists h, highest_attempt runs h
      /\ config_passes (attempt_runs runs h) (repetitions k) (enforce_spread k) = Some true
  | Pending => runs = [] \/ (highest_fails runs k
      /\ exists n, completed_count runs k n /\ Z.min (2 ^ 32 - 1) n < max_config_attempts k)
  | NotSustained rows =>
      budget_spent runs k /\ (forall r, r ∈ runs -> is_strace_counted r = false)
      /\ (forall a, completed runs k a -> exists r, failed_run runs k a r)
      /\ (forall a r, failed_run runs k a r -> capacity_failure r)
      /\ rows = row_set rows
      /\ forall row, row ∈ rows <-> exists a r, failed_run runs k a r /\ row ∈ capacity_rows r
  | Exhausted cause => budget_spent runs k /\ exhaustion_holds runs k cause
  end.

Lemma invalid_runs_in g r : r ∈ invalid_runs g <-> r ∈ g /\ r_valid r = false.
Proof.
  unfold invalid_runs. rewrite (sort_by_perm _ _), list_elem_of_In, filter_In, <- list_elem_of_In, negb_true_iff. done.
Qed.

Lemma invalid_rows_in g row :
  row ∈ concat (capacity_rows <$> invalid_runs g) <-> exists r, r ∈ g /\ r_valid r = false /\ row ∈ capacity_rows r.
Proof.
  rewrite list_elem_of_In, in_concat. split.
  - intros (x & Hx & Hin). apply list_elem_of_In, list_elem_of_fmap in Hx as (r & -> & Hr).
    apply invalid_runs_in in Hr as [? ?]. exists r. split_and!; try done. by apply list_elem_of_In.
  - intros (r & Hr & Hv & Hin). exists (capacity_rows r). split; [|by apply list_elem_of_In].
    apply list_elem_of_In, list_elem_of_fmap. exists r. split; [done|]. by apply invalid_runs_in.
Qed.

Lemma classify_invalid_spec a l : forall rows,
  match classify_invalid a l rows with
  | Ok rows' => (forall r, r ∈ l -> capacity_failure r) /\ rows' = rows ++ concat (capacity_rows <$> l)
  | Err (CounterFailed a' rep _) => a' = a /\ exists r, r ∈ l /\ r_repetition r = rep /\ counter_failed r = true
  | Err (NoCapacityRow a' rep _) => a' = a /\ exists r, r ∈ l /\ r_repetition r = rep /\ capacity_rows r = []
  | Err _ => False
  end.
Proof.
  induction l as [|r l IH]; intros rows; cbn [classify_invalid].
  - split; [intros r Hr; by apply not_elem_of_nil in Hr|by rewrite app_nil_r].
  - destruct (counter_failed r) eqn:Ec; [split; [done|]; exists r; split; [left|done]|].
    destruct (capacity_rows r) as [|x xs] eqn:Er; [split; [done|]; exists r; split; [left|done]|].
    specialize (IH (rows ++ x :: xs)). destruct (classify_invalid a l (rows ++ x :: xs)) as [rows'|[]]; try done.
    + destruct IH as [Hl ->]. split.
      * intros r' [->|Hr]%elem_of_cons; [|by apply Hl]. by split; [|rewrite Er].
      * rewrite fmap_cons. cbn [concat]. by rewrite Er, <- app_assoc.
    + destruct IH as [-> (r' & Hr & ?)]. split; [done|]. exists r'. split; [by right|done].
    + destruct IH as [-> (r' & Hr & ?)]. split; [done|]. exists r'. split; [by right|done].
Qed.

(** What the loop over the completed groups establishes about them. *)
Lemma classify_completed_spec k c : forall rows res, classify_completed c k rows = Some res ->
  match res with
  | Ok rows' =>
      (forall a g, (a, g) ∈ c -> exists r, r ∈ g /\ r_valid r = false)
      /\ (forall a g r, (a, g) ∈ c -> r ∈ g -> r_valid r = false -> capacity_failure r)
      /\ forall row, row ∈ rows' <-> row ∈ rows \/ exists a g r, (a, g) ∈ c /\ r ∈ g /\ r_valid r = false /\ row ∈ capacity_rows r
  | Err (StraceSpent _) => False
  | Err (AttemptRefused a reason) => exists g, (a, g) ∈ c /\ (forall r, r ∈ g -> r_valid r = true)
      /\ config_failure g (repetitions k) (enforce_spread k) = Some reason
  | Err (CounterFailed a rep _) => exists g r, (a, g) ∈ c /\ r ∈ g /\ r_valid r = false /\ r_repetition r = rep /\ counter_failed r = true
  | Err (NoCapacityRow a rep _) => exists g r, (a, g) ∈ c /\ r ∈ g /\ r_valid r = false /\ r_repetition r = rep /\ capacity_rows r = []
  end.
Proof.
  induction c as [|[a g] c IH]; intros rows res; cbn [classify_completed].
  { intros [= <-]. split_and!; [intros a g H; by apply not_elem_of_nil in H|intros a g r H; by apply not_elem_of_nil in H|].
    intros row. split; [by left|]. intros [?|(a & g & r & H & _)]; [done|by apply not_elem_of_nil in H]. }
  destruct (invalid_runs g) as [|r0 rest] eqn:Ei.
  - destruct (config_failure g _ _) as [reason|] eqn:Ef; [|done]. intros [= <-]. exists g. split; [left|]. split; [|done].
    intros r Hr. destruct (r_valid r) eqn:Ev; [done|]. exfalso. apply (not_elem_of_nil r). rewrite <- Ei.
    by apply invalid_runs_in.
  - rewrite <- Ei. pose proof (classify_invalid_spec a (invalid_runs g) rows) as Hs.
    assert (H0 : r0 ∈ invalid_runs g) by (rewrite Ei; left). apply invalid_runs_in in H0 as [Hr0 Hv0].
    destruct (classify_invalid a (invalid_runs g) rows) as [rows1|cause].
    + destruct Hs as [Hcap ->]. intros Hres. specialize (IH _ _ Hres). destruct res as [rows'|[n|b reason|b rep rs|b rep rs]].
      * destruct IH as (He & Hc & Hrow). split_and!.
        -- intros b h [?|Hin]%elem_of_cons; [simplify_eq; by exists r0|by eapply He].
        -- intros b h r [?|Hin]%elem_of_cons Hr Hv; [simplify_eq; by apply Hcap, invalid_runs_in|by eapply Hc].
        -- intros row. rewrite Hrow, elem_of_app.
           rewrite invalid_rows_in. split.
           ++ intros [[?|(r & ?)]|(b & h & r & Hin & ?)]; [by left| |]; right; [exists a, g, r; split; [left|done]|exists b, h, r; split; [by right|done]].
           ++ intros [?|(b & h & r & [?|Hin]%elem_of_cons & ?)]; [by left; left|simplify_eq; left; right; by exists r|right; by exists b, h, r].
      * done.
      * destruct IH as (h & Hin & ?). exists h. split; [by right|done].
      * destruct IH as (h & r & Hin & ?). exists h, r. split; [by right|done].
      * destruct IH as (h & r & Hin & ?). exists h, r. split; [by right|done].
    + intros [= <-]. destruct cause; [done|done| |]; destruct Hs as [-> (r & Hr & ?)]; apply invalid_runs_in in Hr as [? ?];
        exists g, r; (split; [left|done]).
Qed.

Lemma row_set_in rows row : row ∈ row_set rows <-> row ∈ rows.
Proof.
  unfold row_set. rewrite list_elem_of_In, filter_In, bool_decide_eq_true. split; [by intros [_ ?]|].
  intros Hr. split; [|done]. destruct row; set_solver.
Qed.

Lemma row_set_idem rows : row_set rows = row_set (row_set rows).
Proof.
  unfold row_set at 1 2. apply List.filter_ext. intros row. apply bool_decide_ext. by rewrite row_set_in.
Qed.

Lemma completed_groups_count runs k : completed_count runs k (Z.of_nat (length (completed_groups runs k))).
Proof.
  exists (completed_groups runs k).*1. split; [apply completed_groups_nodup|]. split; [|by rewrite length_fmap].
  intros a. rewrite list_elem_of_fmap. split.
  - intros ([a' g] & -> & Hin). by apply completed_groups_spec in Hin as [? _].
  - intros Hc. exists (a, attempt_runs runs a). split; [done|]. by apply completed_groups_spec.
Qed.

(** (C36) Open-loop outcomes: [Passed] and [Pending] mean what they say of the
    highest attempt and of the attempt budget; a configuration is published as
    not sustained only when the budget is spent on complete attempts, each of
    them holds an invalid repetition, and every invalid repetition failed a
    capacity row and no syscall-counter row, and then exactly the rows those
    repetitions failed are named, in order; an exhausted configuration names a
    complete attempt with another cause. *)
Theorem open_loop_outcome_sound runs k out :
  open_loop_outcome runs k = Some out -> outcome_means runs k out.
Proof.
  unfold open_loop_outcome. pose proof (last_group runs) as Hl. destruct (last (attempt_groups runs)) as [[h g]|].
  2: { intros [= <-]. by left. }
  destruct Hl as [Hh ->].
  destruct (config_passes (attempt_runs runs h) _ _) as [[]|] eqn:Ep; [intros [= <-]; by exists h| |done].
  assert (Hf : highest_fails runs k) by (by exists h). pose proof (completed_groups_count runs k) as Hc.
  unfold len_u32. destruct (Z.ltb_spec (Z.min (2 ^ 32 - 1) (Z.of_nat (length (completed_groups runs k)))) (max_config_attempts k)).
  { intros [= <-]. right. split; [done|]. by eexists. }
  assert (Hb : budget_spent runs k) by (split; [done|]; by eexists).
  destruct (existsb is_strace_counted runs) eqn:Es.
  { intros [= <-]. split; [done|]. split; [done|]. apply existsb_exists in Es as (r & Hr & ?). exists r.
    split; [by apply list_elem_of_In|done]. }
  rewrite existsb_false in Es. destruct (classify_completed _ k []) as [res|] eqn:Ec; [|done].
  pose proof (classify_completed_spec k _ _ _ Ec) as Hs.
  assert (Hrun : forall a g r, (a, g) ∈ completed_groups runs k -> r ∈ g -> r_valid r = false -> failed_run runs k a r).
  { intros a g r [Hca ->]%completed_groups_spec Hr Hv. by split_and!. }
  assert (Hgrp : forall a r, failed_run runs k a r -> (a, attempt_runs runs a) ∈ completed_groups runs k).
  { intros a r (Hca & _). by apply completed_groups_spec. }
  destruct res as [rows|cause]; intros [= <-].
  - destruct Hs as (He & Hcap & Hrow). split; [done|]. split; [done|]. split_and!.
    + intros a Hca. destruct (He a (attempt_runs runs a)) as (r & Hr & Hv); [by apply completed_groups_spec|]. by exists r.
    + intros a r Hr. pose proof Hr as (_ & Hin & Hv). by eapply Hcap; [by eapply Hgrp|..].
    + apply row_set_idem.
    + intros row. rewrite row_set_in, Hrow. split.
      * intros [Hn|(a & g & r & Hin & Hr & Hv & Hro)]; [by apply not_elem_of_nil in Hn|]. exists a, r. split; [by eapply Hrun|done].
      * intros (a & r & Hr & Hro). pose proof Hr as (_ & Hin & Hv). right. exists a, (attempt_runs runs a), r.
        split; [by eapply Hgrp|done].
  - split; [done|]. destruct cause; [done|..].
    + destruct Hs as (g & [Hca ->]%completed_groups_spec & ? & ?). by split_and!.
    + destruct Hs as (g & r & Hin & Hr & Hv & ? & ?). exists r. split; [by eapply Hrun|done].
    + destruct Hs as (g & r & Hin & Hr & Hv & ? & ?). exists r. split; [by eapply Hrun|done].
Qed.

(** Verdicts do not panic on metrics that are numbers. *)
Definition metrics_are_numbers (runs : list RunRecord) : Prop :=
  forall r m, r ∈ runs -> metric r = Some m -> is_nan m = false.

Lemma median_total values : existsb is_nan values = false -> is_Some (median values).
Proof.
  intros Hn. unfold median. destruct values as [|v vs] eqn:E; [by eexists|]. rewrite <- E in *. rewrite Hn, andb_false_r.
  assert (Hlen : length (sort_by f64_le values) = length values) by (by rewrite sort_by_perm).
  assert (Hpos : (0 < length values)%nat) by (rewrite E; simpl; lia).
  assert (Hh : (Nat.div2 (length values) < length values)%nat) by (apply Nat.lt_div2; lia).
  destruct (lookup_lt_is_Some_2 (sort_by f64_le values) (Nat.div2 (length values))) as [x ->]; [lia|].
  destruct (Nat.odd _); [by eexists|].
  destruct (lookup_lt_is_Some_2 (sort_by f64_le values) (Nat.div2 (length values) - 1)) as [y ->]; [lia|by eexists].
Qed.

Lemma collect_metrics_numbers runs ms : metrics_are_numbers runs -> collect_metrics runs = Ok ms -> existsb is_nan ms = false.
Proof.
  revert ms. induction runs as [|r runs IH]; intros ms Hr; cbn [collect_metrics]; [by intros [= <-]|].
  destruct (metric r) as [m|] eqn:Em; [|done]. destruct (collect_metrics runs) as [ms'|]; [|done]. intros [= <-].
  cbn [existsb]. rewrite (Hr r m), (IH ms'); try done; [|by left]. intros r' m' Hin. apply Hr. by right.
Qed.

Lemma config_failure_total runs n enforce : metrics_are_numbers runs -> is_Some (config_failure runs n enforce).
Proof.
  intros Hr. unfold config_failure. destruct (incomplete_reason runs n); [by eexists|].
  destruct (List.find _ runs); [by eexists|]. destruct (negb enforce); [by eexists|].
  destruct (collect_metrics runs) as [ms|] eqn:E; [|by eexists]. apply collect_metrics_numbers in E; [|done].
  unfold spread. destruct (median_total ms E) as [[m|] ->]; [|by eexists].
  destruct (f64_eq m _); [by eexists|]. destruct (min_max ms). by eexists.
Qed.

Lemma attempt_runs_in runs a r : r ∈ attempt_runs runs a -> r ∈ runs.
Proof. unfold attempt_runs. rewrite list_elem_of_In, filter_In, <- list_elem_of_In. by intros [? _]. Qed.

Lemma open_loop_outcome_total runs k : metrics_are_numbers runs -> is_Some (open_loop_outcome runs k).
Proof.
  intros Hr. assert (Hg : forall a, metrics_are_numbers (attempt_runs runs a)).
  { intros a r m Hin. apply Hr. by eapply attempt_runs_in. }
  unfold open_loop_outcome. pose proof (last_group runs) as Hl. destruct (last _) as [[h g]|]; [|by eexists].
  destruct Hl as [_ ->]. unfold config_passes.
  destruct (config_failure_total (attempt_runs runs h) (repetitions k) (enforce_spread k) (Hg h)) as [[f|] ->]; [|by eexists].
  destruct (_ <? _); [by eexists|]. destruct (existsb _ _); [by eexists|].
  assert (Hc : forall c rows, (forall a g, (a, g) ∈ c -> metrics_are_numbers g) -> is_Some (classify_completed c k rows)).
  { induction c as [|[a g] c IH]; intros rows Hm; cbn [classify_completed]; [by eexists|].
    destruct (invalid_runs g).
    - destruct (config_failure_total g (repetitions k) (enforce_spread k)) as [x ->]; [apply (Hm a); left|by eexists].
    - destruct (classify_invalid _ _ _); [|by eexists]. apply IH. intros b g' Hin. apply (Hm b). by right. }
  destruct (Hc (completed_groups runs k) []) as [[rows|cause] ->]; [|by eexists..].
  intros a g [_ ->]%completed_groups_spec. apply Hg.
Qed.

(** One attempt of one repetition that lost ten publishes. *)
Module VerdictSample.
Definition spec : RunSpec :=
  {| sp_profile := Recorded; sp_server := Tokio; sp_workers := 1; sp_qos := Some 0; sp_kind := KLatency;
     sp_offered_rate := Some 1000000; sp_repetition := 1; sp_attempt := 1 |}.
Definition lost : RunRecord :=
  let m := build_minimal_record spec in
  {| r_schema := r_schema m; r_profile := r_profile m; r_server := r_server m; r_workers := r_workers m;
     r_qos := r_qos m; r_kind := r_kind m; r_offered_rate := r_offered_rate m; r_repetition := r_repetition m;
     r_attempt := r_attempt m; r_connections := r_connections m; r_payload_bytes := r_payload_bytes m;
     r_qos1_window := r_qos1_window m; r_warmup_secs := r_warmup_secs m; r_window_secs := r_window_secs m;
     r_drain_grace_secs := r_drain_grace_secs m; r_build := r_build m; r_origin_ns := r_origin_ns m;
     r_window := r_window m; r_timeline := r_timeline m; r_cycles_in_window := r_cycles_in_window m;
     r_counts := {| c_scheduled := Some 1000; c_window_scheduled := Some 900; c_offered := 1000; c_acked := None; c_delivered := 990; c_dropped := None; c_unresolved := 10; c_duplicates := 0; c_foreign := 0; c_latency_over_range := 0; c_clock_anomalies := 0 |};
     r_throughput := r_throughput m; r_last10s := r_last10s m; r_latency_ns := r_latency_ns m;
     r_lateness := r_lateness m; r_lateness_p99_ns := r_lateness_p99_ns m;
     r_last_write_start_ns := r_last_write_start_ns m; r_connections_per_sec := r_connections_per_sec m;
     r_generator_errors := r_generator_errors m; r_syscalls := r_syscalls m; r_driver := r_driver m;
     r_cpu_sets := r_cpu_sets m; r_env := r_env m; r_cpu := r_cpu m;
     r_host_cpu_pressure := r_host_cpu_pressure m; r_worker_loads := r_worker_loads m;
     r_started_at_unix := r_started_at_unix m; r_harness_errors := r_harness_errors m; r_valid := r_valid m;
     r_invalid_reasons := [lit "unresolved 10"]; r_cancelled := r_cancelled m |}.
Definition constants : ProtocolConstants :=
  {| warmup_secs := 1; window_secs := 2; repetitions := 1; drain_grace_secs := 1; max_config_attempts := 1;
     enforce_spread := true |}.
End VerdictSample.

Lemma open_loop_outcome_sound_witness :
  outcome_means [VerdictSample.lost] VerdictSample.constants (NotSustained [Unresolved]).
Proof. apply (open_loop_outcome_sound [VerdictSample.lost]). by vm_compute. Defined.
