(* ===== verification/Matrix.v ===== *)
(** * The benchmark matrix

    bench/src/matrix.rs: which configurations a session runs, how attempts and
    repetitions are scheduled and charged, how records are published, and how
    a session is resumed.  The output and scratch directories, the faults of
    file operations and the readings of the cancellation flag are a [World];
    a file of the output directory holds the record serde reads from it, or
    [None] when it does not parse, and a directory is listed in the order of its
    map.  The executor of one run is a parameter.
    Notices on stderr are left out. *)

From S2P Require Import Prelude Text F64 Api Wire Recorder Generator Pacer RunRecord Analysis Sorting Verdict.
From Stdlib Require Import Ascii.

Definition RECORDED_SERVERS : list ServerKind := [Uring; Tokio; Mosquitto].
Definition RECORDED_WORKERS : list Z := [1; 4].
Definition RECORDED_QOS : list Z := [1; 0].
Definition SCRATCH_REUSED_PREFIX : str := lit "scratch directory reused: ".

Record MatrixSpec := {
  m_profile : Profile; m_servers : list ServerKind; m_workers : list Z; m_qos : list Z; m_resume : bool
}.

Inductive ResumeState := ResumePassed | NextAttempt (attempt remaining : Z).

(** ** The world *)

Record World := {
  files : gmap str (option RunRecord);
  scratch : gset str;
  faults : list (option FsErrorKind);
  cancels : list bool
}.

Inductive SurvivorRefusal := NoIdentity | StillRunning | CouldNotCheck (pid : Z).

(** Why a record refuses a resume, with the record's file. *)
Inductive ResumeRefusal :=
| RefSurvivor (file entry : str) (why : SurvivorRefusal)
| RefSchema (file : str) (schema : Z)
| RefProfile (file : str)
| RefRate (file : str) (rate : option Z)
| RefEnv (file field : str)
| RefMethod (file : str) (method : SyscallMethod)
| RefCpuSet (file field : str)
| RefSummary (file : str) (mismatches : list Mismatch)
| RefPanic.

(** What [write_record] answers. *)
Inductive WriteError :=
| TmpExists (name : str)
| RecordExists (name : str)
| WriteIo (what name : str) (e : FsErrorKind).

Inductive MatrixError :=
| ErrCancelled
| ErrSurvivor (survivors : list str) (also : option WriteError)
| ErrWrite (e : WriteError)
| ErrIo (what : str) (e : FsErrorKind)
| ErrParse (name : str)
| ErrSchema (name : str) (schema : Z)
| ErrFileName (name expected : str)
| ErrResume (refusal : ResumeRefusal)
| ErrNoRates (workers qos : Z)
| ErrPanic
| OutOfFuel.

Definition Mx (A : Type) : Type := World -> result A MatrixError * World.
Definition mret {A} (a : A) : Mx A := fun w => (Ok a, w).
Definition mfail {A} (e : MatrixError) : Mx A := fun w => (Err e, w).
Definition mbind {A B} (c : Mx A) (k : A -> Mx B) : Mx B :=
  fun w => match c w with (Ok a, w) => k a w | (Err e, w) => (Err e, w) end.
Declare Scope matrix_scope.
Notation "'let*' x ':=' c 'in' k" := (mbind c (fun x => k))
  (at level 10, x pattern, c at level 100, k at level 200) : matrix_scope.
Notation "'do*' c 'in' k" := (mbind c (fun _ => k)) (at level 10, c at level 100, k at level 200) : matrix_scope.
#[local] Open Scope matrix_scope.

Definition set_files (f : gmap str (option RunRecord)) (w : World) : World :=
  {| files := f; scratch := scratch w; faults := faults w; cancels := cancels w |}.
Definition set_scratch (s : gset str) (w : World) : World :=
  {| files := files w; scratch := s; faults := faults w; cancels := cancels w |}.

(** The next file operation fails with an error, or goes ahead. *)
Definition next_fault (w : World) : option FsErrorKind * World :=
  match faults w with
  | [] => (None, w)
  | f :: fs => (f, {| files := files w; scratch := scratch w; faults := fs; cancels := cancels w |})
  end.

(** [cancel.load(SeqCst)]. *)
Definition load_cancel : Mx bool := fun w =>
  match cancels w with
  | [] => (Ok false, w)
  | c :: cs => (Ok c, {| files := files w; scratch := scratch w; faults := faults w; cancels := cs |})
  end.

(** An operation that only fails or succeeds. *)
Definition io_step (what : str) : Mx unit := fun w =>
  match next_fault w with (Some e, w) => (Err (ErrIo what e), w) | (None, w) => (Ok tt, w) end.

(** ** Requests *)

Definition display_or_none (o : option Z) : str := match o with None => lit "none" | Some n => dec n end.

Definition servers_for (workers : Z) (servers : list ServerKind) : list ServerKind :=
  if workers =? 1 then servers else List.filter (fun s => negb (bool_decide (s = Mosquitto))) servers.

Inductive RequestError :=
| ListsTwice (label : str)
| QosOutside (qos : Z)
| ZeroWorkers
| NothingRuns
| DoesNotUse (selected : SyscallMethod) (path : str)
| Requires (path : str)
| NeedsCounter
| NeedsMosquitto
| FullMatrix
| OutDirIo (e : FsErrorKind)
| NotEmpty
| NothingToResume.

Fixpoint check_distinct_from {A} `{EqDecision A} (label : str) (before values : list A) : result unit RequestError :=
  match values with
  | [] => Ok tt
  | v :: values => if bool_decide (v ∈ before) then Err (ListsTwice label) else check_distinct_from label (before ++ [v]) values
  end.
Definition check_distinct {A} `{EqDecision A} (label : str) (values : list A) : result unit RequestError :=
  check_distinct_from label [] values.

Definition check_domains (spec : MatrixSpec) : result unit RequestError :=
  match List.find (fun q => 1 <? q) (m_qos spec) with
  | Some q => Err (QosOutside q)
  | None => if bool_decide (0 ∈ m_workers spec) then Err ZeroWorkers else Ok tt
  end.

Definition check_runnable (spec : MatrixSpec) : result unit RequestError :=
  if forallb (fun w => is_nil (servers_for w (m_servers spec))) (m_workers spec) then Err NothingRuns else Ok tt.

Definition check_counter_bin (syscalls : SyscallMethod) (perf_bin strace_bin : option str) : result unit RequestError :=
  if bool_decide (is_Some perf_bin) && negb (bool_decide (syscalls = Perf)) then Err (DoesNotUse syscalls (lit "--perf-bin"))
  else if bool_decide (is_Some strace_bin) && negb (bool_decide (syscalls = Strace)) then
    Err (DoesNotUse syscalls (lit "--strace-bin"))
  else match syscalls, perf_bin, strace_bin with
       | Perf, None, _ => Err (Requires (lit "--perf-bin"))
       | Strace, _, None => Err (Requires (lit "--strace-bin"))
       | _, _, _ => Ok tt
       end.

(** A file name with the extension [json]: a non-empty stem before it. *)
Definition has_json_ext (name : str) : bool :=
  match strip_prefix (rev (lit ".json")) (rev name) with Some (_ :: _) => true | _ => false end.

(** [out_dir_has_json] on the answer of [read_dir]: a missing directory has no
    records. *)
Definition out_dir_has_json (listing : result (list str) FsErrorKind) : result bool RequestError :=
  match listing with
  | Ok names => Ok (existsb has_json_ext names)
  | Err NotFound => Ok false
  | Err e => Err (OutDirIo e)
  end.

Definition check_recorded (spec : MatrixSpec) (syscalls : SyscallMethod) (mosquitto_bin : option str) :
    result unit RequestError :=
  match m_profile spec with
  | Smoke => Ok tt
  | Recorded =>
      if bool_decide (syscalls = NoMethod) then Err NeedsCounter
      else if bool_decide (mosquitto_bin = None) then Err NeedsMosquitto
      else if negb (bool_decide (m_servers spec = RECORDED_SERVERS)) then Err FullMatrix
      else if negb (bool_decide (m_workers spec = RECORDED_WORKERS)) then Err FullMatrix
      else if negb (bool_decide (m_qos spec = RECORDED_QOS)) then Err FullMatrix
      else Ok tt
  end.

Definition check_request (spec : MatrixSpec) (syscalls : SyscallMethod) (perf_bin strace_bin mosquitto_bin : option str)
    (listing : result (list str) FsErrorKind) : result unit RequestError :=
  (let? _ := check_distinct (lit "servers") (m_servers spec) in
   let? _ := check_distinct (lit "workers") (m_workers spec) in
   let? _ := check_distinct (lit "qos") (m_qos spec) in
   let? _ := check_domains spec in
   let? _ := check_runnable spec in
   let? _ := check_counter_bin syscalls perf_bin strace_bin in
   let? _ := check_recorded spec syscalls mosquitto_bin in
   let? has_json := out_dir_has_json listing in
   if negb (m_resume spec) then (if has_json then Err NotEmpty else Ok tt)
   else if negb has_json then Err NothingToResume else Ok tt)%uring.

(** ** Reading records *)

Definition read_one (name : str) (body : option RunRecord) : Mx RunRecord :=
  do* io_step (lit "open") in
  match body with
  | None => mfail (ErrParse name)
  | Some rec =>
      if negb (r_schema rec =? SCHEMA_VERSION) then mfail (ErrSchema name (r_schema rec))
      else if negb (bool_decide (name = file_name rec)) then mfail (ErrFileName name (file_name rec))
      else mret rec
  end.

Fixpoint read_entries (entries : list (str * option RunRecord)) : Mx (list RunRecord) :=
  match entries with
  | [] => mret []
  | (name, body) :: entries =>
      do* io_step (lit "entry") in
      if has_json_ext name then
        let* rec := read_one name body in
        let* rest := read_entries entries in
        mret (rec :: rest)
      else read_entries entries
  end.

Definition read_records : Mx (list RunRecord) := fun w =>
  (do* io_step (lit "read dir") in read_entries (map_to_list (files w))) w.

(** ** Resuming *)

Definition SURVIVOR_START_UNKNOWN : str := lit "?".

(** The pid and, when recorded, the start time a survivor entry names. *)
Definition survivor_identity (entry : str) : option (Z * option Z) :=
  match split_once (lit " pid ") entry with
  | None => None
  | Some (_, rest) =>
      match split_once (lit " (start ") rest with
      | None => None
      | Some (pid, rest) =>
          match split_once (lit ")") rest with
          | None => None
          | Some (start, _) =>
              let parsed := if bool_decide (start = SURVIVOR_START_UNKNOWN) then Some None
                            else match ok (parse_uint 64 start) with Some t => Some (Some t) | None => None end in
              match parsed, ok (parse_uint 32 pid) with
              | Some start, Some pid => Some (pid, start)
              | _, _ => None
              end
          end
      end
  end.

(** [proc pid] is the answer of [read_proc_start_time]. *)
Definition survivor_resume_refusal (proc : Z -> result (option Z) str) (entry : str) : option SurvivorRefusal :=
  match survivor_identity entry with
  | None => Some NoIdentity
  | Some (pid, start) =>
      match proc pid with
      | Ok (Some found) =>
          match start with
          | Some s => if s =? found then Some StillRunning else None
          | None => Some StillRunning
          end
      | Ok None => None
      | Err _ => Some (CouldNotCheck pid)
      end
  end.

Definition on_declared_rate (profile : Profile) (rec : RunRecord) : bool :=
  match match r_qos rec with Some q => declared_rates profile (r_workers rec) q | None => None end, r_offered_rate rec with
  | Some rates, Some rate => bool_decide (rate ∈ both rates)
  | _, _ => false
  end.

Definition check_resume_record (proc : Z -> result (option Z) str) (profile : Profile) (syscalls : SyscallMethod) (env : Env)
    (cpu_sets : CpuSets) (rec : RunRecord) : result unit ResumeRefusal :=
  let file := file_name rec in
  let survivor := find_map (fun e => if is_survivor e then
                              match survivor_resume_refusal proc e with Some why => Some (e, why) | None => None end
                            else None) (r_harness_errors rec) in
  match survivor with
  | Some (entry, why) => Err (RefSurvivor file entry why)
  | None =>
      if negb (r_schema rec =? SCHEMA_VERSION) then Err (RefSchema file (r_schema rec))
      else if negb (bool_decide (r_profile rec = profile)) then Err (RefProfile file)
      else if is_open_loop (r_kind rec) && negb (on_declared_rate profile rec) then Err (RefRate file (r_offered_rate rec))
      else if negb (bool_decide (git_sha (r_env rec) = git_sha env)) then Err (RefEnv file (lit "git_sha"))
      else if negb (bool_decide (kernel (r_env rec) = kernel env)) then Err (RefEnv file (lit "kernel"))
      else if negb (bool_decide (host_name (r_env rec) = host_name env)) then Err (RefEnv file (lit "host"))
      else if negb (bool_decide (cpu_model (r_env rec) = cpu_model env)) then Err (RefEnv file (lit "cpu_model"))
      else if negb (bool_decide (tools (r_env rec) = tools env)) then Err (RefEnv file (lit "tools"))
      else if negb (bool_decide (y_method (r_syscalls rec) = NoMethod)) && negb (bool_decide (y_method (r_syscalls rec) = syscalls))
      then Err (RefMethod file (y_method (r_syscalls rec)))
      else if negb (bool_decide (cpus_server (r_cpu_sets rec) = cpus_server cpu_sets)) then Err (RefCpuSet file (lit "server"))
      else if negb (bool_decide (cpus_generator (r_cpu_sets rec) = cpus_generator cpu_sets))
      then Err (RefCpuSet file (lit "generator"))
      else match recompute rec with
           | None => Err RefPanic
           | Some [] => Ok tt
           | Some mismatches => Err (RefSummary file mismatches)
           end
  end.

Fixpoint check_resume (proc : Z -> result (option Z) str) (existing : list RunRecord) (profile : Profile)
    (syscalls : SyscallMethod) (env : Env) (cpu_sets : CpuSets) : result unit ResumeRefusal :=
  match existing with
  | [] => Ok tt
  | rec :: existing =>
      match check_resume_record proc profile syscalls env cpu_sets rec with
      | Err e => Err e
      | Ok _ => check_resume proc existing profile syscalls env cpu_sets
      end
  end.

Definition method_label (method : SyscallMethod) : str :=
  match method with Perf => lit "perf" | Strace => lit "strace" | NoMethod => lit "none" end.

Definition format_tools (tools : list (str * str)) : str :=
  match tools with
  | [] => lit "none"
  | _ => join (lit ", ") ((fun t => t.1 ++ lit "=" ++ t.2) <$> tools)
  end.

(** ** The resume plan *)

Definition runs_of (existing : list RunRecord) (k : ConfigKey) : list RunRecord :=
  List.filter (fun r => bool_decide (key r = k)) existing.

(** The decision for one configuration's records. *)
Definition plan_for (runs : list RunRecord) (constants : ProtocolConstants) : option ResumeState :=
  let sorted := sort_by (fun a b => r_attempt a <=? r_attempt b) runs in
  let highest := match last sorted with Some r => r_attempt r | None => 0 end in
  let max_attempt_runs := List.filter (fun r => r_attempt r =? highest) sorted in
  let completed := len_u32 (List.filter (fun g => attempt_complete g.2 (repetitions constants)) (group_by r_attempt sorted)) in
  match config_passes max_attempt_runs (repetitions constants) (enforce_spread constants) with
  | None => None
  | Some true => Some ResumePassed
  | Some false =>
      if highest + 1 <? 2 ^ 32 then Some (NextAttempt (highest + 1) (sat_sub (max_config_attempts constants) completed))
      else Some (NextAttempt highest 0)
  end.

(** [None] is a panic in one of the verdicts. *)
Fixpoint plan_keys (existing : list RunRecord) (constants : ProtocolConstants) (keys : list ConfigKey)
    (plan : gmap ConfigKey ResumeState) : option (gmap ConfigKey ResumeState) :=
  match keys with
  | [] => Some plan
  | k :: keys =>
      match plan_for (runs_of existing k) constants with
      | None => None
      | Some state => plan_keys existing constants keys (<[k := state]> plan)
      end
  end.

Definition resume_plan (existing : list RunRecord) (constants : ProtocolConstants) : option (gmap ConfigKey ResumeState) :=
  plan_keys existing constants (elements (list_to_set (key <$> existing) : gset ConfigKey)) ∅.

(** ** Publishing a record *)

Definition tmp_name (name : str) : str := name ++ lit ".tmp".

(** [fs::remove_file]; its error is the caller's to ignore. *)
Definition remove_file (name : str) (w : World) : World :=
  match next_fault w with
  | (Some _, w) => w
  | (None, w) => set_files (delete name (files w)) w
  end.

(** A step of [write_record] after the temporary file exists: on a fault it is
    removed again, if [cleanup] is set, and the write fails. *)
Definition write_step (what name : str) (cleanup : bool) (w : World) : result unit WriteError * World :=
  match next_fault w with
  | (None, w) => (Ok tt, w)
  | (Some e, w) => (Err (WriteIo what name e), if cleanup then remove_file (tmp_name name) w else w)
  end.

Definition write_record (record : RunRecord) (w : World) : result unit WriteError * World :=
  let name := file_name record in
  match next_fault w with
  | (Some AlreadyExists, w) => (Err (TmpExists name), w)
  | (Some e, w) => (Err (WriteIo (lit "create") name e), w)
  | (None, w) =>
      if bool_decide (is_Some (files w !! tmp_name name)) then (Err (TmpExists name), w)
      else
        let w := set_files (<[tmp_name name := None]> (files w)) w in
        match write_step (lit "write") name true w with
        | (Err e, w) => (Err e, w)
        | (Ok _, w) =>
        match write_step (lit "flush") name true w with
        | (Err e, w) => (Err e, w)
        | (Ok _, w) =>
        let w := set_files (<[tmp_name name := Some record]> (files w)) w in
        match write_step (lit "flush") name false w with
        | (Err e, w) => (Err e, w)
        | (Ok _, w) =>
        match write_step (lit "sync") name true w with
        | (Err e, w) => (Err e, w)
        | (Ok _, w) =>
            let '(linked, w) :=
              match next_fault w with
              | (Some AlreadyExists, w) => (Err (RecordExists name), w)
              | (Some e, w) => (Err (WriteIo (lit "link") name e), w)
              | (None, w) =>
                  if bool_decide (is_Some (files w !! name)) then (Err (RecordExists name), w)
                  else (Ok tt, set_files (<[name := Some record]> (files w)) w)
              end in
            (linked, remove_file (tmp_name name) w)
        end end end end
  end.

Definition discard_scratch (record : RunRecord) (w : World) : World :=
  match next_fault w with
  | (Some _, w) => w
  | (None, w) => set_scratch (scratch w ∖ {[ str_remove (lit ".json") (file_name record) ]}) w
  end.

Definition created_own_scratch (record : RunRecord) : bool :=
  negb (existsb (starts_with SCRATCH_REUSED_PREFIX) (r_harness_errors record)).

(** ** Attempts in use *)

Definition with_repetition (spec : RunSpec) (rep : Z) : RunSpec :=
  {| sp_profile := sp_profile spec; sp_server := sp_server spec; sp_workers := sp_workers spec; sp_qos := sp_qos spec;
     sp_kind := sp_kind spec; sp_offered_rate := sp_offered_rate spec; sp_repetition := rep;
     sp_attempt := sp_attempt spec |}.
Definition with_attempt (spec : RunSpec) (attempt : Z) : RunSpec :=
  {| sp_profile := sp_profile spec; sp_server := sp_server spec; sp_workers := sp_workers spec; sp_qos := sp_qos spec;
     sp_kind := sp_kind spec; sp_offered_rate := sp_offered_rate spec; sp_repetition := sp_repetition spec;
     sp_attempt := attempt |}.

(** [fs::symlink_metadata]: present, absent, or an inspection error. *)
Definition inspect (path : str) (present : World -> bool) : Mx bool := fun w =>
  match next_fault w with
  | (Some NotFound, w) => (Ok false, w)
  | (Some e, w) => (Err (ErrIo (lit "inspect " ++ path) e), w)
  | (None, w) => (Ok (present w), w)
  end.

Definition in_out_dir (name : str) (w : World) : bool := bool_decide (is_Some (files w !! name)).
Definition in_scratch (name : str) (w : World) : bool := bool_decide (name ∈ scratch w).

Fixpoint attempt_in_use_from (spec : RunSpec) (reps : list Z) : Mx (option str) :=
  match reps with
  | [] => mret None
  | rep :: reps =>
      let stem := stem_for (with_repetition spec rep) in
      let* b := inspect (stem ++ lit ".json") (in_out_dir (stem ++ lit ".json")) in
      if (b : bool) then mret (Some (stem ++ lit ".json")) else
      let* b := inspect (stem ++ lit ".json.tmp") (in_out_dir (stem ++ lit ".json.tmp")) in
      if (b : bool) then mret (Some (stem ++ lit ".json.tmp")) else
      let* b := inspect stem (in_scratch stem) in
      if (b : bool) then mret (Some stem) else attempt_in_use_from spec reps
  end.

Definition attempt_in_use (spec : RunSpec) (repetitions : Z) : Mx (option str) :=
  attempt_in_use_from spec (seqZ 1 repetitions).

(** The first free attempt from [spec]'s on: [None] when the number cannot
    advance.  [fuel] bounds the search. *)
Fixpoint free_attempt_from (fuel : nat) (spec : RunSpec) (repetitions : Z) : Mx (option RunSpec) :=
  match fuel with
  | O => mfail OutOfFuel
  | S fuel =>
      let* used := attempt_in_use spec repetitions in
      match used with
      | None => mret (Some spec)
      | Some _ =>
          if sp_attempt spec + 1 <? 2 ^ 32 then free_attempt_from fuel (with_attempt spec (sp_attempt spec + 1)) repetitions
          else mret None
      end
  end.

(** Every attempt in use has a file or a directory of its own. *)
Definition free_attempt (spec : RunSpec) (repetitions : Z) : Mx (option RunSpec) := fun w =>
  free_attempt_from (S (size (files w) + size (scratch w))) spec repetitions w.

(** ** The run loop *)

Record Loop := {
  pending : list ConfigKey;
  next_attempt : gmap ConfigKey Z;
  left : gmap ConfigKey Z;
  passed : list ConfigKey;
  checked : gset ConfigKey
}.

Record MatrixOutcome := {
  o_passed : list ConfigKey;
  o_failed : list ConfigKey;
  o_not_sustained : list (ConfigKey * list CapacityRow);
  o_stopped : option (ConfigKey * Exhaustion)
}.
Definition outcome_default : MatrixOutcome :=
  {| o_passed := []; o_failed := []; o_not_sustained := []; o_stopped := None |}.

Definition exit_code (o : MatrixOutcome) : Z :=
  match o_stopped o, o_failed o with None, [] => 0 | _, _ => 2 end.

Definition left_of (st : Loop) (k : ConfigKey) : Z := default 0 (left st !! k).

Section RunConfigs.
(** One run, and the check of a configuration whose budget is spent. *)
Context (run : RunSpec -> World -> RunRecord * World)
        (stop : ConfigKey -> Mx (option (ConfigKey * Exhaustion)))
        (constants : ProtocolConstants).

(** The first specification of every key, and the keys in order. *)
Fixpoint dedup_specs (specs : list RunSpec) (seen : gmap ConfigKey RunSpec) : gmap ConfigKey RunSpec * list ConfigKey :=
  match specs with
  | [] => (seen, [])
  | spec :: specs =>
      match seen !! key_of spec with
      | Some _ => dedup_specs specs seen
      | None => let '(m, keys) := dedup_specs specs (<[key_of spec := spec]> seen) in (m, key_of spec :: keys)
      end
  end.

Fixpoint stop_checks (keys : list ConfigKey) (st : Loop) : Mx (option (ConfigKey * Exhaustion) * gset ConfigKey) :=
  match keys with
  | [] => mret (None, checked st)
  | k :: keys =>
      if (left_of st k =? 0) && negb (bool_decide (k ∈ checked st)) then
        let st := {| pending := pending st; next_attempt := next_attempt st; left := left st; passed := passed st;
                     checked := {[k]} ∪ checked st |} in
        let* cause := stop k in
        match cause with
        | Some c => mret (Some c, checked st)
        | None => stop_checks keys st
        end
      else stop_checks keys st
  end.

(** The specifications of the round, and the maps after the search for free
    attempt numbers. *)
Fixpoint active_specs (specs : gmap ConfigKey RunSpec) (keys : list ConfigKey) (next left : gmap ConfigKey Z) :
    Mx (list RunSpec * gmap ConfigKey Z * gmap ConfigKey Z) :=
  match keys with
  | [] => mret ([], next, left)
  | k :: keys =>
      if default 0 (left !! k) =? 0 then active_specs specs keys next left
      else match next !! k, specs !! k with
           | Some attempt, Some template =>
               let* found := free_attempt (with_attempt template attempt) (repetitions constants) in
               match found with
               | None => active_specs specs keys next (<[k := 0]> left)
               | Some spec =>
                   let* rest := active_specs specs keys (<[k := sp_attempt spec]> next) left in
                   let '(active, next, left) := rest in
                   mret (spec :: active, next, left)
               end
           | _, _ => active_specs specs keys next left
           end
  end.

(** The executor as an effect. *)
Definition run_spec (spec : RunSpec) : Mx RunRecord := fun w => let '(r, w) := run spec w in (Ok r, w).

Definition survivors (r : RunRecord) : list str := List.filter is_survivor (r_harness_errors r).

(** One dispatch: run, mark, publish. *)
Definition dispatch (spec : RunSpec) : Mx RunRecord :=
  let* c := load_cancel in
  if (c : bool) then mfail ErrCancelled else
  let* record := run_spec spec in
  let* cancelled := load_cancel in
  let record := set_cancelled record cancelled in
  fun w =>
    match write_record record w with
    | (Err e, w) =>
        let w := if created_own_scratch record then discard_scratch record w else w in
        (Err (match survivors record with [] => ErrWrite e | l => ErrSurvivor l (Some e) end), w)
    | (Ok _, w) =>
        match survivors record with
        | [] => if (cancelled : bool) then (Err ErrCancelled, w) else (Ok record, w)
        | l => (Err (ErrSurvivor l None), w)
        end
    end.

Fixpoint run_round (plan : list (RunSpec * Z)) : Mx (list RunRecord) :=
  match plan with
  | [] => mret []
  | (spec, rep) :: plan =>
      let* record := dispatch (with_repetition spec rep) in
      let* rest := run_round plan in
      mret (record :: rest)
  end.

(** A failed attempt is charged: one from the budget, or all of it when the
    attempt number cannot advance. *)
Definition charge (st : Loop) (k : ConfigKey) : Loop :=
  match next_attempt st !! k with
  | Some a =>
      if a + 1 <? 2 ^ 32 then
        {| pending := pending st; next_attempt := <[k := a + 1]> (next_attempt st);
           left := alter (fun n => sat_sub n 1) k (left st); passed := passed st; checked := checked st |}
      else {| pending := pending st; next_attempt := next_attempt st; left := alter (fun _ => 0) k (left st);
              passed := passed st; checked := checked st |}
  | None => {| pending := pending st; next_attempt := next_attempt st; left := alter (fun _ => 0) k (left st);
               passed := passed st; checked := checked st |}
  end.

(** The verdicts of a round: [None] is a panic. *)
Fixpoint settle (keys : list ConfigKey) (round : list RunRecord) (st : Loop) (still : list ConfigKey) : option Loop :=
  match keys with
  | [] => Some {| pending := still; next_attempt := next_attempt st; left := left st; passed := passed st;
                  checked := checked st |}
  | k :: keys =>
      match runs_of round k with
      | [] => settle keys round st (still ++ [k])
      | runs =>
          match config_failure runs (repetitions constants) (enforce_spread constants) with
          | None => None
          | Some None =>
              settle keys round {| pending := pending st; next_attempt := next_attempt st; left := left st;
                                   passed := passed st ++ [k]; checked := checked st |} still
          | Some (Some _) => settle keys round (charge st k) (still ++ [k])
          end
      end
  end.

Definition round_of (specs : gmap ConfigKey RunSpec) (st : Loop) : Mx (Loop + MatrixOutcome) :=
  let* (cause, checked) := stop_checks (pending st) st in
  match cause with
  | Some c => mret (inr {| o_passed := passed st; o_failed := pending st; o_not_sustained := []; o_stopped := Some c |})
  | None =>
      let* (active, next, left) := active_specs specs (pending st) (next_attempt st) (left st) in
      match active with
      | [] => mret (inr {| o_passed := passed st; o_failed := pending st; o_not_sustained := []; o_stopped := None |})
      | _ =>
          let* round := run_round (interleave active (repetitions constants)) in
          match settle (pending st) round {| pending := pending st; next_attempt := next; left := left;
                                             passed := passed st; checked := checked |} [] with
          | None => mfail ErrPanic
          | Some st => mret (inl st)
          end
      end
  end.

(** [loop]. *)
Fixpoint rounds (n : nat) (specs : gmap ConfigKey RunSpec) (st : Loop) : Mx MatrixOutcome :=
  match n with
  | O => mfail OutOfFuel
  | S n =>
      let* r := round_of specs st in
      match r with inr o => mret o | inl st => rounds n specs st end
  end.

Definition initial_loop (specs : list RunSpec) (remaining : gmap ConfigKey Z) : gmap ConfigKey RunSpec * Loop :=
  let '(spec_for_key, keys) := dedup_specs specs ∅ in
  (spec_for_key,
   {| pending := keys; next_attempt := (fun spec => Z.max (sp_attempt spec) 1) <$> spec_for_key;
      left := map_imap (fun k _ => Some (default (max_config_attempts constants) (remaining !! k))) spec_for_key;
      passed := []; checked := ∅ |}).

(** The attempts the pending configurations have left. *)
Definition budget (st : Loop) : nat := sum_list ((fun k => Z.to_nat (left_of st k)) <$> pending st).

(** Every round but the last spends at least one attempt. *)
Definition run_configs_with_stop (specs : list RunSpec) (remaining : gmap ConfigKey Z) : Mx MatrixOutcome :=
  do* io_step (lit "create out dir") in
  let '(spec_for_key, st) := initial_loop specs remaining in
  rounds (S (budget st)) spec_for_key st.
End RunConfigs.

Definition run_configs (run : RunSpec -> World -> RunRecord * World) (constants : ProtocolConstants)
    (specs : list RunSpec) (remaining : gmap ConfigKey Z) : Mx MatrixOutcome :=
  run_configs_with_stop run (fun _ => mret None) constants specs remaining.

(** ** The session *)

(** The host's tools and directories; the cancellation flag is the world's. *)
Record HostSetup := {
  bench_exe : str; mosquitto_bin : option str; h_syscalls : SyscallMethod; perf_bin : option str; strace_bin : option str;
  h_cpu_sets : CpuSets; h_env : Env; scratch_dir : str; cpu_pressure_path : str
}.

Definition plan_spec (plan : gmap ConfigKey ResumeState) (spec : RunSpec) : option RunSpec :=
  match plan !! key_of spec with
  | Some ResumePassed => None
  | Some (NextAttempt attempt _) => Some (with_attempt spec attempt)
  | None => Some spec
  end.

(** The specifications a stage runs, and the keys the plan skips. *)
Fixpoint plan_specs (plan : gmap ConfigKey ResumeState) (specs : list RunSpec) : list RunSpec * list ConfigKey :=
  match specs with
  | [] => ([], [])
  | spec :: specs =>
      let '(run, skipped) := plan_specs plan specs in
      match plan_spec plan spec with
      | Some spec => (spec :: run, skipped)
      | None => (run, key_of spec :: skipped)
      end
  end.

Definition remaining_of (plan : gmap ConfigKey ResumeState) : gmap ConfigKey Z :=
  omap (fun s => match s with NextAttempt _ remaining => Some remaining | ResumePassed => None end) plan.

Definition first_spec (profile : Profile) (w : Z) (q : option Z) (kind : RunKind) (rate : option Z) (server : ServerKind) :
    RunSpec :=
  {| sp_profile := profile; sp_server := server; sp_workers := w; sp_qos := q; sp_kind := kind; sp_offered_rate := rate;
     sp_repetition := 0; sp_attempt := 1 |}.

Definition throughput_specs (profile : Profile) (servers : list ServerKind) (w q : Z) : list RunSpec :=
  first_spec profile w (Some q) KThroughput None <$> servers.

Definition latency_specs (profile : Profile) (syscalls : SyscallMethod) (servers : list ServerKind) (w q : Z)
    (rates : DeclaredRates) : list RunSpec :=
  servers ≫= (fun server =>
    ((fun rate => first_spec profile w (Some q) KLatency (Some rate) server) <$> both rates) ++
    (if bool_decide (syscalls = NoMethod) then []
     else [first_spec profile w (Some q) KCounted (Some (higher rates)) server])).

Definition connections_specs (profile : Profile) (servers : list ServerKind) (w : Z) : list RunSpec :=
  first_spec profile w None KConnections None <$> servers.

(** The check of a recorded open-loop configuration whose budget is spent. *)
Definition stop_on_exhaustion (constants : ProtocolConstants) (k : ConfigKey) : Mx (option (ConfigKey * Exhaustion)) :=
  let* records := read_records in
  match open_loop_outcome (runs_of records k) constants with
  | None => mfail ErrPanic
  | Some (Exhausted cause) => mret (Some (k, cause))
  | Some _ => mret None
  end.

(** The failed open-loop configurations of a recorded stage: those not
    sustained, and those reported as failed. *)
Fixpoint classify_failed (constants : ProtocolConstants) (records : list RunRecord) (stopped : bool) (keys : list ConfigKey) :
    option (list (ConfigKey * list CapacityRow) * list ConfigKey) :=
  match keys with
  | [] => Some ([], [])
  | k :: keys =>
      match open_loop_outcome (runs_of records k) constants, classify_failed constants records stopped keys with
      | Some (NotSustained rows), Some (slow, failed) => Some ((k, rows) :: slow, failed)
      | Some _, Some (slow, failed) => Some (slow, if stopped then failed else k :: failed)
      | _, _ => None
      end
  end.

Definition add_outcome (o : MatrixOutcome) (passed failed : list ConfigKey) (slow : list (ConfigKey * list CapacityRow))
    (stopped : option (ConfigKey * Exhaustion)) : MatrixOutcome :=
  {| o_passed := o_passed o ++ passed; o_failed := o_failed o ++ failed;
     o_not_sustained := o_not_sustained o ++ slow; o_stopped := stopped |}.

Section Session.
Context (run : RunSpec -> World -> RunRecord * World) (spec : MatrixSpec) (host : HostSetup)
        (plan : gmap ConfigKey ResumeState).

Definition stage_constants : ProtocolConstants := for_profile (m_profile spec).

Definition configs_of (specs : list RunSpec) : Mx MatrixOutcome :=
  run_configs run stage_constants specs (remaining_of plan).

(** The open-loop stage of one row group. *)
Definition open_loop_stage (servers : list ServerKind) (w q : Z) (rates : DeclaredRates) (o : MatrixOutcome) :
    Mx MatrixOutcome :=
  let '(specs, skipped) := plan_specs plan (latency_specs (m_profile spec) (h_syscalls host) servers w q rates) in
  match m_profile spec with
  | Recorded =>
      let* lat := run_configs_with_stop run (stop_on_exhaustion stage_constants) stage_constants specs
                    (remaining_of plan) in
      let* records := match o_failed lat with [] => mret [] | _ => read_records end in
      match classify_failed stage_constants records (bool_decide (is_Some (o_stopped lat))) (o_failed lat) with
      | None => mfail ErrPanic
      | Some (slow, failed) => mret (add_outcome o (skipped ++ o_passed lat) failed slow (o_stopped lat))
      end
  | Smoke =>
      let* lat := configs_of specs in
      mret (add_outcome o (skipped ++ o_passed lat) (o_failed lat) [] None)
  end.

(** One row group: [inr] is a stopped session. *)
Definition row_group (servers : list ServerKind) (w q : Z) (o : MatrixOutcome) : Mx (MatrixOutcome + MatrixOutcome) :=
  let* c := load_cancel in
  if (c : bool) then mfail ErrCancelled else
  let '(specs, skipped) := plan_specs plan (throughput_specs (m_profile spec) servers w q) in
  let* thr := configs_of specs in
  let o := add_outcome o (o_passed thr ++ skipped) (o_failed thr) [] None in
  match declared_rates (m_profile spec) w q with
  | None => mfail (ErrNoRates w q)
  | Some rates =>
      let* o := open_loop_stage servers w q rates o in
      mret (match o_stopped o with Some _ => inr o | None => inl o end)
  end.

Fixpoint row_groups (servers : list ServerKind) (w : Z) (qs : list Z) (o : MatrixOutcome) : Mx (MatrixOutcome + MatrixOutcome) :=
  match qs with
  | [] => mret (inl o)
  | q :: qs =>
      let* r := row_group servers w q o in
      match r with inr o => mret (inr o) | inl o => row_groups servers w qs o end
  end.

Definition connections_stage (servers : list ServerKind) (w : Z) (o : MatrixOutcome) : Mx MatrixOutcome :=
  let* c := load_cancel in
  if (c : bool) then mfail ErrCancelled else
  let '(specs, skipped) := plan_specs plan (connections_specs (m_profile spec) servers w) in
  let* conn := configs_of specs in
  mret (add_outcome o (skipped ++ o_passed conn) (o_failed conn) [] None).

Fixpoint worker_groups (ws : list Z) (o : MatrixOutcome) : Mx MatrixOutcome :=
  match ws with
  | [] => mret o
  | w :: ws =>
      let servers := servers_for w (m_servers spec) in
      let* r := row_groups servers w (m_qos spec) o in
      match r with
      | inr o => mret o
      | inl o => let* o := connections_stage servers w o in worker_groups ws o
      end
  end.
End Session.

(** Reading the plan of a resumed session. *)
Definition session_plan (proc : Z -> result (option Z) str) (spec : MatrixSpec) (host : HostSetup) :
    Mx (gmap ConfigKey ResumeState) :=
  if m_resume spec then
    let* existing := read_records in
    match check_resume proc existing (m_profile spec) (h_syscalls host) (h_env host) (h_cpu_sets host) with
    | Err e => mfail (ErrResume e)
    | Ok _ =>
        match resume_plan existing (for_profile (m_profile spec)) with
        | None => mfail ErrPanic
        | Some plan => mret plan
        end
    end
  else mret ∅.

Definition run_matrix_with (run : RunSpec -> World -> RunRecord * World) (proc : Z -> result (option Z) str)
    (spec : MatrixSpec) (host : HostSetup) : Mx MatrixOutcome :=
  do* io_step (lit "create out dir") in
  do* io_step (lit "create scratch") in
  let* plan := session_plan proc spec host in
  worker_groups run spec host plan (m_workers spec) outcome_default.
