(* ===== verification/Counter.v ===== *)
(** * The syscall counter of a run

    bench/src/runner.rs, the perf and strace counters of a counted run: their
    preparation, the enable and disable handshakes, the reap, and the evidence
    they leave in the record.  What the operating system answers is an argument:
    a loop that polls until a deadline takes the list of its polls, and the end
    of the list is the deadline.  Every operation returns the harness errors it
    pushes. *)

From S2P Require Import Prelude Text F64 Api Wire Recorder Generator Pacer RunRecord Analysis Sorting Verdict Matrix.
From Stdlib Require Import Ascii.

Definition COUNTER_LABEL : str := lit "counter".
Definition COUNTER_CONTROL_TIMEOUT_SECS : Z := 5.
Definition COUNTER_DRAIN_TIMEOUT_SECS : Z := 5.
Definition COUNTER_DIAGNOSTIC_LINES_MAX : nat := 256.
Definition COUNTER_STDERR_LINE_BYTES_MAX : Z := 4096.
Definition PERF_ENABLE : str := lit "enable" ++ [10].
Definition PERF_DISABLE : str := lit "disable" ++ [10].
Definition STRACE_ATTACHED_MARKER : str := lit "attached".
Definition STRACE_ATTACHED_WITH_MARKER : str := lit "attached with ".
Definition STRACE_PTRACE_ERROR_MARKER : str := lit "ptrace(".

(** ** Harness errors *)

(** A result with the errors pushed on the way. *)
Definition He (A : Type) : Type := (A * list str)%type.
Definition hret {A} (a : A) : He A := (a, []).
Definition push (e : str) : He unit := (tt, [e]).
Definition hbind {A B} (c : He A) (k : A -> He B) : He B :=
  let '(a, es) := c in let '(b, es') := k a in (b, es ++ es').
Declare Scope runner_scope.
Notation "'let%' x ':=' c 'in' k" := (hbind c (fun x => k))
  (at level 10, x pattern, c at level 100, k at level 200) : runner_scope.
Notation "'do%' c 'in' k" := (hbind c (fun _ => k)) (at level 10, c at level 100, k at level 200) : runner_scope.
#[local] Open Scope runner_scope.

(** ** Children *)

Inductive ExitStatus := Exited (code : Z) | Signaled (signal : Z).

Definition success (status : ExitStatus) : bool := match status with Exited c => c =? 0 | Signaled _ => false end.

(** [Child::try_wait]. *)
Inductive TryWait := TwExited (status : ExitStatus) | TwRunning | TwError (e : str).

Definition counter_exit_from_status (status : ExitStatus) : CounterExit :=
  match status with Exited c => ExitCode c | Signaled s => ExitSignal s end.

(** ** The stderr reader *)

Inductive StdoutLine := SLine (line : str) | SEof | SFailed (cause : str).

Record StderrLoss := { dropped : bool; failure : option str }.
Definition no_loss : StderrLoss := {| dropped := false; failure := None |}.

(** One [read_until] of the reader, at most one byte past the cap, and what
    [try_send] answers when its line is queued. *)
Inductive ReadAnswer := ReadBytes (bytes : list Z) | ReadError (e : str).
Inductive SendAnswer := Sent | Full | Disconnected.

Section Reader.
Context (from_utf8 : list Z -> option str).

Definition read_message (a : ReadAnswer) : StdoutLine :=
  match a with
  | ReadBytes [] => SEof
  | ReadBytes bytes =>
      if (COUNTER_STDERR_LINE_BYTES_MAX <? Z.of_nat (length bytes)) && negb (bool_decide (last bytes = Some 10))
      then SFailed (lit "line longer than " ++ dec COUNTER_STDERR_LINE_BYTES_MAX ++ lit " bytes")
      else match from_utf8 bytes with
           | Some line => SLine line
           | None => SFailed (lit "stream did not contain valid UTF-8")
           end
  | ReadError e => SFailed e
  end.

(** What the reader queues, in order, and what it could not. *)
Fixpoint stderr_reader (events : list (ReadAnswer * SendAnswer)) (loss : StderrLoss) : list StdoutLine * StderrLoss :=
  match events with
  | [] => ([], loss)
  | (read, send) :: events =>
      match read_message read with
      | SLine line =>
          match send with
          | Sent => let '(queued, loss) := stderr_reader events loss in (SLine line :: queued, loss)
          | Full => stderr_reader events {| dropped := true; failure := failure loss |}
          | Disconnected => ([], loss)
          end
      | SFailed cause =>
          (match send with Sent => [SFailed cause] | _ => [] end, {| dropped := dropped loss; failure := Some cause |})
      | SEof => (match send with Sent => [SEof] | _ => [] end, loss)
      end
  end.
End Reader.

(** ** The counter *)

Inductive CounterKind := CkPerf | CkStrace.
#[export] Instance CounterKind_eq_dec : EqDecision CounterKind.
Proof. solve_decision. Defined.

Record Counter := {
  c_kind : CounterKind; ctl_write : bool; ack_read : bool; raw_path : str; stderr_rx : bool;
  stderr_loss : option StderrLoss; armed_lines : list str; expected_threads : option Z; enabled_ns : option Z;
  disabled_ns : option Z; exit : option ExitStatus; prep_error : option str
}.

Definition new_perf (raw_path : str) : Counter :=
  {| c_kind := CkPerf; ctl_write := true; ack_read := true; raw_path := raw_path; stderr_rx := false; stderr_loss := None;
     armed_lines := []; expected_threads := None; enabled_ns := None; disabled_ns := None; exit := None;
     prep_error := None |}.

(** The reader's losses are filled in while the run goes on; the counter holds
    what they are at the end. *)
Definition new_strace (raw_path : str) (loss : StderrLoss) (threads : option Z) : Counter :=
  {| c_kind := CkStrace; ctl_write := false; ack_read := false; raw_path := raw_path; stderr_rx := true;
     stderr_loss := Some loss; armed_lines := []; expected_threads := threads; enabled_ns := None; disabled_ns := None;
     exit := None; prep_error := None |}.

Definition dead (kind : CounterKind) (raw_path error : str) : Counter :=
  {| c_kind := kind; ctl_write := false; ack_read := false; raw_path := raw_path; stderr_rx := false; stderr_loss := None;
     armed_lines := []; expected_threads := None; enabled_ns := None; disabled_ns := None; exit := None;
     prep_error := Some error |}.

Definition set_enabled (c : Counter) (t : option Z) (armed : list str) : Counter :=
  {| c_kind := c_kind c; ctl_write := ctl_write c; ack_read := ack_read c; raw_path := raw_path c; stderr_rx := stderr_rx c;
     stderr_loss := stderr_loss c; armed_lines := armed; expected_threads := expected_threads c; enabled_ns := t;
     disabled_ns := disabled_ns c; exit := exit c; prep_error := prep_error c |}.
Definition set_stopped (c : Counter) (t : option Z) (status : option ExitStatus) : Counter :=
  {| c_kind := c_kind c; ctl_write := ctl_write c; ack_read := ack_read c; raw_path := raw_path c; stderr_rx := stderr_rx c;
     stderr_loss := stderr_loss c; armed_lines := armed_lines c; expected_threads := expected_threads c;
     enabled_ns := enabled_ns c; disabled_ns := t; exit := status; prep_error := prep_error c |}.

Definition should_count (spec : RunSpec) (host : HostSetup) : bool :=
  bool_decide (sp_kind spec = KCounted) && negb (bool_decide (h_syscalls host = NoMethod)).

(** ** Control fifos *)

(** One attempt to open the control fifo. *)
Inductive CtlPoll := CtlOpened | CtlNoReader (cancelled : bool) | CtlError (e : str).

Fixpoint open_ctl_with_retry (polls : list CtlPoll) : result unit str :=
  match polls with
  | [] => Err (lit "no reader within " ++ dec COUNTER_CONTROL_TIMEOUT_SECS ++ lit "s (ENXIO)")
  | CtlOpened :: _ => Ok tt
  | CtlNoReader cancelled :: polls => if cancelled then Err (lit "run cancelled") else open_ctl_with_retry polls
  | CtlError e :: _ => Err e
  end.

(** [write(2)] on the fifo. *)
Inductive WriteAnswer := Wrote (n : Z) | WouldBlock | WriteFailed (e : str).

Fixpoint write_ctl_from (written len : Z) (answers : list WriteAnswer) : result unit str :=
  if written <? len then
    let stopped := Err (lit "ctl write stopped at " ++ dec written ++ lit " of " ++ dec len ++ lit " bytes") in
    match answers with
    | [] | WouldBlock :: _ => stopped
    | Wrote n :: answers => if n =? 0 then stopped else write_ctl_from (written + n) len answers
    | WriteFailed e :: _ => Err (lit "ctl write: " ++ e)
    end
  else Ok tt.
Definition write_ctl (buf : str) (answers : list WriteAnswer) : result unit str :=
  write_ctl_from 0 (Z.of_nat (length buf)) answers.

(** One turn of the wait for an acknowledgement. *)
Inductive AckPoll := AckCancelled | AckRead (bytes : str) (now : Z) | AckAgain | AckInterrupted | AckError (e : str).

Fixpoint wait_for_ack (polls : list AckPoll) : He (option Z) :=
  match polls with
  | [] => do% push (lit "syscall counter: no ack") in hret None
  | AckCancelled :: _ => hret None
  | AckRead bytes now :: polls =>
      if is_empty_str bytes then do% push (lit "syscall counter: no ack") in hret None
      else if contains (lit "ack") bytes then hret (Some now) else wait_for_ack polls
  | AckAgain :: polls | AckInterrupted :: polls => wait_for_ack polls
  | AckError e :: _ => do% push (lit "syscall counter: ack read: " ++ e) in hret None
  end.

(** ** Preparation *)

(** What the host answers while the perf counter is set up: the error of every
    step that fails. *)
Record PerfAnswers := {
  pf_mkfifo_ctl : option str; pf_mkfifo_ack : option str; pf_create : option str; pf_spawn : option str;
  pf_open_ack : option str; pf_open_ctl : list CtlPoll
}.

Definition path_join (dir name : str) : str := dir ++ lit "/" ++ name.

(** A counter that is dead on arrival, with its reason recorded; [spawned]
    tells whether the guard holds its child. *)
Definition dead_counter (kind : CounterKind) (raw_path error : str) (spawned : bool) : He (Counter * bool) :=
  do% push error in hret (dead kind raw_path error, spawned).

Definition prepare_perf_counter (host : HostSetup) (dir : str) (a : PerfAnswers) : He (Counter * bool) :=
  let perf_txt := path_join dir (lit "perf.txt") in
  let dead msg spawned := dead_counter CkPerf perf_txt (lit "syscall counter: " ++ msg) spawned in
  match perf_bin host with
  | None => dead (lit "no perf_bin") false
  | Some _ =>
  match pf_mkfifo_ctl a with Some e => dead (lit "mkfifo ctl: " ++ e) false | None =>
  match pf_mkfifo_ack a with Some e => dead (lit "mkfifo ack: " ++ e) false | None =>
  match pf_create a with Some e => dead (lit "create perf.txt: " ++ e) false | None =>
  match pf_spawn a with Some e => dead (lit "spawn perf: " ++ e) false | None =>
  match pf_open_ack a with Some e => dead (lit "open ack: " ++ e) true | None =>
  match open_ctl_with_retry (pf_open_ctl a) with
  | Err e => dead (lit "control fifo not opened: " ++ e) true
  | Ok _ => hret (new_perf perf_txt, true)
  end end end end end end
  end.

(** The command line of the counter. *)
Definition perf_args (host : HostSetup) (perf dir : str) (server_pid : Z) : list str :=
  [lit "taskset"; lit "-c"; cpus_server (h_cpu_sets host); perf; lit "stat"; lit "--delay=-1";
   lit "--control=fifo:" ++ path_join dir (lit "perf.ctl") ++ lit "," ++ path_join dir (lit "perf.ack");
   lit "-x"; lit ","; lit "-e"; lit "raw_syscalls:sys_enter"; lit "-p"; dec server_pid].
Definition strace_args (host : HostSetup) (strace dir : str) (server_pid : Z) : list str :=
  [lit "taskset"; lit "-c"; cpus_server (h_cpu_sets host); strace; lit "-c"; lit "-f"; lit "-p"; dec server_pid;
   lit "-o"; path_join dir (lit "strace.txt")].

Record StraceAnswers := {
  st_threads : result Z str; st_spawn : option str; st_piped : bool; st_reader : option str; st_loss : StderrLoss
}.

Definition spawn_strace_counter (host : HostSetup) (dir : str) (a : StraceAnswers) : He (Counter * bool) :=
  let strace_txt := path_join dir (lit "strace.txt") in
  let dead msg spawned := dead_counter CkStrace strace_txt msg spawned in
  match strace_bin host with
  | None => dead (lit "syscall counter: no strace_bin") false
  | Some _ =>
      let% threads := match st_threads a with
                      | Ok n => hret (Some n)
                      | Err e => do% push (lit "syscall counter: server threads: " ++ e) in hret None
                      end in
      match st_spawn a with
      | Some e => dead (lit "syscall counter: spawn strace: " ++ e) false
      | None =>
          if negb (st_piped a) then dead (lit "syscall counter: strace stderr not piped") true
          else match st_reader a with
               | Some e => dead (lit "syscall counter: spawn stderr reader: " ++ e) true
               | None => hret (new_strace strace_txt (st_loss a) threads, true)
               end
      end
  end.

(** ** Enabling *)

(** One turn of the wait for the attach marker. *)
Inductive RecvPoll :=
| RecvCancelled
| Received (m : StdoutLine) (now : Z)
| RecvTimeout
| RecvDisconnected.

Fixpoint wait_for_strace_attach (polls : list RecvPoll) (read_lines : list str) : He (option Z * list str) :=
  match polls with
  | [] => do% push (lit "syscall counter: not attached") in hret (None, read_lines)
  | RecvCancelled :: _ => hret (None, read_lines)
  | Received (SLine line) now :: polls =>
      let read_lines := if (length read_lines <=? COUNTER_DIAGNOSTIC_LINES_MAX)%nat then read_lines ++ [trim_end line] else read_lines in
      if contains STRACE_ATTACHED_MARKER line then hret (Some now, read_lines) else wait_for_strace_attach polls read_lines
  | Received SEof _ :: _ => do% push (lit "syscall counter: stderr closed before attached") in hret (None, read_lines)
  | Received (SFailed _) _ :: _ => hret (None, read_lines)
  | RecvTimeout :: polls => wait_for_strace_attach polls read_lines
  | RecvDisconnected :: _ => do% push (lit "syscall counter: stderr reader stopped") in hret (None, read_lines)
  end.

Record ArmAnswers := { am_write : list WriteAnswer; am_ack : list AckPoll; am_attach : list RecvPoll }.

Definition arm_counter (c : Counter) (a : ArmAnswers) : He Counter :=
  match prep_error c with
  | Some _ => hret c
  | None =>
      match c_kind c with
      | CkPerf =>
          if negb (ctl_write c) then hret c
          else match write_ctl PERF_ENABLE (am_write a) with
               | Err e => do% push (lit "syscall counter: " ++ e) in hret c
               | Ok _ =>
                   if negb (ack_read c) then hret c
                   else let% t := wait_for_ack (am_ack a) in hret (set_enabled c t (armed_lines c))
               end
      | CkStrace =>
          if negb (stderr_rx c) then hret c
          else let% (t, seen) := wait_for_strace_attach (am_attach a) [] in hret (set_enabled c t seen)
      end
  end.

(** ** Disabling and reaping *)

Definition debug_counter_exit (e : CounterExit) : str := debug_exit e.

(** [dm_child] is the guarded child's [try_wait], when the guard holds one. *)
Record DisarmAnswers := { dm_child : option TryWait; dm_write : list WriteAnswer; dm_ack : list AckPoll }.

Definition disarm_counter (c : Counter) (a : DisarmAnswers) : He Counter :=
  match prep_error c with
  | Some _ => hret c
  | None =>
      match dm_child a with
      | Some (TwExited status) =>
          do% push (lit "syscall counter: exited before the window end with "
                    ++ debug_counter_exit (counter_exit_from_status status)) in
          hret (set_stopped c (disabled_ns c) (Some status))
      | child =>
          do% match child with
              | Some (TwError e) => push (lit "syscall counter: try_wait: " ++ e)
              | _ => hret tt
              end in
          match c_kind c with
          | CkStrace => hret c
          | CkPerf =>
              do% (if ctl_write c then
                     match write_ctl PERF_DISABLE (dm_write a) with
                     | Err e => push (lit "syscall counter: " ++ e)
                     | Ok _ => hret tt
                     end
                   else hret tt) in
              if ack_read c then let% t := wait_for_ack (dm_ack a) in hret (set_stopped c t (exit c)) else hret c
          end
      end
  end.

(** One turn of the wait for the counter's exit: the guarded child's
    [try_wait], and whether the run is cancelled. *)
Record ExitPoll := { ep_child : option TryWait; ep_cancelled : bool }.

Fixpoint wait_for_counter_exit (polls : list ExitPoll) : He (option ExitStatus) :=
  match polls with
  | [] => do% push (lit "syscall counter: did not exit within timeout") in hret None
  | p :: polls =>
      match ep_child p with
      | None => hret None
      | Some (TwExited status) => hret (Some status)
      | Some (TwError e) => do% push (lit "syscall counter: try_wait: " ++ e) in hret None
      | Some TwRunning => if ep_cancelled p then hret None else wait_for_counter_exit polls
      end
  end.

Definition reap_counter (c : Counter) (polls : list ExitPoll) (now : Z) : He Counter :=
  match prep_error c, exit c with
  | None, None =>
      let% status := wait_for_counter_exit polls in
      hret (set_stopped c (match c_kind c, status with CkStrace, Some _ => Some now | _, _ => disabled_ns c end) status)
  | _, _ => hret c
  end.

(** ** The evidence *)

(** The lines kept, whether one was dropped, and whether the deadline passed
    with the stream still open. *)
Fixpoint drain_stderr_lines (polls : list RecvPoll) (budget : nat) (out : list str) (lost : bool) : list str * bool * bool :=
  match polls with
  | [] => (out, lost, true)
  | RecvCancelled :: _ => (out, lost, false)
  | Received (SLine line) _ :: polls =>
      if (length out <? budget)%nat then drain_stderr_lines polls budget (out ++ [trim_end line]) lost
      else drain_stderr_lines polls budget out true
  | RecvTimeout :: polls => drain_stderr_lines polls budget out lost
  | Received _ _ :: _ | RecvDisconnected :: _ => (out, lost, false)
  end.

Definition parse_strace_attached_threads (line : str) : Z :=
  match split_once STRACE_ATTACHED_WITH_MARKER line with
  | Some (_, rest) =>
      match head (split_whitespace rest) with
      | Some n => match parse_uint 64 n with Ok v => v | Err _ => 1 end
      | None => 1
      end
  | None => 1
  end.

Definition check_strace_attachment (ls : list str) (expected : option Z) : He unit :=
  do% (if existsb (contains STRACE_PTRACE_ERROR_MARKER) ls
       then push (lit "syscall counter: partial attachment: ptrace failed") else hret tt) in
  match expected, List.find (contains STRACE_ATTACHED_MARKER) ls with
  | Some expected, Some line =>
      let attached := parse_strace_attached_threads line in
      if attached <? expected
      then push (lit "syscall counter: partial attachment: attached " ++ dec attached ++ lit " of " ++ dec expected
                 ++ lit " threads")
      else hret tt
  | _, _ => hret tt
  end.

(** [fz_raw] is the answer of reading the raw output, [fz_exit] the polls of a
    counter whose preparation failed. *)
Record FinalizeAnswers := { fz_exit : list ExitPoll; fz_drain : list RecvPoll; fz_raw : result str str }.

Definition strace_diagnostics (c : Counter) (polls : list RecvPoll) : He (option str) :=
  let ls := armed_lines c in
  let truncated := (COUNTER_DIAGNOSTIC_LINES_MAX <? length ls)%nat in
  let room := (COUNTER_DIAGNOSTIC_LINES_MAX - length ls)%nat in
  let% (ls, truncated) :=
    if stderr_rx c then
      let '(rest, lost, timed_out) := drain_stderr_lines polls room [] false in
      let ls := ls ++ rest in
      do% (if timed_out
           then push (lit "syscall counter: stderr still open after " ++ dec COUNTER_DRAIN_TIMEOUT_SECS
                      ++ lit "s, diagnostics truncated at " ++ dec (Z.of_nat (length ls)) ++ lit " lines")
           else hret tt) in
      hret (ls, truncated || lost)
    else hret (ls, truncated) in
  let% truncated :=
    match stderr_loss c with
    | None => hret truncated
    | Some loss =>
        do% match failure loss with Some cause => push (lit "syscall counter: stderr read: " ++ cause) | None => hret tt end in
        hret (truncated || dropped loss)
    end in
  do% (if (truncated : bool)
       then push (lit "syscall counter: diagnostics truncated at " ++ dec (Z.of_nat COUNTER_DIAGNOSTIC_LINES_MAX) ++ lit " lines")
       else hret tt) in
  let ls := take COUNTER_DIAGNOSTIC_LINES_MAX ls in
  do% check_strace_attachment ls (expected_threads c) in
  hret (match ls with [] => None | _ => Some (join [10] ls) end).

Definition counter_method (kind : CounterKind) : SyscallMethod := match kind with CkPerf => Perf | CkStrace => Strace end.

Definition finalize_counter (c : Counter) (a : FinalizeAnswers) : He Syscalls :=
  let% status := match prep_error c with Some _ => wait_for_counter_exit (fz_exit a) | None => hret (exit c) end in
  let% diagnostics := match c_kind c with CkStrace => strace_diagnostics c (fz_drain a) | CkPerf => hret None end in
  let% raw := match fz_raw a with
              | Ok text => hret (Some text)
              | Err e =>
                  do% (if bool_decide (prep_error c = None)
                       then push (lit "syscall counter: raw output missing: " ++ raw_path c ++ lit ": " ++ e) else hret tt) in
                  hret None
              end in
  let count := match raw with
               | None => None
               | Some text => match c_kind c with CkPerf => parse_perf_count text | CkStrace => parse_strace_total text end
               end in
  do% (if bool_decide (prep_error c = None) && bool_decide (count = None) && negb (bool_decide (raw = None))
       then push (lit "syscall counter: unparseable output") else hret tt) in
  hret {| y_method := counter_method (c_kind c); y_count := count; y_per_msg := None; y_raw := raw;
          y_enabled_ns := enabled_ns c; y_disabled_ns := disabled_ns c; y_exit := counter_exit_from_status <$> status;
          y_diagnostics := diagnostics |}.
