(* ===== verification/Runner.v ===== *)
(** * One benchmark run

    bench/src/runner.rs: the run of one specification, from its scratch
    directory to its record, with the children it starts, the handshakes it
    drives and the cleanup that ends them.  What the host answers is an
    argument, as in Counter.v: a loop that polls until a deadline takes the list
    of its polls, and the end of the list is the deadline.  Sums of clock
    readings and protocol constants stay far below [2^64] and are written as
    they are. *)

From S2P Require Import Prelude Text F64 Api Wire Recorder Generator Pacer RunRecord Analysis Sorting Verdict Matrix Counter.
From Stdlib Require Import Ascii.
#[local] Open Scope runner_scope.

Definition CONNECTIONS : Z := 100.
Definition QOS1_WINDOW : Z := 32.
Definition GEN_LEAD_SECS : Z := 1.
Definition STARTUP_TIMEOUT_SECS : Z := 10.
Definition CHILD_EXIT_SLACK_SECS : Z := 30.
Definition GUARD_SIGKILL_REAP_TIMEOUT_SECS : Z := 10.
Definition PROC_STAT_START_TIME_FIELD : nat := 19.
Definition ENDPOINT_LABEL : str := lit "endpoint".
Definition SUB_LABEL : str := lit "sub".
Definition GENERATOR_LABEL : str := lit "generator".

Definition check_provenance (build_sha : str) (build_dirty : bool) (head_sha : str) : result unit str :=
  if build_dirty then Err (lit "bench was built from a dirty tree; commit and rebuild")
  else if negb (bool_decide (build_sha = head_sha))
  then Err (lit "bench was built from " ++ build_sha ++ lit ", checkout is at " ++ head_sha ++ lit "; rebuild")
  else Ok tt.

Definition mosquitto_conf (port : Z) : str :=
  lit "listener " ++ dec port ++ lit " 127.0.0.1" ++ [10] ++ lit "allow_anonymous true" ++ [10]
  ++ lit "persistence false" ++ [10] ++ lit "max_queued_messages 0" ++ [10] ++ lit "max_inflight_messages 0" ++ [10]
  ++ lit "set_tcp_nodelay true" ++ [10] ++ lit "log_dest none" ++ [10].

(** ** The process table *)

(** The text after the last [)], if there is one. *)
Fixpoint after_last (c : Z) (s : str) : option str :=
  match s with
  | [] => None
  | x :: s => match after_last c s with Some r => Some r | None => if x =? c then Some s else None end
  end.

(** [read_cpu_ticks] on the text of [/proc/<pid>/stat]. *)
Definition read_cpu_ticks (path : str) (body : result str str) : result (Z * Z) str :=
  match body with
  | Err e => Err (lit "read " ++ path ++ lit ": " ++ e)
  | Ok body =>
      match after_last (chr ")") body with
      | None => Err (path ++ lit " missing comm field")
      | Some after =>
          let fields := split_whitespace after in
          let field i := match fields !! i with Some s => ok (parse_uint 64 s) | None => None end in
          match field 11%nat with
          | None => Err (path ++ lit " missing utime")
          | Some utime =>
              match field 12%nat with
              | None => Err (path ++ lit " missing stime")
              | Some stime => Ok (utime, stime)
              end
          end
      end
  end.

Definition read_cpu_pressure_total (body : result str str) : option Z :=
  match body with Ok text => parse_cpu_pressure_some_total text | Err _ => None end.

(** [u8::is_ascii_whitespace]. *)
Definition is_ascii_whitespace (c : Z) : bool := (c =? 32) || (c =? 9) || (c =? 10) || (c =? 12) || (c =? 13).

(** [start_time_in] on the bytes of the file; [None] is the file's absence. *)
Definition start_time_in (path : str) (body : result (option str) str) : result (option Z) str :=
  match body with
  | Err e => Err (lit "read " ++ path ++ lit ": " ++ e)
  | Ok None => Ok None
  | Ok (Some body) =>
      match after_last (chr ")") body with
      | None => Err (path ++ lit " missing comm field")
      | Some after =>
          match List.filter (fun f => negb (is_empty_str f)) (split_by is_ascii_whitespace after) !! PROC_STAT_START_TIME_FIELD with
          | None => Err (path ++ lit " missing start time")
          | Some field =>
              match parse_uint 64 field with
              | Ok t => Ok (Some t)
              | Err _ => Err (path ++ lit " start time does not parse")
              end
          end
      end
  end.

Definition read_proc_start_time (proc : str -> result (option str) str) (pid : Z) : result (option Z) str :=
  let path := lit "/proc/" ++ dec pid ++ lit "/stat" in start_time_in path (proc path).

Definition proc_start_time (proc : str -> result (option str) str) (pid : Z) : option Z :=
  match read_proc_start_time proc pid with Ok t => t | Err _ => None end.

(** [read_thread_count] on the listing of [/proc/<pid>/task]. *)
Definition read_thread_count (path : str) (entries : result (list (option str)) str) : result Z str :=
  match entries with
  | Err e => Err (lit "read " ++ path ++ lit ": " ++ e)
  | Ok entries =>
      match List.find (fun e => bool_decide (is_Some e)) entries with
      | Some (Some e) => Err (lit "read " ++ path ++ lit ": " ++ e)
      | _ => Ok (Z.of_nat (length entries))
      end
  end.

(** ** Ending children *)

(** What ending one child meets: its first [try_wait], its start time, the
    error of a refused SIGKILL, the turns of the bounded reap, and the error of
    a reaper thread that does not start. *)
Record ChildEnd := {
  ce_pid : Z; ce_first : TryWait; ce_start : option Z; ce_refused : option str; ce_polls : list TryWait;
  ce_reaper : option str
}.

Definition survivor_head (label : str) (pid : Z) (start : option Z) : str :=
  label ++ lit " cleanup: pid " ++ dec pid ++ lit " (start "
  ++ (match start with Some t => dec t | None => SURVIVOR_START_UNKNOWN end) ++ lit ")".

Fixpoint reap_within (head : str) (polls : list TryWait) : result unit str :=
  match polls with
  | [] => Err (head ++ lit " still running " ++ dec GUARD_SIGKILL_REAP_TIMEOUT_SECS ++ lit "s after SIGKILL")
  | TwExited _ :: _ => Ok tt
  | TwRunning :: polls => reap_within head polls
  | TwError e :: _ => Err (head ++ lit " exit check failed: " ++ e)
  end.

Definition kill_within_bound (label : str) (c : ChildEnd) : result unit str :=
  match ce_first c with
  | TwExited _ => Ok tt
  | TwError e => Err (survivor_head label (ce_pid c) None ++ lit " exit check failed: " ++ e)
  | TwRunning =>
      match reap_within (survivor_head label (ce_pid c) (ce_start c)) (ce_polls c) with
      | Ok _ => Ok tt
      | Err error => Err (error ++ match ce_refused c with Some e => lit "; SIGKILL: " ++ e | None => [] end)
      end
  end.

Definition end_child (label : str) (c : ChildEnd) : result unit str :=
  match kill_within_bound label c with
  | Ok _ => Ok tt
  | Err error => Err (error ++ match ce_reaper c with Some e => lit "; reaper thread: " ++ e | None => [] end)
  end.

(** [ChildGuard::end_all]: the labels the guard holds, in push order. *)
Fixpoint end_all (children : list str) (ends : str -> ChildEnd) : list str :=
  match children with
  | [] => []
  | label :: children =>
      match end_child label (ends label) with
      | Ok _ => end_all children ends
      | Err e => e :: end_all children ends
      end
  end.

(** Turns of the wait after SIGTERM: [try_wait], and the cancellation flag. *)
Fixpoint terminate_polls (label : str) (polls : list (TryWait * bool)) (c : ChildEnd) : result ExitStatus str :=
  match polls with
  | [] =>
      let refusal := label ++ lit " did not exit within " ++ dec CHILD_EXIT_SLACK_SECS ++ lit "s of SIGTERM" in
      Err (match kill_within_bound label c with Ok _ => refusal | Err cleanup => refusal ++ lit "; " ++ cleanup end)
  | (TwExited status, _) :: _ => Ok status
  | (TwError e, _) :: _ => Err (lit "try_wait " ++ label ++ lit ": " ++ e)
  | (TwRunning, cancelled) :: polls => if cancelled then Err (lit "cancelled") else terminate_polls label polls c
  end.

(** [sigterm] is the error of a refused SIGTERM other than [ESRCH]. *)
Definition terminate_and_wait (label : str) (sigterm : option str) (polls : list (TryWait * bool)) (c : ChildEnd) :
    result ExitStatus str :=
  match sigterm with
  | Some e => Err (lit "SIGTERM " ++ label ++ lit ": " ++ e)
  | None => terminate_polls label polls c
  end.

(** ** Diagnostics *)

Definition stderr_path (scratch label : str) : str := path_join scratch (label ++ lit ".stderr").

(** [kept label] tells whether the stderr file of [label] exists. *)
Definition stderr_note (kept : str -> bool) (scratch label : str) : str :=
  if kept label then lit "(stderr: " ++ stderr_path scratch label ++ lit ")"
  else lit "(stderr not retained: " ++ stderr_path scratch label ++ lit " does not exist)".

Definition exit_note (kept : str -> bool) (label : str) (status : ExitStatus) (scratch : str) : str :=
  match status with
  | Exited c => label ++ lit " exited with code " ++ dec_int c ++ lit " " ++ stderr_note kept scratch label
  | Signaled s => label ++ lit " exited with signal " ++ dec_int s ++ lit " " ++ stderr_note kept scratch label
  end.

(** ** Handshakes *)

(** One turn of the wait for a line: what the reader hands over, and whether
    the run is cancelled after it. *)
Record LinePoll := { lp_recv : RecvPoll; lp_cancelled : bool }.

Definition quoted (s : str) : str := [34] ++ s ++ [34].

(** [status] is the child's exit as the error prints it. *)
Fixpoint wait_for_line (label expect status : str) (polls : list LinePoll) : result unit str :=
  let next rest p := if lp_cancelled p then Err (lit "cancelled") else rest in
  match polls with
  | [] => Err (lit "timed out waiting for " ++ quoted expect)
  | p :: polls =>
      match lp_recv p with
      | Received (SLine line) _ =>
          if bool_decide (trim_end line = expect) then Ok tt else next (wait_for_line label expect status polls) p
      | Received SEof _ =>
          Err (quoted expect ++ lit ": " ++ label ++ lit " closed stdout before printing it (exit " ++ status ++ lit ")")
      | Received (SFailed e) _ => Err (lit "read " ++ label ++ lit " stdout: " ++ e)
      | RecvDisconnected => Err (label ++ lit " stdout reader stopped")
      | RecvTimeout | RecvCancelled => next (wait_for_line label expect status polls) p
      end
  end.

(** The line [send_arm] writes. *)
Definition arm_line (origin_ns window_start_ns window_end_ns : Z) : str :=
  lit "ARM " ++ dec origin_ns ++ lit " " ++ dec window_start_ns ++ lit " " ++ dec window_end_ns ++ [10].

(** ** Starting the children *)

Definition local_addr (port : Z) : str := lit "127.0.0.1:" ++ dec port.

Definition server_args (host : HostSetup) (spec : RunSpec) (scratch : str) (port : Z) : list str :=
  [lit "taskset"; lit "-c"; cpus_server (h_cpu_sets host); bench_exe host; lit "server"; lit "--impl";
   server_lower (sp_server spec); lit "--workers"; dec (sp_workers spec); lit "--addr"; local_addr port;
   lit "--connections"; dec CONNECTIONS; lit "--report"; path_join scratch (lit "endpoint.json")].
Definition mosquitto_args (host : HostSetup) (mosquitto conf : str) : list str :=
  [lit "taskset"; lit "-c"; cpus_server (h_cpu_sets host); mosquitto; lit "-c"; conf].
Definition sub_args (host : HostSetup) (spec : RunSpec) (scratch : str) (port : Z) : list str :=
  [lit "taskset"; lit "-c"; cpus_server (h_cpu_sets host); bench_exe host; lit "sub"; lit "--addr"; local_addr port;
   lit "--qos"; dec (default 0 (sp_qos spec)); lit "--connections"; dec CONNECTIONS; lit "--report";
   path_join scratch (lit "endpoint.json")].
Definition generator_args (host : HostSetup) (spec : RunSpec) (scratch : str) (origin_ns start end_ grace port : Z) : list str :=
  let '(mode, rate) := match sp_kind spec with
                       | KThroughput => (lit "throughput", 0)
                       | KLatency | KCounted => (lit "latency", default 0 (sp_offered_rate spec))
                       | KConnections => (lit "connections", 0)
                       end in
  [lit "taskset"; lit "-c"; cpus_generator (h_cpu_sets host); bench_exe host; lit "gen"; lit "--addr"; local_addr port;
   lit "--mode"; mode; lit "--rate"; dec rate; lit "--qos"; dec (default 0 (sp_qos spec)); lit "--connections";
   dec CONNECTIONS; lit "--qos1-window"; dec QOS1_WINDOW; lit "--origin-ns"; dec origin_ns; lit "--window-start-ns";
   dec start; lit "--window-end-ns"; dec end_; lit "--drain-grace-secs"; dec grace; lit "--report";
   path_join scratch (lit "gen.json")].

(** Turns of the wait for mosquitto's listener: whether it accepted, with
    whether the deadline passed meanwhile, or with the cancellation flag after a
    refusal. *)
Inductive ListenerPoll := Accepted (late : bool) | Refused (cancelled : bool).

Fixpoint poll_listener (polls : list ListenerPoll) : result unit str :=
  let late_err := Err (lit "mosquitto did not accept within the startup window") in
  match polls with
  | [] => late_err
  | Accepted late :: _ => if late then late_err else Ok tt
  | Refused cancelled :: polls => if cancelled then Err (lit "cancelled") else poll_listener polls
  end.

(** What starting the endpoint meets: the pid or error of every spawn, the
    errors of taking over the pipes, and the listener's polls. *)
Record EndpointAnswers := {
  ea_spawn : result Z str; ea_handshake : option str; ea_listener : list ListenerPoll; ea_sub : option str;
  ea_sub_handshake : option str
}.

(** The endpoint's pid and the label of the child whose handshake the runner
    drives; the labels are the children the guard holds afterwards. *)
Definition spawn_endpoint (spec : RunSpec) (host : HostSetup) (conf : option str) (a : EndpointAnswers) :
    result (Z * option str) str * list str :=
  match sp_server spec with
  | Uring | Tokio =>
      match ea_spawn a with
      | Err e => (Err (lit "spawn endpoint: " ++ e), [])
      | Ok pid =>
          (match ea_handshake a with Some e => Err e | None => Ok (pid, Some ENDPOINT_LABEL) end, [ENDPOINT_LABEL])
      end
  | Mosquitto =>
      match conf, mosquitto_bin host with
      | None, _ => (Err (lit "mosquitto run needs a conf path"), [])
      | Some _, None => (Err (lit "no mosquitto_bin"), [])
      | Some _, Some _ =>
          match ea_spawn a with
          | Err e => (Err (lit "spawn mosquitto: " ++ e), [])
          | Ok pid =>
              match poll_listener (ea_listener a) with
              | Err e => (Err e, [ENDPOINT_LABEL])
              | Ok _ =>
                  if bool_decide (sp_kind spec = KConnections) then (Ok (pid, None), [ENDPOINT_LABEL])
                  else match ea_sub a with
                       | Some e => (Err (lit "spawn sub: " ++ e), [ENDPOINT_LABEL])
                       | None =>
                           (match ea_sub_handshake a with Some e => Err e | None => Ok (pid, Some SUB_LABEL) end,
                            [ENDPOINT_LABEL; SUB_LABEL])
                       end
              end
          end
      end
  end.

(** ** Timing *)

Record RunTiming := { t_origin_ns : Z; t_window : Window }.
Definition timing_default : RunTiming := {| t_origin_ns := 0; t_window := {| start_ns := 0; end_ns := 0 |} |}.

(** The next whole second. *)
Definition round_up_second (ns : Z) : Z :=
  if ns mod ONE_SECOND_NS =? 0 then ns else (ns / ONE_SECOND_NS + 1) * ONE_SECOND_NS.

Definition run_timing (constants : ProtocolConstants) (now : Z) : RunTiming :=
  let origin_ns := round_up_second (sat_add 64 now (GEN_LEAD_SECS * ONE_SECOND_NS)) in
  let start := origin_ns + warmup_secs constants * ONE_SECOND_NS in
  {| t_origin_ns := origin_ns; t_window := {| start_ns := start; end_ns := start + window_secs constants * ONE_SECOND_NS |} |}.

Definition harness_default_origin (constants : ProtocolConstants) (now : Z) : Z :=
  let lead_ns := Z.min (2 ^ 64 - 1)
    ((warmup_secs constants + window_secs constants + GEN_LEAD_SECS + 1) * ONE_SECOND_NS) in
  round_up_second (sat_add 64 now lead_ns).

(** Turns of a sleep: a clock reading, and the cancellation flag when the
    target is still ahead; after the last one the clock is past the target. *)
Fixpoint sleep_until (target_ns : Z) (polls : list (Z * bool)) : option str :=
  match polls with
  | [] => None
  | (now, cancelled) :: polls =>
      if target_ns <=? now then None else if cancelled then Some (lit "cancelled") else sleep_until target_ns polls
  end.

(** ** CPU evidence *)

Definition build_cpu_usage (clk_tck : option Z) (server_start server_end gen_start gen_end : option (Z * Z)) (sampled : Z) :
    He (option CpuUsage) :=
  match match clk_tck with Some v => if 0 <? v then Some v else None | None => None end with
  | None => do% push (lit "cpu ticks unreadable: sysconf(_SC_CLK_TCK) gave no tick rate") in hret None
  | Some clk =>
      match server_start, server_end, gen_start, gen_end with
      | Some (a, b), Some (c, d), Some (e, f), Some (g, h) =>
          hret (Some {| clk_tck := clk; sampled_ns := sampled; server_ticks := sat_sub (c + d) (a + b);
                        generator_ticks := sat_sub (g + h) (e + f) |})
      | Some _, Some _, _, _ | _, _, Some _, Some _ =>
          do% push (lit "cpu ticks unreadable: partial samples") in hret None
      | _, _, _, _ => do% push (lit "cpu ticks unreadable: missing /proc") in hret None
      end
  end.

(** ** The record *)

Record GenReport := {
  gr_scheduled : option Z; gr_window_scheduled : option Z; gr_offered : Z; gr_acked : option Z; gr_missed_slots : Z;
  gr_connect_errors : Z; gr_protocol_errors : Z; gr_stalled : Z; gr_lateness_over_range : Z;
  gr_last_write_start_ns : option Z; gr_cycles_in_window : option Z; gr_lateness : list (Z * Z)
}.

Definition empty_delivery_report : DeliveryReport :=
  {| delivered := 0; duplicates := 0; report_foreign := 0; latency_over_range := 0; clock_anomalies := 0;
     Recorder.dropped := None; report_timeline := {| origin_sec := 0; counts := [] |}; report_latency := [];
     worker_loads := None |}.

Definition empty_gen_report : GenReport :=
  {| gr_scheduled := None; gr_window_scheduled := None; gr_offered := 0; gr_acked := None; gr_missed_slots := 0;
     gr_connect_errors := 0; gr_protocol_errors := 0; gr_stalled := 0; gr_lateness_over_range := 0;
     gr_last_write_start_ns := None; gr_cycles_in_window := None; gr_lateness := [] |}.

Definition no_syscalls (method : SyscallMethod) : Syscalls :=
  {| y_method := method; y_count := None; y_per_msg := None; y_raw := None; y_enabled_ns := None; y_disabled_ns := None;
     y_exit := None; y_diagnostics := None |}.

(** The clock readings of [finalize_record] and the build it runs in. *)
Record FinalAnswers := { fa_unix : Z; fa_now : Z; fa_build : Build }.

Definition record_timing (constants : ProtocolConstants) (timing : RunTiming) (now : Z) : RunTiming :=
  if t_origin_ns timing =? 0 then
    let fallback := harness_default_origin constants now in
    {| t_origin_ns := fallback;
       t_window := {| start_ns := fallback + warmup_secs constants * ONE_SECOND_NS;
                      end_ns := fallback + (warmup_secs constants + window_secs constants) * ONE_SECOND_NS |} |}
  else timing.

(** The record before anything is derived from it. *)
Definition observed_record (spec : RunSpec) (host : HostSetup) (constants : ProtocolConstants) (errors : list str)
    (timing : RunTiming) (driver : option DriverFds) (cpu : option CpuUsage) (delivery : DeliveryReport) (gen : GenReport)
    (syscalls : Syscalls) (a : FinalAnswers) : RunRecord :=
  {| r_schema := SCHEMA_VERSION; r_profile := sp_profile spec; r_server := sp_server spec; r_workers := sp_workers spec;
     r_qos := sp_qos spec; r_kind := sp_kind spec; r_offered_rate := sp_offered_rate spec;
     r_repetition := sp_repetition spec; r_attempt := sp_attempt spec; r_connections := CONNECTIONS;
     r_payload_bytes := Z.of_nat PAYLOAD_BYTES; r_qos1_window := QOS1_WINDOW; r_warmup_secs := warmup_secs constants;
     r_window_secs := window_secs constants; r_drain_grace_secs := drain_grace_secs constants; r_build := fa_build a;
     r_origin_ns := t_origin_ns timing; r_window := t_window timing; r_timeline := report_timeline delivery;
     r_cycles_in_window := gr_cycles_in_window gen;
     r_counts := {| c_scheduled := gr_scheduled gen; c_window_scheduled := gr_window_scheduled gen;
                    c_offered := gr_offered gen; c_acked := gr_acked gen; c_delivered := delivered delivery;
                    c_dropped := Recorder.dropped delivery;
                    c_unresolved := sat_sub (sat_sub (gr_offered gen) (delivered delivery)) (default 0 (Recorder.dropped delivery));
                    c_duplicates := duplicates delivery; c_foreign := report_foreign delivery;
                    c_latency_over_range := latency_over_range delivery; c_clock_anomalies := clock_anomalies delivery |};
     r_throughput := None; r_last10s := None;
     r_latency_ns := if is_open_loop (sp_kind spec)
                     then Some {| p50 := 0; p99 := 0; max_ns := 0; histogram := report_latency delivery |} else None;
     r_lateness := gr_lateness gen; r_lateness_p99_ns := None; r_last_write_start_ns := gr_last_write_start_ns gen;
     r_connections_per_sec := None;
     r_generator_errors := {| g_connect := gr_connect_errors gen; g_protocol := gr_protocol_errors gen;
                              g_missed_slots := gr_missed_slots gen; g_stalled := gr_stalled gen;
                              g_lateness_over_range := gr_lateness_over_range gen |};
     r_syscalls := syscalls; r_driver := driver; r_cpu_sets := h_cpu_sets host; r_env := h_env host; r_cpu := cpu;
     r_host_cpu_pressure := None; r_worker_loads := worker_loads delivery; r_started_at_unix := fa_unix a;
     r_harness_errors := errors; r_valid := false; r_invalid_reasons := []; r_cancelled := false |}.

(** [None] is a panic of [reconcile]. *)
Definition finalize_record (spec : RunSpec) (host : HostSetup) (constants : ProtocolConstants) (errors : list str)
    (timing : RunTiming) (driver : option DriverFds) (cpu : option CpuUsage) (delivery : option DeliveryReport)
    (gen : option GenReport) (syscalls : option Syscalls) (a : FinalAnswers) : option RunRecord :=
  let timing := record_timing constants timing (fa_now a) in
  let syscalls := default (no_syscalls (if should_count spec host then h_syscalls host else NoMethod)) syscalls in
  let record := observed_record spec host constants errors timing driver cpu (default empty_delivery_report delivery)
                  (default empty_gen_report gen) syscalls a in
  let d := derive record in
  let record := set_derived record (d_throughput d) (d_last10s d) (d_connections_per_sec d) (d_lateness_p99_ns d)
                  (d_latency_ns d) (d_syscalls_per_msg d) in
  match reconcile record with
  | None => None
  | Some reasons => Some (set_verdict record reasons)
  end.

(** ** The run *)

(** What the host answers during one run. *)
Record Answers := {
  an_scratch_root : option str;
  an_create_dir : bool;
  an_port : result Z str;
  an_conf : option str;
  an_endpoint : EndpointAnswers;
  an_ready : list LinePoll; an_ready_exit : str;
  an_stderr_kept : str -> bool;
  an_perf : PerfAnswers;
  an_now : Z;
  an_arm_write : option str; an_armed : list LinePoll; an_armed_exit : str; an_armed_at : Z;
  an_generator : result Z str;
  an_window_start : list (Z * bool);
  an_strace : StraceAnswers; an_arm : ArmAnswers;
  an_server_start : result str str; an_gen_start : result str str; an_pressure_start : result str str;
  an_sample_start : Z;
  an_driver : result DriverFds str;
  an_window_end : list (Z * bool);
  an_disarm : DisarmAnswers;
  an_server_end : result str str; an_gen_end : result str str; an_pressure_end : result str str;
  an_sample_end : Z;
  an_reap : list ExitPoll; an_reaped_at : Z;
  an_clk_tck : option Z;
  an_gen_wait : list (option ExitStatus * bool);
  an_terminate : str -> option str * list (TryWait * bool) * ChildEnd;
  an_ends : str -> ChildEnd;
  an_delivery : option DeliveryReport; an_gen_report : option GenReport;
  an_finalize : FinalizeAnswers;
  an_final : FinalAnswers
}.

(** Turns of the wait for the generator: its exit, or the cancellation flag. *)
Fixpoint wait_for_generator (kept : str -> bool) (dir : str) (polls : list (option ExitStatus * bool)) : He unit :=
  match polls with
  | [] => push (lit "generator missed its exit deadline")
  | (Some status, _) :: _ => if success status then hret tt else push (exit_note kept GENERATOR_LABEL status dir)
  | (None, cancelled) :: polls => if cancelled then hret tt else wait_for_generator kept dir polls
  end.

(** SIGTERM a child the guard holds. *)
Definition stop_child (a : Answers) (dir : str) (children : list str) (label : str) (is_bench : bool) : He unit :=
  if bool_decide (label ∈ children) then
    let '(sigterm, polls, end_) := an_terminate a label in
    match terminate_and_wait label sigterm polls end_ with
    | Ok status => if is_bench && negb (success status) then push (exit_note (an_stderr_kept a) label status dir) else hret tt
    | Err e => push e
    end
  else hret tt.

Definition push_error (e : option str) : He unit := match e with Some e => push e | None => hret tt end.

(** A run that ends early has a record and the children it started. *)
Inductive Ending :=
| EndedEarly (timing : RunTiming)
| Finished (timing : RunTiming) (driver : option DriverFds) (cpu : option CpuUsage) (delivery : option DeliveryReport)
           (gen : option GenReport) (syscalls : Syscalls) (pressure : option HostCpuPressure).

Definition ended (timing : RunTiming) (children : list str) : He (Ending * list str) := hret (EndedEarly timing, children).

(** From the samples at the window end: the generator's exit, the signals to the
    subscriber and the endpoint in that order, the reports and the counter. *)
Definition run_drain (spec : RunSpec) (a : Answers) (dir : str) (timing : RunTiming) (driver : option DriverFds)
    (cpu : option CpuUsage) (pressure : option HostCpuPressure) (counter : option Counter) (children : list str) :
    He (Ending * list str) :=
  do% wait_for_generator (an_stderr_kept a) dir (an_gen_wait a) in
  do% stop_child a dir children SUB_LABEL true in
  do% stop_child a dir children ENDPOINT_LABEL (negb (bool_decide (sp_server spec = Mosquitto))) in
  let needs_endpoint := negb (bool_decide (sp_server spec = Mosquitto)) || negb (bool_decide (sp_kind spec = KConnections)) in
  do% (if bool_decide (an_delivery a = None) && needs_endpoint
       then push (lit "missing endpoint report: " ++ path_join dir (lit "endpoint.json")) else hret tt) in
  do% (if bool_decide (an_gen_report a = None)
       then push (lit "missing gen report: " ++ path_join dir (lit "gen.json")) else hret tt) in
  let% syscalls := match counter with
                   | Some c => finalize_counter c (an_finalize a)
                   | None => hret (no_syscalls NoMethod)
                   end in
  hret (Finished timing driver cpu (an_delivery a) (an_gen_report a) syscalls pressure, children).

(** From the window start to the end of the run. *)
Definition run_window (spec : RunSpec) (host : HostSetup) (a : Answers) (dir : str)
    (timing : RunTiming) (server_pid gen_pid : Z) (counter : option Counter) (children : list str) : He (Ending * list str) :=
  let stat pid := lit "/proc/" ++ dec pid ++ lit "/stat" in
  let counting := should_count spec host in
  do% push_error (sleep_until (start_ns (t_window timing)) (an_window_start a)) in
  let% (counter, children) :=
    if counting then
      let% (counter, children) :=
        if bool_decide (h_syscalls host = Strace) then
          let% (c, spawned) := spawn_strace_counter host dir (an_strace a) in
          hret (Some c, if (spawned : bool) then children ++ [COUNTER_LABEL] else children)
        else hret (counter, children) in
      match counter with
      | Some c => let% c := arm_counter c (an_arm a) in hret (Some c, children)
      | None => hret (None, children)
      end
    else hret (counter, children) in
  let server_start := ok (read_cpu_ticks (stat server_pid) (an_server_start a)) in
  let gen_start := ok (read_cpu_ticks (stat gen_pid) (an_gen_start a)) in
  let pressure_start := read_cpu_pressure_total (an_pressure_start a) in
  let% driver := match an_driver a with
                 | Ok d => hret (Some d)
                 | Err e => do% push (lit "driver fds: " ++ e) in hret None
                 end in
  do% push_error (sleep_until (end_ns (t_window timing)) (an_window_end a)) in
  let% counter := match counting, counter with
                  | true, Some c => let% c := disarm_counter c (an_disarm a) in hret (Some c)
                  | _, _ => hret counter
                  end in
  let server_end := ok (read_cpu_ticks (stat server_pid) (an_server_end a)) in
  let gen_end := ok (read_cpu_ticks (stat gen_pid) (an_gen_end a)) in
  let pressure_end := read_cpu_pressure_total (an_pressure_end a) in
  let sampled := sat_sub (an_sample_end a) (an_sample_start a) in
  let% counter := match counting, counter with
                  | true, Some c => let% c := reap_counter c (an_reap a) (an_reaped_at a) in hret (Some c)
                  | _, _ => hret counter
                  end in
  let% cpu := build_cpu_usage (an_clk_tck a) server_start server_end gen_start gen_end sampled in
  let pressure := match pressure_start, pressure_end with
                  | Some s, Some e => Some {| pressure_sampled_ns := sampled; some_stall_us := sat_sub e s |}
                  | _, _ => None
                  end in
  run_drain spec a dir timing driver cpu pressure counter children.

(** From READY to the window start: the perf counter, the schedule, the ARM
    handshake and the generator. *)
Definition run_ready (spec : RunSpec) (host : HostSetup) (a : Answers) (dir : str) (server_pid : Z) (handshake : option str)
    (children : list str) : He (Ending * list str) :=
  let constants := for_profile (sp_profile spec) in
  let% (counter, children) :=
    if should_count spec host && bool_decide (h_syscalls host = Perf) then
      let% (c, spawned) := prepare_perf_counter host dir (an_perf a) in
      hret (Some c, if (spawned : bool) then children ++ [COUNTER_LABEL] else children)
    else hret (None, children) in
  let timing := run_timing constants (an_now a) in
  let% late := match handshake with
               | None => hret false
               | Some label =>
                   do% push_error (match an_arm_write a with Some e => Some (lit "ARM write failed: " ++ e) | None => None end) in
                   match wait_for_line label (lit "ARMED") (an_armed_exit a) (an_armed a) with
                   | Err e =>
                       do% push (lit "endpoint startup failed: ARM handshake: " ++ e ++ lit " " ++ stderr_note (an_stderr_kept a) dir label) in
                       hret true
                   | Ok _ =>
                       if t_origin_ns timing <=? an_armed_at a
                       then do% push (lit "arm handshake exceeded the generator lead") in hret true
                       else hret false
                   end
               end in
  if (late : bool) then ended timing children
  else match an_generator a with
       | Err e => do% push (lit "generator spawn failed: spawn generator: " ++ e) in ended timing children
       | Ok gen_pid => run_window spec host a dir timing server_pid gen_pid counter (children ++ [GENERATOR_LABEL])
       end.

(** [run_guarded] up to its record: how the run ended, the children the guard
    still holds, and the harness errors.  [dir_free] tells that the scratch
    directory of the specification did not exist. *)
Definition run_phases (spec : RunSpec) (host : HostSetup) (a : Answers) (dir_free : bool) : He (Ending * list str) :=
  let dir := path_join (scratch_dir host) (stem_for spec) in
  let kept := an_stderr_kept a in
  do% push_error (match an_scratch_root a with Some e => Some (lit "create scratch dir: " ++ e) | None => None end) in
  if negb (dir_free && an_create_dir a) then
    do% push (SCRATCH_REUSED_PREFIX ++ dir) in ended timing_default []
  else
  match an_port a with
  | Err e => do% push e in ended timing_default []
  | Ok port =>
      let% conf := if bool_decide (sp_server spec = Mosquitto) then
                     match an_conf a with
                     | Some e => do% push (lit "write mosquitto conf: " ++ e) in hret None
                     | None => hret (Some (path_join dir (lit "mosquitto.conf")))
                     end
                   else hret None in
      match spawn_endpoint spec host conf (an_endpoint a) with
      | (Err e, children) => do% push (lit "endpoint startup failed: " ++ e) in ended timing_default children
      | (Ok (server_pid, handshake), children) =>
          let ready := match handshake with
                       | Some label => wait_for_line label (lit "READY") (an_ready_exit a) (an_ready a)
                       | None => Ok tt
                       end in
          match ready with
          | Err e =>
              do% push (lit "endpoint startup failed: READY: " ++ e ++ lit " "
                        ++ stderr_note kept dir (default [] handshake)) in
              ended timing_default children
          | Ok _ => run_ready spec host a dir server_pid handshake children
          end
      end
  end.

Definition run_guarded (spec : RunSpec) (host : HostSetup) (a : Answers) (dir_free : bool) : option (RunRecord * list str) :=
  let constants := for_profile (sp_profile spec) in
  let '((ending, children), errors) := run_phases spec host a dir_free in
  match ending with
  | EndedEarly timing =>
      match finalize_record spec host constants errors timing None None None None None (an_final a) with
      | Some r => Some (r, children)
      | None => None
      end
  | Finished timing driver cpu delivery gen syscalls pressure =>
      match finalize_record spec host constants errors timing driver cpu delivery gen (Some syscalls) (an_final a) with
      | Some r => Some (set_host_cpu_pressure r pressure, children)
      | None => None
      end
  end.

Definition record_survivors (record : RunRecord) (children : list str) (ends : str -> ChildEnd) : option RunRecord :=
  match end_all children ends with
  | [] => Some record
  | survivors =>
      let record := set_harness_errors record
                      (r_harness_errors record ++ ((fun e => CLEANUP_SURVIVOR_PREFIX ++ e) <$> survivors)) in
      match reconcile record with
      | None => None
      | Some reasons => Some (set_verdict record reasons)
      end
  end.

Definition run_one (spec : RunSpec) (host : HostSetup) (a : Answers) (dir_free : bool) : option RunRecord :=
  match run_guarded spec host a dir_free with
  | None => None
  | Some (record, children) => record_survivors record children (an_ends a)
  end.
