(* ===== verification/Probe.v ===== *)
(** * The preflight probes

    bench/src/runner.rs, the child processes that run before any record exists:
    [git rev-parse] behind the provenance check and one [--version] per tool
    behind the captured environment, with the stdout reader, the bounded start,
    the cleanup and the reap.  What the host answers is an argument: a loop
    that polls until a deadline takes the list of its polls, and the end of the
    list is the deadline.  A probe leaves a trace of what was done to its
    process. *)

From S2P Require Import Prelude Text F64 Wire Recorder RunRecord Analysis Sorting Verdict Matrix Counter Runner.
From Stdlib Require Import Ascii.

Definition TOOL_VERSION_TIMEOUT_SECS : Z := 5.
Definition TOOL_VERSION_STDOUT_BYTES_MAX : nat := 4096.
Definition GIT_HEAD_TIMEOUT_SECS : Z := 5.
Definition GIT_HEAD_STDOUT_BYTES_MAX : nat := 4096.
Definition SIGKILL_REAP_TIMEOUT_SECS : Z := 1.

Record Probe := { p_command : str; p_label : str; p_timeout_secs : Z }.

Definition GIT_HEAD_PROBE : Probe :=
  {| p_command := lit "git rev-parse"; p_label := lit "git-head"; p_timeout_secs := GIT_HEAD_TIMEOUT_SECS |}.
Definition TOOL_VERSION_PROBE : Probe :=
  {| p_command := lit "--version"; p_label := lit "version-probe"; p_timeout_secs := TOOL_VERSION_TIMEOUT_SECS |}.

(** ** The stdout reader *)

Inductive BlankLines := Keep | Skip.

(** The pieces [read_line] returns: each with its newline, the last one
    possibly without. *)
Fixpoint split_inclusive (bytes : list Z) : list (list Z) :=
  match bytes with
  | [] => []
  | b :: bytes =>
      if b =? 10 then [b] :: split_inclusive bytes
      else match split_inclusive bytes with
           | [] => [[b]]
           | piece :: pieces => (b :: piece) :: pieces
           end
  end.

Section Reader.
Context (from_utf8 : list Z -> option str).

(** The messages of the reader thread on a stream of lines that ends in EOF or
    in the error [failed], which takes an unfinished line with it. *)
Fixpoint reader_messages (blanks : BlankLines) (pieces : list (list Z)) (failed : option str) : list StdoutLine :=
  match pieces with
  | [] => [match failed with Some e => SFailed e | None => SEof end]
  | piece :: pieces =>
      match (if bool_decide (last piece = Some 10) then None else failed) with
      | Some e => [SFailed e]
      | None =>
          match from_utf8 piece with
          | None => [SFailed (lit "stream did not contain valid UTF-8")]
          | Some line =>
              match blanks with
              | Skip => if is_empty_str (trim line) then reader_messages blanks pieces failed
                        else SLine line :: reader_messages blanks pieces failed
              | Keep => SLine line :: reader_messages blanks pieces failed
              end
          end
      end
  end.

(** [stdout.take(cap)]: the stream ends at the cap. *)
Definition capped_messages (cap : nat) (blanks : BlankLines) (stdout : list Z) (failed : option str) : list StdoutLine :=
  reader_messages blanks (split_inclusive (take cap stdout)) (if (cap <=? length stdout)%nat then None else failed).

(** ** Ending a probe *)

(** What is done to the process of a probe, in order. *)
Inductive ProbeEvent :=
| PStart (id : Z)
| PKillGroup (id : Z)
| PKill (id : Z)
| PReap (id : Z)          (* [child.wait] *)
| PReaper (id : Z)        (* handed to a reaper thread *)
| PUnstarted (command : str).  (* given up on inside [spawn]: [late_start] has the rest *)

(** [waitid] with [WNOWAIT]. *)
Inductive ExitCheck := EcAlive | EcStatus (status : ExitStatus) | EcError (e : str).

(** [i32::try_from]. *)
Definition pid_of (id : Z) : option Z := if id <? 2 ^ 31 then Some id else None.

Definition probe_exit (id : Z) (answer : ExitCheck) : result (option ExitStatus) str :=
  match pid_of id with
  | None => Err (lit "out of range integral type conversion attempted")
  | Some _ =>
      match answer with
      | EcAlive => Ok None
      | EcStatus status => Ok (Some status)
      | EcError e => Err e
      end
  end.

Definition probe_exit_note (status : ExitStatus) : str :=
  match status with
  | Exited code => lit "code " ++ dec_int code
  | Signaled signal => lit "signal " ++ dec_int signal
  end.

(** What ending a probe meets: the errors of the two SIGKILLs, the turns of the
    bounded reap and the error of a reaper thread that does not start. *)
Record ProbeEnd := {
  pe_group : option str; pe_pid : option str; pe_polls : list ExitCheck; pe_reaper : option str
}.

(** The turns of the reap; [Some] is the failure that ends it. *)
Fixpoint reap_polls (id : Z) (polls : list ExitCheck) : option str :=
  match polls with
  | [] => Some (lit "probe " ++ dec id ++ lit " still running " ++ dec SIGKILL_REAP_TIMEOUT_SECS ++ lit "s after SIGKILL")
  | check :: polls =>
      match probe_exit id check with
      | Ok (Some _) => None
      | Ok None => reap_polls id polls
      | Err e => Some (lit "probe " ++ dec id ++ lit " exit check failed: " ++ e)
      end
  end.

Definition reap_probe (probe : Probe) (id : Z) (signal_failures : list str) (a : ProbeEnd) : result unit str * list ProbeEvent :=
  match reap_polls id (pe_polls a) with
  | None => (Ok tt, [PReap id])
  | Some failure =>
      let error := p_command probe ++ lit " cleanup: " ++ failure ++ (signal_failures ≫= (fun f => lit "; " ++ f)) in
      match pe_reaper a with
      | Some e => (Err (error ++ lit "; reaper thread: " ++ e), [])
      | None => (Err error, [PReaper id])
      end
  end.

(** Both signals before the reap, which frees the pid. *)
Definition cleanup_probe (probe : Probe) (id : Z) (a : ProbeEnd) : result unit str * list ProbeEvent :=
  match pid_of id with
  | None => reap_probe probe id [] a
  | Some _ =>
      let failures := (match pe_group a with Some e => [lit "group SIGKILL: " ++ e] | None => [] end)
                      ++ (match pe_pid a with Some e => [lit "pid SIGKILL: " ++ e] | None => [] end) in
      let '(r, events) := reap_probe probe id failures a in
      (r, PKillGroup id :: PKill id :: events)
  end.

(** ** Starting a probe *)

(** One turn of the wait for the starting thread. *)
Inductive StartPoll := SpCancelled | SpStarted (spawned : result Z str) | SpTimeout | SpDisconnected.

(** The last receive of a caller that gives up. *)
Inductive LastReceive := LrChild (id : Z) (ending : ProbeEnd) | LrFailed | LrDisconnected | LrEmpty.

Record StartAnswers := { sa_thread : option str; sa_polls : list StartPoll; sa_last : LastReceive }.

Definition abandoned_startup_error (probe : Probe) (refusal : str) : str :=
  refusal ++ lit "; " ++ p_command probe ++ lit " gave up on a probe that had not finished starting; a probe that starts after this is signalled only while this process lives, and is otherwise left to init".

Definition abandon_startup (probe : Probe) (last : LastReceive) (refusal : str) : str * list ProbeEvent :=
  match last with
  | LrChild id ending =>
      let '(r, events) := cleanup_probe probe id ending in
      (match r with Ok _ => refusal | Err cleanup => refusal ++ lit "; " ++ cleanup end, PStart id :: events)
  | LrFailed | LrDisconnected => (refusal, [])
  | LrEmpty => (abandoned_startup_error probe refusal, [PUnstarted (p_command probe)])
  end.

Fixpoint start_polls (probe : Probe) (polls : list StartPoll) (last : LastReceive) : result Z str * list ProbeEvent :=
  let giving_up refusal := let '(e, events) := abandon_startup probe last refusal in (Err e, events) in
  match polls with
  | [] => giving_up (p_command probe ++ lit " did not answer within " ++ dec (p_timeout_secs probe) ++ lit "s")
  | SpCancelled :: _ => giving_up (lit "cancelled")
  | SpStarted (Ok id) :: _ => (Ok id, [PStart id])
  | SpStarted (Err e) :: _ => (Err (p_command probe ++ lit ": " ++ e), [])
  | SpTimeout :: polls => start_polls probe polls last
  | SpDisconnected :: _ => (Err (p_command probe ++ lit " starter stopped"), [])
  end.

Definition start_probe (probe : Probe) (a : StartAnswers) : result Z str * list ProbeEvent :=
  match sa_thread a with
  | Some e => (Err (p_command probe ++ lit " starter thread: " ++ e), [])
  | None => start_polls probe (sa_polls a) (sa_last a)
  end.

(** The starting thread after its caller gave up with nothing received: the
    probe it still owns, if the spawn succeeded, and what it prints. *)
Definition late_start (probe : Probe) (spawned : result Z str) (a : ProbeEnd) : list str * list ProbeEvent :=
  match spawned with
  | Err _ => ([], [])
  | Ok id =>
      let '(r, events) := cleanup_probe probe id a in
      (match r with Ok _ => [] | Err e => [e] end, PStart id :: events)
  end.

(** ** The answer of a probe *)

(** A receive: the next message when there is one in time; the channel is
    disconnected when the reader has sent its last. *)
Inductive Receive := RvMessage (m : StdoutLine) (rest : list StdoutLine) | RvTimeout | RvDisconnected.
Definition receive (ready : bool) (queue : list StdoutLine) : Receive :=
  if ready then match queue with [] => RvDisconnected | m :: rest => RvMessage m rest end else RvTimeout.

Definition ends_with_newline (line : str) : bool := bool_decide (last line = Some 10).

(** One turn: the cancellation flag, and whether a message is there in time. *)
Record VersionPoll := { vp_cancelled : bool; vp_ready : bool }.

Fixpoint recv_version_line (queue : list StdoutLine) (polls : list VersionPoll) : result str str :=
  match polls with
  | [] => Err (lit "--version did not answer within " ++ dec TOOL_VERSION_TIMEOUT_SECS ++ lit "s")
  | p :: polls =>
      if vp_cancelled p then Err (lit "cancelled")
      else match receive (vp_ready p) queue with
      | RvMessage (SLine line) queue =>
          let version := trim line in
          if is_empty_str version then recv_version_line queue polls
          else if negb (ends_with_newline line) then
            Err (lit "--version printed a line with no newline within " ++ dec (Z.of_nat TOOL_VERSION_STDOUT_BYTES_MAX) ++ lit " bytes")
          else Ok version
      | RvMessage SEof _ => Err (lit "--version printed no non-blank line")
      | RvMessage (SFailed e) _ => Err (lit "read --version stdout: " ++ e)
      | RvTimeout => recv_version_line queue polls
      | RvDisconnected => Err (lit "--version stdout reader stopped")
      end
  end.

(** One turn: the flag, the exit check (made while no status is known), and
    whether a message is there in time. *)
Record HeadPoll := { hp_cancelled : bool; hp_exit : ExitCheck; hp_ready : bool }.

(** The loop's variables. *)
Record HeadWait := { hw_status : option ExitStatus; hw_first : option str; hw_eof : bool; hw_queue : list StdoutLine }.

Definition head_wait_init (queue : list StdoutLine) : HeadWait :=
  {| hw_status := None; hw_first := None; hw_eof := false; hw_queue := queue |}.

(** The status after this turn's check. *)
Definition check_exit (id : Z) (p : HeadPoll) (st : HeadWait) : result (option ExitStatus) str :=
  match hw_status st with Some s => Ok (Some s) | None => probe_exit id (hp_exit p) end.

(** The end of a turn that found a status, if it ends the wait. *)
Definition head_settled (st : HeadWait) (status : option ExitStatus) : option (result str str) :=
  match status with
  | None => None
  | Some (Exited 0) =>
      match hw_first st with
      | Some sha => Some (Ok sha)
      | None => if hw_eof st then Some (Err (lit "git rev-parse printed no line")) else None
      end
  | Some s => Some (Err (lit "git rev-parse exited with " ++ probe_exit_note s))
  end.

(** The receive of a turn. *)
Definition head_receive (ready : bool) (st : HeadWait) (status : option ExitStatus) : HeadWait + str :=
  let next first eof queue := inl {| hw_status := status; hw_first := first; hw_eof := eof; hw_queue := queue |} in
  if hw_eof st then next (hw_first st) true (hw_queue st)
  else match receive ready (hw_queue st) with
  | RvMessage (SLine line) queue =>
      let first := match hw_first st with
                   | Some f => Some f
                   | None => if ends_with_newline line && negb (is_empty_str (trim line)) then Some (trim line) else None
                   end in
      next first false queue
  | RvMessage SEof queue => next (hw_first st) true queue
  | RvMessage (SFailed e) _ => inr (lit "read git rev-parse stdout: " ++ e)
  | RvTimeout => next (hw_first st) false (hw_queue st)
  | RvDisconnected => next (hw_first st) true (hw_queue st)
  end.

Fixpoint wait_for_head_sha (id : Z) (polls : list HeadPoll) (st : HeadWait) : result str str :=
  match polls with
  | [] => Err (lit "git rev-parse did not answer within " ++ dec GIT_HEAD_TIMEOUT_SECS ++ lit "s")
  | p :: polls =>
      if hp_cancelled p then Err (lit "cancelled")
      else match check_exit id p st with
      | Err e => Err (lit "git rev-parse: " ++ e)
      | Ok status =>
          match head_settled st status with
          | Some r => r
          | None =>
              match head_receive (hp_ready p) st status with
              | inl st => wait_for_head_sha id polls st
              | inr e => Err e
              end
          end
      end
  end.

(** ** The probes *)

(** What the probe's process and the host answer: [pa_stdout] is what it
    prints, [None] when stdout is not piped; [pa_failed] the error its stream
    ends in; [pa_reader] the error of a reader thread that does not start. *)
Record ProbeAnswers := {
  pa_start : StartAnswers; pa_stdout : option (list Z); pa_failed : option str; pa_reader : option str; pa_end : ProbeEnd
}.

(** The answer of a probe, joined with the failure of its cleanup. *)
Definition with_cleanup (r : result str str) (cleanup : result unit str) : result str str :=
  match r, cleanup with
  | r, Ok _ => r
  | Ok _, Err c => Err c
  | Err refusal, Err c => Err (refusal ++ lit "; " ++ c)
  end.

(** A started probe is read by [read] and ended on every path. *)
Definition run_probe (probe : Probe) (a : ProbeAnswers) (cap : nat) (unpiped : str)
    (read : Z -> list StdoutLine -> result str str) : result str str * list ProbeEvent :=
  match start_probe probe (pa_start a) with
  | (Err e, events) => (Err e, events)
  | (Ok id, events) =>
      let r := match pa_stdout a with
               | None => Err unpiped
               | Some stdout =>
                   match pa_reader a with
                   | Some e => Err (lit "spawn " ++ p_label probe ++ lit " stdout reader: " ++ e)
                   | None => read id (capped_messages cap Skip stdout (pa_failed a))
                   end
               end in
      let '(cleanup, ended) := cleanup_probe probe id (pa_end a) in
      (with_cleanup r cleanup, events ++ ended)
  end.

Definition tool_version (a : ProbeAnswers) (polls : list VersionPoll) : result str str * list ProbeEvent :=
  run_probe TOOL_VERSION_PROBE a TOOL_VERSION_STDOUT_BYTES_MAX (lit "--version stdout not piped")
    (fun _ queue => recv_version_line queue polls).

Definition head_sha (a : ProbeAnswers) (polls : list HeadPoll) : result str str * list ProbeEvent :=
  run_probe GIT_HEAD_PROBE a GIT_HEAD_STDOUT_BYTES_MAX (lit "git rev-parse stdout not piped")
    (fun id queue => wait_for_head_sha id polls (head_wait_init queue)).

(** ** The environment *)

(** The text after [model name], up to a second colon. *)
Definition cpu_model_of (cpuinfo : option str) : str :=
  match cpuinfo with
  | None => []
  | Some text =>
      match List.find (fun l => starts_with (lit "model name") l) (lines text) with
      | None => []
      | Some line => match split_char (chr ":") line !! 1%nat with Some model => trim model | None => [] end
      end
  end.

(** The files of [/proc], the probes of the tools in order, and the two
    variables of the build. *)
Record EnvAnswers := {
  ev_osrelease : result str str; ev_hostname : result str str; ev_cpuinfo : option str;
  ev_probe : nat -> ProbeAnswers * list VersionPoll; ev_build_sha : str; ev_build_dirty : str
}.

Fixpoint tool_versions (i : nat) (tools : list str) (probe : nat -> ProbeAnswers * list VersionPoll) :
    result (list (str * str)) str * list ProbeEvent :=
  match tools with
  | [] => (Ok [], [])
  | tool :: tools =>
      let '(a, polls) := probe i in
      match tool_version a polls with
      | (Err e, events) => (Err (tool ++ lit " --version: " ++ e), events)
      | (Ok version, events) =>
          let '(r, more) := tool_versions (S i) tools probe in
          (match r with Ok pairs => Ok ((tool, version) :: pairs) | Err e => Err e end, events ++ more)
      end
  end.

Definition capture_env (tools : list str) (a : EnvAnswers) : result Env str * list ProbeEvent :=
  match ev_osrelease a with
  | Err e => (Err (lit "read osrelease: " ++ e), [])
  | Ok release =>
      match ev_hostname a with
      | Err e => (Err (lit "read hostname: " ++ e), [])
      | Ok name =>
          let '(r, events) := tool_versions 0 tools (ev_probe a) in
          (match r with
           | Err e => Err e
           | Ok pairs =>
               Ok {| kernel := trim release; cpu_model := cpu_model_of (ev_cpuinfo a); host_name := trim name;
                     git_sha := ev_build_sha a; git_dirty := negb (bool_decide (ev_build_dirty a = lit "false"));
                     tools := pairs |}
           end, events)
      end
  end.
End Reader.

(** ** A dropped guard *)

(** [report_within]: what reaches stderr of the reports when the writer thread
    starts and gets through [written] lines before the process ends. *)
Definition report_within (reports : list str) (started : bool) (written : nat) : list str :=
  match reports with [] => [] | _ => if started then take written reports else [] end.

(** [Drop] of a guard that still holds children. *)
Definition drop_guard (children : list str) (ends : str -> ChildEnd) (started : bool) (written : nat) : list str :=
  report_within (end_all children ends) started written.
