(* ===== verification/ProbeSpec.v ===== *)
(** * What the preflight probes promise

    [probe_ended]: whatever the host answers, a probe that was started is
    signalled before it is reaped and never after, and one that could not be
    reaped is named in the error.  [head_sha_answer]: the provenance probe
    answers only with a whole line its process printed before it exited with
    success. *)

From S2P Require Import Prelude Text F64 Wire Recorder RunRecord Analysis Sorting Verdict Matrix Counter Runner Probe.

(** ** Ending *)

(** The signals a probe of id [id] is sent. *)
Definition signals (id : Z) : list ProbeEvent := match pid_of id with Some _ => [PKillGroup id; PKill id] | None => [] end.

(** The trace of one probe. *)
Definition ended (id : Z) (reaped : bool) (tr : list ProbeEvent) : Prop :=
  if reaped then tr = PStart id :: signals id ++ [PReap id]
  else tr = PStart id :: signals id ++ [PReaper id] \/ tr = PStart id :: signals id.

(** The error of a probe left running. *)
Definition names_probe (id : Z) (e : str) : Prop := exists a b, e = a ++ lit "probe " ++ dec id ++ b.

Lemma names_app_l id a e : names_probe id e -> names_probe id (a ++ e).
Proof. intros (x & y & ->). exists (a ++ x), y. by rewrite <- app_assoc. Qed.
Lemma names_app_r id e b : names_probe id e -> names_probe id (e ++ b).
Proof. intros (x & y & ->). exists x, (y ++ b). by rewrite <- !app_assoc. Qed.
Create HintDb probe.
#[export] Hint Resolve names_app_l names_app_r : probe.

Lemma reap_polls_named id polls e : reap_polls id polls = Some e -> names_probe id e.
Proof.
  induction polls as [|c polls IH]; cbn [reap_polls].
  - intros H. apply (inj Some) in H as <-. exists [], (lit " still running " ++ dec SIGKILL_REAP_TIMEOUT_SECS ++ lit "s after SIGKILL"). done.
  - destruct (probe_exit id c) as [[s|]|e']; [done|exact IH|]. intros H. apply (inj Some) in H as <-.
    exists [], (lit " exit check failed: " ++ e'). done.
Qed.

Lemma cleanup_probe_ended probe id a r tr : cleanup_probe probe id a = (r, tr) ->
  match r with
  | Ok _ => ended id true (PStart id :: tr)
  | Err e => ended id false (PStart id :: tr) /\ names_probe id e
  end.
Proof.
  unfold cleanup_probe, ended, signals. destruct (pid_of id) as [pid|].
  - set (failures := _ ++ _). unfold reap_probe. destruct (reap_polls id (pe_polls a)) as [failure|] eqn:E.
    + apply reap_polls_named in E. destruct (pe_reaper a); intros H; apply pair_eq in H as [<- <-]; split; eauto 7 with probe.
    + intros H. apply pair_eq in H as [<- <-]. done.
  - unfold reap_probe. destruct (reap_polls id (pe_polls a)) as [failure|] eqn:E.
    + apply reap_polls_named in E. destruct (pe_reaper a); intros H; apply pair_eq in H as [<- <-]; split; eauto 7 with probe.
    + intros H. apply pair_eq in H as [<- <-]. done.
Qed.

(** The error of a probe given up on before it had a pid. *)
Definition warns_unstarted (command e : str) : Prop :=
  exists a b, e = a ++ command ++ lit " gave up on a probe that had not finished starting; " ++ b.

Lemma warns_app_l c a e : warns_unstarted c e -> warns_unstarted c (a ++ e).
Proof. intros (x & y & ->). exists (a ++ x), y. by rewrite <- app_assoc. Qed.
Lemma warns_app_r c e b : warns_unstarted c e -> warns_unstarted c (e ++ b).
Proof. intros (x & y & ->). exists x, (y ++ b). by rewrite <- !app_assoc. Qed.
Lemma abandoned_warns probe refusal : warns_unstarted (p_command probe) (abandoned_startup_error probe refusal).
Proof.
  unfold warns_unstarted, abandoned_startup_error. exists (refusal ++ lit "; "). eexists. rewrite <- app_assoc. do 3 f_equal.
Qed.
#[export] Hint Resolve warns_app_l warns_app_r abandoned_warns : probe.

(** What a probe comes to: no process, one given up on inside [spawn], which
    its error says, a reaped one, or one its error names. *)
Definition accounted {A} (r : result A str) (tr : list ProbeEvent) : Prop :=
  (exists e, r = Err e /\ (tr = [] \/ exists c, tr = [PUnstarted c] /\ warns_unstarted c e)) \/
  exists id, ended id true tr \/ (ended id false tr /\ exists e, r = Err e /\ names_probe id e).

Lemma start_probe_spec probe a : match start_probe probe a with
  | (Ok id, tr) => tr = [PStart id]
  | (Err e, tr) => @accounted Z (Err e) tr
  end.
Proof.
  unfold start_probe. destruct (sa_thread a) as [e|]; [left; eauto 10|].
  assert (Hgive : forall refusal, let '(e, tr) := abandon_startup probe (sa_last a) refusal in @accounted Z (Err e) tr).
  { intros refusal. unfold abandon_startup. destruct (sa_last a) as [id ending| | |]; [|left; eauto 10 with probe..].
    destruct (cleanup_probe probe id ending) as [r tr] eqn:E. apply cleanup_probe_ended in E. right. exists id.
    destruct r as [[]|c]; [by left|]. right. destruct E as [E1 E2]. split; [exact E1|]. eexists. split; [reflexivity|eauto 7 with probe]. }
  induction (sa_polls a) as [|p polls IH]; cbn [start_polls].
  - specialize (Hgive (p_command probe ++ lit " did not answer within " ++ dec (p_timeout_secs probe) ++ lit "s")).
    by destruct (abandon_startup _ _ _).
  - destruct p as [|[id|e]| |]; [|done|left; eauto 10|exact IH|left; eauto 10].
    specialize (Hgive (lit "cancelled")). by destruct (abandon_startup _ _ _).
Qed.

Section Spec.
Context (from_utf8 : list Z -> option str).

Lemma run_probe_spec probe a cap unpiped read r tr : run_probe from_utf8 probe a cap unpiped read = (r, tr) ->
  accounted r tr /\
  forall x, r = Ok x -> exists id stdout, ended id true tr /\ pa_stdout a = Some stdout /\
    read id (capped_messages from_utf8 cap Skip stdout (pa_failed a)) = Ok x.
Proof.
  unfold run_probe. pose proof (start_probe_spec probe (pa_start a)) as Hs.
  destruct (start_probe probe (pa_start a)) as [[id|e] events].
  - subst events. set (ans := match pa_stdout a with Some _ => _ | None => _ end).
    destruct (cleanup_probe probe id (pa_end a)) as [c tr'] eqn:Ec. apply cleanup_probe_ended in Ec.
    intros H. apply pair_eq in H as [<- <-]. cbn [app]. destruct c as [[]|c].
    + split; [right; exists id; by left|]. intros x Hx.
      assert (Hans : ans = Ok x) by (destruct ans; exact Hx). clear Hx. subst ans.
      destruct (pa_stdout a) as [stdout|]; [|discriminate Hans]. destruct (pa_reader a); [discriminate Hans|].
      by exists id, stdout.
    + destruct Ec as [E1 E2]. split; [|by destruct ans]. right. exists id. right. split; [exact E1|].
      destruct ans as [v|refusal]; eexists; (split; [reflexivity|]); eauto with probe.
  - intros H. apply pair_eq in H as [<- <-]. split; [|by intros x]. destruct Hs as [(e' & [= <-] & Hs)|(id & Hs)]; [left; eauto|].
    right. exists id. destruct Hs as [Hs|(Hs & e' & He & Hn)]; [by left|]. right. injection He as <-. split; [done|]. eauto.
Qed.

(** ** The line *)

(** The first whole non-blank line of an output. *)
Fixpoint first_line (pieces : list (list Z)) : option str :=
  match pieces with
  | [] => None
  | piece :: pieces =>
      match from_utf8 piece with
      | None => None
      | Some line =>
          if is_empty_str (trim line) || negb (ends_with_newline line) then first_line pieces else Some (trim line)
      end
  end.

(** The same of a queue of messages. *)
Fixpoint first_message (queue : list StdoutLine) : option str :=
  match queue with
  | SLine line :: queue => if is_empty_str (trim line) || negb (ends_with_newline line) then first_message queue else Some (trim line)
  | _ => None
  end.

Lemma first_message_messages pieces failed s :
  first_message (reader_messages from_utf8 Skip pieces failed) = Some s -> first_line pieces = Some s.
Proof.
  induction pieces as [|piece pieces IH]; cbn [reader_messages first_line]; [by destruct failed|].
  destruct (if bool_decide _ then None else failed); [done|]. destruct (from_utf8 piece) as [line|]; [|done].
  destruct (is_empty_str (trim line)) eqn:E; [exact IH|]. cbn [first_message]. rewrite E. cbn [orb].
  destruct (negb (ends_with_newline line)); [exact IH|done].
Qed.

Lemma recv_version_answer polls : forall queue v, recv_version_line queue polls = Ok v -> first_message queue = Some v.
Proof.
  induction polls as [|p polls IH]; intros queue v; cbn [recv_version_line]; [done|].
  destruct (vp_cancelled p); [done|]. unfold receive. destruct (vp_ready p); [|apply IH].
  destruct queue as [|[line| |e] queue]; [done| |done|done]. cbn [first_message].
  destruct (is_empty_str (trim line)); [apply IH|]. cbn [orb]. destruct (negb (ends_with_newline line)); [done|].
  by intros [= <-].
Qed.

(** What the wait for the sha has seen. *)
Definition head_inv (queue : list StdoutLine) (st : HeadWait) : Prop :=
  match hw_first st with
  | Some s => first_message queue = Some s
  | None => hw_eof st = false -> first_message (hw_queue st) = first_message queue
  end.

Lemma head_receive_inv queue ready st status st' :
  head_inv queue st -> head_receive ready st status = inl st' -> head_inv queue st'.
Proof.
  unfold head_inv, head_receive. intros Hi. destruct (hw_eof st) eqn:Eeof.
  { intros [= <-]. cbn. destruct (hw_first st); [done|by intros]. }
  unfold receive. destruct ready; [|intros [= <-]; cbn; by destruct (hw_first st)].
  destruct (hw_queue st) as [|[line| |e] q] eqn:Eq; [| | |done].
  - intros [= <-]. cbn. destruct (hw_first st); [done|by intros].
  - intros [= <-]. cbn. destruct (hw_first st); [done|]. specialize (Hi eq_refl). cbn [first_message] in Hi.
    destruct (ends_with_newline line), (is_empty_str (trim line)); cbn [andb negb orb] in *; rewrite <- Hi; done.
  - intros [= <-]. cbn. destruct (hw_first st); [done|by intros].
Qed.

(** The status a poll reports. *)
Definition reports_success (p : HeadPoll) : Prop := hp_exit p = EcStatus (Exited 0) /\ hp_cancelled p = false.

Lemma wait_for_head_sha_answer queue id polls : forall st s,
  head_inv queue st ->  wait_for_head_sha id polls st = Ok s ->
  first_message queue = Some s /\ (hw_status st = Some (Exited 0) \/ exists p, p ∈ polls /\ reports_success p).
Proof.
  induction polls as [|p polls IH]; intros st s Hi; cbn [wait_for_head_sha]; [done|].
  destruct (hp_cancelled p) eqn:Ec; [done|]. destruct (check_exit id p st) as [status|e] eqn:Ek; [|done].
  assert (Hst : status = Some (Exited 0) -> hw_status st = Some (Exited 0) \/ reports_success p).
  { unfold check_exit, probe_exit in Ek. destruct (hw_status st); [injection Ek as <-; auto|]. intros ->.
    destruct (pid_of id); [|done]. destruct (hp_exit p) eqn:Ep; try done. injection Ek as ->. right. by split. }
  unfold head_settled. destruct status as [status|].
  - destruct status as [[|c|c]|sg]; [|done..]. specialize (Hst eq_refl).
    assert (Hdone : hw_status st = Some (Exited 0) \/ exists p', p' ∈ p :: polls /\ reports_success p').
    { destruct Hst as [Hst|Hst]; [by left|right]. exists p. split; [left|done]. }
    destruct (hw_first st) as [f|] eqn:Ef.
    + intros [= <-]. split; [|exact Hdone]. unfold head_inv in Hi. by rewrite Ef in Hi.
    + destruct (hw_eof st) eqn:Eeof; [done|]. destruct (head_receive _ _ _) as [st'|e] eqn:Er; [|done].
      intros Hr. destruct (IH st' s) as [H1 _]; [by eapply head_receive_inv|exact Hr|]. split; [exact H1|exact Hdone].
  - destruct (head_receive _ _ _) as [st'|e] eqn:Er; [|done]. intros Hr.
    destruct (IH st' s) as [H1 H2]; [by eapply head_receive_inv|exact Hr|]. split; [exact H1|].
    destruct H2 as [H2|(p' & Hp & H2)]; [|right; exists p'; split; [by right|done]].
    exfalso. unfold head_receive in Er. destruct (hw_eof st); [injection Er as <-; done|].
    unfold receive in Er. destruct (hp_ready p); [|injection Er as <-; done].
    destruct (hw_queue st) as [|[line| |e] q]; [injection Er as <-; done..|done].
Qed.

(** ** The probes *)

Abbreviation first_line_of stdout := (first_line (split_inclusive (take GIT_HEAD_STDOUT_BYTES_MAX stdout))).

Lemma head_sha_spec a polls r tr : head_sha from_utf8 a polls = (r, tr) ->
  accounted r tr /\
  forall sha, r = Ok sha -> (exists id, ended id true tr) /\
    (exists stdout, pa_stdout a = Some stdout /\ first_line_of stdout = Some sha) /\ exists p, p ∈ polls /\ reports_success p.
Proof.
  intros H. apply run_probe_spec in H as [H1 H2]. split; [done|]. intros sha Hr.
  destruct (H2 sha Hr) as (id & stdout & He & Hs & Hw).
  apply (wait_for_head_sha_answer (capped_messages from_utf8 GIT_HEAD_STDOUT_BYTES_MAX Skip stdout (pa_failed a))) in Hw as [Hw Hp];
    [|by cbn]. split; [by exists id|]. split; [|by destruct Hp as [Hp|Hp]]. exists stdout. split; [done|].
  by apply first_message_messages in Hw.
Qed.

Lemma tool_version_spec a polls r tr : tool_version from_utf8 a polls = (r, tr) ->
  accounted r tr /\
  forall v, r = Ok v -> (exists id, ended id true tr) /\ exists stdout, pa_stdout a = Some stdout /\ first_line_of stdout = Some v.
Proof.
  intros H. apply run_probe_spec in H as [H1 H2]. split; [done|]. intros v Hr.
  destruct (H2 v Hr) as (id & stdout & He & Hs & Hw). apply recv_version_answer, first_message_messages in Hw.
  split; [by exists id|]. by exists stdout.
Qed.

(** Every probe of a trace was reaped. *)
Definition all_reaped (tr : list ProbeEvent) : Prop := exists ids, tr = ids ≫= (fun id => PStart id :: signals id ++ [PReap id]).

(** What is left of the last probe: nothing, a process that [e] names, or one
    that had no pid yet, which [e] warns of. *)
Definition last_left (e : str) (tr : list ProbeEvent) : Prop :=
  tr = [] \/ (exists id, ended id false tr /\ names_probe id e) \/ exists c, tr = [PUnstarted c] /\ warns_unstarted c e.

(** Every probe was reaped, save possibly the last, which [e] accounts for. *)
Definition left_named (e : str) (tr : list ProbeEvent) : Prop :=
  exists tr1 tr2, tr = tr1 ++ tr2 /\ all_reaped tr1 /\ last_left e tr2.

Lemma all_reaped_nil : all_reaped [].
Proof. by exists []. Qed.
Lemma all_reaped_app a b : all_reaped a -> all_reaped b -> all_reaped (a ++ b).
Proof. intros [ia ->] [ib ->]. exists (ia ++ ib). by rewrite bind_app. Qed.
Lemma all_reaped_one id tr : ended id true tr -> all_reaped tr.
Proof. intros ->. exists [id]. symmetry. apply app_nil_r. Qed.
Lemma reaped_named e tr : all_reaped tr -> left_named e tr.
Proof. intros H. exists tr, []. rewrite app_nil_r. split_and!; [done..|by left]. Qed.
Lemma accounted_named {A} e tr : @accounted A (Err e) tr -> left_named e tr.
Proof.
  intros [(e' & [= <-] & H)|(id & [H|(H & e' & [= <-] & Hn)])]; [|by eapply reaped_named, all_reaped_one|];
    exists [], tr; (split; [done|]); (split; [apply all_reaped_nil|]).
  - destruct H as [->|H]; [by left|by right; right].
  - right. left. by exists id.
Qed.
Lemma named_app e a b : all_reaped a -> left_named e b -> left_named e (a ++ b).
Proof.
  intros Ha (b1 & b2 & -> & Hb & H). exists (a ++ b1), b2. rewrite app_assoc. split; [done|]. split; [by apply all_reaped_app|done].
Qed.
Lemma left_named_l e a tr : left_named e tr -> left_named (a ++ e) tr.
Proof.
  intros (t1 & t2 & -> & H1 & H2). exists t1, t2. split_and!; [done..|].
  destruct H2 as [->|[(id & H2 & H3)|(c & -> & H3)]]; [by left|right; left|right; right]; eauto with probe.
Qed.

Lemma tool_versions_spec probe tools : forall i r tr, tool_versions from_utf8 i tools probe = (r, tr) ->
  match r with
  | Ok pairs => all_reaped tr /\ pairs.*1 = tools /\
      forall k path v, pairs !! k = Some (path, v) ->
        exists stdout, pa_stdout (probe (i + k)%nat).1 = Some stdout /\ first_line_of stdout = Some v
  | Err e => left_named e tr
  end.
Proof.
  induction tools as [|tool tools IH]; intros i r tr; cbn [tool_versions].
  { intros [= <- <-]. split_and!; [apply all_reaped_nil|done|done]. }
  destruct (probe i) as [a polls] eqn:Ep. destruct (tool_version from_utf8 a polls) as [[v|e] ev] eqn:Ev; apply tool_version_spec in Ev as [E1 E2].
  - destruct (E2 v eq_refl) as [[id Hid] (stdout & Hs & Hl)]. apply all_reaped_one in Hid.
    destruct (tool_versions from_utf8 (S i) tools probe) as [r' more] eqn:Er. apply IH in Er. intros H. apply pair_eq in H as [<- <-].
    destruct r' as [pairs|e]; [|by apply named_app]. destruct Er as (H1 & H2 & H3).
    split_and!; [by apply all_reaped_app|by rewrite fmap_cons, H2|]. intros [|k] path v'; cbn [lookup list_lookup].
    + intros [= <- <-]. rewrite Nat.add_0_r, Ep. by exists stdout.
    + intros Hk. destruct (H3 _ _ _ Hk) as (so & ? & ?). exists so. by rewrite Nat.add_succ_r.
  - intros H. apply pair_eq in H as [<- <-]. apply left_named_l, left_named_l. by apply (accounted_named (A := str)).
Qed.

Lemma capture_env_spec tools a r tr : capture_env from_utf8 tools a = (r, tr) ->
  match r with
  | Ok env => all_reaped tr /\ git_sha env = ev_build_sha a /\ git_dirty env = negb (bool_decide (ev_build_dirty a = lit "false")) /\
      (RunRecord.tools env).*1 = tools /\
      forall k path v, RunRecord.tools env !! k = Some (path, v) ->
        exists stdout, pa_stdout (ev_probe a k).1 = Some stdout /\ first_line_of stdout = Some v
  | Err e => left_named e tr
  end.
Proof.
  assert (Hnil : forall e, left_named e []) by (intros; apply reaped_named, all_reaped_nil).
  unfold capture_env. destruct (ev_osrelease a); [|intros H; apply pair_eq in H as [<- <-]; apply Hnil].
  destruct (ev_hostname a); [|intros H; apply pair_eq in H as [<- <-]; apply Hnil].
  destruct (tool_versions from_utf8 0 tools (ev_probe a)) as [r' ev] eqn:E. apply tool_versions_spec in E.
  intros H. apply pair_eq in H as [<- <-]. destruct r' as [pairs|e]; [|done]. destruct E as (H1 & H2 & H3). split_and!; done.
Qed.
End Spec.
