(* ===== verification/Doc.v ===== *)
(** * The published document

    bench/src/doc.rs: the checks that refuse an unpublishable set of records,
    the configurations a document publishes, and the document itself, as a
    list of lines.  A [HashMap] over configurations is a [gmap]; the code reads
    the maps by key and folds their values into sets, so the order of iteration
    is not observable.  [None] is a panic of a figure ([median] of a NaN).
    Refusals keep the values their messages format. *)

From S2P Require Import Prelude Text F64 Wire Recorder RunRecord Analysis CpuSet Sorting Verdict Matrix Runner.

Definition FAILED : str := lit "FAILED".
Definition MOSQUITTO_RESULTS_LABEL : str := lit "mosquitto (endpoint = subscriber receipt)".
Definition NS_PER_MS : Z := 1000000.

(** ** Cells *)

(** [char::is_control]. *)
Definition is_control (c : Z) : bool := (c <? 32) || ((127 <=? c) && (c <? 160)).

Definition cell_char (c : Z) : str :=
  if c =? 92 then [92; 92]
  else if c =? 124 then [92; 124]
  else if is_control c then [32]
  else [c].

Definition cell (text : str) : str := text ≫= cell_char.

Definition blank (text : str) : bool := is_empty_str (trim (cell text)).

Definition server_label (server : ServerKind) : str :=
  match server with Uring => lit "uring" | Tokio => lit "tokio" | Mosquitto => lit "mosquitto" end.

Definition config_label (key : ConfigKey) : str :=
  let kind :=
    match k_kind key with
    | KThroughput => lit "throughput"
    | KLatency => match k_offered_rate key with Some rate => lit "latency-at" ++ dec rate | None => lit "latency" end
    | KConnections => lit "connections"
    | KCounted => match k_offered_rate key with Some rate => lit "counted-at" ++ dec rate | None => lit "counted" end
    end in
  let qos := match k_qos key with Some q => lit "-q" ++ dec q | None => [] end in
  server_label (k_server key) ++ lit "-w" ++ dec (k_workers key) ++ qos ++ lit "-" ++ kind.

(** ** The matrix *)

(** [declared_rates] covers the recorded row groups. *)
Definition row_rates (profile : Profile) (workers qos : Z) : DeclaredRates :=
  default {| lower := 0; higher := 0 |} (declared_rates profile workers qos).

Definition group_configs (profile : Profile) (w q : Z) (s : ServerKind) : list ConfigKey :=
  let rates := row_rates profile w q in
  let config kind rate := {| k_server := s; k_workers := w; k_qos := Some q; k_kind := kind; k_offered_rate := rate |} in
  config KThroughput None :: ((fun rate => config KLatency (Some rate)) <$> both rates) ++ [config KCounted (Some (higher rates))].

Definition connections_config (w : Z) (s : ServerKind) : ConfigKey :=
  {| k_server := s; k_workers := w; k_qos := None; k_kind := KConnections; k_offered_rate := None |}.

Definition expected_configs (profile : Profile) : list ConfigKey :=
  RECORDED_WORKERS ≫= (fun w =>
    let servers := servers_for w RECORDED_SERVERS in
    (RECORDED_QOS ≫= (fun q => servers ≫= group_configs profile w q)) ++ (connections_config w <$> servers)).

(** ** Refusals *)

Inductive Violation :=
| BadConstant (file field : str) (got expected : Z)
| MultipleCpuSets (pairs : list (str * str))
| OutsideMatrix (file label : str)
| WithoutCounter (label file : str)
| CounterOnUncounted (label reason file : str)
| MixedMethods (methods : list str).

Inductive DocError :=
| NoRecords
| UnsupportedSchema (schema : Z)
| SmokeRecordInRecordedDoc (file : str)
| DocDebugBuild
| DirtyTree
| MixedEnvironment (field : str)
| BlankEnvironment (field : str)
| NoToolVersions
| BlankToolPath (index : nat)
| BlankToolVersion (path : str)
| BlankCpuSet (field : str)
| InconsistentRecord (file : str) (mismatches : list Mismatch)
| ProtocolViolation (v : Violation)
| FailedConfigurations (names : list str).

(** [Some e] refuses. *)
Abbreviation Check := (option DocError).

Definition refuse_if (b : bool) (e : DocError) : Check := if b then Some e else None.

(** The first refusal of a sequence of checks, each reached only when the ones
    before it passed. *)
Definition first_refusal (checks : list Check) : Check := head (omap id checks).

(** [for rec in records { .. return Err(..) }]. *)
Definition each (f : RunRecord -> Check) (records : list RunRecord) : Check := head (omap f records).

Definition schema_check (records : list RunRecord) : Check :=
  each (fun r => refuse_if (negb (r_schema r =? SCHEMA_VERSION)) (UnsupportedSchema (r_schema r))) records.

(** Outer [None] is a panic of [recompute]. *)
Fixpoint recompute_check (records : list RunRecord) : option Check :=
  match records with
  | [] => Some None
  | r :: records =>
      match recompute r with
      | None => None
      | Some [] => recompute_check records
      | Some mismatches => Some (Some (InconsistentRecord (file_name r) mismatches))
      end
  end.

(** More than one value in a [BTreeSet] filled from the records. *)
Definition mixed {A} `{EqDecision A} (f : RunRecord -> A) (records : list RunRecord) : bool :=
  (1 <? length (remove_dups (f <$> records)))%nat.

Definition some_blank (f : RunRecord -> str) (records : list RunRecord) : bool := existsb (fun r => blank (f r)) records.

(** The first entry a test picks, with its position. *)
Fixpoint position_from {A} (p : A -> bool) (i : nat) (l : list A) : option (nat * A) :=
  match l with
  | [] => None
  | x :: l => if p x then Some (i, x) else position_from p (S i) l
  end.

(** The one [env.tools] value of records that share it. *)
Definition shared_tools (records : list RunRecord) : list (str * str) :=
  match records with [] => [] | r :: _ => tools (r_env r) end.

Definition environment_checks (records : list RunRecord) : list Check :=
  [ each (fun r => refuse_if (bool_decide (r_profile r = Smoke)) (SmokeRecordInRecordedDoc (file_name r))) records;
    refuse_if (existsb (fun r => bool_decide (r_build r = DebugBuild)) records) DocDebugBuild;
    refuse_if (existsb (fun r => git_dirty (r_env r)) records) DirtyTree;
    refuse_if (mixed (fun r => git_sha (r_env r)) records) (MixedEnvironment (lit "git_sha"));
    refuse_if (mixed (fun r => kernel (r_env r)) records) (MixedEnvironment (lit "kernel"));
    refuse_if (mixed (fun r => host_name (r_env r)) records) (MixedEnvironment (lit "host"));
    refuse_if (mixed (fun r => cpu_model (r_env r)) records) (MixedEnvironment (lit "cpu_model"));
    refuse_if (mixed (fun r => tools (r_env r)) records) (MixedEnvironment (lit "tools"));
    refuse_if (some_blank (fun r => git_sha (r_env r)) records) (BlankEnvironment (lit "git_sha"));
    refuse_if (some_blank (fun r => kernel (r_env r)) records) (BlankEnvironment (lit "kernel"));
    refuse_if (some_blank (fun r => host_name (r_env r)) records) (BlankEnvironment (lit "host"));
    refuse_if (some_blank (fun r => cpu_model (r_env r)) records) (BlankEnvironment (lit "cpu_model"));
    refuse_if (match shared_tools records with [] => true | _ => false end) NoToolVersions;
    match position_from (fun t => blank t.1) 0 (shared_tools records) with
    | Some (index, _) => Some (BlankToolPath index)
    | None => None
    end;
    match position_from (fun t => blank t.2) 0 (shared_tools records) with
    | Some (_, (path, _)) => Some (BlankToolVersion path)
    | None => None
    end ].

(** The protocol constants of one record. *)
Definition constant_checks (r : RunRecord) : Check :=
  let constants := for_profile Recorded in
  let bad field got expected := refuse_if (negb (got =? expected)) (ProtocolViolation (BadConstant (file_name r) (lit field) got expected)) in
  first_refusal
    [ bad "warmup_secs"%string (r_warmup_secs r) (warmup_secs constants);
      bad "window_secs"%string (r_window_secs r) (window_secs constants);
      bad "drain_grace_secs"%string (r_drain_grace_secs r) (drain_grace_secs constants);
      bad "connections"%string (r_connections r) CONNECTIONS;
      bad "payload_bytes"%string (r_payload_bytes r) (Z.of_nat PAYLOAD_BYTES);
      bad "qos1_window"%string (r_qos1_window r) QOS1_WINDOW ].

Definition cpu_pair (r : RunRecord) : str * str := (cpus_server (r_cpu_sets r), cpus_generator (r_cpu_sets r)).

Definition protocol_checks (records : list RunRecord) : list Check :=
  [ each constant_checks records;
    refuse_if (mixed cpu_pair records) (ProtocolViolation (MultipleCpuSets (remove_dups (cpu_pair <$> records))));
    match records with r :: _ => refuse_if (blank (cpu_pair r).1) (BlankCpuSet (lit "server")) | [] => None end;
    match records with r :: _ => refuse_if (blank (cpu_pair r).2) (BlankCpuSet (lit "generator")) | [] => None end ].

Definition outside_check (expected : list ConfigKey) (records : list RunRecord) : Check :=
  each (fun r => refuse_if (negb (bool_decide (key r ∈ expected))) (ProtocolViolation (OutsideMatrix (file_name r) (config_label (key r))))) records.

(** ** Outcomes *)

Abbreviation Runs := (gmap ConfigKey (list RunRecord)).

Definition group_by_key (records : list RunRecord) : Runs :=
  foldl (fun m r => <[key r := default [] (m !! key r) ++ [r]]> m) ∅ records.

(** The runs of the highest attempt; all of them when there are none. *)
Definition highest_attempt (runs : list RunRecord) : Z := foldr Z.max 0 (r_attempt <$> runs).
Definition attempt_runs (runs : list RunRecord) : list RunRecord :=
  match List.filter (fun r => r_attempt r =? highest_attempt runs) runs with [] => runs | l => l end.

Record Published := { passing : Runs; not_sustained : gmap ConfigKey (list CapacityRow); failed_names : list str }.

Definition pass (p : Published) (k : ConfigKey) (runs : list RunRecord) : Published :=
  {| passing := <[k := runs]> (passing p); not_sustained := not_sustained p; failed_names := failed_names p |}.
Definition fail_config (p : Published) (k : ConfigKey) : Published :=
  {| passing := passing p; not_sustained := not_sustained p; failed_names := failed_names p ++ [config_label k] |}.

Definition note_not_sustained (p : Published) (k : ConfigKey) (rows : list CapacityRow) : Published :=
  {| passing := passing p; not_sustained := <[k := rows]> (not_sustained p); failed_names := failed_names p |}.

(** What a configuration comes to: its figures are published, its capacity rows
    are, or neither. *)
Inductive KeyOutcome := KeyPasses (runs : list RunRecord) | KeyNotSustained (rows : list CapacityRow) | KeyFails.

(** [None] is a panic. *)
Definition key_outcome (smoke : bool) (constants : ProtocolConstants) (by_key : Runs) (k : ConfigKey) : option KeyOutcome :=
  match by_key !! k with
  | None => Some KeyFails
  | Some runs =>
      if negb smoke && is_open_loop (k_kind k) then
        match open_loop_outcome runs constants with
        | None => None
        | Some Passed => Some (KeyPasses (attempt_runs runs))
        | Some (NotSustained rows) => Some (KeyNotSustained rows)
        | Some Pending | Some (Exhausted _) => Some KeyFails
        end
      else match config_passes (attempt_runs runs) (repetitions constants) (enforce_spread constants) with
      | None => None
      | Some true => Some (KeyPasses (attempt_runs runs))
      | Some false => Some KeyFails
      end
  end.

(** One round of the completeness loop; a smoke document keeps no names. *)
Definition publish_config (smoke : bool) (constants : ProtocolConstants) (by_key : Runs) (p : Published) (k : ConfigKey) : option Published :=
  match key_outcome smoke constants by_key k with
  | None => None
  | Some (KeyPasses runs) => Some (pass p k runs)
  | Some (KeyNotSustained rows) => Some (note_not_sustained p k rows)
  | Some KeyFails => Some (if smoke then p else fail_config p k)
  end.

Fixpoint publish_all (smoke : bool) (constants : ProtocolConstants) (by_key : Runs) (p : Published) (keys : list ConfigKey) : option Published :=
  match keys with
  | [] => Some p
  | k :: keys => match publish_config smoke constants by_key p k with Some p => publish_all smoke constants by_key p keys | None => None end
  end.

Definition nothing_published : Published := {| passing := ∅; not_sustained := ∅; failed_names := [] |}.

(** The records behind the published [syscalls/msg] cells. *)
Definition published_counted (by_key : Runs) (p : Published) (expected : list ConfigKey) : list RunRecord :=
  List.filter (fun k => bool_decide (k_kind k = KCounted)) expected ≫= (fun k =>
    default [] (passing p !! k) ++ (if bool_decide (is_Some (not_sustained p !! k)) then default [] (by_key !! k) else [])).

(** A [BTreeSet] of method names. *)
Definition published_syscall_methods (counted : list RunRecord) : list str :=
  let used m := existsb (fun r => bool_decide (y_method (r_syscalls r) = m)) counted in
  (if used NoMethod then [lit "none"] else []) ++ (if used Perf then [lit "perf"] else []) ++ (if used Strace then [lit "strace"] else []).

Definition counter_on_uncounted_row (record : RunRecord) : option str :=
  let s := r_syscalls record in
  if bool_decide (is_Some (y_count s)) || bool_decide (is_Some (y_per_msg s)) || bool_decide (is_Some (y_raw s))
     || bool_decide (is_Some (y_enabled_ns s)) || bool_decide (is_Some (y_disabled_ns s))
     || bool_decide (is_Some (y_exit s)) || bool_decide (is_Some (y_diagnostics s))
  then Some (lit "counter evidence")
  else if r_valid record && negb (bool_decide (y_method s = NoMethod)) then Some (lit "counter method")
  else None.

(** The counter evidence of one configuration's records. *)
Definition counter_check (by_key : Runs) (k : ConfigKey) : Check :=
  match by_key !! k with
  | None => None
  | Some runs =>
      if bool_decide (k_kind k = KCounted) then
        each (fun r => refuse_if (bool_decide (y_method (r_syscalls r) = NoMethod))
                         (ProtocolViolation (WithoutCounter (config_label k) (file_name r)))) runs
      else
        each (fun r => match counter_on_uncounted_row r with
                       | Some reason => Some (ProtocolViolation (CounterOnUncounted (config_label k) reason (file_name r)))
                       | None => None
                       end) runs
  end.

Definition counter_checks (by_key : Runs) (p : Published) (expected : list ConfigKey) : list Check :=
  (counter_check by_key <$> expected)
  ++ [let methods := published_syscall_methods (published_counted by_key p expected) in
      refuse_if (1 <? length methods)%nat (ProtocolViolation (MixedMethods methods))].

(** ** Figures *)

Definition n_a : str := lit "n/a".
Definition f64_hundred : f64 := f64_of_Z 100.
Definition or_zero (x : option f64) : f64 := default (f64_of_Z 0) x.

(** Two figures of the runs of a configuration: the median of its metric and
    the spread in per cent. *)
Definition metric_cells (runs : list RunRecord) : option (str * str) :=
  let metrics := omap metric runs in
  match median metrics, spread metrics with
  | Some m, Some s => Some (f64_fixed 0 (or_zero m), f64_fixed 1 (f64_mul (or_zero s) f64_hundred) ++ lit " %")
  | _, _ => None
  end.

Definition cpu_value (server : bool) (r : RunRecord) : option f64 :=
  match r_cpu r with
  | None => None
  | Some cpu =>
      match cpu_count (if server then cpus_server (r_cpu_sets r) else cpus_generator (r_cpu_sets r)) with
      | None => None
      | Some cpus => cpu_percent (if server then server_ticks cpu else generator_ticks cpu) (clk_tck cpu) (sampled_ns cpu) cpus
      end
  end.

Definition median_cpu_percent (runs : list RunRecord) (server : bool) : option str :=
  match median (omap (cpu_value server) runs) with
  | None => None
  | Some (Some m) => Some (f64_fixed 1 m)
  | Some None => Some n_a
  end.

(** The median of [u64] values, the lower midpoint of an even number. *)
Definition median_u64 (values : list Z) : option Z :=
  let sorted := sort_by Z.leb values in
  let n := length values in
  if Nat.odd n then sorted !! Nat.div2 n
  else match sorted !! (Nat.div2 n - 1)%nat, sorted !! Nat.div2 n with
       | Some a, Some b => Some ((a + b) / 2)
       | _, _ => None
       end.

Definition latency_p99_us (passing : Runs) (key : ConfigKey) : str :=
  match passing !! key with
  | None => FAILED
  | Some runs =>
      match median_u64 (omap (fun r => p99 <$> r_latency_ns r) runs) with
      | None => n_a
      | Some median_ns => f64_fixed 1 (f64_div (f64_of_Z median_ns) (f64_of_Z 1000))
      end
  end.

Definition syscalls_per_msg (passing : Runs) (key : ConfigKey) (any_counted : bool) : option str :=
  if negb any_counted then Some n_a
  else match passing !! key with
  | None => Some FAILED
  | Some runs =>
      match omap (fun r => y_per_msg (r_syscalls r)) runs with
      | [] => Some n_a
      | values => match median values with Some m => Some (f64_fixed 2 (or_zero m)) | None => None end
      end
  end.

Definition driver_label (runs : list RunRecord) (server : ServerKind) (workers : Z) : str :=
  if negb (bool_decide (server = Uring)) then n_a
  else match runs with
  | [] => n_a
  | _ =>
      if forallb (fun r => match r_driver r with
                           | Some d => (io_uring_fds d =? workers) && (eventpoll_fds d =? 0)
                           | None => false
                           end) runs
      then lit "ok" else lit "failed"
  end.

Definition not_sustained_cell (rate : Z) (rows : list CapacityRow) : str :=
  lit "not sustained at " ++ dec rate ++ lit " msgs/s: " ++ join (lit ", ") (label <$> rows).

(** [| a | b | .. |]. *)
Definition row (cells : list str) : str := lit "| " ++ join (lit " | ") cells ++ lit " |".

(** The throughput cells of a row: msgs/s, spread, both CPU shares and the
    driver proof stand or fall together. *)
Definition throughput_cells (p : Published) (thr_key : ConfigKey) (server : ServerKind) (workers : Z) : option (list str * str) :=
  match passing p !! thr_key with
  | None => Some ([FAILED; FAILED; FAILED; FAILED], FAILED)
  | Some runs =>
      match metric_cells runs, median_cpu_percent runs true, median_cpu_percent runs false with
      | Some (msgs, spread), Some server_cpu, Some gen_cpu =>
          Some ([msgs; spread; server_cpu; gen_cpu], driver_label runs server workers)
      | _, _, _ => None
      end
  end.

Definition results_row (p : Published) (server : ServerKind) (workers qos : Z) (rates : DeclaredRates) (any_counted : bool) : option str :=
  let config kind rate := {| k_server := server; k_workers := workers; k_qos := Some qos; k_kind := kind; k_offered_rate := rate |} in
  let lat_lower := config KLatency (Some (lower rates)) in
  let lat_higher := config KLatency (Some (higher rates)) in
  let counted := config KCounted (Some (higher rates)) in
  let latency k rate := match not_sustained p !! k with Some rows => not_sustained_cell rate rows | None => latency_p99_us (passing p) k end in
  let sys := match not_sustained p !! counted with
             | Some rows => Some (not_sustained_cell (higher rates) rows)
             | None => syscalls_per_msg (passing p) counted any_counted
             end in
  let open_loop := if bool_decide (is_Some (passing p !! lat_higher)) then dec (higher rates)
                   else if bool_decide (is_Some (passing p !! lat_lower)) then dec (lower rates)
                   else lit "none" in
  let name := if bool_decide (server = Mosquitto) then MOSQUITTO_RESULTS_LABEL else server_label server in
  match throughput_cells p (config KThroughput None) server workers, sys with
  | Some (throughput, driver), Some sys =>
      Some (row (name :: throughput ++ [latency lat_lower (lower rates); latency lat_higher (higher rates); open_loop; sys; driver]))
  | _, _ => None
  end.

Definition connections_row (p : Published) (server : ServerKind) (workers : Z) : option str :=
  match passing p !! connections_config workers server with
  | None => Some (row [server_label server; FAILED; FAILED])
  | Some runs =>
      match metric_cells runs with
      | Some (m, s) => Some (row [server_label server; m; s])
      | None => None
      end
  end.

(** ** The document *)

Definition dash : str := [8212].
Definition micro : str := [181].
Definition at_least : str := [8805].

Definition syscalls_method_label (counted : list RunRecord) : str :=
  match published_syscall_methods counted with
  | [] => n_a
  | methods =>
      let label := join (lit ", ") methods in
      if bool_decide (lit "strace" ∈ methods) then
        label ++ lit " (ptrace slows each syscall, which raises completions per `io_uring_enter` and flatters io_uring)"
      else label
  end.

Definition head_lines (smoke : bool) : list str :=
  [lit "# Benchmarks"; []; lit "> A generated file produced by `bench doc`. Do not edit by hand."; []]
  ++ (if smoke then [lit "> **SMOKE " ++ dash ++ lit " not publishable.**"; []] else []).

Definition environment_lines (sample : RunRecord) (method_label : str) : list str :=
  let env := r_env sample in
  [lit "## Environment"; []; lit "| Field | Value |"; lit "|---|---|";
   lit "| Host | " ++ cell (host_name env) ++ lit " |";
   lit "| CPU model | " ++ cell (cpu_model env) ++ lit " |";
   lit "| Kernel | " ++ cell (kernel env)
     ++ lit " (WSL2 under the Hyper-V scheduler; hybrid P/E cores are not exposed by WSL) |";
   lit "| CPU sets | server `" ++ cell (cpus_server (r_cpu_sets sample)) ++ lit "`, generator `"
     ++ cell (cpus_generator (r_cpu_sets sample)) ++ lit "` |";
   lit "| Commit | " ++ cell (git_sha env) ++ lit " |";
   lit "| Build | " ++ (if bool_decide (r_build sample = Release) then lit "release" else lit "debug") ++ lit " |";
   lit "| Syscall method | " ++ method_label ++ lit " |"]
  ++ ((fun t => lit "| Tool `" ++ cell t.1 ++ lit "` | " ++ cell t.2 ++ lit " |") <$> tools env) ++ [[]].

Definition rate_list (profile : Profile) : list str :=
  RECORDED_WORKERS ≫= (fun w => (fun q =>
    let r := row_rates profile w q in
    dec w ++ lit " worker(s) QoS " ++ dec q ++ lit " at " ++ dec (lower r) ++ lit " and " ++ dec (higher r) ++ lit " msgs/s") <$> RECORDED_QOS).

Definition method_lines (profile : Profile) (any_counted : bool) : list str :=
  let constants := for_profile profile in
  [lit "## Method"; [];
   lit "Constants: warm-up " ++ dec (warmup_secs constants) ++ lit " s, window " ++ dec (window_secs constants) ++ lit " s, "
     ++ dec (repetitions constants) ++ lit " repetitions, " ++ dec CONNECTIONS ++ lit " connections, "
     ++ dec (Z.of_nat PAYLOAD_BYTES) ++ lit "-byte payloads, qos1_window " ++ dec QOS1_WINDOW
     ++ lit ", MQTT 3.1.1. Closed-loop throughput measures msgs/s at the callback; open-loop latency paces sends at each row group's two declared rates, identical for every server in the row group: "
     ++ join (lit "; ") (rate_list profile)
     ++ lit ". `bench/CALIBRATION.md` records how the rates were chosen. Mosquitto endpoint = subscriber receipt."; [];
   (if any_counted then
      lit "Both latency columns come from uncounted runs; `syscalls/msg` comes from " ++ dec (repetitions constants)
      ++ lit " separate counted repetitions at each row group's higher declared rate, which qualify on `syscalls/msg` spread. The counted runs' p99 stays in the raw JSON and is not published."
    else
      lit "Both latency columns come from uncounted runs; `syscalls/msg` is `n/a` because this record set holds no counted run."); []].

Definition results_head (rates : DeclaredRates) : str :=
  lit "| Server | msgs/s | spread | server CPU % | generator CPU % | p99 @" ++ dec (lower rates) ++ lit " msgs/s (" ++ micro
  ++ lit "s) | p99 @" ++ dec (higher rates) ++ lit " msgs/s (" ++ micro ++ lit "s) | open-loop " ++ at_least
  ++ lit " (msgs/s) | syscalls/msg @" ++ dec (higher rates) ++ lit " msgs/s | driver proof |".

(** The rows of a list of servers; [None] when one of them panics. *)
Definition all_rows (f : ServerKind -> option str) (servers : list ServerKind) : option (list str) := mapM f servers.

Definition results_lines (profile : Profile) (p : Published) (any_counted : bool) (w q : Z) : option (list str) :=
  let rates := row_rates profile w q in
  match all_rows (fun s => results_row p s w q rates any_counted) (servers_for w RECORDED_SERVERS) with
  | None => None
  | Some rows =>
      Some ([lit "## Results " ++ dash ++ lit " " ++ dec w ++ lit " worker(s), QoS " ++ dec q; []; results_head rates;
             lit "|---|---|---|---|---|---|---|---|---|---|"] ++ rows ++ [[]])
  end.

Definition connections_lines (p : Published) (w : Z) : option (list str) :=
  match all_rows (fun s => connections_row p s w) (servers_for w RECORDED_SERVERS) with
  | None => None
  | Some rows =>
      Some ([lit "## Connections per second " ++ dash ++ lit " " ++ dec w ++ lit " worker(s)"; []; lit "| Server | conn/s | spread |";
             lit "|---|---|---|"] ++ rows ++ [[]])
  end.

Definition worker_lines (profile : Profile) (p : Published) (any_counted : bool) (w : Z) : option (list str) :=
  match mapM (results_lines profile p any_counted w) RECORDED_QOS, connections_lines p w with
  | Some results, Some connections => Some (mjoin results ++ connections)
  | _, _ => None
  end.

Definition sign_off_lines : list str :=
  [lit "## Sign-off"; [];
   lit "- [ ] Driver proof: every uring run shows io_uring fds = workers and eventpoll fds = 0";
   lit "- [ ] Spread: every configuration with a published figure within 10 % over 5 interleaved repetitions; a not-sustained cell publishes no figure";
   lit "- [ ] Reconciliation: every published repetition reconciled (unresolved 0, duplicates 0, dropped 0 in throughput runs, open-loop backlog growth within "
     ++ dec (STEADY_STATE_GROWTH_LIMIT_NS / NS_PER_MS) ++ lit " ms); failed attempts and not-sustained records stay in the raw JSON";
   lit "- [ ] Environment: host, kernel, CPU sets, AC power and idle state match this disclosure";
   lit "- [ ] Saturation: in every throughput row the server CPU set, not the generator, is the saturated side"].

Definition document (smoke : bool) (records : list RunRecord) (sample : RunRecord) (by_key : Runs) (p : Published)
    (expected : list ConfigKey) : option (list str) :=
  let profile := if smoke then Smoke else Recorded in
  let any_counted := existsb (fun r => bool_decide (r_kind r = KCounted)) records in
  match mapM (worker_lines profile p any_counted) RECORDED_WORKERS with
  | None => None
  | Some workers =>
      Some (head_lines smoke
            ++ environment_lines sample (syscalls_method_label (published_counted by_key p expected))
            ++ method_lines profile any_counted ++ mjoin workers ++ sign_off_lines)
  end.

(** [writeln!] of every line. *)
Definition written (lines : list str) : str := lines ≫= (fun l => l ++ [10]).

(** The refusals before the outcomes, of a recorded document. *)
Definition record_checks (records : list RunRecord) (expected : list ConfigKey) : Check :=
  first_refusal (environment_checks records ++ protocol_checks records ++ [outside_check expected records]).

(** [Some (Ok doc)], a refusal, or [None] for a panic. *)
Definition render (records : list RunRecord) (smoke : bool) : option (result str DocError) :=
  match records with
  | [] => Some (Err NoRecords)
  | sample :: _ =>
      match schema_check records with
      | Some e => Some (Err e)
      | None =>
      match recompute_check records with
      | None => None
      | Some (Some e) => Some (Err e)
      | Some None =>
          let profile := if smoke then Smoke else Recorded in
          let expected := expected_configs profile in
          match (if smoke then None else record_checks records expected) with
          | Some e => Some (Err e)
          | None =>
              let by_key := group_by_key records in
              match publish_all smoke (for_profile profile) by_key nothing_published expected with
              | None => None
              | Some p =>
                  match (if smoke then None
                         else match failed_names p with
                              | [] => first_refusal (counter_checks by_key p expected)
                              | names => Some (FailedConfigurations names)
                              end) with
                  | Some e => Some (Err e)
                  | None =>
                      match document smoke records sample by_key p expected with
                      | Some lines => Some (Ok (written lines))
                      | None => None
                      end
                  end
              end
          end
      end end
  end.
