(* ===== verification/DocSpec.v ===== *)
(** * What a published document promises

    A recorded document is rendered exactly for a publishable set of records,
    and rendering does not panic on records whose integers fit their fields. *)

From S2P Require Import Prelude Text F64 Wire Recorder Generator Pacer RunRecord Analysis Validity CpuSet Sorting Verdict Matrix Runner Doc.
From Stdlib Require Import Floats.SpecFloat.

(** ** Checks *)

Lemma refuse_if_none b e : refuse_if b e = None <-> b = false.
Proof. by destruct b. Qed.

Lemma head_omap_none {A} (f : A -> Check) l : head (omap f l) = None <-> Forall (fun x => f x = None) l.
Proof.
  induction l as [|x l IH]; simpl; [split; [constructor|done]|]. rewrite Forall_cons. destruct (f x); simpl; [|naive_solver].
  split; [done|]. by intros [? _].
Qed.

Lemma each_none f l : each f l = None <-> Forall (fun r => f r = None) l.
Proof. apply head_omap_none. Qed.

Lemma first_refusal_none l : first_refusal l = None <-> Forall (fun c => c = None) l.
Proof. unfold first_refusal. rewrite head_omap_none. done. Qed.

Lemma existsb_all_false {A} (p : A -> bool) l : existsb p l = false <-> Forall (fun x => p x = false) l.
Proof. induction l; simpl; [split; [constructor|done]|]. by rewrite orb_false_iff, Forall_cons, IHl. Qed.

Lemma mixed_false {A} `{EqDecision A} (f : RunRecord -> A) records :
  mixed f records = false <-> forall r r', r ∈ records -> r' ∈ records -> f r = f r'.
Proof.
  unfold mixed. rewrite Nat.ltb_ge. split.
  - intros Hl r r' Hr Hr'. apply (list_elem_of_fmap_2 f), elem_of_remove_dups in Hr, Hr'.
    destruct (remove_dups (f <$> records)) as [|x [|y l]]; [by apply not_elem_of_nil in Hr| |simpl in Hl; lia].
    apply list_elem_of_singleton in Hr, Hr'. congruence.
  - intros Hall. pose proof (NoDup_remove_dups (f <$> records)) as Hnd.
    assert (Hin : forall x, x ∈ remove_dups (f <$> records) -> exists r, x = f r /\ r ∈ records).
    { intros x. rewrite elem_of_remove_dups. apply list_elem_of_fmap_1. }
    destruct (remove_dups (f <$> records)) as [|x [|y l]]; simpl; [lia|lia|].
    destruct (Hin x) as (r & -> & Hr); [by left|]. destruct (Hin y) as (r' & -> & Hr'); [right; by left|].
    apply NoDup_cons in Hnd as [Hn _]. destruct Hn. rewrite (Hall r r') by done. by left.
Qed.

Lemma position_none {A} (p : A -> bool) l : forall i, position_from p i l = None <-> Forall (fun x => p x = false) l.
Proof.
  induction l as [|x l IH]; intros i; simpl; [split; [constructor|done]|]. rewrite Forall_cons. destruct (p x); [|naive_solver].
  split; [done|]. by intros [? _].
Qed.

Lemma recompute_check_ok records : recompute_check records = Some None <-> Forall (fun r => recompute r = Some []) records.
Proof.
  induction records as [|r records IH]; simpl; [split; [constructor|done]|]. rewrite Forall_cons.
  destruct (recompute r) as [[|m l]|]; [naive_solver| |]; (split; [done|]; by intros [? _]).
Qed.

(** ** Grouping *)

Definition runs_of (records : list RunRecord) (k : ConfigKey) : list RunRecord := List.filter (fun r => bool_decide (key r = k)) records.

Lemma group_by_key_lookup records k :
  group_by_key records !! k = match runs_of records k with [] => None | runs => Some runs end.
Proof.
  unfold group_by_key. cut (forall m : Runs, foldl (fun m r => <[key r := default [] (m !! key r) ++ [r]]> m) m records !! k =
    match m !! k, runs_of records k with
    | Some l, runs => Some (l ++ runs)
    | None, [] => None
    | None, runs => Some runs
    end).
  { intros H. rewrite H, lookup_empty. by destruct (runs_of records k). }
  induction records as [|r records IH]; intros m; simpl; [destruct (m !! k); by rewrite ?app_nil_r|].
  rewrite IH. case_bool_decide as E.
  - subst k. rewrite lookup_insert_eq. destruct (m !! key r) as [l|]; simpl; by rewrite <- ?app_assoc.
  - by rewrite lookup_insert_ne by done.
Qed.

(** ** What the checks come to

    The checks of [render], in the code's own terms; [publishable] below states
    what they are for. *)

Definition recorded : ProtocolConstants := for_profile Recorded.

(** A configuration's published outcome: what its runs came to. *)
Definition kept_up (runs : list RunRecord) (k : ConfigKey) : Prop :=
  if is_open_loop (k_kind k) then open_loop_outcome runs recorded = Some Passed
  else config_passes (attempt_runs runs) (repetitions recorded) (enforce_spread recorded) = Some true.
Definition refused_capacity (runs : list RunRecord) (k : ConfigKey) : Prop :=
  is_open_loop (k_kind k) = true /\ exists rows, open_loop_outcome runs recorded = Some (NotSustained rows).

(** The records behind a published [syscalls/msg] cell. *)
Definition behind_cell (records : list RunRecord) (r : RunRecord) : Prop :=
  r_kind r = KCounted /\ key r ∈ expected_configs Recorded /\
  let runs := runs_of records (key r) in
  (kept_up runs (key r) /\ r ∈ attempt_runs runs) \/ (refused_capacity runs (key r) /\ r ∈ runs).

(** What a record must say of the build and the protocol it was made under. *)
Record made_under_protocol (r : RunRecord) : Prop := {
  mp_schema : r_schema r = SCHEMA_VERSION;
  mp_consistent : recompute r = Some [];
  mp_profile : r_profile r = Recorded;
  mp_build : r_build r = Release;
  mp_clean : git_dirty (r_env r) = false;
  mp_warmup : r_warmup_secs r = 10;
  mp_window : r_window_secs r = 60;
  mp_grace : r_drain_grace_secs r = 5;
  mp_connections : r_connections r = 100;
  mp_payload : r_payload_bytes r = 64;
  mp_qos1_window : r_qos1_window r = 32;
  mp_matrix : key r ∈ expected_configs Recorded
}.

(** A counted run carries a counter, and no other run does. *)
Definition counter_as_planned (r : RunRecord) : Prop :=
  if bool_decide (r_kind r = KCounted) then y_method (r_syscalls r) <> NoMethod else counter_on_uncounted_row r = None.

(** What a document discloses of the host. *)
Record shown (r : RunRecord) : Prop := {
  di_sha : blank (git_sha (r_env r)) = false;
  di_kernel : blank (kernel (r_env r)) = false;
  di_host : blank (host_name (r_env r)) = false;
  di_model : blank (cpu_model (r_env r)) = false;
  di_tools : tools (r_env r) <> [];
  di_each_tool : Forall (fun t => blank t.1 = false /\ blank t.2 = false) (tools (r_env r));
  di_server : blank (cpus_server (r_cpu_sets r)) = false;
  di_generator : blank (cpus_generator (r_cpu_sets r)) = false
}.

Definition same_environment (r r' : RunRecord) : Prop :=
  git_sha (r_env r) = git_sha (r_env r') /\ kernel (r_env r) = kernel (r_env r') /\ host_name (r_env r) = host_name (r_env r') /\
  cpu_model (r_env r) = cpu_model (r_env r') /\ tools (r_env r) = tools (r_env r') /\ cpu_pair r = cpu_pair r'.

Record checked (records : list RunRecord) : Prop := {
  pb_some : records <> [];
  pb_protocol : Forall made_under_protocol records;
  pb_counters : Forall counter_as_planned records;
  pb_disclosed : Forall shown records;
  pb_one_host : forall r r', r ∈ records -> r' ∈ records -> same_environment r r';
  pb_complete : Forall (fun k => let runs := runs_of records k in runs <> [] /\ (kept_up runs k \/ refused_capacity runs k))
                  (expected_configs Recorded);
  pb_one_method : forall r r', behind_cell records r -> behind_cell records r' ->
                  y_method (r_syscalls r) = y_method (r_syscalls r')
}.

(** ** The completeness loop *)

Section Publish.
Context (constants : ProtocolConstants) (by_key : Runs).
Abbreviation outcome := (key_outcome false constants by_key).

(** What is published is what the configurations came to. *)
Definition agrees (p : Published) : Prop :=
  (forall k runs, passing p !! k = Some runs -> outcome k = Some (KeyPasses runs)) /\
  (forall k rows, not_sustained p !! k = Some rows -> outcome k = Some (KeyNotSustained rows)).
Definition holds_key (p : Published) (k : ConfigKey) : Prop :=
  (exists runs, passing p !! k = Some runs) \/ (exists rows, not_sustained p !! k = Some rows) \/ failed_names p <> [].

Lemma publish_config_ok p k p' : agrees p -> publish_config false constants by_key p k = Some p' ->
  agrees p' /\ holds_key p' k /\ (forall k', holds_key p k' -> holds_key p' k') /\
  (failed_names p' = [] <-> failed_names p = [] /\ outcome k <> Some KeyFails).
Proof.
  intros [Hp Hn]. unfold publish_config. destruct (outcome k) as [[runs|rows|]|] eqn:E; intros [= <-].
  - split_and!; [split; [|done]|left; eexists; apply lookup_insert_eq| |naive_solver]; simpl.
    + intros k' runs'. destruct (decide (k' = k)) as [->|]; [rewrite lookup_insert_eq; by intros [= <-]|].
      rewrite lookup_insert_ne by done. apply Hp.
    + intros k' [[runs' H]|H]; [|by right]. left. destruct (decide (k' = k)) as [->|]; simpl; [eexists; apply lookup_insert_eq|].
      rewrite lookup_insert_ne by done. by exists runs'.
  - split_and!; [split; [done|]|right; left; eexists; apply lookup_insert_eq| |naive_solver]; simpl.
    + intros k' rows'. destruct (decide (k' = k)) as [->|]; [rewrite lookup_insert_eq; by intros [= <-]|].
      rewrite lookup_insert_ne by done. apply Hn.
    + intros k' [H|[[rows' H]|H]]; [by left| |by right; right]. right. left.
      destruct (decide (k' = k)) as [->|]; simpl; [eexists; apply lookup_insert_eq|].
      rewrite lookup_insert_ne by done. by exists rows'.
  - assert (Hne : failed_names p ++ [config_label k] <> []) by (by destruct (failed_names p)).
    split_and!; [done|right; by right| |simpl; naive_solver].
    intros k' [H|[H|H]]; [by left|right; by left|]. right. right. done.
Qed.

Lemma publish_all_ok keys : forall p p', agrees p -> publish_all false constants by_key p keys = Some p' ->
  agrees p' /\ (forall k, holds_key p k -> holds_key p' k) /\ Forall (holds_key p') keys /\
  (failed_names p' = [] <-> failed_names p = [] /\ Forall (fun k => outcome k <> Some KeyFails) keys).
Proof.
  induction keys as [|k keys IH]; intros p p' Ha; cbn [publish_all].
  - intros [= <-]. split_and!; [done|done|constructor|]. split; [by intros ?|by intros [? _]].
  - destruct (publish_config false constants by_key p k) as [p1|] eqn:E; [|done]. intros Hr.
    destruct (publish_config_ok _ _ _ Ha E) as (Ha1 & Hk & Hm & Hf). destruct (IH _ _ Ha1 Hr) as (Ha' & Hm' & Hall & Hf').
    split_and!; [done|auto|constructor; auto|]. rewrite Hf', Hf, Forall_cons. naive_solver.
Qed.
End Publish.

(** ** The refusals *)

Lemma environment_checks_none r records : let all := r :: records in
  Forall (fun c => c = None) (environment_checks all) <->
  Forall (fun r => r_profile r = Recorded /\ r_build r = Release /\ git_dirty (r_env r) = false) all /\
  (forall a b, a ∈ all -> b ∈ all -> git_sha (r_env a) = git_sha (r_env b) /\ kernel (r_env a) = kernel (r_env b) /\
     host_name (r_env a) = host_name (r_env b) /\ cpu_model (r_env a) = cpu_model (r_env b) /\ tools (r_env a) = tools (r_env b)) /\
  Forall (fun r => blank (git_sha (r_env r)) = false /\ blank (kernel (r_env r)) = false /\ blank (host_name (r_env r)) = false /\
     blank (cpu_model (r_env r)) = false) all /\
  tools (r_env r) <> [] /\ Forall (fun t => blank t.1 = false /\ blank t.2 = false) (tools (r_env r)).
Proof.
  intros all. unfold environment_checks. rewrite !Forall_cons, Forall_nil, !refuse_if_none, each_none, !mixed_false. unfold some_blank.
  rewrite !existsb_all_false. change (shared_tools all) with (tools (r_env r)).
  assert (Hpath : match position_from (fun t => blank t.1) 0 (tools (r_env r)) with Some (i, _) => Some (BlankToolPath i) | None => None end = None <->
    Forall (fun t => blank t.1 = false) (tools (r_env r))).
  { rewrite <- (position_none _ _ 0). by destruct (position_from _ _ _) as [[]|]. }
  assert (Hver : match position_from (fun t => blank t.2) 0 (tools (r_env r)) with Some (_, (path, _)) => Some (BlankToolVersion path) | None => None end = None <->
    Forall (fun t => blank t.2 = false) (tools (r_env r))).
  { rewrite <- (position_none _ _ 0). by destruct (position_from (fun t => blank t.2) 0 (tools (r_env r))) as [[? []]|]. }
  rewrite Hpath, Hver. assert (Htools : match tools (r_env r) with [] => true | _ => false end = false <-> tools (r_env r) <> []) by (by destruct (tools (r_env r))).
  rewrite Htools.
  rewrite !Forall_and. setoid_rewrite refuse_if_none.
  assert (Hprof : Forall (fun r => bool_decide (r_profile r = Smoke) = false) all <-> Forall (fun r => r_profile r = Recorded) all).
  { apply Forall_iff. intros x. rewrite bool_decide_eq_false. destruct (r_profile x); split; congruence. }
  assert (Hbuild : Forall (fun r => bool_decide (r_build r = DebugBuild) = false) all <-> Forall (fun r => r_build r = Release) all).
  { apply Forall_iff. intros x. rewrite bool_decide_eq_false. destruct (r_build x); split; congruence. }
  rewrite Hprof, Hbuild. clear. naive_solver.
Qed.

Lemma constant_checks_none r : constant_checks r = None <->
  r_warmup_secs r = 10 /\ r_window_secs r = 60 /\ r_drain_grace_secs r = 5 /\ r_connections r = 100 /\ r_payload_bytes r = 64 /\
  r_qos1_window r = 32.
Proof.
  unfold constant_checks. rewrite first_refusal_none, !Forall_cons, Forall_nil, !refuse_if_none, !negb_false_iff, !Z.eqb_eq.
  change (Z.of_nat PAYLOAD_BYTES) with 64. change CONNECTIONS with 100. change QOS1_WINDOW with 32.
  cbn [warmup_secs window_secs drain_grace_secs for_profile]. tauto.
Qed.

Lemma protocol_checks_none r records : let all := r :: records in
  Forall (fun c => c = None) (protocol_checks all) <->
  Forall (fun r => constant_checks r = None) all /\ (forall a b, a ∈ all -> b ∈ all -> cpu_pair a = cpu_pair b) /\
  blank (cpus_server (r_cpu_sets r)) = false /\ blank (cpus_generator (r_cpu_sets r)) = false.
Proof.
  intros all. unfold protocol_checks, all. cbv beta iota. rewrite !Forall_cons, Forall_nil, !refuse_if_none, each_none, mixed_false, Forall_cons.
  unfold cpu_pair. cbn [fst snd]. tauto.
Qed.

Lemma outside_none expected records : outside_check expected records = None <-> Forall (fun r => key r ∈ expected) records.
Proof.
  unfold outside_check. rewrite each_none. apply Forall_iff. intros r. rewrite refuse_if_none, negb_false_iff.
  apply bool_decide_eq_true.
Qed.

Lemma schema_none records : schema_check records = None <-> Forall (fun r => r_schema r = SCHEMA_VERSION) records.
Proof. unfold schema_check. rewrite each_none. apply Forall_iff. intros r. by rewrite refuse_if_none, negb_false_iff, Z.eqb_eq. Qed.

(** The refusals before the outcomes. *)
Lemma record_checks_none r records : let all := r :: records in
  (schema_check all = None /\ recompute_check all = Some None /\ record_checks all (expected_configs Recorded) = None) <->
  Forall made_under_protocol all /\ Forall shown all /\ (forall a b, a ∈ all -> b ∈ all -> same_environment a b).
Proof.
  intros all. rewrite schema_none, recompute_check_ok. unfold record_checks.
  rewrite first_refusal_none, !Forall_app, Forall_singleton, outside_none.
  unfold all. rewrite environment_checks_none, protocol_checks_none. fold all. rewrite !Forall_forall. split.
  - intros (Hs & Hc & (Hp & He & Hb & Ht & Ht') & (Hk & Hcpu & Hb1 & Hb2) & Hm). split_and!.
    + intros a Ha. destruct (Hp a Ha) as (? & ? & ?). destruct (proj1 (constant_checks_none a) (Hk a Ha)) as (? & ? & ? & ? & ? & ?).
      split; auto.
    + intros a Ha. destruct (Hb a Ha) as (? & ? & ? & ?). assert (Hr : r ∈ all) by left.
      destruct (He a r Ha Hr) as (_ & _ & _ & _ & Et). pose proof (Hcpu a r Ha Hr) as Ec. unfold cpu_pair in Ec. injection Ec as E1 E2.
      split; try done; rewrite ?Et, ?E1, ?E2; try done. by apply Forall_forall.
    + intros a b Ha Hb'. destruct (He a b Ha Hb') as (? & ? & ? & ? & ?). split_and!; auto.
  - intros (Hp & Hd & He). assert (Hr : r ∈ all) by left. split_and!.
    + intros a Ha. by destruct (Hp a Ha).
    + intros a Ha. by destruct (Hp a Ha).
    + intros a Ha. by destruct (Hp a Ha).
    + intros a b Ha Hb. by destruct (He a b Ha Hb) as (? & ? & ? & ? & ? & _).
    + intros a Ha. by destruct (Hd a Ha).
    + by destruct (Hd r Hr).
    + destruct (Hd r Hr). by apply Forall_forall.
    + intros a Ha. apply constant_checks_none. by destruct (Hp a Ha).
    + intros a b Ha Hb. by destruct (He a b Ha Hb) as (_ & _ & _ & _ & _ & ?).
    + by destruct (Hd r Hr).
    + by destruct (Hd r Hr).
    + intros a Ha. by destruct (Hp a Ha).
Qed.

(** ** Outcomes and counters *)

Lemma elem_of_lfilter {A} (f : A -> bool) l x : x ∈ List.filter f l <-> x ∈ l /\ f x = true.
Proof. by rewrite list_elem_of_In, List.filter_In, <- list_elem_of_In. Qed.

Lemma elem_of_runs records k r : r ∈ runs_of records k <-> r ∈ records /\ key r = k.
Proof. unfold runs_of. by rewrite elem_of_lfilter, bool_decide_eq_true. Qed.

Lemma attempt_runs_sub runs r : r ∈ attempt_runs runs -> r ∈ runs.
Proof.
  unfold attempt_runs. set (f := List.filter _ _). assert (Hf : forall x, x ∈ f -> x ∈ runs).
  { intros x. unfold f. rewrite elem_of_lfilter. by intros [? _]. }
  destruct f as [|x l]; [done|]. apply Hf.
Qed.

(** What the loop makes of a configuration. *)
Lemma key_outcome_spec records k : let runs := runs_of records k in
  match key_outcome false recorded (group_by_key records) k with
  | Some (KeyPasses l) => runs <> [] /\ l = attempt_runs runs /\ kept_up runs k
  | Some (KeyNotSustained _) => runs <> [] /\ refused_capacity runs k /\ ~ kept_up runs k
  | Some KeyFails => ~ (runs <> [] /\ (kept_up runs k \/ refused_capacity runs k))
  | None => ~ kept_up runs k /\ ~ refused_capacity runs k
  end.
Proof.
  intros runs. unfold key_outcome, kept_up, refused_capacity. rewrite group_by_key_lookup. fold runs.
  destruct runs as [|r l] eqn:E; [naive_solver|]. simpl negb. rewrite andb_true_l. fold recorded.
  destruct (is_open_loop (k_kind k)).
  - destruct (open_loop_outcome (r :: l) recorded) as [[| |rows|]|]; naive_solver.
  - destruct (config_passes _ _ _) as [[]|]; naive_solver.
Qed.

Lemma counter_check_none records k :
  counter_check (group_by_key records) k = None <->
  Forall (fun r => if bool_decide (k_kind k = KCounted) then y_method (r_syscalls r) <> NoMethod else counter_on_uncounted_row r = None)
    (runs_of records k).
Proof.
  unfold counter_check. rewrite group_by_key_lookup. destruct (runs_of records k) as [|r l]; [split; [constructor|done]|].
  case_bool_decide; rewrite each_none; apply Forall_iff; intros x; [by rewrite refuse_if_none, bool_decide_eq_false|].
  by destruct (counter_on_uncounted_row x).
Qed.

Lemma counters_planned records expected : Forall (fun r => key r ∈ expected) records ->
  Forall (fun c => c = None) (counter_check (group_by_key records) <$> expected) <-> Forall counter_as_planned records.
Proof.
  rewrite Forall_fmap, !Forall_forall. intros Hk. split.
  - intros H r Hr. specialize (H _ (Hk r Hr)). simpl in H. rewrite counter_check_none, Forall_forall in H.
    apply (H r). by apply elem_of_runs.
  - intros H k _. simpl. rewrite counter_check_none, Forall_forall. intros r [Hr <-]%elem_of_runs. exact (H r Hr).
Qed.

Lemma one_method (l : list RunRecord) : (length (published_syscall_methods l) <= 1)%nat <->
  forall r r', r ∈ l -> r' ∈ l -> y_method (r_syscalls r) = y_method (r_syscalls r').
Proof.
  unfold published_syscall_methods.
  assert (Hused : forall m, existsb (fun r => bool_decide (y_method (r_syscalls r) = m)) l = true <-> exists r, r ∈ l /\ y_method (r_syscalls r) = m).
  { intros m. rewrite existsb_exists. setoid_rewrite <- list_elem_of_In. by setoid_rewrite bool_decide_eq_true. }
  assert (Huse : forall r, r ∈ l -> existsb (fun x => bool_decide (y_method (r_syscalls x) = y_method (r_syscalls r))) l = true).
  { intros r Hr. apply Hused. by exists r. }
  split.
  - intros Hl r r' Hr Hr'. apply Huse in Hr, Hr'.
    destruct (y_method (r_syscalls r)), (y_method (r_syscalls r')); try done; rewrite Hr, Hr' in Hl; rewrite !length_app in Hl; simpl in Hl; lia.
  - intros Hall.
    destruct (existsb _ l) eqn:E0 at 1; destruct (existsb (fun r => bool_decide (y_method (r_syscalls r) = Perf)) l) eqn:E1;
      destruct (existsb (fun r => bool_decide (y_method (r_syscalls r) = Strace)) l) eqn:E2; simpl; try lia; exfalso;
      repeat match goal with H : existsb _ _ = true |- _ => apply Hused in H as (? & ? & ?) end;
      repeat match goal with H1 : ?a ∈ l, H2 : ?b ∈ l |- _ => lazymatch goal with H : y_method (r_syscalls a) = y_method (r_syscalls b) |- _ => fail | _ => pose proof (Hall a b H1 H2) end end; congruence.
Qed.

(** The outcomes of a loop that named no failure. *)
Lemma published_counted_spec records p : let expected := expected_configs Recorded in
  agrees recorded (group_by_key records) p -> Forall (holds_key p) expected -> failed_names p = [] ->
  forall r, r ∈ published_counted (group_by_key records) p expected <-> behind_cell records r.
Proof.
  intros expected [Hp Hn] Hall Hf r. unfold published_counted. rewrite list_elem_of_bind. unfold behind_cell. split.
  - intros (k & Hr & Hk). rewrite elem_of_lfilter, bool_decide_eq_true in Hk.
    destruct Hk as [Hk Hkind]. pose proof (key_outcome_spec records k) as Hspec. apply elem_of_app in Hr as [Hr|Hr].
    + destruct (passing p !! k) as [runs|] eqn:E; [|by apply not_elem_of_nil in Hr]. simpl in Hr. rewrite (Hp _ _ E) in Hspec.
      destruct Hspec as (_ & -> & Hs). assert (Ek : key r = k) by (by apply (elem_of_runs records), attempt_runs_sub).
      split; [by rewrite <- Hkind, <- Ek|]. rewrite Ek. split; [done|]. by left.
    + case_bool_decide as E; [|by apply not_elem_of_nil in Hr]. destruct E as [rows E]. rewrite (Hn _ _ E) in Hspec.
      destruct Hspec as (Hne & Hs & _). rewrite group_by_key_lookup in Hr.
      assert (Hr' : r ∈ runs_of records k) by (destruct (runs_of records k); done).
      assert (Ek : key r = k) by (by apply (elem_of_runs records)).
      split; [by rewrite <- Hkind, <- Ek|]. rewrite Ek. split; [done|]. by right.
  - intros (Hkind & Hk & Hr). exists (key r). rewrite elem_of_lfilter, bool_decide_eq_true.
    split; [|split; [done|exact Hkind]]. pose proof (key_outcome_spec records (key r)) as Hspec. rewrite elem_of_app.
    rewrite Forall_forall in Hall. destruct (Hall _ Hk) as [[runs E]|[[rows E]|?]]; [| |done].
    + left. rewrite E. simpl. rewrite (Hp _ _ E) in Hspec. destruct Hspec as (_ & -> & Hs).
      destruct Hr as [[_ Hr]|[[Hopen [rows Hcap]] _]]; [done|]. unfold kept_up in Hs. rewrite Hopen, Hcap in Hs. done.
    + right. rewrite E, bool_decide_eq_true_2 by eauto. rewrite (Hn _ _ E) in Hspec. destruct Hspec as (Hne & Hs & Hns).
      destruct Hr as [[? _]|[_ Hr]]; [done|]. rewrite group_by_key_lookup. destruct (runs_of records (key r)); done.
Qed.

Lemma complete_iff records k : let runs := runs_of records k in
  is_Some (key_outcome false recorded (group_by_key records) k) ->
  key_outcome false recorded (group_by_key records) k <> Some KeyFails <-> runs <> [] /\ (kept_up runs k \/ refused_capacity runs k).
Proof.
  intros runs. pose proof (key_outcome_spec records k) as H. fold runs in H. intros [o E]. rewrite E in *.
  destruct o; naive_solver.
Qed.

Lemma publish_all_some constants by_key keys : forall p p', publish_all false constants by_key p keys = Some p' ->
  Forall (fun k => is_Some (key_outcome false constants by_key k)) keys.
Proof.
  induction keys as [|k keys IH]; intros p p'; cbn [publish_all]; [constructor|].
  destruct (publish_config false constants by_key p k) eqn:E; [|done]. intros H. constructor; [|by eapply IH].
  unfold publish_config in E. by destruct (key_outcome false constants by_key k).
Qed.

(** What the completeness loop and the counter checks decide. *)
Lemma outcomes_spec records p : let expected := expected_configs Recorded in let by_key := group_by_key records in
  Forall made_under_protocol records ->
  publish_all false recorded by_key nothing_published expected = Some p ->
  (failed_names p = [] /\ first_refusal (counter_checks by_key p expected) = None) <->
  Forall counter_as_planned records /\
  Forall (fun k => let runs := runs_of records k in runs <> [] /\ (kept_up runs k \/ refused_capacity runs k)) expected /\
  (forall r r', behind_cell records r -> behind_cell records r' -> y_method (r_syscalls r) = y_method (r_syscalls r')).
Proof.
  intros expected by_key Hm Hp. pose proof (publish_all_some _ _ _ _ _ Hp) as Hsome.
  destruct (publish_all_ok recorded by_key expected nothing_published p) as (Ha & _ & Hh & Hf); [split; intros k x; cbn [passing not_sustained nothing_published]; by rewrite lookup_empty|done|].
  assert (Hfail : failed_names p = [] <->
    Forall (fun k => let runs := runs_of records k in runs <> [] /\ (kept_up runs k \/ refused_capacity runs k)) expected).
  { rewrite Hf, !Forall_forall. rewrite Forall_forall in Hsome. split.
    - intros [_ H] k Hk. apply complete_iff; auto.
    - intros H. split; [done|]. intros k Hk. apply complete_iff; auto. }
  assert (Hkeys : Forall (fun r => key r ∈ expected) records) by (eapply Forall_impl; [exact Hm|]; by intros ? []).
  rewrite Hfail, first_refusal_none. unfold counter_checks. rewrite Forall_app, Forall_singleton, refuse_if_none, Nat.ltb_ge, one_method.
  unfold by_key at 1. rewrite (counters_planned _ _ Hkeys). fold by_key. split.
  - intros (Hc & Hcnt & Hone). split_and!; [done|done|]. rewrite <- Hfail in Hc.
    intros r r' H1 H2. apply Hone; by apply published_counted_spec.
  - intros (Hcnt & Hc & Hone). split_and!; [done|done|]. rewrite <- Hfail in Hc.
    intros r r' H1 H2. apply Hone; by apply (published_counted_spec records p Ha Hh Hc).
Qed.

(** ** No figure panics *)

(** The integers of a record fit their fields. *)
Definition doc_typed (r : RunRecord) : Prop :=
  record_typed r /\
  match r_cpu r with
  | Some c => u64 (clk_tck c) /\ u64 (sampled_ns c) /\ u64 (server_ticks c) /\ u64 (generator_ticks c)
  | None => True
  end.

Lemma opt_f64_eq_number a b m : opt_f64_eq a b = true -> a = Some m -> is_nan m = false.
Proof. intros H ->. destruct b as [b|]; [|done]. by destruct m. Qed.

Lemma mismatch_nil b m : mismatch b m = [] -> b = true.
Proof. by destruct b. Qed.

Lemma recompute_check_total records : Forall doc_typed records -> is_Some (recompute_check records).
Proof.
  induction 1 as [|r records [Ht _] _ IH]; cbn [recompute_check]; [by eexists|]. unfold recompute.
  destruct (reconcile_total r Ht) as [reasons ->]. destruct (_ ++ _); [done|by eexists].
Qed.

(** A record that agrees with its evidence has numbers for metrics: NaN equals
    nothing, itself included. *)
Lemma consistent_metrics runs : Forall (fun r => recompute r = Some []) runs -> metrics_are_numbers runs.
Proof.
  rewrite Forall_forall. intros Hc r m Hr. specialize (Hc r Hr). unfold recompute in Hc. destruct (reconcile r) as [reasons|]; [|done].
  injection Hc as Hc. repeat apply app_eq_nil in Hc as [Hc ?].
  repeat match goal with H : _ ++ _ = [] |- _ => apply app_eq_nil in H as [? H] end.
  repeat match goal with H : mismatch _ _ = [] |- _ => apply mismatch_nil in H end.
  unfold metric. destruct (r_kind r); [by eapply opt_f64_eq_number| |by eapply opt_f64_eq_number..].
  destruct (r_latency_ns r) as [l|]; [|done]. intros [= <-]. pose proof (f64_of_Z_number (p99 l)). by destruct (f64_of_Z _).
Qed.

Lemma metrics_sub runs runs' : (forall r, r ∈ runs' -> r ∈ runs) -> metrics_are_numbers runs -> metrics_are_numbers runs'.
Proof. intros Hs Hm r m Hr. apply Hm. by apply Hs. Qed.

Lemma no_nan_omap {A} (f : A -> option f64) (l : list A) :
  (forall x m, x ∈ l -> f x = Some m -> is_nan m = false) -> existsb is_nan (omap f l) = false.
Proof.
  intros H. apply existsb_all_false, Forall_forall. intros m Hm. apply list_elem_of_omap in Hm as (x & Hx & E). eauto.
Qed.

Lemma spread_total values : existsb is_nan values = false -> is_Some (spread values).
Proof.
  intros H. unfold spread. destruct (median_total values H) as [[m|] ->]; [|by eexists].
  destruct (f64_eq m _); [by eexists|]. destruct (min_max values). by eexists.
Qed.

Lemma metric_cells_total runs : metrics_are_numbers runs -> is_Some (metric_cells runs).
Proof.
  intros Hm. pose proof (no_nan_omap metric runs Hm) as Hn. unfold metric_cells.
  destruct (median_total _ Hn) as [m ->], (spread_total _ Hn) as [s ->]. by eexists.
Qed.

Lemma cpu_value_number server r m : doc_typed r -> cpu_value server r = Some m -> is_nan m = false.
Proof.
  intros [_ Ht]. unfold cpu_value. destruct (r_cpu r) as [c|]; [|done]. destruct Ht as (H1 & H2 & H3 & H4). unfold u_range in *.
  destruct (cpu_count _) as [n|] eqn:En; [|done]. apply cpu_count_range in En. unfold cpu_percent.
  destruct (clk_tck c =? 0) eqn:E1, (sampled_ns c =? 0) eqn:E2, (n =? 0) eqn:E3; try done. cbn [orb]. zbool.
  set (denom := sat_mul 128 (sat_mul 128 (clk_tck c) (sampled_ns c)) n).
  assert (Hsat : forall x y, 0 <= x -> 0 <= y -> 0 <= sat_mul 128 x y < 2 ^ 128) by (intros; unfold sat_mul; nia).
  assert (Hd : 0 <= denom < 2 ^ 128) by (apply Hsat; [apply Hsat|]; lia).
  destruct (Z.eqb_spec denom 0); [done|]. intros [= <-].
  set (ticks := if server then server_ticks c else generator_ticks c).
  assert (Hn : 0 <= sat_mul 128 (sat_mul 128 ticks 100) ONE_SECOND_NS < 2 ^ 128).
  { apply Hsat; [apply Hsat; [unfold ticks; destruct server; lia|lia]|unfold ONE_SECOND_NS; lia]. }
  set (num := sat_mul 128 _ ONE_SECOND_NS) in *. clearbody num denom.
  assert (Hnum : f64_div (f64_of_Z num) (f64_of_Z denom) <> S754_nan).
  { apply f64_div_number; [apply f64_of_Z_finite; lia|]. destruct (Z.eq_dec num 0) as [->|]; [by left|right; apply f64_of_Z_finite; lia]. }
  by destruct (f64_div _ _).
Qed.

Lemma median_cpu_total server runs : Forall doc_typed runs -> is_Some (median_cpu_percent runs server).
Proof.
  rewrite Forall_forall. intros Ht. unfold median_cpu_percent.
  destruct (median_total (omap (cpu_value server) runs)) as [[m|] ->]; [|by eexists..].
  apply no_nan_omap. intros r m Hr. apply cpu_value_number. by apply Ht.
Qed.

Lemma mapM_total {A B} (f : A -> option B) l : (forall x, is_Some (f x)) -> is_Some (mapM f l).
Proof. intros H. apply mapM_is_Some, Forall_forall. auto. Qed.

(** What is published comes from the records. *)
Definition drawn_from (records : list RunRecord) (p : Published) : Prop :=
  forall k runs, passing p !! k = Some runs -> forall r, r ∈ runs -> r ∈ records /\ key r = k.

Section Total.
Context (records : list RunRecord) (Htyped : Forall doc_typed records) (Hnum : metrics_are_numbers records).

Lemma published_runs p k runs : drawn_from records p -> passing p !! k = Some runs -> Forall doc_typed runs /\ metrics_are_numbers runs.
Proof.
  intros Hp Hk. rewrite Forall_forall in *. split; [|eapply metrics_sub; [|done]]; intros r Hr; [apply Htyped|];
    by destruct (Hp _ _ Hk _ Hr).
Qed.

Lemma throughput_cells_total p k s w : drawn_from records p -> is_Some (throughput_cells p k s w).
Proof.
  intros Hp. unfold throughput_cells. destruct (passing p !! k) as [runs|] eqn:E; [|by eexists].
  destruct (published_runs _ _ _ Hp E) as [Ht Hm].
  destruct (metric_cells_total runs Hm) as [[] ->], (median_cpu_total true runs Ht) as [? ->], (median_cpu_total false runs Ht) as [? ->].
  by eexists.
Qed.

Lemma syscalls_per_msg_total p k any : drawn_from records p -> k_kind k = KCounted -> is_Some (syscalls_per_msg (passing p) k any).
Proof.
  intros Hp Hk. unfold syscalls_per_msg. destruct any; [|by eexists]. cbn [negb].
  destruct (passing p !! k) as [runs|] eqn:E; [|by eexists].
  set (values := omap _ runs). assert (Hn : existsb is_nan values = false).
  { apply no_nan_omap. intros r m Hr Em. destruct (Hp _ _ E _ Hr) as [Hr' Ek]. apply (Hnum r m Hr').
    unfold metric. change (r_kind r) with (k_kind (key r)). by rewrite Ek, Hk. }
  destruct values as [|v vs]; [by eexists|]. destruct (median_total _ Hn) as [m ->]. by eexists.
Qed.

Lemma document_total smoke sample by_key p expected : drawn_from records p -> is_Some (document smoke records sample by_key p expected).
Proof.
  intros Hp. unfold document. set (any := existsb _ records). destruct (mapM_total (worker_lines (if smoke then Smoke else Recorded) p any) RECORDED_WORKERS) as [ls ->]; [|by eexists].
  intros w. unfold worker_lines.
  destruct (mapM_total (results_lines (if smoke then Smoke else Recorded) p any w) RECORDED_QOS) as [rs ->].
  { intros q. unfold results_lines, all_rows. set (rates := row_rates _ w q).
    destruct (mapM_total (fun s => results_row p s w q rates any) (servers_for w RECORDED_SERVERS)) as [rows ->]; [|by eexists].
    intros s. unfold results_row. cbv zeta. destruct (throughput_cells_total p {| k_server := s; k_workers := w; k_qos := Some q; k_kind := KThroughput; k_offered_rate := None |} s w Hp) as [[? ?] ->].
    destruct (not_sustained p !! _) as [rows|]; [by eexists|].
    destruct (syscalls_per_msg_total p {| k_server := s; k_workers := w; k_qos := Some q; k_kind := KCounted; k_offered_rate := Some (higher rates) |} any Hp) as [? ->]; [done|].
    by eexists. }
  unfold connections_lines, all_rows. destruct (mapM_total (fun s => connections_row p s w) (servers_for w RECORDED_SERVERS)) as [rows ->]; [|by eexists].
  intros s. unfold connections_row. destruct (passing p !! _) as [runs|] eqn:E; [|by eexists].
  destruct (metric_cells_total runs) as [[] ->]; [|by eexists]. by eapply published_runs.
Qed.

Lemma runs_of_metrics k : metrics_are_numbers (runs_of records k).
Proof. eapply metrics_sub; [|done]. intros r [? _]%elem_of_runs. done. Qed.

Lemma key_outcome_total smoke constants k : is_Some (key_outcome smoke constants (group_by_key records) k).
Proof.
  unfold key_outcome. rewrite group_by_key_lookup. pose proof (runs_of_metrics k) as Hm.
  destruct (runs_of records k) as [|r l]; [by eexists|]. set (runs := r :: l) in *. clearbody runs.
  destruct (negb smoke && is_open_loop (k_kind k)).
  - destruct (open_loop_outcome_total runs constants Hm) as [[] ->]; by eexists.
  - unfold config_passes. destruct (config_failure_total (attempt_runs runs) (repetitions constants) (enforce_spread constants)) as [[f|] ->]; [|by eexists..].
    eapply metrics_sub; [|done]. apply attempt_runs_sub.
Qed.

Lemma key_outcome_runs smoke constants k runs : key_outcome smoke constants (group_by_key records) k = Some (KeyPasses runs) ->
  forall r, r ∈ runs -> r ∈ records /\ key r = k.
Proof.
  unfold key_outcome. rewrite group_by_key_lookup. pose proof (elem_of_runs records k) as He.
  destruct (runs_of records k) as [|r l]; [done|]. set (all := r :: l) in *. clearbody all.
  intros H r' Hr'. apply He, attempt_runs_sub.
  destruct (negb smoke && _); [destruct (open_loop_outcome _ _) as [[]|]|destruct (config_passes _ _ _) as [[]|]];
    try discriminate H; by injection H as <-.
Qed.

Lemma publish_all_total smoke constants keys : forall p, drawn_from records p ->
  exists p', publish_all smoke constants (group_by_key records) p keys = Some p' /\ drawn_from records p'.
Proof.
  induction keys as [|k keys IH]; intros p Hp; cbn [publish_all]; [by eexists|]. unfold publish_config.
  destruct (key_outcome_total smoke constants k) as [o E]. rewrite E. destruct o as [runs|rows|].
  - apply IH. intros k' runs'. unfold pass. cbn [passing]. rewrite lookup_insert_Some. intros [[<- <-]|[_ H]]; [|by apply Hp].
    exact (key_outcome_runs _ _ _ _ E).
  - by apply IH.
  - apply IH. by destruct smoke.
Qed.
End Total.

(** ** Publishable records *)

(** Something a reader can see is left of a text. *)
Definition visible (text : str) : Prop := exists c, c ∈ text /\ is_whitespace c = false /\ is_control c = false.

(** The newest attempt of a configuration passed: it is complete, valid and
    steady enough. *)
Definition sustained (runs : list RunRecord) : Prop :=
  exists a, Verdict.highest_attempt runs a /\
    config_passes (Verdict.attempt_runs runs a) (repetitions recorded) (enforce_spread recorded) = Some true.

(** The records behind a published [syscalls/msg] cell: those of the newest
    attempt, or all of them when the configuration was refused for capacity. *)
Definition behind_syscalls (records : list RunRecord) (r : RunRecord) : Prop :=
  r_kind r = KCounted /\ key r ∈ expected_configs Recorded /\
  let runs := runs_of records (key r) in
  r ∈ runs /\ (sustained runs /\ Verdict.highest_attempt runs (r_attempt r) \/ refused_capacity runs (key r)).

(** A counted run has a counter; another run has no evidence of one, and if it
    is valid no method either. *)
Definition counter_planned (r : RunRecord) : Prop :=
  let y := r_syscalls r in
  if decide (r_kind r = KCounted) then y_method y <> NoMethod
  else y_count y = None /\ y_per_msg y = None /\ y_raw y = None /\ y_enabled_ns y = None /\ y_disabled_ns y = None /\
       y_exit y = None /\ y_diagnostics y = None /\ (r_valid r = true -> y_method y = NoMethod).

(** What a document discloses of the host. *)
Record disclosed (r : RunRecord) : Prop := {
  ds_env : visible (git_sha (r_env r)) /\ visible (kernel (r_env r)) /\ visible (host_name (r_env r)) /\ visible (cpu_model (r_env r));
  ds_tools : tools (r_env r) <> [] /\ Forall (fun t => visible t.1 /\ visible t.2) (tools (r_env r));
  ds_cpus : visible (cpus_server (r_cpu_sets r)) /\ visible (cpus_generator (r_cpu_sets r))
}.

Record publishable (records : list RunRecord) : Prop := {
  pu_some : records <> [];
  pu_protocol : Forall made_under_protocol records;
  pu_counters : Forall counter_planned records;
  pu_disclosed : Forall disclosed records;
  pu_one_host : forall r r', r ∈ records -> r' ∈ records -> same_environment r r';
  pu_complete : Forall (fun k => let runs := runs_of records k in runs <> [] /\ (sustained runs \/ refused_capacity runs k))
                  (expected_configs Recorded);
  pu_one_method : forall r r', behind_syscalls records r -> behind_syscalls records r' ->
                  y_method (r_syscalls r) = y_method (r_syscalls r')
}.

Lemma trim_start_nil s : trim_start s = [] <-> Forall (fun c => is_whitespace c = true) s.
Proof.
  induction s as [|c s IH]; simpl; [by split|]. rewrite Forall_cons. destruct (is_whitespace c) eqn:E; [|naive_solver].
  rewrite IH. naive_solver.
Qed.

Lemma trim_start_keeps s c : c ∈ s -> is_whitespace c = false -> c ∈ trim_start s.
Proof.
  induction s as [|d s IH]; [by intros ?%elem_of_nil|]. simpl. destruct (is_whitespace d) eqn:E; [|done].
  intros [->|Hc]%elem_of_cons Hw; [congruence|by apply IH].
Qed.

Lemma trim_nil s : trim s = [] <-> Forall (fun c => is_whitespace c = true) s.
Proof.
  unfold trim, trim_end. split.
  - intros H. apply Forall_forall. intros c Hc. destruct (is_whitespace c) eqn:E; [done|exfalso].
    assert (Hr : c ∈ trim_start (rev (trim_start s))).
    { apply trim_start_keeps; [|done]. apply list_elem_of_In, in_rev. rewrite rev_involutive. apply list_elem_of_In. by apply trim_start_keeps. }
    apply (f_equal (@rev Z)) in H. rewrite rev_involutive in H. rewrite H in Hr. by apply elem_of_nil in Hr.
  - intros H. by rewrite (proj2 (trim_start_nil s) H).
Qed.

Lemma cell_char_space c : Forall (fun x => is_whitespace x = true) (cell_char c) <-> is_whitespace c = true \/ is_control c = true.
Proof.
  unfold cell_char. destruct (Z.eqb_spec c 92) as [->|]; [by split; [intros H; inversion H|intros [|]]|].
  destruct (Z.eqb_spec c 124) as [->|]; [by split; [intros H; inversion H|intros [|]]|].
  destruct (is_control c); rewrite Forall_singleton; naive_solver.
Qed.

Lemma blank_visible text : blank text = false <-> visible text.
Proof.
  unfold blank. assert (Hb : is_empty_str (trim (cell text)) = true <-> Forall (fun c => is_whitespace c = true \/ is_control c = true) text).
  { transitivity (trim (cell text) = []); [by destruct (trim (cell text))|]. rewrite trim_nil. unfold cell.
    induction text as [|c text IH]; [by split|]. rewrite bind_cons, Forall_app, Forall_cons, IH, cell_char_space. done. }
  rewrite <- not_true_iff_false, Hb. unfold visible. split.
  - intros Hn. destruct (Exists_exists (fun c => is_whitespace c = false /\ is_control c = false) text) as [Hx _]. apply Hx.
    apply not_Forall_Exists in Hn; [|solve_decision]. eapply Exists_impl; [exact Hn|]. intros c. simpl.
    destruct (is_whitespace c), (is_control c); tauto.
  - intros (c & Hc & H1 & H2) Hall. rewrite Forall_forall in Hall. destruct (Hall c Hc); congruence.
Qed.

Lemma counter_planned_iff r : counter_as_planned r <-> counter_planned r.
Proof.
  unfold counter_as_planned, counter_planned, counter_on_uncounted_row. case_decide as Hk; [by rewrite bool_decide_eq_true_2|].
  rewrite bool_decide_eq_false_2 by done. destruct (r_syscalls r) as [m c p raw en dis ex dia].
  destruct c, p, raw, en, dis, ex, dia; simpl; try naive_solver. destruct (r_valid r), m; simpl; naive_solver.
Qed.

(** *** The newest attempt *)

Lemma highest_spec runs : runs <> [] -> Forall (fun r => 0 <= r_attempt r) runs -> Verdict.highest_attempt runs (highest_attempt runs).
Proof.
  unfold Verdict.highest_attempt, attempts, highest_attempt. intros Hne Hn. induction Hn as [|r runs Hr Hn IH]; [done|]. simpl.
  destruct runs as [|r' runs].
  - simpl. rewrite Z.max_l by done. split; [by left|]. intros a [->|Ha]%elem_of_cons; [lia|by apply elem_of_nil in Ha].
  - destruct IH as [H1 H2]; [done|]. set (h := foldr Z.max 0 _) in *. split.
    + destruct (Z.max_spec (r_attempt r) h) as [[_ ->]|[_ ->]]; [by right|by left].
    + intros a [->|Ha]%elem_of_cons; [lia|]. specialize (H2 a Ha). lia.
Qed.

Lemma highest_unique runs a b : Verdict.highest_attempt runs a -> Verdict.highest_attempt runs b -> a = b.
Proof. intros [Ha Hla] [Hb Hlb]. specialize (Hla b Hb). specialize (Hlb a Ha). lia. Qed.

Lemma attempt_runs_newest runs a : runs <> [] -> Forall (fun r => 0 <= r_attempt r) runs -> Verdict.highest_attempt runs a ->
  attempt_runs runs = Verdict.attempt_runs runs a.
Proof.
  intros Hne Hn Ha. pose proof (highest_spec runs Hne Hn) as Hh. rewrite (highest_unique _ _ _ Ha Hh).
  unfold attempt_runs. fold (Verdict.attempt_runs runs (highest_attempt runs)).
  destruct (Verdict.attempt_runs runs (highest_attempt runs)) as [|x l] eqn:E; [|done]. exfalso.
  destruct Hh as [Hin _]. apply list_elem_of_fmap in Hin as (r & Hr & Hin).
  assert (Hx : r ∈ Verdict.attempt_runs runs (highest_attempt runs)) by (apply elem_of_lfilter; split; [done|by apply Z.eqb_eq]).
  rewrite E in Hx. by apply elem_of_nil in Hx.
Qed.

Lemma sustained_iff runs k : runs <> [] -> Forall (fun r => 0 <= r_attempt r) runs -> kept_up runs k <-> sustained runs.
Proof.
  intros Hne Hn. unfold kept_up, sustained. pose proof (highest_spec runs Hne Hn) as Hh. destruct (is_open_loop (k_kind k)).
  - unfold open_loop_outcome. pose proof (last_group runs) as Hl. destruct (last (attempt_groups runs)) as [[h g]|]; [|by subst runs].
    destruct Hl as [Hl ->]. split.
    + intros H. exists h. split; [done|]. destruct (config_passes _ _ _) as [[]|]; [done| |done].
      repeat case_match; simplify_eq.
    + intros (a & Ha & Hp). by rewrite (highest_unique _ _ _ Hl Ha), Hp.
  - rewrite (attempt_runs_newest _ _ Hne Hn Hh). split; [by eauto|]. intros (a & Ha & Hp). by rewrite (highest_unique _ _ _ Hh Ha).
Qed.

Lemma behind_iff records r : Forall (fun r => 0 <= r_attempt r) records -> behind_cell records r <-> behind_syscalls records r.
Proof.
  intros Hn. unfold behind_cell, behind_syscalls. set (runs := runs_of records (key r)). cbv zeta.
  assert (Hruns : Forall (fun r => 0 <= r_attempt r) runs).
  { apply Forall_forall. intros x [Hx _]%elem_of_runs. rewrite Forall_forall in Hn. by apply Hn. }
  split; intros (Hk & He & H); (split; [done|]); (split; [done|]).
  - destruct H as [[Hs Hr]|[Hc Hr]]; [|tauto]. pose proof (attempt_runs_sub _ _ Hr) as Hin. split; [done|left].
    assert (Hne : runs <> []) by (intros E; rewrite E in Hin; by apply elem_of_nil in Hin). pose proof (highest_spec runs Hne Hruns) as Hh.
    split; [by apply (sustained_iff _ (key r))|]. rewrite (attempt_runs_newest _ _ Hne Hruns Hh) in Hr.
    apply elem_of_lfilter in Hr as [_ Hr]. apply Z.eqb_eq in Hr. by rewrite Hr.
  - destruct H as [Hin [[Hs Hr]|Hc]]; [left|by right]. assert (Hne : runs <> []) by (intros E; rewrite E in Hin; by apply elem_of_nil in Hin).
    split; [by apply sustained_iff|]. rewrite (attempt_runs_newest _ _ Hne Hruns Hr). apply elem_of_lfilter. split; [done|by apply Z.eqb_eq].
Qed.

Lemma shown_iff r : shown r <-> disclosed r.
Proof.
  assert (Htools : Forall (fun t => blank t.1 = false /\ blank t.2 = false) (tools (r_env r)) <-> Forall (fun t => visible t.1 /\ visible t.2) (tools (r_env r))).
  { apply Forall_iff. intros t. by rewrite !blank_visible. }
  split; intros []; split; rewrite <- ?blank_visible in *; destruct_and?; try done; try (by rewrite <- Htools); by rewrite Htools.
Qed.

Lemma checked_publishable records : Forall (fun r => 0 <= r_attempt r) records -> checked records <-> publishable records.
Proof.
  intros Hn. assert (Hcomplete : forall k, let runs := runs_of records k in
    runs <> [] /\ (kept_up runs k \/ refused_capacity runs k) <-> runs <> [] /\ (sustained runs \/ refused_capacity runs k)).
  { intros k runs. split; intros [Hne H]; (split; [done|]); rewrite sustained_iff in *; try done;
      (apply Forall_forall; intros x [Hx _]%elem_of_runs; rewrite Forall_forall in Hn; by apply Hn). }
  split; intros []; split; try done.
  - eapply Forall_impl; [exact pb_counters0|]. intros r. apply counter_planned_iff.
  - eapply Forall_impl; [exact pb_disclosed0|]. intros r. apply shown_iff.
  - eapply Forall_impl; [exact pb_complete0|]. intros k. apply Hcomplete.
  - intros r r' Hr Hr'. apply pb_one_method0; by apply behind_iff.
  - eapply Forall_impl; [exact pu_counters0|]. intros r. apply counter_planned_iff.
  - eapply Forall_impl; [exact pu_disclosed0|]. intros r. apply shown_iff.
  - eapply Forall_impl; [exact pu_complete0|]. intros k. apply Hcomplete.
  - intros r r' Hr Hr'. apply pu_one_method0; by apply behind_iff.
Qed.

(** (C34) A recorded document is rendered exactly for a publishable set of
    records, and [render] never panics on records whose integers fit their
    fields.  When it answers a document the records are publishable: there is
    one, each was made under the recorded protocol by a clean release build
    and agrees with its own raw evidence, all disclose one non-blank
    environment, every configuration of the recorded matrix has runs whose
    highest attempt passes or was refused for capacity, the runs that are to be counted
    (and only those) carry a counter, and one counting method stands behind
    every published figure.  When it refuses, they are not publishable. *)
Theorem render_publishable records : Forall doc_typed records -> Forall (fun r => u32 (r_attempt r)) records ->
  match render records false with
  | Some (Ok _) => publishable records
  | Some (Err _) => ~ publishable records
  | None => False
  end.
Proof.
  intros Ht Ha. assert (Hn : Forall (fun r => 0 <= r_attempt r) records) by (eapply Forall_impl; [exact Ha|]; intros r []; lia).
  pose proof (checked_publishable records Hn) as Hcp.
  enough (Hchecked : match render records false with Some (Ok _) => checked records | Some (Err _) => ~ checked records | None => False end)
    by (destruct (render records false) as [[]|]; [by apply Hcp|by rewrite <- Hcp|done]).
  unfold render. destruct records as [|r records]; [by intros []|]. set (all := r :: records) in *. clear Hcp.
  pose proof (record_checks_none r records) as Hchecks. fold all in Hchecks. cbv zeta.
  assert (Hpub : checked all ->
    schema_check all = None /\ recompute_check all = Some None /\ record_checks all (expected_configs Recorded) = None).
  { intros []. by apply Hchecks. }
  destruct (schema_check all) as [e|] eqn:Es; [intros H; by destruct (Hpub H)|].
  destruct (recompute_check_total all) as [[e|] Er]; [done|rewrite Er; intros H; destruct (Hpub H) as (_ & ? & _); congruence|]. rewrite Er.
  destruct (record_checks all _) as [e|] eqn:Ec; [intros H; by destruct (Hpub H) as (_ & _ & ?)|].
  destruct (proj1 Hchecks) as (Hm & Hd & He); [done|]. fold recorded. apply recompute_check_ok, consistent_metrics in Er.
  destruct (publish_all_total all Er false recorded (expected_configs Recorded) nothing_published) as (p & Ep & Hp).
  { intros k x. cbn [passing nothing_published]. by rewrite lookup_empty. }
  rewrite Ep. pose proof (outcomes_spec _ _ Hm Ep) as Hout. cbv zeta in Hout.
  destruct (failed_names p) as [|n names] eqn:Ef; [|intros []; destruct (proj2 Hout) as [? _]; done].
  destruct (first_refusal _) as [e|] eqn:Ecc; [intros []; destruct (proj2 Hout) as [_ ?]; done|].
  destruct (document_total all Ht Er false r (group_by_key all) p (expected_configs Recorded) Hp) as [doc ->].
  destruct (proj1 Hout) as (? & ? & ?); [done|]. by split.
Qed.

(** A complete recorded matrix: five repetitions of every configuration. *)
Module SampleDocument.
Definition window : Window := {| start_ns := 10 * NS; end_ns := 70 * NS |}.

(** A second's deliveries and the slots of the run and of its window. *)
Definition rate (k : ConfigKey) : Z :=
  match k_kind k with KThroughput => 1000 | KConnections => 0 | _ => default 0 (k_offered_rate k) end.
Definition slots (k : ConfigKey) : Z * Z := default (0, 0) (slot_counts (rate k) 0 window).
Definition raw : str := lit "600,,raw_syscalls:sys_enter".
(** A host name with a pipe, a backslash and a line break before a heading. *)
Definition host : str := lit "a|b\c" ++ [10] ++ lit "# d".

Definition run (k : ConfigKey) (repetition : Z) : RunRecord :=
  let open := is_open_loop (k_kind k) in
  let counted := bool_decide (k_kind k = KCounted) in
  let '(scheduled, in_window) := slots k in
  let offered := if open then scheduled else 70 * rate k in
  let thr := if bool_decide (k_kind k = KThroughput) then Some (rate_of (60 * rate k) 60) else None in
  let in_sec := seq 0 69 in
  {| r_schema := SCHEMA_VERSION; r_profile := Recorded; r_server := k_server k; r_workers := k_workers k; r_qos := k_qos k;
     r_kind := k_kind k; r_offered_rate := k_offered_rate k; r_repetition := repetition; r_attempt := 1; r_connections := 100;
     r_payload_bytes := 64; r_qos1_window := 32; r_warmup_secs := 10; r_window_secs := 60; r_drain_grace_secs := 5;
     r_build := Release; r_origin_ns := 0; r_window := window;
     r_timeline := {| origin_sec := 0; counts := ((fun _ => rate k) <$> in_sec) ++ [offered - 69 * rate k] |};
     r_cycles_in_window := if bool_decide (k_kind k = KConnections) then Some 6000 else None;
     r_counts := {| c_scheduled := if open then Some scheduled else None; c_window_scheduled := if open then Some in_window else None;
                    c_offered := offered; c_acked := if bool_decide (k_qos k = Some 1) then Some offered else None;
                    c_delivered := offered; c_dropped := Some 0; c_unresolved := 0; c_duplicates := 0; c_foreign := 0;
                    c_latency_over_range := 0; c_clock_anomalies := 0 |};
     r_throughput := thr; r_last10s := thr;
     r_latency_ns := if open then Some (summarize [(50000, in_window)]) else None;
     r_lateness := if open then [(1000, in_window)] else []; r_lateness_p99_ns := if open then Some 1000 else None;
     r_last_write_start_ns := if open then Some (60 * NS) else None;
     r_connections_per_sec := if bool_decide (k_kind k = KConnections) then Some (rate_of 6000 60) else None;
     r_generator_errors := {| g_connect := 0; g_protocol := 0; g_missed_slots := 0; g_stalled := 0; g_lateness_over_range := 0 |};
     r_syscalls :=
       if counted then
         {| y_method := Perf; y_count := Some 600; y_per_msg := Some (rate_of 600 (offered - 10 * rate k)); y_raw := Some raw;
            y_enabled_ns := Some (10 * NS); y_disabled_ns := Some (70 * NS); y_exit := Some (ExitSignal 2); y_diagnostics := None |}
       else
         {| y_method := NoMethod; y_count := None; y_per_msg := None; y_raw := None; y_enabled_ns := None; y_disabled_ns := None;
            y_exit := None; y_diagnostics := None |};
     r_driver := if bool_decide (k_server k = Uring) then Some {| io_uring_fds := k_workers k; eventpoll_fds := 0 |} else None;
     r_cpu_sets := {| cpus_server := lit "0-3"; cpus_generator := lit "4-7" |};
     r_env := {| kernel := lit "6.6"; cpu_model := lit "x86"; host_name := host; git_sha := lit "abc"; git_dirty := false;
                 tools := [(lit "/usr/bin/perf", lit "perf 6.6")] |};
     r_cpu := Some {| clk_tck := 100; sampled_ns := 60 * NS; server_ticks := 12000; generator_ticks := 6000 |};
     r_host_cpu_pressure := None; r_worker_loads := None; r_started_at_unix := 0; r_harness_errors := []; r_valid := true;
     r_invalid_reasons := []; r_cancelled := false |}.

Definition runs (keys : list ConfigKey) : list RunRecord := keys ≫= (fun k => run k <$> [1; 2; 3; 4; 5]).
Definition records : list RunRecord := runs (expected_configs Recorded).

(** The numbers of a configuration's runs fit their fields. *)
Definition fits (k : ConfigKey) : bool :=
  let '(scheduled, in_window) := slots k in
  let offered := if is_open_loop (k_kind k) then scheduled else 70 * rate k in
  forallb (fun n => (0 <=? n) && (n <? 2 ^ 64)) [rate k; scheduled; in_window; offered; offered - 69 * rate k; default 0 (k_offered_rate k)].

Lemma all_fit : forallb fits (expected_configs Recorded) = true.
Proof. by vm_compute. Qed.

Lemma run_typed k n : fits k = true -> doc_typed (run k n).
Proof.
  unfold fits, run. destruct (slots k) as [scheduled in_window]. set (offered := if is_open_loop _ then _ else _).
  cbn [forallb]. intros H. zbool. destruct_and?. clearbody offered.
  split; [|cbn [r_cpu clk_tck sampled_ns server_ticks generator_ticks]; unfold u_range, NS; lia].
  split; cbn [r_window r_origin_ns r_warmup_secs r_window_secs r_timeline r_counts r_offered_rate r_cycles_in_window
    r_latency_ns r_lateness r_generator_errors c_offered c_delivered c_dropped c_window_scheduled c_scheduled
    counts origin_sec g_lateness_over_range start_ns end_ns window]; unfold u_range, NS in *.
  - lia.
  - lia.
  - split; [|lia]. rewrite Forall_app, Forall_singleton. split; [|lia]. rewrite Forall_fmap. apply Forall_forall. intros; simpl; lia.
  - destruct (is_open_loop _); unfold opt_u64, u_range; lia.
  - unfold opt_u64, u_range. destruct (k_offered_rate k); [simpl in *; lia|done].
  - case_bool_decide; [|done]. unfold opt_u64, u_range. lia.
  - destruct (is_open_loop _); [|done]. unfold hist_typed, u_range, summarize. cbn [histogram]. apply Forall_singleton. simpl. lia.
  - destruct (is_open_loop _); unfold hist_typed, u_range; [apply Forall_singleton; simpl; lia|constructor].
  - lia.
Qed.

Lemma records_typed : Forall doc_typed records.
Proof.
  apply Forall_forall. intros r Hr. apply list_elem_of_bind in Hr as (k & Hr & Hk). apply list_elem_of_fmap in Hr as (n & -> & _).
  apply run_typed. pose proof all_fit as H. rewrite forallb_forall in H. apply H. by apply list_elem_of_In.
Qed.

Lemma attempts_typed : Forall (fun r => u32 (r_attempt r)) records.
Proof.
  apply Forall_forall. intros r Hr. apply list_elem_of_bind in Hr as (k & Hr & _). apply list_elem_of_fmap in Hr as (n & -> & _).
  unfold run. destruct (slots k). done.
Qed.
End SampleDocument.

Lemma render_publishable_witness : publishable SampleDocument.records.
Proof.
  pose proof (render_publishable SampleDocument.records SampleDocument.records_typed SampleDocument.attempts_typed) as H.
  destruct (render SampleDocument.records false) as [[doc|e]|] eqn:E; [exact H| |destruct H].
  assert (Hok : match render SampleDocument.records false with Some (Ok _) => true | _ => false end = true) by (vm_compute; reflexivity).
  rewrite E in Hok. discriminate Hok.
Defined.
