(* ===== verification/DocText.v ===== *)
(** * The text of a document

    A record carries text of the host it ran on: names, versions, CPU lists.
    [cell] escapes it.  [document_structure]: no such text adds a line, a
    heading or a table cell to the document, and a reader of the environment
    table finds it again, control characters as spaces. *)

From S2P Require Import Prelude Text F64 Wire Recorder RunRecord Analysis CpuSet Sorting Verdict Matrix Runner Doc DocSpec.
From Stdlib Require Import Floats.SpecFloat.

(** ** Reading a table *)

(** The cells of a row, cut at the pipes that no backslash escapes. *)
Fixpoint read_cells (cur s : str) : list str :=
  match s with
  | [] => [cur]
  | c :: s =>
      if c =? 124 then cur :: read_cells [] s
      else if c =? 92 then
        match s with
        | d :: s' => if (d =? 92) || (d =? 124) then read_cells (cur ++ [d]) s' else read_cells (cur ++ [c]) s
        | [] => [cur ++ [c]]
        end
      else read_cells (cur ++ [c]) s
  end.

Definition is_heading : str -> bool := starts_with (lit "#").
Definition is_row : str -> bool := starts_with (lit "|").

(** Consecutive rows have the same number of cells. *)
Fixpoint rectangular (width : option nat) (ls : list str) : bool :=
  match ls with
  | [] => true
  | l :: ls =>
      if is_row l then
        let n := length (read_cells [] l) in
        match width with
        | Some w => (n =? w)%nat && rectangular width ls
        | None => rectangular (Some n) ls
        end
      else rectangular None ls
  end.

(** What is left of a text in a cell. *)
Definition plain (text : str) : str := (fun c => if is_control c then 32 else c) <$> text.

(** ** Quiet text *)

(** No line break, no pipe and no backslash. *)
Definition quiet_char (c : Z) : bool := negb ((c =? 10) || (c =? 92) || (c =? 124)).
Definition quiet (s : str) : Prop := Forall (fun c => quiet_char c = true) s.

Create HintDb quiet.

Lemma quiet_nil : quiet [].
Proof. constructor. Qed.
Lemma quiet_app s t : quiet s -> quiet t -> quiet (s ++ t).
Proof. unfold quiet. rewrite Forall_app. done. Qed.
Lemma quiet_check s : forallb quiet_char s = true -> quiet s.
Proof. rewrite forallb_forall. intros H. apply Forall_forall. intros c Hc. by apply H, list_elem_of_In. Qed.
Lemma quiet_lit s : forallb quiet_char (lit s) = true -> quiet (lit s).
Proof. apply quiet_check. Qed.
Lemma quiet_digits s : digits s -> quiet s.
Proof.
  intros H. eapply Forall_impl; [exact H|]. intros c Hc. unfold quiet_char. apply is_digit_spec in Hc.
  rewrite !(proj2 (Z.eqb_neq _ _)) by lia. done.
Qed.
Lemma quiet_dec n : 0 <= n -> quiet (dec n).
Proof. intros. by apply quiet_digits, dec_digits. Qed.
Lemma quiet_join sep l : quiet sep -> Forall quiet l -> quiet (join sep l).
Proof.
  intros Hs. induction 1 as [|s l H Hl IH]; [constructor|]. cbn [join]. destruct l; [done|].
  apply quiet_app; [done|]. by apply quiet_app.
Qed.
Lemma quiet_label r : quiet (label r).
Proof. destruct r; by apply quiet_lit. Qed.

#[export] Hint Resolve quiet_nil quiet_app quiet_dec quiet_join quiet_label : quiet.
#[export] Hint Extern 1 (quiet (lit _)) => apply quiet_lit; reflexivity : quiet.
#[export] Hint Extern 2 (quiet FAILED) => apply quiet_check; reflexivity : quiet.
#[export] Hint Extern 2 (quiet n_a) => apply quiet_check; reflexivity : quiet.
#[export] Hint Extern 2 (quiet micro) => apply quiet_check; reflexivity : quiet.
#[export] Hint Extern 2 (quiet dash) => apply quiet_check; reflexivity : quiet.
#[export] Hint Extern 2 (quiet at_least) => apply quiet_check; reflexivity : quiet.
#[export] Hint Extern 3 (_ <= _)%Z => lia : quiet.

Ltac quiet := eauto 20 with quiet.

(** *** Figures *)

Lemma nearest_even_nonneg n d : 0 <= n -> 0 < d -> 0 <= nearest_even n d.
Proof.
  intros Hn Hd. unfold nearest_even. pose proof (Z.div_pos n d Hn Hd). destruct (_ ?= _); [destruct (Z.even _)|..]; lia.
Qed.

Lemma quiet_with_point k ds : digits ds -> quiet (with_point k ds).
Proof.
  intros H. assert (Hp : quiet (pad (S k) ds)).
  { unfold pad. apply quiet_app; [|by apply quiet_digits]. apply Forall_replicate. reflexivity. }
  unfold with_point. set (p := pad (S k) ds) in *. clearbody p. destruct k; [done|].
  apply quiet_app; [by apply Forall_take|]. apply quiet_app; [quiet|]. by apply Forall_drop.
Qed.

Lemma quiet_fixed k x : quiet (f64_fixed k x).
Proof.
  assert (Hs : forall s, quiet (sign_str s)) by (intros []; unfold sign_str; quiet).
  destruct x as [s|s| |s m e]; cbn [f64_fixed]; [|quiet|quiet|].
  - apply quiet_app; [done|]. by apply quiet_with_point, dec_digits.
  - apply quiet_app; [done|]. apply quiet_with_point, dec_digits, nearest_even_nonneg.
    + unfold scaled_num, frac_num. rewrite (proj2 (Z.leb_le 0 (Z.of_nat k))) by lia.
      pose proof (Z.pow_nonneg 10 (Z.of_nat k)). destruct (0 <=? e) eqn:E; [|nia]. pose proof (Z.pow_nonneg 2 e). nia.
    + unfold frac_den. destruct (0 <=? e) eqn:E; [lia|]. zbool. apply Z.pow_pos_nonneg; lia.
Qed.
#[export] Hint Resolve quiet_fixed : quiet.

Lemma quiet_server s : quiet (server_label s).
Proof. destruct s; unfold server_label; quiet. Qed.

Lemma quiet_metric runs m s : metric_cells runs = Some (m, s) -> quiet m /\ quiet s.
Proof. unfold metric_cells. cbv zeta. destruct (median _); [|done]. destruct (spread _); [|done]. intros [= <- <-]. split; quiet. Qed.

Lemma quiet_cpu runs server s : median_cpu_percent runs server = Some s -> quiet s.
Proof. unfold median_cpu_percent. destruct (median _) as [[]|]; try done; intros [= <-]; quiet. Qed.

Lemma quiet_latency passing k : quiet (latency_p99_us passing k).
Proof. unfold latency_p99_us. destruct (_ !! _); [|quiet]. destruct (median_u64 _); quiet. Qed.

Lemma quiet_syscalls passing k any s : syscalls_per_msg passing k any = Some s -> quiet s.
Proof.
  unfold syscalls_per_msg. destruct any; cbn [negb]; [|intros [= <-]; quiet]. destruct (_ !! _) as [runs|]; [|intros [= <-]; quiet].
  destruct (omap _ runs); [intros [= <-]; quiet|]. destruct (median _); intros [= <-]. quiet.
Qed.

Lemma quiet_driver runs s w : quiet (driver_label runs s w).
Proof. unfold driver_label. destruct (negb _); [quiet|]. destruct runs; [quiet|]. destruct (forallb _ _); quiet. Qed.

Lemma quiet_not_sustained rate rows : 0 <= rate -> quiet (not_sustained_cell rate rows).
Proof.
  intros. unfold not_sustained_cell. assert (Forall quiet (label <$> rows)) by (apply Forall_fmap, Forall_true; intros; apply quiet_label). quiet.
Qed.
#[export] Hint Resolve quiet_server quiet_latency quiet_driver quiet_not_sustained : quiet.

Lemma quiet_throughput p k s w cells d : throughput_cells p k s w = Some (cells, d) ->
  length cells = 4%nat /\ Forall quiet cells /\ quiet d.
Proof.
  unfold throughput_cells. destruct (passing p !! k) as [runs|].
  - destruct (metric_cells runs) as [[m sp]|] eqn:E; [|done]. apply quiet_metric in E as [? ?].
    destruct (median_cpu_percent runs true) eqn:E1; [|done]. destruct (median_cpu_percent runs false) eqn:E2; [|done].
    apply quiet_cpu in E1, E2. intros [= <- <-]. split; [done|]. rewrite !Forall_cons. split_and!; quiet.
  - intros [= <- <-]. split; [done|]. rewrite !Forall_cons. split_and!; quiet.
Qed.

(** ** Reading what was written *)

Lemma read_quiet t : forall cur rest, quiet t -> read_cells cur (t ++ rest) = read_cells (cur ++ t) rest.
Proof.
  induction t as [|c t IH]; intros cur rest Hq; [by rewrite app_nil_r|]. apply Forall_cons in Hq as [Hc Ht]. cbn [app read_cells].
  unfold quiet_char in Hc. destruct (c =? 10), (c =? 92) eqn:E1, (c =? 124) eqn:E2; try done. rewrite IH by done. by rewrite <- app_assoc.
Qed.

(** The text of a cell reads back, its control characters as spaces. *)
Lemma read_cell t : forall cur rest, read_cells cur (cell t ++ rest) = read_cells (cur ++ plain t) rest.
Proof.
  induction t as [|c t IH]; intros cur rest; [by rewrite app_nil_r|].
  change (cell (c :: t)) with (cell_char c ++ cell t). change (plain (c :: t)) with ((if is_control c then 32 else c) :: plain t).
  rewrite <- app_assoc. unfold cell_char.
  destruct (c =? 92) eqn:E1; [zbool; subst c; cbn; rewrite IH, <- app_assoc; done|].
  destruct (c =? 124) eqn:E2; [zbool; subst c; cbn; rewrite IH, <- app_assoc; done|].
  destruct (is_control c); cbn [app read_cells Z.eqb Pos.eqb]; [|rewrite E1, E2]; rewrite IH, <- app_assoc; done.
Qed.

Definition padded (c : str) : str := lit " " ++ c ++ lit " ".

Lemma read_pipe cur s : read_cells cur (lit " |" ++ s) = (cur ++ lit " ") :: read_cells [] s.
Proof. reflexivity. Qed.

Lemma read_joined cells : Forall quiet cells -> cells <> [] ->
  read_cells (lit " ") (join (lit " | ") cells ++ lit " |") = (padded <$> cells) ++ [[]].
Proof.
  induction 1 as [|c cells Hc Hq IH]; [done|]. intros _. cbn [join]. destruct cells as [|d cells].
  - rewrite read_quiet by done. by change (lit " |") with (lit " |" ++ []); rewrite read_pipe, <- app_assoc.
  - rewrite <- !app_assoc, read_quiet by done. change (lit " | " ++ ?x) with (lit " |" ++ lit " " ++ x).
    rewrite read_pipe, <- app_assoc, fmap_cons. cbn [app]. f_equal. rewrite (read_quiet (lit " ")) by quiet. by apply IH.
Qed.

Lemma read_row_cells cells : Forall quiet cells -> cells <> [] -> read_cells [] (row cells) = [] :: (padded <$> cells) ++ [[]].
Proof. intros Hq Hne. rewrite <- read_joined by done. reflexivity. Qed.

(** ** Lines *)

Definition unbroken (s : str) : Prop := Forall (fun c => (10 =? c) = false) s.

Create HintDb unbroken.

Lemma unbroken_app s t : unbroken s -> unbroken t -> unbroken (s ++ t).
Proof. unfold unbroken. rewrite Forall_app. done. Qed.
Lemma unbroken_check s : forallb (fun c => negb (10 =? c)) s = true -> unbroken s.
Proof. rewrite forallb_forall. intros H. apply Forall_forall. intros c Hc. by apply negb_true_iff, H, list_elem_of_In. Qed.
Lemma quiet_unbroken s : quiet s -> unbroken s.
Proof.
  intros H. eapply Forall_impl; [exact H|]. intros c Hc. unfold quiet_char in Hc. rewrite Z.eqb_sym. by destruct (c =? 10).
Qed.
Lemma unbroken_nil : unbroken [].
Proof. constructor. Qed.
Lemma unbroken_join sep l : unbroken sep -> Forall quiet l -> unbroken (join sep l).
Proof.
  intros Hs. induction 1 as [|s l H Hl IH]; [constructor|]. cbn [join]. destruct l; [by apply quiet_unbroken|].
  apply unbroken_app; [by apply quiet_unbroken|]. by apply unbroken_app.
Qed.
Lemma unbroken_row cells : Forall quiet cells -> unbroken (row cells).
Proof.
  intros H. unfold row. apply unbroken_app; [by apply unbroken_check|]. apply unbroken_app; [|by apply unbroken_check].
  apply unbroken_join; [by apply unbroken_check|done].
Qed.

Lemma unbroken_cell t : unbroken (cell t).
Proof.
  unfold cell. induction t as [|c t IH]; [constructor|]. cbn [mbind list_bind]. apply Forall_app. split; [|exact IH].
  unfold cell_char. destruct (c =? 92); [by apply unbroken_check|]. destruct (c =? 124); [by apply unbroken_check|].
  destruct (is_control c) eqn:E; repeat constructor. unfold is_control in E. destruct (Z.eqb_spec 10 c) as [<-|]; [done|done].
Qed.

#[export] Hint Resolve unbroken_nil unbroken_app unbroken_row unbroken_cell : unbroken.
#[export] Hint Extern 1 (unbroken (lit _)) => apply unbroken_check; reflexivity : unbroken.
#[export] Hint Extern 3 (unbroken _) => apply quiet_unbroken : unbroken.

Ltac unbroken := eauto 40 with unbroken quiet.

(** Lines that are written and split are the same lines. *)
Lemma split_written ls : Forall unbroken ls -> split_char 10 (written ls) = ls ++ [[]].
Proof.
  unfold split_char. induction 1 as [|l ls Hl _ IH]; [done|]. change (written (l :: ls)) with ((l ++ [10]) ++ written ls).
  rewrite <- app_assoc, split_by_piece by exact Hl. cbn [app]. rewrite split_by_cons by done. rewrite IH. by rewrite app_nil_r.
Qed.

Lemma row_not_heading l : is_row l = true -> is_heading l = false.
Proof.
  destruct l as [|c l]; [done|]. change (is_row (c :: l)) with (match (if 124 =? c then Some l else None) with Some _ => true | None => false end).
  change (is_heading (c :: l)) with (match (if 35 =? c then Some l else None) with Some _ => true | None => false end).
  destruct (Z.eqb_spec 124 c) as [<-|]; done.
Qed.

(** A closed part of a document: [heads] are its headings, its tables are
    rectangular and it does not end inside one. *)
Record part (heads ls : list str) : Prop := {
  pt_unbroken : Forall unbroken ls;
  pt_heads : List.filter is_heading ls = heads;
  pt_tables : rectangular None ls = true;
  pt_closed : match last ls with Some l => is_row l = false | None => True end
}.

Lemma rectangular_app a b : forall w, (a = [] -> w = None) -> match last a with Some l => is_row l = false | None => True end ->
  rectangular w (a ++ b) = rectangular w a && rectangular None b.
Proof.
  induction a as [|l a IH]; intros w Hw Hl; [by rewrite Hw|]. cbn [app rectangular].
  destruct (is_row l) eqn:E.
  - destruct a as [|l' a]; [simpl in Hl; congruence|].
    destruct w as [w|]; rewrite IH by done; [by rewrite andb_assoc|done].
  - rewrite IH; [done|done|]. destruct a; [done|exact Hl].
Qed.

Lemma part_app h1 h2 a b : part h1 a -> part h2 b -> part (h1 ++ h2) (a ++ b).
Proof.
  intros [Ua Ha Ta Ca] [Ub Hb Tb Cb]. split; [by apply Forall_app| |by rewrite rectangular_app, Ta, Tb|].
  - rewrite List.filter_app. by rewrite Ha, Hb.
  - rewrite last_app. destruct (last b); done.
Qed.

Lemma part_nil : part [] [].
Proof. split; done || constructor. Qed.

Lemma part_mjoin {A} (f : A -> option (list str)) (h : A -> list str) l :
  (forall x ls, x ∈ l -> f x = Some ls -> part (h x) ls) -> forall xs, mapM f l = Some xs -> part (l ≫= h) (mjoin xs).
Proof.
  induction l as [|x l IH]; intros Hf xs.
  - intros [= <-]. apply part_nil.
  - cbn [mapM]. destruct (f x) as [ls|] eqn:E; [|done]. simpl. destruct (mapM f l) as [xs'|] eqn:E'; [|done]. simpl. intros [= <-].
    cbn [mjoin list_join mbind list_bind]. apply part_app; [apply Hf; [left|done]|]. apply IH; [|done]. intros y ls' Hy. apply Hf. by right.
Qed.

(** A table: rows of one width, then a blank line. *)
Definition table_of (w : nat) (l : str) : Prop := is_row l = true /\ length (read_cells [] l) = w /\ unbroken l.

Lemma part_table w rows : Forall (table_of w) rows -> part [] (rows ++ [[]]).
Proof.
  intros H. assert (Hr : forall w', w' = None \/ w' = Some w -> rectangular w' (rows ++ [[]]) = true).
  { induction H as [|l rows (Hl & Hw & _) H IH]; intros w' Hw'; [by destruct Hw' as [-> | ->]|]. cbn [app rectangular]. rewrite Hl, Hw.
    destruct Hw' as [-> | ->]; [|rewrite Nat.eqb_refl]; apply IH; by right. }
  split; [| |apply Hr; by left|by rewrite last_snoc].
  - apply Forall_app. split; [|repeat constructor]. eapply Forall_impl; [exact H|]. by intros l (_ & _ & ?).
  - clear Hr. induction H as [|l rows (Hl & _ & _) H IH]; [done|]. cbn [app List.filter].
    by rewrite (row_not_heading l).
Qed.

Lemma part_line l : unbroken l -> is_row l = false -> is_heading l = false -> part [] [l].
Proof. intros U R H. split; simpl; rewrite ?R, ?H; try done. by repeat constructor. Qed.
Lemma part_heading l : unbroken l -> is_heading l = true -> part [l] [l].
Proof.
  intros U H. assert (R : is_row l = false) by (destruct (is_row l) eqn:R; [apply row_not_heading in R; congruence|done]).
  split; simpl; rewrite ?R, ?H; try done. by repeat constructor.
Qed.
Lemma part_cons h hs l ls : part h [l] -> part hs ls -> part (h ++ hs) (l :: ls).
Proof. intros H1 H2. exact (part_app _ _ _ _ H1 H2). Qed.

(** ** The parts of the document *)

Lemma rates_nonneg profile w q : 0 <= lower (row_rates profile w q) /\ 0 <= higher (row_rates profile w q).
Proof.
  unfold row_rates, declared_rates. destruct profile; [|simpl; lia].
  repeat match goal with |- context [if ?b then _ else _] => destruct b end; simpl; lia.
Qed.

Lemma table_of_row n cells : Forall quiet cells -> length cells = S n -> table_of (S (S (S n))) (row cells).
Proof.
  intros Hq Hn. split; [done|]. split; [|by apply unbroken_row]. rewrite read_row_cells; [|done|by destruct cells].
  cbn [length]. rewrite length_app, length_fmap, Hn. simpl. lia.
Qed.

Lemma table_of_check w l : is_row l && (length (read_cells [] l) =? w)%nat && forallb (fun c => negb (10 =? c)) l = true -> table_of w l.
Proof. rewrite !andb_true_iff, Nat.eqb_eq. intros [[? ?] ?%unbroken_check]. done. Qed.

Lemma quiet_results_row p s w q rates any line : 0 <= lower rates -> 0 <= higher rates ->
  results_row p s w q rates any = Some line -> table_of 12 line.
Proof.
  intros Hl Hh. unfold results_row. cbv zeta.
  destruct (throughput_cells _ _ _ _) as [[cells d]|] eqn:Et; [|done]. apply quiet_throughput in Et as (Hn & Hc & Hd).
  set (sys := match not_sustained p !! _ with Some _ => _ | None => _ end). destruct sys as [sy|] eqn:Es; [|done].
  assert (Hs : quiet sy).
  { subst sys. destruct (not_sustained p !! _); [injection Es as <-; quiet|by apply quiet_syscalls in Es]. }
  clear Es sys. intros [= <-].
  match goal with |- table_of _ (row ?l) => assert (Hq : Forall quiet l /\ length l = 10%nat) end.
  { split; [|simpl; rewrite length_app, Hn; done]. apply Forall_cons. split; [case_bool_decide; [by apply quiet_check|quiet]|].
    apply Forall_app. split; [done|]. rewrite !Forall_cons. split_and!; try quiet; repeat case_match; quiet. }
  destruct Hq as [Hq Hlen]. by apply table_of_row.
Qed.

Lemma quiet_connections_row p s w line : connections_row p s w = Some line -> table_of 5 line.
Proof.
  unfold connections_row. intros H. assert (Hc : exists a b, line = row [server_label s; a; b] /\ quiet a /\ quiet b).
  { destruct (passing p !! _) as [runs|]; [|injection H as <-; exists FAILED, FAILED; split_and!; quiet].
    destruct (metric_cells runs) as [[m sp]|] eqn:E; [|done]. injection H as <-. apply quiet_metric in E as [? ?]. by exists m, sp. }
  destruct Hc as (a & b & -> & Ha & Hb). assert (Hq : Forall quiet [server_label s; a; b]) by (rewrite !Forall_cons; split_and!; quiet).
  by apply table_of_row.
Qed.

Lemma all_rows_table (f : ServerKind -> option str) n servers rows : (forall s l, f s = Some l -> table_of n l) ->
  all_rows f servers = Some rows -> Forall (table_of n) rows.
Proof.
  intros Hf. unfold all_rows. revert rows. induction servers as [|s servers IH]; intros rows; [by intros [= <-]|].
  cbn [mapM]. destruct (f s) as [l|] eqn:E; [|done]. simpl. destruct (mapM f servers) as [ls|]; [|done]. simpl.
  intros [= <-]. constructor; eauto.
Qed.

Definition results_heading (w q : Z) : str := lit "## Results " ++ dash ++ lit " " ++ dec w ++ lit " worker(s), QoS " ++ dec q.
Definition connections_heading (w : Z) : str := lit "## Connections per second " ++ dash ++ lit " " ++ dec w ++ lit " worker(s)".

Lemma results_head_table rates : 0 <= lower rates -> 0 <= higher rates -> table_of 12 (results_head rates).
Proof.
  intros Hl Hh. set (cells := [lit "Server"; lit "msgs/s"; lit "spread"; lit "server CPU %"; lit "generator CPU %";
    lit "p99 @" ++ dec (lower rates) ++ lit " msgs/s (" ++ micro ++ lit "s)"; lit "p99 @" ++ dec (higher rates) ++ lit " msgs/s (" ++ micro ++ lit "s)";
    lit "open-loop " ++ at_least ++ lit " (msgs/s)"; lit "syscalls/msg @" ++ dec (higher rates) ++ lit " msgs/s"; lit "driver proof"]).
  assert (E : results_head rates = row cells).
  { unfold results_head, row, cells. cbn [join]. rewrite <- !app_assoc. reflexivity. }
  assert (Hq : Forall quiet cells) by (unfold cells; rewrite !Forall_cons; split_and!; quiet).
  rewrite E. by apply table_of_row.
Qed.

Lemma results_part profile p any w q ls : 0 <= w -> 0 <= q -> results_lines profile p any w q = Some ls -> part [results_heading w q] ls.
Proof.
  intros Hw Hq. assert (Hu : unbroken (results_heading w q)) by (unfold results_heading; unbroken). unfold results_lines. cbv zeta. destruct (rates_nonneg profile w q) as [Hl Hh]. set (rates := row_rates profile w q) in *.
  destruct (all_rows _ _) as [rows|] eqn:E; [|done]. intros [= <-].
  apply (all_rows_table _ 12) in E; [|intros s l; by apply quiet_results_row].
  apply (part_cons [results_heading w q] []); [apply part_heading; [exact Hu|reflexivity]|].
  apply (part_cons [] []); [by apply part_line; [constructor|..]|].
  change (part [] (([results_head rates; lit "|---|---|---|---|---|---|---|---|---|---|"] ++ rows) ++ [[]])).
  apply (part_table 12), Forall_app. split; [|exact E]. rewrite !Forall_cons.
  split_and!; [by apply results_head_table|by apply table_of_check|constructor].
Qed.

Lemma connections_part p w ls : 0 <= w -> connections_lines p w = Some ls -> part [connections_heading w] ls.
Proof.
  intros Hw. assert (Hu : unbroken (connections_heading w)) by (unfold connections_heading; unbroken). unfold connections_lines. destruct (all_rows _ _) as [rows|] eqn:E; [|done]. intros [= <-].
  apply (all_rows_table _ 5) in E; [|intros s l; by apply quiet_connections_row].
  apply (part_cons [connections_heading w] []); [apply part_heading; [exact Hu|reflexivity]|].
  apply (part_cons [] []); [by apply part_line; [constructor|..]|].
  change (part [] (([lit "| Server | conn/s | spread |"; lit "|---|---|---|"] ++ rows) ++ [[]])).
  apply (part_table 5), Forall_app. split; [|exact E]. rewrite !Forall_cons. split_and!; [by apply table_of_check..|constructor].
Qed.

Definition worker_headings (w : Z) : list str := (RECORDED_QOS ≫= (fun q => [results_heading w q])) ++ [connections_heading w].

Lemma worker_part profile p any w ls : 0 <= w -> worker_lines profile p any w = Some ls -> part (worker_headings w) ls.
Proof.
  intros Hw. unfold worker_lines. destruct (mapM _ _) as [results|] eqn:E; [|done].
  destruct (connections_lines p w) as [conns|] eqn:Ec; [|done]. intros [= <-]. apply part_app; [|by apply connections_part in Ec].
  eapply (part_mjoin _ (fun q => [results_heading w q])); [|exact E]. intros q l Hq. apply results_part; [done|].
  unfold RECORDED_QOS in Hq. apply list_elem_of_In in Hq. simpl in Hq. lia.
Qed.

(** *** The environment *)

(** The rows a reader finds, by field. *)
Definition disclosed_rows (sample : RunRecord) (method_label : str) : list (str * str) :=
  let env := r_env sample in
  [(lit "Host", plain (host_name env));
   (lit "CPU model", plain (cpu_model env));
   (lit "Kernel", plain (kernel env) ++ lit " (WSL2 under the Hyper-V scheduler; hybrid P/E cores are not exposed by WSL)");
   (lit "CPU sets", lit "server `" ++ plain (cpus_server (r_cpu_sets sample)) ++ lit "`, generator `"
                    ++ plain (cpus_generator (r_cpu_sets sample)) ++ lit "`");
   (lit "Commit", plain (git_sha env));
   (lit "Build", if bool_decide (r_build sample = Release) then lit "release" else lit "debug");
   (lit "Syscall method", method_label)]
  ++ ((fun t => (lit "Tool `" ++ plain t.1 ++ lit "`", plain t.2)) <$> tools env).

Definition two_cells (fv : str * str) : list str := [[]; padded fv.1; padded fv.2; []].

(** The written rows of the table. *)
Definition environment_rows (sample : RunRecord) (method_label : str) : list str :=
  take (7 + length (tools (r_env sample))) (drop 4 (environment_lines sample method_label)).

Lemma environment_lines_rows sample m :
  environment_lines sample m =
  [lit "## Environment"; []] ++ ([lit "| Field | Value |"; lit "|---|---|"] ++ environment_rows sample m) ++ [[]].
Proof.
  unfold environment_rows, environment_lines. cbn [app drop take Nat.add]. do 11 f_equal.
  by rewrite take_app_length' by by rewrite length_fmap.
Qed.

(** Rows made of cells and quiet text read back. *)
Lemma read_end cur s : quiet s -> read_cells cur (s ++ lit " |") = [cur ++ s ++ lit " "; []].
Proof. intros H. rewrite read_quiet by done. change (lit " |") with (lit " |" ++ []). rewrite read_pipe. by rewrite <- app_assoc. Qed.
Lemma read_last t s : quiet s -> read_cells (lit " ") (cell t ++ s ++ lit " |") = [padded (plain t ++ s); []].
Proof. intros H. rewrite read_cell, read_end by done. unfold padded. by rewrite <- !app_assoc. Qed.
Lemma read_only t : read_cells (lit " ") (cell t ++ lit " |") = [padded (plain t); []].
Proof. rewrite <- (app_nil_l (lit " |")), read_last by constructor. by rewrite app_nil_r. Qed.

Lemma read_tool path version :
  read_cells [] (lit "| Tool `" ++ cell path ++ lit "` | " ++ cell version ++ lit " |") =
  two_cells (lit "Tool `" ++ plain path ++ lit "`", plain version).
Proof.
  change (lit "| Tool `" ++ ?x) with (lit "|" ++ lit " Tool `" ++ x). change (read_cells [] (lit "|" ++ ?x)) with ([] :: read_cells [] x).
  rewrite read_quiet by quiet. rewrite read_cell. change (lit "` | " ++ ?x) with (lit "`" ++ lit " |" ++ lit " " ++ x).
  rewrite read_quiet by quiet. rewrite read_pipe, (read_quiet (lit " ")) by quiet. cbn [app]. rewrite read_only.
  unfold two_cells, padded. cbn [fst snd]. by rewrite <- !app_assoc.
Qed.

Lemma read_cpu_sets server generator :
  read_cells [] (lit "| CPU sets | server `" ++ cell server ++ lit "`, generator `" ++ cell generator ++ lit "` |") =
  two_cells (lit "CPU sets", lit "server `" ++ plain server ++ lit "`, generator `" ++ plain generator ++ lit "`").
Proof.
  change (lit "| CPU sets | server `" ++ ?x) with (lit "| CPU sets | " ++ lit "server `" ++ x).
  change (read_cells [] (lit "| CPU sets | " ++ ?x)) with ([] :: padded (lit "CPU sets") :: read_cells (lit " ") x).
  rewrite read_quiet by quiet. rewrite read_cell, read_quiet by quiet. change (lit "` |") with (lit "`" ++ lit " |").
  rewrite read_cell, read_end by quiet. unfold two_cells, padded. cbn [fst snd]. by rewrite <- !app_assoc.
Qed.

Lemma environment_read sample m : quiet m -> read_cells [] <$> environment_rows sample m = two_cells <$> disclosed_rows sample m.
Proof.
  intros Hm. unfold environment_rows, environment_lines, disclosed_rows. cbn [app drop take Nat.add].
  rewrite take_app_length' by by rewrite length_fmap. rewrite !fmap_cons, <- !list_fmap_compose.
  f_equal; [exact (f_equal (fun l => [] :: padded (lit "Host") :: l) (read_only _))|].
  f_equal; [exact (f_equal (fun l => [] :: padded (lit "CPU model") :: l) (read_only _))|].
  f_equal; [exact (f_equal (fun l => [] :: padded (lit "Kernel") :: l)
    (read_last _ (lit " (WSL2 under the Hyper-V scheduler; hybrid P/E cores are not exposed by WSL)") ltac:(quiet)))|].
  f_equal; [apply read_cpu_sets|].
  f_equal; [exact (f_equal (fun l => [] :: padded (lit "Commit") :: l) (read_only _))|].
  f_equal; [by destruct (bool_decide _)|].
  f_equal; [exact (f_equal (fun l => [] :: padded (lit "Syscall method") :: l) (read_end (lit " ") m Hm))|].
  apply list_fmap_ext. intros _ [path version] _. apply read_tool.
Qed.

Lemma environment_part sample m : quiet m -> part [lit "## Environment"] (environment_lines sample m).
Proof.
  intros Hm. rewrite environment_lines_rows. apply (part_app [_] []).
  { apply (part_cons [_] []); [by apply part_heading; [apply unbroken_check|]|by apply part_line; [constructor|..]]. }
  apply (part_table 4), Forall_app. split; [rewrite !Forall_cons; split_and!; [by apply table_of_check..|constructor]|].
  apply Forall_forall. intros l Hl. split_and!.
  - unfold environment_rows, environment_lines in Hl. cbn [app drop take Nat.add] in Hl.
    rewrite take_app_length' in Hl by by rewrite length_fmap. rewrite !elem_of_cons in Hl.
    destruct_or! Hl; try (subst l; reflexivity). apply list_elem_of_fmap in Hl as (t & -> & _). reflexivity.
  - pose proof (list_elem_of_fmap_2 (read_cells []) _ _ Hl) as Hr. rewrite environment_read in Hr by done.
    apply list_elem_of_fmap in Hr as (? & -> & _). done.
  - unfold environment_rows, environment_lines in Hl. cbn [app drop take Nat.add] in Hl.
    rewrite take_app_length' in Hl by by rewrite length_fmap. rewrite !elem_of_cons in Hl.
    destruct_or! Hl; try (subst l; try case_bool_decide; unbroken). apply list_elem_of_fmap in Hl as (t & -> & _). unbroken.
Qed.

(** *** The whole *)

Lemma quiet_method_label counted : quiet (syscalls_method_label counted).
Proof.
  unfold syscalls_method_label. assert (H : Forall quiet (published_syscall_methods counted)).
  { unfold published_syscall_methods. rewrite !Forall_app. split_and!; (destruct (existsb _ _); constructor); quiet; constructor. }
  destruct (published_syscall_methods counted) as [|m ms]; [quiet|]. cbv zeta. case_bool_decide; quiet.
Qed.

Lemma rate_list_quiet profile : Forall quiet (rate_list profile).
Proof.
  unfold rate_list. apply Forall_bind, Forall_forall. intros w Hw. apply Forall_fmap, Forall_forall. intros q Hq. unfold compose. cbv beta zeta.
  destruct (rates_nonneg profile w q). assert (0 <= w /\ 0 <= q) as [? ?].
  { apply list_elem_of_In in Hw, Hq. simpl in Hw, Hq. lia. }
  quiet.
Qed.

Lemma constants_nonneg profile : let c := for_profile profile in 0 <= warmup_secs c /\ 0 <= window_secs c /\ 0 <= repetitions c.
Proof. destruct profile; simpl; lia. Qed.

Lemma method_part profile any : part [lit "## Method"] (method_lines profile any).
Proof.
  pose proof (constants_nonneg profile) as (H1 & H2 & H3). pose proof (rate_list_quiet profile) as Hr.
  assert (0 <= CONNECTIONS /\ 0 <= Z.of_nat PAYLOAD_BYTES /\ 0 <= QOS1_WINDOW) as (H4 & H5 & H6) by done.
  unfold method_lines. cbv zeta. set (c := for_profile profile) in *. set (rates := rate_list profile) in *. clearbody c rates.
  split; [|destruct any; reflexivity|destruct any; reflexivity|destruct any; reflexivity].
  rewrite !Forall_cons. split_and!; [unbroken..| |unbroken|constructor].
  destruct any; unbroken.
Qed.

Lemma head_part smoke : part [lit "# Benchmarks"] (head_lines smoke).
Proof.
  unfold head_lines. split; [|destruct smoke; reflexivity..]. apply Forall_app.
  split; [rewrite !Forall_cons; split_and!; unbroken; constructor|]. destruct smoke; [|constructor].
  rewrite !Forall_cons; split_and!; unbroken; constructor.
Qed.

Lemma sign_off_part : part [lit "## Sign-off"] sign_off_lines.
Proof.
  split; [|reflexivity..]. unfold sign_off_lines. assert (0 <= STEADY_STATE_GROWTH_LIMIT_NS / NS_PER_MS) by done.
  rewrite !Forall_cons. split_and!; [unbroken..|constructor].
Qed.

(** The headings of every document. *)
Definition headings : list str :=
  [lit "# Benchmarks"] ++ [lit "## Environment"] ++ [lit "## Method"] ++ (RECORDED_WORKERS ≫= worker_headings) ++ [lit "## Sign-off"].

(** (C31) Text of the records cannot change the structure of a document,
    whatever line breaks, pipes or backslashes a host name, a kernel release,
    a CPU list or a tool version carries: the written text splits into exactly
    the lines of the document, its headings are the fixed ones in their order,
    the rows of every table have one number of cells, and a reader that cuts
    the rows of the environment table at unescaped pipes finds every disclosed
    text again with its control characters as spaces. *)
Theorem document_structure smoke records sample by_key p expected ls :
  document smoke records sample by_key p expected = Some ls ->
  let m := syscalls_method_label (published_counted by_key p expected) in
  split_char 10 (written ls) = ls ++ [[]] /\
  List.filter is_heading ls = headings /\
  rectangular None ls = true /\
  (exists a b, ls = a ++ environment_rows sample m ++ b) /\
  read_cells [] <$> environment_rows sample m = two_cells <$> disclosed_rows sample m.
Proof.
  unfold document. cbv zeta. set (profile := if smoke then Smoke else Recorded). set (any := existsb _ records).
  set (m := syscalls_method_label _). assert (Hm : quiet m) by apply quiet_method_label.
  destruct (mapM _ _) as [workers|] eqn:E; [|done]. intros Hls. apply (inj Some) in Hls. subst ls.
  assert (Hp : part headings (head_lines smoke ++ environment_lines sample m ++ method_lines profile any ++ mjoin workers ++ sign_off_lines)).
  { apply part_app; [apply head_part|]. apply part_app; [by apply environment_part|]. apply part_app; [apply method_part|].
    apply part_app; [|apply sign_off_part]. eapply (part_mjoin _ worker_headings); [|exact E]. intros w l Hw. apply worker_part.
    apply list_elem_of_In in Hw. simpl in Hw. lia. }
  split_and!; [by apply split_written, (pt_unbroken headings)|by apply pt_heads|by apply (pt_tables headings)| |by apply environment_read].
  rewrite environment_lines_rows. eexists (head_lines smoke ++ [lit "## Environment"; []; lit "| Field | Value |"; lit "|---|---|"]), _.
  by rewrite <- !app_assoc.
Qed.

(** The host name of the sample document, read from its table. *)
Lemma document_structure_witness :
  let r := SampleDocument.run (connections_config 1 Uring) 1 in
  exists ls, document true [r] r ∅ nothing_published [] = Some ls /\ List.filter is_heading ls = headings /\
    (read_cells [] <$> environment_rows r n_a) !! 0%nat = Some [[]; lit " Host "; lit " a|b\c # d "; []].
Proof.
  intros r. destruct (document true [r] r ∅ nothing_published []) as [ls|] eqn:E; [|vm_compute in E; discriminate E].
  exists ls. destruct (document_structure _ _ _ _ _ _ _ E) as (_ & H1 & _ & _ & H2). split; [reflexivity|]. split; [exact H1|].
  change (syscalls_method_label (published_counted ∅ nothing_published [])) with n_a in H2. rewrite H2. reflexivity.
Defined.
