(* ===== verification/MatrixSafety.v ===== *)
(** * A matrix session keeps the evidence on disk

    No run of bench/src/matrix.rs overwrites, truncates or removes a file of
    the output directory or a scratch directory that was there before: what a
    session adds are complete records under their own file names, and at most
    temporary files of its own.  The file operations are followed through the
    effects of Matrix.v with a Hoare-style predicate over a preorder on worlds. *)

From S2P Require Import Prelude Text F64 Api Wire Recorder Generator Pacer RunRecord Analysis Sorting Verdict Matrix.
#[local] Open Scope matrix_scope.

(** ** Effects and relations on worlds *)

(** Every run of the effect moves the world along [R], whatever it answers. *)
Definition moves (R : World -> World -> Prop) {A} (c : Mx A) : Prop := forall w, R w (c w).2.

Create HintDb moves.

Section Moves.
Context (R : World -> World -> Prop) `{!PreOrder R}.

Lemma moves_ret {A} (a : A) : moves R (mret a).
Proof. intros w. reflexivity. Qed.
Lemma moves_fail {A} e : moves R (@mfail A e).
Proof. intros w. reflexivity. Qed.
Lemma moves_bind {A B} (c : Mx A) (k : A -> Mx B) : moves R c -> (forall a, moves R (k a)) -> moves R (mbind c k).
Proof.
  intros Hc Hk w. unfold mbind. specialize (Hc w). destruct (c w) as [[a|e] w']; simpl in *; [|done].
  etransitivity; [exact Hc|apply Hk].
Qed.
End Moves.

(** Only the faults and the readings of the flag advance. *)
Definition quiet (w w' : World) : Prop := files w' = files w /\ scratch w' = scratch w.

#[export] Instance quiet_preorder : PreOrder quiet.
Proof. split; [done|]. intros w1 w2 w3 [? ?] [? ?]. split; congruence. Qed.

Lemma next_fault_quiet w f w' : next_fault w = (f, w') -> quiet w w'.
Proof. unfold next_fault. destruct (faults w); intros; by simplify_eq. Qed.

Ltac fault E :=
  match goal with
  | |- context [next_fault ?w] =>
      let f := fresh "f" in let v := fresh "v" in
      destruct (next_fault w) as [f v] eqn:E; apply next_fault_quiet in E
  end.

Lemma load_cancel_quiet : moves quiet load_cancel.
Proof. intros w. unfold load_cancel. by destruct (cancels w). Qed.
Lemma io_step_quiet what : moves quiet (io_step what).
Proof. intros w. unfold io_step. fault E. by destruct f. Qed.
Lemma inspect_quiet path p : moves quiet (inspect path p).
Proof. intros w. unfold inspect. fault E. by destruct f as [[]|]. Qed.
#[export] Hint Resolve moves_ret moves_fail load_cancel_quiet io_step_quiet inspect_quiet : moves.

(** Follow the structure of an effect. *)
Ltac moves_step :=
  match goal with
  | |- moves _ (mbind _ _) => apply moves_bind; [typeclasses eauto| |intros ?]
  | |- moves _ (let '(_, _) := ?p in _) => destruct p
  | |- moves _ (match ?x with _ => _ end) => destruct x
  | |- moves _ _ => solve [eauto with moves typeclass_instances]
  end.

Lemma read_one_quiet name body : moves quiet (read_one name body).
Proof. unfold read_one. repeat moves_step. Qed.
#[export] Hint Resolve read_one_quiet : moves.

Lemma read_entries_quiet l : moves quiet (read_entries l).
Proof. induction l as [|[name body] l IH]; simpl; repeat moves_step. Qed.

Lemma read_records_quiet : moves quiet read_records.
Proof.
  intros w. unfold read_records. revert w.
  enough (H : forall l, moves quiet (mbind (io_step (lit "read dir")) (fun _ => read_entries l))) by (intros w; apply H).
  intros l. repeat moves_step. apply read_entries_quiet.
Qed.

Lemma attempt_in_use_quiet spec reps : moves quiet (attempt_in_use spec reps).
Proof. unfold attempt_in_use. induction (seqZ 1 reps) as [|rep l IH]; simpl; repeat moves_step. Qed.
#[export] Hint Resolve read_entries_quiet read_records_quiet attempt_in_use_quiet : moves.

Lemma free_attempt_quiet spec reps : moves quiet (free_attempt spec reps).
Proof.
  intros w. unfold free_attempt. generalize (S (size (files w) + size (scratch w))). intros fuel. revert w.
  change (moves quiet (free_attempt_from fuel spec reps)). revert spec.
  induction fuel as [|fuel IH]; intros spec; simpl; repeat moves_step.
Qed.
#[export] Hint Resolve free_attempt_quiet : moves.

(** ** What a session may do to the directories *)

(** A file of the output directory is a record under its own name, or a
    temporary file. *)
Definition session_file (name : str) (body : option RunRecord) : Prop :=
  exists r, (name = file_name r /\ body = Some r) \/ name = tmp_name (file_name r).

Record kept (w w' : World) : Prop := {
  kept_files : files w ⊆ files w';
  kept_scratch : scratch w ⊆ scratch w';
  kept_new : forall name body, files w' !! name = Some body -> files w !! name = Some body \/ session_file name body
}.

#[export] Instance kept_preorder : PreOrder kept.
Proof.
  split; [by constructor; auto|]. intros w1 w2 w3 [F S N] [F' S' N']. constructor.
  - by transitivity (files w2).
  - by transitivity (scratch w2).
  - intros name body H. apply N' in H as [H|H]; [by apply N in H|by right].
Qed.

Lemma quiet_kept w w' : quiet w w' -> kept w w'.
Proof. intros [F S]. constructor; rewrite ?F, ?S; auto. Qed.

Lemma moves_kept {A} (c : Mx A) : moves quiet c -> moves kept c.
Proof. intros H w. apply quiet_kept, H. Qed.
#[export] Hint Resolve moves_kept : moves.

(** ** Publishing *)

(** The world between the creation of the temporary file and its removal. *)
Record writing (record : RunRecord) (w v : World) : Prop := {
  wr_scratch : scratch v = scratch w;
  wr_files : exists body, files v = <[tmp_name (file_name record) := body]> (files w)
}.

Lemma tmp_name_ne name : tmp_name name <> name.
Proof. unfold tmp_name. intros E. apply (f_equal length) in E. rewrite length_app in E. simpl in E. lia. Qed.

Lemma writing_kept record w v : files w !! tmp_name (file_name record) = None -> writing record w v -> kept w v.
Proof.
  intros Hn [S [body F]]. constructor; rewrite ?F, ?S; [by apply insert_subseteq|done|].
  intros name b [[<- <-]|[_ ?]]%lookup_insert_Some; [|by left]. right. exists record. by right.
Qed.

Lemma remove_kept record w v : files w !! tmp_name (file_name record) = None -> writing record w v ->
  kept w (remove_file (tmp_name (file_name record)) v).
Proof.
  intros Hn Hw. unfold remove_file. fault E. destruct E as [EF ES]. destruct Hw as [S [body F]], f as [e|].
  - apply (writing_kept record); [done|]. constructor; [congruence|]. exists body. congruence.
  - constructor; simpl; [| |].
    + rewrite EF, F, delete_insert_id; done.
    + by rewrite ES, S.
    + intros name b. rewrite EF, F, delete_insert_id by done. by left.
Qed.

(** A step of the write: either it goes on with the temporary file in place, or
    the write has failed with everything else kept. *)
Lemma write_step_spec what record cleanup w v res v' : files w !! tmp_name (file_name record) = None ->
  writing record w v -> write_step what (file_name record) cleanup v = (res, v') ->
  match res with Ok _ => writing record w v' | Err _ => kept w v' end.
Proof.
  intros Hn Hw. unfold write_step. fault E.
  assert (Hw' : writing record w v0).
  { destruct E as [EF ES], Hw as [S [body F]]. constructor; [congruence|]. exists body. congruence. }
  destruct f as [e|]; intros [= <- <-]; [|done]. destruct cleanup; [by apply remove_kept|by apply (writing_kept record)].
Qed.

Lemma link_kept record w v : files w !! tmp_name (file_name record) = None -> writing record w v ->
  files v !! file_name record = None ->
  kept w (remove_file (tmp_name (file_name record)) (set_files (<[file_name record := Some record]> (files v)) v)).
Proof.
  intros Hn Hw Hf. destruct Hw as [S [body F]].
  set (w1 := set_files (<[file_name record := Some record]> (files w)) w).
  assert (H1 : kept w w1).
  { rewrite F, lookup_insert_ne in Hf by apply tmp_name_ne.
    constructor; simpl; [by apply insert_subseteq|done|].
    intros name b [[<- <-]|[_ ?]]%lookup_insert_Some; [|by left]. right. exists record. by left. }
  transitivity w1; [exact H1|]. apply remove_kept.
  - simpl. rewrite lookup_insert_ne; [done|]. intros E. by apply (tmp_name_ne (file_name record)).
  - constructor; simpl; [done|]. exists body. rewrite F.
    apply insert_insert_ne. intros E. by apply (tmp_name_ne (file_name record)).
Qed.

Lemma write_record_kept record w : kept w (write_record record w).2.
Proof.
  unfold write_record. fault E. apply quiet_kept in E as K. destruct f as [[]|]; try exact K.
  destruct (files v !! tmp_name (file_name record)) as [b|] eqn:Hn; simpl; [done|].
  etransitivity; [exact K|]. clear E K.
  set (v1 := set_files _ v).
  assert (W : writing record v v1) by (constructor; [done|by exists None]).
  destruct (write_step _ _ _ v1) as [[u|e] v2] eqn:E2; apply (write_step_spec _ _ _ v) in E2; try done; clear W.
  destruct (write_step (lit "flush") _ true v2) as [[u'|e] v3] eqn:E3; apply (write_step_spec _ _ _ v) in E3; try done.
  set (v4 := set_files _ v3).
  assert (W : writing record v v4).
  { destruct E3 as [S [body F]]. constructor; [done|]. exists (Some record). simpl. rewrite F. by apply insert_insert_eq. }
  clearbody v4. clear E2 E3 v1 v2 v3.
  destruct (write_step _ _ _ v4) as [[u2|e] v5] eqn:E5; apply (write_step_spec _ _ _ v) in E5; try done; clear W.
  destruct (write_step _ _ _ v5) as [[u3|e] v6] eqn:E6; apply (write_step_spec _ _ _ v) in E6; try done; clear E5.
  fault E. assert (W : writing record v v0).
  { destruct E as [EF ES], E6 as [S [body F]]. constructor; [congruence|]. exists body. congruence. }
  destruct f as [[]|]; simpl; try by apply remove_kept.
  destruct (files v0 !! file_name record) as [b|] eqn:Hf; simpl; [by apply remove_kept|by apply link_kept].
Qed.

Lemma remove_file_other name other w : name <> other -> files (remove_file name w) !! other = files w !! other.
Proof.
  intros Hne. unfold remove_file. fault E. destruct E as [EF _]. destruct f; simpl; rewrite EF; [done|].
  by apply lookup_delete_ne.
Qed.

(** A write that succeeds has published the record. *)
Lemma write_record_ok record w u w' : write_record record w = (Ok u, w') -> files w' !! file_name record = Some (Some record).
Proof.
  unfold write_record. intros H. repeat (case_match; simplify_eq; try done).
  rewrite remove_file_other by apply tmp_name_ne. repeat (case_match; simplify_eq; try done). apply lookup_insert_eq.
Qed.

(** ** The executor

    What the matrix relies on of the run it is given: the record names the
    specification it ran, the output directory is not the executor's, no
    scratch directory is removed, and a run that found its scratch directory in
    use says so in the record. *)
Class Executor (run : RunSpec -> World -> RunRecord * World) : Prop := {
  run_key : forall spec w, key (run spec w).1 = key_of spec;
  run_attempt : forall spec w, r_attempt (run spec w).1 = sp_attempt spec;
  run_repetition : forall spec w, r_repetition (run spec w).1 = sp_repetition spec;
  run_files : forall spec w, files (run spec w).2 = files w;
  run_keeps_scratch : forall spec w, scratch w ⊆ scratch (run spec w).2;
  run_owns_scratch : forall spec w, created_own_scratch (run spec w).1 = true -> stem_for spec ∉ scratch w
}.

(** The record a run names carries the run's file name. *)
Lemma same_file_name r r' : key r = key r' -> r_attempt r = r_attempt r' -> r_repetition r = r_repetition r' ->
  file_name r = file_name r'.
Proof. unfold key, file_name. intros [= -> -> -> -> ->] -> ->. done. Qed.

Section Kept.
Context (run : RunSpec -> World -> RunRecord * World) `{!Executor run}.

Lemma run_file_name spec w c : file_name (set_cancelled (run spec w).1 c) = file_name (build_minimal_record spec).
Proof. apply same_file_name; simpl; [apply run_key|apply run_attempt|apply run_repetition]. Qed.

Lemma run_kept spec : moves kept (run_spec run spec).
Proof.
  intros w. unfold run_spec. pose proof (run_files spec w) as F. pose proof (run_keeps_scratch spec w) as S.
  destruct (run spec w) as [r w']. simpl in *. constructor; rewrite ?F; auto.
Qed.

Lemma discard_kept record w w' : kept w w' -> str_remove (lit ".json") (file_name record) ∉ scratch w ->
  kept w (discard_scratch record w').
Proof.
  intros [F S N] Hn. unfold discard_scratch. fault E. destruct E as [EF ES].
  destruct f; constructor; simpl; rewrite ?EF, ?ES; auto. set_solver.
Qed.

Lemma dispatch_kept spec : moves kept (dispatch run spec).
Proof.
  unfold dispatch. apply moves_bind; [typeclasses eauto|apply moves_kept, load_cancel_quiet|intros []]; [apply moves_fail; typeclasses eauto|].
  intros w. unfold mbind at 1. pose proof (run_kept spec w) as K. unfold run_spec in *.
  pose proof (run_owns_scratch spec w) as O. pose proof (run_file_name spec w) as FN.
  destruct (run spec w) as [r w1]. simpl in K, O, FN |- *.
  unfold mbind. pose proof (load_cancel_quiet w1) as Q. destruct (load_cancel w1) as [[c|e] w2]; simpl in Q |- *; apply quiet_kept in Q;
    [|by transitivity w1].
  assert (K2 : kept w w2) by (by transitivity w1).
  pose proof (write_record_kept (set_cancelled r c) w2) as K3.
  destruct (write_record (set_cancelled r c) w2) as [[u|e] w3]; simpl in K3.
  - assert (K4 : kept w w3) by (by transitivity w2). by destruct (survivors _), c.
  - assert (K4 : kept w w3) by (by transitivity w2).
    destruct (created_own_scratch (set_cancelled r c)) eqn:EC; simpl; [|done].
    apply discard_kept; [done|]. rewrite FN. by apply O.
Qed.
#[local] Hint Resolve dispatch_kept : moves.

Lemma run_round_kept plan : moves kept (run_round run plan).
Proof. induction plan as [|[spec rep] plan IH]; simpl; repeat moves_step. Qed.
#[local] Hint Resolve run_round_kept : moves.

Context (stop : ConfigKey -> Mx (option (ConfigKey * Exhaustion))) (stop_quiet : forall k, moves quiet (stop k))
        (constants : ProtocolConstants).
#[local] Hint Resolve stop_quiet : moves.

Lemma stop_checks_quiet keys : forall st, moves quiet (stop_checks stop keys st).
Proof. induction keys as [|k keys IH]; intros st; simpl; repeat moves_step. Qed.

Lemma active_specs_quiet specs keys : forall next left, moves quiet (active_specs constants specs keys next left).
Proof. induction keys as [|k keys IH]; intros next left; simpl; repeat moves_step. Qed.
#[local] Hint Resolve stop_checks_quiet active_specs_quiet : moves.

Lemma round_of_kept specs st : moves kept (round_of run stop constants specs st).
Proof. unfold round_of. repeat moves_step. Qed.
#[local] Hint Resolve round_of_kept : moves.

Lemma rounds_kept n specs : forall st, moves kept (rounds run stop constants n specs st).
Proof. induction n as [|n IH]; intros st; simpl; repeat moves_step. Qed.
#[local] Hint Resolve rounds_kept : moves.

Lemma run_configs_with_stop_kept specs remaining : moves kept (run_configs_with_stop run stop constants specs remaining).
Proof. unfold run_configs_with_stop. repeat moves_step. Qed.
End Kept.

#[export] Hint Resolve run_configs_with_stop_kept : moves.

Lemma stop_on_exhaustion_quiet constants k : moves quiet (stop_on_exhaustion constants k).
Proof. unfold stop_on_exhaustion. repeat moves_step. Qed.

Lemma session_plan_quiet proc spec host : moves quiet (session_plan proc spec host).
Proof. unfold session_plan. repeat moves_step. Qed.
#[export] Hint Resolve stop_on_exhaustion_quiet session_plan_quiet : moves.

Section Session.
Context (run : RunSpec -> World -> RunRecord * World) `{!Executor run} (spec : MatrixSpec) (host : HostSetup)
        (plan : gmap ConfigKey ResumeState).

Lemma configs_of_kept specs : moves kept (configs_of run spec plan specs).
Proof. apply run_configs_with_stop_kept; [done|]. intros k. apply moves_ret. typeclasses eauto. Qed.
#[local] Hint Resolve configs_of_kept : moves.

Lemma open_loop_stage_kept servers w q rates o : moves kept (open_loop_stage run spec host plan servers w q rates o).
Proof. unfold open_loop_stage. repeat moves_step. Qed.
#[local] Hint Resolve open_loop_stage_kept : moves.

Lemma row_groups_kept servers w qs : forall o, moves kept (row_groups run spec host plan servers w qs o).
Proof. induction qs as [|q qs IH]; intros o; simpl; unfold row_group; repeat moves_step. Qed.
#[local] Hint Resolve row_groups_kept : moves.

Lemma worker_groups_kept ws : forall o, moves kept (worker_groups run spec host plan ws o).
Proof. induction ws as [|w ws IH]; intros o; simpl; unfold connections_stage; repeat moves_step. Qed.
End Session.
#[export] Hint Resolve worker_groups_kept : moves.

(** A session, whatever it answers, leaves every file of the output directory
    and every scratch directory it found as they were, under every fault of the
    file system; every other file of the output directory is a complete record
    under its own file name or a temporary file. (C20) *)
Theorem session_keeps_evidence run proc spec host w : Executor run ->
  let w' := (run_matrix_with run proc spec host w).2 in
  files w ⊆ files w' /\ scratch w ⊆ scratch w' /\
  (forall name body, files w' !! name = Some body -> files w !! name = None -> session_file name body).
Proof.
  intros HE w'. assert (K : moves kept (run_matrix_with run proc spec host)) by (unfold run_matrix_with; repeat moves_step).
  destruct (K w) as [F S N]. split; [done|]. split; [done|]. intros name body H Hn. apply N in H as [H|H]; [congruence|done].
Qed.

(** An executor that creates its scratch directory, or reports that it is in
    use, and accepts the runs [good] selects. *)
Module SampleExecutor.
Definition run (good : RunSpec -> bool) (spec : RunSpec) (w : World) : RunRecord * World :=
  let m := build_minimal_record spec in
  if bool_decide (stem_for spec ∈ scratch w)
  then (set_harness_errors m [SCRATCH_REUSED_PREFIX ++ stem_for spec], w)
  else (set_verdict m (if good spec then [] else [lit "rejected"]), set_scratch ({[stem_for spec]} ∪ scratch w) w).

#[export] Instance run_executor good : Executor (run good).
Proof.
  constructor; intros spec w; unfold run; case_bool_decide; simpl; try done; set_solver.
Qed.

Definition spec : MatrixSpec :=
  {| m_profile := Smoke; m_servers := [Uring; Tokio]; m_workers := [1]; m_qos := [1]; m_resume := false |}.
Definition host : HostSetup :=
  {| bench_exe := lit "bench"; mosquitto_bin := None; h_syscalls := NoMethod; perf_bin := None; strace_bin := None;
     scratch_dir := lit "scratch"; cpu_pressure_path := lit "/proc/pressure/cpu";
     h_env := {| kernel := []; cpu_model := []; host_name := []; git_sha := []; git_dirty := false; tools := [] |};
     h_cpu_sets := {| cpus_server := []; cpus_generator := [] |} |}.
(** A leftover temporary file of the first attempt, and a link that fails. *)
Definition world : World :=
  {| files := {[lit "uring-w1-q1-throughput-a1-r2.json.tmp" := None]}; scratch := {[lit "old"]};
     faults := replicate 30 None ++ [Some (OtherError 28)]; cancels := [] |}.
Definition good (spec : RunSpec) : bool := bool_decide (sp_server spec = Uring).
End SampleExecutor.

Lemma session_keeps_evidence_witness :
  let w' := (run_matrix_with (SampleExecutor.run SampleExecutor.good) (fun _ => Ok None) SampleExecutor.spec
               SampleExecutor.host SampleExecutor.world).2 in
  files SampleExecutor.world ⊆ files w' /\ scratch SampleExecutor.world ⊆ scratch w' /\
  (forall name body, files w' !! name = Some body -> files SampleExecutor.world !! name = None -> session_file name body).
Proof. apply session_keeps_evidence. apply SampleExecutor.run_executor. Defined.

(** What the sample session answers, without faults and with them. *)
Example sample_session :
  let run f := run_matrix_with (SampleExecutor.run SampleExecutor.good) (fun _ => Ok None) SampleExecutor.spec
                 SampleExecutor.host {| files := files SampleExecutor.world; scratch := ∅; faults := f; cancels := [] |} in
  match (run []).1 with Ok o => (length (o_passed o), length (o_failed o), exit_code o) = (4%nat, 4%nat, 2) | Err _ => False end /\
  (run (replicate 30 None ++ [Some (OtherError 28)])).1 <> (run []).1 /\ size (files (run []).2) = 17%nat.
Proof. vm_compute. repeat split; done. Qed.
