(* ===== verification/RunnerSpec.v ===== *)
(** * What a run's record is worth

    Theorems on bench/src/runner.rs: the summary a run stores is the one its
    raw observations give, a harness error makes the record invalid, the entry
    of a surviving child names it to a later resume, and the runner is the
    executor the matrix relies on. *)

From S2P Require Import Prelude Text F64 Api Wire Recorder Generator Pacer RunRecord Analysis Sorting Verdict Validity Matrix Counter Runner MatrixSafety.
From Stdlib Require Import Ascii Floats.SpecFloat.
#[local] Open Scope runner_scope.

(** ** Summaries *)

(** The stored summary is the derived one, and its rates are numbers. *)
Record summarized (r : RunRecord) : Prop := {
  su_throughput : r_throughput r = d_throughput (derive r);
  su_last10s : r_last10s r = d_last10s (derive r);
  su_connections : r_connections_per_sec r = d_connections_per_sec (derive r);
  su_latency : r_latency_ns r = d_latency_ns (derive r);
  su_lateness : r_lateness_p99_ns r = d_lateness_p99_ns (derive r);
  su_count : y_count (r_syscalls r) = d_syscall_count (derive r);
  su_per_msg : y_per_msg (r_syscalls r) = d_syscalls_per_msg (derive r);
  su_unresolved : c_unresolved (r_counts r) = d_unresolved (derive r);
  su_numbers : forall x, Some x ∈ [r_throughput r; r_last10s r; r_connections_per_sec r; y_per_msg (r_syscalls r)] -> x <> S754_nan
}.

Lemma opt_f64_eq_refl o : (forall x, o = Some x -> x <> S754_nan) -> opt_f64_eq o o = true.
Proof. destruct o as [x|]; [|done]. intros H. by apply f64_eq_refl, H. Qed.

(** Judging a summarized record leaves nothing to recompute. *)
Lemma recompute_judged r reasons : summarized r -> reconcile r = Some reasons -> recompute (set_verdict r reasons) = Some [].
Proof.
  intros [H1 H2 H3 H4 H5 H6 H7 H8 Hn] Hr. unfold recompute.
  change (reconcile (set_verdict r reasons)) with (reconcile r). rewrite Hr.
  change (derive (set_verdict r reasons)) with (derive r). cbn [set_verdict r_throughput r_last10s r_connections_per_sec
    r_latency_ns r_lateness_p99_ns r_syscalls r_counts r_invalid_reasons r_valid].
  rewrite <- H1, <- H2, <- H3, <- H4, <- H5, <- H6, <- H7, <- H8.
  rewrite !opt_f64_eq_refl by (intros x E; apply Hn; rewrite <- E; set_solver).
  rewrite !bool_decide_eq_true_2, Z.eqb_refl by done. by destruct reasons.
Qed.

(** Fields the analysis does not read. *)
Lemma summarized_errors r es : summarized r -> summarized (set_harness_errors r es).
Proof. intros []. by constructor. Qed.
Lemma summarized_verdict r reasons : summarized r -> summarized (set_verdict r reasons).
Proof. intros []. by constructor. Qed.
Lemma summarized_pressure r p : summarized r -> summarized (set_host_cpu_pressure r p).
Proof. intros []. by constructor. Qed.

(** A record that recomputes clean from a summary of its own. *)
Definition clean (r : RunRecord) : Prop := summarized r /\ recompute r = Some [].

Lemma clean_pressure r p : clean r -> clean (set_host_cpu_pressure r p).
Proof. intros [S R]. split; [by apply summarized_pressure|]. exact R. Qed.
Lemma clean_judged r reasons : summarized r -> reconcile r = Some reasons -> clean (set_verdict r reasons).
Proof. intros S R. split; [by apply summarized_verdict|by apply recompute_judged]. Qed.

(** ** Rates *)

Lemma rate_number n secs : u64 n -> 0 < secs < 2 ^ 64 -> rate_of n secs <> S754_nan.
Proof.
  unfold u_range. intros Hn Hs. apply f64_div_number; [apply f64_of_Z_finite; lia|].
  destruct (Z.eq_dec n 0) as [->|]; [by left|right]. apply f64_of_Z_finite. lia.
Qed.

Lemma sum_secs_u64 tl a b : Forall u64 (counts tl) -> u64 (sum_secs tl a b).
Proof.
  intros Ht. pose proof (sum_secs_nonneg tl a b Ht) as H0. split; [done|]. revert H0. unfold sum_secs. case_match; [done|]. intros _.
  assert (Hf : forall l acc, acc < 2 ^ 64 -> foldl (sat_add 64) acc l < 2 ^ 64).
  { induction l as [|c l IH]; intros acc Hacc; [done|]. simpl. apply IH. unfold sat_add. lia. }
  by apply Hf.
Qed.

(** ** Reports and clocks *)

Record delivery_typed (d : DeliveryReport) : Prop := {
  dy_delivered : u64 (delivered d);
  dy_dropped : opt_u64 (Recorder.dropped d);
  dy_timeline : Forall u64 (counts (report_timeline d)) /\ u64 (origin_sec (report_timeline d));
  dy_latency : hist_typed (report_latency d)
}.
Record gen_typed (g : GenReport) : Prop := {
  gy_offered : u64 (gr_offered g);
  gy_scheduled : opt_u64 (gr_scheduled g) /\ opt_u64 (gr_window_scheduled g);
  gy_cycles : opt_u64 (gr_cycles_in_window g);
  gy_lateness : hist_typed (gr_lateness g) /\ u64 (gr_lateness_over_range g)
}.

(** A monotonic clock that has run for less than a century. *)
Definition clock (ns : Z) : Prop := 0 <= ns < 2 ^ 62.
Definition timing_typed (t : RunTiming) : Prop := u64 (t_origin_ns t) /\ u64 (start_ns (t_window t)) /\ u64 (end_ns (t_window t)).

Lemma empty_delivery_typed : delivery_typed empty_delivery_report.
Proof. by repeat constructor. Qed.
Lemma empty_gen_typed : gen_typed empty_gen_report.
Proof. by repeat constructor. Qed.

Lemma round_up_second_bounds ns : 0 <= ns -> ns <= round_up_second ns < ns + ONE_SECOND_NS /\ round_up_second ns mod ONE_SECOND_NS = 0.
Proof.
  intros Hn. unfold round_up_second, ONE_SECOND_NS. pose proof (Z.div_mod ns 1000000000 ltac:(lia)) as E.
  pose proof (Z.mod_pos_bound ns 1000000000 ltac:(lia)) as Hb. destruct (Z.eqb_spec (ns mod 1000000000) 0) as [H|H]; [lia|].
  split; [lia|]. by rewrite Z.mod_mul.
Qed.

Lemma profile_secs p : warmup_secs (for_profile p) <= 10 /\ 0 <= warmup_secs (for_profile p) /\ 0 < window_secs (for_profile p) <= 60.
Proof. by destruct p. Qed.

Lemma record_timing_typed p timing now : clock now -> timing_typed timing -> timing_typed (record_timing (for_profile p) timing now).
Proof.
  intros Hn Ht. unfold record_timing. case_match; [|done]. pose proof (profile_secs p) as Hp. set (c := for_profile p) in *. clearbody c.
  unfold timing_typed, harness_default_origin, u_range, clock, sat_add, GEN_LEAD_SECS in *. cbn [t_origin_ns t_window start_ns end_ns].
  set (x := Z.min (2 ^ 64 - 1) (now + _)). assert (Hx : 0 <= x < 2 ^ 63) by (unfold x, ONE_SECOND_NS; lia).
  destruct (round_up_second_bounds x) as [Hr _]; [lia|]. unfold ONE_SECOND_NS in *. lia.
Qed.

Lemma run_timing_typed p now : clock now -> timing_typed (run_timing (for_profile p) now).
Proof.
  intros Hn. unfold run_timing, timing_typed. pose proof (profile_secs p) as Hp. set (c := for_profile p) in *. clearbody c.
  cbn [t_origin_ns t_window start_ns end_ns]. unfold u_range, clock, sat_add, GEN_LEAD_SECS in *.
  set (x := Z.min (2 ^ 64 - 1) (now + _)). assert (Hx : 0 <= x < 2 ^ 63) by (unfold x, ONE_SECOND_NS; lia).
  destruct (round_up_second_bounds x) as [Hr _]; [lia|]. unfold ONE_SECOND_NS in *. lia.
Qed.

(** ** The record *)

Section Finalize.
Context (spec : RunSpec) (host : HostSetup) (errors : list str) (timing : RunTiming) (driver : option DriverFds)
        (cpu : option CpuUsage) (delivery : DeliveryReport) (gen : GenReport) (syscalls : Syscalls) (a : FinalAnswers).
Let constants := for_profile (sp_profile spec).
Let observed := observed_record spec host constants errors timing driver cpu delivery gen syscalls a.

(** The observed record with its derived fields. *)
Definition with_summary (r : RunRecord) : RunRecord :=
  let d := derive r in
  set_derived r (d_throughput d) (d_last10s d) (d_connections_per_sec d) (d_lateness_p99_ns d) (d_latency_ns d) (d_syscalls_per_msg d).

Context (Hrate : opt_u64 (sp_offered_rate spec)) (Ht : timing_typed timing) (Hd : delivery_typed delivery) (Hg : gen_typed gen).

Lemma summary_typed : record_typed (with_summary observed).
Proof.
  destruct Ht as (? & ? & ?), Hd as [? ? [? ?] ?], Hg as [? [? ?] ? [? ?]]. pose proof (profile_secs (sp_profile spec)) as Hp. fold constants in Hp.
  assert (Hh : match r_latency_ns (with_summary observed) with Some s => hist_typed (histogram s) | None => True end).
  { unfold with_summary. simpl. by destruct (is_open_loop (sp_kind spec)). }
  constructor; try done; split; unfold u_range; cbn; lia.
Qed.

Lemma derive_summary : derive (with_summary observed) = derive observed.
Proof. unfold with_summary, derive. simpl. by destruct (is_open_loop (sp_kind spec)). Qed.

Lemma derived_numbers x : Some x ∈ [d_throughput (derive observed); d_last10s (derive observed);
    d_connections_per_sec (derive observed); d_syscalls_per_msg (derive observed)] -> x <> S754_nan.
Proof.
  destruct Hd as [_ _ [Htl _] _], Hg as [_ _ Hc _]. pose proof (profile_secs (sp_profile spec)) as Hp. fold constants in Hp.
  assert (Hsecs : 0 < window_secs constants < 2 ^ 64) by lia.
  assert (Htail : 0 < Z.min SUSTAINED_TAIL_SECS (window_secs constants) < 2 ^ 64) by (unfold SUSTAINED_TAIL_SECS; lia).
  intros Hx. rewrite !elem_of_cons, elem_of_nil in Hx. destruct Hx as [Hx|[Hx|[Hx|[Hx|[]]]]]; simpl in Hx.
  - unfold derive_rates in Hx. simpl in Hx. destruct (sp_kind spec); try done. case_match; [|done]. simplify_eq/=.
    apply rate_number; [by apply sum_secs_u64|done].
  - unfold derive_rates in Hx. simpl in Hx. destruct (sp_kind spec); try done. case_match; [|done]. simplify_eq/=.
    apply rate_number; [by apply sum_secs_u64|done].
  - destruct (sp_kind spec); try done. destruct (gr_cycles_in_window gen); [|done]. simplify_eq. by apply rate_number.
  - destruct (derive_syscall_count syscalls) as [c|] eqn:Ec; [|done]. case_match eqn:E0; [done|]. simplify_eq. apply rate_number.
    + by eapply syscall_count_u64.
    + zbool. pose proof (sum_secs_u64 (report_timeline delivery) (start_sec (t_window timing)) (end_sec (t_window timing)) Htl) as Hs.
      unfold window_deliveries, u_range in *. simpl in *. lia.
Qed.

Lemma summary_summarized : y_count syscalls = derive_syscall_count syscalls -> summarized (with_summary observed).
Proof.
  intros Hcount. constructor; rewrite ?derive_summary; try done.
  intros x Hx. by apply derived_numbers.
Qed.
End Finalize.

(** ** Counter evidence *)

Lemma hbind_fst {A B} (c : He A) (k : A -> He B) : (hbind c k).1 = (k c.1).1.
Proof. unfold hbind. destruct c as [x es]. simpl. by destruct (k x). Qed.
Lemma hbind_snd {A B} (c : He A) (k : A -> He B) : (hbind c k).2 = c.2 ++ (k c.1).2.
Proof. unfold hbind. destruct c as [x es]. simpl. by destruct (k x). Qed.

(** The count a counter stores is the one its raw output gives. *)
Lemma finalize_counter_count c a : let y := (finalize_counter c a).1 in y_count y = derive_syscall_count y.
Proof. unfold finalize_counter. rewrite !hbind_fst. cbn [hret fst]. unfold derive_syscall_count. cbn. by destruct (c_kind c). Qed.

(** ** Endings *)

Definition answers_typed (a : Answers) : Prop :=
  clock (an_now a) /\ clock (fa_now (an_final a)) /\
  (forall d, an_delivery a = Some d -> delivery_typed d) /\ (forall g, an_gen_report a = Some g -> gen_typed g).

Definition ending_ok (a : Answers) (e : Ending) : Prop :=
  match e with
  | EndedEarly t => timing_typed t
  | Finished t _ _ d g y _ => timing_typed t /\ d = an_delivery a /\ g = an_gen_report a /\ y_count y = derive_syscall_count y
  end.

(** The labels under which the guard holds a run's children. *)
Definition guard_labels : list str := [ENDPOINT_LABEL; SUB_LABEL; GENERATOR_LABEL; COUNTER_LABEL].

(** The guard holds children under its labels only. *)
Definition guarded (children : list str) : Prop := Forall (fun l => l ∈ guard_labels) children.

Lemma guarded_app l1 l2 : guarded l1 -> guarded l2 -> guarded (l1 ++ l2).
Proof. apply Forall_app_2. Qed.
Lemma guarded_counter : guarded [COUNTER_LABEL].
Proof. repeat constructor. Qed.
Lemma guarded_generator : guarded [GENERATOR_LABEL].
Proof. repeat constructor. Qed.
Lemma spawn_endpoint_guarded spec host conf a : guarded (spawn_endpoint spec host conf a).2.
Proof. unfold spawn_endpoint. repeat case_match; repeat constructor. Qed.

#[local] Hint Resolve guarded_app guarded_counter guarded_generator : core.

(** How the phases of a run end. *)
Definition phases_ok (a : Answers) (r : Ending * list str) : Prop := ending_ok a r.1 /\ guarded r.2.

(** A property of the result of a sequence, from one of its first part. *)
Lemma he_post {A B} (Q : A -> Prop) (P : B -> Prop) (c : He A) (k : A -> He B) :
  Q c.1 -> (forall x, Q x -> P (k x).1) -> P (hbind c k).1.
Proof. intros Hc Hk. rewrite hbind_fst. by apply Hk. Qed.

Ltac he_skip a := apply (he_post (fun _ => True) (phases_ok a)); [done|intros ? _].
Ltac he_children a := apply (he_post (fun r => guarded r.2) (phases_ok a)); [|intros [? ?] ?].

Lemma run_drain_ok spec a dir timing driver cpu pressure counter children : timing_typed timing -> guarded children ->
  phases_ok a (run_drain spec a dir timing driver cpu pressure counter children).1.
Proof.
  intros Ht Hc. unfold run_drain. do 5 he_skip a.
  apply (he_post (fun y => y_count y = derive_syscall_count y) (phases_ok a)); [|intros y Hy; split; [by split_and!|done]].
  case_match; [apply finalize_counter_count|done].
Qed.

Lemma run_window_ok spec host a dir timing pid gen_pid counter children : timing_typed timing -> guarded children ->
  phases_ok a (run_window spec host a dir timing pid gen_pid counter children).1.
Proof.
  intros Ht Hc. unfold run_window. he_skip a. he_children a.
  { case_match; [|done]. apply (he_post (fun r => guarded r.2) (fun r => guarded r.2)).
    - case_match; [|done]. rewrite hbind_fst. destruct (spawn_strace_counter _ _ _) as [[c []] es]; simpl; auto.
    - intros [[c|] ch] Hch; [by rewrite hbind_fst|done]. }
  do 5 he_skip a. by apply run_drain_ok.
Qed.

Lemma timing_default_typed : timing_typed timing_default.
Proof. by repeat split. Qed.

Lemma ended_ok a t ch : timing_typed t -> guarded ch -> phases_ok a (ended t ch).1.
Proof. intros Ht Hc. split; [exact Ht|exact Hc]. Qed.

#[local] Hint Resolve timing_default_typed ended_ok run_window_ok : core.

Lemma run_ready_ok spec host a dir pid handshake children : clock (an_now a) -> guarded children ->
  phases_ok a (run_ready spec host a dir pid handshake children).1.
Proof.
  intros Hn Hc. unfold run_ready. pose proof (run_timing_typed (sp_profile spec) (an_now a) Hn) as Ht. he_children a.
  { destruct (should_count _ _ && _); [|done]. rewrite hbind_fst. destruct (prepare_perf_counter _ _ _) as [[c []] es]; simpl; auto. }
  cbv zeta. he_skip a. case_match; [auto|]. destruct (an_generator a); [auto|he_skip a; auto].
Qed.

Lemma run_phases_ok spec host a free : answers_typed a -> phases_ok a (run_phases spec host a free).1.
Proof.
  intros (Hn & _). unfold run_phases. assert (Hnil : guarded []) by constructor.
  he_skip a. case_match; [he_skip a; auto|]. destruct (an_port a) as [port|e]; [|he_skip a; auto]. he_skip a.
  rename x0 into conf. pose proof (spawn_endpoint_guarded spec host conf (an_endpoint a)) as Hs.
  destruct (spawn_endpoint _ _ _ _) as [[[pid handshake]|e] ch]; cbn [snd] in Hs; [|he_skip a; auto].
  cbv zeta. match goal with |- context [match ?m with Ok _ => _ | Err _ => _ end] => destruct m end; [|he_skip a; auto].
  by apply run_ready_ok.
Qed.

(** ** Runs *)

(** What a finalized record keeps of its run. *)
Record of_run (spec : RunSpec) (errors : list str) (r : RunRecord) : Prop := {
  or_key : key r = key_of spec;
  or_attempt : r_attempt r = sp_attempt spec;
  or_repetition : r_repetition r = sp_repetition spec;
  or_errors : forall e, e ∈ errors -> e ∈ r_harness_errors r
}.

Lemma finalize_of_run spec host constants errors timing driver cpu delivery gen syscalls a r :
  finalize_record spec host constants errors timing driver cpu delivery gen syscalls a = Some r -> of_run spec errors r.
Proof. unfold finalize_record. case_match; [|done]. intros [= <-]. by constructor. Qed.

Lemma finalize_clean spec host errors timing driver cpu delivery gen syscalls a : opt_u64 (sp_offered_rate spec) ->
  timing_typed timing -> clock (fa_now a) -> (forall d, delivery = Some d -> delivery_typed d) ->
  (forall g, gen = Some g -> gen_typed g) -> (forall y, syscalls = Some y -> y_count y = derive_syscall_count y) ->
  exists r, finalize_record spec host (for_profile (sp_profile spec)) errors timing driver cpu delivery gen syscalls a = Some r /\
    clean r.
Proof.
  intros Hr Ht Hn Hd Hg Hy. unfold finalize_record.
  assert (Hd' : delivery_typed (default empty_delivery_report delivery)) by (destruct delivery; [by apply Hd|apply empty_delivery_typed]).
  assert (Hg' : gen_typed (default empty_gen_report gen)) by (destruct gen; [by apply Hg|apply empty_gen_typed]).
  pose proof (record_timing_typed (sp_profile spec) timing (fa_now a) Hn Ht) as Ht'.
  set (y := default _ syscalls). assert (Hy' : y_count y = derive_syscall_count y).
  { unfold y. destruct syscalls; [by apply Hy|]. simpl. unfold derive_syscall_count. simpl. by repeat case_match. }
  set (obs := observed_record _ _ _ _ _ _ _ _ _ _ _). fold (with_summary obs).
  destruct (reconcile_total (with_summary obs)) as [reasons Er]; [by apply summary_typed|]. rewrite Er.
  eexists. split; [done|]. apply clean_judged; [by apply summary_summarized|done].
Qed.

(** [reconcile] reads the harness errors only to list them. *)
Lemma row27_errors r es : row27 (set_harness_errors r es) = row27 r.
Proof. done. Qed.

Lemma record_survivors_clean r children ends : clean r -> exists r', record_survivors r children ends = Some r' /\ clean r'.
Proof.
  intros [S R]. unfold record_survivors. destruct (end_all children ends) as [|e es]; [by eexists|].
  set (r1 := set_harness_errors r _). assert (S1 : summarized r1) by (by apply summarized_errors).
  assert (H : is_Some (reconcile r1)).
  { unfold recompute, reconcile in R |- *. unfold r1. rewrite row27_errors. destruct (row27 r); [by eexists|done]. }
  destruct H as [reasons E]. rewrite E. eexists. split; [done|]. by apply clean_judged.
Qed.

Lemma record_survivors_of_run spec errors r children ends r' : of_run spec errors r -> record_survivors r children ends = Some r' ->
  of_run spec errors r'.
Proof.
  intros [H1 H2 H3 H4]. unfold record_survivors. destruct (end_all children ends); [by intros [= <-]|].
  case_match; [|done]. intros [= <-]. constructor; try done. simpl. intros x Hx. apply elem_of_app. left. by apply H4.
Qed.

Lemma run_one_of_run spec host a free r : run_one spec host a free = Some r -> of_run spec (run_phases spec host a free).2 r.
Proof.
  unfold run_one, run_guarded. destruct (run_phases spec host a free) as [[ending children] errors]. cbn [snd].
  destruct ending; destruct (finalize_record _ _ _ _ _ _ _ _ _ _ _) as [r0|] eqn:F; try done; apply finalize_of_run in F as [];
    apply record_survivors_of_run; by constructor.
Qed.

(** Every run ends in a record whose stored summary, verdict and invalid reasons
    are the ones its raw observations give: nothing is left for a later
    recomputation to disagree with, whatever the host answered and however the
    run ended. (C24) *)
Theorem run_one_recomputes spec host a free c : opt_u64 (sp_offered_rate spec) -> answers_typed a ->
  exists r, run_one spec host a free = Some r /\ recompute (set_cancelled r c) = Some [].
Proof.
  intros Hr Ha. pose proof (proj1 (run_phases_ok spec host a free Ha)) as He. destruct Ha as (_ & Hn & Hd & Hg).
  unfold run_one, run_guarded. destruct (run_phases spec host a free) as [[ending children] errors]. cbn [fst] in He.
  destruct ending as [t|t dr cp d g y p].
  - destruct (finalize_clean spec host errors t None None None None None (an_final a)) as (r & -> & C); try done.
    destruct (record_survivors_clean r children (an_ends a) C) as (r' & -> & _ & R). by exists r'.
  - destruct He as (Ht & -> & -> & Hy).
    destruct (finalize_clean spec host errors t dr cp (an_delivery a) (an_gen_report a) (Some y) (an_final a)) as (r & -> & C); try done.
    { by intros ? [= <-]. }
    destruct (record_survivors_clean _ children (an_ends a) (clean_pressure r p C)) as (r' & -> & _ & R). by exists r'.
Qed.

(** ** The runner as the matrix's executor *)

(** A run in a world: its scratch directory is created unless it exists or the
    host refuses.  A run that panics has no record; it then counts as the empty
    record with the run's errors, which [run_one_recomputes] rules out for
    answers and rates of their types. *)
Definition runner (host : HostSetup) (answers : RunSpec -> World -> Answers) (spec : RunSpec) (w : World) : RunRecord * World :=
  let a := answers spec w in
  let free := negb (bool_decide (stem_for spec ∈ scratch w)) in
  (match run_one spec host a free with
   | Some r => r
   | None => set_harness_errors (build_minimal_record spec) (run_phases spec host a free).2
   end,
   if free && an_create_dir a then set_scratch ({[stem_for spec]} ∪ scratch w) w else w).

Lemma reused_error spec host a : exists dir, (SCRATCH_REUSED_PREFIX ++ dir) ∈ (run_phases spec host a false).2.
Proof.
  exists (path_join (scratch_dir host) (stem_for spec)). unfold run_phases. rewrite hbind_snd. apply elem_of_app. right.
  cbn [negb andb]. rewrite hbind_snd. apply elem_of_app. left. by left.
Qed.

Lemma runner_of_run host answers spec w :
  of_run spec (run_phases spec host (answers spec w) (negb (bool_decide (stem_for spec ∈ scratch w)))).2 (runner host answers spec w).1.
Proof. unfold runner. cbn [fst]. destruct (run_one _ _ _ _) as [r|] eqn:E; [by apply run_one_of_run|]. by constructor. Qed.

#[export] Instance runner_executor host answers : Executor (runner host answers).
Proof.
  constructor; intros spec w; try apply (runner_of_run host answers spec w).
  - unfold runner. cbn [snd]. by case_match.
  - unfold runner. cbn [snd]. case_match; [set_solver|done].
  - intros Hc Hin. destruct (runner_of_run host answers spec w) as [_ _ _ He].
    destruct (reused_error spec host (answers spec w)) as [dir Hd]. rewrite bool_decide_eq_true_2 in He by done. apply He in Hd.
    unfold created_own_scratch in Hc. apply negb_true_iff, existsb_false with (x := SCRATCH_REUSED_PREFIX ++ dir) in Hc; [|done].
    by rewrite (proj2 (starts_with_spec _ _)) in Hc by eauto.
Qed.

(** ** Surviving children *)

(** The text of an error that a child outlived its cleanup. *)
Lemma end_child_text label c e : end_child label c = Err e ->
  exists start tail, e = survivor_head label (ce_pid c) start ++ tail /\
    start = match ce_first c with TwRunning => ce_start c | _ => None end /\ (start = None \/ start = ce_start c).
Proof.
  assert (Hreap : forall head polls e, reap_within head polls = Err e -> exists tail, e = head ++ tail).
  { intros head polls. induction polls as [|[] polls IH]; intros e' H; simpl in H; simplify_eq; eauto. }
  unfold end_child, kill_within_bound. destruct (ce_first c) as [s| |e0].
  - done.
  - destruct (reap_within _ _) as [[]|e1] eqn:E; [done|]. intros [= <-]. apply Hreap in E as [tail ->].
    exists (ce_start c). eexists. rewrite <- !app_assoc. split_and!; [done|done|by right].
  - intros [= <-]. exists None. eexists. rewrite <- !app_assoc. split_and!; [done|done|by left].
Qed.

Lemma digits_not_in c n : 0 <= n -> is_digit c = false -> Forall (fun x => x <> c) (dec n).
Proof. intros Hn Hc. eapply Forall_impl; [by apply dec_digits|]. intros x Hx ->. simpl in Hx. congruence. Qed.

(** The entry of a survivor names its pid and start time. *)
Lemma survivor_identity_head label pid start tail : label ∈ guard_labels -> u32 pid -> opt_u64 start ->
  survivor_identity (CLEANUP_SURVIVOR_PREFIX ++ survivor_head label pid start ++ tail) = Some (pid, start).
Proof.
  intros Hl Hp Hs. unfold survivor_head. set (st := match start with Some t => dec t | None => SURVIVOR_START_UNKNOWN end).
  assert (E1 : exists before, split_once (lit " pid ") (CLEANUP_SURVIVOR_PREFIX ++ (label ++ lit " cleanup: pid " ++ dec pid
      ++ lit " (start " ++ st ++ lit ")") ++ tail) = Some (before, dec pid ++ lit " (start " ++ st ++ lit ")" ++ tail)).
  { rewrite <- !app_assoc. unfold guard_labels in Hl. rewrite !elem_of_cons, elem_of_nil in Hl.
    destruct Hl as [->|[->|[->|[->|[]]]]]; eexists; reflexivity. }
  destruct E1 as [before E1]. unfold survivor_identity. rewrite E1.
  assert (E2 : split_once (lit " (start ") (dec pid ++ lit " (start " ++ st ++ lit ")" ++ tail) = Some (dec pid, st ++ lit ")" ++ tail)).
  { apply (split_once_first (chr " ") (lit "(start ")). apply digits_not_in; [unfold u_range in Hp; lia|done]. }
  rewrite E2.
  assert (E3 : split_once (lit ")") (st ++ lit ")" ++ tail) = Some (st, tail)).
  { apply (split_once_first (chr ")") []). unfold st. destruct start as [t|]; [|by repeat constructor].
    apply digits_not_in; [unfold opt_u64, u_range in Hs; lia|done]. }
  rewrite E3, (parse_dec 32) by done. unfold st. destruct start as [t|]; [|by rewrite bool_decide_eq_true_2].
  destruct (dec_cons t) as (x & r & Ed & Hx); [unfold opt_u64, u_range in Hs; lia|].
  assert (Hne : dec t <> SURVIVOR_START_UNKNOWN) by (rewrite Ed; intros E; change SURVIVOR_START_UNKNOWN with [63] in E; injection E; lia).
  by rewrite bool_decide_eq_false_2, (parse_dec 64).
Qed.

Lemma end_all_in children ends label e : label ∈ children -> end_child label (ends label) = Err e -> e ∈ end_all children ends.
Proof.
  intros Hin He. induction Hin as [l|l m children Hin IH]; simpl; [rewrite He; by left|].
  case_match; [by apply IH|right; by apply IH].
Qed.

(** Every harness error is one of the reasons. *)
Lemma reconcile_harness r reasons e : reconcile r = Some reasons -> e ∈ r_harness_errors r -> e ∈ reasons.
Proof.
  unfold reconcile. destruct (row27 r); [|done]. intros [= <-] He. do 27 (apply elem_of_app; right). apply elem_of_app. by left.
Qed.

(** A survivor's entry is in the record, which is then invalid. *)
Lemma record_survivors_entry r children ends label e r' : label ∈ children -> end_child label (ends label) = Err e ->
  record_survivors r children ends = Some r' -> (CLEANUP_SURVIVOR_PREFIX ++ e) ∈ r_harness_errors r' /\ r_valid r' = false.
Proof.
  intros Hin He. unfold record_survivors. apply (end_all_in _ _ _ _ Hin) in He.
  destruct (end_all children ends) as [|e1 es]; [by apply elem_of_nil in He|]. set (r1 := set_harness_errors _ _).
  assert (Hmem : (CLEANUP_SURVIVOR_PREFIX ++ e) ∈ r_harness_errors r1).
  { apply elem_of_app. right. apply list_elem_of_fmap. by exists e. }
  destruct (reconcile r1) as [reasons|] eqn:E; [|done]. intros [= <-]. split; [exact Hmem|].
  apply (reconcile_harness _ _ _ E) in Hmem. destruct reasons; [by apply elem_of_nil in Hmem|done].
Qed.

Lemma find_map_some {A B} (f : A -> option B) l x : x ∈ l -> is_Some (f x) -> exists x' y, x' ∈ l /\ f x' = Some y /\ find_map f l = Some y.
Proof.
  intros Hin [z Hx]. induction Hin as [x l|x y l Hin IH]; simpl; [exists x, z; rewrite Hx; split_and!; [by left|done..]|].
  destruct (f y) as [w|] eqn:E; [exists y, w; split_and!; [by left|done..]|].
  destruct (IH Hx) as (x' & w & ? & ? & ?). exists x', w. split_and!; [by right|done..].
Qed.

(** A survivor the session cannot rule out refuses the record. *)
Lemma survivor_refused proc profile syscalls env cpu_sets r entry : entry ∈ r_harness_errors r -> is_survivor entry = true ->
  is_Some (survivor_resume_refusal proc entry) ->
  exists entry why, entry ∈ r_harness_errors r /\ is_survivor entry = true /\
    check_resume_record proc profile syscalls env cpu_sets r = Err (RefSurvivor (file_name r) entry why).
Proof.
  intros Hin Hs [why Hw]. unfold check_resume_record. match goal with |- context [find_map ?f _] => set (g := f) end.
  destruct (find_map_some g (r_harness_errors r) entry) as (x & [x' why'] & Hx & Hg & ->); [done|unfold g; rewrite Hs, Hw; by eexists|].
  unfold g in Hg. destruct (is_survivor x) eqn:Ex; [|done]. destruct (survivor_resume_refusal proc x); simplify_eq. by exists x', why'.
Qed.

(** An error entry that names a child: its label, its pid and its start time,
    or [?] where that is not known. *)
Definition names_child (label : str) (pid : Z) (start : option Z) (entry : str) : Prop :=
  exists rest, entry = lit "child survived cleanup: " ++ label ++ lit " cleanup: pid " ++ dec pid ++ lit " (start "
    ++ (match start with Some t => dec t | None => lit "?" end) ++ lit ")" ++ rest.

(** A process that outlives its run keeps the session from being resumed: the
    record of a run that could not end a child is invalid and has an entry with
    the label, the pid and the start time of the child (the start time only if
    the child was seen running), and while that process runs (its start time the
    recorded one, or none recorded) a later session refuses the record for a
    surviving child, whatever else it finds. (C37) *)
Theorem survivor_blocks_resume spec host a free r0 children label e t proc profile syscalls env cpu_sets : answers_typed a ->
  run_guarded spec host a free = Some (r0, children) -> label ∈ children -> end_child label (an_ends a label) = Err e ->
  u32 (ce_pid (an_ends a label)) -> opt_u64 (ce_start (an_ends a label)) ->
  proc (ce_pid (an_ends a label)) = Ok (Some t) -> ce_start (an_ends a label) = Some t \/ ce_start (an_ends a label) = None ->
  forall r, run_one spec host a free = Some r ->
  let c := an_ends a label in
  r_valid r = false /\
  (exists entry start, entry ∈ r_harness_errors r /\ names_child label (ce_pid c) start entry /\
     start = match ce_first c with TwRunning => ce_start c | _ => None end) /\
  exists entry why, entry ∈ r_harness_errors r /\ (exists rest, entry = lit "child survived cleanup: " ++ rest) /\
    check_resume_record proc profile syscalls env cpu_sets r = Err (RefSurvivor (file_name r) entry why).
Proof.
  intros Ha Hg Hin He Hp Hs Hproc Ht r Hr. unfold run_one in Hr. rewrite Hg in Hr.
  assert (Hl : label ∈ guard_labels).
  { pose proof (proj2 (run_phases_ok spec host a free Ha)) as Hc. unfold run_guarded in Hg.
    destruct (run_phases spec host a free) as [[ending ch] errors]. cbn [fst snd] in Hc.
    unfold guarded in Hc. rewrite Forall_forall in Hc. apply Hc.
    destruct ending; repeat case_match; by simplify_eq. }
  cbv zeta. destruct (record_survivors_entry _ _ _ _ _ _ Hin He Hr) as [Hmem Hv]. split; [done|].
  destruct (end_child_text _ _ _ He) as (start & tail & -> & Hknown & Hstart). split.
  { eexists _, start. split; [exact Hmem|]. split; [|done]. exists tail. unfold survivor_head. by rewrite <- !app_assoc. }
  edestruct (survivor_refused proc profile syscalls env cpu_sets) as (entry & why & H1 & H2 & H3);
    [exact Hmem|by apply starts_with_spec; eauto| |exists entry, why; split_and!; [done|by apply starts_with_spec|done]].
  unfold survivor_resume_refusal. rewrite survivor_identity_head, Hproc; [|done|done|by destruct Hstart as [->| ->]].
  destruct Hstart as [->| ->]; [by eexists|]. destruct Ht as [->| ->]; [rewrite Z.eqb_refl|]; by eexists.
Qed.

(** ** A run, and one whose endpoint survives *)

Module SampleRunner.
Definition spec : RunSpec :=
  {| sp_profile := Smoke; sp_server := Tokio; sp_workers := 1; sp_qos := Some 0; sp_kind := KThroughput; sp_offered_rate := None;
     sp_repetition := 1; sp_attempt := 1 |}.
Definition delivery : DeliveryReport :=
  {| delivered := 5000; duplicates := 0; report_foreign := 0; latency_over_range := 0; clock_anomalies := 0;
     Recorder.dropped := Some 0; report_timeline := {| origin_sec := 103; counts := replicate 5 1000 |}; report_latency := [];
     worker_loads := None |}.
Definition gen : GenReport :=
  {| gr_scheduled := None; gr_window_scheduled := None; gr_offered := 5000; gr_acked := None; gr_missed_slots := 0;
     gr_connect_errors := 0; gr_protocol_errors := 0; gr_stalled := 0; gr_lateness_over_range := 0;
     gr_last_write_start_ns := None; gr_cycles_in_window := None; gr_lateness := [] |}.
Definition ready (text : str) : list LinePoll := [{| lp_recv := Received (SLine text) 0; lp_cancelled := false |}].
Definition stat : result str str := Ok (lit "7 (bench) S 1 1 1 0 -1 0 0 0 0 0 30 12 0 0 20 0 4 0 900").
Definition gone : ChildEnd :=
  {| ce_pid := 7; ce_first := TwExited (Exited 0); ce_start := Some 900; ce_refused := None; ce_polls := []; ce_reaper := None |}.
(** A child in uninterruptible sleep: SIGKILL does not end it in time. *)
Definition stuck : ChildEnd :=
  {| ce_pid := 7; ce_first := TwRunning; ce_start := Some 900; ce_refused := None; ce_polls := [TwRunning; TwRunning]; ce_reaper := None |}.

Definition answers (endpoint : ChildEnd) : Answers :=
  {| an_scratch_root := None; an_create_dir := true; an_port := Ok 1883; an_conf := None;
     an_endpoint := {| ea_spawn := Ok 7; ea_handshake := None; ea_listener := []; ea_sub := None; ea_sub_handshake := None |};
     an_ready := ready (lit "READY"); an_ready_exit := []; an_stderr_kept := fun _ => true;
     an_perf := {| pf_mkfifo_ctl := None; pf_mkfifo_ack := None; pf_create := None; pf_spawn := None; pf_open_ack := None; pf_open_ctl := [] |};
     an_now := 99500000000; an_arm_write := None; an_armed := ready (lit "ARMED"); an_armed_exit := []; an_armed_at := 99600000000;
     an_generator := Ok 8; an_window_start := [];
     an_strace := {| st_threads := Ok 1; st_spawn := None; st_piped := false; st_reader := None; st_loss := no_loss |};
     an_arm := {| am_write := []; am_ack := []; am_attach := [] |};
     an_server_start := stat; an_gen_start := stat; an_pressure_start := Ok []; an_sample_start := 0;
     an_driver := Ok {| io_uring_fds := 0; eventpoll_fds := 2 |}; an_window_end := [];
     an_disarm := {| dm_child := None; dm_write := []; dm_ack := [] |};
     an_server_end := stat; an_gen_end := stat; an_pressure_end := Ok []; an_sample_end := 5000000000; an_reap := []; an_reaped_at := 0;
     an_clk_tck := Some 100; an_gen_wait := [(None, false); (Some (Exited 0), false)];
     an_terminate := fun _ => (None, match ce_first endpoint with TwRunning => [(TwRunning, false)] | s => [(s, false)] end, endpoint);
     an_ends := fun label => if bool_decide (label = ENDPOINT_LABEL) then endpoint else gone;
     an_delivery := Some delivery; an_gen_report := Some gen;
     an_finalize := {| fz_exit := []; fz_drain := []; fz_raw := Ok [] |};
     an_final := {| fa_unix := 0; fa_now := 113000000000; fa_build := Release |} |}.

Lemma answers_ok endpoint : answers_typed (answers endpoint).
Proof. split; [by split|]. split; [by split|]. split; intros x [= <-]; repeat constructor; done. Qed.

(** A run in which nothing goes wrong is valid. *)
Example ordinary_run : r_valid <$> run_one spec SampleExecutor.host (answers gone) true = Some true.
Proof. by vm_compute. Qed.
End SampleRunner.

Lemma run_one_recomputes_witness :
  exists r, run_one SampleRunner.spec SampleExecutor.host (SampleRunner.answers SampleRunner.gone) true = Some r /\
    recompute (set_cancelled r true) = Some [].
Proof. apply (run_one_recomputes SampleRunner.spec); [done|apply SampleRunner.answers_ok]. Defined.

Lemma survivor_blocks_resume_witness :
  exists r, run_one SampleRunner.spec SampleExecutor.host (SampleRunner.answers SampleRunner.stuck) true = Some r /\ r_valid r = false /\
    (exists entry start, entry ∈ r_harness_errors r /\ names_child ENDPOINT_LABEL 7 start entry /\ start = Some 900) /\
    exists entry why, entry ∈ r_harness_errors r /\ (exists rest, entry = lit "child survived cleanup: " ++ rest) /\
      check_resume_record (fun _ => Ok (Some 900)) Smoke NoMethod (h_env SampleExecutor.host) (h_cpu_sets SampleExecutor.host) r
        = Err (RefSurvivor (file_name r) entry why).
Proof.
  set (a := SampleRunner.answers SampleRunner.stuck).
  assert (Er : exists r, run_one SampleRunner.spec SampleExecutor.host a true = Some r) by (vm_compute; eauto). destruct Er as [r Er].
  assert (Eg : exists r0, run_guarded SampleRunner.spec SampleExecutor.host a true = Some (r0, [ENDPOINT_LABEL; GENERATOR_LABEL]))
    by (vm_compute; eauto). destruct Eg as [r0 Eg].
  assert (Ee : exists e, end_child ENDPOINT_LABEL (an_ends a ENDPOINT_LABEL) = Err e) by (vm_compute; eauto). destruct Ee as [e Ee].
  exists r. split; [exact Er|].
  apply (survivor_blocks_resume SampleRunner.spec SampleExecutor.host a true r0 [ENDPOINT_LABEL; GENERATOR_LABEL] ENDPOINT_LABEL e 900);
    [apply SampleRunner.answers_ok|exact Eg|by left|exact Ee|by split|by split|done|by left|exact Er].
Defined.
