(* ===== verification/Endpoint.v ===== *)
(** * The benchmark's endpoints

    bench/src/server.rs and bench/src/sub.rs, with the parts of
    bench/src/record.rs they use: [parse_arm_line] and [worker_loads].  An
    endpoint answers READY, is armed by a line on its standard input, records
    deliveries and writes a report when it is told to stop.

    What the host and the peer answer is a list of events; a list that ends
    before the endpoint does leaves it waiting.  Printed lines and written
    reports are part of the result. *)

From S2P Require Import Prelude Text F64 Rmqtt Api Wire Recorder Analysis Sorting.

(** ** The ARM line *)

(** The messages [parse_arm_line] formats, with the values it puts in them. *)
Inductive ArmLineError :=
| ExpectedArm (got : option str)
| MissingOrigin | MissingStart | MissingEnd | TrailingTokens
| BadOrigin (e : IntErrorKind) | BadStart (e : IntErrorKind) | BadEnd (e : IntErrorKind)
| StartNotBeforeEnd | StartNotWhole | EndNotWhole.

Definition parse_arm_line (line : str) : result (Z * Window) ArmLineError :=
  match split_whitespace line with
  | [] => Err (ExpectedArm None)
  | cmd :: tokens =>
      if negb (bool_decide (cmd = lit "ARM")) then Err (ExpectedArm (Some cmd))
      else match tokens with
      | [] => Err MissingOrigin
      | [_] => Err MissingStart
      | [_; _] => Err MissingEnd
      | origin_s :: start_s :: end_s :: rest =>
          match rest with
          | _ :: _ => Err TrailingTokens
          | [] =>
              match parse_uint 64 origin_s with
              | Err e => Err (BadOrigin e)
              | Ok origin_ns =>
              match parse_uint 64 start_s with
              | Err e => Err (BadStart e)
              | Ok start_ns =>
              match parse_uint 64 end_s with
              | Err e => Err (BadEnd e)
              | Ok end_ns =>
                  if end_ns <=? start_ns then Err StartNotBeforeEnd
                  else if negb (start_ns mod 1000000000 =? 0) then Err StartNotWhole
                  else if negb (end_ns mod 1000000000 =? 0) then Err EndNotWhole
                  else Ok (origin_ns, {| start_ns := start_ns; end_ns := end_ns |})
              end end end
          end
      end
  end.

(** ** Loads per worker *)

Section Loads.
Context `{HdrHistogram}.

Record WorkerGroup := { g_thread : Z; g_connections : Z; g_delivered : Z; g_latency : option Histogram }.

(** The shard's connection joins the group of its thread.  There are at most
    [CONNECTIONS_MAX] shards, so the [u32] count does not overflow. *)
Definition join_group (s : Shard) (g : WorkerGroup) : WorkerGroup :=
  {| g_thread := g_thread g; g_connections := g_connections g + 1; g_delivered := sat_add 64 (g_delivered g) (s_delivered s);
     g_latency := match latency s with Some h => merge_histogram (g_latency g) h | None => g_latency g end |}.

Fixpoint add_to_groups (thread : Z) (s : Shard) (groups : list WorkerGroup) : list WorkerGroup :=
  match groups with
  | [] => [join_group s {| g_thread := thread; g_connections := 0; g_delivered := 0; g_latency := None |}]
  | g :: groups => if g_thread g =? thread then join_group s g :: groups else g :: add_to_groups thread s groups
  end.

Definition worker_groups (shards : list Shard) : list WorkerGroup :=
  foldl (fun groups s => match first_thread s with Some t => add_to_groups t s groups | None => groups end) [] shards.

Definition load_of (g : WorkerGroup) : WorkerLoad :=
  {| connections := g_connections g; load_delivered := g_delivered g;
     latency_p99_ns := match g_latency g with Some h => percentile (histogram_buckets h) P99 | None => None end |}.

(** Descending by connections, then by deliveries. *)
Definition load_before (a b : WorkerLoad) : bool :=
  (connections b <? connections a) || ((connections a =? connections b) && (load_delivered b <=? load_delivered a)).

Definition no_load : WorkerLoad := {| connections := 0; load_delivered := 0; latency_p99_ns := None |}.

Definition Recorder_worker_loads (self : Recorder) (workers : nat) : list WorkerLoad :=
  let loads := sort_by load_before (load_of <$> worker_groups (shards self)) in
  if (length loads <? workers)%nat then loads ++ replicate (workers - length loads) no_load else loads.

(** The report of a stopped endpoint. *)
Definition with_drops (r : DeliveryReport) (drops : option Z) (loads : option (list WorkerLoad)) : DeliveryReport :=
  {| delivered := delivered r; duplicates := duplicates r; report_foreign := report_foreign r;
     latency_over_range := latency_over_range r; clock_anomalies := clock_anomalies r; dropped := drops;
     report_timeline := report_timeline r; report_latency := report_latency r; worker_loads := loads |}.
End Loads.

(** ** Standard input *)

Definition STDIN_LINE_MAX_BYTES : Z := 128.

(** One bounded [read_line]: the text and the number of bytes it took. *)
Inductive StdinRead := RdEof | RdError (e : str) | RdLine (line : str) (bytes : Z).

Definition ends_with_newline (line : str) : bool := bool_decide (last line = Some 10).
Definition cut_short (line : str) (bytes : Z) : bool := negb (ends_with_newline line) && (STDIN_LINE_MAX_BYTES <=? bytes).
Definition line_too_long : str := lit "stdin line is longer than " ++ dec STDIN_LINE_MAX_BYTES ++ lit " bytes".
Definition read_failed (e : str) : str := lit "read stdin line: " ++ e.

Inductive Control := Arm (line : str) | StdinClosed | ReadFailed (reason : str) | ControlShutdown.

(** The server's reader: what it sends; each turn is a read and whether the
    send found its receiver. *)
Fixpoint stdin_controls (reads : list (StdinRead * bool)) : list Control :=
  match reads with
  | [] => []
  | (RdEof, _) :: _ => [StdinClosed]
  | (RdError e, _) :: _ => [ReadFailed (read_failed e)]
  | (RdLine line bytes, sent) :: reads =>
      if cut_short line bytes then [ReadFailed line_too_long]
      else Arm line :: (if sent then stdin_controls reads else [])
  end.

(** The subscriber's reader sends once. *)
Inductive ArmInput := InArm (line : str) | InClosed | InReadFailed (reason : str).

Definition arm_input (r : StdinRead) : ArmInput :=
  match r with
  | RdEof => InClosed
  | RdError e => InReadFailed (read_failed e)
  | RdLine line bytes => if cut_short line bytes then InReadFailed line_too_long else InArm line
  end.

(** ** bench server *)

Inductive ServerImpl := ImplUring | ImplTokio.

(** Why an endpoint ends with an error. *)
Inductive EndpointError := EText (e : str) | EArmLine (e : ArmLineError) | EArm (e : ArmError).

Section Server.
Context `{HdrHistogram}.

(** A control message with the clock [arm] reads and the error of flushing
    ARMED, a delivery to the callback, or the loss of every sender. *)
Inductive ServerEvent :=
| SvControl (c : Control) (now_ns : Z) (flush : option str)
| SvDeliver (p : Publish) (now_ns thread : Z)
| SvDisconnected.

Definition arm_recorder (recorder : Recorder) (line : str) (now_ns : Z) : result Recorder EndpointError :=
  match parse_arm_line line with
  | Err e => Err (EArmLine e)
  | Ok (origin_ns, window) =>
      match arm_at recorder origin_ns window now_ns with
      | (Err e, _) => Err (EArm e)
      | (Ok _, recorder) => Ok recorder
      end
  end.

(** The end of the handshake, the recorder, the lines printed and the events
    left; deliveries come in between. *)
Fixpoint run_handshake (recorder : Recorder) (events : list ServerEvent) (printed : list str) :
    option (result unit EndpointError) * Recorder * list str * list ServerEvent :=
  match events with
  | [] => (None, recorder, printed, [])
  | SvDeliver p now_ns thread :: events => run_handshake (callback recorder p now_ns thread) events printed
  | SvDisconnected :: events => (Some (Ok tt), recorder, printed, events)
  | SvControl c now_ns flush :: events =>
      match c with
      | Arm line =>
          match arm_recorder recorder line now_ns with
          | Err e => (Some (Err e), recorder, printed, events)
          | Ok recorder =>
              let printed := printed ++ [lit "ARMED"] in
              match flush with
              | Some e => (Some (Err (EText (lit "flush ARMED: " ++ e))), recorder, printed, events)
              | None => run_handshake recorder events printed
              end
          end
      | StdinClosed => run_handshake recorder events printed
      | ReadFailed reason => (Some (Err (EText reason)), recorder, printed, events)
      | ControlShutdown => (Some (Ok tt), recorder, printed, events)
      end
  end.

(** What the callback records until the workers are joined. *)
Definition record_rest (recorder : Recorder) (events : list ServerEvent) : Recorder :=
  foldl (fun r ev => match ev with SvDeliver p now_ns thread => callback r p now_ns thread | _ => r end) recorder events.

(** The host's answers to a server: errors of the start, of the signal handler
    and of flushing READY, the error of the join, the drop total, and the error
    of writing the report. *)
Record ServerAnswers := {
  sv_start : option str; sv_handler : option str; sv_flush : option str; sv_events : list ServerEvent;
  sv_join : option str; sv_dropped : Z; sv_write : option str
}.

Definition impl_name (imp : ServerImpl) : str := match imp with ImplUring => lit "broker" | ImplTokio => lit "twin" end.

(** The lines printed, the report written, and the result; [None] while the
    handshake waits. *)
Definition run_server (imp : ServerImpl) (workers : nat) (connections : Z) (a : ServerAnswers) :
    list str * option DeliveryReport * option (result unit EndpointError) :=
  let fail printed e := (printed, None, Some (Err e)) in
  if (connections =? 0) || (CONNECTIONS_MAX <? connections) then
    fail [] (EText (lit "connections must be between 1 and " ++ dec CONNECTIONS_MAX ++ lit ", got " ++ dec connections))
  else match sv_start a with
  | Some e => fail [] (EText (lit "start " ++ impl_name imp ++ lit ": " ++ e))
  | None =>
  match sv_handler a with
  | Some e => fail [] (EText (lit "install ctrl-c handler: " ++ e))
  | None =>
  match sv_flush a with
  | Some e => fail [lit "READY"] (EText (lit "flush READY: " ++ e))
  | None =>
  match run_handshake (Recorder_new connections) (sv_events a) [lit "READY"] with
  | (None, _, printed, _) => (printed, None, None)
  | (Some (Err e), _, printed, _) => fail printed e
  | (Some (Ok _), recorder, printed, rest) =>
      let recorder := record_rest recorder rest in
      let written := with_drops (report recorder) (Some (sv_dropped a)) (Some (Recorder_worker_loads recorder workers)) in
      match sv_write a with
      | Some e => (printed, None, Some (Err (EText e)))
      | None =>
          (printed, Some written,
           Some match sv_join a with
                | Some e => Err (EText (lit "join " ++ impl_name imp ++ lit ": " ++ e))
                | None => Ok tt
                end)
      end
  end end end end.
End Server.

(** ** bench sub *)

Definition SUBSCRIBE_PACKET_ID : Z := 1.
Definition SUBACK_RETURN_CODES : nat := 1.
Definition PRE_SUBSCRIBE_PROBE_BYTES : nat := 64.
Definition IO_TIMEOUT_SECS : Z := 5.

(** An operation under the I/O deadline. *)
Inductive Timed (A : Type) := TOk (a : A) | TFailed (e : str) | TTimedOut.
Arguments TOk {A} a.
Arguments TFailed {A} e.
Arguments TTimedOut {A}.

Definition write_with_timeout (answer : Timed unit) (what : str) : result unit str :=
  match answer with
  | TOk _ => Ok tt
  | TFailed e => Err (lit "write " ++ what ++ lit ": " ++ e)
  | TTimedOut => Err (lit "write " ++ what ++ lit ": timed out after " ++ dec IO_TIMEOUT_SECS ++ lit " s")
  end.

(** One frame with its Remaining Length; [TOk None] is the peer's close. *)
Definition read_packet (answer : Timed (option (PacketV3 * Z))) (what : str) : result (PacketV3 * Z) str :=
  match answer with
  | TOk (Some p) => Ok p
  | TOk None => Err (lit "peer closed before " ++ what)
  | TFailed e => Err (lit "decode " ++ what ++ lit ": " ++ e)
  | TTimedOut => Err (lit "read " ++ what ++ lit ": timed out after " ++ dec IO_TIMEOUT_SECS ++ lit " s")
  end.

Definition qos_into_enum (qos : Z) : QoS := if qos =? 0 then AtMostOnce else AtLeastOnce.

Definition subscribe_return_code_byte (code : SubscribeReturnCode) : Z :=
  match code with SrcSuccess q => QoS_level q | SrcFailure => 128 end.

#[export] Instance SubscribeReturnCode_eq_dec : EqDecision SubscribeReturnCode.
Proof. solve_decision. Defined.
#[export] Instance V3ConnectAckReason_eq_dec : EqDecision V3ConnectAckReason.
Proof. solve_decision. Defined.

(** [{:#04x}] of a byte. *)
Definition hex_digit (n : Z) : Z := if n <? 10 then 48 + n else 87 + n.
Definition hex_byte (b : Z) : str := lit "0x" ++ [hex_digit (b / 16); hex_digit (b mod 16)].

(** The non-blocking [recv] before SUBSCRIBE. *)
Inductive Probe := ProbeClosed | ProbeBytes (bytes : list Z) | ProbeAgain | ProbeError (e : str).

Section Sub.
Context `{HdrHistogram}.
(** [Debug] of a packet and of a CONNACK reason, [Display] of a topic, and the
    first packet rmqtt-codec decodes from a buffer. *)
Context (debug_packet : PacketV3 -> str) (debug_reason : V3ConnectAckReason -> str) (show_topic : string -> str)
        (decode_first : list Z -> option PacketV3).

Definition refuse_unsolicited_bytes (buffered : list Z) (probe : Probe) : result unit str :=
  let refuse early :=
    match early with
    | [] => Ok tt
    | _ =>
        Err match decode_first early with
            | Some packet => lit "broker sent " ++ lit (packet_kind packet) ++ lit " before SUBSCRIBE"
            | None => lit "CONNACK was followed by " ++ dec (Z.of_nat (length early)) ++ lit " unsolicited bytes before SUBSCRIBE"
            end
    end in
  match probe with
  | ProbeClosed => Err (lit "peer closed before SUBSCRIBE")
  | ProbeBytes bytes => refuse (buffered ++ bytes)
  | ProbeAgain => refuse buffered
  | ProbeError e => Err (lit "read before SUBSCRIBE: " ++ e)
  end.

Record SetupAnswers := {
  su_connect : Timed unit; su_nodelay : option str; su_write_connect : Timed unit;
  su_connack : Timed (option (PacketV3 * Z)); su_buffered : list Z; su_probe : Probe;
  su_write_subscribe : Timed unit; su_suback : Timed (option (PacketV3 * Z))
}.

(** [try!]. *)
Definition and_then {A B} (r : result A str) (k : A -> result B str) : result B str :=
  match r with Ok a => k a | Err e => Err e end.

Definition check_connack (p : PacketV3) (remaining_length : Z) : result unit str :=
  match p with
  | V3_ConnectAck ack =>
      if negb (remaining_length =? CONNACK_REMAINING_LENGTH) then
        Err (lit "CONNACK remaining length was " ++ dec remaining_length ++ lit ", expected " ++ dec CONNACK_REMAINING_LENGTH)
      else if negb (bool_decide (v3_return_code ack = ConnectionAccepted)) then
        Err (lit "CONNACK refused: " ++ debug_reason (v3_return_code ack))
      else if v3_session_present ack then Err (lit "CONNACK claims a stored session on a clean-session CONNECT")
      else Ok tt
  | p => Err (lit "expected CONNACK, got " ++ debug_packet p)
  end.

Definition check_suback (qos : Z) (p : PacketV3) : result unit str :=
  match p with
  | V3_SubscribeAck acked_id status =>
      if negb (acked_id =? SUBSCRIBE_PACKET_ID) then
        Err (lit "SUBACK for packet id " ++ dec acked_id ++ lit ", expected " ++ dec SUBSCRIBE_PACKET_ID)
      else match status with
      | [granted] =>
          if negb (bool_decide (granted = SrcSuccess (qos_into_enum qos))) then
            Err (lit "subscription refused: " ++ hex_byte (subscribe_return_code_byte granted))
          else Ok tt
      | _ =>
          Err (lit "SUBACK has " ++ dec (Z.of_nat (length status)) ++ lit " return codes, expected "
               ++ dec (Z.of_nat SUBACK_RETURN_CODES))
      end
  | p => Err (lit "expected SUBACK, got " ++ debug_packet p)
  end.

Definition connect_and_subscribe (addr : str) (qos : Z) (a : SetupAnswers) : result unit str :=
  let connect := match su_connect a with
                 | TOk _ => Ok tt
                 | TFailed e => Err (lit "connect " ++ addr ++ lit ": " ++ e)
                 | TTimedOut => Err (lit "connect " ++ addr ++ lit ": timed out after " ++ dec IO_TIMEOUT_SECS ++ lit " s")
                 end in
  and_then connect (fun _ =>
  and_then (match su_nodelay a with Some e => Err (lit "set TCP_NODELAY: " ++ e) | None => Ok tt end) (fun _ =>
  and_then (write_with_timeout (su_write_connect a) (lit "CONNECT")) (fun _ =>
  and_then (read_packet (su_connack a) (lit "CONNACK")) (fun connack =>
  and_then (check_connack connack.1 connack.2) (fun _ =>
  and_then (refuse_unsolicited_bytes (su_buffered a) (su_probe a)) (fun _ =>
  and_then (write_with_timeout (su_write_subscribe a) (lit "SUBSCRIBE")) (fun _ =>
  and_then (read_packet (su_suback a) (lit "SUBACK")) (fun suback =>
  check_suback qos suback.1)))))))).

(** *** The read loop *)

Inductive LoopExit := ExitShutdown | ExitFailed (cause : EndpointError).

(** How the PUBACK write ended, against the shutdown watch. *)
Inductive AckWrite := AckWritten | AckWriteFailed (e : str) | AckStalled | AckShutdown.

(** What the select saw next: the watch, the ARM branch with the clock, or the
    next frame with the clock, the thread and the outcome of a PUBACK write. *)
Inductive SubEvent :=
| SeShutdown
| SeArm (input : ArmInput) (now_ns : Z)
| SeFrame (frame : option (result PacketV3 str)) (now_ns thread : Z) (ack : AckWrite).

(** [sub_acked] are the packet ids of the PUBACKs written out. *)
Record SubLoop := {
  sub_recorder : Recorder; arm_pending : bool; waiting_for_shutdown : bool; sub_acked : list Z; sub_printed : list str
}.

Definition set_recorder (s : SubLoop) (r : Recorder) : SubLoop :=
  {| sub_recorder := r; arm_pending := arm_pending s; waiting_for_shutdown := waiting_for_shutdown s; sub_acked := sub_acked s;
     sub_printed := sub_printed s |}.

Definition on_arm (s : SubLoop) (input : ArmInput) (now_ns : Z) : SubLoop * option LoopExit :=
  let s := {| sub_recorder := sub_recorder s; arm_pending := false; waiting_for_shutdown := waiting_for_shutdown s;
              sub_acked := sub_acked s; sub_printed := sub_printed s |} in
  match input with
  | InArm line =>
      match arm_recorder (sub_recorder s) line now_ns with
      | Err e => (s, Some (ExitFailed e))
      | Ok r =>
          ({| sub_recorder := r; arm_pending := false; waiting_for_shutdown := waiting_for_shutdown s;
              sub_acked := sub_acked s; sub_printed := sub_printed s ++ [lit "ARMED"] |}, None)
      end
  | InClosed => (s, None)
  | InReadFailed reason => (s, Some (ExitFailed (EText reason)))
  end.

Definition write_puback (s : SubLoop) (id : Z) (ack : AckWrite) : SubLoop * option LoopExit :=
  match ack with
  | AckWritten =>
      ({| sub_recorder := sub_recorder s; arm_pending := arm_pending s; waiting_for_shutdown := waiting_for_shutdown s;
          sub_acked := sub_acked s ++ [id]; sub_printed := sub_printed s |}, None)
  | AckWriteFailed e => (s, Some (ExitFailed (EText (lit "write PUBACK: " ++ e))))
  | AckStalled =>
      ({| sub_recorder := sub_recorder s; arm_pending := arm_pending s; waiting_for_shutdown := true;
          sub_acked := sub_acked s; sub_printed := sub_printed s |}, None)
  | AckShutdown => (s, Some ExitShutdown)
  end.

Definition on_publish (s : SubLoop) (expected_qos : QoS) (p : CodecPublish) (now_ns thread : Z) (ack : AckWrite) :
    SubLoop * option LoopExit :=
  if negb (bool_decide (p_qos p = expected_qos)) then
    (s, Some (ExitFailed (EText (lit "broker delivered QoS " ++ dec (QoS_level (p_qos p)) ++ lit " PUBLISH on "
          ++ show_topic (p_topic p) ++ lit ", expected QoS " ++ dec (QoS_level expected_qos)))))
  else
    let s := set_recorder s (record_on_topic (sub_recorder s) (p_topic p) (p_payload p) now_ns thread) in
    if bool_decide (p_qos p = AtLeastOnce) then
      match p_packet_id p with
      | None => (s, Some (ExitFailed (EText (lit "QoS 1 PUBLISH without packet id"))))
      | Some id => write_puback s id ack
      end
    else (s, None).

Definition on_frame (s : SubLoop) (expected_qos : QoS) (frame : option (result PacketV3 str)) (now_ns thread : Z) (ack : AckWrite) :
    SubLoop * option LoopExit :=
  match frame with
  | None => (s, Some (ExitFailed (EText (lit "broker closed the connection"))))
  | Some (Err e) => (s, Some (ExitFailed (EText (lit "decode broker frame: " ++ e))))
  | Some (Ok (V3_Publish p)) => on_publish s expected_qos p now_ns thread ack
  | Some (Ok p) => (s, Some (ExitFailed (EText (lit "broker sent an unexpected packet after SUBACK: " ++ debug_packet p))))
  end.

(** A loop that waits for the watch sees nothing else; the ARM branch is pending
    forever once it was taken. *)
Fixpoint read_loop (s : SubLoop) (expected_qos : QoS) (events : list SubEvent) : SubLoop * option LoopExit :=
  match events with
  | [] => (s, None)
  | SeShutdown :: _ => (s, Some ExitShutdown)
  | ev :: events =>
      if waiting_for_shutdown s then read_loop s expected_qos events
      else
        let '(s, exit) :=
          match ev with
          | SeShutdown => (s, Some ExitShutdown)
          | SeArm input now_ns => if arm_pending s then on_arm s input now_ns else (s, None)
          | SeFrame frame now_ns thread ack => on_frame s expected_qos frame now_ns thread ack
          end in
        match exit with
        | Some exit => (s, Some exit)
        | None => read_loop s expected_qos events
        end
  end.

(** The host's answers to a subscriber: the parse of the address, the runtime,
    the signal handler, [None] for a shutdown that comes before the setup ends,
    the flush of READY, the loop's events and the error of writing the report. *)
Record SubAnswers := {
  sb_addr : option str; sb_runtime : option str; sb_handler : option str; sb_setup : option SetupAnswers;
  sb_flush : option str; sb_events : list SubEvent; sb_write : option str
}.

Definition write_run_report (write : option str) (recorder : Recorder) : option DeliveryReport * result unit EndpointError :=
  match write with
  | Some e => (None, Err (EText e))
  | None => (Some (with_drops (report recorder) None None), Ok tt)
  end.

(** The lines printed, the PUBACKs written, the report written and the result,
    [None] while the read loop waits. *)
Record SubRun := {
  sr_printed : list str; sr_acked : list Z; sr_report : option DeliveryReport; sr_result : option (result unit EndpointError)
}.

Definition sub_failed (printed : list str) (e : str) : SubRun :=
  {| sr_printed := printed; sr_acked := []; sr_report := None; sr_result := Some (Err (EText e)) |}.

Definition run_sub_session (addr : str) (qos : Z) (recorder : Recorder) (a : SubAnswers) : SubRun :=
  match sb_handler a with
  | Some e => sub_failed [] (lit "install ctrl-c handler: " ++ e)
  | None =>
  match sb_setup a with
  | None =>
      let '(r, res) := write_run_report (sb_write a) recorder in
      {| sr_printed := []; sr_acked := []; sr_report := r; sr_result := Some res |}
  | Some setup =>
  match connect_and_subscribe addr qos setup with
  | Err e => sub_failed [] e
  | Ok _ =>
  match sb_flush a with
  | Some e => sub_failed [lit "READY"] (lit "flush READY: " ++ e)
  | None =>
      let s := {| sub_recorder := recorder; arm_pending := true; waiting_for_shutdown := false; sub_acked := [];
                  sub_printed := [lit "READY"] |} in
      match read_loop s (qos_into_enum qos) (sb_events a) with
      | (s, None) => {| sr_printed := sub_printed s; sr_acked := sub_acked s; sr_report := None; sr_result := None |}
      | (s, Some exit) =>
          let '(r, res) := write_run_report (sb_write a) (sub_recorder s) in
          {| sr_printed := sub_printed s; sr_acked := sub_acked s; sr_report := r;
             sr_result := Some match res with
                               | Err e => Err e
                               | Ok _ => match exit with ExitShutdown => Ok tt | ExitFailed cause => Err cause end
                               end |}
      end
  end end end end.

Definition run_sub (addr : str) (qos connections : Z) (a : SubAnswers) : SubRun :=
  if 1 <? qos then sub_failed [] (lit "qos must be 0 or 1, got " ++ dec qos)
  else if (connections =? 0) || (CONNECTIONS_MAX <? connections) then
    sub_failed [] (lit "connections must be between 1 and " ++ dec CONNECTIONS_MAX ++ lit ", got " ++ dec connections)
  else match sb_addr a with
  | Some e => sub_failed [] (lit "addr: " ++ e)
  | None =>
  match sb_runtime a with
  | Some e => sub_failed [] (lit "build tokio runtime: " ++ e)
  | None => run_sub_session addr qos (Recorder_new connections) a
  end end.
End Sub.
