(* ===== verification/EndpointSpec.v ===== *)
(** * What the endpoints promise the runner

    The ARM line of the runner arms a recorder; the subscriber's report is the
    record of the deliveries it accepted, and it acknowledged all of them but
    possibly the last; the loads per worker account for every connection and
    delivery. *)

From S2P Require Import Prelude Text F64 Rmqtt Api Wire Recorder Pacer RunRecord Analysis Sorting Verdict Validity Matrix Counter Runner MatrixSafety RunnerSpec Endpoint.
From Stdlib Require Import Ascii Sorting.Sorted.

(** ** The ARM line *)

Lemma digits_no_space n : 0 <= n -> Forall (fun c => is_whitespace c = false) (dec n).
Proof. intros Hn. eapply Forall_impl; [by apply dec_digits|]. intros c. apply digit_not_whitespace. Qed.

Lemma split_word w c t : Forall (fun x => is_whitespace x = false) w -> w <> [] -> is_whitespace c = true ->
  split_whitespace (w ++ c :: t) = w :: split_whitespace t.
Proof.
  intros Hw Hne Hc. unfold split_whitespace. rewrite split_by_piece by done. cbn [split_by]. rewrite Hc, app_nil_r. cbn [List.filter].
  by destruct w.
Qed.

Lemma dec_nonempty n : 0 <= n -> dec n <> [].
Proof. intros Hn E. destruct (dec_cons n Hn) as (c & r & E' & _). congruence. Qed.

Lemma arm_line_tokens o s e : 0 <= o -> 0 <= s -> 0 <= e -> split_whitespace (arm_line o s e) = [lit "ARM"; dec o; dec s; dec e].
Proof.
  intros Ho Hs He. unfold arm_line. assert (E1 : forall x, lit "ARM " ++ x = lit "ARM" ++ chr " " :: x) by done.
  assert (E2 : forall x, lit " " ++ x = chr " " :: x) by done. rewrite E1, !E2.
  rewrite split_word; [|by repeat constructor|done|done].
  rewrite !split_word by (done || by apply digits_no_space || by apply dec_nonempty). done.
Qed.

Lemma parse_arm_line_ok o s e : u64 o -> u64 s -> u64 e -> s < e -> s mod ONE_SECOND_NS = 0 -> e mod ONE_SECOND_NS = 0 ->
  parse_arm_line (arm_line o s e) = Ok (o, {| start_ns := s; end_ns := e |}).
Proof.
  intros Ho Hs He Hlt Ms Me. unfold u_range in *. unfold parse_arm_line. rewrite arm_line_tokens by lia.
  rewrite bool_decide_eq_true_2 by done. cbn [negb]. rewrite !parse_dec by done. unfold ONE_SECOND_NS in *.
  rewrite (proj2 (Z.leb_gt _ _)), Ms, Me by lia. done.
Qed.

Lemma dec_from_length fuel k : forall n, (0 < k)%nat -> 0 <= n < 10 ^ Z.of_nat k -> (length (dec_from fuel n) <= k)%nat.
Proof.
  revert k. induction fuel as [|fuel IH]; intros k n Hk Hn; simpl; [lia|]. destruct (Z.ltb_spec n 10); [simpl; lia|].
  destruct k as [|[|k]]; [lia|simpl in Hn; lia|]. rewrite length_app. simpl.
  assert (length (dec_from fuel (n / 10)) <= S k)%nat; [|lia]. apply IH; [lia|].
  rewrite Nat2Z.inj_succ, Z.pow_succ_r in Hn by lia. split; [apply Z.div_pos; lia|apply Z.div_lt_upper_bound; lia].
Qed.

Lemma dec_length n : u64 n -> (length (dec n) <= 20)%nat.
Proof. intros Hn. apply dec_from_length; [lia|]. unfold u_range in Hn. change (10 ^ Z.of_nat 20) with 100000000000000000000. lia. Qed.

Lemma arm_line_short o s e : u64 o -> u64 s -> u64 e -> Z.of_nat (length (arm_line o s e)) <= STDIN_LINE_MAX_BYTES.
Proof.
  intros Ho%dec_length Hs%dec_length He%dec_length. unfold arm_line. rewrite !length_app.
  change (length (lit "ARM ")) with 4%nat. change (length (lit " ")) with 1%nat. change (length [10]) with 1%nat.
  unfold STDIN_LINE_MAX_BYTES. lia.
Qed.

(** The schedule of a run is one the recorder accepts. *)
Lemma run_timing_shape p now : clock now ->
  let t := run_timing (for_profile p) now in
  t_origin_ns t mod ONE_SECOND_NS = 0 /\ start_ns (t_window t) = t_origin_ns t + warmup_secs (for_profile p) * ONE_SECOND_NS /\
  end_ns (t_window t) = start_ns (t_window t) + window_secs (for_profile p) * ONE_SECOND_NS.
Proof.
  intros Hn. unfold run_timing. cbn [t_origin_ns t_window start_ns end_ns]. split; [|done]. unfold clock in Hn.
  apply round_up_second_bounds. unfold sat_add, GEN_LEAD_SECS, ONE_SECOND_NS. lia.
Qed.

Section Arming.
Context `{HdrHistogram}.

(** What the runner sends, an endpoint hears: the ARM line of a run's schedule
    fits the bounded read of both endpoints, parses back to that schedule, and
    arms a fresh recorder with it, at any clock reading within a minute of the
    origin. (C25) *)
Theorem arm_round_trip profile now now' connections :
  clock now -> let t := run_timing (for_profile profile) now in
  Z.abs (t_origin_ns t - now') <= ARM_ORIGIN_SKEW_MAX_NS ->
  let line := arm_line (t_origin_ns t) (start_ns (t_window t)) (end_ns (t_window t)) in
  let read := RdLine line (Z.of_nat (length line)) in
  Z.of_nat (length line) <= STDIN_LINE_MAX_BYTES /\
  stdin_controls [(read, true)] = [Arm line] /\ arm_input read = InArm line /\
  arm_recorder (Recorder_new connections) line now' =
    Ok {| armed := Some (t_origin_ns t / NS, t_window t); shards := shards (Recorder_new connections); foreign := 0 |}.
Proof.
  intros Hn t Hskew line read. destruct (run_timing_typed profile now Hn) as (Ho & Hs & He). fold t in Ho, Hs, He.
  destruct (run_timing_shape profile now Hn) as (Mo & Es & Ee). fold t in Mo, Es, Ee.
  assert (Hcut : cut_short line (Z.of_nat (length line)) = false).
  { unfold cut_short, ends_with_newline, line, arm_line. rewrite !app_assoc, last_snoc. done. }
  split; [by apply arm_line_short|]. split; [unfold read; cbn [stdin_controls]; by rewrite Hcut|]. split; [unfold read; cbn [arm_input]; by rewrite Hcut|].
  pose proof (profile_secs profile) as Hp. set (c := for_profile profile) in *. clearbody c. unfold ONE_SECOND_NS in *.
  unfold arm_recorder, line. rewrite parse_arm_line_ok; try done; unfold ONE_SECOND_NS; [|lia| |].
  - unfold arm_at. cbn [start_ns end_ns]. rewrite (proj2 (Z.ltb_ge _ _)) by lia. rewrite (proj2 (Z.ltb_ge _ _)) by lia.
    rewrite (proj2 (Z.leb_gt _ _)) by lia. unfold WINDOW_MAX_SPAN_NS. rewrite (proj2 (Z.ltb_ge _ _)) by lia. simpl.
    by destruct (t_window t).
  - rewrite Es, Z.mod_add by lia. done.
  - rewrite Ee, Es, !Z.mod_add by lia. done.
Qed.
End Arming.

(** ** The subscriber *)

Section SubLoopSpec.
Context `{HdrHistogram}.
Context (debug_packet : PacketV3 -> str) (show_topic : string -> str).

(** What an event does to the recorder when the loop accepts it. *)
Definition take_event (r : Recorder) (ev : SubEvent) : Recorder :=
  match ev with
  | SeArm (InArm line) now_ns => match arm_recorder r line now_ns with Ok r => r | Err _ => r end
  | SeFrame (Some (Ok (V3_Publish p))) now_ns thread _ => record_on_topic r (p_topic p) (p_payload p) now_ns thread
  | _ => r
  end.

(** The packet ids of the QoS 1 publishes among the events. *)
Definition acks_due (events : list SubEvent) : list Z :=
  omap (fun ev => match ev with
                  | SeFrame (Some (Ok (V3_Publish p))) _ _ _ => if bool_decide (p_qos p = AtLeastOnce) then p_packet_id p else None
                  | _ => None
                  end) events.

(** A delivery the subscription asked for, or the arming of the recorder. *)
Definition expected (qos : QoS) (ev : SubEvent) : Prop :=
  match ev with
  | SeFrame (Some (Ok (V3_Publish p))) _ _ _ => p_qos p = qos
  | SeFrame _ _ _ _ | SeShutdown => False
  | SeArm _ _ => True
  end.

Definition is_arm (ev : SubEvent) : bool := match ev with SeArm _ _ => true | _ => false end.

(** The stdin reader sends once. *)
Definition one_arm (pending : bool) (events : list SubEvent) : Prop :=
  (length (List.filter is_arm events) <= if pending then 1 else 0)%nat.

Record loop_account (s : SubLoop) (qos : QoS) (events : list SubEvent) (s' : SubLoop) (exit : option LoopExit) : Prop := {
  la_split : exists pre rest unacked, events = pre ++ rest /\ Forall (expected qos) pre /\
    sub_recorder s' = foldl take_event (sub_recorder s) pre /\ sub_acked s ++ acks_due pre = sub_acked s' ++ unacked /\
    (length unacked <= 1)%nat;
  la_stops : SeShutdown ∈ events -> exit <> None
}.

Lemma stalled_loop s qos events : waiting_for_shutdown s = true ->
  let '(s', exit) := read_loop debug_packet show_topic s qos events in
  s' = s /\ (SeShutdown ∈ events -> exit <> None).
Proof.
  intros Hw. induction events as [|ev events IH]; [by split; [|intros ?%elem_of_nil]|].
  destruct ev; cbn [read_loop]; rewrite ?Hw; [done|..];
    destruct (read_loop _ _ _ _ _) as [s' exit]; destruct IH as [-> IH]; (split; [done|]);
    intros [?|?]%elem_of_cons; [done|by apply IH|done|by apply IH].
Qed.

(** The loop goes on after an event it accepted. *)
Lemma account_cons s qos ev events s1 s' exit : expected qos ev -> sub_recorder s1 = take_event (sub_recorder s) ev ->
  sub_acked s1 = sub_acked s ++ acks_due [ev] -> loop_account s1 qos events s' exit -> loop_account s qos (ev :: events) s' exit.
Proof.
  intros Hx Hr Ha [(pre & rest & un & -> & Hf & Hrec & Hack & Hun) Hs]. split.
  - exists (ev :: pre), rest, un. split_and!; [done|by constructor|by rewrite Hrec, Hr| |done].
    rewrite <- Hack, Ha, <- app_assoc. f_equal. change (ev :: pre) with ([ev] ++ pre). unfold acks_due. by rewrite omap_app.
  - intros [<-|?]%elem_of_cons; [done|by apply Hs].
Qed.

(** The loop ends at an event, having taken it or not. *)
Lemma account_stop s qos ev events s' exit : (sub_recorder s' = sub_recorder s \/ expected qos ev /\ sub_recorder s' = take_event (sub_recorder s) ev) ->
  sub_acked s' = sub_acked s -> exit <> None -> loop_account s qos (ev :: events) s' exit.
Proof.
  intros Hr Ha He. split; [|done]. destruct Hr as [Hr|[Hx Hr]].
  - exists [], (ev :: events), []. rewrite Hr, Ha. split_and!; [done|constructor|done|done|simpl; lia].
  - exists [ev], events, (acks_due [ev]). rewrite Hr, Ha. split_and!; [done|by repeat constructor|done|done|].
    unfold acks_due. simpl. by repeat case_match; simpl; lia.
Qed.

Lemma on_arm_account s input now_ns : sub_acked (on_arm s input now_ns).1 = sub_acked s /\
  arm_pending (on_arm s input now_ns).1 = false /\
  sub_recorder (on_arm s input now_ns).1 = take_event (sub_recorder s) (SeArm input now_ns).
Proof. unfold on_arm. destruct input; try done. simpl. by destruct (arm_recorder _ _ _). Qed.

Lemma read_loop_account events : forall s qos, one_arm (arm_pending s) events -> waiting_for_shutdown s = false ->
  loop_account s qos events (read_loop debug_packet show_topic s qos events).1 (read_loop debug_packet show_topic s qos events).2.
Proof.
  induction events as [|ev events IH]; intros s qos Hone Hw.
  { split; [|by intros ?%elem_of_nil]. exists [], [], []. split_and!; [done|constructor|done|done|simpl; lia]. }
  destruct ev as [|input now_ns|frame now_ns thread ack]; cbn [read_loop]; [by apply account_stop; [left|..]|rewrite Hw..].
  - unfold one_arm in Hone. simpl in Hone. destruct (arm_pending s) eqn:Hp; [|lia].
    destruct (on_arm_account s input now_ns) as (Ha & Hp' & Hr).
    assert (Hw' : waiting_for_shutdown (on_arm s input now_ns).1 = false).
    { unfold on_arm. destruct input; try done. simpl. by destruct (arm_recorder _ _ _). }
    destruct (on_arm s input now_ns) as [s1 [exit|]]; cbn [fst] in *.
    + apply account_stop; [right|done|done]. done.
    + eapply account_cons; [done|exact Hr|by rewrite app_nil_r|]. apply IH; [|done]. rewrite Hp'. unfold one_arm. lia.
  - assert (Hone' : one_arm (arm_pending s) events) by done.
    unfold on_frame. destruct frame as [[p|e]|]; [|by apply account_stop; [left|..]|by apply account_stop; [left|..]].
    destruct p; try by (apply account_stop; [left|..]). unfold on_publish. case_bool_decide as Hq; cbn [negb];
      [|by apply account_stop; [left|..]].
    set (s1 := set_recorder s _). assert (Hr1 : sub_recorder s1 = take_event (sub_recorder s)
      (SeFrame (Some (Ok (V3_Publish p))) now_ns thread ack)) by done.
    case_bool_decide as H1.
    + destruct (p_packet_id p) as [id|] eqn:Eid; [|by apply account_stop; [right|..]].
      assert (Hdue : acks_due [SeFrame (Some (Ok (V3_Publish p))) now_ns thread ack] = [id]).
      { unfold acks_due. simpl. by rewrite bool_decide_eq_true_2, Eid. }
      unfold write_puback. destruct ack; try by (apply account_stop; [right|..]).
      * set (s2 := Build_SubLoop _ _ _ _ _). apply (account_cons s qos _ events s2); [done|done|by rewrite Hdue|]. by apply IH.
      * set (s2 := Build_SubLoop _ _ _ _ _). pose proof (stalled_loop s2 qos events eq_refl) as Hst.
        destruct (read_loop _ _ s2 qos events) as [s' exit]. destruct Hst as [-> Hst]. cbn [fst snd]. split.
        -- eexists [_], events, [id]. split_and!; [done|by repeat constructor|done|by rewrite Hdue|simpl; lia].
        -- intros [?|?]%elem_of_cons; [done|by apply Hst].
    + apply (account_cons s qos _ events s1); [done|done| |by apply IH]. unfold acks_due. simpl. by rewrite bool_decide_eq_false_2, app_nil_r.
Qed.

(** *** The run *)

Context (debug_reason : V3ConnectAckReason -> str) (decode_first : list Z -> option PacketV3).
Abbreviation sub_run := (run_sub debug_packet debug_reason show_topic decode_first).
Abbreviation setup_answer := (connect_and_subscribe debug_packet debug_reason decode_first).

Definition start_loop (r : Recorder) : SubLoop :=
  {| sub_recorder := r; arm_pending := true; waiting_for_shutdown := false; sub_acked := []; sub_printed := [lit "READY"] |}.

(** The broker confirmed the subscription that was asked for: an accepting
    CONNACK of a new session, nothing before the SUBSCRIBE, and a SUBACK with
    its packet id that grants the requested QoS and nothing else. *)
Record confirmed (qos : Z) (setup : SetupAnswers) : Prop := {
  cf_connected : su_connect setup = TOk tt /\ su_nodelay setup = None /\ su_write_connect setup = TOk tt;
  cf_connack : su_connack setup = TOk (Some (V3_ConnectAck {| v3_return_code := ConnectionAccepted; v3_session_present := false |}, 2));
  cf_silent : su_buffered setup = [] /\ (su_probe setup = ProbeAgain \/ su_probe setup = ProbeBytes []);
  cf_subscribed : su_write_subscribe setup = TOk tt;
  cf_suback : exists len, su_suback setup = TOk (Some (V3_SubscribeAck 1 [SrcSuccess (if qos =? 0 then AtMostOnce else AtLeastOnce)], len))
}.

Lemma setup_answer_spec addr qos setup : setup_answer addr qos setup = Ok tt <-> confirmed qos setup.
Proof.
  split.
  - unfold connect_and_subscribe, and_then. destruct (su_connect setup) as [[]| |] eqn:E1; try done.
    destruct (su_nodelay setup) eqn:E2; [done|]. destruct (su_write_connect setup) as [[]| |] eqn:E3; try done. cbn [write_with_timeout].
    destruct (su_connack setup) as [[[p len]|]| |] eqn:E4; try done. cbn [read_packet fst snd].
    destruct (check_connack _ _ p len) as [[]|] eqn:E5; [|done]. destruct (refuse_unsolicited_bytes _ _ _) as [[]|] eqn:E6; [|done].
    destruct (su_write_subscribe setup) as [[]| |] eqn:E7; try done. destruct (su_suback setup) as [[[q l]|]| |] eqn:E8; try done.
    cbn [write_with_timeout read_packet fst]. intros E9. split; [done| | |done|].
    + unfold check_connack in E5. destruct p as [|[code present]| | | | | | | | | | | |]; try done. cbn [v3_return_code v3_session_present] in E5.
      destruct (Z.eqb_spec len CONNACK_REMAINING_LENGTH) as [->|]; [|done]. case_bool_decide as Hc; [|done]. cbn [negb] in E5. subst code.
      destruct present; [done|]. by rewrite E4.
    + unfold refuse_unsolicited_bytes in E6. destruct (su_probe setup) as [|bytes| |e]; try done.
      * destruct (su_buffered setup), bytes; try done; eauto.
      * destruct (su_buffered setup); try done; eauto.
    + unfold check_suback in E9. destruct q as [| | | | | | | |id status| | | | |]; try done.
      destruct (Z.eqb_spec id SUBSCRIBE_PACKET_ID) as [->|]; [|done]. cbn [negb] in E9.
      destruct status as [|g [|g' st]]; try done. case_bool_decide as Hg; [|done]. subst g. exists l. by rewrite E8.
  - intros [(E1 & E2 & E3) E4 [E5 E6] E7 [l E8]]. unfold connect_and_subscribe. rewrite E1, E2, E3, E4, E5, E7, E8. simpl.
    assert (Hr : refuse_unsolicited_bytes decode_first [] (su_probe setup) = Ok tt) by (by destruct E6 as [-> | ->]).
    rewrite Hr. simpl. unfold qos_into_enum. by rewrite bool_decide_eq_true_2.
Qed.

(** What is printed stays printed. *)
Lemma read_loop_printed line events : forall s qos, line ∈ sub_printed s ->
  line ∈ sub_printed (read_loop debug_packet show_topic s qos events).1.
Proof.
  induction events as [|ev events IH]; intros s qos Hl; [done|]. destruct ev as [|input now_ns|frame now_ns thread ack]; cbn [read_loop]; [done| |];
    (destruct (waiting_for_shutdown s); [by apply IH|]).
  - destruct (arm_pending s); [|by apply IH]. assert (Hp : line ∈ sub_printed (on_arm s input now_ns).1).
    { unfold on_arm. destruct input; try done. simpl. destruct (arm_recorder _ _ _); [|done]. apply elem_of_app. by left. }
    destruct (on_arm s input now_ns) as [s1 [exit|]]; [done|by apply IH].
  - assert (Hp : line ∈ sub_printed (on_frame debug_packet show_topic s qos frame now_ns thread ack).1).
    { unfold on_frame, on_publish, write_puback. by repeat case_match. }
    destruct (on_frame _ _ s qos frame now_ns thread ack) as [s1 [exit|]]; [done|by apply IH].
Qed.

(** What a subscriber promises of its run. *)
Record sub_contract (qos connections : Z) (a : SubAnswers) (run : SubRun) : Prop := {
  sc_ready : lit "READY" ∈ sr_printed run -> exists setup, sb_setup a = Some setup /\ confirmed qos setup;
  sc_serves setup : qos <= 1 -> 0 < connections <= CONNECTIONS_MAX -> sb_addr a = None -> sb_runtime a = None -> sb_handler a = None ->
    sb_setup a = Some setup -> confirmed qos setup -> lit "READY" ∈ sr_printed run;
  sc_report r : sr_report run = Some r -> exists pre rest unacked, sb_events a = pre ++ rest /\
    Forall (expected (qos_into_enum qos)) pre /\
    r = with_drops (report (foldl take_event (Recorder_new connections) pre)) None None /\
    acks_due pre = sr_acked run ++ unacked /\ (length unacked <= 1)%nat;
  sc_success : sr_result run = Some (Ok tt) -> is_Some (sr_report run);
  sc_shutdown : lit "READY" ∈ sr_printed run -> sb_flush a = None -> sb_write a = None -> SeShutdown ∈ sb_events a ->
    is_Some (sr_report run)
}.

(** A run that failed before it could be ready. *)
Lemma failed_contract qos connections a e :
  (forall setup, qos <= 1 -> 0 < connections <= CONNECTIONS_MAX -> sb_addr a = None -> sb_runtime a = None -> sb_handler a = None ->
     sb_setup a = Some setup -> ~ confirmed qos setup) -> sub_contract qos connections a (sub_failed [] e).
Proof. intros Hn. split; try done; try (by intros ?%elem_of_nil). intros setup H1 H2 H3 H4 H5 H6 H7. by destruct (Hn setup H1 H2 H3 H4 H5 H6). Qed.

Lemma write_run_report_spec w r : write_run_report w r = (None, Err (EText (default [] w))) /\ w <> None \/
  w = None /\ write_run_report w r = (Some (with_drops (report r) None None), Ok tt).
Proof. destruct w; [by left|by right]. Qed.

(** The subscriber's report and acknowledgements are those of the deliveries it
    accepted: whatever the broker and the host do, READY is printed only after
    the broker confirmed exactly the subscription that was asked for, and is
    printed once it did on a host that starts the endpoint; a
    report that is written is the recorder's account of a prefix of the events,
    all of it deliveries at the requested QoS and the one ARM line; the PUBACKs
    are those of that prefix in order, except possibly the last; a run that ends
    well has a report, and once READY was printed a shutdown leads to one if
    READY could be flushed and the report can be written.
    (C27) *)
Theorem sub_run_accounts addr qos connections a : one_arm true (sb_events a) ->
  sub_contract qos connections a (sub_run addr qos connections a).
Proof.
  intros Hone. unfold run_sub. destruct (Z.ltb_spec 1 qos); [apply failed_contract; intros; lia|].
  destruct (_ || _) eqn:Ec; [apply failed_contract; intros; zbool; lia|].
  destruct (sb_addr a) eqn:Eaddr; [by apply failed_contract; intros; congruence|].
  destruct (sb_runtime a) eqn:Ert; [by apply failed_contract; intros; congruence|].
  unfold run_sub_session. destruct (sb_handler a) eqn:Eh; [by apply failed_contract; intros; congruence|]. destruct (sb_setup a) as [setup|] eqn:Es.
  2: { destruct (write_run_report_spec (sb_write a) (Recorder_new connections)) as [[-> Hw]|[Hw ->]].
       - split; try done; try (by intros ?%elem_of_nil). congruence.
       - split; try done; try (by intros ?%elem_of_nil); [congruence|]. intros r [= <-]. exists [], (sb_events a), []. split_and!; try done. simpl; lia. }
  destruct (setup_answer addr qos setup) as [[]|e] eqn:Ea.
  2: { apply failed_contract. intros s _ _ _ _ _ Hs Hc%(setup_answer_spec addr). congruence. }
  apply setup_answer_spec in Ea. destruct (sb_flush a) as [e|] eqn:Ef.
  { split; try done; [intros _; by exists setup|intros; by left|]. intros _ ?. congruence. }
  fold (start_loop (Recorder_new connections)).
  destruct (read_loop_account (sb_events a) (start_loop (Recorder_new connections)) (qos_into_enum qos) Hone eq_refl)
    as [(pre & rest & un & Hev & Hexp & Hrec & Hack & Hun) Hstop].
  pose proof (read_loop_printed (lit "READY") (sb_events a) (start_loop (Recorder_new connections)) (qos_into_enum qos) ltac:(by left)) as Hpr.
  destruct (read_loop _ _ _ _ _) as [s' [exit|]] eqn:El; cbn [fst snd] in *.
  - destruct (write_run_report_spec (sb_write a) (sub_recorder s')) as [[-> Hw]|[Hw ->]]; split; try done; try (intros _; by exists setup).
    intros r [= <-]. exists pre, rest, un. simpl in Hrec. by rewrite Hrec.
  - split; try done; [intros _; by exists setup|]. intros _ _ _ Hin. by destruct (Hstop Hin).
Qed.
End SubLoopSpec.

(** ** Loads per worker *)

Section LoadsSpec.
Context `{HdrHistogram}.

Definition served (s : Shard) : bool := match first_thread s with Some _ => true | None => false end.
Definition threads_of (l : list Shard) : list Z := omap first_thread l.
Definition total_of (f : WorkerGroup -> Z) (groups : list WorkerGroup) : Z := sumZ (f <$> groups).

Lemma add_to_groups_spec t s groups : 0 <= s_delivered s -> Forall (fun g => 0 <= g_delivered g /\ 1 <= g_connections g) groups ->
  total_of g_delivered groups + s_delivered s < 2 ^ 64 ->
  let groups' := add_to_groups t s groups in
  g_thread <$> groups' = (if bool_decide (t ∈ g_thread <$> groups) then g_thread <$> groups else (g_thread <$> groups) ++ [t]) /\
  total_of g_connections groups' = total_of g_connections groups + 1 /\
  total_of g_delivered groups' = total_of g_delivered groups + s_delivered s /\
  Forall (fun g => 0 <= g_delivered g /\ 1 <= g_connections g) groups'.
Proof.
  intros Hs Hg Hb. induction Hg as [|g groups [Hd Hc] Hg IH]; unfold total_of in *; cbn [add_to_groups fmap list_fmap].
  - cbn in Hb |- *. rewrite bool_decide_eq_false_2 by apply not_elem_of_nil. unfold sat_add.
    split_and!; [done|done|lia|]. apply Forall_singleton. simpl. unfold sat_add. lia.
  - rewrite fmap_cons, sumZ_cons in Hb. assert (H0 : 0 <= sumZ (g_delivered <$> groups)).
    { apply sumZ_nonneg, Forall_fmap. eapply Forall_impl; [exact Hg|]. by intros x []. }
    destruct (Z.eqb_spec (g_thread g) t) as [<-|Hne].
    + rewrite bool_decide_eq_true_2 by (by left). rewrite !fmap_cons, !sumZ_cons. cbn. unfold sat_add.
      split_and!; [done|lia|lia|]. constructor; [simpl; unfold sat_add; lia|done].
    + destruct IH as (Ht & Hc' & Hd' & Hf); [lia|]. rewrite !fmap_cons, !sumZ_cons, Hc', Hd', Ht.
      split_and!; [|lia|lia|by constructor]. case_bool_decide as Hin.
      * by rewrite bool_decide_eq_true_2 by (by right).
      * by rewrite bool_decide_eq_false_2 by (intros [?|?]%elem_of_cons; [congruence|done]).
Qed.

Lemma worker_groups_snoc l s : worker_groups (l ++ [s]) =
  match first_thread s with Some t => add_to_groups t s (worker_groups l) | None => worker_groups l end.
Proof. unfold worker_groups. by rewrite foldl_app. Qed.

(** Every connection that delivered is in the group of its thread, one group per
    thread. *)
Lemma worker_groups_spec l : Forall (fun s => 0 <= s_delivered s) l -> sumZ (s_delivered <$> l) < 2 ^ 64 ->
  let groups := worker_groups l in
  NoDup (g_thread <$> groups) /\ (forall t, t ∈ g_thread <$> groups <-> t ∈ threads_of l) /\
  total_of g_connections groups = Z.of_nat (length (threads_of l)) /\
  total_of g_delivered groups = sumZ (s_delivered <$> List.filter served l) /\
  Forall (fun g => 0 <= g_delivered g /\ 1 <= g_connections g) groups.
Proof.
  induction l as [|s l IH] using rev_ind; intros Hn Hb.
  { unfold worker_groups, total_of. simpl. split_and!; try done; constructor. }
  apply Forall_app in Hn as [Hn [Hs _]%Forall_cons]. rewrite fmap_app, sumZ_app in Hb. simpl in Hb.
  destruct IH as (Hnd & Ht & Hc & Hd & Hf); [done|lia|]. rewrite worker_groups_snoc. unfold threads_of in *.
  rewrite omap_app, List.filter_app, fmap_app, sumZ_app, length_app. cbn [omap List.filter]. unfold served at 2.
  destruct (first_thread s) as [t|] eqn:Et; cbn; rewrite ?Et; [|rewrite ?app_nil_r, ?Z.add_0_r, ?Nat.add_0_r; done].
  assert (Hle : sumZ (s_delivered <$> List.filter served l) <= sumZ (s_delivered <$> l)).
  { clear -Hn. induction Hn as [|x l Hx _ IH]; cbn [List.filter]; [done|]. rewrite fmap_cons, sumZ_cons.
    destruct (served x); rewrite ?fmap_cons, ?sumZ_cons; lia. }
  destruct (add_to_groups_spec t s (worker_groups l)) as (Ht' & Hc' & Hd' & Hf'); [done|done|lia|].
  rewrite Ht', Hc', Hd', Hc, Hd. cbn. split_and!; [| |lia|lia|done].
  - case_bool_decide as Hin; [done|]. apply NoDup_app. split_and!; [done| |by apply NoDup_singleton].
    intros x Hx ->%list_elem_of_singleton. done.
  - intros x. rewrite elem_of_app, list_elem_of_singleton, <- Ht. case_bool_decide as Hin; [|by rewrite elem_of_app, list_elem_of_singleton].
    naive_solver.
Qed.

Lemma load_before_total a b : load_before a b = false -> load_before b a = true.
Proof. unfold load_before. rewrite !orb_false_iff, orb_true_iff, andb_false_iff, andb_true_iff, !Z.ltb_ge, Z.ltb_lt, !Z.eqb_neq, !Z.eqb_eq, Z.leb_gt, Z.leb_le. lia. Qed.

Lemma load_before_trans a b c : load_before a b = true -> load_before b c = true -> load_before a c = true.
Proof. unfold load_before. rewrite !orb_true_iff, !andb_true_iff, !Z.ltb_lt, !Z.eqb_eq, !Z.leb_le. lia. Qed.

Lemma sumZ_perm l k : l ≡ₚ k -> sumZ l = sumZ k.
Proof. unfold sumZ. induction 1; simpl; lia. Qed.

Lemma threads_served l : length (threads_of l) = length (List.filter served l).
Proof.
  unfold threads_of. induction l as [|s l IH]; [done|]. cbn. unfold served at 1. destruct (first_thread s); cbn; by rewrite IH.
Qed.

(** The loads account for the run: one entry per server thread that delivered,
    heaviest first and padded to the number of workers, which together hold
    every connection that delivered and every delivery. *)
Theorem worker_loads_account (r : Recorder) (workers : nat) :
  Forall (fun s => 0 <= s_delivered s) (shards r) -> sumZ (s_delivered <$> shards r) < 2 ^ 64 ->
  let loads := Recorder_worker_loads r workers in
  StronglySorted (fun a b => load_before a b = true) loads /\
  length loads = Nat.max workers (size (list_to_set (threads_of (shards r)) : gset Z)) /\
  sumZ (connections <$> loads) = Z.of_nat (length (List.filter served (shards r))) /\
  sumZ (load_delivered <$> loads) = sumZ (s_delivered <$> List.filter served (shards r)).
Proof.
  intros Hn Hb. destruct (worker_groups_spec _ Hn Hb) as (Hnd & Ht & Hc & Hd & Hf). unfold Recorder_worker_loads.
  set (groups := worker_groups (shards r)) in *. set (sorted := sort_by _ _).
  assert (Hp : sorted ≡ₚ load_of <$> groups) by apply sort_by_perm.
  assert (Hlen : length sorted = size (list_to_set (threads_of (shards r)) : gset Z)).
  { rewrite Hp, length_fmap, <- (length_fmap g_thread), <- (size_list_to_set (C := gset Z)) by done. f_equal. set_solver. }
  assert (Hsort : StronglySorted (fun a b => load_before a b = true) sorted).
  { apply sort_by_sorted; [apply load_before_total|apply load_before_trans]. }
  assert (Hserved : length (threads_of (shards r)) = length (List.filter served (shards r))).
  { apply threads_served. }
  assert (Hsc : sumZ (connections <$> sorted) = Z.of_nat (length (List.filter served (shards r)))).
  { rewrite (sumZ_perm _ (connections <$> (load_of <$> groups))) by (by rewrite Hp). rewrite <- list_fmap_compose, <- Hserved. exact Hc. }
  assert (Hsd : sumZ (load_delivered <$> sorted) = sumZ (s_delivered <$> List.filter served (shards r))).
  { rewrite (sumZ_perm _ (load_delivered <$> (load_of <$> groups))) by (by rewrite Hp). rewrite <- list_fmap_compose. exact Hd. }
  destruct (Nat.ltb_spec (length sorted) workers) as [Hlt|Hge]; [|split_and!; [done|lia|done|done]].
  assert (Hpos : Forall (fun x => load_before x no_load = true) sorted).
  { rewrite Hp. apply Forall_fmap. eapply Forall_impl; [exact Hf|]. intros g [? ?]. unfold load_before. simpl.
    by rewrite (proj2 (Z.ltb_lt _ _)) by lia. }
  rewrite !fmap_app, !fmap_replicate, !sumZ_app, !sumZ_zeros, length_app, length_replicate. split_and!; [|lia..].
  generalize (workers - length sorted)%nat. intros n. clear -Hsort Hpos. induction Hsort as [|x l Hl IH Hx]; simpl.
  - induction n as [|n IH]; simpl; [constructor|]. constructor; [done|]. by apply Forall_replicate.
  - apply Forall_cons in Hpos as [Hx0 Hpos]. constructor; [by apply IH|]. apply Forall_app. split; [done|]. by apply Forall_replicate.
Qed.
End LoadsSpec.

(** ** A subscriber that is armed, gets one delivery and is stopped *)

Module SampleSub.
#[local] Existing Instance RecorderWitness.samples.

Definition debug_packet (p : PacketV3) : str := lit (packet_kind p).
Definition debug_reason (r : V3ConnectAckReason) : str := lit "refused".
Definition show_topic (t : string) : str := lit t.
Definition decode_first (b : list Z) : option PacketV3 := None.

Definition connack : PacketV3 := V3_ConnectAck {| v3_return_code := ConnectionAccepted; v3_session_present := false |}.
Definition setup : SetupAnswers :=
  {| su_connect := TOk tt; su_nodelay := None; su_write_connect := TOk tt; su_connack := TOk (Some (connack, 2));
     su_buffered := []; su_probe := ProbeAgain; su_write_subscribe := TOk tt;
     su_suback := TOk (Some (V3_SubscribeAck 1 [SrcSuccess AtLeastOnce], 3)) |}.
Definition delivery : CodecPublish :=
  {| p_dup := false; p_retain := false; p_qos := AtLeastOnce; p_topic := TOPIC; p_packet_id := Some 7;
     p_payload := Stamp_encode {| conn_id := 0; seq_no := 0; scheduled_ns := 105000000000 |}; p_properties := None |}.
Definition events : list SubEvent :=
  [SeArm (InArm (arm_line 101000000000 103000000000 108000000000)) 100000000000;
   SeFrame (Some (Ok (V3_Publish delivery))) 105000000001 1 AckWritten; SeShutdown].
Definition answers : SubAnswers :=
  {| sb_addr := None; sb_runtime := None; sb_handler := None; sb_setup := Some setup; sb_flush := None; sb_events := events;
     sb_write := None |}.
Definition run : SubRun := run_sub debug_packet debug_reason show_topic decode_first (lit "127.0.0.1:1883") 1 4 answers.

Example run_acked : sr_printed run = [lit "READY"; lit "ARMED"] /\ sr_acked run = [7] /\ sr_result run = Some (Ok tt) /\
  (delivered <$> sr_report run) = Some 1.
Proof. by vm_compute. Qed.
End SampleSub.

Section Witnesses.
#[local] Existing Instance RecorderWitness.samples.

Lemma sub_run_accounts_witness :
  sub_contract 1 4 SampleSub.answers SampleSub.run.
Proof. apply (sub_run_accounts SampleSub.debug_packet SampleSub.show_topic). vm_compute. lia. Defined.

Lemma arm_round_trip_witness :
  arm_recorder (Recorder_new 4) (arm_line 101000000000 103000000000 108000000000) 99600000000 =
    Ok {| armed := Some (101, {| start_ns := 103000000000; end_ns := 108000000000 |}); shards := shards (Recorder_new 4); foreign := 0 |}.
Proof.
  destruct (arm_round_trip Smoke 99500000000 99600000000 4) as (_ & _ & _ & E);
    [by split|vm_compute; congruence|exact E].
Defined.

Lemma worker_loads_account_witness :
  sumZ (load_delivered <$> Recorder_worker_loads (Recorder_new 4) 2) = 0.
Proof.
  destruct (worker_loads_account (Recorder_new 4) 2) as (_ & _ & _ & E); [by repeat constructor|done|exact E].
Defined.
End Witnesses.
