(* ===== verification/GenConn.v ===== *)
(** * The load generator's connections

    bench/src/gen.rs: opening a session, the closed-loop QoS 1 and QoS 0
    connections with their readers and teardowns, the connections mode and the
    frame of a latency connection.

    A QoS 1 connection is two tasks, its writer and its reader, that run on
    different threads and share a semaphore, the packet ids and an in-flight
    counter.  [q1_step] is one step of one of them, at the granularity of the
    shared operations: an action carries what the host answers, and a run is a
    list of actions, so every interleaving is one.  The other modes are
    functions of the host's answers.  Text of errors is an argument. *)

From S2P Require Import Prelude Text Rmqtt Wire Recorder Generator Pacer Endpoint.

(** ** Counters *)

(** What a connection adds to the shared [Counters]; each field is an
    [AtomicU64]. *)
Record Tally := {
  t_offered : Z; t_acked : Z; t_connect_errors : Z; t_protocol_errors : Z; t_stalled : Z; t_cycles : Z
}.

Definition no_tally : Tally :=
  {| t_offered := 0; t_acked := 0; t_connect_errors := 0; t_protocol_errors := 0; t_stalled := 0; t_cycles := 0 |}.

Definition add_offered (c : Tally) (n : Z) : Tally :=
  {| t_offered := wrap64 (t_offered c + n); t_acked := t_acked c; t_connect_errors := t_connect_errors c;
     t_protocol_errors := t_protocol_errors c; t_stalled := t_stalled c; t_cycles := t_cycles c |}.
Definition add_acked (c : Tally) (n : Z) : Tally :=
  {| t_offered := t_offered c; t_acked := wrap64 (t_acked c + n); t_connect_errors := t_connect_errors c;
     t_protocol_errors := t_protocol_errors c; t_stalled := t_stalled c; t_cycles := t_cycles c |}.
Definition add_connect_errors (c : Tally) (n : Z) : Tally :=
  {| t_offered := t_offered c; t_acked := t_acked c; t_connect_errors := wrap64 (t_connect_errors c + n);
     t_protocol_errors := t_protocol_errors c; t_stalled := t_stalled c; t_cycles := t_cycles c |}.
Definition add_protocol_errors (c : Tally) (n : Z) : Tally :=
  {| t_offered := t_offered c; t_acked := t_acked c; t_connect_errors := t_connect_errors c;
     t_protocol_errors := wrap64 (t_protocol_errors c + n); t_stalled := t_stalled c; t_cycles := t_cycles c |}.
Definition tally_stalled (c : Tally) (n : Z) : Tally :=
  {| t_offered := t_offered c; t_acked := t_acked c; t_connect_errors := t_connect_errors c;
     t_protocol_errors := t_protocol_errors c; t_stalled := wrap64 (t_stalled c + n); t_cycles := t_cycles c |}.
Definition add_cycles (c : Tally) (n : Z) : Tally :=
  {| t_offered := t_offered c; t_acked := t_acked c; t_connect_errors := t_connect_errors c;
     t_protocol_errors := t_protocol_errors c; t_stalled := t_stalled c; t_cycles := wrap64 (t_cycles c + n) |}.

(** ** Opening a session *)

Inductive OpenError := OpConnect (reason : str) | OpProtocol (reason : str).

(** rmqtt-codec's [DecodeError]: a failed read, or a frame it rejects. *)
Inductive FrameError := FeIo (e : str) | FeCodec (e : str).

Section Open.
Context (debug_reason : V3ConnectAckReason -> str).

(** What the host and the broker answer; [oa_connack] is [None] after
    the I/O timeout and [Some None] when the peer closed, [oa_read_ahead]
    counts the bytes left in the codec's buffer, [oa_now] is the clock. *)
Record OpenAnswers := {
  oa_connect : Timed unit; oa_nodelay : option str; oa_write : Timed unit;
  oa_connack : option (option (result (PacketV3 * Z) FrameError)); oa_read_ahead : Z; oa_now : Z
}.

Definition timed_out_after (what : str) : str := what ++ lit ": timed out after " ++ dec IO_TIMEOUT_SECS ++ lit " s".

Definition check_open_connack (ack : V3ConnectAck) (remaining_length : Z) : option str :=
  if negb (remaining_length =? CONNACK_REMAINING_LENGTH) then
    Some (lit "CONNACK remaining length was " ++ dec remaining_length ++ lit ", expected " ++ dec CONNACK_REMAINING_LENGTH)
  else if negb (bool_decide (v3_return_code ack = ConnectionAccepted)) then
    Some (lit "CONNACK refused the session: " ++ debug_reason (v3_return_code ack))
  else if v3_session_present ack then Some (lit "CONNACK claimed Session Present for a CleanSession CONNECT")
  else None.

(** The time left to the hard deadline, in nanoseconds. *)
Definition session_deadline (config : GenConfig) (now : Z) : Z :=
  Z.max (sat_sub (sat_add 64 (end_ns (window config)) (if drain_grace_ns config <? 2 ^ 64 then drain_grace_ns config else 0)) now) 1.

Definition open_session (addr : str) (config : GenConfig) (a : OpenAnswers) : result Z OpenError :=
  match oa_connect a with
  | TFailed e => Err (OpConnect (lit "connect " ++ addr ++ lit ": " ++ e))
  | TTimedOut => Err (OpConnect (timed_out_after (lit "connect " ++ addr)))
  | TOk _ =>
  match oa_nodelay a with
  | Some e => Err (OpConnect (lit "set TCP_NODELAY: " ++ e))
  | None =>
  match oa_write a with
  | TFailed e => Err (OpConnect (lit "write CONNECT: " ++ e))
  | TTimedOut => Err (OpConnect (timed_out_after (lit "write CONNECT")))
  | TOk _ =>
  match oa_connack a with
  | None => Err (OpConnect (timed_out_after (lit "read CONNACK")))
  | Some None => Err (OpConnect (lit "peer closed before CONNACK"))
  | Some (Some (Err (FeIo e))) => Err (OpConnect (lit "read CONNACK: " ++ e))
  | Some (Some (Err (FeCodec e))) => Err (OpProtocol (lit "CONNACK decode failed: " ++ e))
  | Some (Some (Ok (V3_ConnectAck ack, remaining_length))) =>
      match check_open_connack ack remaining_length with
      | Some reason => Err (OpProtocol reason)
      | None =>
          if 0 <? oa_read_ahead a then
            Err (OpProtocol (lit "CONNACK was followed by " ++ dec (oa_read_ahead a) ++ lit " unsolicited bytes"))
          else Ok (session_deadline config (oa_now a))
      end
  | Some (Some (Ok _)) => Err (OpProtocol (lit "first packet was not a CONNACK"))
  end end end end.
End Open.

(** The counters of a session that was not opened. *)
Definition open_failed (c : Tally) (e : OpenError) : Tally :=
  match e with
  | OpConnect _ => add_connect_errors c 1
  | OpProtocol _ => add_protocol_errors (add_connect_errors c 1) 1
  end.

(** ** Results *)

Definition publish_write_failure (r : Timed unit) : option str :=
  match r with
  | TOk _ => None
  | TFailed e => Some (lit "publish write failed: " ++ e)
  | TTimedOut => Some (lit "publish write did not finish by the hard deadline")
  end.

Definition teardown_failure (disconnect : option (Timed unit)) (shutdown : option str) : option str :=
  let causes :=
    match disconnect with
    | None | Some (TOk _) => []
    | Some (TFailed e) => [lit "DISCONNECT write failed: " ++ e]
    | Some TTimedOut => [lit "DISCONNECT write did not finish by the hard deadline"]
    end in
  let causes := match shutdown with Some e => causes ++ [lit "write-half shutdown failed: " ++ e] | None => causes end in
  match causes with [] => None | _ => Some (join (lit "; ") causes) end.

Definition gen_session_result (failure teardown : option str) : result unit str :=
  match failure, teardown with
  | None, None => Ok tt
  | Some cause, None | None, Some cause => Err cause
  | Some first, Some next => Err (first ++ lit "; " ++ next)
  end.

(** ** A QoS 1 connection *)

(** Where the reader is: between frames, inside the four shared operations of an
    accepted PUBACK, printing a line ([more] frames after it or not), ended, or
    ended by a panic (of a print to a closed stderr). *)
Inductive ReaderPc :=
| RdNext | RdRelease (id : Z) | RdAcked | RdPermit | RdSub
| RdSay (line : str) (more : bool) | RdStopped | RdPanicked (e : str).

(** Where the writer is.  [held] counts the permits of the batch, [room] those
    without a packet id yet. *)
Inductive WriterPc :=
| WTop
| WAcquire
| WFill (held : nat)
| WEncode (room : nat) (ids : list Z) (buf : list Z)
| WOffer (ids : list Z) (buf : list Z)
| WSubmit (ids : list Z) (buf : list Z)
| WWrite (buf : list Z)
| WDrain (failure : option str)
| WStop (failure : option str)
| WCount (failure : option str)
| WDisconnect (failure : option str) (stopped : bool)
| WShutdown (failure : option str) (stopped : bool) (disconnect : option (Timed unit))
| WJoin (failure : option str) (disconnect : option (Timed unit)) (shutdown : option str)
| WReturned (r : result unit str)
| WPanicked (e : str)
| WCancelled.

(** The state of a connection, with its history: the publishes encoded (packet
    id and stamp time) and the ids its reader released, in order, the buffers
    whose write began, and the lines printed. *)
Record Q1Conn := {
  q_writer : WriterPc;
  q_reader : ReaderPc;
  q_said : bool;                 (* [rejection_reported] *)
  q_permits : Z;
  q_ids : PacketIds;
  q_in_flight : Z;
  q_tally : Tally;
  q_sent : list (Z * Z);
  q_back : list Z;
  q_wire : list (list Z);
  q_lines : list str
}.

Definition q1_start (config : GenConfig) : Q1Conn :=
  {| q_writer := WTop; q_reader := RdNext; q_said := false; q_permits := qos1_window config; q_ids := PacketIds_new;
     q_in_flight := 0; q_tally := no_tally; q_sent := []; q_back := []; q_wire := []; q_lines := [] |}.

Definition set_writer (c : Q1Conn) (pc : WriterPc) : Q1Conn :=
  {| q_writer := pc; q_reader := q_reader c; q_said := q_said c; q_permits := q_permits c; q_ids := q_ids c;
     q_in_flight := q_in_flight c; q_tally := q_tally c; q_sent := q_sent c; q_back := q_back c; q_wire := q_wire c;
     q_lines := q_lines c |}.
Definition set_reader (c : Q1Conn) (pc : ReaderPc) : Q1Conn :=
  {| q_writer := q_writer c; q_reader := pc; q_said := q_said c; q_permits := q_permits c; q_ids := q_ids c;
     q_in_flight := q_in_flight c; q_tally := q_tally c; q_sent := q_sent c; q_back := q_back c; q_wire := q_wire c;
     q_lines := q_lines c |}.
Definition set_permits (c : Q1Conn) (n : Z) : Q1Conn :=
  {| q_writer := q_writer c; q_reader := q_reader c; q_said := q_said c; q_permits := n; q_ids := q_ids c;
     q_in_flight := q_in_flight c; q_tally := q_tally c; q_sent := q_sent c; q_back := q_back c; q_wire := q_wire c;
     q_lines := q_lines c |}.
Definition set_in_flight (c : Q1Conn) (n : Z) : Q1Conn :=
  {| q_writer := q_writer c; q_reader := q_reader c; q_said := q_said c; q_permits := q_permits c; q_ids := q_ids c;
     q_in_flight := n; q_tally := q_tally c; q_sent := q_sent c; q_back := q_back c; q_wire := q_wire c;
     q_lines := q_lines c |}.
Definition set_tally (c : Q1Conn) (t : Tally) : Q1Conn :=
  {| q_writer := q_writer c; q_reader := q_reader c; q_said := q_said c; q_permits := q_permits c; q_ids := q_ids c;
     q_in_flight := q_in_flight c; q_tally := t; q_sent := q_sent c; q_back := q_back c; q_wire := q_wire c;
     q_lines := q_lines c |}.
Definition set_ids (c : Q1Conn) (p : PacketIds) (sent : list (Z * Z)) (back : list Z) : Q1Conn :=
  {| q_writer := q_writer c; q_reader := q_reader c; q_said := q_said c; q_permits := q_permits c; q_ids := p;
     q_in_flight := q_in_flight c; q_tally := q_tally c; q_sent := sent; q_back := back; q_wire := q_wire c;
     q_lines := q_lines c |}.
Definition set_output (c : Q1Conn) (said : bool) (wire : list (list Z)) (lines : list str) : Q1Conn :=
  {| q_writer := q_writer c; q_reader := q_reader c; q_said := said; q_permits := q_permits c; q_ids := q_ids c;
     q_in_flight := q_in_flight c; q_tally := q_tally c; q_sent := q_sent c; q_back := q_back c; q_wire := wire;
     q_lines := lines |}.

(** What happens next: a step of the writer, or of the reader, with the host's
    answer. *)
Inductive Action :=
| AClock (now : Z)                        (* the loop condition *)
| AAcquire (got : bool)                   (* [acquire_owned], or the window's end *)
| ATry                                    (* one [try_acquire_owned] *)
| AEncode (now : Z)                       (* one packet id and its PUBLISH, or the end of the loop *)
| AOffer                                  (* [add_offered] *)
| ASubmit                                 (* [in_flight.fetch_add], and the permits are forgotten *)
| AWrite (answer : Timed unit)
| ADrain (deadline : bool)                (* one look at [in_flight], or the deadline *)
| AStop                                   (* the aborted reader is awaited *)
| ACount                                  (* [in_flight] is read and counted *)
| ADisconnect (answer : Timed unit)
| AShutdown (answer : option str)
| AJoin (deadline : bool)
| ACancel                                 (* the connection's task is aborted *)
| AItem (item : option (result PacketV3 FrameError))   (* [None] is the end of the stream *)
| AReader                                 (* the reader's next shared operation *)
| ASay (failed : option str)              (* [eprintln!] *)
| AReaderAborted.                         (* the handle went with its task *)

Section Qos1.
Context (conn_id : Z) (config : GenConfig).

Definition stamp_of (seq scheduled : Z) : list Z :=
  Stamp_encode {| Wire.conn_id := conn_id; seq_no := seq; scheduled_ns := scheduled |}.

(** [next_seq] saturates. *)
Definition seq_after (sent : nat) : Z := Z.min (2 ^ 64 - 1) (Z.of_nat sent).

(** The end of [encode_qos1_batch]: without an id the permits go back to the
    semaphore, otherwise the batch holds them all. *)
Definition encoded (c : Q1Conn) (room : nat) (ids buf : list Z) : Q1Conn :=
  match ids with
  | [] => set_writer (set_permits c (q_permits c + Z.of_nat room)) WTop
  | _ => set_writer c (WOffer ids buf)
  end.

Definition encode_one (c : Q1Conn) (room : nat) (ids buf : list Z) (now : Z) : option Q1Conn :=
  match room with
  | O => Some (encoded c 0 ids buf)
  | S n =>
      match PacketIds_allocate (q_ids c) with
      | (None, p) => Some (encoded (set_ids c p (q_sent c) (q_back c)) room ids buf)
      | (Some id, p) =>
          match encode_publish buf 1 (Some id) (stamp_of (seq_after (length (q_sent c))) now) with
          | None => None
          | Some buf => Some (set_writer (set_ids c p (q_sent c ++ [(id, now)]) (q_back c)) (WEncode n (ids ++ [id]) buf))
          end
      end
  end.

(** The reader's handle is awaited after an abort: it resolves when the reader
    is between frames or ended, and re-raises a panic. *)
Definition await_aborted (c : Q1Conn) (next : WriterPc) : option Q1Conn :=
  match q_reader c with
  | RdNext | RdStopped => Some (set_writer (set_reader c RdStopped) next)
  | RdPanicked e => Some (set_writer c (WPanicked e))
  | _ => None
  end.

(** [fill_batch]: one more permit, or the batch is full or the semaphore empty. *)
Definition fill_one (c : Q1Conn) (held : nat) : Q1Conn :=
  if (held <? BATCH)%nat && (0 <? q_permits c)
  then set_writer (set_permits c (q_permits c - 1)) (WFill (S held))
  else set_writer c (WEncode held [] []).

(** The loop of [run_qos1_throughput]. *)
Definition publish_step (c : Q1Conn) (a : Action) : option Q1Conn :=
  match q_writer c, a with
  | WTop, AClock now => Some (set_writer c (if now <? end_ns (window config) then WAcquire else WDrain None))
  | WAcquire, AAcquire got =>
      if got then if 0 <? q_permits c then Some (set_writer (set_permits c (q_permits c - 1)) (WFill 1)) else None
      else Some (set_writer c (WDrain None))
  | WFill held, ATry => Some (fill_one c held)
  | WEncode room ids buf, AEncode now => encode_one c room ids buf now
  | WOffer ids buf, AOffer =>
      Some (set_writer (set_tally c (add_offered (q_tally c) (Z.of_nat (length ids)))) (WSubmit ids buf))
  | WSubmit ids buf, ASubmit =>
      Some (set_writer (set_in_flight c (wrap64 (q_in_flight c + Z.of_nat (length ids)))) (WWrite buf))
  | WWrite buf, AWrite answer =>
      let c := set_output c (q_said c) (q_wire c ++ [buf]) (q_lines c) in
      Some (set_writer c match publish_write_failure answer with None => WTop | Some cause => WDrain (Some cause) end)
  | _, _ => None
  end.

(** [qos1_drain_and_disconnect]. *)
Definition drain_step (c : Q1Conn) (a : Action) : option Q1Conn :=
  match q_writer c, a with
  | WDrain failure, ADrain deadline =>
      if deadline then Some (set_writer c (WStop failure))
      else if 0 <? q_in_flight c then Some c
      else Some (set_writer c (if bool_decide (failure = None) then WDisconnect None false else WStop failure))
  | WStop failure, AStop => await_aborted c (WCount failure)
  | WCount failure, ACount =>
      let c := if 0 <? q_in_flight c then set_tally c (tally_stalled (q_tally c) (q_in_flight c)) else c in
      Some (set_writer c (WDisconnect failure true))
  | WDisconnect failure stopped, ADisconnect answer =>
      Some (set_writer c (WShutdown failure stopped (if bool_decide (failure = None) then Some answer else None)))
  | WShutdown failure stopped disconnect, AShutdown answer =>
      Some (set_writer c
        (if stopped then WReturned (gen_session_result failure (teardown_failure disconnect answer))
         else WJoin failure disconnect answer))
  | WJoin failure disconnect shutdown, AJoin deadline =>
      let next := WReturned (gen_session_result failure (teardown_failure disconnect shutdown)) in
      match q_reader c with
      | RdStopped | RdPanicked _ => await_aborted c next
      | _ => if deadline then await_aborted c next else None
      end
  | _, _ => None
  end.

(** A task is cancelled where it awaits. *)
Definition cancel_step (c : Q1Conn) : option Q1Conn :=
  match q_writer c with
  | WAcquire | WDrain _ | WStop _ | WDisconnect _ _ | WShutdown _ _ _ | WJoin _ _ _ => Some (set_writer c WCancelled)
  | WWrite buf => Some (set_writer (set_output c (q_said c) (q_wire c ++ [buf]) (q_lines c)) WCancelled)
  | _ => None
  end.

Definition writer_step (c : Q1Conn) (a : Action) : option Q1Conn :=
  match a with
  | AClock _ | AAcquire _ | ATry | AEncode _ | AOffer | ASubmit | AWrite _ => publish_step c a
  | ACancel => cancel_step c
  | _ => drain_step c a
  end.

Definition reader_line (text : str) : str := lit "gen: connection " ++ dec conn_id ++ lit ": QoS 1 reader " ++ text.

(** A rejection is counted, and printed once per reader. *)
Definition reject (c : Q1Conn) (text : str) : Q1Conn :=
  let c := set_tally c (add_protocol_errors (q_tally c) 1) in
  if q_said c then set_reader c RdNext
  else set_reader (set_output c true (q_wire c) (q_lines c)) (RdSay (reader_line text) true).

Definition on_item (c : Q1Conn) (item : option (result PacketV3 FrameError)) : Q1Conn :=
  match item with
  | None => set_reader c RdStopped
  | Some (Ok (V3_PublishAck id)) => set_reader c (RdRelease id)
  | Some (Ok p) => reject c (lit "rejected an unexpected " ++ lit (packet_kind p))
  | Some (Err (FeIo e)) => set_reader c (RdSay (reader_line (lit "read failed: " ++ e)) false)
  | Some (Err (FeCodec e)) =>
      set_reader (set_tally c (add_protocol_errors (q_tally c) 1)) (RdSay (reader_line (lit "decode failed: " ++ e)) false)
  end.

Definition reader_step (c : Q1Conn) (a : Action) : option Q1Conn :=
  match q_reader c, a with
  | RdNext, AItem item => Some (on_item c item)
  | RdNext, AReaderAborted => match q_writer c with WCancelled | WPanicked _ => Some (set_reader c RdStopped) | _ => None end
  | RdRelease id, AReader =>
      let '(released, p) := PacketIds_release (q_ids c) id in
      let c := set_ids c p (q_sent c) (if released then q_back c ++ [id] else q_back c) in
      Some (if released then set_reader c RdAcked
            else reject c (lit "rejected a PUBACK for packet id " ++ dec id ++ lit ", which is not in flight"))
  | RdAcked, AReader => Some (set_reader (set_tally c (add_acked (q_tally c) 1)) RdPermit)
  | RdPermit, AReader => Some (set_reader (set_permits c (q_permits c + 1)) RdSub)
  | RdSub, AReader => Some (set_reader (set_in_flight c (wrap64 (q_in_flight c - 1))) RdNext)
  | RdSay line more, ASay failed =>
      Some match failed with
           | Some e => set_reader c (RdPanicked e)
           | None => set_reader (set_output c (q_said c) (q_wire c) (q_lines c ++ [line])) (if more then RdNext else RdStopped)
           end
  | _, _ => None
  end.

Definition q1_step (c : Q1Conn) (a : Action) : option Q1Conn :=
  match a with
  | AItem _ | AReader | ASay _ | AReaderAborted => reader_step c a
  | _ => writer_step c a
  end.

Fixpoint q1_run (c : Q1Conn) (actions : list Action) : option Q1Conn :=
  match actions with
  | [] => Some c
  | a :: actions => match q1_step c a with Some c => q1_run c actions | None => None end
  end.
End Qos1.

(** ** A QoS 0 connection *)

(** How a connection's task ends. *)
Inductive TaskEnd := TaskReturned (r : result unit str) | TaskPanicked (e : str).

(** Joining the reader: a panic of the reader is re-raised. *)
Definition join_reader (panic : option str) (r : result unit str) : TaskEnd :=
  match panic with Some e => TaskPanicked e | None => TaskReturned r end.

(** The QoS 0 reader over the frames it saw before it ended or was aborted: the
    counters and the lines it printed. *)
Fixpoint qos0_reader_task (conn_id : Z) (said : bool) (items : list (option (result PacketV3 FrameError))) (c : Tally) :
    Tally * list str :=
  let line text := lit "gen: connection " ++ dec conn_id ++ lit ": QoS 0 reader " ++ text in
  match items with
  | [] | None :: _ => (c, [])
  | Some (Ok p) :: items =>
      let '(c, lines) := qos0_reader_task conn_id true items (add_protocol_errors c 1) in
      (c, if said then lines else line (lit "rejected an unexpected " ++ lit (packet_kind p)) :: lines)
  | Some (Err (FeIo e)) :: _ => (c, [line (lit "read failed: " ++ e)])
  | Some (Err (FeCodec e)) :: _ => (add_protocol_errors c 1, [line (lit "decode failed: " ++ e)])
  end.

(** One round of the loop: the clock of its condition, the clock of the [i]-th
    stamp of the batch, and the answer to its write. *)
Record Round := { rd_now : Z; rd_stamps : nat -> Z; rd_write : Timed unit }.

(** [n] publishes from the [i]-th of the batch, numbered from [seq]. *)
Fixpoint encode_qos0 (conn_id : Z) (stamps : nat -> Z) (n i : nat) (seq : Z) (buf : list Z) : option (Z * list Z) :=
  match n with
  | O => Some (seq, buf)
  | S n =>
      match encode_publish buf 0 None (stamp_of conn_id seq (stamps i)) with
      | None => None
      | Some buf => encode_qos0 conn_id stamps n (S i) (sat_add 64 seq 1) buf
      end
  end.

(** The answers after the loop: the DISCONNECT, the shutdown of the write half
    and the reader's panic, if it panicked. *)
Record Teardown := { td_disconnect : Timed unit; td_shutdown : option str; td_panic : option str }.

(** The tally, the buffers whose write began and the end of the task; [None]
    while rounds are missing. *)
Fixpoint run_qos0_throughput (conn_id : Z) (config : GenConfig) (rounds : list Round) (td : Teardown)
    (seq : Z) (c : Tally) (wire : list (list Z)) : option (Tally * list (list Z) * TaskEnd) :=
  match rounds with
  | [] => None
  | r :: rounds =>
      if end_ns (window config) <=? rd_now r then
        Some (c, wire, join_reader (td_panic td)
                (gen_session_result None (teardown_failure (Some (td_disconnect td)) (td_shutdown td))))
      else match encode_qos0 conn_id (rd_stamps r) BATCH 0 seq [] with
      | None => None
      | Some (seq, buf) =>
          let c := add_offered c (Z.of_nat BATCH) in
          match publish_write_failure (rd_write r) with
          | Some cause => Some (tally_stalled c (Z.of_nat BATCH), wire ++ [buf], join_reader (td_panic td) (Err cause))
          | None => run_qos0_throughput conn_id config rounds td seq c (wire ++ [buf])
          end
      end
  end.

(** ** Connections mode *)

Inductive CloseOutcome := Closed (unexpected : Z) | Reset (unexpected : Z) | CloseFailed.

(** One read after DISCONNECT; the kinds [ends_the_connection] accepts. *)
Inductive CloseRead := CrEof | CrByte | CrReset | CrAborted | CrError.

(** [None] when the reads do not end before the timeout. *)
Fixpoint close_loop (unexpected : Z) (reads : list CloseRead) : option CloseOutcome :=
  match reads with
  | [] => None
  | CrEof :: _ => Some (Closed unexpected)
  | CrByte :: reads => close_loop (sat_add 64 unexpected 1) reads
  | (CrReset | CrAborted) :: _ => Some (Reset unexpected)
  | CrError :: _ => Some CloseFailed
  end.

Definition closed_cleanly (o : option CloseOutcome) : bool :=
  match o with Some (Closed 0) | Some (Reset 0) => true | _ => false end.

(** The host's and the broker's answers to one cycle. *)
Record Cycle := {
  cy_now : Z; cy_connect : Timed unit; cy_nodelay : option str; cy_write : Timed unit; cy_connack : Timed (list Z);
  cy_connack_at : Z; cy_disconnect : Timed unit; cy_close : list CloseRead
}.

Definition done_in_time {A} (t : Timed A) : bool := match t with TOk _ => true | _ => false end.

(** [{:02x?}] of the four bytes. *)
Definition hex_debug (buf : list Z) : str := debug_list (fun b => drop 2 (hex_byte b)) buf.

(** The tally, [connack_reported] and the lines printed after a cycle. *)
Definition run_cycle (conn_id : Z) (config : GenConfig) (cy : Cycle) (c : Tally) (reported : bool) (lines : list str) :
    Tally * bool * list str :=
  if negb (done_in_time (cy_connect cy)) then (add_connect_errors c 1, reported, lines)
  else if bool_decide (is_Some (cy_nodelay cy)) then (add_connect_errors c 1, reported, lines)
  else if negb (done_in_time (cy_write cy)) then (add_connect_errors c 1, reported, lines)
  else match cy_connack cy with
  | TFailed _ | TTimedOut => (add_connect_errors c 1, reported, lines)
  | TOk buf =>
      if negb (bool_decide (buf = [32; 2; 0; 0])) then
        (add_protocol_errors c 1, true,
         if reported then lines
         else lines ++ [lit "gen: connection " ++ dec conn_id ++ lit ": CONNACK was not 20 02 00 00: " ++ hex_debug buf])
      else
        let c := if Window_contains (window config) (cy_connack_at cy) then add_cycles c 1 else c in
        if negb (done_in_time (cy_disconnect cy)) then (add_protocol_errors c 1, reported, lines)
        else if closed_cleanly (close_loop 0 (cy_close cy)) then (c, reported, lines)
        else (add_protocol_errors c 1, reported, lines)
  end.

(** [None] while cycles are missing. *)
Fixpoint run_connections_mode (conn_id : Z) (config : GenConfig) (cycles : list Cycle) (c : Tally) (reported : bool)
    (lines : list str) : option (Tally * list str) :=
  match cycles with
  | [] => None
  | cy :: cycles =>
      if end_ns (window config) <=? cy_now cy then Some (c, lines)
      else
        let '(c, reported, lines) := run_cycle conn_id config cy c reported lines in
        run_connections_mode conn_id config cycles c reported lines
  end.

(** ** The frame of a latency connection *)

(** The deadline of the session, or the counters of one that was not opened. *)
Definition latency_open_session (opened : result Z OpenError) (c : Tally) : option Z * Tally :=
  match opened with
  | Ok deadline => (Some deadline, c)
  | Err e => (None, open_failed c e)
  end.

(** The drain before the teardown of a QoS 1 connection: [in_flight] was seen at
    zero, or the deadline came, the reader was stopped and [leaked] was left. *)
Inductive DrainEnd := Drained | DrainDeadline (leaked : Z).

Definition latency_teardown (config : GenConfig) (drain : DrainEnd) (td : Teardown) (pacer_result : result unit str) (c : Tally) :
    Tally * TaskEnd :=
  let leaked := if gen_qos config =? 1 then match drain with Drained => 0 | DrainDeadline leaked => leaked end else 0 in
  let finish c :=
    let disconnect := match pacer_result with Err _ => None | Ok _ => Some (td_disconnect td) end in
    let failure := match pacer_result with Err e => Some e | Ok _ => None end in
    (c, join_reader (td_panic td) (gen_session_result failure (teardown_failure disconnect (td_shutdown td)))) in
  match gen_qos config =? 1, drain, td_panic td with
  | true, DrainDeadline _, Some e => (c, TaskPanicked e)
  | _, _, _ => finish (if 0 <? leaked then tally_stalled c leaked else c)
  end.
