(* ===== verification/GenSpec.v ===== *)
(** * What the load generator's connections account for

    Every publish a QoS 1 connection offers is acknowledged once or counted as
    stalled once, under every interleaving of its writer and its reader and
    whatever the broker sends. *)

From S2P Require Import Prelude Text Rmqtt Wire Recorder Generator Pacer Endpoint GenConn.

(** ** A QoS 1 connection *)

Section Qos1.
Context (conn_id : Z) (config : GenConfig).
Hypothesis Hwindow : 1 <= qos1_window config <= 65535.

(** A PUBACK carries a [NonZeroU16]. *)
Definition action_ok (a : Action) : Prop :=
  match a with AItem (Some (Ok (V3_PublishAck id))) => id_ok id | _ => True end.

(** The frames of the publishes encoded, numbered from the first. *)
Fixpoint frames_from (i : nat) (sent : list (Z * Z)) : list Z :=
  match sent with
  | [] => []
  | (id, scheduled) :: sent =>
      default [] (encode_publish [] 1 (Some id) (stamp_of conn_id (seq_after i) scheduled)) ++ frames_from (S i) sent
  end.

(** *** What each task is in the middle of *)

(** Permits the writer holds for publishes it has not encoded. *)
Definition unused (w : WriterPc) : Z :=
  match w with WFill held => Z.of_nat held | WEncode room _ _ => Z.of_nat room | _ => 0 end.
(** Publishes encoded and not yet offered, or not yet in flight. *)
Definition unoffered (w : WriterPc) : Z :=
  match w with WEncode _ ids _ | WOffer ids _ => Z.of_nat (length ids) | _ => 0 end.
Definition unsubmitted (w : WriterPc) : Z :=
  match w with WEncode _ ids _ | WOffer ids _ | WSubmit ids _ => Z.of_nat (length ids) | _ => 0 end.
Definition unwritten (w : WriterPc) : list Z :=
  match w with WEncode _ _ buf | WOffer _ buf | WSubmit _ buf | WWrite buf => buf | _ => [] end.
(** Ids released whose other operations are still to come. *)
Definition unacked (r : ReaderPc) : Z := match r with RdAcked => 1 | _ => 0 end.
Definition unreturned (r : ReaderPc) : Z := match r with RdAcked | RdPermit => 1 | _ => 0 end.
Definition unsubtracted (r : ReaderPc) : Z := match r with RdAcked | RdPermit | RdSub => 1 | _ => 0 end.

(** After the drain: the reader was stopped and the leftovers were counted
    ([true]), or there were none. *)
Definition torn_down (w : WriterPc) : option bool :=
  match w with WDisconnect _ b | WShutdown _ b _ => Some b | WJoin _ _ _ => Some false | _ => None end.
(** Whether the leftovers are in the tally; a cancelled writer may have counted
    them or not. *)
Definition counted (w : WriterPc) : option bool :=
  match w with WDisconnect _ b | WShutdown _ b _ => Some b | WReturned _ => Some true | WCancelled => None | _ => Some false end.
Definition after_stop (w : WriterPc) : bool :=
  match w with WCount _ | WReturned _ => true | w => bool_decide (torn_down w = Some true) end.

(** A batch has at least one permit. *)
Definition in_batch (w : WriterPc) : Prop :=
  match w with WFill held => (1 <= held)%nat | WEncode room ids _ => (1 <= room + length ids)%nat | _ => True end.

Abbreviation n_sent c := (Z.of_nat (length (q_sent c))).
Abbreviation n_back c := (Z.of_nat (length (q_back c))).

Record q1_inv (c : Q1Conn) : Prop := {
  qi_ids : exists s : gset Z, ids_rel (q_ids c) s /\ (q_sent c).*1 ≡ₚ q_back c ++ elements s;
  qi_permits : q_permits c + unused (q_writer c) + (n_sent c - n_back c) + unreturned (q_reader c) = qos1_window config;
  qi_free : 0 <= q_permits c;
  qi_in_flight : q_in_flight c = wrap64 (n_sent c - unsubmitted (q_writer c) - (n_back c - unsubtracted (q_reader c)));
  qi_offered : t_offered (q_tally c) = wrap64 (n_sent c - unoffered (q_writer c));
  qi_acked : t_acked (q_tally c) = wrap64 (n_back c - unacked (q_reader c));
  qi_wire : mjoin (q_wire c) ++ unwritten (q_writer c) = frames_from 0 (q_sent c);
  qi_stopped : after_stop (q_writer c) = true -> q_reader c = RdStopped;
  qi_stalled : match counted (q_writer c) with
               | Some b => t_stalled (q_tally c) = if b then n_sent c - n_back c else 0
               | None => 0 <= t_stalled (q_tally c) <= 65535
               end;
  qi_drained : torn_down (q_writer c) = Some false -> n_sent c = n_back c;
  qi_reading id : q_reader c = RdRelease id -> id_ok id;
  qi_batch : in_batch (q_writer c)
}.

Lemma q1_start_ok : q1_inv (q1_start config).
Proof.
  split; simpl; try done; try lia. exists ∅. split; [apply ids_rel_new|]. by rewrite elements_empty.
Qed.

(** *** Arithmetic and frames *)

Lemma wrap_plus x y : wrap64 (wrap64 x + y) = wrap64 (x + y).
Proof. apply Zplus_mod_idemp_l. Qed.
Lemma wrap_minus x y : wrap64 (wrap64 x - y) = wrap64 (x - y).
Proof. apply Zminus_mod_idemp_l. Qed.

Lemma all_ids (s : gset Z) : (forall id, id_ok id -> id ∈ s) -> 65535 <= Z.of_nat (size s).
Proof.
  intros Hall. assert (Hsub : (list_to_set (seqZ 1 65535) : gset Z) ⊆ s).
  { intros id. rewrite elem_of_list_to_set, elem_of_seqZ. intros. apply Hall. unfold id_ok. lia. }
  apply subseteq_size in Hsub. rewrite size_list_to_set, length_seqZ in Hsub by apply NoDup_seqZ. apply inj_le in Hsub. by rewrite Z2Nat.id in Hsub.
Qed.

Lemma frame_app buf id seq scheduled :
  encode_publish buf 1 (Some id) (stamp_of conn_id seq scheduled) =
  Some (buf ++ default [] (encode_publish [] 1 (Some id) (stamp_of conn_id seq scheduled))).
Proof.
  unfold encode_publish. cbn [Z.ltb Z.compare from_option]. rewrite !write_varint_app by done.
  by rewrite <- !app_assoc.
Qed.

Lemma frames_from_snoc l : forall i id scheduled,
  frames_from i (l ++ [(id, scheduled)]) =
  frames_from i l ++ default [] (encode_publish [] 1 (Some id) (stamp_of conn_id (seq_after (i + length l)) scheduled)).
Proof.
  induction l as [|[id' s'] l IH]; intros i id s; cbn [frames_from app length].
  - by rewrite app_nil_r, Nat.add_0_r.
  - rewrite IH, <- app_assoc. by replace (S i + length l)%nat with (i + S (length l))%nat by lia.
Qed.

(** *** The invariant *)

Lemma ids_size (sent : list (Z * Z)) back (s : gset Z) : sent.*1 ≡ₚ back ++ elements s ->
  Z.of_nat (length sent) - Z.of_nat (length back) = Z.of_nat (size s).
Proof. intros Hp%Permutation_length. rewrite length_fmap, length_app in Hp. unfold size, set_size; simpl. lia. Qed.

Lemma q1_bounds c : q1_inv c -> 0 <= n_sent c - n_back c <= 65535.
Proof.
  intros []. destruct qi_ids0 as (s & _ & Hs%ids_size). assert (0 <= unused (q_writer c)) by (destruct (q_writer c); simpl; lia).
  assert (0 <= unreturned (q_reader c)) by (destruct (q_reader c); simpl; lia). lia.
Qed.

Lemma allocates c room ids buf : q1_inv c -> q_writer c = WEncode (S room) ids buf ->
  exists id p, PacketIds_allocate (q_ids c) = (Some id, p) /\ id_ok id /\ exists s : gset Z, ids_rel p s /\
  (q_sent c).*1 ++ [id] ≡ₚ q_back c ++ elements s.
Proof.
  intros [] Hw. destruct qi_ids0 as (s & Hs & Hp). pose proof (ids_size _ _ _ Hp) as Hsize.
  rewrite Hw in qi_permits0. simpl in qi_permits0.
  assert (0 <= unreturned (q_reader c)) by (destruct (q_reader c); simpl; lia).
  pose proof (allocate_spec _ _ Hs) as A. destruct (PacketIds_allocate (q_ids c)) as [[id|] p].
  - destruct A as (Hid & Hnew & Hrel). exists id, p. split_and!; [done..|]. exists ({[id]} ∪ s). split; [done|].
    rewrite elements_union_singleton, Hp by done. by rewrite <- app_assoc, <- Permutation_cons_append.
  - destruct A as [_ Hall]. apply all_ids in Hall. lia.
Qed.

(** The fields of the invariant after a step that only moves a task on. *)
Ltac q1_fields := split; simpl in *; try done; try (f_equal; lia); try lia; auto; try (intros Hx; match goal with H : _ -> _ |- _ => by specialize (H Hx) end).

(** The writer moves on and nothing else changes. *)
Lemma move_ok c w : q1_inv c -> unused w = unused (q_writer c) -> unoffered w = unoffered (q_writer c) ->
  unsubmitted w = unsubmitted (q_writer c) -> unwritten w = unwritten (q_writer c) ->
  (after_stop w = true -> q_reader c = RdStopped) ->
  match counted w with Some b => t_stalled (q_tally c) = if b then n_sent c - n_back c else 0 | None => 0 <= t_stalled (q_tally c) <= 65535 end ->
  (torn_down w = Some false -> n_sent c = n_back c) -> in_batch w -> q1_inv (set_writer c w).
Proof. intros [] Hu Ho Hs Hw ????. split; simpl; rewrite ?Hu, ?Ho, ?Hs, ?Hw; auto. Qed.

Lemma acquire_ok c n : q1_inv c -> 0 < q_permits c -> (q_writer c = WAcquire /\ n = 0%nat) \/ q_writer c = WFill n ->
  q1_inv (set_writer (set_permits c (q_permits c - 1)) (WFill (S n))).
Proof. intros [] Hp [[Hw ->]|Hw]; rewrite Hw in *; q1_fields. Qed.

Lemma encode_ok c room ids buf now c' : q1_inv c -> q_writer c = WEncode room ids buf ->
  encode_one conn_id c room ids buf now = Some c' -> q1_inv c'.
Proof.
  intros Hinv Hw. pose proof Hinv as []. rewrite Hw in *. unfold encode_one. destruct room as [|room].
  - intros [= <-]. destruct ids as [|id ids]; [simpl in *; lia|]. apply move_ok; rewrite ?Hw; done.
  - destruct (allocates c room ids buf Hinv Hw) as (id & p & -> & Hid & s & Hs & Hp).
    rewrite frame_app. intros [= <-]. simpl in *.
    split; simpl in *; rewrite ?length_app; simpl; try done; try lia.
    + exists s. split; [done|]. by rewrite fmap_app.
    + rewrite qi_in_flight0. f_equal. lia.
    + rewrite qi_offered0. f_equal. lia.
    + rewrite app_assoc, qi_wire0, frames_from_snoc. done.
Qed.

Lemma offer_ok c ids buf : q1_inv c -> q_writer c = WOffer ids buf ->
  q1_inv (set_writer (set_tally c (add_offered (q_tally c) (Z.of_nat (length ids)))) (WSubmit ids buf)).
Proof. intros [] Hw. rewrite Hw in *. q1_fields. rewrite qi_offered0, wrap_plus. f_equal. lia. Qed.

Lemma submit_ok c ids buf : q1_inv c -> q_writer c = WSubmit ids buf ->
  q1_inv (set_writer (set_in_flight c (wrap64 (q_in_flight c + Z.of_nat (length ids)))) (WWrite buf)).
Proof. intros [] Hw. rewrite Hw in *. q1_fields. rewrite qi_in_flight0, wrap_plus. f_equal. lia. Qed.

Lemma write_ok c buf w : q1_inv c -> q_writer c = WWrite buf -> w = WTop \/ (exists f, w = WDrain f) \/ w = WCancelled ->
  q1_inv (set_writer (set_output c (q_said c) (q_wire c ++ [buf]) (q_lines c)) w).
Proof.
  intros [] Hw Hn. rewrite Hw in *.
  assert (Hwire : mjoin (q_wire c ++ [buf]) ++ [] = frames_from 0 (q_sent c)).
  { by rewrite join_app, app_nil_r; simpl; rewrite app_nil_r. }
  destruct Hn as [->|[[f ->]| ->]]; q1_fields.
Qed.

Lemma drained_ok c f : q1_inv c -> q_writer c = WDrain f -> q_in_flight c <= 0 -> q1_inv (set_writer c (WDisconnect None false)).
Proof.
  intros Hinv Hw Hz. pose proof (q1_bounds c Hinv) as Hb. pose proof Hinv as []. rewrite Hw in *.
  assert (Hd : n_sent c = n_back c).
  { simpl in *. rewrite wrap_small in qi_in_flight0 by (destruct (q_reader c); simpl; lia).
    destruct (q_reader c); simpl in *; lia. }
  apply move_ok; rewrite ?Hw; done.
Qed.

Lemma stop_reader_ok c w : q1_inv c -> q_reader c = RdNext \/ q_reader c = RdStopped ->
  unused w = unused (q_writer c) -> unoffered w = unoffered (q_writer c) ->
  unsubmitted w = unsubmitted (q_writer c) -> unwritten w = unwritten (q_writer c) ->
  match counted w with Some b => t_stalled (q_tally c) = if b then n_sent c - n_back c else 0 | None => 0 <= t_stalled (q_tally c) <= 65535 end ->
  (torn_down w = Some false -> n_sent c = n_back c) -> in_batch w -> q1_inv (set_writer (set_reader c RdStopped) w).
Proof. intros [] [Hr|Hr] Hu Ho Hs Hw ???; rewrite Hr in *; split; simpl in *; rewrite ?Hu, ?Ho, ?Hs, ?Hw; try done; auto. Qed.

Lemma count_ok c f : q1_inv c -> q_writer c = WCount f ->
  q1_inv (set_writer (if 0 <? q_in_flight c then set_tally c (tally_stalled (q_tally c) (q_in_flight c)) else c) (WDisconnect f true)).
Proof.
  intros Hinv Hw. pose proof (q1_bounds c Hinv) as Hb. pose proof Hinv as []. rewrite Hw in *.
  specialize (qi_stopped0 eq_refl). rewrite qi_stopped0 in *. simpl in *.
  rewrite wrap_small in qi_in_flight0 by lia. destruct (Z.ltb_spec 0 (q_in_flight c)).
  - split; simpl; rewrite ?qi_stopped0; simpl; try done; try lia; rewrite ?wrap_small by lia; lia.
  - apply move_ok; rewrite ?Hw; try done. simpl. lia.
Qed.

(** Nothing of a batch is under way. *)
Definition settled (w : WriterPc) : Prop := unused w = 0 /\ unoffered w = 0 /\ unsubmitted w = 0 /\ unwritten w = [].

(** The reader is awaited after an abort. *)
Lemma await_ok c w c' : q1_inv c -> await_aborted c w = Some c' -> settled (q_writer c) -> settled w ->
  counted (q_writer c) = Some false ->
  match counted w with Some b => t_stalled (q_tally c) = if b then n_sent c - n_back c else 0 | None => 0 <= t_stalled (q_tally c) <= 65535 end ->
  (torn_down w = Some false -> n_sent c = n_back c) -> in_batch w -> q1_inv c'.
Proof.
  intros Hinv Ha (?&?&?&?) (?&?&?&?) Hc Hct Ht Hb. unfold await_aborted in Ha. pose proof (qi_stalled c Hinv) as Hst.
  destruct (q_reader c) eqn:Hr; simplify_eq; [apply stop_reader_ok..|apply move_ok]; auto; try congruence; try done.
  all: rewrite ?Hc in Hst; simpl; auto.
Qed.

(** The current goal is a step that only moves the writer on. *)
Ltac writer_moves Hw := intros [= <-]; apply move_ok; rewrite ?Hw; simpl; try done; auto.

Lemma writer_step_ok c a c' : q1_inv c -> writer_step conn_id config c a = Some c' -> q1_inv c'.
Proof.
  intros Hinv. pose proof (q1_bounds c Hinv) as Hb. pose proof Hinv as [_ _ _ _ _ _ _ Hstop Hst Hdr _ Hba].
  unfold writer_step, publish_step, drain_step, cancel_step, fill_one.
  destruct (q_writer c) eqn:Hw; destruct a; try done; simpl in *.
  all: try (writer_moves Hw; lia || fail).
  all: try (destruct stopped; simpl in *; writer_moves Hw; lia || fail).
  - case_match; writer_moves Hw.
  - case_match; [|writer_moves Hw]. case_match; [|done]. zbool. intros [= <-]. apply acquire_ok; auto.
  - case_match; zbool; [|writer_moves Hw; lia]. intros [= <-]. apply acquire_ok; auto.
  - by apply encode_ok.
  - intros [= <-]. by apply offer_ok.
  - intros [= <-]. by apply submit_ok.
  - intros [= <-]. eapply write_ok; [done..|]. case_match; eauto.
  - intros [= <-]. eapply write_ok; eauto.
  - case_match; [writer_moves Hw|]. case_match; zbool; [by intros [= <-]|]. case_bool_decide; [|writer_moves Hw].
    intros [= <-]. by eapply drained_ok.
  - intros Ha. eapply await_ok; eauto; rewrite ?Hw; done.
  - intros [= <-]. by apply count_ok.
  - intros Ha. assert (Ha' : await_aborted c (WReturned (gen_session_result failure (teardown_failure disconnect shutdown))) = Some c').
    { destruct (q_reader c); try done; by case_match. }
    eapply await_ok; eauto; rewrite ?Hw; try done. simpl. rewrite Hst, Hdr by done. lia.
Qed.

(** *** The reader *)

(** Nothing of a PUBACK is under way. *)
Definition idle (r : ReaderPc) : Prop := unacked r = 0 /\ unreturned r = 0 /\ unsubtracted r = 0.

Lemma reader_moves c r : q1_inv c -> idle (q_reader c) -> idle r -> after_stop (q_writer c) = false \/ r = RdStopped ->
  (forall id, r = RdRelease id -> id_ok id) -> q1_inv (set_reader c r).
Proof.
  intros [] (Ha & Hr & Hs) (Ha' & Hr' & Hs') Hn Hid. split; simpl; rewrite ?Ha', ?Hr', ?Hs', ?Ha, ?Hr, ?Hs in *; auto.
  intros Hst. destruct Hn as [Hn|Hn]; [congruence|done].
Qed.

Lemma protocol_error_ok c : q1_inv c -> q1_inv (set_tally c (add_protocol_errors (q_tally c) 1)).
Proof. intros []. by split. Qed.
Lemma output_ok c said lines : q1_inv c -> q1_inv (set_output c said (q_wire c) lines).
Proof. intros []. by split. Qed.
#[local] Hint Resolve protocol_error_ok output_ok : core.

Lemma reject_ok c text : q1_inv c -> idle (q_reader c) -> after_stop (q_writer c) = false -> q1_inv (reject conn_id c text).
Proof. intros Hinv Hi Hn. unfold reject. case_match; apply reader_moves; auto; done. Qed.

(** A PUBACK: its id is in flight and leaves the set, or it is rejected. *)
Lemma release_ok c id : q1_inv c -> q_reader c = RdRelease id -> after_stop (q_writer c) = false ->
  let '(released, p) := PacketIds_release (q_ids c) id in
  let c' := set_ids c p (q_sent c) (if released then q_back c ++ [id] else q_back c) in
  if released then q1_inv (set_reader c' RdAcked) else q1_inv c'.
Proof.
  intros Hinv Hr Hn. pose proof Hinv as []. destruct qi_ids0 as (s & Hs & Hsize). specialize (qi_reading0 id Hr).
  destruct (release_spec _ _ id Hs) as [Hb Hrel]; [unfold id_ok, u_range in *; lia|].
  destruct (PacketIds_release (q_ids c) id) as [released p]. cbn [fst snd] in *. subst released. rewrite Hr in *. simpl in *.
  case_bool_decide as Hin.
  - assert (Hel : elements s ≡ₚ id :: elements (s ∖ {[id]})).
    { rewrite <- elements_union_singleton by set_solver. by rewrite <- union_difference_singleton_L. }
    pose proof (Permutation_length Hel) as Hlen. simpl in Hlen.
    split; simpl in *; rewrite ?length_app; simpl; try done; try lia; rewrite ?qi_in_flight0, ?qi_acked0; try (f_equal; lia).
    + exists (s ∖ {[id]}). split; [done|]. by rewrite Hsize, Hel, <- app_assoc.
    + congruence.
    + destruct (counted (q_writer c)) as [[]|] eqn:Ec; try done. destruct (q_writer c); simpl in *; try done; destruct stopped; done.
    + intros Ht. specialize (qi_drained0 Ht). pose proof (ids_size _ _ _ Hsize) as Hz. unfold size, set_size in Hz. simpl in Hz. lia.
  - split; simpl in *; rewrite ?Hr; simpl; auto; try done; [|by intros ? [= <-]]. exists s. by rewrite difference_disjoint_L in Hrel by set_solver.
Qed.

Lemma acked_ok c : q1_inv c -> q_reader c = RdAcked -> q1_inv (set_reader (set_tally c (add_acked (q_tally c) 1)) RdPermit).
Proof. intros [] Hr. rewrite Hr in *. q1_fields. rewrite qi_acked0, wrap_plus. f_equal. lia. Qed.
Lemma permit_ok c : q1_inv c -> q_reader c = RdPermit -> q1_inv (set_reader (set_permits c (q_permits c + 1)) RdSub).
Proof. intros [] Hr. rewrite Hr in *. q1_fields. Qed.
Lemma sub_ok c : q1_inv c -> q_reader c = RdSub -> q1_inv (set_reader (set_in_flight c (wrap64 (q_in_flight c - 1))) RdNext).
Proof. intros [] Hr. rewrite Hr in *. q1_fields. rewrite qi_in_flight0, wrap_minus. f_equal. lia. Qed.

Lemma on_item_ok c item : q1_inv c -> q_reader c = RdNext -> after_stop (q_writer c) = false -> action_ok (AItem item) ->
  q1_inv (on_item conn_id c item).
Proof.
  intros Hinv Hr Hn Ha. assert (Hi : idle (q_reader c)) by (by rewrite Hr). unfold on_item.
  destruct item as [[p|[e|e]]|]; [destruct p; try (by apply reject_ok)|..]; apply reader_moves; simpl in *; auto; try done.
  by intros id [= <-].
Qed.

Lemma reader_step_ok c a c' : q1_inv c -> action_ok a -> reader_step conn_id c a = Some c' -> q1_inv c'.
Proof.
  intros Hinv Ha. assert (Hn : q_reader c = RdStopped \/ after_stop (q_writer c) = false).
  { destruct (after_stop (q_writer c)) eqn:E; [left; by apply Hinv|by right]. }
  unfold reader_step. destruct (q_reader c) eqn:Hr; destruct a; try done; destruct Hn as [Hn|Hn]; try done.
  - intros [= <-]. by apply on_item_ok.
  - intros Hx. destruct (q_writer c) eqn:Hw; simplify_eq; apply reader_moves; rewrite ?Hr; auto; done.
  - pose proof (release_ok c id Hinv Hr Hn) as Hrel. destruct (PacketIds_release (q_ids c) id) as [[] p]; intros [= <-]; [done|].
    apply reject_ok; simpl; rewrite ?Hr; done.
  - intros [= <-]. by apply acked_ok.
  - intros [= <-]. by apply permit_ok.
  - intros [= <-]. by apply sub_ok.
  - intros [= <-]. destruct failed as [e|]; [|destruct more]; apply reader_moves; simpl; rewrite ?Hr; auto; done.
Qed.

Lemma q1_step_ok c a c' : q1_inv c -> action_ok a -> q1_step conn_id config c a = Some c' -> q1_inv c'.
Proof. intros Hinv Ha. unfold q1_step. destruct a; eauto using writer_step_ok, reader_step_ok. Qed.

Lemma q1_run_ok acts : forall c c', q1_inv c -> Forall action_ok acts -> q1_run conn_id config c acts = Some c' -> q1_inv c'.
Proof.
  induction acts as [|a acts IH]; intros c c' Hinv Hok; cbn [q1_run]; [by intros [= <-]|].
  apply Forall_cons in Hok as [Ha Hok]. destruct (q1_step conn_id config c a) as [c1|] eqn:E; [|done].
  intros Hr. eapply IH; [|done..]. by eapply q1_step_ok.
Qed.

End Qos1.

(** (C33) The books of a QoS 1 connection balance, whatever the broker sends and
    however the writer and the reader interleave: the window bounds the
    publishes in flight; the packet ids never run out while a batch is encoded;
    every acknowledgement counted is of a publish that was sent, and of none
    twice; and when the connection returns its reader has stopped, offered is
    the number of publishes, acked the number of accepted PUBACKs, stalled
    exactly the rest, and the bytes written are the publishes' frames in order,
    numbered without a gap. *)
Theorem qos1_connection_accounts conn_id config acts c :
  1 <= qos1_window config <= 65535 -> Forall action_ok acts -> q1_run conn_id config (q1_start config) acts = Some c ->
  let n := Z.of_nat (length (q_sent c)) in
  let m := Z.of_nat (length (q_back c)) in
  0 <= n - m <= qos1_window config /\
  (forall room ids buf, q_writer c = WEncode (S room) ids buf -> is_Some (PacketIds_allocate (q_ids c)).1) /\
  (exists s : gset Z, ids_rel (q_ids c) s /\ (q_sent c).*1 ≡ₚ q_back c ++ elements s) /\
  (forall r, q_writer c = WReturned r ->
     q_reader c = RdStopped /\ t_offered (q_tally c) = wrap64 n /\ t_acked (q_tally c) = wrap64 m /\
     t_stalled (q_tally c) = n - m /\ mjoin (q_wire c) = frames_from conn_id 0 (q_sent c)).
Proof.
  intros Hwin Hok Hrun n m. apply q1_run_ok in Hrun as Hinv; [|done|by apply q1_start_ok|done].
  pose proof (q1_bounds conn_id config Hwin c Hinv) as Hb. split_and!; [lia| | | |].
  - destruct Hinv as [_ Hp Hf _ _ _ _ _ _ _ _ _]. destruct (q_writer c), (q_reader c); simpl in Hp; lia.
  - intros room ids buf Hw. destruct (allocates conn_id config Hwin c room ids buf Hinv Hw) as (id & p & -> & _). by eexists.
  - apply Hinv.
  - intros r Hr. destruct Hinv as [_ _ _ _ Ho Ha Hw Hs Hst _ _ _]. rewrite Hr in *. specialize (Hs eq_refl). rewrite Hs in *.
    simpl in *. rewrite Ho, Ha, Z.sub_0_r, Z.sub_0_r. rewrite app_nil_r in Hw. done.
Qed.

(** ** The other modes *)

(** A QoS 0 connection offers whole batches, and stalls exactly the batch whose
    write did not complete, which ends it. *)
Theorem qos0_connection_accounts conn_id config rounds td c wire e :
  run_qos0_throughput conn_id config rounds td 0 no_tally [] = Some (c, wire, e) ->
  t_offered c = wrap64 (Z.of_nat BATCH * Z.of_nat (length wire)) /\ t_acked c = 0 /\ t_protocol_errors c = 0 /\
  match td_panic td, e with
  | Some p, TaskPanicked p' => p' = p
  | None, TaskReturned r =>
      (t_stalled c = Z.of_nat BATCH /\ exists cause, r = Err cause) \/
      (t_stalled c = 0 /\ r = gen_session_result None (teardown_failure (Some (td_disconnect td)) (td_shutdown td)))
  | _, _ => False
  end.
Proof.
  cut (forall rounds seq c0 w0, run_qos0_throughput conn_id config rounds td seq c0 w0 = Some (c, wire, e) ->
    t_offered c0 = wrap64 (Z.of_nat BATCH * Z.of_nat (length w0)) -> t_acked c0 = 0 -> t_protocol_errors c0 = 0 -> t_stalled c0 = 0 ->
    t_offered c = wrap64 (Z.of_nat BATCH * Z.of_nat (length wire)) /\ t_acked c = 0 /\ t_protocol_errors c = 0 /\
    match td_panic td, e with
    | Some p, TaskPanicked p' => p' = p
    | None, TaskReturned r =>
        (t_stalled c = Z.of_nat BATCH /\ exists cause, r = Err cause) \/
        (t_stalled c = 0 /\ r = gen_session_result None (teardown_failure (Some (td_disconnect td)) (td_shutdown td)))
    | _, _ => False
    end).
  { intros G Hr. eapply G; [exact Hr|done..]. }
  clear rounds. induction rounds as [|r rounds IH]; intros seq c0 w0; cbn [run_qos0_throughput]; [done|].
  destruct (end_ns (window config) <=? rd_now r).
  { intros [= <- <- <-] ????. split_and!; try done. unfold join_reader. destruct (td_panic td); [done|]. by right. }
  destruct (encode_qos0 conn_id (rd_stamps r) BATCH 0 seq []) as [[seq' buf]|]; [|done].
  intros Hr Ho Ha Hp Hs.
  assert (Ho' : t_offered (add_offered c0 (Z.of_nat BATCH)) = wrap64 (Z.of_nat BATCH * Z.of_nat (length (w0 ++ [buf])))).
  { cbn [add_offered t_offered]. rewrite Ho, wrap_plus, length_app. cbn [length]. f_equal. lia. }
  destruct (publish_write_failure (rd_write r)); [|by eapply IH].
  injection Hr as <- <- <-. split_and!; [exact Ho'|done|done|]. unfold join_reader. destruct (td_panic td); [done|].
  left. cbn [tally_stalled add_offered t_stalled]. rewrite Hs. split; [done|by eexists].
Qed.

(** What one cycle of connections mode was. *)
Definition connected (cy : Cycle) : bool :=
  done_in_time (cy_connect cy) && bool_decide (cy_nodelay cy = None) && done_in_time (cy_write cy) && done_in_time (cy_connack cy).
Definition accepted (cy : Cycle) : bool := connected cy && match cy_connack cy with TOk buf => bool_decide (buf = [32; 2; 0; 0]) | _ => false end.
Definition clean (cy : Cycle) : bool := accepted cy && done_in_time (cy_disconnect cy) && closed_cleanly (close_loop 0 (cy_close cy)).
Definition counted_cycle (config : GenConfig) (cy : Cycle) : bool := accepted cy && Window_contains (window config) (cy_connack_at cy).

Definition count_of (p : Cycle -> bool) (l : list Cycle) : Z := Z.of_nat (length (base.filter p l)).

Lemma count_cons p cy l : count_of p (cy :: l) = (if p cy then 1 else 0) + count_of p l.
Proof. unfold count_of. rewrite filter_cons. destruct (p cy); simpl; lia. Qed.

(** The counters of a connections-mode task after cycles of which [ce] failed to
    connect, [pe] were not clean and [cw] counted. *)
Definition cycle_books (c : Tally) (ce pe cw : Z) : Prop :=
  t_connect_errors c = wrap64 ce /\ t_protocol_errors c = wrap64 pe /\ t_cycles c = wrap64 cw.

Lemma run_cycle_spec conn_id config cy c (reported : bool) (lines : list str) ce pe cw : cycle_books c ce pe cw ->
  (length lines <= if reported then 1 else 0)%nat ->
  let '(c', reported', lines') := run_cycle conn_id config cy c reported lines in
  cycle_books c' (ce + if connected cy then 0 else 1) (pe + if connected cy && negb (clean cy) then 1 else 0)
    (cw + if counted_cycle config cy then 1 else 0) /\ (length lines' <= if reported' then 1 else 0)%nat.
Proof.
  intros (Hc & Hp & Hw) Hl. unfold run_cycle, cycle_books, connected, clean, counted_cycle, accepted, connected.
  destruct (done_in_time (cy_connect cy)); simpl; [|rewrite ?Z.add_0_r, Hc, wrap_plus; done].
  destruct (cy_nodelay cy); simpl; [rewrite ?Z.add_0_r, Hc, wrap_plus; done|].
  destruct (done_in_time (cy_write cy)); simpl; [|rewrite ?Z.add_0_r, Hc, wrap_plus; done].
  destruct (cy_connack cy) as [buf|e|]; simpl; [|rewrite ?Z.add_0_r, Hc, wrap_plus; done..].
  case_bool_decide; simpl.
  2: { rewrite ?Z.add_0_r, Hp, wrap_plus. split; [done|]. destruct reported; [done|]. destruct lines; [done|simpl in Hl; lia]. }
  destruct (Window_contains (window config) (cy_connack_at cy)), (done_in_time (cy_disconnect cy)); simpl;
    try destruct (closed_cleanly (close_loop 0 (cy_close cy))); simpl; rewrite ?Z.add_0_r, ?Hp, ?Hw, ?wrap_plus; done.
Qed.

(** A connections-mode task counts every cycle it begins once: as a connect
    error when no CONNACK came, as a protocol error when the CONNACK or the close
    was not as it should be, and as neither exactly when the cycle was clean;
    the cycles in the window are those whose accepted CONNACK was read in it,
    and at most one line is printed. *)
Theorem connections_mode_accounts conn_id config cycles c lines :
  run_connections_mode conn_id config cycles no_tally false [] = Some (c, lines) ->
  exists begun last rest, cycles = begun ++ last :: rest /\ end_ns (window config) <= cy_now last /\
    Forall (fun cy => cy_now cy < end_ns (window config)) begun /\ (length lines <= 1)%nat /\
    cycle_books c (count_of (fun cy => negb (connected cy)) begun)
      (count_of (fun cy => connected cy && negb (clean cy)) begun) (count_of (counted_cycle config) begun).
Proof.
  cut (forall cycles c0 (reported : bool) (lines0 : list str) ce pe cw, run_connections_mode conn_id config cycles c0 reported lines0 = Some (c, lines) ->
    cycle_books c0 ce pe cw -> (length lines0 <= if reported then 1 else 0)%nat ->
    exists begun last rest, cycles = begun ++ last :: rest /\ end_ns (window config) <= cy_now last /\
    Forall (fun cy => cy_now cy < end_ns (window config)) begun /\ (length lines <= 1)%nat /\
    cycle_books c (ce + count_of (fun cy => negb (connected cy)) begun)
      (pe + count_of (fun cy => connected cy && negb (clean cy)) begun) (cw + count_of (counted_cycle config) begun)).
  { intros G Hr. destruct (G cycles no_tally false [] 0 0 0 Hr) as (begun & last & rest & H); [done..|]. exists begun, last, rest. exact H. }
  clear cycles. induction cycles as [|cy cycles IH]; intros c0 reported lines0 ce pe cw; cbn [run_connections_mode]; [done|].
  destruct (Z.leb_spec (end_ns (window config)) (cy_now cy)) as [Hend|Hend].
  - intros [= <- <-] Hb Hl. exists [], cy, cycles. unfold count_of. simpl. rewrite !Z.add_0_r.
    split_and!; try done. destruct reported; lia.
  - pose proof (run_cycle_spec conn_id config cy c0 reported lines0 ce pe cw) as Hstep.
    destruct (run_cycle conn_id config cy c0 reported lines0) as [[c1 reported1] lines1].
    intros Hr Hb Hl. destruct (Hstep Hb Hl) as [Hb1 Hl1].
    destruct (IH _ _ _ _ _ _ Hr Hb1 Hl1) as (begun & last & rest & -> & He & Hf & Hn & Hbooks).
    exists (cy :: begun), last, rest. split_and!; [done|done|by constructor|done|]. rewrite !count_cons.
    destruct (connected cy); simpl in *; rewrite !Z.add_assoc; done.
Qed.

(** ** Two publishes, one acknowledged *)

Module SampleQos1.
Definition config : GenConfig :=
  {| mode := Throughput; gen_qos := 1; gen_connections := 1; qos1_window := 2; origin_ns := 10;
     window := {| start_ns := 20; end_ns := 100 |}; drain_grace_ns := 50 |}.

(** The PUBACK of the first publish arrives before its write returns; a second
    one for the same id is rejected; the drain runs into the deadline. *)
Definition batch : list Action :=
  [AClock 30; AAcquire true; ATry; ATry; AEncode 31; AEncode 32; AEncode 33; AOffer; ASubmit;
   AItem (Some (Ok (V3_PublishAck 1))); AReader; AReader; AWrite (TOk tt); AReader; AReader].
Definition rejected : list Action := [AItem (Some (Ok (V3_PublishAck 1))); AReader; ASay None].
Definition teardown : list Action :=
  [AClock 100; ADrain false; ADrain true; AStop; ACount; ADisconnect (TOk tt); AShutdown None].
Definition acts : list Action := batch ++ rejected ++ teardown.
Definition last : Q1Conn := default (q1_start config) (q1_run 7 config (q1_start config) acts).

Example last_counts : q1_run 7 config (q1_start config) acts = Some last /\ q_writer last = WReturned (Ok tt) /\
  t_offered (q_tally last) = 2 /\ t_acked (q_tally last) = 1 /\ t_stalled (q_tally last) = 1 /\ t_protocol_errors (q_tally last) = 1.
Proof. by vm_compute. Qed.

Lemma acts_ok : Forall action_ok acts.
Proof. repeat constructor; by vm_compute. Qed.
End SampleQos1.

Lemma qos1_connection_accounts_witness :
  t_stalled (q_tally SampleQos1.last) = 1 /\ mjoin (q_wire SampleQos1.last) = frames_from 7 0 (q_sent SampleQos1.last).
Proof.
  assert (Hwin : 1 <= qos1_window SampleQos1.config <= 65535) by (simpl; lia).
  destruct SampleQos1.last_counts as (Hr & Hw & _).
  pose proof (qos1_connection_accounts 7 _ _ _ Hwin SampleQos1.acts_ok Hr) as (_ & _ & _ & H).
  destruct (H _ Hw) as (_ & _ & _ & Hs & Hf). split; [|exact Hf]. rewrite Hs. vm_compute. reflexivity.
Defined.
