(* ===== verification/Latency.v ===== *)
(** * A latency connection

    bench/src/gen.rs: [run_latency_connection], its pacer, its reader and its
    teardown, as two tasks that run on different threads and share the packet
    ids, the in-flight counter and the run's counters.  [l_step] is one step of
    one of them at the granularity of the shared operations; an action carries
    the clock reading or the host's answer, and a run is a list of actions, so
    every interleaving is one.  Pacer.v has the same pacer as a function of an
    arbitrary world, with its termination; here its reader runs beside it. *)

From S2P Require Import Prelude Text Rmqtt Wire Recorder Generator Pacer Endpoint GenConn.

(** Where the reader is: between frames, inside the shared operations of an
    accepted PUBACK, at the end of the stream, printing a line ([more] frames
    after it or not), ended, or ended by a panic of a print. *)
Inductive LReaderPc :=
| LRead | LRelease (id : Z) | LAck | LSub | LEof | LSay (line : str) (more : bool) | LStopped | LPanicked (e : str).

(** Where the pacer is: at the head of its loop, waiting for a slot, looking at
    the window's end, collecting slots, taking a packet id, skipping what cannot
    be sent, at the write gate, counting the batch, writing, noting its
    lateness, dropping it; then the teardown, with the pacer's failure. *)
Inductive PacerPc :=
| PTop
| PWait (due : Z)
| PCheck
| PCollect
| PAlloc (due : Z)
| PSkip
| PGate (buf : list Z)
| POffer (buf : list Z)
| PSubmit (buf : list Z)
| PWrite (buf : list Z)
| PSent
| PDrop
| PDrain (failure : option str)
| PStop (failure : option str)
| PCount (failure : option str)
| PDisconnect (failure : option str) (stopped : bool)
| PShutdown (failure : option str) (stopped : bool) (disconnect : option (Timed unit))
| PJoin (failure : option str) (disconnect : option (Timed unit)) (shutdown : option str)
| PReturned (failure : option str) (r : result unit str)
| PDied (e : str)
| PCancelled.

(** The state of a connection, with its history: the slots submitted (packet id
    and due time) and the ids its reader released, in order, the buffers whose
    write began, and the lines printed.  [l_counters] has this connection's part
    of the shared counters the pacer writes, and [in_flight]. *)
Record LConn := {
  l_pacer : PacerPc;
  l_reader : LReaderPc;
  l_said : bool;                 (* [rejection_reported] *)
  l_ids : PacketIds;
  l_next_k : Z;
  l_next_seq : Z;
  l_batch : Batch;
  l_counters : GenCounters;
  l_acked : Z;
  l_protocol_errors : Z;
  l_sent : Batch;
  l_back : list Z;
  l_wire : list (list Z);
  l_lines : list str
}.

Definition l_start : LConn :=
  {| l_pacer := PTop; l_reader := LRead; l_said := false; l_ids := PacketIds_new; l_next_k := 0; l_next_seq := 0;
     l_batch := []; l_counters := GenCounters_new; l_acked := 0; l_protocol_errors := 0; l_sent := []; l_back := [];
     l_wire := []; l_lines := [] |}.

Definition set_pacer (c : LConn) (pc : PacerPc) : LConn :=
  {| l_pacer := pc; l_reader := l_reader c; l_said := l_said c; l_ids := l_ids c; l_next_k := l_next_k c;
     l_next_seq := l_next_seq c; l_batch := l_batch c; l_counters := l_counters c; l_acked := l_acked c;
     l_protocol_errors := l_protocol_errors c; l_sent := l_sent c; l_back := l_back c; l_wire := l_wire c;
     l_lines := l_lines c |}.
Definition set_lreader (c : LConn) (pc : LReaderPc) : LConn :=
  {| l_pacer := l_pacer c; l_reader := pc; l_said := l_said c; l_ids := l_ids c; l_next_k := l_next_k c;
     l_next_seq := l_next_seq c; l_batch := l_batch c; l_counters := l_counters c; l_acked := l_acked c;
     l_protocol_errors := l_protocol_errors c; l_sent := l_sent c; l_back := l_back c; l_wire := l_wire c;
     l_lines := l_lines c |}.
Definition set_batch (c : LConn) (p : PacketIds) (k : Z) (batch : Batch) : LConn :=
  {| l_pacer := l_pacer c; l_reader := l_reader c; l_said := l_said c; l_ids := p; l_next_k := k;
     l_next_seq := l_next_seq c; l_batch := batch; l_counters := l_counters c; l_acked := l_acked c;
     l_protocol_errors := l_protocol_errors c; l_sent := l_sent c; l_back := l_back c; l_wire := l_wire c;
     l_lines := l_lines c |}.
Definition set_seq (c : LConn) (seq : Z) : LConn :=
  {| l_pacer := l_pacer c; l_reader := l_reader c; l_said := l_said c; l_ids := l_ids c; l_next_k := l_next_k c;
     l_next_seq := seq; l_batch := l_batch c; l_counters := l_counters c; l_acked := l_acked c;
     l_protocol_errors := l_protocol_errors c; l_sent := l_sent c; l_back := l_back c; l_wire := l_wire c;
     l_lines := l_lines c |}.
Definition set_counters (c : LConn) (g : GenCounters) : LConn :=
  {| l_pacer := l_pacer c; l_reader := l_reader c; l_said := l_said c; l_ids := l_ids c; l_next_k := l_next_k c;
     l_next_seq := l_next_seq c; l_batch := l_batch c; l_counters := g; l_acked := l_acked c;
     l_protocol_errors := l_protocol_errors c; l_sent := l_sent c; l_back := l_back c; l_wire := l_wire c;
     l_lines := l_lines c |}.
Definition set_sent (c : LConn) (sent : Batch) (wire : list (list Z)) : LConn :=
  {| l_pacer := l_pacer c; l_reader := l_reader c; l_said := l_said c; l_ids := l_ids c; l_next_k := l_next_k c;
     l_next_seq := l_next_seq c; l_batch := l_batch c; l_counters := l_counters c; l_acked := l_acked c;
     l_protocol_errors := l_protocol_errors c; l_sent := sent; l_back := l_back c; l_wire := wire; l_lines := l_lines c |}.
(** What the reader's operations write. *)
Definition set_reading (c : LConn) (p : PacketIds) (acked errors : Z) (back : list Z) : LConn :=
  {| l_pacer := l_pacer c; l_reader := l_reader c; l_said := l_said c; l_ids := p; l_next_k := l_next_k c;
     l_next_seq := l_next_seq c; l_batch := l_batch c; l_counters := l_counters c; l_acked := acked;
     l_protocol_errors := errors; l_sent := l_sent c; l_back := back; l_wire := l_wire c; l_lines := l_lines c |}.
Definition set_saying (c : LConn) (said : bool) (lines : list str) : LConn :=
  {| l_pacer := l_pacer c; l_reader := l_reader c; l_said := said; l_ids := l_ids c; l_next_k := l_next_k c;
     l_next_seq := l_next_seq c; l_batch := l_batch c; l_counters := l_counters c; l_acked := l_acked c;
     l_protocol_errors := l_protocol_errors c; l_sent := l_sent c; l_back := l_back c; l_wire := l_wire c; l_lines := lines |}.

(** What happens next: a step of the pacer, or of the reader, with the host's
    answer. *)
Inductive LAction :=
| LNow (now : Z)                          (* the pacer reads the clock *)
| LGo                                     (* the pacer's next operation that needs no answer *)
| LWrite (answer : Timed unit)
| LDrain (deadline : bool)                (* one look at [in_flight], or the deadline *)
| LDisconnect (answer : Timed unit)
| LShutdown (answer : option str)
| LJoin (deadline : bool)
| LCancel                                 (* the connection's task is aborted *)
| LItem (item : option (result PacketV3 FrameError))   (* [None] is the end of the stream *)
| LReader                                 (* the reader's next shared operation *)
| LPrinted (failed : option str)          (* [eprintln!] *)
| LReaderAborted.                         (* the handle went with its task *)

(** The parts of the write gate, each one shared operation. *)
Definition note_write_start (g : GenCounters) (start : Z) : GenCounters :=
  {| offered := offered g; stalled := stalled g; missed_slots := missed_slots g; lateness_over_range := lateness_over_range g;
     last_write_start_ns := update_last_write_start (last_write_start_ns g) start; lateness := lateness g;
     in_flight := in_flight g |}.
Definition count_offered (g : GenCounters) (n : Z) : GenCounters :=
  {| offered := wrap64 (offered g + n); stalled := stalled g; missed_slots := missed_slots g;
     lateness_over_range := lateness_over_range g; last_write_start_ns := last_write_start_ns g; lateness := lateness g;
     in_flight := in_flight g |}.
Definition count_in_flight (g : GenCounters) (n : Z) : GenCounters :=
  {| offered := offered g; stalled := stalled g; missed_slots := missed_slots g; lateness_over_range := lateness_over_range g;
     last_write_start_ns := last_write_start_ns g; lateness := lateness g; in_flight := wrap64 (in_flight g + n) |}.

Section Latency.
Context (conn_id : Z) (config : GenConfig) (rate : Z).

Definition due_of (c : LConn) : option Z := slot_due_ns conn_id (l_next_k c) (gen_connections config) rate (origin_ns config).
Definition slot_panic : PacerPc := PDied (lit "slot offset fits in u64 (under ~584 years)").

(** The pacer leaves its loop: a QoS 1 connection drains first. *)
Definition end_pacing (c : LConn) (failure : option str) : LConn :=
  set_pacer c (if gen_qos config =? 1 then PDrain failure else PDisconnect failure false).

(** The batch is collected: encoded, unless it is empty. *)
Definition collected_batch (c : LConn) : LConn :=
  match l_batch c with
  | [] => set_pacer c PTop
  | batch =>
      match latency_encode_batch conn_id config batch (l_next_seq c) [] with
      | None => set_pacer c (PDied (lit "QoS 1 batch entry carries a packet id"))
      | Some (seq, buf) => set_pacer (set_seq c seq) (PGate buf)
      end
  end.

(** One turn of [latency_collect_batch], whose clock reads [now]. *)
Definition collect_one (c : LConn) (now : Z) : LConn :=
  if (length (l_batch c) <? BATCH)%nat then
    match due_of c with
    | None => set_pacer c slot_panic
    | Some due =>
        if slot_grid_end_ns (window config) <=? due then collected_batch c
        else if now <? due then collected_batch c
        else if gen_qos config =? 1 then set_pacer c (PAlloc due)
        else set_batch c (l_ids c) (sat_add 64 (l_next_k c) 1) (l_batch c ++ [(None, due)])
    end
  else collected_batch c.

Definition allocate_one (c : LConn) (due : Z) : LConn :=
  match PacketIds_allocate (l_ids c) with
  | (None, p) => set_pacer (set_batch c p (l_next_k c) (l_batch c)) PSkip
  | (Some id, p) => set_pacer (set_batch c p (sat_add 64 (l_next_k c) 1) (l_batch c ++ [(Some id, due)])) PCollect
  end.

(** The write of the batch ended. *)
Definition written_batch (c : LConn) (answer : Timed unit) : LConn :=
  match publish_write_failure answer with
  | None => set_pacer c PSent
  | Some cause =>
      let sent := Z.of_nat (length (l_batch c)) in
      let g := if negb (gen_qos config =? 1) then add_stalled (l_counters c) sent else l_counters c in
      end_pacing (set_counters c (count_remaining_missed conn_id config rate g (l_next_k c))) (Some cause)
  end.

(** ['pacer: loop]. *)
Definition pace_step (c : LConn) (a : LAction) : option LConn :=
  match l_pacer c, a with
  | PTop, LGo =>
      Some match due_of c with
           | None => set_pacer c slot_panic
           | Some due => if slot_grid_end_ns (window config) <=? due then end_pacing c None else set_pacer c (PWait due)
           end
  | PWait due, LNow now => Some (if due <=? now then set_pacer c PCheck else c)
  | PCheck, LNow now =>
      Some (if end_ns (window config) <=? now
            then end_pacing (set_counters c (count_remaining_missed conn_id config rate (l_counters c) (l_next_k c))) None
            else set_pacer (set_batch c (l_ids c) (l_next_k c) []) PCollect)
  | PCollect, LNow now => Some (collect_one c now)
  | PAlloc due, LGo => Some (allocate_one c due)
  | PSkip, LNow now =>
      let '(k, g) := skip_missed conn_id config rate (l_counters c) (l_next_k c) now in
      Some (collected_batch (set_counters (set_batch c (l_ids c) k (l_batch c)) g))
  | PGate buf, LNow start =>
      Some (if end_ns (window config) <=? start then set_pacer c PDrop
            else set_pacer (set_counters c (note_write_start (l_counters c) start)) (POffer buf))
  | POffer buf, LGo =>
      Some (set_pacer (set_counters c (count_offered (l_counters c) (Z.of_nat (length (l_batch c))))) (PSubmit buf))
  | PSubmit buf, LGo =>
      let g := if gen_qos config =? 1 then count_in_flight (l_counters c) (Z.of_nat (length (l_batch c))) else l_counters c in
      Some (set_pacer (set_sent (set_counters c g) (l_sent c ++ l_batch c) (l_wire c ++ [buf])) (PWrite buf))
  | PWrite buf, LWrite answer => Some (written_batch c answer)
  | PSent, LNow send_ns =>
      let g := foldl (fun g x => note_lateness (window config) send_ns g x.2) (l_counters c) (l_batch c) in
      Some (set_pacer (set_counters c g) PTop)
  | PDrop, LGo =>
      let p := if gen_qos config =? 1 then release_ids (l_batch c) (l_ids c) else l_ids c in
      let g := add_missed_slots (l_counters c) (Z.of_nat (length (l_batch c))) in
      let g := count_remaining_missed conn_id config rate g (l_next_k c) in
      Some (end_pacing (set_counters (set_batch c p (l_next_k c) (l_batch c)) g) None)
  | _, _ => None
  end.

(** The reader's handle is awaited after an abort: it resolves when the reader
    is between frames or ended, and re-raises a panic. *)
Definition await_reader (c : LConn) (next : PacerPc) : option LConn :=
  match l_reader c with
  | LRead | LStopped => Some (set_pacer (set_lreader c LStopped) next)
  | LPanicked e => Some (set_pacer c (PDied e))
  | _ => None
  end.

(** [latency_teardown]. *)
Definition teardown_step (c : LConn) (a : LAction) : option LConn :=
  match l_pacer c, a with
  | PDrain failure, LDrain deadline =>
      if deadline then Some (set_pacer c (PStop failure))
      else if 0 <? in_flight (l_counters c) then Some c
      else Some (set_pacer c (PDisconnect failure false))
  | PStop failure, LGo => await_reader c (PCount failure)
  | PCount failure, LGo =>
      let leaked := in_flight (l_counters c) in
      let c := if 0 <? leaked then set_counters c (add_stalled (l_counters c) leaked) else c in
      Some (set_pacer c (PDisconnect failure true))
  | PDisconnect failure stopped, LDisconnect answer =>
      Some (set_pacer c (PShutdown failure stopped (if bool_decide (failure = None) then Some answer else None)))
  | PShutdown failure stopped disconnect, LShutdown answer =>
      Some (set_pacer c
        (if stopped then PReturned failure (gen_session_result failure (teardown_failure disconnect answer))
         else PJoin failure disconnect answer))
  | PJoin failure disconnect shutdown, LJoin deadline =>
      let next := PReturned failure (gen_session_result failure (teardown_failure disconnect shutdown)) in
      match l_reader c with
      | LStopped | LPanicked _ => await_reader c next
      | _ => if deadline then await_reader c next else None
      end
  | _, _ => None
  end.

(** A task is cancelled where it awaits. *)
Definition abort_step (c : LConn) : option LConn :=
  match l_pacer c with
  | PWait _ | PWrite _ | PDrain _ | PStop _ | PDisconnect _ _ | PShutdown _ _ _ | PJoin _ _ _ => Some (set_pacer c PCancelled)
  | _ => None
  end.

Definition lreader_line (text : str) : str :=
  lit "gen: connection " ++ dec conn_id ++ lit ": QoS " ++ dec (gen_qos config) ++ lit " reader " ++ text.

Definition count_protocol_error (c : LConn) : LConn :=
  set_reading c (l_ids c) (l_acked c) (wrap64 (l_protocol_errors c + 1)) (l_back c).

(** A rejection is counted, and printed once per reader. *)
Definition lreject (c : LConn) (text : str) : LConn :=
  let c := count_protocol_error c in
  if l_said c then set_lreader c LRead else set_lreader (set_saying c true (l_lines c)) (LSay (lreader_line text) true).

(** A frame for the reader: [qos1_latency_reader], or [qos0_reader_task], which
    expects none and ends silently with the stream. *)
Definition on_frame_read (c : LConn) (item : option (result PacketV3 FrameError)) : LConn :=
  match item with
  | None => set_lreader c (if gen_qos config =? 1 then LEof else LStopped)
  | Some (Ok (V3_PublishAck id)) =>
      if gen_qos config =? 1 then set_lreader c (LRelease id)
      else lreject c (lit "rejected an unexpected " ++ lit (packet_kind (V3_PublishAck id)))
  | Some (Ok p) => lreject c (lit "rejected an unexpected " ++ lit (packet_kind p))
  | Some (Err (FeIo e)) => set_lreader c (LSay (lreader_line (lit "read failed: " ++ e)) false)
  | Some (Err (FeCodec e)) => set_lreader (count_protocol_error c) (LSay (lreader_line (lit "decode failed: " ++ e)) false)
  end.

Definition release_one (c : LConn) (id : Z) : LConn :=
  let '(released, p) := PacketIds_release (l_ids c) id in
  let c := set_reading c p (l_acked c) (l_protocol_errors c) (if released then l_back c ++ [id] else l_back c) in
  if released then set_lreader c LAck
  else lreject c (lit "rejected a PUBACK for packet id " ++ dec id ++ lit ", which is not in flight").

(** The end of the stream: ids still outstanding are named. *)
Definition stream_ended (c : LConn) : LConn :=
  let outstanding := in_flight (l_counters c) in
  set_lreader c
    (if 0 <? outstanding then LSay (lreader_line (lit "saw EOF with " ++ dec outstanding ++ lit " ids outstanding")) false
     else LStopped).

Definition lreader_step (c : LConn) (a : LAction) : option LConn :=
  match l_reader c, a with
  | LRead, LItem item => Some (on_frame_read c item)
  | LRead, LReaderAborted => match l_pacer c with PCancelled | PDied _ => Some (set_lreader c LStopped) | _ => None end
  | LRelease id, LReader => Some (release_one c id)
  | LAck, LReader => Some (set_lreader (set_reading c (l_ids c) (wrap64 (l_acked c + 1)) (l_protocol_errors c) (l_back c)) LSub)
  | LSub, LReader => Some (set_lreader (set_counters c (count_in_flight (l_counters c) (-1))) LRead)
  | LEof, LReader => Some (stream_ended c)
  | LSay line more, LPrinted failed =>
      Some match failed with
           | Some e => set_lreader c (LPanicked e)
           | None => set_lreader (set_saying c (l_said c) (l_lines c ++ [line])) (if more then LRead else LStopped)
           end
  | _, _ => None
  end.

Definition l_step (c : LConn) (a : LAction) : option LConn :=
  match a with
  | LItem _ | LReader | LPrinted _ | LReaderAborted => lreader_step c a
  | LCancel => abort_step c
  | LDrain _ | LDisconnect _ | LShutdown _ | LJoin _ => teardown_step c a
  | LNow _ | LWrite _ => pace_step c a
  | LGo => match pace_step c a with Some c => Some c | None => teardown_step c a end
  end.

Fixpoint l_run (c : LConn) (actions : list LAction) : option LConn :=
  match actions with
  | [] => Some c
  | a :: actions => match l_step c a with Some c => l_run c actions | None => None end
  end.

(** [run_latency_connection] of an opened session, and of one that was not. *)
Definition run_latency_connection (opened : result Z OpenError) (actions : list LAction) : option (LConn + Tally) :=
  match latency_open_session opened no_tally with
  | (None, t) => Some (inr t)
  | (Some _, _) => match l_run l_start actions with Some c => Some (inl c) | None => None end
  end.
End Latency.
