(* ===== verification/LatencySpec.v ===== *)
(** * What a latency connection accounts for

    Every slot of a latency connection is offered or missed, whatever the
    broker sends and however its pacer and its reader interleave; and every
    publish offered is acknowledged once or stalled once, unless the broker
    acknowledges a publish before it was sent. *)

From S2P Require Import Prelude Text Rmqtt Wire Recorder Generator Pacer Endpoint GenConn GenSpec Latency.

Section Books.
Context (conn_id : Z) (config : GenConfig) (rate : Z).
Hypothesis C : config_ok config rate.
Hypothesis Hconn : 0 <= conn_id < gen_connections config.
Hypothesis Hqos : 0 <= gen_qos config.
(** Slots just past the grid still have a due time. *)
Hypothesis Hfit : slot_grid_end_ns (window config) + CONNECTIONS_MAX * NS < 2 ^ 64.

(** This connection's share of the schedule. *)
Abbreviation own_slots := (own_slot_count conn_id (gen_connections config) (window_due_j_count config rate)).

Lemma qos_cases : gen_qos config = 0 \/ gen_qos config = 1.
Proof.
  destruct C as [_ Hv _ _ _ _ _]. unfold validate in Hv. destruct (Z.ltb_spec 1 (gen_qos config)); [done|lia].
Qed.

Lemma own_range : 0 <= own_slots < 2 ^ 64.
Proof. exact (own_bounds conn_id config rate C Hconn). Qed.

(** ** Where a slot is *)

Inductive Stage := Pacing | Ended | Gone.

Definition stage (pc : PacerPc) : Stage :=
  match pc with
  | PDrain _ | PStop _ | PCount _ | PDisconnect _ _ | PShutdown _ _ _ | PJoin _ _ _ | PReturned _ _ => Ended
  | PDied _ | PCancelled => Gone
  | _ => Pacing
  end.

(** The slots of the batch that are neither submitted nor missed yet. *)
Definition pending (c : LConn) : Batch :=
  match l_pacer c with
  | PCollect | PAlloc _ | PSkip | PGate _ | POffer _ | PSubmit _ | PDrop => l_batch c
  | _ => []
  end.

(** The encoded batch before its write begins. *)
Definition unwritten_buf (pc : PacerPc) : option (list Z) :=
  match pc with PGate buf | POffer buf | PSubmit buf => Some buf | _ => None end.

Definition encoded_batch (c : LConn) : Batch := match unwritten_buf (l_pacer c) with Some _ => l_batch c | None => [] end.

(** The slots offered and not yet submitted. *)
Definition offering (c : LConn) : Batch := match l_pacer c with PSubmit _ => l_batch c | _ => [] end.

(** The pacer's failure. *)
Definition failure_of (pc : PacerPc) : option str :=
  match pc with
  | PDrain f | PStop f | PCount f | PDisconnect f _ | PShutdown f _ _ | PJoin f _ _ | PReturned f _ => f
  | _ => None
  end.

(** The slots submitted whose write did not complete. *)
Definition incomplete (c : LConn) : Batch :=
  match l_pacer c with
  | PWrite _ | PSent => l_batch c
  | pc => if bool_decide (failure_of pc = None) then [] else l_batch c
  end.

(** A slot carries a packet id exactly at QoS 1. *)
Definition slot_ok (x : option Z * Z) : Prop := is_Some x.1 <-> gen_qos config = 1.

Definition in_window (x : option Z * Z) : bool := (start_ns (window config) <=? x.2) && (x.2 <? end_ns (window config)).
Definition due_in_window (l : Batch) : Z := Z.of_nat (length (base.filter in_window l)).

(** The frames of the slots submitted, numbered from [i]. *)
Definition slot_frame (i : nat) (x : option Z * Z) : list Z :=
  default [] (encode_publish [] (gen_qos config) x.1 (stamp_of conn_id (seq_after i) x.2)).
Fixpoint slot_frames (i : nat) (l : Batch) : list Z :=
  match l with [] => [] | x :: l => slot_frame i x ++ slot_frames (S i) l end.

Abbreviation count l := (Z.of_nat (length l)).

Record paced (c : LConn) : Prop := {
  pd_slots : match stage (l_pacer c) with
             | Pacing => l_next_k c = count (l_sent c) + count (pending c) + missed_slots (l_counters c) /\ l_next_k c <= own_slots
             | Ended => count (l_sent c) + missed_slots (l_counters c) = own_slots
             | Gone => count (l_sent c) + missed_slots (l_counters c) <= own_slots
             end;
  pd_missed : 0 <= missed_slots (l_counters c);
  pd_alloc due : l_pacer c = PAlloc due -> l_next_k c < own_slots /\ gen_qos config = 1 /\ (length (l_batch c) < BATCH)%nat;
  pd_room : (length (l_batch c) <= BATCH)%nat;
  pd_offered : offered (l_counters c) = count (l_sent c) + count (offering c);
  pd_batch : Forall slot_ok (l_batch c);
  pd_sent : Forall slot_ok (l_sent c);
  pd_wire : mjoin (l_wire c) = slot_frames 0 (l_sent c);
  pd_buf buf : unwritten_buf (l_pacer c) = Some buf -> buf = slot_frames (length (l_sent c)) (l_batch c);
  pd_seq : stage (l_pacer c) = Pacing -> l_pacer c <> PDrop ->
           l_next_seq c = seq_after (length (l_sent c) + length (encoded_batch c));
  pd_died e : l_pacer c = PDied e -> l_reader c = LPanicked e;
  pd_last : last_write_start_ns (l_counters c) < end_ns (window config);
  pd_late : let late := count (lateness (l_counters c)) + lateness_over_range (l_counters c) in
            0 <= lateness_over_range (l_counters c) /\
            match stage (l_pacer c) with
            | Gone => late <= due_in_window (l_sent c)
            | _ => late + due_in_window (incomplete c) = due_in_window (l_sent c)
            end
}.

Lemma paced_start : paced l_start.
Proof.
  pose proof own_range. destruct (config_bounds _ _ C) as (_ & _ & Ho & Hw & _). destruct C as [_ _ _ _ Hu _ _].
  split; simpl; try done; unfold u_range in *; lia.
Qed.

(** ** Counting *)

Lemma remaining_eq g k : 0 <= k <= own_slots -> count_remaining_missed conn_id config rate g k = add_missed_slots g (own_slots - k).
Proof.
  intros Hk. pose proof own_range. unfold count_remaining_missed. cbv zeta.  unfold sat_sub, to_u64_or_max.
  by rewrite Z.max_r, (proj2 (Z.ltb_lt _ _)) by lia.
Qed.

Lemma skip_eq g k now : 0 <= k <= own_slots ->
  exists k', k <= k' <= own_slots /\ skip_missed conn_id config rate g k now = (k', if k' =? k then g else add_missed_slots g (k' - k)).
Proof.
  intros Hk. pose proof own_range. unfold skip_missed. cbv zeta.  unfold sat_sub. set (b := Z.min _ own_slots). assert (b <= own_slots) by lia.
  clearbody b. destruct (Z.eqb_spec (Z.max 0 (b - k)) 0).
  - exists k. rewrite Z.eqb_refl. split; [lia|done].
  - exists b. unfold to_u64_or_max. rewrite !(proj2 (Z.ltb_lt _ _)), Z.max_r by lia. rewrite (proj2 (Z.eqb_neq b k)) by lia.
    split; [lia|done].
Qed.

Lemma due_in_window_app l l' : due_in_window (l ++ l') = due_in_window l + due_in_window l'.
Proof. unfold due_in_window. rewrite filter_app, length_app. lia. Qed.

Lemma due_in_window_le l : 0 <= due_in_window l <= count l.
Proof. unfold due_in_window. pose proof (length_filter in_window l). lia. Qed.

(** What the lateness of slots adds: [n] of them recorded or over the range. *)
Record noted (g g' : GenCounters) (n : Z) : Prop := {
  nd_late : count (lateness g') + lateness_over_range g' = count (lateness g) + lateness_over_range g + n;
  nd_over : lateness_over_range g <= lateness_over_range g' <= lateness_over_range g + n;
  nd_offered : offered g' = offered g;
  nd_missed : missed_slots g' = missed_slots g;
  nd_last : last_write_start_ns g' = last_write_start_ns g;
  nd_in_flight : in_flight g' = in_flight g;
  nd_stalled : stalled g' = stalled g
}.

Lemma note_one send_ns g x : 0 <= lateness_over_range g -> lateness_over_range g + due_in_window [x] < 2 ^ 64 ->
  noted g (note_lateness (window config) send_ns g x.2) (due_in_window [x]).
Proof.
  intros Hg. assert (due_in_window [x] = if in_window x then 1 else 0) as ->.
  { unfold due_in_window. rewrite filter_cons. by destruct (in_window x). }
  unfold note_lateness, in_window. destruct (_ && _); intros Hb; [|split; lia].
  destruct (_ <? _); split; simpl; rewrite ?wrap_small, ?length_app; simpl; lia.
Qed.

(** Every slot of a batch written is recorded or over the range, if it is due in
    the window. *)
Lemma lateness_books send_ns l : forall g, 0 <= lateness_over_range g -> lateness_over_range g + due_in_window l < 2 ^ 64 ->
  noted g (foldl (fun g x => note_lateness (window config) send_ns g x.2) g l) (due_in_window l).
Proof.
  induction l as [|x l IH]; intros g Hg Hb; cbn [foldl length] in *; [split; unfold due_in_window; simpl; lia|].
  change (x :: l) with ([x] ++ l) in *. rewrite due_in_window_app in *. pose proof (due_in_window_le [x]) as Hx. pose proof (due_in_window_le l).
  destruct (note_one send_ns g x ltac:(lia) ltac:(lia)) as [E1 E2 E3 E4 E5 E6 E7]. set (g1 := note_lateness _ _ _ _) in *.
  destruct (IH g1 ltac:(lia) ltac:(lia)). split; try congruence; lia.
Qed.

(** ** Frames *)

Lemma slot_frames_app l l' : forall i, slot_frames i (l ++ l') = slot_frames i l ++ slot_frames (i + length l) l'.
Proof.
  induction l as [|x l IH]; intros i; cbn [slot_frames app length]; [by rewrite Nat.add_0_r|].
  rewrite IH, <- app_assoc. by replace (S i + length l)%nat with (i + S (length l))%nat by lia.
Qed.

Lemma slot_frame_app buf i x : slot_ok x ->
  encode_publish buf (gen_qos config) (if gen_qos config =? 1 then x.1 else None) (stamp_of conn_id (seq_after i) x.2) =
  Some (buf ++ slot_frame i x).
Proof.
  intros Hx. unfold slot_frame, encode_publish, slot_ok in *. destruct x as [id due]. cbn [fst snd] in *.
  destruct qos_cases as [Hq|Hq]; rewrite Hq in *; cbn [Z.eqb Z.ltb Z.compare Pos.compare Pos.eqb].
  - rewrite !write_varint_app by done. by rewrite <- !app_assoc.
  - destruct id as [id|]; [|by destruct (proj2 Hx eq_refl)]. rewrite !write_varint_app by done. by rewrite <- !app_assoc.
Qed.

Lemma seq_after_S n : sat_add 64 (seq_after n) 1 = seq_after (S n).
Proof. unfold sat_add, seq_after. lia. Qed.

Lemma encode_frames l : forall n buf, Forall slot_ok l ->
  latency_encode_batch conn_id config l (seq_after n) buf = Some (seq_after (n + length l), buf ++ slot_frames n l).
Proof.
  induction l as [|[id due] l IH]; intros n buf Hl; cbn [latency_encode_batch slot_frames length]; [by rewrite Nat.add_0_r, app_nil_r|].
  apply Forall_cons in Hl as [Hx Hl]. pose proof (slot_frame_app buf n (id, due) Hx) as Hf. unfold stamp_of in Hf. cbn [fst snd] in Hf.
  assert (Hid : (gen_qos config =? 1) && bool_decide (id = None) = false).
  { destruct (Z.eqb_spec (gen_qos config) 1) as [Hq|]; [|done]. destruct (proj2 Hx Hq) as [i Hi]. simpl in Hi. by subst id. }
  rewrite Hid, Hf, seq_after_S, IH by done. rewrite <- app_assoc. do 3 f_equal. lia.
Qed.

(** ** The pacer *)

(** The fields of the invariant after a step, from those before it, for a pacer
    at the known point [Hc]. *)
Ltac paced_open Hp Hc := pose proof Hp as []; unfold pending, offering, incomplete, encoded_batch in *; rewrite Hc in *; simpl in *;
  change (due_in_window []) with 0 in *.
Ltac paced_split Hc := split; unfold pending, offering, incomplete, encoded_batch; simpl; rewrite ?Hc; simpl;
  change (due_in_window []) with 0; try done;
  try match goal with H : Pacing = Pacing -> _ -> l_next_seq _ = _ |- _ => intros _ _; by apply H end.

(** The pacer moves on, and nothing of its batch changes. *)
Lemma paced_move c pc : paced c -> stage (l_pacer c) = Pacing -> stage pc = Pacing -> pending (set_pacer c pc) = pending c ->
  (forall due, pc = PAlloc due -> l_next_k c < own_slots /\ gen_qos config = 1 /\ (length (l_batch c) < BATCH)%nat) ->
  offering (set_pacer c pc) = offering c -> unwritten_buf pc = unwritten_buf (l_pacer c) -> l_pacer c <> PDrop ->
  incomplete (set_pacer c pc) = incomplete c -> paced (set_pacer c pc).
Proof.
  intros [] Hst Hst' Hp Ha Hs Hb Hd Hi. rewrite Hst in *.
  assert (He : encoded_batch (set_pacer c pc) = encoded_batch c) by (unfold encoded_batch; simpl; by rewrite Hb).
  split; simpl; rewrite ?Hst', ?Hp, ?He, ?Hb, ?Hi, ?Hs; auto. intros e ->. done.
Qed.

(** Only slots were missed. *)
Lemma missed_add g m : 0 <= missed_slots g -> 0 <= m -> missed_slots g + m < 2 ^ 64 ->
  missed_slots (add_missed_slots g m) = missed_slots g + m.
Proof. intros. simpl. apply wrap_small. lia. Qed.

(** The pacer leaves its loop: what it still owed is missed. *)
Lemma paced_end c g failure : paced c -> stage (l_pacer c) = Pacing -> unwritten_buf (l_pacer c) = None ->
  offered g = offered (l_counters c) -> last_write_start_ns g = last_write_start_ns (l_counters c) ->
  lateness g = lateness (l_counters c) -> lateness_over_range g = lateness_over_range (l_counters c) ->
  0 <= missed_slots g -> count (l_sent c) + missed_slots g = own_slots ->
  (if bool_decide (failure = None) then [] else l_batch c) = incomplete c ->
  paced (end_pacing config (set_counters c g) failure).
Proof.
  intros [] Hst Hu Ho Hl Hla Hov Hm Hs Hi.
  assert (He : encoded_batch c = []) by (unfold encoded_batch; by rewrite Hu).
  assert (Hf : offering c = []) by (unfold offering; by destruct (l_pacer c)).
  rewrite Hst, He, Hf, Hu, <- Hi in *.
  unfold end_pacing. destruct (gen_qos config =? 1); split; simpl; rewrite ?Ho, ?Hl, ?Hla, ?Hov; auto; done.
Qed.

Lemma counters_same c : set_counters c (l_counters c) = c.
Proof. by destruct c. Qed.

(** The books while slots are collected. *)
Lemma collecting c : paced c -> stage (l_pacer c) = Pacing ->
  0 <= l_next_k c <= own_slots /\ 0 <= missed_slots (l_counters c) <= l_next_k c - count (l_sent c) - count (pending c).
Proof. intros [] Hs. rewrite Hs in pd_slots0. lia. Qed.

(** The clock passed the window's end before the next batch. *)
Lemma end_remaining c failure m : paced c -> stage (l_pacer c) = Pacing -> unwritten_buf (l_pacer c) = None -> m = count (pending c) ->
  (if bool_decide (failure = None) then [] else l_batch c) = incomplete c ->
  paced (end_pacing config (set_counters c (add_missed_slots (add_missed_slots (l_counters c) m) (own_slots - l_next_k c))) failure).
Proof.
  intros Hp Hs Hu Hm Hi. pose proof own_range as Ho. pose proof (collecting c Hp Hs) as [Hk Hmi].
  pose proof (pd_slots c Hp) as Hsl. rewrite Hs in Hsl.
  assert (Hw : missed_slots (add_missed_slots (add_missed_slots (l_counters c) m) (own_slots - l_next_k c)) = own_slots - count (l_sent c)).
  { rewrite missed_add; rewrite ?missed_add; lia. }
  apply paced_end; try done; rewrite Hw; lia.
Qed.

Lemma add_none g : 0 <= missed_slots g < 2 ^ 64 -> add_missed_slots g 0 = g.
Proof. intros. destruct g as [o st m lo la l i]. unfold add_missed_slots. simpl in *. f_equal. rewrite Z.add_0_r. apply wrap_small. lia. Qed.

Lemma end_of_window c : paced c -> stage (l_pacer c) = Pacing -> unwritten_buf (l_pacer c) = None -> pending c = [] -> incomplete c = [] ->
  paced (end_pacing config (set_counters c (count_remaining_missed conn_id config rate (l_counters c) (l_next_k c))) None).
Proof.
  intros Hp Hs Hu Hn Hi. pose proof own_range. pose proof (collecting c Hp Hs) as [Hk Hmi]. rewrite remaining_eq by done.
  rewrite <- (add_none (l_counters c)) at 1 by lia. apply end_remaining; try done. by rewrite Hn.
Qed.

Lemma collected_encodes c : paced c -> l_pacer c = PCollect \/ l_pacer c = PSkip ->
  latency_encode_batch conn_id config (l_batch c) (l_next_seq c) [] =
  Some (seq_after (length (l_sent c) + length (l_batch c)), slot_frames (length (l_sent c)) (l_batch c)).
Proof.
  intros [] Hpc. assert (Hseq : l_next_seq c = seq_after (length (l_sent c))).
  { destruct Hpc as [E|E]; unfold encoded_batch in *; rewrite E in *; simpl in *; rewrite pd_seq0 by done; f_equal; lia. }
  by rewrite Hseq, (encode_frames (l_batch c)).
Qed.

Lemma collected_paced c : paced c -> l_pacer c = PCollect \/ l_pacer c = PSkip -> paced (collected_batch conn_id config c).
Proof.
  intros Hp Hpc. unfold collected_batch.
  destruct (l_batch c) as [|x l] eqn:Hb.
  - apply paced_move; try done; destruct Hpc as [E|E]; unfold pending, offering, incomplete; rewrite E; simpl; rewrite ?Hb; done.
  - rewrite <- Hb, collected_encodes by done.
    destruct Hpc as [E|E]; paced_open Hp E; paced_split E; by intros buf [= <-].
Qed.

(** One more slot is in the batch. *)
Lemma push_paced c p x pc : paced c -> pc = l_pacer c \/ pc = PCollect -> l_pacer c = PCollect \/ (exists due, l_pacer c = PAlloc due) ->
  (forall due, pc <> PAlloc due) -> l_next_k c < own_slots -> slot_ok x -> (length (l_batch c) < BATCH)%nat ->
  paced (set_pacer (set_batch c p (sat_add 64 (l_next_k c) 1) (l_batch c ++ [x])) pc).
Proof.
  intros Hp Hpc Hc Ha Hk Hx Hroom. pose proof own_range. assert (pc = PCollect) as ->.
  { destruct Hpc as [->| ->]; [|done]. destruct Hc as [Hc|[due Hc]]; [done|by destruct (Ha due)]. }
  assert (Hst : stage (l_pacer c) = Pacing) by (destruct Hc as [->|[due ->]]; done).
  destruct (collecting c Hp Hst) as [Hk0 Hm]. rewrite sat_add_small by lia.
  destruct Hc as [Hc|[due Hc]]; paced_open Hp Hc;
    (paced_split Hc; rewrite ?length_app; simpl; try lia; apply Forall_app_2; [done|by constructor]).
Qed.

Lemma due_known c : paced c -> stage (l_pacer c) = Pacing ->
  exists due, due_of conn_id config rate c = Some due /\ (due < slot_grid_end_ns (window config) <-> l_next_k c < own_slots).
Proof.
  intros Hp Hs. destruct (collecting c Hp Hs) as [Hk _]. destruct (due_total conn_id config rate C Hconn Hfit _ Hk) as (due & Hd & _ & Hg).
  by exists due.
Qed.

Lemma batch_same c : set_batch c (l_ids c) (l_next_k c) (l_batch c) = c.
Proof. by destruct c. Qed.
Lemma pacer_same c : set_pacer c (l_pacer c) = c.
Proof. by destruct c. Qed.

Lemma collect_paced c now : paced c -> l_pacer c = PCollect -> paced (collect_one conn_id config rate c now).
Proof.
  intros Hp Hc. assert (Hs : stage (l_pacer c) = Pacing) by (by rewrite Hc). unfold collect_one.
  destruct (Nat.ltb_spec (length (l_batch c)) BATCH); [|by apply collected_paced; auto].
  destruct (due_known c Hp Hs) as (due & -> & Hg). destruct (Z.leb_spec (slot_grid_end_ns (window config)) due); [by apply collected_paced; auto|].
  destruct (now <? due); [by apply collected_paced; auto|]. destruct (Z.eqb_spec (gen_qos config) 1) as [Hq|Hq].
  - apply paced_move; try done; unfold pending, offering, incomplete; rewrite ?Hc; try done. intros ? _. tauto.
  - change (set_batch c (l_ids c) (sat_add 64 (l_next_k c) 1) (l_batch c ++ [(None, due)])) with
      (set_pacer (set_batch c (l_ids c) (sat_add 64 (l_next_k c) 1) (l_batch c ++ [(None, due)])) (l_pacer c)).
    apply push_paced; auto; [rewrite Hc; done|tauto|]. unfold slot_ok. simpl. split; [by intros []|done].
Qed.

Lemma allocate_paced c due : paced c -> l_pacer c = PAlloc due -> paced (allocate_one c due).
Proof.
  intros Hp Hc. destruct (pd_alloc c Hp due Hc) as (Hk & Hq & Hroom). unfold allocate_one.
  destruct (PacketIds_allocate (l_ids c)) as [[id|] p].
  - apply push_paced; eauto. unfold slot_ok. simpl. split; [done|by eexists].
  - paced_open Hp Hc. paced_split Hc.
Qed.

Lemma skip_paced c now : paced c -> l_pacer c = PSkip ->
  let '(k, g) := skip_missed conn_id config rate (l_counters c) (l_next_k c) now in
  paced (set_counters (set_batch c (l_ids c) k (l_batch c)) g).
Proof.
  intros Hp Hc. assert (Hs : stage (l_pacer c) = Pacing) by (by rewrite Hc). destruct (collecting c Hp Hs) as [Hk Hm].
  pose proof own_range. destruct (skip_eq (l_counters c) (l_next_k c) now Hk) as (k & Hk' & ->).
  destruct (Z.eqb_spec k (l_next_k c)) as [->|Hne].
  { by rewrite batch_same, counters_same. }
  paced_open Hp Hc. paced_split Hc; rewrite ?wrap_small by lia; try done; lia.
Qed.

(** *** The write *)

Lemma gate_paced c buf start : paced c -> l_pacer c = PGate buf ->
  paced (if end_ns (window config) <=? start then set_pacer c PDrop
         else set_pacer (set_counters c (note_write_start (l_counters c) start)) (POffer buf)).
Proof.
  intros Hp Hc. destruct (Z.leb_spec (end_ns (window config)) start); paced_open Hp Hc; paced_split Hc.
  unfold update_last_write_start. destruct (_ <? _); lia.
Qed.

Lemma offer_paced c buf : paced c -> l_pacer c = POffer buf ->
  paced (set_pacer (set_counters c (count_offered (l_counters c) (count (l_batch c)))) (PSubmit buf)).
Proof.
  intros Hp Hc. pose proof own_range. destruct (collecting c Hp) as [Hk Hm]; [by rewrite Hc|]. paced_open Hp Hc. paced_split Hc.
  rewrite pd_offered0, wrap_small; lia.
Qed.

Lemma submit_paced c buf g : paced c -> l_pacer c = PSubmit buf ->
  g = l_counters c \/ g = count_in_flight (l_counters c) (count (l_batch c)) ->
  paced (set_pacer (set_sent (set_counters c g) (l_sent c ++ l_batch c) (l_wire c ++ [buf])) (PWrite buf)).
Proof.
  intros Hp Hc Hg. pose proof (pd_buf c Hp buf ltac:(by rewrite Hc)) as Hbuf. paced_open Hp Hc.
  destruct Hg as [->| ->]; paced_split Hc; rewrite ?length_app, ?due_in_window_app; try lia; try (by apply Forall_app_2).
  all: try (rewrite join_app, slot_frames_app, pd_wire0; simpl; by rewrite app_nil_r, Hbuf).
  all: try (intros _ _; rewrite pd_seq0 by done; f_equal; lia).
Qed.

Lemma sent_paced c send_ns : paced c -> l_pacer c = PSent ->
  paced (set_pacer (set_counters c (foldl (fun g x => note_lateness (window config) send_ns g x.2) (l_counters c) (l_batch c))) PTop).
Proof.
  intros Hp Hc. pose proof own_range. destruct (collecting c Hp) as [Hk Hm]; [by rewrite Hc|]. paced_open Hp Hc.
  pose proof (due_in_window_le (l_sent c)). pose proof (due_in_window_le (l_batch c)).
  destruct (lateness_books send_ns (l_batch c) (l_counters c)) as [E1 E2 E3 E4 E5 E6 E7]; [lia|lia|].
  set (g := foldl _ _ _) in *. paced_split Hc; rewrite ?E3, ?E4, ?E5; try done; lia.
Qed.

Lemma write_paced c buf answer : paced c -> l_pacer c = PWrite buf -> paced (written_batch conn_id config rate c answer).
Proof.
  intros Hp Hc. assert (Hs : stage (l_pacer c) = Pacing) by (by rewrite Hc). destruct (collecting c Hp Hs) as [Hk Hm]. pose proof own_range.
  unfold written_batch. destruct (publish_write_failure answer) as [cause|].
  2: { apply paced_move; try done; unfold pending, offering, incomplete; rewrite ?Hc; done. }
  rewrite remaining_eq by done. pose proof (pd_slots c Hp) as Hsl. rewrite Hs in Hsl. unfold pending in *. rewrite Hc in *. simpl in Hsl, Hm.
  assert (Hg : forall g, missed_slots g = missed_slots (l_counters c) ->
    missed_slots (add_missed_slots g (own_slots - l_next_k c)) = own_slots - count (l_sent c)).
  { intros g Hg. rewrite missed_add; lia. }
  assert (Hinc : incomplete c = l_batch c) by (unfold incomplete; by rewrite Hc).
  apply paced_end; rewrite ?Hc; try (by destruct (negb _)); try done; rewrite Hg; try (by destruct (negb _)); try lia.
Qed.

Lemma drop_paced c p : paced c -> l_pacer c = PDrop ->
  paced (end_pacing config (set_counters (set_batch c p (l_next_k c) (l_batch c))
    (count_remaining_missed conn_id config rate (add_missed_slots (l_counters c) (count (l_batch c))) (l_next_k c))) None).
Proof.
  intros Hp Hc. assert (Hs : stage (l_pacer c) = Pacing) by (by rewrite Hc). destruct (collecting c Hp Hs) as [Hk Hm]. rewrite remaining_eq by done.
  apply (end_remaining (set_batch c p (l_next_k c) (l_batch c)) None); unfold incomplete, pending; simpl; rewrite ?Hc; try done.
  paced_open Hp Hc. paced_split Hc.
Qed.

Lemma pace_step_ok c a c' : paced c -> pace_step conn_id config rate c a = Some c' -> paced c'.
Proof.
  intros Hp. unfold pace_step. destruct (l_pacer c) eqn:Hc; try done; destruct a; try done.
  all: assert (Hs : stage (l_pacer c) = Pacing) by (by rewrite Hc).
  - intros [= <-]. destruct (due_known c Hp Hs) as (due & -> & Hg). destruct (Z.leb_spec (slot_grid_end_ns (window config)) due).
    + pose proof own_range. destruct (collecting c Hp Hs) as [Hk Hm]. pose proof (pd_slots c Hp) as Hsl. rewrite Hs in Hsl.
      rewrite <- (counters_same c). unfold pending in *. rewrite Hc in *. simpl in *.
      apply paced_end; unfold incomplete; rewrite ?Hc; try done; lia.
    + apply paced_move; try done; unfold pending, offering, incomplete; rewrite ?Hc; done.
  - intros [= <-]. destruct (due <=? now); [|done]. apply paced_move; try done; unfold pending, offering, incomplete; rewrite ?Hc; done.
  - intros [= <-]. destruct (_ <=? now).
    + apply end_of_window; unfold pending, incomplete; rewrite ?Hc; done.
    + paced_open Hp Hc. paced_split Hc. lia.
  - intros [= <-]. by apply collect_paced.
  - intros [= <-]. by apply allocate_paced.
  - pose proof (skip_paced c now Hp Hc) as Hk. destruct (skip_missed _ _ _ _ _ _) as [k g]. intros [= <-]. apply collected_paced; auto.
  - intros [= <-]. by apply gate_paced.
  - intros [= <-]. by apply offer_paced.
  - intros [= <-]. apply submit_paced; [done..|]. destruct (gen_qos config =? 1); auto.
  - intros [= <-]. by eapply write_paced.
  - intros [= <-]. by apply sent_paced.
  - intros [= <-]. by apply drop_paced.
Qed.

(** *** The rest of the connection *)

(** A step of the reader or of the teardown leaves the pacer's books alone. *)
Record same_books (c c' : LConn) : Prop := {
  sb_k : l_next_k c' = l_next_k c; sb_seq : l_next_seq c' = l_next_seq c; sb_batch : l_batch c' = l_batch c;
  sb_sent : l_sent c' = l_sent c; sb_wire : l_wire c' = l_wire c;
  sb_offered : offered (l_counters c') = offered (l_counters c);
  sb_missed : missed_slots (l_counters c') = missed_slots (l_counters c);
  sb_last : last_write_start_ns (l_counters c') = last_write_start_ns (l_counters c);
  sb_lateness : lateness (l_counters c') = lateness (l_counters c);
  sb_over : lateness_over_range (l_counters c') = lateness_over_range (l_counters c)
}.

(** Between two points of the pacer at the same stage that hold nothing. *)
Record same_point (pc pc' : PacerPc) : Prop := {
  sp_stage : stage pc' = stage pc \/ (stage pc' = Gone /\ stage pc <> Pacing);
  sp_failure : failure_of pc' = failure_of pc \/ stage pc' = Gone;
  sp_ended : stage pc <> Pacing
}.

Lemma paced_reader c c' : paced c -> l_pacer c' = l_pacer c -> (forall e, l_reader c <> LPanicked e) -> same_books c c' -> paced c'.
Proof.
  intros [] Hpc Hr []. split; unfold pending, offering, incomplete, encoded_batch in *; rewrite ?Hpc;
    rewrite ?sb_k0, ?sb_seq0, ?sb_batch0, ?sb_sent0, ?sb_wire0, ?sb_offered0, ?sb_missed0, ?sb_last0, ?sb_lateness0, ?sb_over0; auto.
  intros e He. by destruct (Hr e), (pd_died0 e He).
Qed.

Lemma ended_nothing c : stage (l_pacer c) <> Pacing -> pending c = [] /\ offering c = [] /\ unwritten_buf (l_pacer c) = None /\
  incomplete c = (if bool_decide (failure_of (l_pacer c) = None) then [] else l_batch c).
Proof. intros Hs. unfold pending, offering, incomplete. by destruct (l_pacer c). Qed.

Lemma paced_teardown c c' : paced c -> same_point (l_pacer c) (l_pacer c') -> (forall e, l_pacer c' = PDied e -> l_reader c' = LPanicked e) ->
  same_books c c' -> paced c'.
Proof.
  intros [] [Hst Hf He] Hdied []. destruct (ended_nothing c He) as (_ & Ho & Hu & Hi).
  assert (He' : stage (l_pacer c') <> Pacing) by (intros E; destruct Hst as [Hst|[Hst _]]; congruence).
  destruct (ended_nothing c' He') as (_ & Ho' & Hu' & Hi').
  pose proof (due_in_window_le (incomplete c)).
  split; rewrite ?sb_k0, ?sb_seq0, ?sb_batch0, ?sb_sent0, ?sb_wire0, ?sb_offered0, ?sb_missed0, ?sb_last0, ?sb_lateness0, ?sb_over0; auto.
  - destruct Hst as [->|[-> Hn]]; [by destruct (stage (l_pacer c))|]. destruct (stage (l_pacer c)); [done|lia|done].
  - intros due Hd. rewrite Hd in He'. done.
  - by rewrite pd_offered0, Ho, Ho'.
  - by rewrite Hu'.
  - done.
  - destruct pd_late0 as [Hov Hl]. split; [done|]. destruct Hst as [Hst|[-> Hn]]; [rewrite Hst|destruct (stage (l_pacer c)); [done|lia|done]].
    destruct (stage (l_pacer c)) eqn:E; [done| |done]. destruct Hf as [Hf|Hf]; [|congruence]. by rewrite Hi', Hf, sb_batch0, <- Hi.
Qed.

Lemma await_books c pc c' : await_reader c pc = Some c' -> same_books c c' /\ (l_pacer c' = pc \/ exists e, l_pacer c' = PDied e /\ l_reader c' = LPanicked e).
Proof. unfold await_reader. destruct (l_reader c) eqn:E; intros [= <-]; (split; [done|]); simpl; eauto. Qed.

Lemma teardown_step_ok c a c' : paced c -> teardown_step c a = Some c' -> paced c'.
Proof.
  intros Hp Ht. cut (same_books c c' /\ same_point (l_pacer c) (l_pacer c') /\ (forall e, l_pacer c' = PDied e -> l_reader c' = LPanicked e));
    [intros (? & ? & ?); by eapply paced_teardown|].
  unfold teardown_step in Ht. destruct (l_pacer c) eqn:Hc; try done; destruct a; try done.
  - repeat case_match; simplify_eq; split_and!; try done; rewrite ?Hc; try done; split; auto; done.
  - apply await_books in Ht as [Hb [->|(e & -> & Hr)]]; split_and!; try done; [split; auto; done..|congruence].
  - simplify_eq. destruct (0 <? in_flight (l_counters c)); split_and!; try done; split; auto; done.
  - simplify_eq. split_and!; try done; split; auto; done.
  - simplify_eq. destruct stopped; split_and!; try done; split; auto; done.
  - assert (Ha : await_reader c (PReturned failure (gen_session_result failure (teardown_failure disconnect shutdown))) = Some c')
      by (destruct (l_reader c); try done; by case_match).
    apply await_books in Ha as [Hb [->|(e & -> & Hr)]]; split_and!; try done; [split; auto; done..|congruence].
Qed.

Lemma abort_step_ok c c' : paced c -> abort_step c = Some c' -> paced c'.
Proof.
  intros Hp. pose proof own_range. unfold abort_step. destruct (l_pacer c) eqn:Hc; try done; intros [= <-].
  all: try (eapply paced_teardown; [done| |done..]; rewrite Hc; split; auto; done).
  all: pose proof (due_in_window_le (l_batch c)); paced_open Hp Hc; paced_split Hc; lia.
Qed.

Lemma reader_books c a c' : lreader_step conn_id config c a = Some c' -> same_books c c' /\ l_pacer c' = l_pacer c.
Proof.
  unfold lreader_step. destruct (l_reader c); try done; destruct a; try done.
  - intros [= <-]. unfold on_frame_read, lreject. repeat case_match; done.
  - destruct (l_pacer c) eqn:Hc; intros [= <-]; simpl; by rewrite ?Hc.
  - intros [= <-]. unfold release_one, lreject. destruct (PacketIds_release _ _) as [[] p]; simpl; [done|]. by destruct (l_said c).
  - by intros [= <-].
  - by intros [= <-].
  - by intros [= <-].
  - intros [= <-]. by destruct failed.
Qed.

Lemma l_step_paced c a c' : paced c -> l_step conn_id config rate c a = Some c' -> paced c'.
Proof.
  intros Hp. assert (Hr : lreader_step conn_id config c a = Some c' -> paced c').
  { intros Hr. apply reader_books in Hr as Hb. destruct Hb as [Hb Hpc]. apply (paced_reader c); try done.
    intros e He. unfold lreader_step in Hr. by rewrite He in Hr. }
  unfold l_step. destruct a; eauto using pace_step_ok, teardown_step_ok, abort_step_ok.
  destruct (pace_step conn_id config rate c LGo) eqn:E; [intros [= <-]|]; eauto using pace_step_ok, teardown_step_ok.
Qed.

Lemma l_run_paced acts : forall c c', paced c -> l_run conn_id config rate c acts = Some c' -> paced c'.
Proof.
  induction acts as [|a acts IH]; intros c c' Hp; cbn [l_run]; [by intros [= <-]|].
  destruct (l_step conn_id config rate c a) eqn:E; [|done]. intros Hr. eapply IH; [|done]. by eapply l_step_paced.
Qed.
End Books.

(** ** Acknowledgements of a QoS 1 connection *)

Section Acknowledged.
Context (conn_id : Z) (config : GenConfig) (rate : Z).
Hypothesis C : config_ok config rate.
Hypothesis Hconn : 0 <= conn_id < gen_connections config.
Hypothesis Hfit : slot_grid_end_ns (window config) + CONNECTIONS_MAX * NS < 2 ^ 64.
Hypothesis Hq1 : gen_qos config = 1.

Abbreviation count l := (Z.of_nat (length l)).
Definition ids_of (l : Batch) : list Z := omap fst l.

(** A PUBACK is taken for a publish whose write has not begun. *)
Definition early (c : LConn) (a : LAction) : bool :=
  match l_reader c, a with LRelease id, LReader => bool_decide (id ∈ ids_of (pending c)) | _, _ => false end.

(** No PUBACK of the run comes before its publish. *)
Fixpoint timely (c : LConn) (acts : list LAction) : Prop :=
  match acts with
  | [] => True
  | a :: acts => early c a = false /\ match l_step conn_id config rate c a with Some c => timely c acts | None => True end
  end.

(** A PUBACK carries a [NonZeroU16]. *)
Definition laction_ok (a : LAction) : Prop := match a with LItem (Some (Ok (V3_PublishAck id))) => id_ok id | _ => True end.

(** Ids released whose other operations are still to come. *)
Definition to_ack (r : LReaderPc) : Z := match r with LAck => 1 | _ => 0 end.
Definition to_subtract (r : LReaderPc) : Z := match r with LAck | LSub => 1 | _ => 0 end.

(** The reader was stopped and the leftovers were counted ([true]), or not. *)
Definition leftovers (pc : PacerPc) : option bool :=
  match pc with
  | PDisconnect _ b | PShutdown _ b _ => Some b
  | PReturned _ _ => Some true
  | PCancelled | PDied _ => None
  | _ => Some false
  end.
Definition reader_gone (pc : PacerPc) : bool :=
  match pc with PCount _ | PDisconnect _ true | PShutdown _ true _ | PReturned _ _ => true | _ => false end.
Definition all_back (pc : PacerPc) : bool :=
  match pc with PDisconnect _ false | PShutdown _ false _ | PJoin _ _ _ => true | _ => false end.

Record acct (c : LConn) : Prop := {
  ac_ids : exists (o : list Z) (s : gset Z), ids_rel (l_ids c) s /\ ids_of (l_sent c) ≡ₚ l_back c ++ o /\
           elements s ≡ₚ o ++ ids_of (pending c);
  ac_in_flight : in_flight (l_counters c) = wrap64 (count (l_sent c) - (count (l_back c) - to_subtract (l_reader c)));
  ac_acked : l_acked c = wrap64 (count (l_back c) - to_ack (l_reader c));
  ac_stalled b : leftovers (l_pacer c) = Some b -> stalled (l_counters c) = if b then count (l_sent c) - count (l_back c) else 0;
  ac_few : 0 <= stalled (l_counters c) <= 65535;
  ac_gone : reader_gone (l_pacer c) = true -> l_reader c = LStopped;
  ac_all_back : all_back (l_pacer c) = true -> count (l_sent c) = count (l_back c);
  ac_reading id : l_reader c = LRelease id -> id_ok id
}.

Lemma acct_start : acct l_start.
Proof. split; simpl; try done; [|by intros b [= <-]]. exists [], ∅. split_and!; [apply ids_rel_new|done|]. by rewrite elements_empty. Qed.

(** *** Steps that leave the ids alone *)

Record same_acct (c c' : LConn) : Prop := {
  sa_ids : l_ids c' = l_ids c; sa_pending : ids_of (pending c') = ids_of (pending c); sa_sent : l_sent c' = l_sent c;
  sa_back : l_back c' = l_back c; sa_in_flight : in_flight (l_counters c') = in_flight (l_counters c);
  sa_acked : l_acked c' = l_acked c;
  sa_subtract : to_subtract (l_reader c') = to_subtract (l_reader c); sa_ack : to_ack (l_reader c') = to_ack (l_reader c)
}.

Lemma acct_same c c' : acct c -> same_acct c c' ->
  (forall b, leftovers (l_pacer c') = Some b -> stalled (l_counters c') = if b then count (l_sent c) - count (l_back c) else 0) ->
  stalled (l_counters c') = stalled (l_counters c) \/ 0 <= stalled (l_counters c') <= 65535 ->
  (reader_gone (l_pacer c') = true -> l_reader c' = LStopped) -> (all_back (l_pacer c') = true -> count (l_sent c) = count (l_back c)) ->
  (forall id, l_reader c' = LRelease id -> id_ok id) -> acct c'.
Proof.
  intros [] [] Hs Hfew Hg Ha Hr. split; rewrite ?sa_ids0, ?sa_sent0, ?sa_back0, ?sa_in_flight0, ?sa_acked0, ?sa_subtract0, ?sa_ack0; auto.
  - destruct ac_ids0 as (o & s & H). exists o, s. by rewrite sa_pending0.
  - by destruct Hfew as [->|].
Qed.

(** Before the teardown nothing is stalled, and the reader runs. *)
Definition open_point (pc : PacerPc) : Prop := leftovers pc = Some false /\ reader_gone pc = false /\ all_back pc = false.

Lemma acct_open c c' : acct c -> same_acct c c' -> stalled (l_counters c') = stalled (l_counters c) -> l_reader c' = l_reader c ->
  open_point (l_pacer c) -> open_point (l_pacer c') \/ leftovers (l_pacer c') = None /\ reader_gone (l_pacer c') = false /\ all_back (l_pacer c') = false ->
  acct c'.
Proof.
  intros Ha Hsame Hst Hr (Hl & Hg & Hb) Hpc. pose proof (ac_stalled c Ha _ Hl) as Hz. pose proof (ac_reading c Ha) as Hrd.
  eapply acct_same; [done|done| |by left| | |by rewrite Hr]; destruct Hpc as [(Hl' & Hg' & Hb')|(Hl' & Hg' & Hb')]; rewrite ?Hl', ?Hg', ?Hb'; try done.
  by intros b [= <-]; rewrite Hst.
Qed.

(** The open goal is a step of the pacer before the teardown that leaves the ids alone. *)
Ltac open_move Hc := eapply acct_open; [done| |done|done|by rewrite Hc|]; simpl; rewrite ?Hc;
  [split; unfold pending; simpl; rewrite ?Hc; try done|]; try (by left); try (by right).

Abbreviation paced := (paced conn_id config rate).
Let Hqos : 0 <= gen_qos config.
Proof. rewrite Hq1. done. Qed.

Lemma collected_acct c : paced c -> acct c -> l_pacer c = PCollect \/ l_pacer c = PSkip -> acct (collected_batch conn_id config c).
Proof.
  intros Hp Ha Hpc. unfold collected_batch. destruct (l_batch c) as [|x l] eqn:Hb.
  - destruct Hpc as [Hc|Hc]; open_move Hc; by rewrite Hb.
  - rewrite <- Hb, (collected_encodes conn_id config rate C Hqos) by done. destruct Hpc as [Hc|Hc]; open_move Hc.
Qed.

Lemma collect_acct c now : paced c -> acct c -> l_pacer c = PCollect -> acct (collect_one conn_id config rate c now).
Proof.
  intros Hp Ha Hc. unfold collect_one. destruct (_ <? BATCH)%nat; [|by apply collected_acct; auto].
  destruct (due_known conn_id config rate C Hconn Hfit c Hp) as (due & -> & _); [by rewrite Hc|].
  repeat (case_match; [by apply collected_acct; auto|]). case_match; [open_move Hc|]. zbool. done.
Qed.

Lemma ids_app l l' : ids_of (l ++ l') = ids_of l ++ ids_of l'.
Proof. apply omap_app. Qed.

Lemma allocate_acct c due : acct c -> l_pacer c = PAlloc due -> acct (allocate_one c due).
Proof.
  intros Ha Hc. pose proof Ha as []. destruct ac_ids0 as (o & s & Hs & Ho & He). unfold allocate_one.
  pose proof (allocate_spec _ _ Hs) as A. destruct (PacketIds_allocate (l_ids c)) as [[id|] p].
  - destruct A as (Hid & Hnew & Hrel). unfold pending in *. rewrite Hc in *. split; simpl; try done.
    exists o, ({[id]} ∪ s). split_and!; [done..|]. unfold pending. simpl.
    rewrite ids_app, elements_union_singleton, He by done. simpl. rewrite app_assoc. by rewrite Permutation_cons_append.
  - destruct A as [-> _]. unfold pending in *. rewrite Hc in *. split; simpl; try done. by exists o, s.
Qed.

(** Released under one lock. *)
Lemma release_ids_spec l : forall p s, ids_rel p s -> Forall id_ok (ids_of l) -> ids_rel (release_ids l p) (s ∖ list_to_set (ids_of l)).
Proof.
  induction l as [|[[id|] due] l IH]; intros p s Hs Hl; cbn [release_ids foldl ids_of omap list_omap fst list_to_set] in *.
  - by rewrite difference_empty_L.
  - apply Forall_cons in Hl as [Hid Hl]. destruct (release_spec p s id Hs) as [_ Hr]; [unfold id_ok, u_range in *; lia|].
    specialize (IH _ _ Hr Hl). rewrite <- difference_difference_l_L. done.
  - by apply IH.
Qed.

Lemma drop_acct c g failure : acct c -> l_pacer c = PDrop -> in_flight g = in_flight (l_counters c) -> stalled g = stalled (l_counters c) ->
  acct (set_pacer (set_counters (set_batch c (release_ids (l_batch c) (l_ids c)) (l_next_k c) (l_batch c)) g) (PDrain failure)).
Proof.
  intros [] Hc Hi Hst. destruct ac_ids0 as (o & s & Hs & Ho & He). unfold pending in *. rewrite Hc in *.
  assert (Hin : forall id, id ∈ s <-> id ∈ o \/ id ∈ ids_of (l_batch c)).
  { intros id. rewrite <- elem_of_elements, He. apply elem_of_app. }
  assert (Hnd : NoDup (o ++ ids_of (l_batch c))) by (rewrite <- He; apply NoDup_elements).
  apply NoDup_app in Hnd as (Hno & Hdis & _).
  split; simpl; rewrite ?Hi, ?Hst; try done. exists o, (s ∖ list_to_set (ids_of (l_batch c))). split_and!; [|done|].
  - apply release_ids_spec; [done|]. apply Forall_forall. intros id Hid. apply (ir_set _ _ Hs), Hin. by right.
  - unfold pending. simpl. rewrite app_nil_r. apply NoDup_Permutation; [apply NoDup_elements|done|].
    intros id. rewrite elem_of_elements, elem_of_difference, elem_of_list_to_set, Hin. clear -Hdis. specialize (Hdis id). tauto.
Qed.

Lemma submit_acct c buf : acct c -> l_pacer c = PSubmit buf ->
  acct (set_pacer (set_sent (set_counters c (count_in_flight (l_counters c) (count (l_batch c)))) (l_sent c ++ l_batch c) (l_wire c ++ [buf])) (PWrite buf)).
Proof.
  intros [] Hc. destruct ac_ids0 as (o & s & Hs & Ho & He). unfold pending in *. rewrite Hc in *. split; simpl; try done.
  - exists (o ++ ids_of (l_batch c)), s. split_and!; [done| |]; unfold pending; simpl; [|by rewrite app_nil_r].
    by rewrite ids_app, Ho, app_assoc.
  - rewrite ac_in_flight0, wrap_plus, length_app. f_equal. lia.
  - intros b [= <-]. by apply (ac_stalled0 false).
Qed.

Lemma note_keeps send_ns l : forall g, let g' := foldl (fun g (x : option Z * Z) => note_lateness (window config) send_ns g x.2) g l in
  in_flight g' = in_flight g /\ stalled g' = stalled g.
Proof.
  induction l as [|x l IH]; intros g; [done|]. cbn [foldl]. destruct (IH (note_lateness (window config) send_ns g x.2)) as [-> ->].
  unfold note_lateness. by repeat case_match.
Qed.

Lemma skip_keeps g k now : in_flight (skip_missed conn_id config rate g k now).2 = in_flight g /\
  stalled (skip_missed conn_id config rate g k now).2 = stalled g.
Proof. unfold skip_missed. by case_match. Qed.

Lemma pace_step_acct c a c' : paced c -> acct c -> pace_step conn_id config rate c a = Some c' -> acct c'.
Proof.
  intros Hp Ha. unfold pace_step, end_pacing. destruct (l_pacer c) eqn:Hc; try done; destruct a; try done.
  - intros [= <-]. destruct (due_known conn_id config rate C Hconn Hfit c Hp) as (due & -> & _); [by rewrite Hc|].
    rewrite Hq1. simpl. case_match; open_move Hc.
  - intros [= <-]. case_match; [open_move Hc|done].
  - intros [= <-]. rewrite Hq1. simpl. case_match; open_move Hc.
  - intros [= <-]. by apply collect_acct.
  - intros [= <-]. by apply allocate_acct.
  - pose proof (skip_paced conn_id config rate C Hconn c now Hp Hc) as Hk. destruct (skip_keeps (l_counters c) (l_next_k c) now) as [Hi Hst].
    destruct (skip_missed _ _ _ _ _ _) as [k g]. intros [= <-]. apply collected_acct; [done| |auto].
    open_move Hc.
  - intros [= <-]. case_match; open_move Hc.
  - intros [= <-]. open_move Hc.
  - intros [= <-]. rewrite Hq1. by apply submit_acct.
  - intros [= <-]. unfold written_batch, end_pacing. rewrite Hq1. simpl. case_match; open_move Hc.
  - intros [= <-]. destruct (note_keeps now (l_batch c) (l_counters c)) as [Hi Hst]. open_move Hc.
  - intros [= <-]. rewrite Hq1. simpl. by apply drop_acct.
Qed.

(** *** The teardown *)

(** There are 65535 packet ids. *)
Lemma ids_bound (s : gset Z) : (forall id, id ∈ s -> id_ok id) -> Z.of_nat (length (elements s)) <= 65535.
Proof.
  intros Hs. assert (Hsub : s ⊆ list_to_set (seqZ 1 65535)).
  { intros id Hid%Hs. rewrite elem_of_list_to_set, elem_of_seqZ. unfold id_ok in Hid. lia. }
  apply subseteq_size in Hsub. rewrite size_list_to_set, length_seqZ in Hsub by apply NoDup_seqZ. apply inj_le in Hsub.
  by rewrite Z2Nat.id in Hsub.
Qed.

Lemma ids_count l : Forall (slot_ok config) l -> length (ids_of l) = length l.
Proof.
  induction l as [|[id due] l IH]; intros Hl; [done|]. apply Forall_cons in Hl as [Hx Hl].
  destruct (proj2 Hx Hq1) as [i Hi]. simpl in Hi. subst id. simpl. f_equal. by apply IH.
Qed.

(** The publishes not acknowledged. *)
Lemma outstanding c : paced c -> acct c -> 0 <= count (l_sent c) - count (l_back c) <= 65535.
Proof.
  intros Hp [(o & s & Hs & Ho & He) _ _ _ _ _ _ _]. pose proof (ids_bound s (ir_set _ _ Hs)).
  apply Permutation_length in Ho, He. rewrite ids_count in Ho by apply Hp. rewrite length_app in *. lia.
Qed.

Lemma in_flight_back c : paced c -> acct c -> in_flight (l_counters c) <= 0 -> count (l_sent c) = count (l_back c).
Proof.
  intros Hp Ha Hz. pose proof (outstanding c Hp Ha) as Ho. pose proof (ac_in_flight c Ha) as Hi.
  assert (0 <= to_subtract (l_reader c) <= 1) by (destruct (l_reader c); simpl; lia).
  rewrite wrap_small in Hi by lia. lia.
Qed.

Lemma await_acct c pc c' : acct c -> await_reader c pc = Some c' -> pending c = [] -> leftovers (l_pacer c) = Some false ->
  pending (set_pacer c pc) = [] ->
  (forall b, leftovers pc = Some b -> (if b then count (l_sent c) - count (l_back c) else 0) = 0) ->
  (all_back pc = true -> count (l_sent c) = count (l_back c)) -> acct c'.
Proof.
  intros Ha Hw Hp Hl Hp' Hlo Hb. assert (Hpp : pending (set_pacer (set_lreader c LStopped) pc) = []) by exact Hp'. pose proof (ac_stalled c Ha _ Hl) as Hz. unfold await_reader in Hw.
  destruct (l_reader c) eqn:Hr; simplify_eq.
  1, 2: eapply acct_same; [done| | | | | |]; simpl; auto; try done; [split; simpl; rewrite ?Hr; try done; by rewrite Hp, Hpp|intros b Hlb; by rewrite Hlo, Hz].
  eapply acct_same; [done| | | | | |]; simpl; auto; try done; [split; simpl; rewrite ?Hr; try done; by rewrite Hp|congruence].
Qed.

Lemma count_acct c f : paced c -> acct c -> l_pacer c = PCount f ->
  acct (set_pacer (if 0 <? in_flight (l_counters c) then set_counters c (add_stalled (l_counters c) (in_flight (l_counters c))) else c) (PDisconnect f true)).
Proof.
  intros Hp Ha Hc. pose proof (outstanding c Hp Ha) as Ho. pose proof Ha as []. rewrite Hc in *.
  specialize (ac_gone0 eq_refl). specialize (ac_stalled0 false eq_refl). rewrite ac_gone0 in *. simpl in *. rewrite wrap_small in ac_in_flight0 by lia.
  assert (Hpen : pending c = []) by (unfold pending; by rewrite Hc).
  destruct (Z.ltb_spec 0 (in_flight (l_counters c)));
    (eapply acct_same; [done|split; simpl; try done; by rewrite Hpen|..]; simpl; rewrite ?ac_gone0; auto; try done; try (intros b [= <-])).
  - rewrite ac_stalled0, wrap_small; lia.
  - right. rewrite ac_stalled0, wrap_small; lia.
  - lia.
Qed.

(** The open goal is a step of the teardown that leaves everything but the pacer's point alone. *)
Ltac torn_move Hc := eapply acct_same; [done|split; unfold pending; simpl; rewrite ?Hc; done|..]; simpl; rewrite ?Hc; auto; try done.

Lemma teardown_step_acct c a c' : paced c -> acct c -> teardown_step c a = Some c' -> acct c'.
Proof.
  intros Hp Ha Ht. pose proof Ha as [_ _ _ Hst _ Hg Hb Hr]. unfold teardown_step in Ht.
  destruct (l_pacer c) eqn:Hc; try done; destruct a; try done; simpl in *.
  - case_match; simplify_eq; [torn_move Hc|]. case_match; simplify_eq; [done|]. zbool. torn_move Hc. intros _. by apply in_flight_back.
  - eapply await_acct; eauto; rewrite ?Hc; try done; unfold pending; rewrite ?Hc; try done. by intros b [= <-].
  - simplify_eq. by apply count_acct.
  - simplify_eq. torn_move Hc.
  - simplify_eq. destruct stopped; torn_move Hc.
  - assert (Hw : await_reader c (PReturned failure (gen_session_result failure (teardown_failure disconnect shutdown))) = Some c')
      by (destruct (l_reader c); try done; by case_match).
    eapply await_acct; eauto; rewrite ?Hc; try done; unfold pending; rewrite ?Hc; try done. intros b [= <-]. rewrite Hb by done. lia.
Qed.

Lemma abort_step_acct c c' : acct c -> abort_step c = Some c' -> acct c'.
Proof.
  intros Ha. pose proof Ha as [_ _ _ _ _ _ _ Hr]. unfold abort_step. destruct (l_pacer c) eqn:Hc; try done; intros [= <-]; torn_move Hc.
Qed.

(** *** The reader *)

Lemma reader_move c c' : acct c -> same_acct c c' -> l_pacer c' = l_pacer c -> stalled (l_counters c') = stalled (l_counters c) ->
  reader_gone (l_pacer c) = false \/ l_reader c' = LStopped -> (forall id, l_reader c' = LRelease id -> id_ok id) -> acct c'.
Proof.
  intros Ha Hs Hc Hst Hg Hr. pose proof Ha as []. eapply acct_same; [done..| | | | |done]; rewrite ?Hc, ?Hst; auto.
  intros E. destruct Hg; [congruence|done].
Qed.

Lemma leftovers_open pc b : reader_gone pc = false -> leftovers pc = Some b -> b = false.
Proof. destruct pc; simpl; try done; try (destruct stopped); congruence. Qed.

Lemma reject_acct c text : acct c -> to_ack (l_reader c) = 0 -> to_subtract (l_reader c) = 0 -> reader_gone (l_pacer c) = false ->
  acct (lreject conn_id config c text).
Proof.
  intros Ha Hk Hs Hg. unfold lreject. destruct (l_said (count_protocol_error c)); apply (reader_move c); simpl; try done; auto; split; simpl; rewrite ?Hk, ?Hs; done.
Qed.

(** The id of an accepted PUBACK is of a publish sent: it leaves the set. *)
Lemma accept_acct c p id (s : gset Z) o : paced c -> acct c -> l_reader c = LRelease id -> reader_gone (l_pacer c) = false ->
  ids_rel p (s ∖ {[id]}) -> ids_of (l_sent c) ≡ₚ l_back c ++ o -> elements s ≡ₚ o ++ ids_of (pending c) -> id ∈ o ->
  acct (set_lreader (set_reading c p (l_acked c) (l_protocol_errors c) (l_back c ++ [id])) LAck).
Proof.
  intros Hp Ha Hr Hg Hrel Ho Hel [o' Hio]%elem_of_Permutation. pose proof Ha as []. rewrite Hr in *. simpl in *.
  assert (Hin : id ∈ s) by (rewrite <- elem_of_elements, Hel, Hio; by left).
  assert (Hs : elements s ≡ₚ id :: elements (s ∖ {[id]})).
  { rewrite <- elements_union_singleton by (clear; set_solver). by rewrite <- union_difference_singleton_L. }
  split; simpl; rewrite ?length_app; simpl; try done.
  - exists o', (s ∖ {[id]}). split_and!; [done|by rewrite Ho, Hio, <- app_assoc|].
    apply (Permutation_cons_inv (a := id)). by rewrite <- Hs, Hel, Hio.
  - rewrite ac_in_flight0. f_equal. lia.
  - rewrite ac_acked0. f_equal. lia.
  - intros b Hb. pose proof (leftovers_open _ _ Hg Hb) as ->. by apply (ac_stalled0 false).
  - congruence.
  - intros Hb. specialize (ac_all_back0 Hb). apply Permutation_length in Ho. rewrite ids_count, length_app, Hio in Ho by apply Hp. simpl in Ho. lia.
Qed.

Lemma release_acct c id : paced c -> acct c -> l_reader c = LRelease id -> reader_gone (l_pacer c) = false -> early c LReader = false ->
  acct (release_one conn_id config c id).
Proof.
  intros Hp Ha Hr Hg He. pose proof Ha as []. destruct ac_ids0 as (o & s & Hs & Ho & Hel). pose proof (ac_reading0 id Hr) as Hid.
  unfold release_one. destruct (release_spec _ _ id Hs) as [Hb Hrel]; [unfold id_ok, u_range in *; lia|].
  destruct (PacketIds_release (l_ids c) id) as [released p]. cbn [fst snd] in *. subst released.
  unfold early in He. rewrite Hr in He. apply bool_decide_eq_false in He. case_bool_decide as Hin.
  - eapply accept_acct; eauto. rewrite <- elem_of_elements, Hel, elem_of_app in Hin. tauto.
  - rewrite difference_disjoint_L in Hrel by (clear -Hin; set_solver).
    apply reject_acct; simpl; rewrite ?Hr; try done. split; simpl; rewrite ?Hr in *; try done. by exists o, s.
Qed.

Lemma reader_step_acct c a c' : paced c -> acct c -> laction_ok a -> early c a = false -> lreader_step conn_id config c a = Some c' -> acct c'.
Proof.
  intros Hp Ha Hok He. assert (Hn : l_reader c = LStopped \/ reader_gone (l_pacer c) = false).
  { destruct (reader_gone (l_pacer c)) eqn:E; [left; by apply Ha|by right]. }
  unfold lreader_step. destruct (l_reader c) eqn:Hr; destruct a; try done; destruct Hn as [Hn|Hn]; try done.
  - intros [= <-]. unfold on_frame_read. rewrite Hq1. simpl.
    destruct item as [[q|[e|e]]|]; [destruct q; try (by apply reject_acct; rewrite ?Hr)|..];
      apply (reader_move c); simpl; auto; try done; try (split; simpl; rewrite ?Hr; done). by intros i [= <-].
  - intros Hx. destruct (l_pacer c) eqn:Hw; simplify_eq; (apply (reader_move c); simpl; auto; try done; split; simpl; rewrite ?Hr; done).
  - intros [= <-]. by apply release_acct.
  - intros [= <-]. pose proof Ha as []. rewrite Hr in *. split; simpl in *; try done; [|congruence]. rewrite ac_acked0, wrap_plus. f_equal. lia.
  - intros [= <-]. pose proof Ha as []. rewrite Hr in *. split; simpl in *; try done; [|congruence]. rewrite ac_in_flight0, wrap_plus. f_equal. lia.
  - intros [= <-]. unfold stream_ended. case_match; (apply (reader_move c); simpl; auto; try done; split; simpl; rewrite ?Hr; done).
  - intros [= <-]. destruct failed as [e|]; [|destruct more]; (apply (reader_move c); simpl; auto; try done; split; simpl; rewrite ?Hr; done).
Qed.

Lemma l_step_acct c a c' : paced c -> acct c -> laction_ok a -> early c a = false -> l_step conn_id config rate c a = Some c' -> acct c'.
Proof.
  intros Hp Ha Hok He. unfold l_step. destruct a; eauto using pace_step_acct, teardown_step_acct, abort_step_acct, reader_step_acct.
  destruct (pace_step conn_id config rate c LGo) eqn:E; [intros [= <-]|]; eauto using pace_step_acct, teardown_step_acct.
Qed.

Lemma l_run_acct acts : forall c c', paced c -> acct c -> Forall laction_ok acts -> timely c acts ->
  l_run conn_id config rate c acts = Some c' -> acct c'.
Proof.
  induction acts as [|a acts IH]; intros c c' Hp Ha Hok Ht; cbn [l_run timely] in *; [by intros [= <-]|].
  apply Forall_cons in Hok as [Hok Hoks]. destruct Ht as [He Ht]. destruct (l_step conn_id config rate c a) eqn:E; [|done].
  intros Hr. eapply IH; [| |done..].
  - by eapply l_step_paced.
  - by eapply l_step_acct.
Qed.

(** *** Brokers that keep to the protocol *)

(** A PUBACK is of a publish that was submitted and not acknowledged yet. *)
Definition due_puback (c : LConn) (id : Z) : Prop := (count_occ Z.eq_dec (l_back c) id < count_occ Z.eq_dec (ids_of (l_sent c)) id)%nat.

Fixpoint conformant (c : LConn) (acts : list LAction) : Prop :=
  match acts with
  | [] => True
  | a :: acts =>
      match a with LItem (Some (Ok (V3_PublishAck id))) => due_puback c id | _ => True end /\
      match l_step conn_id config rate c a with Some c => conformant c acts | None => True end
  end.

Definition reads_due (c : LConn) : Prop := match l_reader c with LRelease id => due_puback c id | _ => True end.

Lemma due_not_early c : acct c -> reads_due c -> early c LReader = false.
Proof.
  intros [(o & s & _ & Ho & He) _ _ _ _ _ _ _] Hr. unfold early, reads_due in *. destruct (l_reader c) as [|id| | | | | |]; try done.
  apply bool_decide_eq_false. intros Hin.
  unfold due_puback in Hr. rewrite (Permutation_count_occ Z.eq_dec) in Ho. specialize (Ho id). rewrite count_occ_app in Ho.
  assert (Hio : id ∈ o) by (apply list_elem_of_In, (count_occ_In Z.eq_dec); lia).
  assert (Hnd : NoDup (o ++ ids_of (pending c))) by (rewrite <- He; apply NoDup_elements).
  apply NoDup_app in Hnd as (_ & Hdis & _). by apply (Hdis id).
Qed.

(** A step of the pacer acknowledges nothing, and what was submitted stays. *)
Record keeps (c c' : LConn) : Prop := {
  kp_back : l_back c' = l_back c;
  kp_sent : exists more, l_sent c' = l_sent c ++ more;
  kp_reader : l_reader c' = l_reader c \/ l_reader c' = LStopped
}.

Lemma keeps_same c c' : l_back c' = l_back c -> l_sent c' = l_sent c -> l_reader c' = l_reader c \/ l_reader c' = LStopped -> keeps c c'.
Proof. intros Hb Hs Hr. split; auto. exists []. by rewrite app_nil_r. Qed.

Lemma pace_keeps c a c' : pace_step conn_id config rate c a = Some c' -> keeps c c'.
Proof.
  assert (Hcol : forall x, keeps c x -> keeps c (collected_batch conn_id config x)).
  { intros x []. unfold collected_batch. repeat case_match; by split. }
  unfold pace_step. destruct (l_pacer c), a; try done; unfold end_pacing.
  - intros [= <-]. repeat case_match; by apply keeps_same; auto.
  - intros [= <-]. case_match; by apply keeps_same; auto.
  - intros [= <-]. case_match; by apply keeps_same; auto.
  - intros [= <-]. unfold collect_one. repeat case_match; try apply Hcol; by apply keeps_same; auto.
  - intros [= <-]. unfold allocate_one. repeat case_match; by apply keeps_same; auto.
  - destruct (skip_missed _ _ _ _ _ _) as [k g]. intros [= <-]. apply Hcol. by apply keeps_same; auto.
  - intros [= <-]. case_match; by apply keeps_same; auto.
  - intros [= <-]. by apply keeps_same; auto.
  - intros [= <-]. split; simpl; eauto.
  - intros [= <-]. unfold written_batch, end_pacing. case_match; by apply keeps_same; auto.
  - intros [= <-]. by apply keeps_same; auto.
  - intros [= <-]. by apply keeps_same; auto.
Qed.

Lemma teardown_keeps c a c' : teardown_step c a = Some c' -> keeps c c'.
Proof.
  assert (Hw : forall pc, await_reader c pc = Some c' -> keeps c c').
  { intros pc. unfold await_reader. destruct (l_reader c) eqn:E; intros [= <-]; apply keeps_same; simpl; auto. }
  unfold teardown_step. destruct (l_pacer c), a; try done; intros H; eauto; repeat case_match; simplify_eq; eauto; by apply keeps_same; auto.
Qed.

Lemma keeps_due c c' : keeps c c' -> reads_due c -> reads_due c'.
Proof.
  intros [Hb [more Hs] Hr] Hd. unfold reads_due in *. destruct Hr as [->| ->]; [|done]. destruct (l_reader c); try done.
  unfold due_puback in *. rewrite Hb, Hs, ids_app, count_occ_app. lia.
Qed.

Lemma conformant_timely acts : forall c, paced c -> acct c -> reads_due c -> Forall laction_ok acts -> conformant c acts -> timely c acts.
Proof.
  induction acts as [|a acts IH]; intros c Hp Ha Hd Hok; cbn [conformant timely]; [done|]. apply Forall_cons in Hok as [Ho Hok]. intros [Hitem Hc].
  assert (He : early c a = false).
  { pose proof (due_not_early c Ha Hd) as He. unfold early in *. destruct (l_reader c), a; done. }
  split; [done|]. destruct (l_step conn_id config rate c a) as [c1|] eqn:E; [|done]. apply IH; auto; [by eapply l_step_paced|by eapply l_step_acct|].
  unfold l_step in E. destruct a; try (by eapply keeps_due; [|done]; eauto using pace_keeps, teardown_keeps).
  - destruct (pace_step conn_id config rate c LGo) eqn:E1; [injection E as <-|]; by eapply keeps_due; [|done]; eauto using pace_keeps, teardown_keeps.
  - unfold abort_step in E. destruct (l_pacer c); simplify_eq; by eapply keeps_due; [apply keeps_same; auto|].
  - unfold lreader_step in E. destruct (l_reader c); simplify_eq. unfold on_frame_read, reads_due, lreject. repeat case_match; cbn [set_lreader set_saying count_protocol_error set_reading l_reader] in *; simplify_eq; done.
  - unfold lreader_step in E. destruct (l_reader c); simplify_eq; unfold reads_due; try done.
    + unfold release_one, lreject. by repeat case_match.
    + unfold stream_ended. by destruct (0 <? _).
  - unfold lreader_step in E. destruct (l_reader c); simplify_eq; unfold reads_due. by repeat case_match.
  - unfold lreader_step in E. destruct (l_reader c), (l_pacer c); simplify_eq; done.
Qed.
End Acknowledged.

(** ** A QoS 0 connection *)

Section Unacknowledged.
Context (conn_id : Z) (config : GenConfig) (rate : Z).
Hypothesis C : config_ok config rate.
Hypothesis Hconn : 0 <= conn_id < gen_connections config.
Hypothesis Hfit : slot_grid_end_ns (window config) + CONNECTIONS_MAX * NS < 2 ^ 64.
Hypothesis Hq0 : gen_qos config = 0.

(** The batch whose write failed. *)
Definition unresolved (c : LConn) : Batch := if bool_decide (failure_of (l_pacer c) = None) then [] else l_batch c.

Record acct0 (c : LConn) : Prop := {
  a0_acked : l_acked c = 0;
  a0_reader : match l_reader c with LRelease _ | LAck | LSub | LEof => False | _ => True end;
  a0_stalled : stage (l_pacer c) <> Gone -> stalled (l_counters c) = Z.of_nat (length (unresolved c));
  a0_few : 0 <= stalled (l_counters c) <= 65535;
  a0_point : match l_pacer c with
             | PDrain _ | PStop _ | PCount _ => False
             | PDisconnect _ b | PShutdown _ b _ => b = false
             | PReturned _ _ => l_reader c = LStopped
             | PWrite _ => (length (l_batch c) <= length (l_sent c))%nat
             | _ => True
             end
}.

Lemma acct0_start : acct0 l_start.
Proof. by split. Qed.

(** The pacer moves on before the teardown. *)
Lemma acct0_pace c c' : acct0 c -> stage (l_pacer c) = Pacing -> stage (l_pacer c') = Pacing \/ failure_of (l_pacer c') = None ->
  l_acked c' = l_acked c -> l_reader c' = l_reader c -> stalled (l_counters c') = stalled (l_counters c) ->
  match l_pacer c' with
  | PDrain _ | PStop _ | PCount _ | PShutdown _ _ _ | PReturned _ _ => False
  | PDisconnect _ b => b = false
  | PWrite _ => (length (l_batch c') <= length (l_sent c'))%nat
  | _ => True
  end -> acct0 c'.
Proof.
  intros [] Hs Hs' Hk Hr Hst Hpc. split; rewrite ?Hk, ?Hr, ?Hst; auto; [|by destruct (l_pacer c')].
  intros _. rewrite a0_stalled0 by congruence. unfold unresolved.
  assert (failure_of (l_pacer c) = None) as -> by (by destruct (l_pacer c)).
  assert (failure_of (l_pacer c') = None) as -> by (destruct Hs' as [Hs'|]; [by destruct (l_pacer c')|done]). done.
Qed.

Lemma collected_acct0 c : acct0 c -> l_pacer c = PCollect \/ l_pacer c = PSkip -> acct0 (collected_batch conn_id config c).
Proof.
  intros Ha Hc. assert (Hs : stage (l_pacer c) = Pacing) by (by destruct Hc as [->| ->]). unfold collected_batch.
  repeat case_match; apply (acct0_pace c); simpl; auto.
Qed.

Lemma write_acct0 c buf answer : paced conn_id config rate c -> acct0 c -> l_pacer c = PWrite buf -> acct0 (written_batch conn_id config rate c answer).
Proof.
  intros Hp Ha Hc. assert (Hs : stage (l_pacer c) = Pacing) by (by rewrite Hc). unfold written_batch, end_pacing. rewrite Hq0.
  change (0 =? 1) with false. cbv iota. destruct (publish_write_failure answer) as [cause|]; [|by apply (acct0_pace c); auto].
  pose proof Ha as [Hk Hr Hst _ Hpt]. pose proof (own_range conn_id config rate C Hconn). pose proof (pd_slots _ _ _ c Hp) as Hsl.
  pose proof (pd_missed _ _ _ c Hp). rewrite Hs in Hsl. unfold unresolved in Hst. rewrite Hc in *.
  specialize (Hst ltac:(done)). cbn [length failure_of bool_decide] in Hst. change (stalled (l_counters c) = 0) in Hst.
  pose proof (pd_room _ _ _ c Hp) as Hroom. change BATCH with 64%nat in Hroom.
  assert (Hn : wrap64 (stalled (l_counters c) + Z.of_nat (length (l_batch c))) = Z.of_nat (length (l_batch c))) by (rewrite Hst, wrap_small; lia).
  split; [exact Hk|exact Hr| | |done].
  - intros _. exact Hn.
  - change (0 <= wrap64 (stalled (l_counters c) + Z.of_nat (length (l_batch c))) <= 65535). lia.
Qed.

Lemma pace_step_acct0 c a c' : paced conn_id config rate c -> acct0 c -> pace_step conn_id config rate c a = Some c' -> acct0 c'.
Proof.
  intros Hp Ha. unfold pace_step, end_pacing. rewrite Hq0. change (0 =? 1) with false. cbv iota. destruct (l_pacer c) eqn:Hc; try done; destruct a; try done.
  all: assert (Hs : stage (l_pacer c) = Pacing) by (by rewrite Hc).
  - intros [= <-]. repeat case_match; apply (acct0_pace c); simpl; auto.
  - intros [= <-]. case_match; [apply (acct0_pace c); simpl; auto|done].
  - intros [= <-]. repeat case_match; apply (acct0_pace c); simpl; auto.
  - intros [= <-]. unfold collect_one. rewrite Hq0. repeat case_match; try (apply collected_acct0; auto); apply (acct0_pace c); simpl; rewrite ?Hc; auto.
  - intros [= <-]. unfold allocate_one. repeat case_match; apply (acct0_pace c); simpl; auto.
  - destruct (skip_keeps conn_id config rate (l_counters c) (l_next_k c) now) as [_ Hst].
    destruct (skip_missed _ _ _ _ _ _) as [k g]. intros [= <-].
    apply collected_acct0; [|simpl; auto]. apply (acct0_pace c); simpl; rewrite ?Hc; auto.
  - intros [= <-]. case_match; apply (acct0_pace c); simpl; auto.
  - intros [= <-]. apply (acct0_pace c); simpl; auto.
  - intros [= <-]. apply (acct0_pace c); simpl; auto. rewrite length_app. lia.
  - intros [= <-]. by eapply write_acct0.
  - intros [= <-]. apply (acct0_pace c); simpl; auto. by destruct (note_keeps config now (l_batch c) (l_counters c)).
  - intros [= <-]. apply (acct0_pace c); simpl; auto.
Qed.

Lemma acct0_move c c' : acct0 c -> l_acked c' = l_acked c -> stalled (l_counters c') = stalled (l_counters c) -> l_batch c' = l_batch c ->
  (stage (l_pacer c') <> Gone -> stage (l_pacer c) <> Gone /\ failure_of (l_pacer c') = failure_of (l_pacer c)) ->
  match l_reader c' with LRelease _ | LAck | LSub | LEof => False | _ => True end ->
  match l_pacer c' with
  | PDrain _ | PStop _ | PCount _ => False
  | PDisconnect _ b | PShutdown _ b _ => b = false
  | PReturned _ _ => l_reader c' = LStopped
  | PWrite _ => (length (l_batch c') <= length (l_sent c'))%nat
  | _ => True
  end -> acct0 c'.
Proof.
  intros [] Hk Hst Hb Hg Hr Hpc. split; rewrite ?Hk, ?Hst; auto.
  intros Hn. destruct (Hg Hn) as [Hn' Hf]. rewrite a0_stalled0 by done. unfold unresolved. by rewrite Hf, Hb.
Qed.

Lemma teardown_step_acct0 c a c' : acct0 c -> teardown_step c a = Some c' -> acct0 c'.
Proof.
  intros Ha Ht. pose proof Ha as [_ Hr _ _ Hpt]. unfold teardown_step in Ht. destruct (l_pacer c) eqn:Hc; try done; destruct a; try done.
  - simplify_eq. apply (acct0_move c); simpl; rewrite ?Hc; auto.
  - simplify_eq. apply (acct0_move c); simpl; rewrite ?Hc; auto.
  - assert (Hw : await_reader c (PReturned failure (gen_session_result failure (teardown_failure disconnect shutdown))) = Some c')
      by (destruct (l_reader c); try done; by case_match).
    unfold await_reader in Hw. destruct (l_reader c) eqn:Hrd; simplify_eq; apply (acct0_move c); simpl; rewrite ?Hc, ?Hrd; auto; done.
Qed.

Lemma abort_step_acct0 c c' : acct0 c -> abort_step c = Some c' -> acct0 c'.
Proof.
  intros Ha. pose proof Ha as [_ Hr _ _ _]. unfold abort_step. destruct (l_pacer c) eqn:Hc; try done; intros [= <-]; apply (acct0_move c); simpl; auto; done.
Qed.

Lemma reader_step_acct0 c a c' : acct0 c -> lreader_step conn_id config c a = Some c' -> acct0 c'.
Proof.
  intros Ha. pose proof Ha as [_ Hr _ _ Hpt].
  assert (Hkeep : forall r, l_reader c = LStopped -> False -> acct0 r) by done.
  assert (Hmove : forall c1, l_acked c1 = l_acked c -> l_counters c1 = l_counters c -> l_batch c1 = l_batch c -> l_sent c1 = l_sent c -> l_pacer c1 = l_pacer c ->
    match l_reader c1 with LRelease _ | LAck | LSub | LEof => False | _ => True end -> l_reader c <> LStopped -> acct0 c1).
  { intros c1 Hk Hcs Hb Hse Hpc Hr1 Hn. apply (acct0_move c); rewrite ?Hpc, ?Hcs; auto. rewrite Hb, Hse. by destruct (l_pacer c). }
  unfold lreader_step. destruct (l_reader c) eqn:Hrd; try done; destruct a; try done.
  - intros [= <-]. unfold on_frame_read, lreject. rewrite Hq0. simpl. repeat case_match; apply Hmove; simpl; auto; done.
  - intros Hx. repeat case_match; simplify_eq; apply Hmove; simpl; auto; done.
  - intros [= <-]. repeat case_match; apply Hmove; simpl; auto; done.
Qed.

Lemma l_run_acct0 acts : forall c c', paced conn_id config rate c -> acct0 c -> l_run conn_id config rate c acts = Some c' -> acct0 c'.
Proof.
  induction acts as [|a acts IH]; intros c c' Hp Ha; cbn [l_run]; [by intros [= <-]|].
  destruct (l_step conn_id config rate c a) as [c1|] eqn:E; [|done]. intros Hr. eapply IH; [| |done].
  { eapply l_step_paced; try done. by rewrite Hq0. }
  unfold l_step in E. destruct a; eauto using pace_step_acct0, teardown_step_acct0, abort_step_acct0, reader_step_acct0.
  destruct (pace_step conn_id config rate c LGo) eqn:E1; [injection E as <-|]; eauto using pace_step_acct0, teardown_step_acct0.
Qed.
End Unacknowledged.

(** ** What a latency connection promises *)

(** The books of a connection that returned, with its pacer's failure [f]. *)
Record latency_closed (config : GenConfig) (own : Z) (c : LConn) (f : option str) : Prop := {
  lc_stopped : l_reader c = LStopped;
  lc_slots : offered (l_counters c) + missed_slots (l_counters c) = own;
  lc_late : Z.of_nat (length (lateness (l_counters c))) + lateness_over_range (l_counters c)
            + (if bool_decide (f = None) then 0 else due_in_window config (l_batch c)) = due_in_window config (l_sent c);
  lc_qos0 : gen_qos config = 0 -> l_acked c = 0 /\
            stalled (l_counters c) = if bool_decide (f = None) then 0 else Z.of_nat (length (l_batch c))
}.

(** Its acknowledgements at QoS 1: each is of one publish sent, and the rest is
    stalled. *)
Record acks_closed (c : LConn) : Prop := {
  ak_sum : offered (l_counters c) = l_acked c + stalled (l_counters c);
  ak_sent : exists o, ids_of (l_sent c) ≡ₚ l_back c ++ o /\ l_acked c = Z.of_nat (length (l_back c)) /\
            stalled (l_counters c) = Z.of_nat (length o)
}.

(** The reader is over once the pacer has waited for it, whatever was read. *)
Definition reader_awaited (c : LConn) : Prop := reader_gone (l_pacer c) = true -> l_reader c = LStopped.

Lemma l_step_awaited conn_id config rate c a c' : reader_awaited c -> l_step conn_id config rate c a = Some c' -> reader_awaited c'.
Proof.
  unfold reader_awaited. intros Hc.
  assert (Hpace : forall c1, pace_step conn_id config rate c a = Some c1 -> reader_gone (l_pacer c1) = false).
  { intros c1. unfold pace_step, end_pacing, collect_one, collected_batch, allocate_one, written_batch, end_pacing, slot_panic.
    destruct (l_pacer c) eqn:Ep; try done; destruct a; try done;
      try (destruct (skip_missed _ _ _ _ _ _)); intros [= <-]; repeat case_match; simpl; rewrite ?Ep; try done. }
  assert (Htear : forall c1, teardown_step c a = Some c1 -> reader_gone (l_pacer c1) = true -> l_reader c1 = LStopped).
  { intros c1. unfold teardown_step, await_reader. destruct (l_pacer c) eqn:Ep; try done; destruct a; try done; repeat case_match;
      intros [= <-]; simpl in *; rewrite ?Ep; auto; try done. }
  assert (Habort : forall c1, abort_step c = Some c1 -> reader_gone (l_pacer c1) = false).
  { intros c1. unfold abort_step. destruct (l_pacer c); try done; by intros [= <-]. }
  assert (Hread : forall c1, lreader_step conn_id config c a = Some c1 -> l_pacer c1 = l_pacer c /\ l_reader c <> LStopped).
  { intros c1. unfold lreader_step, on_frame_read, release_one, stream_ended, lreject, count_protocol_error.
    destruct (l_reader c) eqn:Er; try done; destruct a; try done; repeat case_match; intros [= <-]; done. }
  unfold l_step. intros Hs. destruct a;
    try (destruct (pace_step _ _ _ _ _) eqn:E; [injection Hs as <-; rewrite (Hpace _ eq_refl); done|]);
    first [by apply Htear|rewrite (Hpace _ Hs); done|rewrite (Habort _ Hs); done
          |destruct (Hread _ Hs) as [-> Hn]; intros Hg; by destruct (Hn (Hc Hg))].
Qed.

Lemma l_run_awaited conn_id config rate acts : forall c c', reader_awaited c -> l_run conn_id config rate c acts = Some c' -> reader_awaited c'.
Proof.
  induction acts as [|a acts IH]; intros c c' Hc; cbn [l_run]; [by intros [= <-]|].
  destruct (l_step conn_id config rate c a) eqn:E; [|done]. eapply IH. by eapply l_step_awaited.
Qed.

Lemma latency_books conn_id config rate acts c :
  config_ok config rate -> 0 <= conn_id < gen_connections config -> 0 <= gen_qos config ->
  slot_grid_end_ns (window config) + CONNECTIONS_MAX * NS < 2 ^ 64 -> l_run conn_id config rate l_start acts = Some c ->
  paced conn_id config rate c.
Proof. intros C Hc Hq Hf Hr. eapply l_run_paced; try done. by apply paced_start. Qed.

Lemma latency_few conn_id config rate acts c :
  config_ok config rate -> 0 <= conn_id < gen_connections config -> 0 <= gen_qos config ->
  slot_grid_end_ns (window config) + CONNECTIONS_MAX * NS < 2 ^ 64 -> Forall laction_ok acts ->
  (gen_qos config = 1 -> timely conn_id config rate l_start acts) -> l_run conn_id config rate l_start acts = Some c ->
  0 <= stalled (l_counters c) <= 65535.
Proof.
  intros C Hconn Hq Hfit Hok Ht Hr. destruct (qos_cases config rate C Hq) as [Hq0|Hq1].
  - apply a0_few, (l_run_acct0 conn_id config rate C Hconn Hfit Hq0 acts l_start); auto using acct0_start. by apply paced_start.
  - apply ac_few, (l_run_acct conn_id config rate C Hconn Hfit Hq1 acts l_start); auto using acct_start. by apply paced_start.
Qed.

Lemma latency_returned conn_id config rate acts c f r :
  config_ok config rate -> 0 <= conn_id < gen_connections config -> 0 <= gen_qos config ->
  slot_grid_end_ns (window config) + CONNECTIONS_MAX * NS < 2 ^ 64 -> l_run conn_id config rate l_start acts = Some c ->
  l_pacer c = PReturned f r ->
  latency_closed config (own_slot_count conn_id (gen_connections config) (window_due_j_count config rate)) c f.
Proof.
  intros C Hconn Hq Hfit Hr Hret. pose proof (latency_books _ _ _ _ _ C Hconn Hq Hfit Hr) as Hp. pose proof Hp as [].
  pose proof (own_range conn_id config rate C Hconn) as Hown. unfold offering, incomplete in *. rewrite Hret in *. simpl in *. rewrite Z.add_0_r in pd_offered0.
  assert (H0 : gen_qos config = 0 -> acct0 c).
  { intros Hq0. apply (l_run_acct0 conn_id config rate C Hconn Hfit Hq0 acts l_start); auto using acct0_start. by apply paced_start. }
  split.
  - apply (l_run_awaited conn_id config rate acts l_start); [done|done|by rewrite Hret].
  - lia.
  - destruct pd_late0 as [_ Hl]. case_bool_decide; [change (due_in_window config []) with 0 in Hl|]; lia.
  - intros Hq0. destruct (H0 Hq0) as [Hk _ Hst _ _]. split; [done|]. rewrite Hret in Hst. rewrite Hst by done. unfold unresolved. rewrite Hret. simpl.
    by case_bool_decide.
Qed.

Lemma latency_acknowledged conn_id config rate acts c f r :
  config_ok config rate -> 0 <= conn_id < gen_connections config -> gen_qos config = 1 ->
  slot_grid_end_ns (window config) + CONNECTIONS_MAX * NS < 2 ^ 64 -> Forall laction_ok acts ->
  timely conn_id config rate l_start acts -> l_run conn_id config rate l_start acts = Some c ->
  l_pacer c = PReturned f r -> acks_closed c.
Proof.
  intros C Hconn Hq1 Hfit Hok Ht Hr Hret. pose proof (latency_books _ _ _ _ _ C Hconn ltac:(lia) Hfit Hr) as Hp. pose proof Hp as [].
  pose proof (own_range conn_id config rate C Hconn) as Hown. unfold offering, incomplete in *. rewrite Hret in *. simpl in *. rewrite Z.add_0_r in pd_offered0.
  assert (Ha : acct c) by (apply (l_run_acct conn_id config rate C Hconn Hfit Hq1 acts l_start); auto using acct_start; by apply paced_start).
  pose proof (outstanding conn_id config rate Hq1 c Hp Ha) as Ho. destruct Ha as [(o & s & _ & Hperm & _) _ Hk Hst _ Hg _ _].
  rewrite Hret in *. specialize (Hst true eq_refl). rewrite (Hg eq_refl) in Hk. simpl in Hst, Hk. rewrite wrap_small in Hk by lia.
  split; [lia|]. exists o. split; [done|]. apply Permutation_length in Hperm. rewrite (ids_count config Hq1), length_app in Hperm by done. lia.
Qed.

(** (C35) The books of a latency connection, however its pacer and its reader
    interleave.  Every slot of its share is offered or missed, and never both;
    no write starts at or after the end of the window; the bytes written are the
    frames of the slots submitted, in order and numbered without a gap, each
    with its own due time; the pacer dies of nothing but a panic of its reader.
    When it returns, the reader has stopped, every slot of the share is accounted
    for, and every submitted slot due in the window has its lateness recorded or
    counted, save those of a batch whose write failed.  At QoS 0 exactly that
    batch is stalled.  All this holds whatever the broker sends.  At QoS 1, if
    moreover no PUBACK is taken for a publish whose write has not begun, as with
    a broker that acknowledges what it was sent, each acknowledgement is of one
    publish sent, and offered is acked plus stalled ([early_counts] shows what
    an earlier PUBACK does). *)
Theorem latency_connection_accounts conn_id config rate acts c :
  config_ok config rate -> 0 <= conn_id < gen_connections config -> 0 <= gen_qos config ->
  slot_grid_end_ns (window config) + CONNECTIONS_MAX * NS < 2 ^ 64 -> Forall laction_ok acts ->
  l_run conn_id config rate l_start acts = Some c ->
  let own := own_slot_count conn_id (gen_connections config) (window_due_j_count config rate) in
  Z.of_nat (length (l_sent c)) + missed_slots (l_counters c) <= own /\
  last_write_start_ns (l_counters c) < end_ns (window config) /\
  mjoin (l_wire c) = slot_frames conn_id config 0 (l_sent c) /\
  (forall e, l_pacer c = PDied e -> l_reader c = LPanicked e) /\
  (forall f r, l_pacer c = PReturned f r ->
     latency_closed config own c f /\
     (gen_qos config = 1 -> timely conn_id config rate l_start acts \/ conformant conn_id config rate l_start acts -> acks_closed c)).
Proof.
  intros C Hconn Hq Hfit Hok Hr own. pose proof (latency_books _ _ _ _ _ C Hconn Hq Hfit Hr) as []. split_and!; auto.
  - destruct (stage (l_pacer c)); subst own; lia.
  - intros f r Hret. split; [by eapply latency_returned|]. intros Hq1 Ht. eapply latency_acknowledged; try done.
    destruct Ht as [|Hcon]; [done|]. eapply conformant_timely; try done; [by apply paced_start|apply acct_start].
Qed.

(** Three slots: the first is acknowledged before its write returns, the write of
    the second runs into the deadline, the third is missed. *)
Module SampleLatency.
Definition config : GenConfig :=
  {| mode := Latency 1500; gen_qos := 1; gen_connections := 1; qos1_window := 100; origin_ns := 1000;
     window := {| start_ns := 1000; end_ns := 12001000 |}; drain_grace_ns := 50 |}.

Definition slot (now : Z) : list LAction := [LGo; LNow now; LNow now; LNow now; LGo; LNow now].
Definition acknowledged (id : Z) : list LAction := [LItem (Some (Ok (V3_PublishAck id))); LReader; LReader].
Definition acts : list LAction :=
  slot 1500 ++ [LNow 1600; LGo; LGo] ++ acknowledged 1 ++ [LWrite (TOk tt); LReader; LNow 2000]
  ++ slot 700000 ++ [LNow 700000; LGo; LGo; LWrite TTimedOut]
  ++ [LDrain false; LDrain true; LGo; LGo; LDisconnect (TOk tt); LShutdown None].
Definition last : LConn := default l_start (l_run 0 config 1500 l_start acts).

Lemma config_valid : config_ok config 1500.
Proof. split; try done; vm_compute; split; congruence. Qed.

Lemma latency_acts_ok : Forall laction_ok acts.
Proof. repeat constructor; by vm_compute. Qed.

Lemma acts_timely : timely 0 config 1500 l_start acts.
Proof. vm_compute. repeat (split; [reflexivity|]). exact I. Qed.

Example latency_last_counts : l_run 0 config 1500 l_start acts = Some last /\
  (offered (l_counters last), missed_slots (l_counters last), l_acked last, stalled (l_counters last)) = (2, 1, 1, 1).
Proof. split; vm_compute; reflexivity. Qed.

(** The PUBACK of a slot that has its packet id but is not sent: it is accepted,
    and when the window ends before the write the drain runs to the deadline and
    the stalled counter wraps. *)
Definition early_acts : list LAction :=
  slot 1500 ++ acknowledged 1 ++ [LReader; LNow 12001000; LGo]
  ++ [LDrain false; LDrain true; LGo; LGo; LDisconnect (TOk tt); LShutdown None].
Example early_counts :
  match l_run 0 config 1500 l_start early_acts with
  | Some c => (offered (l_counters c), l_acked c, stalled (l_counters c), l_protocol_errors c) = (0, 1, 2 ^ 64 - 1, 0)
  | None => False
  end.
Proof. vm_compute. reflexivity. Qed.
End SampleLatency.

Lemma latency_connection_accounts_witness : latency_closed SampleLatency.config 3 SampleLatency.last
  (Some (lit "publish write did not finish by the hard deadline")) /\ acks_closed SampleLatency.last.
Proof.
  assert (Hc : 0 <= 0 < gen_connections SampleLatency.config) by (simpl; lia).
  assert (Hq : 0 <= gen_qos SampleLatency.config) by (simpl; lia).
  assert (Hf : slot_grid_end_ns (window SampleLatency.config) + CONNECTIONS_MAX * NS < 2 ^ 64) by (vm_compute; reflexivity).
  destruct SampleLatency.latency_last_counts as [Hr _].
  pose proof (latency_connection_accounts 0 _ _ _ _ SampleLatency.config_valid Hc Hq Hf SampleLatency.latency_acts_ok Hr) as (_ & _ & _ & _ & H).
  assert (He : exists r, l_pacer SampleLatency.last = PReturned (Some (lit "publish write did not finish by the hard deadline")) r)
    by (eexists; vm_compute; reflexivity).
  destruct He as [r Hret]. destruct (H _ r Hret) as [H1 H2]. split; [exact H1|]. apply H2; [reflexivity|left; exact SampleLatency.acts_timely].
Defined.
