(* ===== verification/GenRun.v ===== *)
(** * A run of the load generator

    bench/src/gen.rs: the shared counters, joining the connection tasks under
    the hard deadline, the report and the run around them.  What the tasks did
    is a list of join results; the counters are the sums of what the
    connections added, since every cell is a wrapping atomic. *)

From S2P Require Import Prelude Text Rmqtt Wire Recorder Generator Pacer Runner Endpoint GenConn GenSpec.

Definition READER_STOP_GRACE_NS : Z := 1000000000.

(** ** Counters *)

Definition tally_sum (a b : Tally) : Tally :=
  {| t_offered := wrap64 (t_offered a + t_offered b); t_acked := wrap64 (t_acked a + t_acked b);
     t_connect_errors := wrap64 (t_connect_errors a + t_connect_errors b);
     t_protocol_errors := wrap64 (t_protocol_errors a + t_protocol_errors b);
     t_stalled := wrap64 (t_stalled a + t_stalled b); t_cycles := wrap64 (t_cycles a + t_cycles b) |}.

(** What all connections added. *)
Definition total (l : list Tally) : Tally := foldr tally_sum no_tally l.

Section Run.
Context `{HdrHistogram}.

(** The cells, with those only the latency mode uses and its histogram per
    connection. *)
Record Counters := {
  k_tally : Tally; k_lateness_over_range : Z; k_missed_slots : Z; k_last_write_start_ns : Z; k_lateness : list Histogram
}.

Definition Counters_new (connections : Z) (mode : Mode) : Counters :=
  let conn_count := match mode with Latency _ => Z.to_nat connections | Throughput | Connections => 0%nat end in
  {| k_tally := no_tally; k_lateness_over_range := 0; k_missed_slots := 0; k_last_write_start_ns := 0;
     k_lateness := replicate conn_count new_latency_histogram |}.

Definition record_lateness (c : Counters) (conn_id value_ns : Z) : option Counters :=
  match k_lateness c !! Z.to_nat conn_id with
  | None => None
  | Some h =>
      Some {| k_tally := k_tally c; k_lateness_over_range := k_lateness_over_range c; k_missed_slots := k_missed_slots c;
              k_last_write_start_ns := k_last_write_start_ns c;
              k_lateness := <[Z.to_nat conn_id := hist_record h value_ns]> (k_lateness c) |}
  end.

Definition finalize_lateness (c : Counters) : list (Z * Z) :=
  match foldl merge_histogram None (k_lateness c) with Some h => histogram_buckets h | None => [] end.

(** What the connections of a throughput or connections run leave. *)
Definition counters_after (config : GenConfig) (tallies : list Tally) : Counters :=
  let c := Counters_new (gen_connections config) (mode config) in
  {| k_tally := tally_sum (k_tally c) (total tallies); k_lateness_over_range := k_lateness_over_range c;
     k_missed_slots := k_missed_slots c; k_last_write_start_ns := k_last_write_start_ns c; k_lateness := k_lateness c |}.

Definition note_stalled (c : Counters) (n : Z) : Counters :=
  {| k_tally := tally_stalled (k_tally c) n; k_lateness_over_range := k_lateness_over_range c;
     k_missed_slots := k_missed_slots c; k_last_write_start_ns := k_last_write_start_ns c; k_lateness := k_lateness c |}.

(** ** The report *)

(** [None] is the panic of [slot_counts]. *)
Definition build_report (config : GenConfig) (c : Counters) : option GenReport :=
  let finish scheduled window_scheduled :=
    {| gr_scheduled := scheduled; gr_window_scheduled := window_scheduled; gr_offered := t_offered (k_tally c);
       gr_acked := match mode config with
                   | Throughput | Latency _ => if gen_qos config =? 1 then Some (t_acked (k_tally c)) else None
                   | Connections => None
                   end;
       gr_missed_slots := k_missed_slots c; gr_connect_errors := t_connect_errors (k_tally c);
       gr_protocol_errors := t_protocol_errors (k_tally c); gr_stalled := t_stalled (k_tally c);
       gr_lateness_over_range := k_lateness_over_range c;
       gr_last_write_start_ns := if k_last_write_start_ns c =? 0 then None else Some (k_last_write_start_ns c);
       gr_cycles_in_window := match mode config with Connections => Some (t_cycles (k_tally c)) | _ => None end;
       gr_lateness := finalize_lateness c |} in
  match mode config with
  | Latency rate =>
      match slot_counts rate (origin_ns config) (window config) with
      | Some (s, w) => Some (finish (Some s) (Some w))
      | None => None
      end
  | _ => Some (finish None None)
  end.

(** ** Joining *)

Inductive JoinResult := JrOk | JrPanic (e : str) | JrCancelled.

Definition panicked (r : JoinResult) : option str :=
  match r with JrPanic e => Some (lit "connection task panicked: " ++ e) | _ => None end.

(** The drain stops at the first panic. *)
Definition drain_failure (joined : list JoinResult) : option str := head (omap panicked joined).

Definition is_cancelled (r : JoinResult) : bool := match r with JrCancelled => true | _ => false end.

Definition readers_message : str :=
  lit "session readers did not stop in the " ++ dec (READER_STOP_GRACE_NS / NS)
  ++ lit " s after their connections were aborted".

(** [drained] are the tasks joined before the deadline or the first panic,
    [aborted] those joined after the abort.  [None] is a panic of the report. *)
Definition join_and_report (config : GenConfig) (c : Counters) (drained aborted : list JoinResult) (readers_stopped : bool) :
    option (result GenReport str) :=
  let failure := match drain_failure drained with Some e => Some e | None => drain_failure aborted end in
  let still_running := Z.of_nat (length (filter is_cancelled aborted)) in
  match failure with
  | Some cause => Some (Err cause)
  | None =>
      if negb readers_stopped then Some (Err readers_message)
      else match build_report config (note_stalled c still_running) with
           | Some r => Some (Ok r)
           | None => None
           end
  end.

(** ** The run *)

Inductive GenError := GeConfig (e : ConfigError) | GeText (e : str).

(** When the tasks must have ended, and the budget of the runtime's shutdown at
    clock reading [now]. *)
Definition hard_deadline_ns (config : GenConfig) : Z := sat_add 64 (end_ns (window config)) (drain_grace_ns config).

Definition shutdown_budget (config : GenConfig) (now : Z) : Z :=
  sat_sub READER_STOP_GRACE_NS (sat_sub (sat_sub now (hard_deadline_ns config)) (IO_TIMEOUT_SECS * NS)).

Definition watchdog_message : str :=
  lit "the generator made no progress in the " ++ dec (READER_STOP_GRACE_NS / NS)
  ++ lit " s after its hard deadline: a task blocked inside a synchronous call holds its runtime worker, and a runtime whose workers are all held fires no timer".

(** What the connections did: the counters they left, the join results before
    and after the abort, and whether the readers stopped. *)
Record RunAnswers := {
  ra_counters : Counters; ra_drained : list JoinResult; ra_aborted : list JoinResult; ra_stopped : bool
}.

(** [progress] is [None] when the watchdog answers. *)
Definition run_generator (config : GenConfig) (now_ns : Z) (runtime : option str) (progress : option RunAnswers) :
    option (result GenReport GenError) :=
  match validate config with
  | Err e => Some (Err (GeConfig e))
  | Ok _ =>
      if origin_ns config <? now_ns then Some (Err (GeText (lit "generator started after its origin")))
      else match runtime with
      | Some e => Some (Err (GeText (lit "build tokio runtime: " ++ e)))
      | None =>
          match progress with
          | None => Some (Err (GeText watchdog_message))
          | Some a =>
              match join_and_report config (ra_counters a) (ra_drained a) (ra_aborted a) (ra_stopped a) with
              | Some (Ok r) => Some (Ok r)
              | Some (Err e) => Some (Err (GeText e))
              | None => None
              end
          end
      end
  end.
End Run.

(** ** What a QoS 1 throughput report says *)

(** How a connection of a QoS 1 throughput run ends: what it added and how its
    task joined.  A task can be cancelled before its session is open, and the
    [eprintln!] of a failed open or of an error can panic. *)
Inductive conn_ends (conn_id : Z) (config : GenConfig) : Tally -> JoinResult -> Prop :=
| ce_open_failed e : conn_ends conn_id config (open_failed no_tally e) JrOk
| ce_cancelled_early : conn_ends conn_id config no_tally JrCancelled
| ce_returned acts c r : Forall action_ok acts -> q1_run conn_id config (q1_start config) acts = Some c ->
    q_writer c = WReturned r -> conn_ends conn_id config (q_tally c) JrOk
| ce_panicked acts c e : Forall action_ok acts -> q1_run conn_id config (q1_start config) acts = Some c ->
    q_writer c = WPanicked e -> conn_ends conn_id config (q_tally c) (JrPanic e)
| ce_cancelled acts c : Forall action_ok acts -> q1_run conn_id config (q1_start config) acts = Some c ->
    q_writer c = WCancelled -> conn_ends conn_id config (q_tally c) JrCancelled
| ce_open_unsaid e x : conn_ends conn_id config (open_failed no_tally e) (JrPanic x)
| ce_unsaid acts c cause x : Forall action_ok acts -> q1_run conn_id config (q1_start config) acts = Some c ->
    q_writer c = WReturned (Err cause) -> conn_ends conn_id config (q_tally c) (JrPanic x).

(** Offered is acked and stalled together, as the cells count. *)
Definition balanced (t : Tally) : Prop := t_offered t = wrap64 (t_acked t + t_stalled t).
Definition few_stalled (t : Tally) : Prop := 0 <= t_stalled t <= 65535.

Lemma wrap_sum x y : wrap64 (wrap64 x + wrap64 y) = wrap64 (x + y).
Proof. symmetry. apply Zplus_mod. Qed.

Lemma conn_ends_ok conn_id config t j : 1 <= qos1_window config <= 65535 -> conn_ends conn_id config t j ->
  few_stalled t /\ (j = JrOk -> balanced t).
Proof.
  intros Hwin He. unfold few_stalled, balanced.
  assert (Hinv : forall acts c, Forall action_ok acts -> q1_run conn_id config (q1_start config) acts = Some c ->
    q1_inv conn_id config c /\ 0 <= Z.of_nat (length (q_sent c)) - Z.of_nat (length (q_back c)) <= 65535).
  { intros acts c Ha Hr. apply q1_run_ok in Hr; [|done|by apply q1_start_ok|done]. split; [done|]. by eapply q1_bounds. }
  destruct He as [e| |acts c r Ha Hr Hw|acts c e Ha Hr Hw|acts c Ha Hr Hw|e x|acts c cause x Ha Hr Hw].
  - destruct e; done.
  - done.
  - destruct (Hinv acts c Ha Hr) as [Hi Hb]. destruct Hi as [_ _ _ _ Ho Hk _ Hs Hst _ _ _].
    rewrite Hw in *. rewrite (Hs eq_refl) in *. simpl in *. split; [lia|]. intros _.
    rewrite Ho, Hk, Hst, wrap_plus. f_equal. lia.
  - destruct (Hinv acts c Ha Hr) as [Hi _]. destruct Hi as [_ _ _ _ _ _ _ _ Hst _ _ _]. rewrite Hw in Hst. simpl in Hst. split; [lia|done].
  - destruct (Hinv acts c Ha Hr) as [Hi _]. destruct Hi as [_ _ _ _ _ _ _ _ Hst _ _ _]. rewrite Hw in Hst. done.
  - destruct e; done.
  - destruct (Hinv acts c Ha Hr) as [Hi Hb]. destruct Hi as [_ _ _ _ _ _ _ Hs Hst _ _ _]. rewrite Hw in *. simpl in Hst. split; [lia|done].
Qed.

Lemma total_balanced l : Forall balanced l -> balanced (total l).
Proof.
  unfold balanced. induction 1 as [|t l Ht _ IH]; [done|].
  cbn [total foldr tally_sum t_offered t_acked t_stalled]. fold (total l). rewrite Ht, IH, !wrap_sum. f_equal. lia.
Qed.

Lemma total_stalled l : Forall few_stalled l -> Z.of_nat (length l) <= 2 ^ 32 ->
  0 <= t_stalled (total l) <= 65535 * Z.of_nat (length l) /\ (t_stalled (total l) = 0 -> Forall (fun t => t_stalled t = 0) l).
Proof.
  unfold few_stalled. induction 1 as [|t l Ht _ IH]; intros Hl; [done|]. cbn [length] in Hl. destruct IH as [Hb Hz]; [lia|].
  cbn [total foldr length]. fold (total l). cbn [tally_sum t_stalled]. rewrite wrap_small by lia. split; [lia|].
  intros. constructor; [lia|]. apply Hz. lia.
Qed.

Lemma validate_qos1 config : validate config = Ok tt -> gen_qos config = 1 ->
  1 <= qos1_window config <= 65535 /\ gen_connections config <= CONNECTIONS_MAX.
Proof.
  unfold validate. intros Hv Hq. rewrite Hq in Hv. simpl in Hv.
  destruct (gen_connections config =? 0) eqn:E1; [done|]. destruct (CONNECTIONS_MAX <? gen_connections config) eqn:E2; [done|].
  simpl in Hv. destruct ((1 <=? qos1_window config) && (qos1_window config <=? 65535)) eqn:E3; [|done]. zbool. done.
Qed.

Lemma no_failure l : drain_failure l = None -> Forall (fun j => panicked j = None) l.
Proof.
  unfold drain_failure. induction l as [|j l IH]; [done|]. simpl. destruct (panicked j) eqn:E; [done|]. intros. constructor; auto.
Qed.

Lemma cancelled_count (ends : list (Tally * JoinResult)) drained aborted :
  drained ++ aborted ≡ₚ ends.*2 -> JrCancelled ∉ drained ->
  let n := Z.of_nat (length (filter is_cancelled aborted)) in
  0 <= n <= Z.of_nat (length ends) /\ (n = 0 <-> JrCancelled ∉ (ends.*2)).
Proof.
  intros Hj Hd n. pose proof (Permutation_length Hj) as Hl. rewrite length_app, length_fmap in Hl.
  pose proof (length_filter is_cancelled aborted). split; [lia|]. rewrite <- Hj, elem_of_app. unfold n. split.
  - intros Hn [|Hin]; [done|]. assert (Hf : JrCancelled ∈ filter is_cancelled aborted) by (apply list_elem_of_filter; done).
    destruct (filter is_cancelled aborted); [by apply not_elem_of_nil in Hf|simpl in Hn; lia].
  - intros Hno. destruct (filter is_cancelled aborted) as [|j l] eqn:Ef; [done|]. destruct Hno. right.
    assert (Hf : j ∈ filter is_cancelled aborted) by (rewrite Ef; left). apply list_elem_of_filter in Hf as [Hj' Hin].
    by destruct j.
Qed.

(** The sums over the connections of a run. *)
Lemma ends_stalled config (ends : list (Tally * JoinResult)) : 1 <= qos1_window config <= 65535 ->
  Forall (fun x => exists conn_id, conn_ends conn_id config x.1 x.2) ends -> Z.of_nat (length ends) <= 2 ^ 32 ->
  0 <= t_stalled (total (ends.*1)) <= 65535 * Z.of_nat (length ends) /\
  ((forall e, JrPanic e ∉ (ends.*2)) -> JrCancelled ∉ (ends.*2) -> balanced (total (ends.*1))).
Proof.
  intros Hwin Hends Hl. assert (Hf : Forall few_stalled (ends.*1)).
  { apply Forall_fmap. eapply Forall_impl; [done|]. intros x [id Hx]. by eapply conn_ends_ok. }
  split; [pose proof (total_stalled _ Hf) as Ht; rewrite length_fmap in Ht; by apply Ht|].
  intros Hp Hc. apply total_balanced, Forall_fmap, Forall_forall. intros x Hx. rewrite Forall_forall in Hends.
  destruct (Hends x Hx) as [id He]. eapply conn_ends_ok; [done..|]. apply (list_elem_of_fmap_2 snd) in Hx.
  destruct x as [t [|e|]]; [done|by destruct (Hp e)|done].
Qed.

Section RunSpec.
Context `{HdrHistogram}.

Lemma run_generator_ok config now runtime a r : mode config = Throughput -> gen_qos config = 1 ->
  run_generator config now runtime (Some a) = Some (Ok r) ->
  validate config = Ok tt /\ now <= origin_ns config /\ ra_stopped a = true /\
  Forall (fun j => panicked j = None) (ra_drained a ++ ra_aborted a) /\
  let t := tally_stalled (k_tally (ra_counters a)) (Z.of_nat (length (filter is_cancelled (ra_aborted a)))) in
  gr_offered r = t_offered t /\ gr_acked r = Some (t_acked t) /\ gr_stalled r = t_stalled t.
Proof.
  intros Hm Hq. unfold run_generator. destruct (validate config) as [[]|e]; [|done].
  destruct (Z.ltb_spec (origin_ns config) now); [done|]. destruct runtime; [done|].
  unfold join_and_report. destruct (drain_failure (ra_drained a)) eqn:E1; [done|].
  destruct (drain_failure (ra_aborted a)) eqn:E2; [done|]. destruct (ra_stopped a) eqn:E3; [|done]. simpl.
  unfold build_report. rewrite Hm, Hq. simpl. intros [= <-]. simpl.
  split_and!; try done. apply Forall_app. split; by apply no_failure.
Qed.

(** (C30) What a QoS 1 throughput run reports is what its connections did, and
    a run that produced a report had no panicking connection and no reader left
    that could still count.  Unless a connection was cancelled at the hard
    deadline, offered is acked plus stalled; and a report without stalls has
    every offered publish acknowledged and no connection cancelled. *)
Theorem qos1_report_accounts config now runtime a r ends :
  mode config = Throughput -> gen_qos config = 1 -> Z.of_nat (length ends) = gen_connections config ->
  Forall (fun x => exists conn_id, conn_ends conn_id config x.1 x.2) ends ->
  ra_counters a = counters_after config ends.*1 -> ra_drained a ++ ra_aborted a ≡ₚ ends.*2 -> JrCancelled ∉ ra_drained a ->
  run_generator config now runtime (Some a) = Some (Ok r) ->
  ra_stopped a = true /\ (forall e, JrPanic e ∉ (ends.*2)) /\ exists acked, gr_acked r = Some acked /\
  (JrCancelled ∉ (ends.*2) -> gr_offered r = wrap64 (acked + gr_stalled r)) /\
  (gr_stalled r = 0 -> (JrCancelled ∉ (ends.*2)) /\ acked = gr_offered r).
Proof.
  intros Hm Hq Hlen Hends Hc Hj Hd Hrun. destruct (run_generator_ok _ _ _ _ _ Hm Hq Hrun) as (Hv & _ & Hs & Hnp & Ho & Hk & Hst).
  destruct (validate_qos1 config Hv Hq) as [Hwin Hmax]. change CONNECTIONS_MAX with 1213 in Hmax. rewrite Hj, Forall_forall in Hnp. split; [done|].
  assert (Hpanic : forall e, JrPanic e ∉ (ends.*2)) by (intros e He; by specialize (Hnp _ He)). split; [done|].
  assert (Hn := cancelled_count ends (ra_drained a) (ra_aborted a) Hj Hd).
  set (n := Z.of_nat (length (filter is_cancelled (ra_aborted a)))) in *. destruct Hn as (Hn & Hn0).
  destruct (ends_stalled config ends Hwin Hends) as [Hfew Hbal]; [lia|].
  rewrite Hc in Ho, Hk, Hst.
  cbn [tally_stalled counters_after k_tally Counters_new tally_sum no_tally t_offered t_acked t_stalled] in *.
  rewrite Z.add_0_l in *. set (t := total (ends.*1)) in *.
  rewrite wrap_plus, (wrap_small 64 (t_stalled t + n)) in Hst by lia.
  exists (wrap64 (t_acked t)). split; [done|].
  assert (Hone : JrCancelled ∉ (ends.*2) -> gr_offered r = wrap64 (wrap64 (t_acked t) + gr_stalled r)).
  { intros Hno. rewrite Ho, Hst, (proj2 Hn0 Hno), wrap_plus, Z.add_0_r.
    rewrite (Hbal Hpanic Hno). apply Zmod_mod. }
  split; [done|]. intros Hz. assert (Hno : JrCancelled ∉ (ends.*2)) by (apply Hn0; lia). split; [done|].
  rewrite (Hone Hno), Hz, Z.add_0_r. symmetry. apply Zmod_mod.
Qed.
End RunSpec.

(** ** The end of a run *)

(** The runtime's shutdown gets what the reader wait left of one budget: a run
    that answers by the watchdog's deadline is over by it, however long its
    tasks resist. *)
Lemma shutdown_in_budget config now : 0 <= now ->
  let limit := hard_deadline_ns config + IO_TIMEOUT_SECS * NS + READER_STOP_GRACE_NS in
  0 <= hard_deadline_ns config -> now <= limit ->
  0 <= shutdown_budget config now <= READER_STOP_GRACE_NS /\ 
  (hard_deadline_ns config + IO_TIMEOUT_SECS * NS <= now -> now + shutdown_budget config now = limit).
Proof. intros Hn limit Hd Hl. unfold shutdown_budget, limit, sat_sub, READER_STOP_GRACE_NS, IO_TIMEOUT_SECS, NS in *. lia. Qed.

Section Witnesses.
#[local] Existing Instance RecorderWitness.samples.

(** One connection that returned with a stall, and a report of it. *)
Definition sample_answers : RunAnswers :=
  {| ra_counters := counters_after SampleQos1.config [q_tally SampleQos1.last]; ra_drained := [JrOk]; ra_aborted := [];
     ra_stopped := true |}.
Definition sample_report : GenReport :=
  {| gr_scheduled := None; gr_window_scheduled := None; gr_offered := 2; gr_acked := Some 1; gr_missed_slots := 0;
     gr_connect_errors := 0; gr_protocol_errors := 1; gr_stalled := 1; gr_lateness_over_range := 0;
     gr_last_write_start_ns := None; gr_cycles_in_window := None; gr_lateness := [] |}.

Lemma sample_ends : Forall (fun x => exists conn_id, conn_ends conn_id SampleQos1.config x.1 x.2) [(q_tally SampleQos1.last, JrOk)].
Proof.
  constructor; [|constructor]. exists 7. destruct SampleQos1.last_counts as (Hq & Hw & _).
  eapply ce_returned; [exact SampleQos1.acts_ok|exact Hq|exact Hw].
Qed.

Lemma qos1_report_accounts_witness : exists acked, gr_acked sample_report = Some acked /\ 2 = wrap64 (acked + 1).
Proof.
  assert (Hno : JrCancelled ∉ [JrOk]) by (by intros ?%list_elem_of_singleton).
  assert (Hd : JrCancelled ∉ ra_drained sample_answers) by exact Hno.
  assert (Hr : run_generator SampleQos1.config 5 None (Some sample_answers) = Some (Ok sample_report)) by (vm_compute; reflexivity).
  pose proof (qos1_report_accounts SampleQos1.config 5 None sample_answers sample_report [(q_tally SampleQos1.last, JrOk)] eq_refl eq_refl eq_refl sample_ends
    eq_refl (Permutation_refl _) Hd Hr) as (_ & _ & acked & Ha & H & _).
  exists acked. split; [exact Ha|]. exact (H Hno).
Defined.
End Witnesses.
