(* ===== verification/LatencyRun.v ===== *)
(** * A latency run

    bench/src/gen.rs: the counters a latency run leaves, from what its
    connections did, and what its report says of the schedule. *)

From S2P Require Import Prelude Text Rmqtt Wire Recorder Generator Pacer Runner Endpoint GenConn GenSpec GenRun Latency LatencySpec.

(** ** What the connections leave *)

(** A connection's part of the counters and how its task joined. *)
Record LatencyEnd := {
  le_tally : Tally; le_missed : Z; le_over : Z; le_last : Z; le_lateness : list Z; le_join : JoinResult
}.

Definition tally_of (c : LConn) : Tally :=
  {| t_offered := offered (l_counters c); t_acked := l_acked c; t_connect_errors := 0; t_protocol_errors := l_protocol_errors c;
     t_stalled := stalled (l_counters c); t_cycles := 0 |}.

Definition end_of (c : LConn) (j : JoinResult) : LatencyEnd :=
  {| le_tally := tally_of c; le_missed := missed_slots (l_counters c); le_over := lateness_over_range (l_counters c);
     le_last := last_write_start_ns (l_counters c); le_lateness := lateness (l_counters c); le_join := j |}.

(** A connection that did not open, or was cancelled before it did. *)
Definition unopened (t : Tally) (j : JoinResult) : LatencyEnd :=
  {| le_tally := t; le_missed := 0; le_over := 0; le_last := 0; le_lateness := []; le_join := j |}.

(** The cells the connections share. *)
Definition sum_wrapped (l : list Z) : Z := foldr (fun x n => wrap64 (x + n)) 0 l.
Definition latest_start (l : list Z) : Z := foldr (fun x t => update_last_write_start t x) 0 l.

Section Run.
Context `{HdrHistogram}.

Definition latency_counters (ends : list LatencyEnd) : Counters :=
  {| k_tally := total (le_tally <$> ends); k_lateness_over_range := sum_wrapped (le_over <$> ends);
     k_missed_slots := sum_wrapped (le_missed <$> ends); k_last_write_start_ns := latest_start (le_last <$> ends);
     k_lateness := (fun e => foldl hist_record new_latency_histogram (le_lateness e)) <$> ends |}.
End Run.

(** How a connection of a latency run ends: against any broker, or ([timed])
    against one whose PUBACKs are not taken before their publish.  The
    [eprintln!] of a failed open or of an error can panic. *)
Definition latency_run (timed : bool) (conn_id : Z) (config : GenConfig) (rate : Z) (acts : list LAction) (c : LConn) : Prop :=
  Forall laction_ok acts /\ (timed = true -> gen_qos config = 1 -> timely conn_id config rate l_start acts) /\
  l_run conn_id config rate l_start acts = Some c.

Inductive latency_ends (timed : bool) (config : GenConfig) (rate conn_id : Z) : LatencyEnd -> Prop :=
| lte_open_failed e : latency_ends timed config rate conn_id (unopened (open_failed no_tally e) JrOk)
| lte_cancelled_early : latency_ends timed config rate conn_id (unopened no_tally JrCancelled)
| lte_returned acts c f r : latency_run timed conn_id config rate acts c -> l_pacer c = PReturned f r ->
    latency_ends timed config rate conn_id (end_of c JrOk)
| lte_panicked acts c e : latency_run timed conn_id config rate acts c -> l_pacer c = PDied e ->
    latency_ends timed config rate conn_id (end_of c (JrPanic e))
| lte_cancelled acts c : latency_run timed conn_id config rate acts c -> l_pacer c = PCancelled ->
    latency_ends timed config rate conn_id (end_of c JrCancelled)
| lte_open_unsaid e x : latency_ends timed config rate conn_id (unopened (open_failed no_tally e) (JrPanic x))
| lte_unsaid acts c f cause x : latency_run timed conn_id config rate acts c -> l_pacer c = PReturned f (Err cause) ->
    latency_ends timed config rate conn_id (end_of c (JrPanic x)).

(** At QoS 0 there is no PUBACK to take. *)
Lemma latency_ends_qos0 config rate conn_id e : gen_qos config <> 1 -> latency_ends false config rate conn_id e ->
  latency_ends true config rate conn_id e.
Proof.
  intros Hq. assert (Hrun : forall acts c, latency_run false conn_id config rate acts c -> latency_run true conn_id config rate acts c)
    by (intros acts c (? & _ & ?); by split_and!).
  intros [| |acts c f r Hr|acts c x Hr|acts c Hr| |acts c f cause x Hr];
    [apply lte_open_failed|apply lte_cancelled_early| | | |apply lte_open_unsaid|]; apply Hrun in Hr;
    eauto using lte_returned, lte_panicked, lte_cancelled, lte_unsaid.
Qed.

(** ** One connection *)

Section Ends.
Context (config : GenConfig) (rate : Z).
Hypothesis C : config_ok config rate.
Hypothesis Hqos : 0 <= gen_qos config.
Hypothesis Hfit : slot_grid_end_ns (window config) + CONNECTIONS_MAX * NS < 2 ^ 64.

Abbreviation own conn_id := (own_slot_count conn_id (gen_connections config) (window_due_j_count config rate)).

(** What is known of a connection's part. *)
Record end_ok (timed : bool) (conn_id : Z) (e : LatencyEnd) : Prop := {
  eo_nonneg : 0 <= t_offered (le_tally e) /\ 0 <= le_missed e;
  eo_share : t_offered (le_tally e) + le_missed e <= own conn_id;
  eo_errors : 0 <= t_connect_errors (le_tally e) <= 1;
  eo_stalled : timed = true -> 0 <= t_stalled (le_tally e) <= 65535;
  eo_last : le_last e < end_ns (window config);
  eo_closed : t_connect_errors (le_tally e) = 0 -> le_join e = JrOk ->
    t_offered (le_tally e) + le_missed e = own conn_id /\
    (timed = true -> gen_qos config = 1 ->
       0 <= t_acked (le_tally e) /\ t_offered (le_tally e) = t_acked (le_tally e) + t_stalled (le_tally e))
}.

(** The part of a connection that opened. *)
Lemma opened_ok timed conn_id acts c j : 0 <= conn_id < gen_connections config -> latency_run timed conn_id config rate acts c ->
  stage (l_pacer c) <> Pacing -> (j = JrOk -> exists f r, l_pacer c = PReturned f r) -> end_ok timed conn_id (end_of c j).
Proof.
  intros Hconn (Hok & Ht & Hr) Hs Hj. pose proof (latency_books _ _ _ _ _ C Hconn Hqos Hfit Hr) as Hp.
  destruct (ended_nothing c Hs) as (_ & Ho & _). pose proof (pd_offered _ _ _ c Hp) as Hof. rewrite Ho in Hof. cbn [length] in Hof.
  pose proof (pd_slots _ _ _ c Hp) as Hsl. pose proof (pd_missed _ _ _ c Hp).
  split; cbn [end_of tally_of le_tally le_missed le_last le_join t_offered t_acked t_connect_errors t_stalled].
  - lia.
  - destruct (stage (l_pacer c)); [done|lia|lia].
  - lia.
  - intros Htm. eapply latency_few; eauto.
  - apply Hp.
  - intros _ Hjo. destruct (Hj Hjo) as (f & r & Hret).
    destruct (latency_returned _ _ _ _ _ f r C Hconn Hqos Hfit Hr Hret) as [_ Hown _ _]. split; [done|].
    intros Htm Hq. destruct (latency_acknowledged _ _ _ _ _ f r C Hconn Hq Hfit Hok (Ht Htm Hq) Hr Hret) as [He (o & _ & Ha & _)]. lia.
Qed.

Lemma unopened_ok timed conn_id t j : 0 <= conn_id < gen_connections config -> t_offered t = 0 -> t_stalled t = 0 ->
  0 <= t_connect_errors t <= 1 -> (j = JrOk -> t_connect_errors t = 1) -> end_ok timed conn_id (unopened t j).
Proof.
  intros Hconn Ho Hst Hc Hj. pose proof (own_bounds conn_id config rate C Hconn). destruct (config_bounds _ _ C) as (_ & _ & ? & ? & _).
  destruct C as [_ _ _ _ Hu _ _]. unfold u_range in Hu.
  split; cbn [unopened le_tally le_missed le_last le_join]; rewrite ?Ho, ?Hst; try lia. intros Hz Hjo. specialize (Hj Hjo). lia.
Qed.

Lemma latency_ends_ok timed conn_id e : 0 <= conn_id < gen_connections config -> latency_ends timed config rate conn_id e ->
  end_ok timed conn_id e.
Proof.
  intros Hconn [err| |acts c f r Hrun Hret|acts c err Hrun Hret|acts c Hrun Hret|err x|acts c f cause x Hrun Hret].
  - apply unopened_ok; try done; destruct err; done.
  - by apply unopened_ok.
  - apply (opened_ok timed conn_id acts); rewrite ?Hret; eauto.
  - apply (opened_ok timed conn_id acts); rewrite ?Hret; done.
  - apply (opened_ok timed conn_id acts); rewrite ?Hret; done.
  - apply unopened_ok; try done; destruct err; done.
  - apply (opened_ok timed conn_id acts); rewrite ?Hret; done.
Qed.

(** ** The sums *)

Lemma latest_below l t : 0 < t -> Forall (fun x => x < t) l -> latest_start l < t.
Proof.
  intros Ht. induction 1 as [|x l Hx _ IH]; [done|]. cbn [latest_start foldr]. fold (latest_start l). unfold update_last_write_start. by case_match.
Qed.

Lemma sum_exact l : Forall (Z.le 0) l -> sumZ l < 2 ^ 64 -> sum_wrapped l = sumZ l.
Proof.
  induction 1 as [|x l Hx Hl IH]; intros Hb; [done|]. cbn [sum_wrapped foldr]. fold (sum_wrapped l). rewrite sumZ_cons in *.
  pose proof (sumZ_nonneg l Hl).
  rewrite IH, wrap_small by lia. lia.
Qed.

(** A field of the tallies, over the connections. *)
Abbreviation sum_of f ends := (sumZ (f <$> ends)).
Abbreviation off := (fun e => t_offered (le_tally e)).
Abbreviation ack := (fun e => t_acked (le_tally e)).
Abbreviation err := (fun e => t_connect_errors (le_tally e)).
Abbreviation stl := (fun e => t_stalled (le_tally e)).

Lemma total_sums (ends : list LatencyEnd) (t := total (le_tally <$> ends)) :
  t_offered t = sum_wrapped (off <$> ends) /\ t_acked t = sum_wrapped (ack <$> ends) /\
  t_connect_errors t = sum_wrapped (err <$> ends) /\ t_stalled t = sum_wrapped (stl <$> ends).
Proof.
  subst t. induction ends as [|e ends (IH1 & IH2 & IH3 & IH4)]; [done|]. cbn [total foldr tally_sum fmap list_fmap sum_wrapped] in *.
  fold (total (le_tally <$> ends)) in *. simpl. by rewrite IH1, IH2, IH3, IH4.
Qed.

Record sums_ok (timed : bool) (ids : list Z) (ends : list LatencyEnd) : Prop := {
  so_off : nonneg (off <$> ends); so_missed : nonneg (le_missed <$> ends); so_err : nonneg (err <$> ends);
  so_share : sum_of off ends + sum_of le_missed ends <= sumZ ((fun i => own i) <$> ids);
  so_errors : sum_of err ends <= Z.of_nat (length ends);
  so_stalled : timed = true -> nonneg (stl <$> ends) /\ sum_of stl ends <= 65535 * Z.of_nat (length ends);
  so_last : Forall (fun x => x < end_ns (window config)) (le_last <$> ends);
  so_closed : sum_of err ends = 0 -> Forall (fun e => le_join e = JrOk) ends ->
    sum_of off ends + sum_of le_missed ends = sumZ ((fun i => own i) <$> ids) /\
    (timed = true -> gen_qos config = 1 -> nonneg (ack <$> ends) /\ sum_of off ends = sum_of ack ends + sum_of stl ends)
}.

Lemma ends_sums timed ids ends : Forall2 (end_ok timed) ids ends -> sums_ok timed ids ends.
Proof.
  induction 1 as [|i e ids ends He _ IH]; [by split; try constructor|].
  destruct He as [[Ho Hm] Hsh Her Hst Hla Hcl]. destruct IH as [H1 H2 H3 H5 H6 H7 H8 H9].
  pose proof (sumZ_nonneg _ H3) as Hz. split; cbn [fmap list_fmap length]; rewrite ?sumZ_cons; try (by constructor); try lia.
  - constructor; [lia|done].
  - intros Htm. specialize (Hst Htm). destruct (H7 Htm). split; [constructor; [lia|done]|lia].
  - intros Herr [Hj Hjs]%Forall_cons. destruct Hcl as [Hc1 Hc2]; [lia|done|]. destruct H9 as [Hd1 Hd2]; [lia|done|]. split; [lia|].
    intros Htm Hq. destruct (Hc2 Htm Hq) as [? ?]. destruct (Hd2 Htm Hq) as [? ?]. split; [by constructor|lia].
Qed.
End Ends.

(** ** The report *)

Section RunSpec.
Context `{HdrHistogram}.

Lemma run_latency_ok config rate now runtime a r : config_ok config rate ->
  run_generator config now runtime (Some a) = Some (Ok r) ->
  ra_stopped a = true /\ Forall (fun j => panicked j = None) (ra_drained a ++ ra_aborted a) /\
  gr_scheduled r = Some (window_due_j_count config rate) /\
  let k := ra_counters a in
  let t := tally_stalled (k_tally k) (Z.of_nat (length (filter is_cancelled (ra_aborted a)))) in
  gr_offered r = t_offered t /\ gr_acked r = (if gen_qos config =? 1 then Some (t_acked t) else None) /\ gr_stalled r = t_stalled t /\
  gr_connect_errors r = t_connect_errors t /\ gr_missed_slots r = k_missed_slots k /\
  gr_last_write_start_ns r = (if k_last_write_start_ns k =? 0 then None else Some (k_last_write_start_ns k)).
Proof.
  intros C. unfold run_generator. destruct (validate config) as [[]|e]; [|done].
  destruct (Z.ltb_spec (origin_ns config) now); [done|]. destruct runtime; [done|].
  unfold join_and_report. destruct (drain_failure (ra_drained a)) eqn:E1; [done|].
  destruct (drain_failure (ra_aborted a)) eqn:E2; [done|]. destruct (ra_stopped a) eqn:E3; [|done]. cbn [negb].
  destruct (slot_counts_exact config rate C) as (st & _ & Hsc).
  unfold build_report. rewrite (co_mode _ _ C), Hsc. intros [= <-]. 
  split_and!; try done. apply Forall_app. split; by apply no_failure.
Qed.

(** The sums of a run over its connections, exactly. *)
Lemma latency_sums timed config rate ends : config_ok config rate -> 0 <= gen_qos config ->
  slot_grid_end_ns (window config) + CONNECTIONS_MAX * NS < 2 ^ 64 ->
  Forall2 (latency_ends timed config rate) (seqZ 0 (gen_connections config)) ends ->
  sums_ok config rate timed (seqZ 0 (gen_connections config)) ends /\ Z.of_nat (length ends) <= 1213 /\
  sumZ ((fun i => own_slot_count i (gen_connections config) (window_due_j_count config rate)) <$> seqZ 0 (gen_connections config)) =
    window_due_j_count config rate.
Proof.
  intros C Hq Hf He. destruct (config_bounds _ _ C) as (_ & Hn & _ & _ & HJ & _). change CONNECTIONS_MAX with 1213 in Hn. split_and!.
  - apply ends_sums. apply Forall2_same_length_lookup. split; [by eapply Forall2_length|]. intros i conn e Hi Hx.
    pose proof (Forall2_lookup_lr _ _ _ _ _ _ He Hi Hx). apply lookup_seqZ in Hi. apply latency_ends_ok; try done. lia.
  - apply Forall2_length in He. rewrite length_seqZ in He. lia.
  - pose proof (own_slots_partition (gen_connections config) (window_due_j_count config rate) ltac:(lia) ltac:(lia)) as E.
    unfold span_sum in E. by rewrite Z.sub_0_r in E.
Qed.

Lemma joins_of (ends : list LatencyEnd) : ((fun e => (le_tally e, le_join e)) <$> ends).*2 = le_join <$> ends.
Proof. by rewrite <- list_fmap_compose. Qed.

Lemma all_joined (ends : list LatencyEnd) : (forall e, JrPanic e ∉ (le_join <$> ends)) -> JrCancelled ∉ (le_join <$> ends) ->
  Forall (fun e => le_join e = JrOk) ends.
Proof.
  intros Hp Hc. apply Forall_forall. intros e He. apply (list_elem_of_fmap_2 le_join) in He. destruct (le_join e) as [|x|]; [done| |done].
  by destruct (Hp x).
Qed.

(** (C29) A latency report accounts for the whole schedule.  A report means that
    no connection panicked and every reader stopped; the scheduled count is the
    slot grid's, offered and missed together never exceed it, and no write
    started at or after the end of the window.  When every session opened and no
    connection was cancelled, every scheduled slot was offered or missed.  This
    holds against any broker.  If moreover, at QoS 1, no connection took a
    PUBACK before its publish was submitted, then with every session open and
    none cancelled offered is acked plus stalled, and a report without connect
    errors, stalls and missed slots offered the whole schedule with no
    connection cancelled, and at QoS 1 had all of it acknowledged. *)
Theorem latency_report_accounts config rate now runtime a r ends :
  config_ok config rate -> 0 <= gen_qos config -> slot_grid_end_ns (window config) + CONNECTIONS_MAX * NS < 2 ^ 64 ->
  Forall2 (latency_ends false config rate) (seqZ 0 (gen_connections config)) ends ->
  ra_counters a = latency_counters ends -> ra_drained a ++ ra_aborted a ≡ₚ le_join <$> ends -> JrCancelled ∉ ra_drained a ->
  run_generator config now runtime (Some a) = Some (Ok r) ->
  let scheduled := window_due_j_count config rate in
  ra_stopped a = true /\ (forall e, JrPanic e ∉ (le_join <$> ends)) /\ gr_scheduled r = Some scheduled /\
  gr_offered r + gr_missed_slots r <= scheduled /\
  (forall t, gr_last_write_start_ns r = Some t -> t < end_ns (window config)) /\
  (gr_connect_errors r = 0 -> JrCancelled ∉ (le_join <$> ends) -> gr_offered r + gr_missed_slots r = scheduled) /\
  ((gen_qos config = 1 -> Forall2 (latency_ends true config rate) (seqZ 0 (gen_connections config)) ends) ->
     (gr_connect_errors r = 0 -> JrCancelled ∉ (le_join <$> ends) -> gen_qos config = 1 ->
        exists acked, gr_acked r = Some acked /\ gr_offered r = acked + gr_stalled r) /\
     (gr_connect_errors r = 0 -> gr_stalled r = 0 -> gr_missed_slots r = 0 ->
        (JrCancelled ∉ (le_join <$> ends)) /\ gr_offered r = scheduled /\ (gen_qos config = 1 -> gr_acked r = Some scheduled))).
Proof.
  intros C Hq Hf Hends Hc Hj Hd Hrun scheduled. destruct (run_latency_ok _ _ _ _ _ _ C Hrun) as (Hs & Hnp & Hsch & Ho & Hk & Hst & Her & Hmi & Hla).
  destruct (latency_sums false config rate ends C Hq Hf Hends) as ([H1 H2 H3 Hsh Herr _ Hlast Hcl] & Hlen & Hown). rewrite Hown in Hsh, Hcl. fold scheduled in Hsh, Hcl.
  destruct (config_bounds _ _ C) as (_ & _ & Hos & Hwin & HJ & _). fold scheduled in HJ.
  rewrite Hj, Forall_forall in Hnp. assert (Hpanic : forall e, JrPanic e ∉ (le_join <$> ends)) by (intros e He; by specialize (Hnp _ He)).
  assert (Hn := cancelled_count ((fun e => (le_tally e, le_join e)) <$> ends) (ra_drained a) (ra_aborted a)). rewrite joins_of, length_fmap in Hn.
  specialize (Hn Hj Hd). cbv zeta in Hn. set (n := Z.of_nat (length (filter is_cancelled (ra_aborted a)))) in *. destruct Hn as (Hn & Hn0).
  pose proof (sumZ_nonneg _ H1). pose proof (sumZ_nonneg _ H2). pose proof (sumZ_nonneg _ H3).
  rewrite Hc in *. cbn [latency_counters k_tally k_missed_slots k_last_write_start_ns tally_stalled t_offered t_acked t_connect_errors t_stalled] in *.
  destruct (total_sums ends) as (T1 & T2 & T3 & T4).
  rewrite T1, sum_exact in Ho by (done || lia). rewrite T3, sum_exact in Her by (done || lia).
  rewrite sum_exact in Hmi by (done || lia).
  assert (Hall : gr_connect_errors r = 0 -> JrCancelled ∉ (le_join <$> ends) -> gr_offered r + gr_missed_slots r = scheduled).
  { intros Hz Hno. destruct Hcl as [Hc1 _]; [lia|by apply all_joined|]. lia. }
  split; [done|]. split; [done|]. split; [done|]. split; [lia|]. split.
  { intros t. rewrite Hla. case_match; [done|]. intros [= <-]. apply latest_below; [|done]. destruct C as [_ _ _ _ Hu _ _]. unfold u_range in Hu. lia. }
  split; [done|]. intros Htimed. assert (Hends1 : Forall2 (latency_ends true config rate) (seqZ 0 (gen_connections config)) ends).
  { destruct (Z.eq_dec (gen_qos config) 1) as [Hq1|Hq1]; [by apply Htimed|].
    eapply Forall2_impl; [exact Hends|]. intros conn_id e. by apply latency_ends_qos0. }
  destruct (latency_sums true config rate ends C Hq Hf Hends1) as ([_ _ _ _ _ Hstl _ Hcl1] & _ & _).
  destruct (Hstl eq_refl) as [Hs0 Hfew]. pose proof (sumZ_nonneg _ Hs0). rewrite T4, sum_exact, wrap_small in Hst by (done || lia).
  assert (Hdone : gr_connect_errors r = 0 -> JrCancelled ∉ (le_join <$> ends) -> gen_qos config = 1 ->
    exists acked, gr_acked r = Some acked /\ gr_offered r = acked + gr_stalled r).
  { intros Hz Hno Hq1. destruct Hcl1 as [_ Hc2]; [lia|by apply all_joined|]. destruct (Hc2 eq_refl Hq1) as [Hk0 Hk1].
    rewrite Hq1 in Hk. rewrite T2, sum_exact in Hk by (done || lia). eexists. split; [exact Hk|]. rewrite Ho, Hst, (proj2 Hn0 Hno). lia. }
  split; [done|].
  - intros Hz Hst0 Hmi0. assert (Hno : JrCancelled ∉ (le_join <$> ends)) by (apply Hn0; lia). split; [done|].
    specialize (Hall Hz Hno). split; [lia|]. intros Hq1. destruct (Hdone Hz Hno Hq1) as (acked & -> & ?). f_equal. lia.
Qed.
End RunSpec.

Section Witnesses.
#[local] Existing Instance RecorderWitness.samples.

(** The connection of [SampleLatency], and the report of its run. *)
Definition latency_end : LatencyEnd := end_of SampleLatency.last JrOk.
Definition latency_answers : RunAnswers :=
  {| ra_counters := latency_counters [latency_end]; ra_drained := [JrOk]; ra_aborted := []; ra_stopped := true |}.
Definition latency_report : GenReport :=
  match run_generator SampleLatency.config 5 None (Some latency_answers) with
  | Some (Ok r) => r
  | _ => sample_report
  end.

Lemma latency_end_ok timed : Forall2 (latency_ends timed SampleLatency.config 1500) (seqZ 0 1) [latency_end].
Proof.
  constructor; [|constructor]. destruct SampleLatency.latency_last_counts as [Hr _].
  assert (He : exists f r, l_pacer SampleLatency.last = PReturned f r) by (do 2 eexists; vm_compute; reflexivity).
  destruct He as (f & r & Hret). eapply lte_returned; [|exact Hret].
  split; [exact SampleLatency.latency_acts_ok|]. split; [|exact Hr]. intros _ _. exact SampleLatency.acts_timely.
Qed.

Lemma latency_report_accounts_witness :
  gr_offered latency_report + gr_missed_slots latency_report = 3 /\
  exists acked, gr_acked latency_report = Some acked /\ gr_offered latency_report = acked + gr_stalled latency_report.
Proof.
  assert (Hq : 0 <= gen_qos SampleLatency.config) by (simpl; lia).
  assert (Hf : slot_grid_end_ns (window SampleLatency.config) + CONNECTIONS_MAX * NS < 2 ^ 64) by (vm_compute; reflexivity).
  assert (Hno : JrCancelled ∉ [JrOk]) by (by intros ?%list_elem_of_singleton).
  assert (Hr : run_generator SampleLatency.config 5 None (Some latency_answers) = Some (Ok latency_report)) by (vm_compute; reflexivity).
  assert (He : gr_connect_errors latency_report = 0) by (vm_compute; reflexivity).
  pose proof (latency_report_accounts SampleLatency.config 1500 5 None latency_answers latency_report [latency_end] SampleLatency.config_valid Hq Hf
    (latency_end_ok false) eq_refl (Permutation_refl _) Hno Hr) as (_ & _ & _ & _ & _ & H & Hack).
  split; [exact (H He Hno)|]. destruct (Hack (fun _ => latency_end_ok true)) as [H2 _]. exact (H2 He Hno eq_refl).
Defined.
End Witnesses.
