(* ===== verification/Cli.v ===== *)
(** * The benchmark's commands

    bench/src/main.rs: what each subcommand does with its parsed flags and the
    exit status it ends with.  [clap] parses the flags; what the host answers
    is an argument.  [bench doc] works on a file system: entries by real
    directory and name, with symbolic links, resolved as [canonicalize] does;
    a chain of links is bounded by its nesting depth. *)

From S2P Require Import Prelude Text F64 Rmqtt Api Wire Recorder RunRecord Analysis Sorting Verdict Generator Pacer Matrix Counter Runner Probe Endpoint GenConn GenRun Doc.
From Stdlib Require Import Ascii.
#[local] Open Scope matrix_scope.

Definition DEFAULT_SERVER_CPUS : str := lit "0,2,4,6".
Definition DEFAULT_GENERATOR_CPUS : str := lit "8-17".
Definition HOST_CPU_PRESSURE_PATH : str := lit "/proc/pressure/cpu".
Definition SMOKE_SERVERS : list ServerKind := [Uring].
Definition SMOKE_WORKERS : list Z := [1].
Definition SMOKE_QOS : list Z := [1].

(** ** Server, subscriber and generator *)

(** A result's exit status. *)
Definition exit_status {A E} (r : result A E) : Z := match r with Ok _ => 0 | Err _ => 1 end.

Inductive ModeArg := ArgThroughput | ArgLatency | ArgConnections.

Record GenArgs := {
  ga_addr : str; ga_mode : ModeArg; ga_rate : Z; ga_qos : Z; ga_connections : Z; ga_qos1_window : Z; ga_origin_ns : Z;
  ga_window_start_ns : Z; ga_window_end_ns : Z; ga_drain_grace_secs : Z
}.

Definition gen_config (g : GenArgs) : GenConfig :=
  {| mode := match ga_mode g with ArgThroughput => Throughput | ArgConnections => Connections | ArgLatency => Latency (ga_rate g) end;
     gen_qos := ga_qos g; gen_connections := ga_connections g; qos1_window := ga_qos1_window g; origin_ns := ga_origin_ns g;
     window := {| start_ns := ga_window_start_ns g; end_ns := ga_window_end_ns g |};
     drain_grace_ns := ga_drain_grace_secs g * NS |}.

(** The error of the address, of the report's directory, of its file and of the
    write, and the run itself, in the order they are met. *)
Record GenAnswers := {
  gn_addr : option str; gn_dir : option str; gn_run : option (result GenReport GenError); gn_create : option str;
  gn_write : option str
}.

(** The report file's content and the error printed; [None] is a panic. *)
Definition gen_command (a : GenAnswers) : option (option GenReport * result unit GenError) :=
  match gn_addr a with
  | Some e => Some (None, Err (GeText (lit "addr: " ++ e)))
  | None =>
  match gn_dir a with
  | Some e => Some (None, Err (GeText (lit "create report dir: " ++ e)))
  | None =>
  match gn_run a with
  | None => None
  | Some (Err e) => Some (None, Err e)
  | Some (Ok report) =>
  match gn_create a with
  | Some e => Some (None, Err (GeText (lit "create report file: " ++ e)))
  | None =>
  match gn_write a with
  | Some e => Some (None, Err (GeText (lit "write report: " ++ e)))
  | None => Some (Some report, Ok tt)
  end end end end end.

Definition dispatch_gen (a : GenAnswers) : option (Z * option GenReport) :=
  match gen_command a with None => None | Some (report, r) => Some (exit_status r, report) end.

(** An endpoint prints its error; [None] while it runs. *)
Definition dispatch_endpoint (r : option (result unit EndpointError)) : option (Z * list EndpointError) :=
  match r with
  | None => None
  | Some (Ok _) => Some (0, [])
  | Some (Err e) => Some (1, [e])
  end.

Section Endpoints.
Context `{HdrHistogram}.
Definition dispatch_server (imp : ServerImpl) (workers : nat) (connections : Z) (a : ServerAnswers) : option (Z * list EndpointError) :=
  dispatch_endpoint (run_server imp workers connections a).2.
Context (debug_packet : PacketV3 -> str) (debug_reason : V3ConnectAckReason -> str) (show_topic : string -> str)
        (decode_first : list Z -> option PacketV3).
Definition dispatch_sub (addr : str) (qos connections : Z) (a : SubAnswers) : option (Z * list EndpointError) :=
  dispatch_endpoint (sr_result (run_sub debug_packet debug_reason show_topic decode_first addr qos connections a)).
End Endpoints.

(** ** A benchmark session *)

Record RunArgs := {
  u_profile : Profile; u_out : str; u_servers : option (list ServerKind); u_workers : option (list Z); u_qos : option (list Z);
  u_syscalls : SyscallMethod; u_perf_bin : option str; u_strace_bin : option str; u_mosquitto_bin : option str;
  u_server_cpus : option str; u_generator_cpus : option str; u_resume : bool
}.

Definition matrix_spec (u : RunArgs) : MatrixSpec :=
  let '(servers, workers, qos) :=
    match u_profile u with
    | Recorded => (RECORDED_SERVERS, RECORDED_WORKERS, RECORDED_QOS)
    | Smoke => (SMOKE_SERVERS, SMOKE_WORKERS, SMOKE_QOS)
    end in
  {| m_profile := u_profile u; m_servers := default servers (u_servers u); m_workers := default workers (u_workers u);
     m_qos := default qos (u_qos u); m_resume := u_resume u |}.

Definition u_tools (u : RunArgs) : list str := omap id [u_perf_bin u; u_strace_bin u; u_mosquitto_bin u].

(** One line on stderr. *)
Inductive Notice :=
| NText (e : str)
| NRequest (e : RequestError)
| NResume (e : ResumeRefusal)
| NReadRecords (e : MatrixError)
| NMatrix (e : MatrixError)
| NOutcome (o : MatrixOutcome).

Record SessionAnswers := {
  ss_handler : option str; ss_git : ProbeAnswers * list HeadPoll; ss_exe : result str str; ss_env : EnvAnswers;
  ss_proc : Z -> result (option Z) str
}.

(** How a session ends: its exit status, what it printed, what was done to its
    probes, and the host it handed to the matrix, if it came that far. *)
Record SessionEnd := {
  se_code : Z; se_notices : list Notice; se_probes : list ProbeEvent; se_host : option HostSetup; se_world : World
}.

Definition refused (n : Notice) (probes : list ProbeEvent) (w : World) : SessionEnd :=
  {| se_code := 1; se_notices := [n]; se_probes := probes; se_host := None; se_world := w |}.

(** [read_dir] of the output directory. *)
Definition list_out (w : World) : result (list str) FsErrorKind * World :=
  match next_fault w with
  | (Some e, w) => (Err e, w)
  | (None, w) => (Ok ((map_to_list (files w)).*1), w)
  end.

Definition host_setup (u : RunArgs) (exe : str) (env : Env) : HostSetup :=
  {| bench_exe := exe; mosquitto_bin := u_mosquitto_bin u; h_syscalls := u_syscalls u; perf_bin := u_perf_bin u;
     strace_bin := u_strace_bin u;
     h_cpu_sets := {| cpus_server := default DEFAULT_SERVER_CPUS (u_server_cpus u);
                      cpus_generator := default DEFAULT_GENERATOR_CPUS (u_generator_cpus u) |};
     h_env := env; scratch_dir := path_join (u_out u) (lit ".scratch"); cpu_pressure_path := HOST_CPU_PRESSURE_PATH |}.

Section Session.
Context (from_utf8 : list Z -> option str) (run : HostSetup -> RunSpec -> World -> RunRecord * World).

(** The provenance of a recorded run: the error, and the trace of its probe. *)
Definition provenance (u : RunArgs) (a : SessionAnswers) : result unit str * list ProbeEvent :=
  match u_profile u with
  | Smoke => (Ok tt, [])
  | Recorded =>
      let '(r, events) := head_sha from_utf8 (ss_git a).1 (ss_git a).2 in
      (match r with
       | Err e => Err e
       | Ok head =>
           check_provenance (ev_build_sha (ss_env a)) (negb (bool_decide (ev_build_dirty (ss_env a) = lit "false"))) head
       end, events)
  end.

(** The records of a resumed session are read and compared. *)
Definition resume_check (u : RunArgs) (a : SessionAnswers) (host : HostSetup) (w : World) : option Notice * World :=
  if u_resume u then
    match read_records w with
    | (Err e, w) => (Some (NReadRecords e), w)
    | (Ok existing, w) =>
        (match check_resume (ss_proc a) existing (u_profile u) (h_syscalls host) (h_env host) (h_cpu_sets host) with
         | Err e => Some (NResume e)
         | Ok _ => None
         end, w)
    end
  else (None, w).

(** The matrix itself. *)
Definition start_matrix (u : RunArgs) (a : SessionAnswers) (host : HostSetup) (probes : list ProbeEvent) (w : World) : SessionEnd :=
  match run_matrix_with (run host) (ss_proc a) (matrix_spec u) host w with
  | (Ok outcome, w) =>
      {| se_code := exit_code outcome; se_notices := [NOutcome outcome]; se_probes := probes; se_host := Some host; se_world := w |}
  | (Err e, w) => {| se_code := 1; se_notices := [NMatrix e]; se_probes := probes; se_host := Some host; se_world := w |}
  end.

Definition dispatch_run (u : RunArgs) (a : SessionAnswers) (w : World) : SessionEnd :=
  let '(listing, w) := list_out w in
  match check_request (matrix_spec u) (u_syscalls u) (u_perf_bin u) (u_strace_bin u) (u_mosquitto_bin u) listing with
  | Err e => refused (NRequest e) [] w
  | Ok _ =>
  match ss_handler a with
  | Some e => refused (NText (lit "install ctrl-c handler: " ++ e)) [] w
  | None =>
  match provenance u a with
  | (Err e, git) => refused (NText e) git w
  | (Ok _, git) =>
  match ss_exe a with
  | Err e => refused (NText (lit "current_exe: " ++ e)) git w
  | Ok exe =>
  match capture_env from_utf8 (u_tools u) (ss_env a) with
  | (Err e, versions) => refused (NText e) (git ++ versions) w
  | (Ok env, versions) =>
      let host := host_setup u exe env in
      match resume_check u a host w with
      | (Some n, w) => refused n (git ++ versions) w
      | (None, w) =>
          match load_cancel w with
          | (Ok false, w) => start_matrix u a host (git ++ versions) w
          | (_, w) => refused (NText (lit "cancelled")) (git ++ versions) w
          end
      end
  end end end end end.
End Session.

(** ** The document command *)

(** *** Paths *)

(** The components of a [Path]. *)
Inductive Comp := RootDir | CurDir | ParentDir | Normal (name : str).
Abbreviation Path := (list Comp).
(** A canonical path, from the root. *)
Abbreviation RealPath := (list str).

(** [file_name] with the [parent]; a path that ends in [..] or the root names
    no file. *)
Definition split_file (p : Path) : option (Path * str) :=
  match rev p with Normal name :: parent => Some (rev parent, name) | _ => None end.

(** [parent], of any path. *)
Definition path_parent (p : Path) : option Path :=
  match rev p with [] | RootDir :: _ => None | _ :: parent => Some (rev parent) end.

Definition real_parent (p : RealPath) : option RealPath := match rev p with [] => None | _ :: d => Some (rev d) end.
Definition real_is_json (p : RealPath) : bool := match last p with Some name => has_json_ext name | None => false end.

(** *** The file system *)

Inductive Body := BRecord (r : RunRecord) | BText (text : str).
Inductive Entry := EFile (body : Body) | EDir | ELink (target : Path).

(** The entries of every directory. *)
Abbreviation Fs := (gmap (RealPath * str) Entry).

Definition MAX_LINKS : nat := 40.

(** Resolution from the real directory [at_]; [links] bounds the nesting of
    symbolic links. *)
Fixpoint resolve (links : nat) (fs : Fs) (at_ : RealPath) (p : Path) : option RealPath :=
  (fix go (at_ : RealPath) (p : Path) : option RealPath :=
    match p with
    | [] => Some at_
    | RootDir :: p => go [] p
    | CurDir :: p => go at_ p
    | ParentDir :: p => go (default [] (real_parent at_)) p
    | Normal name :: p =>
        match fs !! (at_, name) with
        | None => None
        | Some EDir => go (at_ ++ [name]) p
        | Some (EFile _) => match p with [] => Some (at_ ++ [name]) | _ => None end
        | Some (ELink target) =>
            match links with
            | O => None
            | S links => match resolve links fs at_ target with Some at_ => go at_ p | None => None end
            end
        end
    end) at_ p.

Section DocCommand.
Context (cwd : RealPath).

Definition canonicalize (fs : Fs) (p : Path) : option RealPath := resolve MAX_LINKS fs cwd p.

(** The directory a path's last component is looked up in. *)
Definition parent_dir (fs : Fs) (parent : Path) : option RealPath :=
  match parent with [] => Some cwd | _ => canonicalize fs parent end.

(** The entry at a real path; the root is a directory. *)
Definition is_dir (fs : Fs) (p : RealPath) : bool :=
  match rev p with
  | [] => true
  | name :: d => match fs !! (rev d, name) with Some EDir => true | _ => false end
  end.

Definition names_dir (e : option Entry) : bool := match e with Some EDir => true | _ => false end.

(** [read_dir]. *)
Definition names_in (fs : Fs) (d : RealPath) : list str := omap (fun kv => if bool_decide (kv.1.1 = d) then Some kv.1.2 else None) (map_to_list fs).

(** [create_dir_all]: missing components are created from the top; [room] of
    them can be, before the host refuses one. *)
Fixpoint create_dir_all (room : nat) (fs : Fs) (at_ : RealPath) (p : Path) : bool * Fs :=
  match p with
  | [] => (true, fs)
  | RootDir :: p => create_dir_all room fs [] p
  | CurDir :: p => create_dir_all room fs at_ p
  | ParentDir :: p => create_dir_all room fs (default [] (real_parent at_)) p
  | Normal name :: p =>
      match fs !! (at_, name) with
      | Some EDir => create_dir_all room fs (at_ ++ [name]) p
      | Some (EFile _) => (false, fs)
      | Some (ELink target) =>
          match resolve MAX_LINKS fs at_ target with
          | Some d => if is_dir fs d then create_dir_all room fs d p else (false, fs)
          | None => (false, fs)
          end
      | None =>
          match room with
          | O => (false, fs)
          | S room => create_dir_all room (<[(at_, name) := EDir]> fs) (at_ ++ [name]) p
          end
      end
  end.

(** *** The guard *)

Inductive OutError :=
| OutDirUnreadable | OutNamesNoFile | OutParentUnreadable | OutReadDir | OutIsRecord | OutBecomesRecord.

(** [read_dir] of the records or one of its entries can fail. *)
Definition check_out_not_a_record (fs : Fs) (dir out : Path) (listing_fails : bool) : result unit OutError :=
  match canonicalize fs dir with
  | None => Err OutDirUnreadable
  | Some dir_real =>
  match split_file out with
  | None => Err OutNamesNoFile
  | Some (parent, name) =>
  match parent_dir fs parent with
  | None => Err OutParentUnreadable
  | Some parent_real =>
      let out_real := default (parent_real ++ [name]) (canonicalize fs out) in
      if listing_fails || negb (is_dir fs dir_real) then Err OutReadDir
      else if existsb (fun n => has_json_ext n && bool_decide (canonicalize fs (dir ++ [Normal n]) = Some out_real)) (names_in fs dir_real)
      then Err OutIsRecord
      else if real_is_json out_real && bool_decide (real_parent out_real = Some dir_real) then Err OutBecomesRecord
      else Ok tt
  end end end.

(** *** The write *)

Inductive WriteOutError := WoNamesNoFile | WoCreate | WoWrite | WoRename.

(** The host's answers: the process id and stamp in the temporary name, whether
    creating it, the write (after [wa_written] characters) and the rename fail,
    and whether a removal does. *)
Record WriteAnswers := { wa_pid : Z; wa_stamp : Z; wa_create_fails : bool; wa_write_fails : bool; wa_written : nat; wa_rename_fails : bool; wa_remove_fails : bool }.

Definition tmp_file (name : str) (a : WriteAnswers) : str := name ++ lit "." ++ dec (wa_pid a) ++ lit "." ++ dec (wa_stamp a) ++ lit ".tmp".

Definition write_atomically (fs : Fs) (out : Path) (body : str) (a : WriteAnswers) : result unit WriteOutError * Fs :=
  match split_file out with
  | None => (Err WoNamesNoFile, fs)
  | Some (parent, name) =>
      let tmp := tmp_file name a in
      match parent_dir fs parent with
      | None => (Err WoCreate, fs)
      | Some d =>
          if wa_create_fails a || negb (is_dir fs d) || bool_decide (is_Some (fs !! (d, tmp))) then (Err WoCreate, fs)
          else
            let cleaned text := if wa_remove_fails a then <[(d, tmp) := EFile (BText text)]> fs else fs in
            if wa_write_fails a then (Err WoWrite, cleaned (take (wa_written a) body))
            else if wa_rename_fails a || names_dir (fs !! (d, name)) then (Err WoRename, cleaned body)
            else (Ok tt, <[(d, name) := EFile (BText body)]> fs)
      end
  end.

(** *** The command *)

(** What [read_records] finds under a name: the record of a file, through
    links; anything else does not parse. *)
Definition record_at (fs : Fs) (dir : Path) (n : str) : option RunRecord :=
  match canonicalize fs (dir ++ [Normal n]) with
  | None => None
  | Some real =>
      match rev real with
      | [] => None
      | name :: d => match fs !! (rev d, name) with Some (EFile (BRecord r)) => Some r | _ => None end
      end
  end.

Definition record_files (fs : Fs) (dir : Path) : gmap str (option RunRecord) :=
  match canonicalize fs dir with
  | None => ∅
  | Some d => list_to_map ((fun n => (n, record_at fs dir n)) <$> names_in fs d)
  end.

Record DocAnswers := { da_room : nat; da_listing_fails : bool; da_faults : list (option FsErrorKind); da_write : WriteAnswers }.

Inductive DocCommandError :=
| DcOutDir | DcOut (e : OutError) | DcRead (e : MatrixError) | DcRender (e : DocError) | DcWrite (e : WriteOutError).

(** [None] is a panic of [render]. *)
Definition doc_command (fs : Fs) (dir out : Path) (smoke : bool) (a : DocAnswers) : option (result unit DocCommandError) * Fs :=
  let '(made, fs) := match path_parent out with
                     | None | Some [] => (true, fs)
                     | Some parent => create_dir_all (da_room a) fs cwd parent
                     end in
  if negb made then (Some (Err DcOutDir), fs)
  else match check_out_not_a_record fs dir out (da_listing_fails a) with
  | Err e => (Some (Err (DcOut e)), fs)
  | Ok _ =>
      match read_records {| files := record_files fs dir; scratch := ∅; faults := da_faults a; cancels := [] |} with
      | (Err e, _) => (Some (Err (DcRead e)), fs)
      | (Ok records, _) =>
          match render records smoke with
          | None => (None, fs)
          | Some (Err e) => (Some (Err (DcRender e)), fs)
          | Some (Ok body) =>
              let '(r, fs) := write_atomically fs out body (da_write a) in
              (Some (match r with Ok _ => Ok tt | Err e => Err (DcWrite e) end), fs)
          end
      end
  end.

Definition dispatch_doc (fs : Fs) (dir out : Path) (smoke : bool) (a : DocAnswers) : option Z * Fs :=
  let '(r, fs) := doc_command fs dir out smoke a in
  (match r with None => None | Some r => Some (exit_status r) end, fs).
End DocCommand.
