(* ===== verification/CliSpec.v ===== *)
(** * What the commands promise

    [doc_keeps_records]: [bench doc] never replaces a raw measurement, however
    its output path reaches the record directory, unless a parent of that path
    is itself named like a record.  [preflight_sound]: a session
    starts the matrix only after every check of its preflight passed, and a
    refused one touched no file and left no probe it does not tell of. *)

From S2P Require Import Prelude Text F64 Api Wire Recorder RunRecord Analysis Sorting Verdict Generator Pacer Matrix MatrixSafety Counter Runner Probe ProbeSpec Endpoint GenConn GenRun Doc DocSpec Cli.

(** ** Resolution *)

Lemma resolve_nil links fs at_ : resolve links fs at_ [] = Some at_.
Proof. by destruct links. Qed.

Lemma resolve_cons links fs at_ c p : resolve links fs at_ (c :: p) =
  match c with
  | RootDir => resolve links fs [] p
  | CurDir => resolve links fs at_ p
  | ParentDir => resolve links fs (default [] (real_parent at_)) p
  | Normal name =>
      match fs !! (at_, name) with
      | None => None
      | Some EDir => resolve links fs (at_ ++ [name]) p
      | Some (EFile _) => match p with [] => Some (at_ ++ [name]) | _ => None end
      | Some (ELink target) =>
          match links with
          | O => None
          | S l => match resolve l fs at_ target with Some d => resolve links fs d p | None => None end
          end
      end
  end.
Proof. by destruct links, c. Qed.

(** Adding entries keeps what resolves. *)
Lemma resolve_mono (fs fs' : Fs) : fs ⊆ fs' -> forall links p at_ r, resolve links fs at_ p = Some r -> resolve links fs' at_ p = Some r.
Proof.
  intros Hs. induction links as [|links IHl]; (induction p as [|c p IHp]; intros at_ r; [by rewrite !resolve_nil|]; rewrite !resolve_cons;
    destruct c as [| | |name]; [apply IHp..|]; destruct (fs !! (at_, name)) as [e|] eqn:E; [|done];
    rewrite (lookup_weaken _ _ _ _ E Hs); destruct e as [b| |target]; [done|apply IHp|]).
  - done.
  - destruct (resolve links fs at_ target) as [d|] eqn:Et; [|done]. rewrite (IHl _ _ _ Et). apply IHp.
Qed.

Lemma is_dir_snoc fs d name : is_dir fs (d ++ [name]) = names_dir (fs !! (d, name)).
Proof. unfold is_dir. rewrite rev_app_distr. cbn [rev app]. by rewrite rev_involutive. Qed.

(** The last component is looked up in the directory the rest resolves to. *)
Lemma resolve_child fs links name : forall p at_ d, resolve links fs at_ p = Some d -> is_dir fs d = true ->
  resolve links fs at_ (p ++ [Normal name]) = resolve links fs d [Normal name].
Proof.
  induction p as [|c p IHp]; intros at_ d; [rewrite resolve_nil; by intros [= ->]|].
  cbn [app]. rewrite !(resolve_cons _ _ _ c). destruct c as [| | |n]; [apply IHp..|].
  destruct (fs !! (at_, n)) as [[b| |target]|] eqn:E; [|apply IHp| |done].
  - destruct p; [|done]. intros [= <-]. rewrite is_dir_snoc, E. done.
  - destruct links as [|l]; [done|]. destruct (resolve l fs at_ target); [apply IHp|done].
Qed.

Section Doc.
Context (cwd : RealPath).

Lemma canonicalize_mono (fs fs' : Fs) p r : fs ⊆ fs' -> canonicalize cwd fs p = Some r -> canonicalize cwd fs' p = Some r.
Proof. intros Hs. by apply resolve_mono. Qed.

Lemma canonicalize_child fs p d name : parent_dir cwd fs p = Some d -> is_dir fs d = true ->
  canonicalize cwd fs (p ++ [Normal name]) = resolve MAX_LINKS fs d [Normal name].
Proof. unfold parent_dir, canonicalize. destruct p as [|c p]; [by intros [= ->]|]. apply resolve_child. Qed.

Lemma follow_exists fs links d name r : resolve links fs d [Normal name] = Some r -> is_Some (fs !! (d, name)).
Proof. rewrite resolve_cons. destruct (fs !! (d, name)); [by eexists|done]. Qed.

Lemma names_in_spec fs d n : n ∈ names_in fs d <-> is_Some (fs !! (d, n)).
Proof.
  unfold names_in. rewrite list_elem_of_omap. split.
  - intros ([[d' n'] e] & Hin & H). simpl in H. case_bool_decide; [|done]. injection H as <-. subst d'.
    apply elem_of_map_to_list in Hin. by eexists.
  - intros [e He]. exists ((d, n), e). split; [by apply elem_of_map_to_list|]. simpl. by rewrite bool_decide_eq_true_2.
Qed.

(** ** Making directories *)

Lemma create_dir_all_spec p : forall room fs at_ b fs', create_dir_all room fs at_ p = (b, fs') ->
  fs ⊆ fs' /\ forall k e, fs' !! k = Some e -> fs !! k = None -> e = EDir /\ Normal k.2 ∈ p.
Proof.
  induction p as [|c p IH]; intros room fs at_ b fs'; cbn [create_dir_all].
  { intros [= _ <-]. split; [done|]. intros k e H1 H2. congruence. }
  assert (Hskip : forall at_', create_dir_all room fs at_' p = (b, fs') ->
    fs ⊆ fs' /\ forall k e, fs' !! k = Some e -> fs !! k = None -> e = EDir /\ Normal k.2 ∈ c :: p).
  { intros at_' H. destruct (IH _ _ _ _ _ H) as [H1 H2]. split; [done|]. intros k e Hk Hn. destruct (H2 k e Hk Hn). split; [done|by right]. }
  assert (Hsame : (false, fs) = (b, fs') ->
    fs ⊆ fs' /\ forall k e, fs' !! k = Some e -> fs !! k = None -> e = EDir /\ Normal k.2 ∈ c :: p).
  { intros [= _ <-]. split; [done|]. intros k e H1 H2. congruence. }
  destruct c as [| | |name]; [by apply Hskip..|]. destruct (fs !! (at_, name)) as [[body| |target]|] eqn:E; [exact Hsame|by apply Hskip| |].
  - destruct (resolve _ _ _ _) as [d|]; [|exact Hsame]. destruct (is_dir fs d); [by apply Hskip|exact Hsame].
  - destruct room as [|room]; [exact Hsame|]. intros H. destruct (IH _ _ _ _ _ H) as [H1 H2]. split.
    + etransitivity; [|exact H1]. by apply insert_subseteq.
    + intros k e Hk Hn. destruct (decide (k = (at_, name))) as [->|Hne].
      * split; [|left]. assert (Hd : fs' !! (at_, name) = Some EDir) by (eapply lookup_weaken; [apply lookup_insert_eq|exact H1]). congruence.
      * destruct (H2 k e Hk); [by rewrite lookup_insert_ne by done|]. split; [done|by right].
Qed.

(** ** The guard *)

Definition entry_at (fs : Fs) (real : RealPath) : option Entry :=
  match rev real with [] => None | name :: d => fs !! (rev d, name) end.

Lemma entry_at_snoc fs d name : entry_at fs (d ++ [name]) = fs !! (d, name).
Proof. unfold entry_at. rewrite rev_app_distr. cbn [rev app]. by rewrite rev_involutive. Qed.

Lemma split_file_spec out parent name : split_file out = Some (parent, name) -> out = parent ++ [Normal name].
Proof.
  unfold split_file. destruct (rev out) as [|[| | |n] r] eqn:E; try done. intros [= <- <-].
  rewrite <- (rev_involutive out), E. done.
Qed.

(** The file the write creates is no record's, and no record's own file. *)
Lemma guard_sound fs dir out parent name dir_real pd fails :
  check_out_not_a_record cwd fs dir out fails = Ok tt -> split_file out = Some (parent, name) ->
  canonicalize cwd fs dir = Some dir_real -> parent_dir cwd fs parent = Some pd -> is_dir fs pd = true ->
  (has_json_ext name = true -> pd <> dir_real) /\
  (forall n, has_json_ext n = true -> canonicalize cwd fs (dir ++ [Normal n]) = Some (pd ++ [name]) ->
     is_Some (fs !! (dir_real, n)) -> names_dir (fs !! (pd, name)) = false ->
     exists t, fs !! (pd, name) = Some (ELink t)).
Proof.
  intros Hg Hs Hd Hp Hdir. pose proof (split_file_spec _ _ _ Hs) as Eout. unfold check_out_not_a_record in Hg. rewrite Hd, Hs, Hp in Hg.
  pose proof (canonicalize_child fs parent pd name Hp Hdir) as Hc. rewrite <- Eout in Hc.
  destruct fails; [done|]. destruct (is_dir fs dir_real) eqn:Ed; [|done]. cbn [orb negb] in Hg.
  set (out_real := default _ _) in Hg. destruct (existsb _ _) eqn:Ex; [done|]. apply existsb_all_false in Ex. rewrite Forall_forall in Ex.
  destruct (real_is_json out_real && _) eqn:Ej; [done|]. clear Hg. split.
  - intros Hj ->. destruct (canonicalize cwd fs out) as [o|] eqn:Eo.
    + assert (Hin : name ∈ names_in fs dir_real) by (apply names_in_spec; symmetry in Hc; by eapply follow_exists).
      specialize (Ex _ Hin). rewrite Hj in Ex. cbn [andb] in Ex. rewrite bool_decide_eq_false in Ex. apply Ex.
      assert (Hdp : parent_dir cwd fs dir = Some dir_real) by (unfold parent_dir; destruct dir; [rewrite <- Hd; unfold canonicalize; by rewrite resolve_nil|done]).
      rewrite (canonicalize_child fs dir dir_real name Hdp Ed), <- Hc. done.
    + cbn [default] in out_real. subst out_real. unfold real_is_json, real_parent in Ej. rewrite last_snoc, Hj, rev_app_distr in Ej.
      cbn [rev app andb] in Ej. rewrite rev_involutive, bool_decide_eq_false in Ej. done.
  - intros n Hj Hn [e He] Hnd. specialize (Ex n). rewrite Hj, Hn in Ex. cbn [andb] in Ex.
    assert (Hin : n ∈ names_in fs dir_real) by (apply names_in_spec; by eexists). specialize (Ex Hin). rewrite bool_decide_eq_false in Ex.
    destruct (fs !! (pd, name)) as [[b| |t]|] eqn:E; [|done|by eexists|].
    + destruct Ex. subst out_real. rewrite Hc, resolve_cons, E. done.
    + destruct Ex. subst out_real. rewrite Hc, resolve_cons, E. done.
Qed.

Lemma tmp_not_json name a : has_json_ext (tmp_file name a) = false.
Proof.
  unfold has_json_ext, tmp_file. rewrite !app_assoc, rev_app_distr. reflexivity.
Qed.

(** What the write does to the entries. *)
Lemma write_atomically_spec fs out body a r fs' : write_atomically cwd fs out body a = (r, fs') ->
  match r with
  | Ok _ => exists parent name d, split_file out = Some (parent, name) /\ parent_dir cwd fs parent = Some d /\ is_dir fs d = true /\
      names_dir (fs !! (d, name)) = false /\ fs' = <[(d, name) := EFile (BText body)]> fs
  | Err _ => fs ⊆ fs' /\ forall d n, has_json_ext n = true -> fs' !! (d, n) = fs !! (d, n)
  end.
Proof.
  unfold write_atomically. destruct (split_file out) as [[parent name]|]; [|intros H; apply pair_eq in H as [<- <-]; done].
  destruct (parent_dir cwd fs parent) as [d|] eqn:Ed; [|intros H; apply pair_eq in H as [<- <-]; done].
  destruct (wa_create_fails a || _ || _) eqn:Ec; [intros H; apply pair_eq in H as [<- <-]; done|].
  apply orb_false_iff in Ec as [Ec Et]. apply orb_false_iff in Ec as [_ Edir]. rewrite negb_false_iff in Edir.
  rewrite bool_decide_eq_false in Et. apply eq_None_not_Some in Et.
  assert (Hclean : forall text, fs ⊆ (if wa_remove_fails a then <[(d, tmp_file name a) := EFile (BText text)]> fs else fs) /\
    forall d' n, has_json_ext n = true ->
      (if wa_remove_fails a then <[(d, tmp_file name a) := EFile (BText text)]> fs else fs) !! (d', n) = fs !! (d', n)).
  { intros text. destruct (wa_remove_fails a); [|done]. split; [by apply insert_subseteq|]. intros d' n Hj.
    apply lookup_insert_ne. intros [= _ <-]. by rewrite tmp_not_json in Hj. }
  destruct (wa_write_fails a); [intros H; apply pair_eq in H as [<- <-]; apply Hclean|].
  destruct (wa_rename_fails a || names_dir (fs !! (d, name))) eqn:Er; [intros H; apply pair_eq in H as [<- <-]; apply Hclean|].
  apply orb_false_iff in Er as [_ Er]. intros H. apply pair_eq in H as [<- <-]. by exists parent, name, d.
Qed.

(** The directories the command creates are not named like records. *)
Definition plain_parents (out : Path) : Prop := forall n, Normal n ∈ default [] (path_parent out) -> has_json_ext n = false.

(** What preparing the output adds: directories on the way to it. *)
Definition only_dirs_made (out : Path) (fs fs1 : Fs) : Prop :=
  fs ⊆ fs1 /\ forall k e, fs1 !! k = Some e -> fs !! k = None -> e = EDir /\ Normal k.2 ∈ default [] (path_parent out).

Lemma made_keeps fs fs1 room out dir_real b :
  plain_parents out ->
  match path_parent out with None | Some [] => (true, fs) | Some parent => create_dir_all room fs cwd parent end = (b, fs1) ->
  only_dirs_made out fs fs1 /\ forall n, has_json_ext n = true -> fs1 !! (dir_real, n) = fs !! (dir_real, n).
Proof.
  intros Hp H. assert (Hmade : only_dirs_made out fs fs1).
  { destruct (path_parent out) as [[|c parent]|] eqn:Eo; [| |]; unfold only_dirs_made; rewrite Eo;
      [|apply create_dir_all_spec in H as [H1 H2]; by split|]; apply pair_eq in H as [_ <-]; (split; [done|]); intros k e Hk Hn; congruence. }
  split; [done|]. destruct Hmade as [Hm Hn]. intros n Hj. destruct (fs1 !! (dir_real, n)) as [e|] eqn:E.
  - destruct (fs !! (dir_real, n)) as [e'|] eqn:E'; [|by rewrite (Hp n) in Hj by exact (proj2 (Hn _ _ E E'))].
    rewrite (lookup_weaken _ _ _ _ E' Hm) in E. congruence.
  - symmetry. destruct (fs !! (dir_real, n)) as [e'|] eqn:E'; [|done]. rewrite (lookup_weaken _ _ _ _ E' Hm) in E. congruence.
Qed.

Lemma record_at_file fs dir n r : record_at cwd fs dir n = Some r ->
  exists real, canonicalize cwd fs (dir ++ [Normal n]) = Some real /\ entry_at fs real = Some (EFile (BRecord r)).
Proof.
  unfold record_at, entry_at. destruct (canonicalize _ _ _) as [real|]; [|done]. exists real. split; [done|].
  destruct (rev real) as [|name d]; [done|]. destruct (fs !! (rev d, name)) as [[[]| |]|]; congruence.
Qed.

(** What the document command leaves. *)
Record doc_outcome (fs : Fs) (dir out : Path) (smoke : bool) (a : DocAnswers) (d : RealPath) (code : option Z) (fs' : Fs) : Prop := {
  dk_entries : forall n, has_json_ext n = true -> fs' !! (d, n) = fs !! (d, n);
  dk_records : forall n r, has_json_ext n = true -> is_Some (fs !! (d, n)) -> record_at cwd fs dir n = Some r ->
    exists real, canonicalize cwd fs (dir ++ [Normal n]) = Some real /\ entry_at fs' real = Some (EFile (BRecord r));
  dk_failed : code <> Some 0 -> fs ⊆ fs';
  dk_written : code = Some 0 -> exists parent name pd body records fs1 w,
    out = parent ++ [Normal name] /\ (if decide (parent = []) then pd = cwd else canonicalize cwd fs1 parent = Some pd) /\
    is_dir fs1 pd = true /\ render records smoke = Some (Ok body) /\
    read_records {| files := record_files cwd fs1 dir; scratch := ∅; faults := da_faults a; cancels := [] |} = (Ok records, w) /\
    only_dirs_made out fs fs1 /\ fs' = <[(pd, name) := EFile (BText body)]> fs1
}.

(** (C32) [bench doc] destroys no raw measurement.  As long as no parent
    component of the output path is itself named like a record ([plain_parents];
    [doc_json_parent] shows what happens otherwise), and however that path
    reaches the record directory, by [..], by a relative path or through
    symbolic links, and whatever the host refuses on the way: the entries of
    the directory that are named like records are what they were, and the file
    each record is read from still holds it; a command that does not exit with
    success has replaced nothing; and one that does has made directories on the
    way to the output and replaced exactly the output, in the directory its
    parent resolves to, with the document rendered from the records. *)
Theorem doc_keeps_records fs dir out smoke a d code fs' :
  canonicalize cwd fs dir = Some d -> plain_parents out -> dispatch_doc cwd fs dir out smoke a = (code, fs') ->
  doc_outcome fs dir out smoke a d code fs'.
Proof.
  intros Hd Hp. unfold dispatch_doc, doc_command.
  destruct (match path_parent out with None | Some [] => (true, fs) | Some parent => create_dir_all (da_room a) fs cwd parent end) as [b fs1] eqn:Em.
  destruct (made_keeps _ _ _ _ d _ Hp Em) as [Hmade Hjson]. clear Em. pose proof (proj1 Hmade) as Hsub.
  assert (Hkeep : forall n r fs2, fs1 ⊆ fs2 -> has_json_ext n = true -> record_at cwd fs dir n = Some r ->
    exists real, canonicalize cwd fs (dir ++ [Normal n]) = Some real /\ entry_at fs2 real = Some (EFile (BRecord r))).
  { intros n r fs2 Hs2 _ Hr. destruct (record_at_file _ _ _ _ Hr) as (real & Hc & He). exists real. split; [done|].
    unfold entry_at in *. destruct (rev real); [done|]. eapply lookup_weaken; [exact He|]. by etransitivity. }
  assert (Hfail : forall fs2 c, fs1 ⊆ fs2 -> (forall n, has_json_ext n = true -> fs2 !! (d, n) = fs1 !! (d, n)) -> c <> Some 0 ->
    (c, fs2) = (code, fs') -> doc_outcome fs dir out smoke a d code fs').
  { intros fs2 c H1 H2 Hc E. apply pair_eq in E as [<- <-]. split; [|by eauto|by intros _; etransitivity|by intros].
    intros n Hj. by rewrite H2, Hjson. }
  destruct b; cbn [negb]; [|by apply Hfail]. destruct (check_out_not_a_record cwd fs1 dir out (da_listing_fails a)) as [[]|e] eqn:Eg; [|by apply Hfail].
  destruct (read_records _) as [[records|e] w] eqn:Er; [|by apply Hfail].
  destruct (render records smoke) as [[body|e]|] eqn:Eb; [|by apply Hfail..].
  destruct (write_atomically cwd fs1 out body (da_write a)) as [r fs2] eqn:Ew. apply write_atomically_spec in Ew.
  destruct r as [[]|e]; [|destruct Ew as [H1 H2]; apply Hfail; auto; done].
  destruct Ew as (parent & name & pd & Hs & Hpd & Hdir & Hnd & ->). intros E. apply pair_eq in E as [<- <-].
  pose proof (canonicalize_mono _ _ _ _ Hsub Hd) as Hd1.
  destruct (guard_sound _ _ _ _ _ _ _ _ Eg Hs Hd1 Hpd Hdir) as [G1 G2]. split; [| |done|].
  - intros n Hj. rewrite lookup_insert_ne, Hjson; [done|done|]. intros [= -> ->]. by apply G1.
  - intros n r Hj Hin Hr. destruct (record_at_file _ _ _ _ Hr) as (real & Hc & He). exists real. split; [done|].
    unfold entry_at in *. destruct (rev real) as [|rn rd] eqn:Ereal; [done|].
    assert (He1 : fs1 !! (rev rd, rn) = Some (EFile (BRecord r))) by (eapply lookup_weaken; [exact He|done]).
    destruct (decide ((pd, name) = (rev rd, rn))) as [Ek|Ek]; [|by rewrite lookup_insert_ne].
    injection Ek as -> ->. destruct (G2 n Hj) as [t Ht]; [| |done|congruence].
    + apply (canonicalize_mono _ _ _ _ Hsub) in Hc. rewrite Hc. f_equal. rewrite <- (rev_involutive real), Ereal. done.
    + destruct Hin as [e He']. exists e. by eapply lookup_weaken.
  - intros _. exists parent, name, pd, body, records, fs1, w. split_and!; try done; [by apply split_file_spec|].
    unfold parent_dir in Hpd. destruct parent; case_decide; congruence.
Qed.
End Doc.

(** A record directory reached through a link, and a document written beside it. *)
Module SampleDocCommand.
Definition record : RunRecord := SampleDocument.run (connections_config 1 Uring) 1.
Definition file : str := file_name record.
Definition fs : Fs :=
  <[([], lit "data") := EDir]> (<[([lit "data"], file) := EFile (BRecord record)]> (<[([], lit "link") := ELink [RootDir; Normal (lit "data")]]> ∅)).
Definition dir : Path := [RootDir; Normal (lit "link")].
Definition answers : DocAnswers :=
  {| da_room := 1; da_listing_fails := false; da_faults := [];
     da_write := {| wa_pid := 7; wa_stamp := 9; wa_create_fails := false; wa_write_fails := false; wa_written := 0;
                    wa_rename_fails := false; wa_remove_fails := false |} |}.
Definition out : Path := [RootDir; Normal (lit "docs"); Normal (lit "BENCHMARKS.md")].
End SampleDocCommand.

(** The same record named through a new directory and [..]: refused. *)
Example doc_refuses_record :
  (dispatch_doc [] SampleDocCommand.fs SampleDocCommand.dir
    [RootDir; Normal (lit "data"); Normal (lit "new"); ParentDir; Normal SampleDocCommand.file] true SampleDocCommand.answers).1 = Some 1.
Proof. vm_compute. reflexivity. Qed.

(** A created parent named like a record stays in the record directory, and
    from then on the records do not read. *)
Example doc_json_parent :
  let r := dispatch_doc [] SampleDocCommand.fs SampleDocCommand.dir
    [RootDir; Normal (lit "link"); Normal (lit "x.json"); Normal (lit "doc.md")] true SampleDocCommand.answers in
  (r.1, names_dir (r.2 !! ([lit "data"], lit "x.json")),
   (dispatch_doc [] r.2 SampleDocCommand.dir SampleDocCommand.out true SampleDocCommand.answers).1) = (Some 1, true, Some 1).
Proof. vm_compute. reflexivity. Qed.

Lemma doc_keeps_records_witness :
  exists fs', dispatch_doc [] SampleDocCommand.fs SampleDocCommand.dir SampleDocCommand.out true SampleDocCommand.answers = (Some 0, fs') /\
    doc_outcome [] SampleDocCommand.fs SampleDocCommand.dir SampleDocCommand.out true SampleDocCommand.answers [lit "data"] (Some 0) fs'.
Proof.
  destruct (dispatch_doc [] SampleDocCommand.fs SampleDocCommand.dir SampleDocCommand.out true SampleDocCommand.answers) as [code fs'] eqn:E.
  assert (Hc : (dispatch_doc [] SampleDocCommand.fs SampleDocCommand.dir SampleDocCommand.out true SampleDocCommand.answers).1 = Some 0) by (vm_compute; reflexivity).
  rewrite E in Hc. cbn [fst] in Hc. subst code. exists fs'. split; [reflexivity|].
  apply (doc_keeps_records [] SampleDocCommand.fs SampleDocCommand.dir SampleDocCommand.out true SampleDocCommand.answers [lit "data"] (Some 0) fs').
  - vm_compute. reflexivity.
  - intros n Hn. apply elem_of_cons in Hn as [Hn|Hn]; [discriminate Hn|]. apply list_elem_of_singleton in Hn. injection Hn as ->. reflexivity.
  - exact E.
Defined.

(** ** The preflight of a session *)

Section Session.
Context (from_utf8 : list Z -> option str) (run : HostSetup -> RunSpec -> World -> RunRecord * World).
Abbreviation first_line stdout := (first_line from_utf8 (split_inclusive (take GIT_HEAD_STDOUT_BYTES_MAX stdout))).

Definition notice_text (n : Notice) : str := match n with NText e => e | _ => [] end.

(** *** The request *)

(** A request the matrix can run, stated of its lists and flags. *)
Record acceptable (spec : MatrixSpec) (syscalls : SyscallMethod) (perf_bin strace_bin mosquitto_bin : option str) : Prop := {
  ac_distinct : NoDup (m_servers spec) /\ NoDup (m_workers spec) /\ NoDup (m_qos spec);
  ac_domains : Forall (fun q => q <= 1) (m_qos spec) /\ Forall (fun n => n <> 0) (m_workers spec);
  ac_runs : exists n s, n ∈ m_workers spec /\ s ∈ m_servers spec /\ (s = Mosquitto -> n = 1);
  ac_counter : match syscalls with
    | Perf => is_Some perf_bin /\ strace_bin = None
    | Strace => perf_bin = None /\ is_Some strace_bin
    | NoMethod => perf_bin = None /\ strace_bin = None
    end;
  ac_recorded : m_profile spec = Recorded -> syscalls <> NoMethod /\ is_Some mosquitto_bin /\
    m_servers spec = [Uring; Tokio; Mosquitto] /\ m_workers spec = [1; 4] /\ m_qos spec = [1; 0]
}.

(** The output directory: a fresh session finds none or one without records,
    a resumed one finds a record. *)
Definition out_ready (resume : bool) (w : World) : Prop :=
  let has_record := exists stem, stem <> [] /\ is_Some (files w !! (stem ++ lit ".json")) in
  match head (faults w) with
  | Some (Some NotFound) => resume = false
  | Some (Some _) => False
  | _ => if resume then has_record else ~ has_record
  end.

Lemma check_distinct_nodup {A} `{EqDecision A} label (values : list A) : forall before,
  check_distinct_from label before values = Ok tt -> NoDup values /\ forall v, v ∈ values -> v ∉ before.
Proof.
  induction values as [|v values IH]; intros before; cbn [check_distinct_from].
  { intros _. split; [constructor|]. intros v Hv. by apply not_elem_of_nil in Hv. }
  case_bool_decide as Hv; [done|]. intros H. destruct (IH _ H) as [H1 H2]. split.
  - constructor; [|done]. intros Hin. apply (H2 v Hin). apply elem_of_app. right. by apply list_elem_of_singleton.
  - intros x [->|Hx]%elem_of_cons; [done|]. intros Hb. apply (H2 x Hx), elem_of_app. by left.
Qed.

Lemma forallb_some_false {A} (p : A -> bool) l : forallb p l = false -> exists x, x ∈ l /\ p x = false.
Proof.
  induction l as [|x l IH]; [done|]. simpl. destruct (p x) eqn:E; [|exists x; split; [left|done]].
  intros H. destruct (IH H) as (y & Hy & Hp). exists y. split; [by right|done].
Qed.

Lemma has_json_ext_spec n : has_json_ext n = true <-> exists stem, stem <> [] /\ n = stem ++ lit ".json".
Proof.
  unfold has_json_ext. split.
  - destruct (strip_prefix _ _) as [[|c stem]|] eqn:E; [done| |done]. intros _. apply strip_prefix_Some in E.
    exists (rev (c :: stem)). split; [intros Hn; apply (f_equal (@length Z)) in Hn; by rewrite length_rev in Hn|].
    rewrite <- (rev_involutive n), E, rev_app_distr. by rewrite rev_involutive.
  - intros (stem & Hs & ->). rewrite rev_app_distr, (proj2 (strip_prefix_Some _ _ (rev stem)) eq_refl). destruct (rev stem) eqn:E; [|done].
    destruct Hs. by rewrite <- (rev_involutive stem), E.
Qed.

Lemma list_out_ready resume w listing w1 : list_out w = (listing, w1) ->
  (if negb resume then out_dir_has_json listing = Ok false else out_dir_has_json listing = Ok true) -> out_ready resume w.
Proof.
  unfold list_out, next_fault, out_ready. intros Hl Ho.
  assert (Hnames : listing = Ok ((map_to_list (files w)).*1) ->
    if resume then exists stem, stem <> [] /\ is_Some (files w !! (stem ++ lit ".json"))
    else ~ exists stem, stem <> [] /\ is_Some (files w !! (stem ++ lit ".json"))).
  { intros ->. cbn [out_dir_has_json] in Ho. destruct resume; cbn [negb] in Ho; injection Ho as Ho.
    - apply existsb_exists in Ho as (n & Hin & Hj). apply has_json_ext_spec in Hj as (stem & Hs & ->).
      apply list_elem_of_In, list_elem_of_fmap in Hin as ([k v] & Hk & Hin). apply elem_of_map_to_list in Hin. simpl in Hk. subst k.
      exists stem. split; [done|by eexists].
    - intros (stem & Hs & v & Hv). apply existsb_all_false in Ho. rewrite Forall_forall in Ho.
      specialize (Ho (stem ++ lit ".json")). rewrite (proj2 (has_json_ext_spec _)) in Ho by eauto. discriminate Ho.
      apply list_elem_of_fmap. exists (stem ++ lit ".json", v). split; [done|by apply elem_of_map_to_list]. }
  destruct (faults w) as [|[e|] fs]; cbn [head]; apply pair_eq in Hl as [<- _]; [by apply Hnames| |by apply Hnames].
  destruct resume, e; done.
Qed.

Lemma check_request_spec spec syscalls perf_bin strace_bin mosquitto_bin listing :
  check_request spec syscalls perf_bin strace_bin mosquitto_bin listing = Ok tt ->
  acceptable spec syscalls perf_bin strace_bin mosquitto_bin /\
  (if negb (m_resume spec) then out_dir_has_json listing = Ok false else out_dir_has_json listing = Ok true).
Proof.
  unfold check_request.
  destruct (check_distinct (lit "servers") _) as [[]|] eqn:E1; [|done]. destruct (check_distinct (lit "workers") _) as [[]|] eqn:E2; [|done].
  destruct (check_distinct (lit "qos") _) as [[]|] eqn:E3; [|done]. destruct (check_domains spec) as [[]|] eqn:E4; [|done].
  destruct (check_runnable spec) as [[]|] eqn:E5; [|done]. destruct (check_counter_bin _ _ _) as [[]|] eqn:E6; [|done].
  destruct (check_recorded _ _ _) as [[]|] eqn:E7; [|done]. destruct (out_dir_has_json listing) as [b|] eqn:E8; [|done].
  cbn. intros Hb. split; [|destruct (m_resume spec), b; done].
  apply check_distinct_nodup in E1 as [E1 _], E2 as [E2 _], E3 as [E3 _]. split; [done| | | |].
  - unfold check_domains in E4. destruct (List.find _ _) eqn:Ef; [done|]. case_bool_decide as Hz; [done|]. split.
    + apply Forall_forall. intros q Hq. apply list_elem_of_In in Hq. pose proof (List.find_none _ _ Ef _ Hq) as Hle. simpl in Hle. lia.
    + apply Forall_forall. by intros n Hn ->.
  - unfold check_runnable in E5. destruct (forallb _ _) eqn:Ef; [done|]. apply forallb_some_false in Ef as (n & Hn & Hs).
    destruct (servers_for n (m_servers spec)) as [|s l] eqn:El; [done|]. exists n, s. unfold servers_for in El.
    assert (Hin : In s (s :: l)) by (by left). rewrite <- El in Hin. destruct (Z.eqb_spec n 1) as [->|Hne].
    + split_and!; [done|by apply list_elem_of_In|done].
    + apply List.filter_In in Hin as [Hin Hm]. split_and!; [done|by apply list_elem_of_In|]. by intros ->.
  - unfold check_counter_bin in E6. destruct perf_bin, strace_bin, syscalls; simpl in *; try done; by eauto.
  - intros Hp. unfold check_recorded in E7. rewrite Hp in E7. repeat case_bool_decide; try done.
    split_and!; try done. destruct mosquitto_bin; [by eexists|done].
Qed.

(** A session that was refused: one line, no file touched, and every probe
    reaped save possibly the last, which the line accounts for. *)
Record refused_quietly (w : World) (s : SessionEnd) : Prop := {
  rq_code : se_code s = 1;
  rq_world : quiet w (se_world s);
  rq_notice : exists n, se_notices s = [n] /\ left_named (notice_text n) (se_probes s)
}.

(** What stands behind a session that reached the matrix with [host]. *)
Record cleared (u : RunArgs) (a : SessionAnswers) (w : World) (host : HostSetup) (s : SessionEnd) : Prop := {
  cl_request : acceptable (matrix_spec u) (u_syscalls u) (u_perf_bin u) (u_strace_bin u) (u_mosquitto_bin u);
  cl_out : out_ready (u_resume u) w;
  cl_handler : ss_handler a = None;
  cl_provenance : u_profile u = Recorded -> git_dirty (h_env host) = false /\
    (exists stdout, pa_stdout (ss_git a).1 = Some stdout /\ first_line stdout = Some (git_sha (h_env host))) /\
    exists p, p ∈ (ss_git a).2 /\ reports_success p;
  cl_build : git_sha (h_env host) = ev_build_sha (ss_env a) /\
    git_dirty (h_env host) = negb (bool_decide (ev_build_dirty (ss_env a) = lit "false"));
  cl_tools : (tools (h_env host)).*1 = u_tools u /\
    forall k path v, tools (h_env host) !! k = Some (path, v) ->
      exists stdout, pa_stdout (ev_probe (ss_env a) k).1 = Some stdout /\ first_line stdout = Some v;
  cl_probes : all_reaped (se_probes s);
  cl_resume : u_resume u = true -> exists w1 w2 existing, quiet w w1 /\ read_records w1 = (Ok existing, w2) /\
    check_resume (ss_proc a) existing (u_profile u) (u_syscalls u) (h_env host) (h_cpu_sets host) = Ok tt;
  cl_matrix : exists w1, quiet w w1 /\
    match run_matrix_with (run host) (ss_proc a) (matrix_spec u) host w1 with
    | (Ok outcome, w2) => se_world s = w2 /\ se_code s = exit_code outcome /\ se_notices s = [NOutcome outcome]
    | (Err e, w2) => se_world s = w2 /\ se_code s = 1 /\ se_notices s = [NMatrix e]
    end
}.

Lemma provenance_spec u a r tr : provenance from_utf8 u a = (r, tr) ->
  match r with
  | Ok _ => all_reaped tr /\ (u_profile u = Recorded -> ev_build_dirty (ss_env a) = lit "false" /\
      (exists stdout, pa_stdout (ss_git a).1 = Some stdout /\ first_line stdout = Some (ev_build_sha (ss_env a))) /\
      exists p, p ∈ (ss_git a).2 /\ reports_success p)
  | Err e => left_named e tr
  end.
Proof.
  unfold provenance. destruct (u_profile u); [|intros [= <- <-]; split; [apply all_reaped_nil|done]].
  destruct (head_sha from_utf8 _ _) as [[sha|e] ev] eqn:E; apply head_sha_spec in E as [E1 E2]; intros H; apply pair_eq in H as [<- <-].
  - destruct (E2 sha eq_refl) as ([id Hid] & Hl & Hp). apply all_reaped_one in Hid. unfold check_provenance.
    case_bool_decide as Ed; cbn [negb]; [|by apply reaped_named]. case_bool_decide as Es; cbn [negb]; [|by apply reaped_named].
    split; [done|]. intros _. subst sha. done.
  - by apply (accounted_named (A := str)).
Qed.

Lemma refused_ok w w' n tr : quiet w w' -> left_named (notice_text n) tr -> refused_quietly w (refused n tr w').
Proof. intros Hq Hn. split; [done|done|]. by exists n. Qed.

Lemma list_out_quiet w l w' : list_out w = (l, w') -> quiet w w'.
Proof. unfold list_out. fault E. destruct f; intros H; apply pair_eq in H as [_ <-]; done. Qed.

Lemma resume_check_spec u a host w o w' : resume_check u a host w = (o, w') -> quiet w w' /\
  (o = None -> u_resume u = true -> exists existing w2, read_records w = (Ok existing, w2) /\
     check_resume (ss_proc a) existing (u_profile u) (h_syscalls host) (h_env host) (h_cpu_sets host) = Ok tt).
Proof.
  unfold resume_check. destruct (u_resume u); [|intros [= <- <-]; split; [done|by intros]].
  pose proof (read_records_quiet w) as Hq. destruct (read_records w) as [[existing|e] w1]; simpl in Hq; intros H; apply pair_eq in H as [<- <-];
    (split; [done|]); [|done]. destruct (check_resume _ _ _ _ _ _) as [[]|e] eqn:E; [|done]. intros _ _. by exists existing, w1.
Qed.

Lemma refusal_without_text n tr : all_reaped tr -> left_named (notice_text n) tr.
Proof. apply reaped_named. Qed.

(** A session either reaches the matrix with everything cleared, or is refused. *)
Lemma dispatch_outcome u a w :
  let s := dispatch_run from_utf8 run u a w in
  match se_host s with
  | None => refused_quietly w s
  | Some host => cleared u a w host s
  end.
Proof.
  unfold dispatch_run. cbv zeta. destruct (list_out w) as [listing w1] eqn:Elist. pose proof (list_out_quiet _ _ _ Elist) as El.
  destruct (check_request _ _ _ _ _ listing) as [[]|e] eqn:Er; [|apply refused_ok; [done|apply refusal_without_text, all_reaped_nil]].
  destruct (ss_handler a) eqn:Eh; [apply refused_ok; [done|apply reaped_named, all_reaped_nil]|].
  destruct (provenance from_utf8 u a) as [[[]|e] git] eqn:Ep; apply provenance_spec in Ep; [|by apply refused_ok].
  destruct Ep as [Hgit Hprov]. destruct (ss_exe a) as [exe|e]; [|apply refused_ok; [done|by apply reaped_named]].
  destruct (capture_env from_utf8 (u_tools u) (ss_env a)) as [[env|e] ver] eqn:Ev; apply capture_env_spec in Ev;
    [|apply refused_ok; [done|by apply named_app]].
  destruct Ev as (Hver & Hsha & Hdirty & Htools & Hlines). pose proof (all_reaped_app _ _ Hgit Hver) as Hall.
  destruct (resume_check u a (host_setup u exe env) w1) as [o w2] eqn:Ec. apply resume_check_spec in Ec as [Hq2 Hres].
  assert (Hq : quiet w w2) by (etransitivity; [exact El|done]). destruct o as [n|]; [apply refused_ok; [done|by apply refusal_without_text]|].
  pose proof (load_cancel_quiet w2) as Hq3. destruct (load_cancel w2) as [[[]|e] w3]; simpl in Hq3;
    [apply refused_ok; [by etransitivity|by apply reaped_named]| |apply refused_ok; [by etransitivity|by apply reaped_named]].
  assert (Hw : quiet w w3) by (by etransitivity). set (host := host_setup u exe env) in *.
  assert (Hhost : se_host (start_matrix run u a host (git ++ ver) w3) = Some host) by (unfold start_matrix; by destruct (run_matrix_with _ _ _ _ _) as [[]]).
  apply check_request_spec in Er as [Hacc Hout].
  assert (Hm : m_resume (matrix_spec u) = u_resume u) by (unfold matrix_spec; by destruct (u_profile u)). rewrite Hm in Hout.
  pose proof (list_out_ready (u_resume u) _ _ _ Elist Hout) as Hready.
  rewrite Hhost. split; [done|done|done| |done|done| | |].
  - intros Hp. destruct (Hprov Hp) as (Hd & Hl & Hs). change (h_env host) with env. rewrite Hsha, Hdirty, bool_decide_eq_true_2 by done. done.
  - unfold start_matrix. by destruct (run_matrix_with _ _ _ _ _) as [[]].
  - intros Hr. destruct (Hres eq_refl Hr) as (existing & w' & H1 & H2). by exists w1, w', existing.
  - exists w3. split; [done|]. unfold start_matrix. by destruct (run_matrix_with _ _ _ _ _) as [[]].
Qed.
End Session.

(** A recorded session whose probes answer reaches the matrix. *)
Module SampleSession.
Definition ascii (bytes : list Z) : option str := Some bytes.
Definition reaped : ProbeEnd := {| pe_group := None; pe_pid := None; pe_polls := [EcAlive; EcStatus (Signaled 9)]; pe_reaper := None |}.
Definition probe (id : Z) (stdout : str) : ProbeAnswers :=
  {| pa_start := {| sa_thread := None; sa_polls := [SpTimeout; SpStarted (Ok id)]; sa_last := LrEmpty |}; pa_stdout := Some stdout;
     pa_failed := None; pa_reader := None; pa_end := reaped |}.
Definition git : ProbeAnswers * list HeadPoll :=
  (probe 100 (lit "abc" ++ [10]),
   [{| hp_cancelled := false; hp_exit := EcAlive; hp_ready := true |};
    {| hp_cancelled := false; hp_exit := EcStatus (Exited 0); hp_ready := false |}]).
Definition tool (k : nat) : ProbeAnswers * list VersionPoll :=
  (probe (101 + Z.of_nat k) ([10] ++ lit "tool 1" ++ [10]), [{| vp_cancelled := false; vp_ready := true |}]).
Definition args : RunArgs :=
  {| u_profile := Recorded; u_out := lit "/out"; u_servers := None; u_workers := None; u_qos := None; u_syscalls := Perf;
     u_perf_bin := Some (lit "/perf"); u_strace_bin := None; u_mosquitto_bin := Some (lit "/mosquitto"); u_server_cpus := None;
     u_generator_cpus := None; u_resume := false |}.
Definition answers (dirty : str) : SessionAnswers :=
  {| ss_handler := None; ss_git := git; ss_exe := Ok (lit "/bench");
     ss_env := {| ev_osrelease := Ok (lit "6.6"); ev_hostname := Ok (lit "h"); ev_cpuinfo := None; ev_probe := tool;
                  ev_build_sha := lit "abc"; ev_build_dirty := dirty |};
     ss_proc := fun _ => Ok None |}.
Definition world : World := {| files := ∅; scratch := ∅; faults := []; cancels := [] |}.
Definition session (dirty : str) : SessionEnd :=
  dispatch_run ascii (fun _ spec w => (build_minimal_record spec, w)) args (answers dirty) world.
End SampleSession.

Example preflight_clean :
  (tools <$> (h_env <$> se_host (SampleSession.session (lit "false")))) =
    Some [(lit "/perf", lit "tool 1"); (lit "/mosquitto", lit "tool 1")].
Proof. vm_compute. reflexivity. Qed.

Example preflight_dirty :
  (se_code (SampleSession.session (lit "unknown")), se_probes (SampleSession.session (lit "unknown"))) =
    (1, [PStart 100; PKillGroup 100; PKill 100; PReap 100]).
Proof. vm_compute. reflexivity. Qed.
