(* ===== verification/Build.v ===== *)
(** * Where a binary says it was built from

    bench/build.rs: the two bounded [git] probes of a build and the values it
    compiles into the binary.  [recorded_provenance] is the way from there to a
    recorded session: the session reaches the matrix only when the build saw a
    clean tree, at the commit the session records.  Loops that poll until a
    deadline take the list of their polls; the end of the list is the deadline. *)

From S2P Require Import Prelude Text F64 Api Wire Recorder RunRecord Analysis Sorting Verdict Generator Pacer Matrix MatrixSafety Counter Runner Probe ProbeSpec Endpoint GenConn GenRun Doc DocSpec Cli CliSpec.
From Stdlib Require Import Ascii.
#[local] Open Scope matrix_scope.

Definition GIT_PROBE_TIMEOUT_SECS : Z := 5.
Definition GIT_PROBE_STDOUT_BYTES_MAX : Z := Z.shiftl 1 20.

(** What is done to a probe's process. *)
Inductive BuildEvent := BuStarted | BuKilled | BuReaped.

(** [abandon]: a kill, whose refusal is ignored, and the turns of the bounded
    reap. *)
Fixpoint abandon_polls (polls : list ExitCheck) : list BuildEvent :=
  match polls with
  | [] | EcError _ :: _ => []
  | EcStatus _ :: _ => [BuReaped]
  | EcAlive :: polls => abandon_polls polls
  end.
Definition abandon (polls : list ExitCheck) : list BuildEvent := BuKilled :: abandon_polls polls.

(** What the host answers to one probe: whether the starting and the reading
    thread start, what the start hands over before the deadline, whether a
    command starts after that and is left to the starting thread, the turns of
    the exit check, whether time is left after them, what the reader hands over
    in that time, whether the deadline has passed by then, and the reap of an
    abandoned command. *)
Record BuildAnswers := {
  bu_starter : bool; bu_started : option (result unit str); bu_late : bool; bu_reader : bool; bu_polls : list ExitCheck; bu_time_left : bool;
  bu_stdout : option (result (list Z) str); bu_past_deadline : bool; bu_reap : list ExitCheck
}.

(** The turns of the exit check. *)
Fixpoint exit_polls (polls : list ExitCheck) : option ExitStatus :=
  match polls with
  | [] | EcError _ :: _ => None
  | EcStatus status :: _ => Some status
  | EcAlive :: polls => exit_polls polls
  end.

Definition succeeded (status : ExitStatus) : bool := match status with Exited code => code =? 0 | Signaled _ => false end.

Definition bounded_stdout (a : BuildAnswers) : option (list Z) * list BuildEvent :=
  if negb (bu_starter a) then (None, [])
  else match bu_started a with
  | None => (None, if bu_late a then BuStarted :: abandon (bu_reap a) else [])
  | Some (Err _) => (None, [])
  | Some (Ok _) =>
      if negb (bu_reader a) then (None, BuStarted :: abandon (bu_reap a))
      else match exit_polls (bu_polls a) with
      | None => (None, BuStarted :: abandon (bu_reap a))
      | Some status =>
          if negb (succeeded status) then (None, [BuStarted; BuReaped])
          else if negb (bu_time_left a) then (None, [BuStarted; BuReaped])
          else match bu_stdout a with
          | None | Some (Err _) => (None, [BuStarted; BuReaped])
          | Some (Ok stdout) =>
              let kept := take (Z.to_nat (GIT_PROBE_STDOUT_BYTES_MAX + 1)) stdout in
              if bu_past_deadline a then (None, [BuStarted; BuReaped])
              else (if Z.of_nat (length kept) <=? GIT_PROBE_STDOUT_BYTES_MAX then Some kept else None, [BuStarted; BuReaped])
          end
      end
  end.

(** The command line of a probe, run in the parent directory. *)
Definition git (args : list str) : list str := [lit "git"; lit "--no-optional-locks"] ++ args.

Record Build := { b_head : BuildAnswers; b_status : BuildAnswers }.

Section Main.
Context (from_utf8 : list Z -> option str).

Definition build_short (b : Build) : option str :=
  match (bounded_stdout (b_head b)).1 with
  | None => None
  | Some stdout => match from_utf8 stdout with Some s => Some (trim s) | None => None end
  end.

(** [BENCH_SOURCE_SHA] and [BENCH_SOURCE_DIRTY]. *)
Definition build_sha (b : Build) : str := default (lit "unknown") (build_short b).
Definition build_dirty (b : Build) : str :=
  match (bounded_stdout (b_status b)).1 with
  | Some [] => lit "false"
  | Some _ => lit "true"
  | None => lit "unknown"
  end.

(** The directives before those that name what to watch. *)
Definition build_lines (b : Build) : list str :=
  let gave_up what var :=
    lit "cargo:warning=" ++ what ++ lit " failed or gave up after " ++ dec GIT_PROBE_TIMEOUT_SECS ++ lit "s; " ++ var
    ++ lit "=unknown until bench/build.rs is touched and bench rebuilt" in
  (if bool_decide (build_short b = None) then [gave_up (lit "git rev-parse --short HEAD") (lit "BENCH_SOURCE_SHA")] else [])
  ++ [lit "cargo:rustc-env=BENCH_SOURCE_SHA=" ++ build_sha b]
  ++ (if bool_decide (build_dirty b = lit "unknown") then [gave_up (lit "git status --porcelain") (lit "BENCH_SOURCE_DIRTY")] else [])
  ++ [lit "cargo:rustc-env=BENCH_SOURCE_DIRTY=" ++ build_dirty b].
End Main.

(** ** What a probe proves *)

(** A command that started, exited with success after [n] turns before the
    deadline, and whose whole stdout was read in time. *)
Record probed (a : BuildAnswers) (stdout : list Z) : Prop := {
  pb_threads : bu_starter a = true /\ bu_started a = Some (Ok tt) /\ bu_reader a = true;
  pb_exit : exists n rest, bu_polls a = replicate n EcAlive ++ EcStatus (Exited 0) :: rest;
  pb_in_time : bu_time_left a = true /\ bu_past_deadline a = false;
  pb_stdout : bu_stdout a = Some (Ok stdout) /\ Z.of_nat (length stdout) <= GIT_PROBE_STDOUT_BYTES_MAX
}.

Lemma exit_polls_spec polls status : exit_polls polls = Some status <-> exists n rest, polls = replicate n EcAlive ++ EcStatus status :: rest.
Proof.
  split.
  - induction polls as [|[|s|e] polls IH]; cbn [exit_polls]; try done.
    + intros (n & rest & ->)%IH. by exists (S n), rest.
    + intros [= <-]. by exists 0%nat, polls.
  - intros (n & rest & ->). by induction n.
Qed.

Lemma kept_whole (stdout : list Z) (cap := GIT_PROBE_STDOUT_BYTES_MAX) :
  Z.of_nat (length (take (Z.to_nat (cap + 1)) stdout)) <= cap <-> Z.of_nat (length stdout) <= cap.
Proof. assert (0 <= cap) by done. clearbody cap. rewrite length_take. lia. Qed.

Lemma bounded_stdout_spec a stdout : (bounded_stdout a).1 = Some stdout <-> probed a stdout.
Proof.
  assert (Hcap : 0 <= GIT_PROBE_STDOUT_BYTES_MAX) by done. pose proof kept_whole as Hk. cbv zeta in Hk. unfold bounded_stdout.
  split.
  - destruct (bu_starter a) eqn:E1; [|done]. destruct (bu_started a) as [[[]|e]|] eqn:E2; try done. destruct (bu_reader a) eqn:E3; [|done].
    cbn [negb]. destruct (exit_polls (bu_polls a)) as [status|] eqn:E4; [|done]. destruct status as [code|signal]; [|done]. cbn [succeeded].
    destruct (Z.eqb_spec code 0) as [->|]; [|done].
    apply exit_polls_spec in E4. destruct (bu_time_left a) eqn:E6; [|done]. destruct (bu_stdout a) as [[out|e]|] eqn:E7; try done.
    destruct (bu_past_deadline a) eqn:E8; [done|]. cbn [negb fst]. destruct (Z.leb_spec (Z.of_nat (length (take (Z.to_nat (GIT_PROBE_STDOUT_BYTES_MAX + 1)) out))) GIT_PROBE_STDOUT_BYTES_MAX) as [Hle|]; [|done].
    intros H. apply (inj Some) in H. apply (proj1 (Hk out)) in Hle. rewrite take_ge in H by lia. subst out. split; auto.
  - intros [(-> & -> & ->) Hx [-> ->] [-> Hl]]. apply exit_polls_spec in Hx. rewrite Hx. cbn [negb succeeded Z.eqb fst].
    rewrite (proj2 (Z.leb_le _ _)) by (by apply Hk). by rewrite take_ge by lia.
Qed.

(** A command that started was seen to exit or was killed. *)
Lemma bounded_stdout_ends a : BuStarted ∈ (bounded_stdout a).2 -> BuKilled ∈ (bounded_stdout a).2 \/ exists status, exit_polls (bu_polls a) = Some status.
Proof.
  unfold bounded_stdout, abandon. repeat case_match; simpl; try (intros Hx; by apply not_elem_of_nil in Hx); intros _; try (by right; eexists);
    left; right; left.
Qed.

(** (C28) The provenance of a recorded session, from the build to the matrix.  If
    a binary carries what its build compiled in, a recorded session of it
    reaches the matrix only when [git status] of the build printed nothing,
    exited with success and answered in time, and the commit it records is the
    whole first line of the session's own [git]; and that commit is what [git
    rev-parse] printed to the build, unless both say [unknown].  A probe that
    failed, was cut off or gave up never passes for a clean tree. *)
Theorem recorded_provenance from_utf8 run b u a w host :
  ev_build_sha (ss_env a) = build_sha from_utf8 b -> ev_build_dirty (ss_env a) = build_dirty b -> u_profile u = Recorded ->
  se_host (dispatch_run from_utf8 run u a w) = Some host ->
  probed (b_status b) [] /\ git_dirty (h_env host) = false /\
  (exists stdout, pa_stdout (ss_git a).1 = Some stdout /\
     first_line from_utf8 (split_inclusive (take GIT_HEAD_STDOUT_BYTES_MAX stdout)) = Some (git_sha (h_env host))) /\
  (git_sha (h_env host) <> lit "unknown" ->
     exists stdout text, probed (b_head b) stdout /\ from_utf8 stdout = Some text /\ git_sha (h_env host) = trim text).
Proof.
  intros Hsha Hdirty Hp Hh. pose proof (dispatch_outcome from_utf8 run u a w) as H. cbv zeta in H. rewrite Hh in H.
  destruct (cl_build _ _ _ _ _ _ _ H) as [Es Ed]. destruct (cl_provenance _ _ _ _ _ _ _ H Hp) as (Hclean & Hline & _). rewrite Es, Ed, Hsha, Hdirty in *.
  split; [|split; [done|split; [done|]]].
  - apply bounded_stdout_spec. apply negb_false_iff, bool_decide_eq_true in Hclean. unfold build_dirty in Hclean.
    destruct (bounded_stdout (b_status b)).1 as [[|c l]|]; [done|by vm_compute in Hclean..].
  - unfold build_sha, build_short. intros Hu. destruct (bounded_stdout (b_head b)).1 as [stdout|] eqn:E; [|done].
    destruct (from_utf8 stdout) as [text|] eqn:Et; [|done]. exists stdout, text. split; [by apply bounded_stdout_spec|done].
Qed.

(** A clean build, and the recorded session of [SampleSession]. *)
Module SampleBuild.
Definition answered (stdout : str) : BuildAnswers :=
  {| bu_starter := true; bu_started := Some (Ok tt); bu_late := false; bu_reader := true; bu_polls := [EcAlive; EcStatus (Exited 0)]; bu_time_left := true;
     bu_stdout := Some (Ok stdout); bu_past_deadline := false; bu_reap := [] |}.
(** [git status] outlives its deadline and is killed. *)
Definition gave_up : BuildAnswers :=
  {| bu_starter := true; bu_started := Some (Ok tt); bu_late := false; bu_reader := true; bu_polls := [EcAlive]; bu_time_left := false;
     bu_stdout := None; bu_past_deadline := true; bu_reap := [EcAlive; EcStatus (Signaled 9)] |}.
Definition build : Build := {| b_head := answered (lit "abc" ++ [10]); b_status := answered [] |}.
Definition stuck : Build := {| b_head := answered (lit "abc" ++ [10]); b_status := gave_up |}.

Example stuck_unknown : (build_dirty stuck, (bounded_stdout gave_up).2) = (lit "unknown", [BuStarted; BuKilled; BuReaped]).
Proof. reflexivity. Qed.
End SampleBuild.

Lemma recorded_provenance_witness :
  exists host, se_host (SampleSession.session (build_dirty SampleBuild.build)) = Some host /\
    probed (b_status SampleBuild.build) [] /\ git_sha (h_env host) = lit "abc".
Proof.
  destruct (se_host (SampleSession.session (build_dirty SampleBuild.build))) as [host|] eqn:E.
  - exists host. split; [reflexivity|].
    assert (Hs : ev_build_sha (ss_env (SampleSession.answers (build_dirty SampleBuild.build))) = build_sha SampleSession.ascii SampleBuild.build)
      by (vm_compute; reflexivity).
    destruct (recorded_provenance SampleSession.ascii _ SampleBuild.build SampleSession.args (SampleSession.answers (build_dirty SampleBuild.build)) _ host Hs eq_refl eq_refl E)
      as (H & _). split; [exact H|].
    assert (Hg : (git_sha <$> (h_env <$> se_host (SampleSession.session (build_dirty SampleBuild.build)))) = Some (lit "abc")) by (vm_compute; reflexivity).
    rewrite E in Hg. by apply (inj Some) in Hg.
  - exfalso. assert (Hn : (match se_host (SampleSession.session (build_dirty SampleBuild.build)) with Some _ => true | None => false end) = true) by (vm_compute; reflexivity).
    rewrite E in Hn. discriminate.
Defined.
