(* ===== verification/MatrixRounds.v ===== *)
(** * The run loop of the matrix

    The search for a free attempt number and the rounds of
    bench/src/matrix.rs [run_configs_with_stop] end on their own, and what the
    loop answers is backed by records on disk: a configuration it passes has an
    attempt that passed, one it fails has as many failed attempts as its budget
    allowed. *)

From S2P Require Import Prelude Text F64 Api Wire Recorder Generator Pacer RunRecord Analysis Sorting Verdict Matrix MatrixSafety.
#[local] Open Scope matrix_scope.

(** ** Free attempt numbers *)

Definition present (w : World) (x : str + str) : Prop :=
  match x with inl name => is_Some (files w !! name) | inr dir => dir ∈ scratch w end.

(** The paths of one repetition: a record, a temporary record, a directory. *)
Definition run_paths (spec : RunSpec) : list (str + str) :=
  [inl (stem_for spec ++ lit ".json"); inl (stem_for spec ++ lit ".json.tmp"); inr (stem_for spec)].

Definition occupied (w : World) (spec : RunSpec) (reps : Z) : Prop :=
  exists rep x, 1 <= rep <= reps /\ x ∈ run_paths (with_repetition spec rep) /\ present w x.

(** The numbers of a specification are unsigned. *)
Record spec_wf (spec : RunSpec) : Prop := {
  sw_workers : 0 <= sp_workers spec; sw_qos : opt_nonneg (sp_qos spec); sw_rate : opt_nonneg (sp_offered_rate spec)
}.

Lemma spec_name_wf spec : spec_wf spec -> 0 <= sp_attempt spec -> 0 <= sp_repetition spec -> name_wf (build_minimal_record spec).
Proof. intros [? ? ?] ? ?. by constructor. Qed.

Lemma json_not_tmp a b : a ++ lit ".json" <> b ++ lit ".json.tmp".
Proof.
  intros E. apply (f_equal (fun l => head (rev l))) in E. rewrite !rev_app_distr in E. by vm_compute in E.
Qed.

(** A path belongs to one run. *)
Lemma run_paths_inj s s' x : name_wf (build_minimal_record s) -> name_wf (build_minimal_record s') ->
  x ∈ run_paths s -> x ∈ run_paths s' ->
  key_of s = key_of s' /\ sp_attempt s = sp_attempt s' /\ sp_repetition s = sp_repetition s'.
Proof.
  intros W W' H H'.
  enough (stem_for s = stem_for s') as E.
  { apply (f_equal (fun l => l ++ lit ".json")) in E. rewrite !stem_for_json in E by done. by apply file_name_cancel in E. }
  unfold run_paths in *. rewrite !elem_of_cons, elem_of_nil in H, H'.
  destruct H as [->|[->|[->|[]]]], H' as [E|[E|[E|[]]]]; simplify_eq.
  - by apply app_inv_tail in E.
  - by apply json_not_tmp in E.
  - symmetry in E. by apply json_not_tmp in E.
  - by apply app_inv_tail in E.
  - done.
Qed.

(** As many distinct numbers as are found in a finite set of paths. *)
Lemma pigeonhole {X} `{Countable X} (R : X -> Z -> Prop) (D : gset X) (a : Z) (n : nat) :
  (forall x i j, R x i -> R x j -> i = j) ->
  (forall i, (i < n)%nat -> exists x, x ∈ D /\ R x (a + Z.of_nat i)) -> (n <= size D)%nat.
Proof.
  intros Hf Hn.
  enough (exists l : list X, NoDup l /\ length l = n /\ forall x, x ∈ l -> x ∈ D /\ exists i, (i < n)%nat /\ R x (a + Z.of_nat i))
    as (l & Hnd & <- & Hl).
  { rewrite <- (size_list_to_set (C := gset X)) by done. apply subseteq_size. intros x. rewrite elem_of_list_to_set. apply Hl. }
  induction n as [|n IH]; [by exists []; split_and!; [apply NoDup_nil_2|done|intros ? ?%elem_of_nil]|].
  destruct IH as (l & Hnd & Hlen & Hl); [intros i Hi; apply Hn; lia|].
  destruct (Hn n) as (x & Hx & Rx); [lia|]. exists (x :: l). split; [|split; [simpl; lia|]].
  - constructor; [|done]. intros Hin. apply Hl in Hin as [_ (i & Hi & Ri)]. specialize (Hf _ _ _ Rx Ri). lia.
  - intros y [->|Hy]%elem_of_cons; [eauto|]. apply Hl in Hy as (? & i & ? & ?). split; [done|]. exists i. split; [lia|done].
Qed.

Definition all_paths (w : World) : gset (str + str) := set_map inl (dom (files w)) ∪ set_map inr (scratch w).

Lemma all_paths_present w x : present w x -> x ∈ all_paths w.
Proof.
  unfold all_paths. destruct x as [name|dir]; simpl; intros H; apply elem_of_union; [left|right]; apply elem_of_map;
    eexists; (split; [done|]); [by apply elem_of_dom|done].
Qed.

Lemma size_map_inj {X Y} `{Countable X, Countable Y} (f : X -> Y) `{!Inj (=) (=) f} (D : gset X) :
  size (set_map f D : gset Y) = size D.
Proof.
  unfold set_map. rewrite size_list_to_set by (by apply NoDup_fmap_2, NoDup_elements). by rewrite length_fmap.
Qed.

Lemma all_paths_size w : (size (all_paths w) <= size (files w) + size (scratch w))%nat.
Proof.
  unfold all_paths. rewrite size_union.
  - rewrite !size_map_inj by (apply _). by rewrite size_dom.
  - intros x. rewrite !elem_of_map. intros (? & -> & _) (? & ? & _). done.
Qed.

Lemma with_attempt_wf spec a : spec_wf spec -> spec_wf (with_attempt spec a).
Proof. intros [? ? ?]. by constructor. Qed.

(** Not every attempt of a long enough range is in use. *)
Lemma occupied_bound w spec reps n : spec_wf spec -> 0 <= sp_attempt spec ->
  (forall i, (i < n)%nat -> occupied w (with_attempt spec (sp_attempt spec + Z.of_nat i)) reps) ->
  (n <= size (files w) + size (scratch w))%nat.
Proof.
  intros Hw Ha Ho. etransitivity; [|apply all_paths_size].
  apply (pigeonhole (fun x a => 0 <= a /\ exists rep, 1 <= rep /\ x ∈ run_paths (with_repetition (with_attempt spec a) rep))
           _ (sp_attempt spec)).
  - intros x i j (? & r1 & ? & H1) (? & r2 & ? & H2).
    assert (W : forall a rep, 0 <= a -> 1 <= rep -> name_wf (build_minimal_record (with_repetition (with_attempt spec a) rep))).
    { intros a rep ? ?. apply spec_name_wf; simpl; [by destruct Hw|lia|lia]. }
    by destruct (run_paths_inj _ _ _ (W i r1 ltac:(done) ltac:(done)) (W j r2 ltac:(done) ltac:(done)) H1 H2) as (_ & ? & _).
  - intros i Hi. destruct (Ho i Hi) as (rep & x & Hr & Hx & Hp). exists x. split; [by apply all_paths_present|].
    split; [lia|]. exists rep. split; [lia|done].
Qed.

(** Elements with distinct keys are told apart by them. *)
Lemma nodup_key {A B} (f : A -> B) l x y : NoDup (f <$> l) -> x ∈ l -> y ∈ l -> f x = f y -> x = y.
Proof.
  intros Hnd Hx Hy E. apply list_elem_of_lookup in Hx as [i Hi], Hy as [j Hj]. assert (i = j) as ->; [|congruence].
  eapply NoDup_lookup; [exact Hnd|rewrite list_lookup_fmap, Hi; done|]. rewrite list_lookup_fmap, Hj. simpl. congruence.
Qed.

(** ** Answers of effects *)

Lemma mbind_ok {A B} (c : Mx A) (k : A -> Mx B) w b w' : mbind c k w = (Ok b, w') ->
  exists a w1, c w = (Ok a, w1) /\ k a w1 = (Ok b, w').
Proof. unfold mbind. destruct (c w) as [[a|e] w1]; [eauto|done]. Qed.

Lemma moves_eq {A} (R : World -> World -> Prop) (c : Mx A) w r w' : moves R c -> c w = (r, w') -> R w w'.
Proof. intros H E. specialize (H w). by rewrite E in H. Qed.

Ltac bind_ok H :=
  let a := fresh "a" in let w := fresh "w" in let E := fresh "E" in
  apply mbind_ok in H as (a & w & E & H).

Lemma quiet_present w w' x : quiet w w' -> present w' x <-> present w x.
Proof. intros [F S]. destruct x; simpl; by rewrite ?F, ?S. Qed.

Lemma inspect_present path (x : str + str) p w b w' : inspect path p w = (Ok b, w') ->
  (forall v, p v = true -> present v x) -> quiet w w' /\ (b = true -> present w x).
Proof.
  intros E Hp. pose proof (moves_eq _ _ _ _ _ (inspect_quiet path p) E) as Q. split; [done|].
  revert E. unfold inspect. fault E. destruct f as [[]|]; intros [= <- <-]; try done.
  intros ?%Hp. by apply (quiet_present w v).
Qed.

Lemma attempt_in_use_from_occupied spec l w p w' : attempt_in_use_from spec l w = (Ok (Some p), w') ->
  exists rep x, rep ∈ l /\ x ∈ run_paths (with_repetition spec rep) /\ present w x.
Proof.
  revert w. induction l as [|rep l IH]; intros w H; simpl in H; [done|].
  set (stem := stem_for (with_repetition spec rep)) in *.
  assert (Hf : forall name v, in_out_dir name v = true -> present v (inl name)) by (intros name v ?%bool_decide_eq_true; done).
  assert (Hs : forall name v, in_scratch name v = true -> present v (inr name)) by (intros name v ?%bool_decide_eq_true; done).
  bind_ok H. apply (inspect_present _ (inl (stem ++ lit ".json"))) in E as [Q Hb]; [|apply Hf]. destruct a.
  { exists rep. eexists. split_and!; [left|left|by apply Hb]. }
  bind_ok H. apply (inspect_present _ (inl (stem ++ lit ".json.tmp"))) in E as [Q1 Hb1]; [|apply Hf]. destruct a.
  { exists rep. eexists. split_and!; [left|right; left|by apply (quiet_present w w0), Hb1]. }
  bind_ok H. apply (inspect_present _ (inr stem)) in E as [Q2 Hb2]; [|apply Hs]. destruct a.
  { exists rep. eexists. split_and!; [left|right; right; left|]. apply (quiet_present w w0), (quiet_present w0 w1); [done..|by apply Hb2]. }
  apply IH in H as (r & x & Hr & Hx & Hp). exists r, x. split_and!; [by right|done|].
  by apply (quiet_present w w0), (quiet_present w0 w1), (quiet_present w1 w2).
Qed.

Lemma attempt_in_use_occupied spec reps w p w' : attempt_in_use spec reps w = (Ok (Some p), w') -> occupied w spec reps.
Proof.
  intros (rep & x & Hr & Hx & Hp)%attempt_in_use_from_occupied. exists rep, x. apply elem_of_seqZ in Hr. split_and!; [lia..|done|done].
Qed.

Lemma quiet_occupied w w' spec reps : quiet w w' -> occupied w' spec reps -> occupied w spec reps.
Proof. intros Q (rep & x & Hr & Hx & Hp). exists rep, x. split_and!; [lia..|done|]. by apply (quiet_present w w'). Qed.

(** An effect never answers [OutOfFuel]. *)
Definition total {A} (c : Mx A) : Prop := forall w w', c w <> (Err OutOfFuel, w').

Lemma total_ret {A} (a : A) : total (mret a).
Proof. by intros w w'. Qed.
Lemma total_fail {A} e : e <> OutOfFuel -> total (@mfail A e).
Proof. intros H w w' [= ? _]. done. Qed.
Lemma total_bind {A B} (c : Mx A) (k : A -> Mx B) : total c -> (forall a, total (k a)) -> total (mbind c k).
Proof. intros Hc Hk w w' H. unfold mbind in H. destruct (c w) as [[a|e] w1] eqn:E; [by apply Hk in H|]. simplify_eq. by apply Hc in E. Qed.
Lemma total_io what : total (io_step what).
Proof. intros w w'. unfold io_step. by destruct (next_fault w) as [[]]. Qed.
Lemma total_load : total load_cancel.
Proof. intros w w'. unfold load_cancel. by destruct (cancels w). Qed.
Lemma total_inspect path p : total (inspect path p).
Proof. intros w w'. unfold inspect. by destruct (next_fault w) as [[[]|]]. Qed.

Create HintDb total.
#[export] Hint Resolve total_ret total_io total_load total_inspect : total.
#[export] Hint Extern 1 (total (mfail _)) => (apply total_fail; discriminate) : total.

Ltac total_step :=
  match goal with
  | |- total (mbind _ _) => apply total_bind; [|intros ?]
  | |- total (let '(_, _) := ?p in _) => destruct p
  | |- total (match ?x with _ => _ end) => destruct x
  | |- total _ => solve [eauto with total]
  end.

Lemma total_attempt_in_use spec reps : total (attempt_in_use spec reps).
Proof. unfold attempt_in_use. induction (seqZ 1 reps) as [|rep l IH]; simpl; repeat total_step. Qed.

Lemma total_read_entries l : total (read_entries l).
Proof. induction l as [|[name body] l IH]; simpl; unfold read_one; repeat total_step. Qed.
#[export] Hint Resolve total_attempt_in_use total_read_entries : total.

Lemma total_read_records : total read_records.
Proof.
  intros w. unfold read_records. apply (total_bind (io_step (lit "read dir")) (fun _ => read_entries (map_to_list (files w)))); auto with total.
Qed.
#[export] Hint Resolve total_read_records : total.

(** What the search answers: a free attempt from the first one on, or that the
    last attempt number is in use. *)
Lemma free_attempt_from_spec fuel reps : forall spec w r w', sp_attempt spec < 2 ^ 32 ->
  free_attempt_from fuel spec reps w = (r, w') ->
  match r with
  | Ok (Some found) => exists a, sp_attempt spec <= a < 2 ^ 32 /\ found = with_attempt spec a
  | Ok None => occupied w (with_attempt spec (2 ^ 32 - 1)) reps
  | Err OutOfFuel => forall i, (i < fuel)%nat -> occupied w (with_attempt spec (sp_attempt spec + Z.of_nat i)) reps
  | Err _ => True
  end.
Proof.
  induction fuel as [|fuel IH]; intros spec w r w' Ha; cbn [free_attempt_from]; [intros [= <- <-] i Hi; lia|].
  unfold mbind. destruct (attempt_in_use spec reps w) as [[used|e] w1] eqn:E.
  2:{ intros [= <- <-]. destruct e; try done. by apply total_attempt_in_use in E. }
  assert (Hself : with_attempt spec (sp_attempt spec) = spec) by (by destruct spec).
  pose proof (moves_eq _ _ _ _ _ (attempt_in_use_quiet spec reps) E) as Q.
  destruct used as [p|]; [|intros [= <- <-]; exists (sp_attempt spec); by rewrite Hself].
  apply attempt_in_use_occupied in E as O. case_match eqn:El; zbool.
  - intros H. apply IH in H; [|done]. destruct r as [[found|]|[]]; try done.
    + destruct H as (a & Hle & ->). simpl in Hle. exists a. split; [lia|done].
    + by apply (quiet_occupied w w1).
    + intros [|i] Hi; [by rewrite Z.add_0_r, Hself|].
      replace (sp_attempt spec + Z.of_nat (S i)) with (sp_attempt spec + 1 + Z.of_nat i) by lia.
      apply (quiet_occupied w w1); [done|]. apply (H i). lia.
  - intros [= <- <-]. replace (2 ^ 32 - 1) with (sp_attempt spec) by lia. by rewrite Hself.
Qed.

Lemma free_attempt_spec spec reps w r w' : spec_wf spec -> 0 <= sp_attempt spec < 2 ^ 32 ->
  free_attempt spec reps w = (r, w') ->
  match r with
  | Ok (Some found) => exists a, sp_attempt spec <= a < 2 ^ 32 /\ found = with_attempt spec a
  | Ok None => occupied w (with_attempt spec (2 ^ 32 - 1)) reps
  | Err OutOfFuel => False
  | Err _ => True
  end.
Proof.
  intros Hw Ha H. apply free_attempt_from_spec in H; [|lia]. destruct r as [[found|]|[]]; try done.
  apply occupied_bound in H; [lia|done|lia].
Qed.

(** ** The specifications of a round *)

Definition last_number : Z := 2 ^ 32 - 1.

(** The last attempt number of the configuration is in use. *)
Definition numbers_spent (w : World) (reps : Z) (k : ConfigKey) : Prop :=
  exists spec, key_of spec = k /\ sp_attempt spec = last_number /\ occupied w spec reps.

(** The templates of a session, and the attempt numbers of its configurations. *)
Definition templates_ok (specs : gmap ConfigKey RunSpec) : Prop :=
  forall k s, specs !! k = Some s -> key_of s = k /\ spec_wf s.
Definition numbered (specs : gmap ConfigKey RunSpec) (next : gmap ConfigKey Z) (k : ConfigKey) : Prop :=
  is_Some (specs !! k) /\ exists a, next !! k = Some a /\ 1 <= a < 2 ^ 32.

(** What the search does to one configuration: it is active at an attempt from
    its number on, or it is idle with its budget spent. *)
Definition activated (active : list RunSpec) (next left next' left' : gmap ConfigKey Z) (k : ConfigKey) : Prop :=
  exists s a, s ∈ active /\ key_of s = k /\ 0 < default 0 (left !! k) /\ left' !! k = left !! k /\
    next !! k = Some a /\ next' !! k = Some (sp_attempt s) /\ a <= sp_attempt s < 2 ^ 32.
Definition idle (w : World) (reps : Z) (active : list RunSpec) (next left next' left' : gmap ConfigKey Z) (k : ConfigKey) : Prop :=
  (k ∉ key_of <$> active) /\ next' !! k = next !! k /\
  ((left' !! k = left !! k /\ default 0 (left !! k) = 0) \/
   (left' !! k = Some 0 /\ 0 < default 0 (left !! k) /\ numbers_spent w reps k)).

Section Rounds.
Context (run : RunSpec -> World -> RunRecord * World) `{!Executor run}
        (stop : ConfigKey -> Mx (option (ConfigKey * Exhaustion)))
        (stop_quiet : forall k, moves quiet (stop k)) (stop_total : forall k, total (stop k))
        (constants : ProtocolConstants) (reps_pos : 1 <= repetitions constants).
Let reps := repetitions constants.

Lemma numbers_spent_quiet w w' k : quiet w w' -> numbers_spent w' reps k -> numbers_spent w reps k.
Proof. intros Q (s & ? & ? & O). exists s. split_and!; [done|done|]. by apply (quiet_occupied w w'). Qed.

(** What the search answers for the configurations [keys]. *)
Record searched (w : World) (keys : list ConfigKey) (next left : gmap ConfigKey Z)
    (active : list RunSpec) (next' left' : gmap ConfigKey Z) : Prop := {
  sr_nodup : NoDup (key_of <$> active);
  sr_active : forall s, s ∈ active -> key_of s ∈ keys /\ spec_wf s;
  sr_keys : forall k, k ∈ keys -> activated active next left next' left' k \/ idle w reps active next left next' left' k;
  sr_other : forall k, k ∉ keys -> next' !! k = next !! k /\ left' !! k = left !! k
}.

Lemma searched_inactive w keys next left active next' left' k : searched w keys next left active next' left' ->
  k ∉ keys -> k ∉ (key_of <$> active).
Proof. intros [_ Ha _ _] Hn (s & -> & Hin)%list_elem_of_fmap. by apply Ha in Hin as [? _]. Qed.

(** The answer for a key depends on its own entries, and on the active
    specifications with its key. *)
Lemma searched_key w v k next left next1 left1 active active' next' left' :
  quiet w v -> next1 !! k = next !! k -> left1 !! k = left !! k ->
  (forall s, s ∈ active -> s ∈ active') -> (forall s, s ∈ active' -> s ∈ active \/ key_of s <> k) ->
  activated active next1 left1 next' left' k \/ idle v reps active next1 left1 next' left' k ->
  activated active' next left next' left' k \/ idle w reps active' next left next' left' k.
Proof.
  intros Q En El Hsub Hsup [(s & a & ? & ? & ? & ? & ? & ? & ?)|(Hni & Hn & Hi)].
  - left. exists s, a. rewrite <- El, <- En. split_and!; auto; lia.
  - right. unfold idle. rewrite <- El, <- En. split_and!; [|done|].
    + intros (s & -> & Hin)%list_elem_of_fmap. apply Hsup in Hin as [Hin|E]; [|congruence]. apply Hni, list_elem_of_fmap. eauto.
    + destruct Hi as [?|(? & ? & ?)]; [by left|right]. split_and!; [done|done|]. by apply (numbers_spent_quiet w v).
Qed.

Lemma searched_skip w k keys next left active next' left' : k ∉ keys -> default 0 (left !! k) = 0 ->
  searched w keys next left active next' left' -> searched w (k :: keys) next left active next' left'.
Proof.
  intros Hnk E0 R. pose proof (searched_inactive _ _ _ _ _ _ _ _ R Hnk). destruct R as [Hnd Ha Hact Hrest]. constructor; [done| | |].
  - intros s Hin. apply Ha in Hin as [? ?]. split; [by right|done].
  - intros k' [->|Hk']%elem_of_cons; [|by apply Hact]. right. unfold idle. destruct (Hrest k Hnk) as [-> ->]. split_and!; [done|done|by left].
  - intros k' Hn. apply Hrest. intros ?. apply Hn. by right.
Qed.

Lemma searched_active w v k keys next left s a active next' left' : quiet w v -> k ∉ keys -> key_of s = k -> spec_wf s ->
  0 < default 0 (left !! k) -> next !! k = Some a -> a <= sp_attempt s < 2 ^ 32 ->
  searched v keys (<[k := sp_attempt s]> next) left active next' left' ->
  searched w (k :: keys) next left (s :: active) next' left'.
Proof.
  intros Q Hnk <- Hws Hp En Hr R. pose proof (searched_inactive _ _ _ _ _ _ _ _ R Hnk). destruct R as [Hnd Ha Hact Hrest].
  constructor.
  - simpl. by apply NoDup_cons.
  - intros s' [->|Hin]%elem_of_cons; [split; [by left|done]|]. apply Ha in Hin as [? ?]. split; [by right|done].
  - intros k' [->|Hk']%elem_of_cons.
    + left. destruct (Hrest (key_of s) Hnk) as [E1 E2]. rewrite lookup_insert_eq in E1. exists s, a. split_and!; [by left|done|done|done|done|done|lia|lia].
    + assert (Hne : key_of s <> k') by (by intros <-).
      apply (searched_key w v _ next left (<[key_of s := sp_attempt s]> next) left active); try done.
      * by apply lookup_insert_ne.
      * intros s' ?. by right.
      * intros s' [->|?]%elem_of_cons; [by right|by left].
      * by apply Hact.
  - intros k' Hn. rewrite not_elem_of_cons in Hn. destruct Hn as [Hne Hn]. apply Hrest in Hn as [-> ->]. by rewrite lookup_insert_ne.
Qed.

Lemma searched_spent w v k keys next left active next' left' : quiet w v -> k ∉ keys ->
  0 < default 0 (left !! k) -> numbers_spent w reps k ->
  searched v keys next (<[k := 0]> left) active next' left' ->
  searched w (k :: keys) next left active next' left'.
Proof.
  intros Q Hnk Hp Hs R. pose proof (searched_inactive _ _ _ _ _ _ _ _ R Hnk). destruct R as [Hnd Ha Hact Hrest].
  constructor; [done| | |].
  - intros s Hin. apply Ha in Hin as [? ?]. split; [by right|done].
  - intros k' [->|Hk']%elem_of_cons.
    + right. destruct (Hrest k Hnk) as [E1 E2]. rewrite lookup_insert_eq in E2. split_and!; [done|done|by right].
    + assert (Hne : k <> k') by (by intros <-).
      apply (searched_key w v _ next left next (<[k := 0]> left) active); try done; [by apply lookup_insert_ne|by left|by apply Hact].
  - intros k' Hn. rewrite not_elem_of_cons in Hn. destruct Hn as [Hne Hn]. apply Hrest in Hn as [-> ->]. by rewrite lookup_insert_ne.
Qed.

Lemma numbered_insert specs next k k' a : k <> k' -> numbered specs next k' -> numbered specs (<[k := a]> next) k'.
Proof. intros Hne [? (x & ? & ?)]. split; [done|]. exists x. by rewrite lookup_insert_ne. Qed.

Lemma active_specs_spec specs keys : templates_ok specs -> forall next left w r w',
  NoDup keys -> (forall k, k ∈ keys -> numbered specs next k) -> (forall k, 0 <= default 0 (left !! k)) ->
  active_specs constants specs keys next left w = (r, w') ->
  match r with
  | Ok (active, next', left') => searched w keys next left active next' left'
  | Err e => e <> OutOfFuel
  end.
Proof.
  intros Hs. induction keys as [|k keys IH]; intros next left w r w' Hnd Hk Hl H; simpl in H.
  { unfold mret in H. simplify_eq. constructor; [apply NoDup_nil_2|by intros ? ?%elem_of_nil..|done]. }
  apply NoDup_cons in Hnd as [Hnk Hnd].
  assert (Hk' : forall k', k' ∈ keys -> numbered specs next k') by (intros; apply Hk; by right).
  destruct (default 0 (left !! k) =? 0) eqn:E0; zbool.
  { apply IH in H; [|done..]. destruct r as [[[active n'] l']|e]; [by apply searched_skip|done]. }
  destruct (Hk k) as [[s Es] (a & En & Hrange)]; [by left|]. rewrite En, Es in H. destruct (Hs k s Es) as [Eks Hws].
  unfold mbind at 1 in H. destruct (free_attempt _ _ w) as [found w1] eqn:E.
  pose proof (moves_eq _ _ _ _ _ (free_attempt_quiet _ _) E) as Q.
  apply free_attempt_spec in E; [|by apply with_attempt_wf|simpl; lia].
  assert (Hp : 0 < default 0 (left !! k)) by (specialize (Hl k); lia).
  destruct found as [[found|]|e]; [| |by destruct e; simplify_eq].
  - destruct E as (b & Hb & ->). simpl in Hb. unfold mbind in H. destruct (active_specs _ _ _ _ _ w1) as [rest w2] eqn:E.
    apply IH in E; [|done|intros k' ?; apply numbered_insert; [by intros <-|by apply Hk']|done].
    destruct rest as [[[active n'] l']|e]; unfold mret in H; simplify_eq; [|done].
    eapply searched_active; [exact Q|done|done|by apply with_attempt_wf, with_attempt_wf|done|done|simpl; lia|done].
  - apply IH in H; [|done..|].
    + destruct r as [[[active n'] l']|e]; [|done]. eapply searched_spent; [done..| |done].
      exists (with_attempt (with_attempt s a) (2 ^ 32 - 1)). by split_and!.
    + intros k'. destruct (decide (k' = k)) as [->|]; [by rewrite lookup_insert_eq|by rewrite lookup_insert_ne].
Qed.

(** ** The records of a round *)

Definition published (w : World) (r : RunRecord) : Prop := files w !! file_name r = Some (Some r).

Lemma kept_published w w' r : kept w w' -> published w r -> published w' r.
Proof. intros [F _ _] H. by eapply lookup_weaken. Qed.

(** A record of the repetition [rep] of [s]. *)
Definition answers (s : RunSpec) (rep : Z) (r : RunRecord) : Prop :=
  key r = key_of s /\ r_attempt r = sp_attempt s /\ r_repetition r = rep.

Lemma dispatch_total spec : total (dispatch run spec).
Proof.
  unfold dispatch. apply total_bind; [auto with total|intros []; [auto with total|]].
  apply total_bind; [intros w w'; unfold run_spec; by destruct (run spec w)|intros r].
  apply total_bind; [auto with total|intros c w w'].
  destruct (write_record _ w) as [[u|e] w1]; [destruct (survivors _); [by destruct c|done]|by destruct (survivors _)].
Qed.

Lemma dispatch_ok spec w r w' : dispatch run spec w = (Ok r, w') -> answers spec (sp_repetition spec) r /\ published w' r.
Proof.
  unfold dispatch. intros H. bind_ok H. destruct a; [done|]. bind_ok H. rename E0 into Er.
  unfold run_spec in Er. destruct (run spec w0) as [r0 w2] eqn:E0. injection Er as <- <-.
  bind_ok H. destruct (write_record _ w1) as [[u|e] w3] eqn:Ew; [|by destruct (survivors _)].
  assert (Hans : answers spec (sp_repetition spec) (set_cancelled r0 a)).
  { pose proof (run_key spec w0). pose proof (run_attempt spec w0). pose proof (run_repetition spec w0).
    rewrite E0 in *. by split_and!. }
  apply write_record_ok in Ew. destruct (survivors _); [|done]. destruct a; [done|]. by simplify_eq.
Qed.

Lemma run_round_total plan : total (run_round run plan).
Proof. induction plan as [|[s rep] plan IH]; simpl; repeat (total_step || apply dispatch_total). Qed.

Lemma run_round_ok plan : forall w round w', run_round run plan w = (Ok round, w') ->
  Forall2 (fun sr r => answers sr.1 sr.2 r /\ published w' r) plan round.
Proof.
  induction plan as [|[s rep] plan IH]; intros w round w' H; simpl in H; [unfold mret in H; by simplify_eq|].
  bind_ok H. bind_ok H. unfold mret in H. simplify_eq.
  apply dispatch_ok in E as [Ha Hp]. constructor; [|by apply (IH w0)]. split; [done|].
  eapply kept_published; [|exact Hp]. by eapply moves_eq; [apply run_round_kept|].
Qed.

(** The records of a round are those of its active specifications, each of
    which has one. *)
Record round_records (w : World) (active : list RunSpec) (round : list RunRecord) : Prop := {
  rr_from : forall r, r ∈ round -> exists s, s ∈ active /\ answers s (r_repetition r) r /\ 1 <= r_repetition r <= reps /\ published w r;
  rr_each : forall s, s ∈ active -> exists r, r ∈ round /\ key r = key_of s
}.

Lemma interleave_in {A} (l : list A) n s rep : (s, rep) ∈ interleave l n <-> s ∈ l /\ 1 <= rep <= n.
Proof.
  unfold interleave. rewrite list_elem_of_In, in_concat. setoid_rewrite <- list_elem_of_In. split.
  - intros (x & (r & -> & Hr)%list_elem_of_fmap & (s' & ? & ?)%list_elem_of_fmap). simplify_eq. apply elem_of_seqZ in Hr. split; [done|lia].
  - intros [Hs Hr]. eexists. split; [apply list_elem_of_fmap; exists rep; split; [done|apply elem_of_seqZ; lia]|].
    apply list_elem_of_fmap. eauto.
Qed.

Lemma round_records_of active w round w' : run_round run (interleave active reps) w = (Ok round, w') -> round_records w' active round.
Proof.
  intros H. apply run_round_ok in H as F. constructor.
  - intros r Hr. apply list_elem_of_lookup in Hr as [i Hi].
    destruct (Forall2_lookup_r _ _ _ _ _ F Hi) as ([s rep] & Hl & (? & ? & Erep) & ?). simpl in Erep.
    apply list_elem_of_lookup_2, interleave_in in Hl as [? ?]. exists s. rewrite Erep. unfold answers. split_and!; first [done|lia].
  - intros s Hs. assert (Hin : (s, 1) ∈ interleave active reps) by (apply interleave_in; split; [done|lia]).
    apply list_elem_of_lookup in Hin as [i Hi]. destruct (Forall2_lookup_l _ _ _ _ _ F Hi) as (r & Hl & (? & ? & ?) & ?).
    exists r. split; [by eapply list_elem_of_lookup_2|done].
Qed.

Lemma runs_of_in l k r : r ∈ runs_of l k <-> r ∈ l /\ key r = k.
Proof. unfold runs_of. rewrite list_elem_of_In, filter_In, <- list_elem_of_In, bool_decide_eq_true. done. Qed.

(** The records of one attempt of a configuration, all on disk. *)
Definition evidence (w : World) (k : ConfigKey) (a : Z) (runs : list RunRecord) : Prop :=
  runs <> [] /\ forall r, r ∈ runs -> key r = k /\ r_attempt r = a /\ published w r.

Lemma round_evidence w active round s : NoDup (key_of <$> active) -> round_records w active round -> s ∈ active ->
  evidence w (key_of s) (sp_attempt s) (runs_of round (key_of s)).
Proof.
  intros Hnd [Hf He] Hs. split.
  - destruct (He s Hs) as (r & Hr & Ek). intros E. assert (Hin : r ∈ runs_of round (key_of s)) by (by apply runs_of_in).
    rewrite E in Hin. by apply elem_of_nil in Hin.
  - intros r [Hr Ek]%runs_of_in. destruct (Hf r Hr) as (s' & Hs' & (Ek' & Ea & _) & _ & Hp). split_and!; [done| |done].
    rewrite Ea. f_equal. eapply nodup_key; [done..|congruence].
Qed.

Lemma round_idle w active round k : round_records w active round -> k ∉ (key_of <$> active) -> runs_of round k = [].
Proof.
  intros [Hf _] Hn. destruct (runs_of round k) as [|r l] eqn:E; [done|]. exfalso.
  assert (Hin : r ∈ runs_of round k) by (rewrite E; by left). apply runs_of_in in Hin as [Hr Ek].
  destruct (Hf r Hr) as (s & Hs & (Ek' & _) & _). apply Hn, list_elem_of_fmap. exists s. split; [congruence|done].
Qed.

(** ** The verdicts of a round *)

(** The configuration ran and passed, or ran and failed. *)
Definition passes (round : list RunRecord) (k : ConfigKey) : bool :=
  match runs_of round k with
  | [] => false
  | runs => match config_failure runs reps (enforce_spread constants) with Some None => true | _ => false end
  end.
Definition fails (round : list RunRecord) (k : ConfigKey) : bool :=
  match runs_of round k with
  | [] => false
  | runs => match config_failure runs reps (enforce_spread constants) with Some (Some _) => true | _ => false end
  end.

Lemma charge_other st k k' : k <> k' ->
  next_attempt (charge st k) !! k' = next_attempt st !! k' /\ left (charge st k) !! k' = left st !! k'.
Proof.
  intros Hne. unfold charge. repeat case_match; simpl; rewrite ?lookup_insert_ne, ?lookup_alter_ne by done; done.
Qed.

Lemma charge_same st k : pending (charge st k) = pending st /\ passed (charge st k) = passed st.
Proof. unfold charge. by repeat case_match. Qed.

(** A failed attempt moves the number on and costs one attempt; at the last
    number it costs the rest of the budget. *)
Lemma charge_key st k a : next_attempt st !! k = Some a -> is_Some (left st !! k) ->
  (a < last_number /\ next_attempt (charge st k) !! k = Some (a + 1) /\ left_of (charge st k) k = sat_sub (left_of st k) 1) \/
  (last_number <= a /\ next_attempt (charge st k) !! k = Some a /\ left_of (charge st k) k = 0).
Proof.
  intros Ea [n En]. unfold charge, left_of, last_number. rewrite Ea. case_match eqn:El; zbool; [left|right]; simpl.
  - rewrite lookup_insert_eq, lookup_alter_eq, En. simpl. split_and!; [lia|done|done].
  - rewrite lookup_alter_eq, En. simpl. split_and!; [lia|done|done].
Qed.

Definition same_entries (st st' : Loop) (k : ConfigKey) : Prop :=
  next_attempt st' !! k = next_attempt st !! k /\ left st' !! k = left st !! k.

Lemma charge_entries st st' k : same_entries st st' k -> same_entries (charge st k) (charge st' k) k.
Proof.
  intros [En El]. unfold same_entries, charge. rewrite En. repeat case_match; simpl; rewrite ?lookup_insert_eq, ?lookup_alter_eq, ?El, ?En; done.
Qed.

(** What [settle] does: passed configurations leave the pending ones in order,
    failed ones are charged. *)
Record settled (round : list RunRecord) (keys still : list ConfigKey) (st st' : Loop) : Prop := {
  se_pending : pending st' = still ++ List.filter (fun k => negb (passes round k)) keys;
  se_passed : passed st' = passed st ++ List.filter (passes round) keys;
  se_charged : forall k, k ∈ keys -> fails round k = true -> same_entries (charge st k) st' k;
  se_same : forall k, k ∉ keys \/ fails round k = false -> same_entries st st' k;
  se_ran : forall k, k ∈ keys -> runs_of round k <> [] -> passes round k = true \/ fails round k = true
}.

Lemma settle_spec round keys : forall st still st', NoDup keys -> settle constants keys round st still = Some st' ->
  settled round keys still st st'.
Proof.
  induction keys as [|k keys IH]; intros st still st' Hnd H; simpl in H.
  { simplify_eq. constructor; simpl; rewrite ?app_nil_r; try done; by intros k ?%elem_of_nil. }
  apply NoDup_cons in Hnd as [Hnk Hnd].
  assert (Hcase : forall b c, b = passes round k -> c = fails round k -> (runs_of round k <> [] -> b = true \/ c = true) ->
    forall st1, settled round keys (if b then still else still ++ [k]) st1 st' ->
    passed st1 = (if b then passed st ++ [k] else passed st) ->
    (if c then same_entries (charge st k) st1 k else same_entries st st1 k) ->
    (forall k', k' <> k -> same_entries st st1 k') -> settled round (k :: keys) still st st').
  { intros b c Hb Hc Hran st1 [Sp Sd Sc Ss Sr] Ed Ek Eo.
    assert (Hst : forall k', k' ∈ keys -> same_entries st st1 k') by (intros k' ?; apply Eo; by intros ->).
    constructor.
    - rewrite Sp. simpl. rewrite <- Hb. destruct b; simpl; [done|]. by rewrite <- app_assoc.
    - rewrite Sd, Ed. simpl. rewrite <- Hb. destruct b; [|done]. by rewrite <- app_assoc.
    - intros k' [->|Hk']%elem_of_cons Hf.
      + rewrite <- Hc in Hf. subst c. rewrite Hf in Ek. destruct (Ss k) as [E1 E2]; [by left|]. destruct Ek as [E3 E4]. split; congruence.
      + destruct (Sc k' Hk' Hf) as [E1 E2]. destruct (charge_entries _ _ _ (Hst k' Hk')) as [E3 E4]. split; congruence.
    - intros k' Hk'. destruct (decide (k' = k)) as [->|Hne].
      + destruct Hk' as [Hk'|Hf]; [by destruct Hk'; left|]. rewrite <- Hc in Hf. subst c. rewrite Hf in Ek.
        destruct (Ss k) as [E1 E2]; [by left|]. destruct Ek. split; congruence.
      + destruct (Ss k') as [E1 E2]; [destruct Hk' as [Hk'|]; [left; intros ?; apply Hk'; by right|by right]|].
        destruct (Eo k' Hne). split; congruence.
    - intros k' [->|Hk']%elem_of_cons; [by rewrite <- Hb, <- Hc|by apply Sr]. }
  unfold passes, fails in Hcase. destruct (runs_of round k) as [|r l] eqn:Er.
  { by apply (Hcase false false eq_refl eq_refl ltac:(done) st); [apply IH| | |]. }
  destruct (config_failure _ _ _) as [[reason|]|] eqn:Ec; [| |done].
  - apply (Hcase false true eq_refl eq_refl ltac:(by right) (charge st k)); [by apply IH|apply charge_same|done|]. intros k' Hne. by apply charge_other.
  - eapply (Hcase true false eq_refl eq_refl ltac:(by left)); [by apply IH|done|done|done].
Qed.

(** ** The loop invariant *)

Definition passed_on_disk (w : World) (k : ConfigKey) : Prop :=
  exists a runs, evidence w k a runs /\ config_failure runs reps (enforce_spread constants) = Some None.
Definition failed_attempt (w : World) (k : ConfigKey) (a : Z) : Prop :=
  exists runs reason, evidence w k a runs /\ config_failure runs reps (enforce_spread constants) = Some (Some reason).

(** The attempts a configuration may fail. *)
Context (allowed : ConfigKey -> Z).

Record pending_inv (w : World) (st : Loop) (k : ConfigKey) (a : Z) (tries : list Z) : Prop := {
  pi_next : next_attempt st !! k = Some a;
  pi_range : 1 <= a < 2 ^ 32;
  pi_left : is_Some (left st !! k);
  pi_nonneg : 0 <= left_of st k;
  pi_nodup : NoDup tries;
  pi_tries : forall t, t ∈ tries -> failed_attempt w k t /\ (0 < left_of st k -> t < a);
  pi_budget : Z.of_nat (length tries) + left_of st k = allowed k \/
              (left_of st k = 0 /\ numbers_spent w reps k /\ Z.of_nat (length tries) <= allowed k)
}.

Record loop_inv (specs : gmap ConfigKey RunSpec) (keys : list ConfigKey) (w : World) (st : Loop) : Prop := {
  li_templates : templates_ok specs;
  li_keys : pending st ++ passed st ≡ₚ keys;
  li_nodup : NoDup keys;
  li_left : forall k, 0 <= default 0 (left st !! k);
  li_pending : forall k, k ∈ pending st -> is_Some (specs !! k) /\ exists a tries, pending_inv w st k a tries;
  li_passed : forall k, k ∈ passed st -> passed_on_disk w k
}.

Lemma kept_evidence w w' k a runs : kept w w' -> evidence w k a runs -> evidence w' k a runs.
Proof. intros K [Hn H]. split; [done|]. intros r Hr. destruct (H r Hr) as (? & ? & ?). split_and!; [done|done|]. by eapply kept_published. Qed.

Lemma kept_occupied w w' spec n : kept w w' -> occupied w spec n -> occupied w' spec n.
Proof.
  intros [F S _] (rep & x & Hr & Hx & Hp). exists rep, x. split_and!; [lia..|done|]. destruct x as [name|dir]; simpl in *; [|by apply S].
  destruct Hp as [b Hb]. exists b. by eapply lookup_weaken.
Qed.

Lemma kept_numbers_spent w w' k : kept w w' -> numbers_spent w reps k -> numbers_spent w' reps k.
Proof. intros K (s & ? & ? & ?). exists s. split_and!; [done|done|]. by eapply kept_occupied. Qed.

Lemma kept_failed_attempt w w' k a : kept w w' -> failed_attempt w k a -> failed_attempt w' k a.
Proof. intros K (runs & reason & ? & ?). exists runs, reason. split; [by eapply kept_evidence|done]. Qed.

Lemma kept_pending_inv w w' st k a tries : kept w w' -> pending_inv w st k a tries -> pending_inv w' st k a tries.
Proof.
  intros K []. constructor; try done.
  - intros t Ht. destruct (pi_tries0 t Ht) as [? ?]. split; [by eapply kept_failed_attempt|done].
  - destruct pi_budget0 as [?|(? & ? & ?)]; [by left|right]. split_and!; [done|by eapply kept_numbers_spent|done].
Qed.

Lemma kept_loop_inv specs keys w w' st : kept w w' -> loop_inv specs keys w st -> loop_inv specs keys w' st.
Proof.
  intros K []. constructor; try done.
  - intros k Hk. destruct (li_pending0 k Hk) as [? (a & tries & ?)]. split; [done|]. exists a, tries. by eapply kept_pending_inv.
  - intros k Hk. destruct (li_passed0 k Hk) as (a & runs & ? & ?). exists a, runs. split; [by eapply kept_evidence|done].
Qed.

Lemma loop_inv_nodup specs keys w st : loop_inv specs keys w st -> NoDup (pending st).
Proof. intros []. rewrite <- li_keys0 in li_nodup0. by apply NoDup_app in li_nodup0 as [? _]. Qed.

(** The state after the search. *)
Definition with_search (st : Loop) (next left : gmap ConfigKey Z) (checked : gset ConfigKey) : Loop :=
  {| pending := pending st; next_attempt := next; left := left; passed := passed st; checked := checked |}.

Lemma search_pending_inv w st k a tries active next' left' c :
  pending_inv w st k a tries ->
  activated active (next_attempt st) (left st) next' left' k \/ idle w reps active (next_attempt st) (left st) next' left' k ->
  exists a', pending_inv w (with_search st next' left' c) k a' tries.
Proof.
  intros [Hn Hr Hl H0 Hnd Ht Hb] [(s & a0 & _ & _ & Hp & El & En & En' & Hle)|(_ & En & Hi)].
  - exists (sp_attempt s). assert (a0 = a) as -> by congruence. constructor; unfold left_of in *; simpl; rewrite ?El; try done; [lia|].
    intros t Hin. destruct (Ht t Hin) as [? ?]. split; [done|]. intros ?. specialize (H1 Hp). lia.
  - exists a. destruct Hi as [[El E0]|(El & Hp & Hs)].
    + constructor; unfold left_of in *; simpl; rewrite ?El, ?En; done.
    + constructor; unfold left_of in *; simpl; rewrite ?El, ?En; try done.
      * intros t Hin. destruct (Ht t Hin). split; [done|simpl; lia].
      * right. split_and!; [done|done|]. destruct Hb as [?|(? & _)]; lia.
Qed.

Lemma search_loop_inv specs keys w st active next' left' c : loop_inv specs keys w st ->
  searched w (pending st) (next_attempt st) (left st) active next' left' ->
  loop_inv specs keys w (with_search st next' left' c).
Proof.
  intros [] [Hnda Ha Hact Hrest]. constructor; simpl; try done.
  - intros k. destruct (decide (k ∈ pending st)) as [Hk|Hk].
    + destruct (li_pending0 k Hk) as [_ (a & tries & P)]. destruct (search_pending_inv _ _ _ _ _ _ _ _ c P (Hact k Hk)) as [a' P'].
      exact (pi_nonneg _ _ _ _ _ P').
    + destruct (Hrest k Hk) as [_ ->]. apply li_left0.
  - intros k Hk. destruct (li_pending0 k Hk) as [? (a & tries & P)]. split; [done|].
    destruct (search_pending_inv _ _ _ _ _ _ _ _ c P (Hact k Hk)) as [a' P']. eauto.
Qed.

Lemma same_entries_pending_inv w st st' k a tries : same_entries st st' k -> pending_inv w st k a tries -> pending_inv w st' k a tries.
Proof. intros [En El] []. constructor; unfold left_of in *; rewrite ?En, ?El; done. Qed.

Lemma passes_failure round k : passes round k = true ->
  config_failure (runs_of round k) reps (enforce_spread constants) = Some None.
Proof. unfold passes. destruct (runs_of round k); [done|]. by destruct (config_failure _ _ _) as [[]|]. Qed.

Lemma fails_failure round k : fails round k = true ->
  exists reason, config_failure (runs_of round k) reps (enforce_spread constants) = Some (Some reason).
Proof. unfold fails. destruct (runs_of round k); [done|]. destruct (config_failure _ _ _) as [[]|]; eauto; done. Qed.

Lemma ran_active w active round k : round_records w active round -> runs_of round k <> [] -> exists s, s ∈ active /\ key_of s = k.
Proof.
  intros R Hn. destruct (decide (k ∈ key_of <$> active)) as [(s & -> & Hs)%list_elem_of_fmap|Hni]; [eauto|].
  by rewrite (round_idle _ _ _ _ R Hni) in Hn.
Qed.

(** The record of an attempt at the last number occupies it. *)
Lemma evidence_numbers_spent w active round s : NoDup (key_of <$> active) -> round_records w active round -> s ∈ active -> spec_wf s ->
  0 <= sp_attempt s -> sp_attempt s = last_number -> numbers_spent w reps (key_of s).
Proof.
  intros Hnd R Hs Hw H0 Hl. destruct (rr_each _ _ _ R s Hs) as (r & Hr & Ek).
  destruct (rr_from _ _ _ R r Hr) as (s' & Hs' & (Ek' & Ea & _) & Hrep & Hp).
  assert (s' = s) as -> by (eapply nodup_key; [done..|congruence]).
  exists s. split_and!; [done|done|]. exists (r_repetition r). eexists. split_and!; [lia..|by left|]. simpl.
  rewrite stem_for_json.
  - exists (Some r). rewrite <- Hp. f_equal. by apply same_file_name.
  - apply spec_name_wf; simpl; [by destruct Hw|done|lia].
Qed.

(** A failed attempt of an active configuration. *)
Lemma charge_pending_inv w st active round s a tries : NoDup (key_of <$> active) -> round_records w active round ->
  s ∈ active -> spec_wf s -> sp_attempt s = a -> 0 < left_of st (key_of s) -> fails round (key_of s) = true ->
  pending_inv w st (key_of s) a tries -> exists a', pending_inv w (charge st (key_of s)) (key_of s) a' (a :: tries).
Proof.
  intros Hnd R Hs Hw Ha Hp Hf [Hn Hr Hl H0 Ht Hti Hb].
  assert (Hnew : failed_attempt w (key_of s) a).
  { apply fails_failure in Hf as [reason Hf]. exists (runs_of round (key_of s)), reason. split; [|done]. rewrite <- Ha. by eapply round_evidence. }
  assert (Hnd' : NoDup (a :: tries)).
  { apply NoDup_cons. split; [|done]. intros Hin. destruct (Hti a Hin) as [_ Hlt]. specialize (Hlt Hp). lia. }
  assert (Hall : forall t, t ∈ a :: tries -> failed_attempt w (key_of s) t /\ t <= a).
  { intros t [->|Hin]%elem_of_cons; [split; [done|lia]|]. destruct (Hti t Hin) as [? Hlt]. specialize (Hlt Hp). split; [done|lia]. }
  destruct Hb as [Hb|(? & _)]; [|lia].
  assert (Hsome : is_Some (left (charge st (key_of s)) !! key_of s)).
  { destruct Hl as [n En]. unfold charge. rewrite Hn. case_match; simpl; rewrite lookup_alter_eq, En; eauto. }
  destruct (charge_key st (key_of s) a Hn Hl) as [(Hlt & En & El)|(Hge & En & El)]; unfold last_number in *.
  - exists (a + 1). unfold sat_sub in El. constructor; try done; [lia|lia| |].
    + intros t Hin. destruct (Hall t Hin). split; [done|lia].
    + left. simpl. lia.
  - exists a. constructor; try done; [lia| |].
    + intros t Hin. destruct (Hall t Hin). split; [done|lia].
    + right. split_and!; [done| |simpl; lia]. eapply evidence_numbers_spent; [done..|lia|unfold last_number; lia].
Qed.

Lemma filter_split {A} (p : A -> bool) (l : list A) : List.filter (fun x => negb (p x)) l ++ List.filter p l ≡ₚ l.
Proof.
  induction l as [|x l IH]; simpl; [done|]. destruct (p x); simpl; [|by rewrite IH]. rewrite <- Permutation_middle. by rewrite IH.
Qed.

Lemma filter_elem {A} (p : A -> bool) (l : list A) x : x ∈ List.filter p l <-> x ∈ l /\ p x = true.
Proof. by rewrite !list_elem_of_In, filter_In. Qed.

(** A configuration with records in the round is active at its number. *)
Lemma ran_numbered w v st next left active round k : searched v (pending st) next left active (next_attempt st) (Matrix.left st) ->
  round_records w active round -> k ∈ pending st -> runs_of round k <> [] ->
  exists s, s ∈ active /\ key_of s = k /\ spec_wf s /\ next_attempt st !! k = Some (sp_attempt s) /\ 0 < left_of st k.
Proof.
  intros S R Hk Hn. destruct (ran_active _ _ _ _ R Hn) as (s & Hs & <-). exists s. destruct (sr_active _ _ _ _ _ _ _ S s Hs) as [_ Hw].
  destruct (sr_keys _ _ _ _ _ _ _ S _ Hk) as [(s' & a & Hs' & Ek & Hp & El & _ & En & _)|(Hni & _)];
    [|destruct Hni; apply list_elem_of_fmap; eauto].
  assert (s' = s) as -> by (by eapply nodup_key; [apply (sr_nodup _ _ _ _ _ _ _ S)|..]).
  split_and!; try done. unfold left_of. by rewrite El.
Qed.

Lemma ran_of_passes round k : passes round k = true -> runs_of round k <> [].
Proof. unfold passes. by destruct (runs_of round k). Qed.
Lemma ran_of_fails round k : fails round k = true -> runs_of round k <> [].
Proof. unfold fails. by destruct (runs_of round k). Qed.
Lemma passes_not_fails round k : passes round k = true -> fails round k = false.
Proof. unfold passes, fails. destruct (runs_of round k); [done|]. by destruct (config_failure _ _ _) as [[]|]. Qed.

Lemma settle_loop_inv specs keys w v next left st active round st' : loop_inv specs keys w st ->
  searched v (pending st) next left active (next_attempt st) (Matrix.left st) ->
  round_records w active round -> settled round (pending st) [] st st' -> loop_inv specs keys w st'.
Proof.
  intros I S R [Sp Sd Sc Ss Sr]. pose proof I as []. simpl in Sp.
  assert (Hpend : forall k, k ∈ pending st -> passes round k = false -> exists a tries, pending_inv w st' k a tries).
  { intros k Hk Hnp. destruct (li_pending0 k Hk) as [_ (a & tries & P)]. destruct (fails round k) eqn:Hf.
    - destruct (ran_numbered w v st next left active round k) as (s & Hs & <- & Hw & En & Hp); [done..|by apply ran_of_fails|].
      destruct (charge_pending_inv w st active round s a tries) as [a' P']; try done.
      { apply (sr_nodup _ _ _ _ _ _ _ S). } { destruct P. congruence. }
      exists a', (a :: tries). eapply same_entries_pending_inv; [|exact P']. by apply Sc.
    - exists a, tries. eapply same_entries_pending_inv; [|exact P]. apply Ss. by right. }
  constructor; try done.
  - rewrite Sp, Sd, (Permutation_app_comm (passed st)), app_assoc, filter_split. done.
  - intros k. destruct (decide (k ∈ pending st)) as [Hk|Hk]; [|destruct (Ss k) as [_ ->]; [by left|apply li_left0]].
    destruct (passes round k) eqn:Hpk; [|destruct (Hpend k Hk Hpk) as (a & tries & [])]; [|done].
    destruct (Ss k) as [_ ->]; [right; by apply passes_not_fails|apply li_left0].
  - intros k Hk. rewrite Sp in Hk. apply filter_elem in Hk as [Hk Hnp]. apply negb_true_iff in Hnp. destruct (li_pending0 k Hk) as [? _].
    split; [done|by apply Hpend].
  - intros k Hk. rewrite Sd in Hk. apply elem_of_app in Hk as [Hk|Hk]; [by apply li_passed0|]. apply filter_elem in Hk as [Hk Hp].
    destruct (ran_numbered w v st next left active round k) as (s & Hs & <- & _); [done..|by apply ran_of_passes|]. exists (sp_attempt s), (runs_of round (key_of s)). split; [|by apply passes_failure].
    eapply round_evidence; [apply (sr_nodup _ _ _ _ _ _ _ S)|done|done].
Qed.

(** ** The budget *)

Lemma sum_filter_le {A} (p : A -> bool) (f g : A -> nat) l : (forall x, x ∈ l -> (g x <= f x)%nat) ->
  (sum_list (g <$> List.filter p l) <= sum_list (f <$> l))%nat.
Proof.
  induction l as [|x l IH]; intros H; csimpl; [lia|].
  assert (Hx : (g x <= f x)%nat) by (apply H; by left). assert (IH' := IH (fun y Hy => H y (list_elem_of_further _ _ _ Hy))).
  destruct (p x); csimpl; lia.
Qed.

Lemma sum_filter_lt {A} (p : A -> bool) (f g : A -> nat) l : (forall x, x ∈ l -> (g x <= f x)%nat) ->
  (exists x, x ∈ l /\ (0 < f x)%nat /\ (p x = false \/ (g x < f x)%nat)) ->
  (sum_list (g <$> List.filter p l) < sum_list (f <$> l))%nat.
Proof.
  induction l as [|x l IH]; intros H (y & Hy & H0 & Hlt); [by apply elem_of_nil in Hy|].
  assert (Hx : (g x <= f x)%nat) by (apply H; by left).
  assert (Hl : forall z, z ∈ l -> (g z <= f z)%nat) by (intros z ?; apply H; by right).
  apply elem_of_cons in Hy as [->|Hy]; csimpl.
  - pose proof (sum_filter_le p f g l Hl). destruct Hlt as [->|Hlt]; [lia|]. destruct (p x); csimpl; lia.
  - assert (IH' : (sum_list (g <$> List.filter p l) < sum_list (f <$> l))%nat) by (apply IH; eauto). destruct (p x); csimpl; lia.
Qed.

(** A round with an active configuration spends an attempt. *)
Lemma settle_budget w v specs keys st0 next' left' c active round st' : let st := with_search st0 next' left' c in
  loop_inv specs keys w st -> (forall k, 0 <= default 0 (left st0 !! k)) ->
  searched v (pending st0) (next_attempt st0) (left st0) active next' left' -> active <> [] ->
  round_records w active round -> settled round (pending st0) [] st st' -> (budget st' < budget st0)%nat.
Proof.
  intros st I H0 S Hne R [Sp Sd Sc Ss Sr]. unfold budget. rewrite Sp. simpl.
  assert (Hsearch : forall k, k ∈ pending st0 -> left_of st k <= left_of st0 k).
  { intros k Hk. unfold left_of. simpl. destruct (sr_keys _ _ _ _ _ _ _ S k Hk) as [(s & a & _ & _ & _ & -> & _)|(_ & _ & [[-> _]|(-> & ? & _)])]; simpl; lia. }
  assert (Hcharge : forall k, k ∈ pending st0 -> fails round k = true -> 0 < left_of st k -> left_of st' k < left_of st k).
  { intros k Hk Hf Hp. destruct (Sc k Hk Hf) as [_ El]. destruct (li_pending _ _ _ _ I k Hk) as [_ (a & tries & [])].
    unfold left_of at 1. rewrite El. fold (left_of (charge st k) k).
    destruct (charge_key st k a) as [(_ & _ & ->)|(_ & _ & ->)]; [done|done|unfold sat_sub; lia|lia]. }
  apply sum_filter_lt.
  - intros k Hk. specialize (Hsearch k Hk). destruct (fails round k) eqn:Hf.
    + destruct (decide (0 < left_of st k)) as [Hp|Hp]; [specialize (Hcharge k Hk Hf Hp); lia|].
      destruct (Sc k Hk Hf) as [_ El]. destruct (li_pending _ _ _ _ I k Hk) as [_ (a & tries & [])].
      unfold left_of at 1. rewrite El. fold (left_of (charge st k) k).
      destruct (charge_key st k a) as [(_ & _ & ->)|(_ & _ & ->)]; [done|done|unfold sat_sub; lia|lia].
    + destruct (Ss k) as [_ El]; [by right|]. unfold left_of at 1. rewrite El. fold (left_of st k). lia.
  - destruct active as [|s active]; [done|]. destruct (sr_active _ _ _ _ _ _ _ S s) as [Hk _]; [by left|].
    destruct (rr_each _ _ _ R s) as (r & Hr & Ek); [by left|].
    assert (Hran : runs_of round (key_of s) <> []).
    { intros E. assert (Hin : r ∈ runs_of round (key_of s)) by (by apply runs_of_in). rewrite E in Hin. by apply elem_of_nil in Hin. }
    destruct (ran_numbered w v st (next_attempt st0) (left st0) (s :: active) round (key_of s)) as (s' & _ & _ & _ & _ & Hp); [done..|].
    exists (key_of s). specialize (Hsearch _ Hk). split_and!; [done|lia|].
    destruct (Sr (key_of s) Hk Hran) as [->|Hf]; [by left|right]. specialize (Hcharge _ Hk Hf Hp). lia.
Qed.

(** ** The loop *)

(** As many failed attempts on disk as the configuration was allowed, or fewer
    when its attempt numbers ran out. *)
Definition budget_spent_on_disk (w : World) (k : ConfigKey) : Prop :=
  exists tries, NoDup tries /\ (forall t, t ∈ tries -> failed_attempt w k t) /\
    (Z.of_nat (length tries) = allowed k \/ (numbers_spent w reps k /\ Z.of_nat (length tries) <= allowed k)).

Lemma stop_checks_total keys : forall st, total (stop_checks stop keys st).
Proof. induction keys as [|k keys IH]; intros st; simpl; repeat (total_step || apply stop_total). Qed.

(** No active configuration: every pending one has spent its budget. *)
Lemma idle_spent specs keys w st next' left' : loop_inv specs keys w st ->
  searched w (pending st) (next_attempt st) (left st) [] next' left' -> forall k, k ∈ pending st -> budget_spent_on_disk w k.
Proof.
  intros I S k Hk. destruct (li_pending _ _ _ _ I k Hk) as [_ (a & tries & P)].
  destruct (sr_keys _ _ _ _ _ _ _ S k Hk) as [(s & b & Hs & _)|Hi]; [by apply elem_of_nil in Hs|].
  destruct (search_pending_inv _ _ _ _ _ _ _ _ ∅ P (or_intror Hi)) as [a' [_ _ _ _ Hnd Ht Hb]].
  exists tries. split_and!; [done|intros t Hin; by apply Ht|]. unfold left_of in Hb. simpl in Hb.
  destruct Hi as (_ & _ & [[El E0]|(El & _ & _)]); rewrite El in Hb; destruct Hb as [Hb|(? & ? & ?)]; simpl in *; (left; lia) || (right; done).
Qed.

Lemma round_of_spec specs keys st w r w' : loop_inv specs keys w st -> round_of run stop constants specs st w = (r, w') ->
  match r with
  | Ok (inl st') => loop_inv specs keys w' st' /\ (budget st' < budget st)%nat
  | Ok (inr o) => o_passed o = passed st /\ o_failed o = pending st /\ loop_inv specs keys w' st /\
                  (o_stopped o = None -> forall k, k ∈ pending st -> budget_spent_on_disk w' k)
  | Err e => e <> OutOfFuel
  end.
Proof.
  intros I. unfold round_of, mbind at 1.
  destruct (stop_checks stop (pending st) st w) as [[[cause chk]|e] w1] eqn:E1.
  2:{ intros [= <- <-] ->. by apply stop_checks_total in E1. }
  assert (Q1 : quiet w w1) by (by eapply moves_eq; [apply stop_checks_quiet|]).
  assert (I1 : loop_inv specs keys w1 st) by (by eapply kept_loop_inv; [apply quiet_kept|]).
  destruct cause as [c|]; [by intros [= <- <-]|].
  unfold mbind at 1. destruct (active_specs _ _ _ _ _ w1) as [[[[active next'] left']|e] w2] eqn:E2;
    assert (Q2 : quiet w1 w2) by (by eapply moves_eq; [apply active_specs_quiet|]);
    apply active_specs_spec in E2; try (by apply I1); try (by eapply loop_inv_nodup);
    try (by intros k Hk; destruct (li_pending _ _ _ _ I1 k Hk) as [? (a & ? & [])]; split; [done|exists a]).
  2:{ intros [= <- <-]. done. }
  assert (I2 : loop_inv specs keys w2 st) by (by eapply kept_loop_inv; [apply quiet_kept|]).
  destruct active as [|s active].
  { intros [= <- <-]. split_and!; try done. intros _ k Hk. assert (B : budget_spent_on_disk w1 k) by (by eapply idle_spent).
    destruct B as (tries & ? & Ht & Hb). exists tries. apply quiet_kept in Q2. split_and!; [done| |].
    - intros t Hin. by eapply kept_failed_attempt; [|apply Ht].
    - destruct Hb as [?|[? ?]]; [by left|right]. split; [by eapply kept_numbers_spent|done]. }
  unfold mbind. destruct (run_round _ _ w2) as [[round|e] w3] eqn:E3.
  2:{ intros [= <- <-] ->. by apply run_round_total in E3. }
  assert (K3 : kept w2 w3) by (by eapply moves_eq; [apply run_round_kept|]).
  apply round_records_of in E3 as R. destruct (settle _ _ _ _ _) as [st'|] eqn:E4; [|intros [= <- <-]; done].
  intros [= <- <-]. apply settle_spec in E4; [|by eapply loop_inv_nodup].
  pose proof (search_loop_inv _ _ _ _ _ _ _ chk I1 E2) as I3. apply quiet_kept in Q2.
  assert (I4 : loop_inv specs keys w3 (with_search st next' left' chk)).
  { eapply kept_loop_inv; [exact K3|]. by eapply kept_loop_inv. }
  split; [by eapply settle_loop_inv|]. eapply settle_budget; try done. apply I1.
Qed.

Lemma rounds_spec specs keys n : forall st w r w', loop_inv specs keys w st -> (budget st < n)%nat ->
  rounds run stop constants n specs st w = (r, w') ->
  match r with
  | Ok o => o_failed o ++ o_passed o ≡ₚ keys /\ (forall k, k ∈ o_passed o -> passed_on_disk w' k) /\
            (o_stopped o = None -> forall k, k ∈ o_failed o -> budget_spent_on_disk w' k)
  | Err e => e <> OutOfFuel
  end.
Proof.
  induction n as [|n IH]; intros st w r w' I Hb; [lia|]. cbn [rounds]. unfold mbind.
  destruct (round_of _ _ _ _ st w) as [[[st'|o]|e] w1] eqn:E; apply (round_of_spec _ keys) in E; try done.
  - destruct E as [I' Hlt]. apply IH; [done|lia].
  - intros [= <- <-]. destruct E as (-> & -> & I' & Hs). split_and!; [apply I'|apply I'|done].
  - by intros [= <- <-].
Qed.
End Rounds.

(** ** The start of the loop *)

Record dedup_of (specs : list RunSpec) (seen m : gmap ConfigKey RunSpec) (keys : list ConfigKey) : Prop := {
  dd_nodup : NoDup keys;
  dd_keys : forall k, k ∈ keys <-> k ∈ (key_of <$> specs) /\ seen !! k = None;
  dd_map : forall k s, m !! k = Some s -> seen !! k = Some s \/ (s ∈ specs /\ key_of s = k);
  dd_in : forall k, k ∈ keys \/ is_Some (seen !! k) -> is_Some (m !! k)
}.

Lemma dedup_specs_spec specs : forall seen m keys, dedup_specs specs seen = (m, keys) -> dedup_of specs seen m keys.
Proof.
  induction specs as [|s specs IH]; intros seen m keys H; simpl in H.
  { simplify_eq. constructor; [apply NoDup_nil_2| |by left|].
    - intros k. csimpl. by rewrite elem_of_nil; split; [|intros [? _]].
    - by intros k [?%elem_of_nil|?]. }
  destruct (seen !! key_of s) as [s0|] eqn:Es.
  - apply IH in H as [H1 H2 H3 H4]. constructor; [done| | |done].
    + intros k. rewrite H2. csimpl. rewrite elem_of_cons. split; [intros [? ?]; by split; [right|]|].
      intros [[->|?] ?]; [congruence|done].
    + intros k s' Hm. destruct (H3 k s' Hm) as [?|[? ?]]; [by left|right]. by split; [right|].
  - destruct (dedup_specs specs _) as [m1 keys1] eqn:E. simplify_eq. apply IH in E as [H1 H2 H3 H4]. constructor.
    + apply NoDup_cons. split; [|done]. intros [_ Hs]%H2. by rewrite lookup_insert_eq in Hs.
    + intros k. csimpl. rewrite !elem_of_cons, H2. destruct (decide (k = key_of s)) as [->|Hne].
      * rewrite lookup_insert_eq. split; [intros _; split; [by left|done]|by left].
      * rewrite lookup_insert_ne by done. naive_solver.
    + intros k s' Hm. destruct (H3 k s' Hm) as [Hl|[? ?]]; [|right; by split; [right|]].
      apply lookup_insert_Some in Hl as [[<- <-]|[? ?]]; [right; by split; [left|]|by left].
    + intros k [[->|?]%elem_of_cons|[x Hx]]; apply H4; [right; by rewrite lookup_insert_eq|by left|right].
      destruct (decide (k = key_of s)) as [->|]; [by rewrite lookup_insert_eq|by rewrite lookup_insert_ne by done].
Qed.

Definition allowance (constants : ProtocolConstants) (remaining : gmap ConfigKey Z) (k : ConfigKey) : Z :=
  default (max_config_attempts constants) (remaining !! k).

(** The specifications and budgets a session hands to the loop. *)
Record configs_ok (constants : ProtocolConstants) (specs : list RunSpec) (remaining : gmap ConfigKey Z) : Prop := {
  co_reps : 1 <= repetitions constants;
  co_max : 0 <= max_config_attempts constants;
  co_remaining : forall k n, remaining !! k = Some n -> 0 <= n;
  co_specs : forall s, s ∈ specs -> spec_wf s /\ sp_attempt s < 2 ^ 32
}.

Lemma allowance_nonneg constants specs remaining k : configs_ok constants specs remaining -> 0 <= allowance constants remaining k.
Proof. intros [_ Hm Hr _]. unfold allowance. destruct (remaining !! k) eqn:E; simpl; eauto. Qed.

Lemma initial_loop_inv constants specs remaining m st w : configs_ok constants specs remaining ->
  initial_loop constants specs remaining = (m, st) ->
  loop_inv constants (allowance constants remaining) m (pending st) w st /\
  forall k, k ∈ pending st <-> k ∈ (key_of <$> specs).
Proof.
  intros C. pose proof C as [Hreps Hm Hrem Hs]. unfold initial_loop.
  destruct (dedup_specs specs ∅) as [m0 keys] eqn:E. intros [= <- <-]. apply dedup_specs_spec in E as [H1 H2 H3 H4]. simpl.
  assert (Hm0 : forall k s, m0 !! k = Some s -> key_of s = k /\ spec_wf s /\ sp_attempt s < 2 ^ 32).
  { intros k s Hk. apply H3 in Hk as [Hk|[Hk <-]]; [by rewrite lookup_empty in Hk|]. by split; [|apply Hs]. }
  assert (Hleft : forall k, map_imap (fun k _ => Some (default (max_config_attempts constants) (remaining !! k))) m0 !! k
                            = (fun _ => allowance constants remaining k) <$> m0 !! k).
  { intros k. rewrite map_lookup_imap. by destruct (m0 !! k). }
  split; [|intros k; rewrite H2, lookup_empty; naive_solver]. constructor; simpl.
  - intros k s Hk. apply Hm0 in Hk as (? & ? & ?). done.
  - by rewrite app_nil_r.
  - done.
  - intros k. rewrite Hleft. destruct (m0 !! k); simpl; [by eapply allowance_nonneg|lia].
  - intros k Hk. destruct (H4 k) as [s Es]; [by left|]. split; [by exists s|]. exists (Z.max (sp_attempt s) 1), [].
    destruct (Hm0 k s Es) as (_ & _ & Ha). specialize (Hleft k). rewrite Es in Hleft. simpl in Hleft.
    constructor; unfold left_of; simpl; rewrite ?lookup_fmap, ?Es, ?Hleft; simpl; try done; try lia.
    + by eapply allowance_nonneg.
    + apply NoDup_nil_2.
    + by intros t ?%elem_of_nil.
  - by intros k ?%elem_of_nil.
Qed.

Lemma run_configs_with_stop_spec run stop constants specs remaining w r w' : Executor run ->
  (forall k, moves quiet (stop k)) -> (forall k, total (stop k)) -> configs_ok constants specs remaining ->
  run_configs_with_stop run stop constants specs remaining w = (r, w') ->
  match r with
  | Ok o => NoDup (o_failed o ++ o_passed o) /\
            (forall k, k ∈ o_failed o ++ o_passed o <-> k ∈ (key_of <$> specs)) /\
            (forall k, k ∈ o_passed o -> passed_on_disk constants w' k) /\
            (o_stopped o = None -> forall k, k ∈ o_failed o -> budget_spent_on_disk constants (allowance constants remaining) w' k)
  | Err e => e <> OutOfFuel
  end.
Proof.
  intros HE Hq Ht C. unfold run_configs_with_stop, mbind.
  destruct (io_step _ w) as [[u|e] w1] eqn:E; [|intros [= <- <-] ->; by apply total_io in E].
  destruct (initial_loop constants specs remaining) as [m st] eqn:Ei. intros H.
  apply (initial_loop_inv _ _ _ _ _ w1 C) in Ei as [I Hk].
  eapply rounds_spec in H; [|done|done|done|apply C|exact I|lia].
  destruct r as [o|e]; [|done]. destruct H as (Hperm & Hp & Hf).
  split_and!; [| |done|done].
  - rewrite Hperm. apply I.
  - intros k. by rewrite Hperm.
Qed.

(** The loop answers for every configuration it was given, once: one it passes
    has an attempt on disk whose records pass, and unless the session was
    stopped one it fails has on disk as many distinct failed attempts as its
    budget allowed, or has no attempt number left. It never runs out of rounds.
    (C22) *)
Theorem run_configs_outcome run stop constants specs remaining w r w' : Executor run ->
  (forall k, moves quiet (stop k)) -> (forall k, total (stop k)) -> configs_ok constants specs remaining ->
  run_configs_with_stop run stop constants specs remaining w = (r, w') ->
  match r with
  | Ok o => NoDup (o_failed o ++ o_passed o) /\
            (forall k, k ∈ o_failed o ++ o_passed o <-> k ∈ (key_of <$> specs)) /\
            (forall k, k ∈ o_passed o -> passed_on_disk constants w' k) /\
            (o_stopped o = None -> forall k, k ∈ o_failed o -> budget_spent_on_disk constants (allowance constants remaining) w' k)
  | Err e => e <> OutOfFuel
  end.
Proof. apply run_configs_with_stop_spec. Qed.

(** Two configurations of two repetitions: one passes, one spends its three
    attempts; the first attempt number of the second is in use. *)
Module SampleConfigs.
Definition constants : ProtocolConstants :=
  {| warmup_secs := 2; window_secs := 5; repetitions := 2; drain_grace_secs := 2; max_config_attempts := 3;
     enforce_spread := false |}.
Definition specs : list RunSpec :=
  [first_spec Smoke 1 (Some 1) KThroughput None Uring; first_spec Smoke 1 (Some 1) KThroughput None Tokio].
Definition world : World :=
  {| files := {[lit "tokio-w1-q1-throughput-a1-r2.json.tmp" := None]}; scratch := ∅; faults := []; cancels := [] |}.
Lemma specs_ok : configs_ok constants specs ∅.
Proof.
  constructor; [done|done|by intros k n ?%lookup_empty_Some|].
  intros s Hs. repeat (apply elem_of_cons in Hs as [->|Hs]; [by repeat constructor|]). by apply elem_of_nil in Hs.
Qed.
Definition outcome : MatrixOutcome :=
  {| o_passed := [key_of (first_spec Smoke 1 (Some 1) KThroughput None Uring)];
     o_failed := [key_of (first_spec Smoke 1 (Some 1) KThroughput None Tokio)]; o_not_sustained := []; o_stopped := None |}.
Definition answer : result MatrixOutcome MatrixError * World :=
  run_configs_with_stop (SampleExecutor.run SampleExecutor.good) (fun _ => mret None) constants specs ∅ world.
End SampleConfigs.

Lemma run_configs_outcome_witness :
  SampleConfigs.answer.1 = Ok SampleConfigs.outcome /\
  NoDup (o_failed SampleConfigs.outcome ++ o_passed SampleConfigs.outcome) /\
  (forall k, k ∈ o_passed SampleConfigs.outcome -> passed_on_disk SampleConfigs.constants SampleConfigs.answer.2 k) /\
  (forall k, k ∈ o_failed SampleConfigs.outcome ->
     budget_spent_on_disk SampleConfigs.constants (allowance SampleConfigs.constants ∅) SampleConfigs.answer.2 k).
Proof.
  assert (E : SampleConfigs.answer.1 = Ok SampleConfigs.outcome) by (by vm_compute). split; [done|].
  assert (E2 : SampleConfigs.answer = (Ok SampleConfigs.outcome, SampleConfigs.answer.2)) by (rewrite <- E; apply surjective_pairing).
  destruct (run_configs_outcome (SampleExecutor.run SampleExecutor.good) (fun _ => mret None) SampleConfigs.constants
              SampleConfigs.specs ∅ SampleConfigs.world (Ok SampleConfigs.outcome) SampleConfigs.answer.2) as (H1 & _ & H3 & H4).
  - apply SampleExecutor.run_executor.
  - intros k. apply moves_ret. apply quiet_preorder.
  - intros k. apply total_ret.
  - exact SampleConfigs.specs_ok.
  - exact E2.
  - split; [exact H1|]. split; [exact H3|]. exact (H4 eq_refl).
Defined.
