(* ===== verification/MatrixSession.v ===== *)
(** * Resuming and ending a session

    What bench/src/matrix.rs [resume_plan] decides from the records on disk, what
    [check_resume] lets pass, and that a whole session ends. *)

From S2P Require Import Prelude Text F64 Api Wire Recorder Generator Pacer RunRecord Analysis Sorting Verdict Matrix MatrixSafety MatrixRounds.
#[local] Open Scope matrix_scope.

(** ** The end of a session *)

(** The records of the output directory carry [u32] attempt numbers. *)
Definition typed_records (w : World) : Prop := forall name r, files w !! name = Some (Some r) -> r_attempt r < 2 ^ 32.

Lemma read_one_ok name body w r w' : read_one name body w = (Ok r, w') -> body = Some r /\ name = file_name r /\ r_schema r = SCHEMA_VERSION.
Proof.
  unfold read_one. intros H. bind_ok H. destruct body as [rec|]; [|done]. destruct (r_schema rec =? _) eqn:Es; [|done].
  simpl in H. case_bool_decide; [|done]. simpl in H. unfold mret in H. zbool. by simplify_eq.
Qed.

(** Every record read is a file of the directory under its own name. *)
Lemma read_entries_ok l : forall w rs w', read_entries l w = (Ok rs, w') ->
  forall r, r ∈ rs -> (file_name r, Some r) ∈ l /\ r_schema r = SCHEMA_VERSION.
Proof.
  induction l as [|[name body] l IH]; intros w rs w' H r Hr; simpl in H.
  { unfold mret in H. simplify_eq. by apply elem_of_nil in Hr. }
  bind_ok H. destruct (has_json_ext name).
  - bind_ok H. bind_ok H. unfold mret in H. simplify_eq. apply read_one_ok in E0 as (-> & -> & ?).
    apply elem_of_cons in Hr as [->|Hr]; [split; [by left|done]|]. destruct (IH _ _ _ E1 r Hr). split; [by right|done].
  - destruct (IH _ _ _ H r Hr). split; [by right|done].
Qed.

Lemma read_records_ok w rs w' r : read_records w = (Ok rs, w') -> r ∈ rs -> files w !! file_name r = Some (Some r) /\ r_schema r = SCHEMA_VERSION.
Proof.
  unfold read_records. intros H Hr. bind_ok H. destruct (read_entries_ok _ _ _ _ H r Hr) as [Hin ?]. split; [|done].
  by apply elem_of_map_to_list in Hin.
Qed.

(** A plan whose attempts are [u32] and whose budgets are not negative. *)
Definition plan_ok (plan : gmap ConfigKey ResumeState) : Prop :=
  forall k a n, plan !! k = Some (NextAttempt a n) -> a < 2 ^ 32 /\ 0 <= n.

Lemma plan_for_ok runs constants a n : (forall r, r ∈ runs -> r_attempt r < 2 ^ 32) ->
  plan_for runs constants = Some (NextAttempt a n) -> a < 2 ^ 32 /\ 0 <= n.
Proof.
  intros Ht. unfold plan_for. set (sorted := sort_by _ runs). destruct (config_passes _ _ _) as [[]|]; [done| |done].
  case_match eqn:El; intros [= <- <-]; zbool; [split; [done|unfold sat_sub; lia]|]. split; [|done].
  destruct (last sorted) as [r|] eqn:E; [|done]. apply Ht. apply last_Some_elem_of in E.
  unfold sorted in E. by rewrite sort_by_perm in E.
Qed.

Lemma plan_keys_ok existing constants keys : (forall r, r ∈ existing -> r_attempt r < 2 ^ 32) -> forall plan plan',
  plan_ok plan -> plan_keys existing constants keys plan = Some plan' -> plan_ok plan'.
Proof.
  intros Ht. induction keys as [|k keys IH]; intros plan plan' Hp H; simpl in H; [by simplify_eq|].
  destruct (plan_for _ _) as [state|] eqn:E; [|done]. eapply IH; [|exact H].
  intros k' a n [[<- ->]|[_ ?]]%lookup_insert_Some; [|by eapply Hp]. eapply plan_for_ok; [|exact E].
  intros r [? _]%runs_of_in. by apply Ht.
Qed.

Lemma session_plan_ok proc spec host w plan w' : typed_records w -> session_plan proc spec host w = (Ok plan, w') -> plan_ok plan.
Proof.
  intros Ht. unfold session_plan. destruct (m_resume spec); [|by intros [= <- <-] k a n ?%lookup_empty_Some].
  intros H. bind_ok H. destruct (check_resume _ _ _ _ _ _); [|done]. destruct (resume_plan _ _) as [plan'|] eqn:Ep; [|done].
  unfold mret in H. simplify_eq. eapply plan_keys_ok; [|by intros k x n ?%lookup_empty_Some|exact Ep].
  intros r Hr. destruct (read_records_ok _ _ _ _ E Hr) as [Hf _]. by eapply Ht.
Qed.

Lemma session_plan_total proc spec host : total (session_plan proc spec host).
Proof. unfold session_plan. repeat total_step. Qed.

Lemma stop_on_exhaustion_total constants k : total (stop_on_exhaustion constants k).
Proof. unfold stop_on_exhaustion. repeat total_step. Qed.

Section SessionTotal.
Context (run : RunSpec -> World -> RunRecord * World) `{!Executor run} (spec : MatrixSpec) (host : HostSetup)
        (plan : gmap ConfigKey ResumeState) (Hplan : plan_ok plan).

Lemma plan_specs_ok specs run0 skipped : (forall s, s ∈ specs -> spec_wf s /\ sp_attempt s < 2 ^ 32) ->
  plan_specs plan specs = (run0, skipped) -> forall s, s ∈ run0 -> spec_wf s /\ sp_attempt s < 2 ^ 32.
Proof.
  revert run0 skipped. induction specs as [|x specs IH]; intros run0 skipped Hs H s Hin; simpl in H; [simplify_eq; by apply elem_of_nil in Hin|].
  destruct (plan_specs plan specs) as [run1 skipped1] eqn:E.
  assert (Hrest : s ∈ run1 -> spec_wf s /\ sp_attempt s < 2 ^ 32) by (eapply IH; [intros y ?; apply Hs; by right|done]).
  destruct (Hs x) as [Hw Ha]; [by left|]. unfold plan_spec in H.
  destruct (plan !! key_of x) as [[|a n]|] eqn:Ep; simplify_eq; [by apply Hrest| |]; apply elem_of_cons in Hin as [->|Hin]; try by apply Hrest.
  - destruct (Hplan _ _ _ Ep). split; [by apply with_attempt_wf|done].
  - done.
Qed.

Lemma stage_ok specs : (forall s, s ∈ specs -> spec_wf s /\ sp_attempt s < 2 ^ 32) ->
  configs_ok (stage_constants spec) specs (remaining_of plan).
Proof.
  intros Hs. constructor; [by destruct (m_profile spec) eqn:E; unfold stage_constants; rewrite E..| |done].
  intros k n. unfold remaining_of. rewrite lookup_omap. destruct (plan !! k) as [[|a m]|] eqn:E; simpl; try done.
  intros [= <-]. by destruct (Hplan _ _ _ E).
Qed.

Lemma stage_total stop specs run0 skipped : (forall k, moves quiet (stop k)) -> (forall k, total (stop k)) ->
  (forall s, s ∈ specs -> spec_wf s /\ sp_attempt s < 2 ^ 32) -> plan_specs plan specs = (run0, skipped) ->
  total (run_configs_with_stop run stop (stage_constants spec) run0 (remaining_of plan)).
Proof.
  intros Hq Ht Hs Hp w w' H. apply run_configs_with_stop_spec in H; [done..|]. apply stage_ok. by eapply plan_specs_ok.
Qed.

Lemma configs_of_total specs run0 skipped : (forall s, s ∈ specs -> spec_wf s /\ sp_attempt s < 2 ^ 32) ->
  plan_specs plan specs = (run0, skipped) -> total (configs_of run spec plan run0).
Proof.
  intros Hs Hp. unfold configs_of, run_configs. eapply stage_total; [|by intros; apply total_ret|exact Hs|exact Hp].
  intros k. apply moves_ret. typeclasses eauto.
Qed.

Lemma first_spec_wf profile w q kind rate server : 0 <= w -> opt_nonneg q -> opt_nonneg rate ->
  spec_wf (first_spec profile w q kind rate server) /\ sp_attempt (first_spec profile w q kind rate server) < 2 ^ 32.
Proof. intros. split; [by constructor|done]. Qed.

Lemma declared_rates_nonneg profile w q rates : declared_rates profile w q = Some rates -> 0 <= lower rates /\ 0 <= higher rates.
Proof. unfold declared_rates. intros H. repeat case_match; simplify_eq; done. Qed.

Lemma latency_specs_wf servers w q rates s : 0 <= w -> 0 <= q -> declared_rates (m_profile spec) w q = Some rates ->
  s ∈ latency_specs (m_profile spec) (h_syscalls host) servers w q rates -> spec_wf s /\ sp_attempt s < 2 ^ 32.
Proof.
  intros Hw Hq [Hlo Hhi]%declared_rates_nonneg (server & Hin & _)%list_elem_of_bind. unfold both in Hin. simpl in Hin.
  rewrite !elem_of_cons in Hin. destruct Hin as [->|[->|Hin]]; [by apply first_spec_wf..|].
  case_bool_decide; [by apply elem_of_nil in Hin|]. apply list_elem_of_singleton in Hin as ->. by apply first_spec_wf.
Qed.

Lemma open_loop_stage_total servers w q rates o : 0 <= w -> 0 <= q -> declared_rates (m_profile spec) w q = Some rates ->
  total (open_loop_stage run spec host plan servers w q rates o).
Proof.
  intros Hw Hq Hr. unfold open_loop_stage. destruct (plan_specs _ _) as [specs skipped] eqn:E.
  destruct (m_profile spec) eqn:Ep.
  - apply total_bind; [|intros lat; repeat total_step]. eapply stage_total; [|apply stop_on_exhaustion_total| |exact E].
    { intros k. apply stop_on_exhaustion_quiet. }
    intros s. rewrite <- Ep. by apply latency_specs_wf; rewrite ?Ep.
  - apply total_bind; [|intros lat; auto with total]. eapply configs_of_total; [|exact E].
    intros s. rewrite <- Ep. by apply latency_specs_wf; rewrite ?Ep.
Qed.

Lemma row_group_total servers w q o : 0 <= w -> 0 <= q -> total (row_group run spec host plan servers w q o).
Proof.
  intros Hw Hq. unfold row_group. apply total_bind; [auto with total|intros []; [auto with total|]].
  destruct (plan_specs _ _) as [specs skipped] eqn:E. apply total_bind.
  - eapply configs_of_total; [|exact E]. intros s (server & -> & _)%list_elem_of_fmap. by apply first_spec_wf.
  - intros thr. destruct (declared_rates _ _ _) as [rates|] eqn:Er; [|auto with total].
    apply total_bind; [by apply open_loop_stage_total|intros; auto with total].
Qed.

Lemma row_groups_total servers w qs : 0 <= w -> Forall (Z.le 0) qs -> forall o, total (row_groups run spec host plan servers w qs o).
Proof.
  intros Hw Hq. induction Hq as [|q qs Hq0 Hq IH]; intros o; simpl; [auto with total|].
  apply total_bind; [by apply row_group_total|intros []; auto with total].
Qed.

Lemma worker_groups_total ws : Forall (Z.le 0) ws -> Forall (Z.le 0) (m_qos spec) -> forall o, total (worker_groups run spec host plan ws o).
Proof.
  intros Hws Hq. induction Hws as [|w ws Hw Hws IH]; intros o; simpl; [auto with total|].
  apply total_bind; [by apply row_groups_total|intros [o1|o1]; [|auto with total]]. apply total_bind; [|done].
  unfold connections_stage. apply total_bind; [auto with total|intros []; [auto with total|]].
  destruct (plan_specs _ _) as [specs skipped] eqn:E. apply total_bind; [|intros; auto with total].
  eapply configs_of_total; [|exact E]. intros s (server & -> & _)%list_elem_of_fmap. by apply first_spec_wf.
Qed.
End SessionTotal.

Lemma quiet_typed w w' : quiet w w' -> typed_records w -> typed_records w'.
Proof. intros [F _] H name r. rewrite F. apply H. Qed.

(** A session ends: the search for a free attempt number and the rounds of every
    stage stop by the loop's own conditions, whatever the file system and the
    executor answer. *)
Theorem session_terminates run proc spec host w : Executor run -> Forall (Z.le 0) (m_workers spec) ->
  Forall (Z.le 0) (m_qos spec) -> typed_records w ->
  (run_matrix_with run proc spec host w).1 <> Err OutOfFuel.
Proof.
  intros HE Hw Hq Ht H. destruct (run_matrix_with run proc spec host w) as [r w'] eqn:E. simpl in H. subst r. revert E.
  unfold run_matrix_with, mbind.
  destruct (io_step _ w) as [[u|e] w1] eqn:E1; [|intros [= -> _]; by apply total_io in E1].
  destruct (io_step _ w1) as [[u2|e] w2] eqn:E2; [|intros [= -> _]; by apply total_io in E2].
  destruct (session_plan _ _ _ w2) as [[plan|e] w3] eqn:E3; [|intros [= -> _]; by apply session_plan_total in E3].
  assert (Hp : plan_ok plan).
  { eapply session_plan_ok; [|exact E3]. eapply quiet_typed; [|exact Ht].
    transitivity w1; (eapply moves_eq; [apply io_step_quiet|done]). }
  by apply worker_groups_total.
Qed.

Lemma session_terminates_witness :
  (run_matrix_with (SampleExecutor.run SampleExecutor.good) (fun _ => Ok None) SampleExecutor.spec
     SampleExecutor.host SampleExecutor.world).1 <> Err OutOfFuel.
Proof.
  apply session_terminates; [apply SampleExecutor.run_executor|by repeat constructor..|].
  intros name r H. unfold SampleExecutor.world in H. simpl in H. by apply lookup_singleton_Some in H as [_ ?].
Defined.

(** ** The resume plan *)

Lemma stable_insert (x : RunRecord) l a :
  attempt_runs (insert_sorted (fun r s => r_attempt r <=? r_attempt s) x l) a = attempt_runs (x :: l) a.
Proof.
  induction l as [|y l IH]; [done|]. simpl. destruct (r_attempt x <=? r_attempt y) eqn:E; [done|].
  unfold attempt_runs in *. simpl in *. rewrite IH. zbool.
  destruct (r_attempt y =? a) eqn:Ey, (r_attempt x =? a) eqn:Ex; zbool; done || lia.
Qed.

(** Sorting by attempt keeps the order of the runs of an attempt. *)
Lemma stable_sort l a : attempt_runs (sort_by (fun r s => r_attempt r <=? r_attempt s) l) a = attempt_runs l a.
Proof.
  induction l as [|x l IH]; [done|]. cbn [sort_by foldr]. rewrite stable_insert. unfold attempt_runs in *. simpl.
  fold (sort_by (fun r s => r_attempt r <=? r_attempt s) l). by rewrite IH.
Qed.

(** The attempts recorded for a configuration decide the plan: the state each
    one is in. *)
Definition plan_means (runs : list RunRecord) (constants : ProtocolConstants) (state : ResumeState) : Prop :=
  exists h, highest_attempt runs h /\
  match state with
  | ResumePassed => config_passes (attempt_runs runs h) (repetitions constants) (enforce_spread constants) = Some true
  | NextAttempt a n =>
      config_passes (attempt_runs runs h) (repetitions constants) (enforce_spread constants) = Some false /\
      exists c, completed_count runs constants c /\
        ((h < 2 ^ 32 - 1 /\ a = h + 1 /\ n = sat_sub (max_config_attempts constants) (Z.min (2 ^ 32 - 1) c)) \/
         (2 ^ 32 - 1 <= h /\ a = h /\ n = 0))
  end.

Lemma completed_sorted runs k n : completed_count (sort_by (fun r s => r_attempt r <=? r_attempt s) runs) k n ->
  completed_count runs k n.
Proof.
  intros (l & Hnd & Hl & ->). exists l. split_and!; [done| |done]. intros a. rewrite Hl. unfold completed, attempts.
  by rewrite stable_sort, (sort_by_perm _ runs).
Qed.

Lemma last_sorted_highest runs r : last (sort_by (fun r s => r_attempt r <=? r_attempt s) runs) = Some r ->
  highest_attempt runs (r_attempt r).
Proof.
  intros E. split.
  - apply last_Some_elem_of in E. rewrite (sort_by_perm _ runs) in E. by apply list_elem_of_fmap_2.
  - intros a (x & -> & Hx)%list_elem_of_fmap.
    assert (S : Sorted.StronglySorted (fun a b => (r_attempt a <=? r_attempt b) = true) (sort_by (fun r s => r_attempt r <=? r_attempt s) runs)).
    { apply sort_by_sorted; intros; zbool; lia. }
    rewrite <- (sort_by_perm (fun r s => r_attempt r <=? r_attempt s) runs) in Hx. apply last_Some in E as [m E]. rewrite E in S, Hx.
    apply elem_of_app in Hx as [Hx|Hx]; [|apply list_elem_of_singleton in Hx as ->; lia]. clear E.
    induction m as [|y m IH]; [by apply elem_of_nil in Hx|]. inversion S as [|? ? S' Hy]; subst.
    apply elem_of_cons in Hx as [->|Hx]; [|by apply IH]. rewrite Forall_forall in Hy. assert (Hr : (r_attempt y <=? r_attempt r) = true) by (apply Hy; set_solver). zbool. lia.
Qed.

Lemma plan_for_means runs constants state : runs <> [] -> plan_for runs constants = Some state -> plan_means runs constants state.
Proof.
  intros Hne. unfold plan_for. set (sorted := sort_by _ runs).
  destruct (last sorted) as [r|] eqn:El.
  2:{ apply last_None in El. pose proof (sort_by_perm (fun a b => r_attempt a <=? r_attempt b) runs) as P. fold sorted in P.
      rewrite El in P. by apply Permutation_nil_l in P. }
  pose proof (last_sorted_highest _ _ El) as Hh. fold (attempt_runs sorted (r_attempt r)). unfold sorted at 1. rewrite stable_sort.
  pose proof (completed_sorted _ _ _ (completed_groups_count sorted constants)) as Hc.
  destruct (config_passes _ _ _) as [[]|] eqn:Ec; [intros [= <-]; by exists (r_attempt r)| |done].
  intros H. exists (r_attempt r). split; [done|].
  case_match eqn:E; simplify_eq; zbool; (split; [done|]); eexists; (split; [exact Hc|]); [left|right; split_and!; [lia|done|done]].
  split_and!; [lia|done|done].
Qed.

Lemma plan_keys_lookup existing constants keys : forall plan plan' k, NoDup keys ->
  plan_keys existing constants keys plan = Some plan' ->
  (k ∈ keys -> exists state, plan_for (runs_of existing k) constants = Some state /\ plan' !! k = Some state) /\ (k ∉ keys -> plan' !! k = plan !! k).
Proof.
  induction keys as [|k0 keys IH]; intros plan plan' k Hnd H; simpl in H; [simplify_eq; by split; [intros ?%elem_of_nil|]|].
  apply NoDup_cons in Hnd as [Hni Hnd]. destruct (plan_for (runs_of existing k0) constants) as [state|] eqn:E; [|done].
  destruct (IH _ _ k Hnd H) as [Hin Hout]. split.
  - intros [->|Hk]%elem_of_cons; [|by apply Hin]. exists state. by rewrite (Hout Hni), lookup_insert_eq.
  - intros Hn. rewrite not_elem_of_cons in Hn. destruct Hn as [Hne Hn]. rewrite (Hout Hn). by apply lookup_insert_ne.
Qed.

(** The resume plan says of exactly the recorded configurations what their
    records say: passed when the records of the highest attempt pass, otherwise
    the attempt after every recorded one and the budget less the complete
    attempts; at the last attempt number nothing is left to run. (C26) *)
Theorem resume_plan_sound existing constants plan k : resume_plan existing constants = Some plan ->
  match plan !! k with
  | None => runs_of existing k = []
  | Some state => plan_means (runs_of existing k) constants state
  end.
Proof.
  unfold resume_plan. intros H. apply (plan_keys_lookup _ _ _ _ _ k) in H as [Hin Hout]; [|apply NoDup_elements].
  assert (Hk : k ∈ elements (list_to_set (key <$> existing) : gset ConfigKey) <-> runs_of existing k <> []).
  { rewrite elem_of_elements, elem_of_list_to_set, list_elem_of_fmap. split.
    - intros (r & -> & Hr) E. assert (Hx : r ∈ runs_of existing (key r)) by (by apply runs_of_in). rewrite E in Hx. by apply elem_of_nil in Hx.
    - intros Hne. destruct (runs_of existing k) as [|r l] eqn:E; [done|]. exists r.
      assert (Hx : r ∈ runs_of existing k) by (rewrite E; by left). by apply runs_of_in in Hx as [? ?]. }
  destruct (decide (runs_of existing k = [])) as [E|E].
  - rewrite Hout by (rewrite Hk; intros Hn; by apply Hn). by rewrite lookup_empty.
  - destruct (Hin (proj2 Hk E)) as (state & Hp & ->). by apply plan_for_means.
Qed.

Lemma resume_plan_sound_witness :
  resume_plan [VerdictSample.lost] VerdictSample.constants = Some {[key VerdictSample.lost := NextAttempt 2 0]} /\
  plan_means (runs_of [VerdictSample.lost] (key VerdictSample.lost)) VerdictSample.constants (NextAttempt 2 0).
Proof.
  assert (E : resume_plan [VerdictSample.lost] VerdictSample.constants = Some {[key VerdictSample.lost := NextAttempt 2 0]})
    by (vm_compute; reflexivity).
  split; [exact E|]. pose proof (resume_plan_sound _ _ _ (key VerdictSample.lost) E) as H.
  by rewrite lookup_singleton_eq in H.
Defined.
